(* ===== verification/_CoqProject ===== *)
-Q . S2P
Prelude.v
Keystone.v
BlockIndex.v
Chain.v
PopScore.v
PayloadsIndex.v
TreeAlgo.v
BaseTree.v
TreeInv.v
TreeRemove.v
TreeStorage.v
BlockTree.v
BlockTreeInv.v
AcceptHeader.v
Serde.v
Base58.v
StrUtil.v
ArithUint256.v
Address.v
Blocks.v
BtcContext.v
VbkContext.v
Payloads.v
Endorsements.v
PopState.v
BlockAddons.v
StoredAddons.v
Merkle.v
MerklePaths.v
PopSearch.v
Secp256k1.v
AltParams.v
StatelessValidation.v
PowTrees.v
Commands.v
PopStateMachine.v
PopStateMachineInv.v
DeferGuard.v
AddBlock.v
AddBlockInv.v
AddEndorsement.v
Recovery.v
AltUtil.v
EndorsementInv.v
PopViews.v
ForkResolution.v
VbkTree.v
AltTree.v
AltTreeInv.v
Rewards.v
ValueSortedMap.v
Storage.v
Reload.v
Restart.v
