(* ===== verification/Prelude.v ===== *)
(** * Verification of alt-integration-cpp

    alt-integration-cpp gives an altchain proof of proof: the altchain publishes
    its block headers in transactions of VeriBlock, VeriBlock publishes its own
    headers in Bitcoin, and an altchain node compares two of its forks by how
    early their blocks were published.  The library therefore keeps three block
    trees.  This development models the library and proves what its parts
    promise to each other.

    ** The program

    - [BaseBlockTree] (src/include/veriblock/pop/blockchain/base_block_tree.hpp) owns the nodes of a
      tree: headers, links, status flags, the set of valid tips, the active
      chain.  [BlockTree] (blocktree.hpp) adds proof of work: it is the Bitcoin
      tree.  [VbkBlockTree] (pop/vbk_block_tree.hpp) is a [BlockTree] whose
      blocks contain VTBs (publications of VeriBlock in Bitcoin); it owns the
      Bitcoin tree.  [AltBlockTree] (alt_block_tree.hpp) holds the headers of
      the altchain with their POP data (VeriBlock headers, VTBs, and ATVs, which are
      publications of the altchain in VeriBlock); it owns the VeriBlock tree.
    - POP data arrive as bytes (serde.cpp and the entities), pass the stateless
      checks (stateless_validation.cpp), are attached to a block
      ([AltBlockTree::acceptBlock]) and turned into commands (commands/): add a
      header to the protecting tree, add an endorsement, check a publication.
    - The POP state machine (pop/pop_state_machine.hpp) executes the commands
      of the blocks between the current and the wanted tip, and rolls them back
      when one of them fails.  The comparator (pop/fork_resolution.hpp) applies
      two forks side by side and compares their scores.

    ** Conventions

    - A C++ function that can fail is a function into [result] (below): a
      failed check with its reasons is [Invalid], a failed [VBK_ASSERT] is
      [Assert], a C++ exception is [Throw], undefined behaviour is [Undef].  A
      [bool] function that changes the state also when it fails returns the
      state and a [bool].  Log messages, tracing and pretty printing are left out.
    - Objects that are changed are records passed along; a member of a derived class
      is in the field [ext] of the tree, so a tree that owns another tree has it
      there, and there is one world.  Virtual functions are the class [TreeHooks]; calls
      nested to depth [n] are [vbk_hooks n], [alt_hooks n].
    - A [BlockIndex*] is the key of the node in the store of its tree, a pointer to an
      endorsement is an address with its (immutable) target.  A [std::set] or
      [std::map] ordered by address is visited in the order of stdpp's
      [elements]; no theorem depends on that order.
    - Integers are [Z]; conversions ([i32], [u32], ...) wrap around, arithmetic
      of signed types that would overflow is [Undef] ([cki32]).  Bytes are
      integers below 256.  [double] arithmetic is binary64 (VbkContext, Rewards).
    - SHA-256 ([Hashes]), ProgPow ([ProgPow]), libsecp256k1 ([EcLibrary]), the
      rules that the altchain supplies ([AltChainParams]) and its storage
      of payloads ([PayloadsStorage]) are parameters.  Hypotheses on them are the
      lengths of hashes and what libsecp256k1 documents.  The theorems about Merkle
      roots allow for a collision, but only between two strings that were hashed to
      compute these two roots ([clash] of Merkle).  Taking the hash of a VeriBlock header
      for the first time aborts beyond the ethash tables ([computeHash] of Blocks).
    - Loops without a structural argument have fuel.  For each of them a
      theorem or lemma shows that the fuel the code gives is enough: heights bound
      walks to ancestors and traversals ([forEachChild_inv], [getForkBlock_correct],
      [sm_setState_refines]), the number of blocks bounds the worklist of [acceptBlock]
      ([acceptBlock_connects]), lengths bound the loops over bytes ([toString_roundtrip],
      [checkBitcoinTransactionForPoPData_outcome]); [OutOfFuel] is no outcome of the
      operations with a theorem of totality.

    ** Files

    Foundations.  Prelude: outcomes, integers, lemmas on lists.  Keystone
    (keystone_util.cpp).  Serde (read_stream.hpp, write_stream.hpp, serde.cpp),
    Base58 (base58.cpp, base59.cpp), StrUtil (strutil.cpp), ArithUint256
    (arith_uint256.cpp), Secp256k1 (crypto/secp256k1.cpp).

    Entities (src/src/pop/entities/).  Address, Blocks (the three headers),
    Payloads (transactions, ATV, VTB, PopData), Endorsements (endorsements and
    context info), Merkle and MerklePaths (Merkle trees and paths).

    Block trees (blockchain/).  BlockIndex, Chain, TreeAlgo, PayloadsIndex: nodes,
    chains, traversals, indexes.  BaseTree, TreeStorage: the operations of
    [BaseBlockTree]; TreeInv and TreeRemove: its invariant.  BlockTree with
    BlockTreeInv and AcceptHeader: proof of work and the best chain; DeferGuard:
    deferred fork resolution.  PopState, BlockAddons, StoredAddons: what the nodes of the
    three trees carry, and its form on disk.  BtcContext, VbkContext: difficulty,
    times, keystones; PowTrees: the Bitcoin and the VeriBlock tree put together.

    POP.  StatelessValidation and PopSearch: the stateless checks.  Commands,
    AddBlock with AddBlockInv, AddEndorsement with EndorsementInv: the commands and
    their rollback.  PopStateMachine with PopStateMachineInv.  PopScore, PopViews,
    ForkResolution: the comparison.  Recovery: pointers of loaded blocks.  AltParams,
    AltUtil: parameters and publications of an altchain.  VbkTree, AltTree, AltTreeInv:
    the two POP aware trees.  Storage: saving and loading the three trees; Reload:
    loading into a bootstrapped tree; Restart: both put together for the Bitcoin tree.
    Rewards: the payouts of a block (rewards/default_poprewards_calculator.cpp).
    ValueSortedMap (value_sorted_map.hpp): the container of the payloads in flight.

    The interfaces between them are classes: [BlockAddon], [BlockHash], [BlockHeader],
    [PayloadIds] (what a node offers to a tree), [BlockRules] (what a chain offers
    to [BlockTree]), [TreeHooks], [StoredAddon], [NodeStorage], [Codec] (encoding with its
    laws), and the record [lawful] of Commands, which is what the state machine asks of
    a command and what EndorsementInv proves of one.

    ** What is proved

    - Switching blocks: [sm_setState_refines] (refinement of an abstract specification,
      atomicity), [unapply_apply], [execute_atomic], [AddEndorsement_lawful],
      [AddBlock_undo].
    - Connecting blocks: [acceptBlock_connects].
    - Choosing chains: [comparePopScoreImpl_total], [earlier_publication_wins],
      [view_context_correct].
    - Trees: [invalidateSubtree_best_chain] and its companions, [revalidateSubtree_undo],
      [removeSubtree_correct], [acceptBlockHeader_best_chain], [guard_release_best],
      [btc_acceptBlockHeader_correct], [getForkBlock_correct].
    - Restarting: [restart_restores] (on [reload_ok]: loading rebuilds the tree that was
      saved), [saved_node_roundtrip], [recoverEndorsements_correct].  Nodes of equal
      height may be saved and loaded in any order.
    - Rewards: [getPopPayout_conserves].
    - Validation: [checkPopData_sound], [checkPopData_first_error],
      [checkProofOfWork_correct], [checkBitcoinTransactionForPoPData_accepts], the contextual
      rules of BtcContext and VbkContext.
    - Data: round trips and safe decoding of PopData and stored nodes, Base58, binding
      of Merkle roots, arithmetic modulo 2^256, publications ([GeneratePublicationData_accepted]).

    ** Not modelled

    The rest of the mempool, the assembly of a context from a configuration
    (config.cpp, pop_context.hpp), threads, JSON, printing, logging, tracing, the C interface, the mock
    miner, the adaptors of LevelDB and RocksDB, the vendored bfi, libethash, ProgPow
    and third_party code.  The validator is the one built with VBK_NO_THREADS.  The manifest
    lists each part with the reason.  Three simplifications of data: [minContainingVbkBlockHeight]
    of [AltBlockAddon] is never used and left out; the reasons of a failed header or state
    change are a [bool] where no caller reads them; a reader keeps its position inside the
    buffer, except in PopSearch, where positions are set by hand. *)
From stdpp Require Export base tactics list gmap fin_maps sets strings pretty.
From Stdlib Require Export ZArith Lia.

Declare Scope pop_scope.
Delimit Scope pop_scope with pop.
#[global] Open Scope Z_scope.

(** ** Outcomes of C++ code

    - [Ok a]: the function returned normally (a [bool] function returned true);
    - [Invalid trace]: a validation failed; [trace] is
      [ValidationState::stack_trace], the reasons in the order they were pushed;
    - [Assert]: a [VBK_ASSERT] fired, the process aborts;
    - [Throw]: a C++ exception left the function;
    - [Undef]: the code has undefined behaviour at this point;
    - [OutOfFuel]: the fuel the model gives to a loop is used up.  The
      development proves that this does not happen. *)
Inductive result (A : Type) : Type :=
| Ok (a : A)
| Invalid (trace : list string)
| Assert (what : string)
| Throw (what : string)
| Undef (what : string)
| OutOfFuel.
Arguments Ok {A} a.
Arguments Invalid {A} trace.
Arguments Assert {A} what.
Arguments Throw {A} what.
Arguments Undef {A} what.
Arguments OutOfFuel {A}.

#[export] Instance result_ret : MRet result := fun A a => Ok a.
#[export] Instance result_bind : MBind result := fun A B f m =>
  match m with
  | Ok a => f a
  | Invalid t => Invalid t
  | Assert w => Assert w
  | Throw w => Throw w
  | Undef w => Undef w
  | OutOfFuel => OutOfFuel
  end.
#[export] Instance result_fmap : FMap result := fun A B f m => a ← m; Ok (f a).

#[export] Instance result_eq_dec {A} `{EqDecision A} : EqDecision (result A).
Proof. solve_decision. Defined.

(** [VBK_ASSERT(b)] *)
Definition vassert (b : bool) (what : string) : result unit :=
  if b then Ok () else Assert what.

(** [state.Invalid(reason)] on a fresh [ValidationState]. *)
Definition invalid {A} (reason : string) : result A := Invalid [reason].

(** [if (!f(state)) return state.Invalid(reason);]: push a reason on top of
    the reasons of the failed callee. *)
Definition or_invalid {A} (m : result A) (reason : string) : result A :=
  match m with Invalid t => Invalid (t ++ [reason]) | r => r end.

(** [ValidationState::Invalid(reason, index)]: the index goes below the reason. *)
Definition or_invalid_at {A} (m : result A) (reason : string) (index : Z) : result A :=
  match m with Invalid t => Invalid (t ++ [pretty index; reason]) | r => r end.

Infix "?!" := or_invalid (at level 52, left associativity) : pop_scope.
#[global] Open Scope pop_scope.

(** Loops over a sequence of elements with early exit. *)
Fixpoint foldM {S X} (f : S → X → result S) (l : list X) (s : S) : result S :=
  match l with
  | [] => Ok s
  | x :: l => s ← f s x; foldM f l s
  end.

(** ** Safe outcomes: the caller gets a value or a validation error. *)
Definition safe {A} (m : result A) : Prop :=
  match m with Ok _ | Invalid _ => True | _ => False end.

Definition is_ok {A} (m : result A) : bool :=
  match m with Ok _ => true | _ => false end.

(** ** Machine integers: reduction to the width of the C++ type. *)
Definition wrapU (w z : Z) : Z := z mod 2 ^ w.
Definition wrapS (w z : Z) : Z := (z + 2 ^ (w - 1)) mod 2 ^ w - 2 ^ (w - 1).
Abbreviation u8 := (wrapU 8).
Abbreviation u16 := (wrapU 16).
Abbreviation u32 := (wrapU 32).
Abbreviation u64 := (wrapU 64).
Abbreviation i16 := (wrapS 16).
Abbreviation i32 := (wrapS 32).
Abbreviation i64 := (wrapS 64).

Definition INT32_MAX : Z := 2147483647.
Definition INT32_MIN : Z := -2147483648.

(** Signed [int32_t] arithmetic overflows with undefined behaviour. *)
Definition ckS (w z : Z) : result Z :=
  if (- 2 ^ (w - 1) <=? z) && (z <? 2 ^ (w - 1)) then Ok z else Undef "signed overflow".
Abbreviation cki32 := (ckS 32).
Abbreviation cki64 := (ckS 64).
#[global] Arguments wrapU : simpl never.
#[global] Arguments wrapS : simpl never.
#[global] Arguments ckS : simpl never.

Lemma wrapU_small w z : 0 <= z < 2 ^ w → wrapU w z = z.
Proof. intros. unfold wrapU. by rewrite Z.mod_small. Qed.

Lemma wrapU_range w z : 0 <= w → 0 <= wrapU w z < 2 ^ w.
Proof. intros. unfold wrapU. apply Z.mod_pos_bound. lia. Qed.

Lemma wrapS_small w z : 0 < w → - 2 ^ (w - 1) <= z < 2 ^ (w - 1) → wrapS w z = z.
Proof.
  intros Hw Hz. unfold wrapS.
  assert (2 ^ w = 2 * 2 ^ (w - 1)) as E.
  { rewrite <- Z.pow_succ_r by lia. f_equal. lia. }
  rewrite Z.mod_small; lia.
Qed.

Lemma wrapS_range w z : 0 < w → - 2 ^ (w - 1) <= wrapS w z < 2 ^ (w - 1).
Proof.
  intros Hw. unfold wrapS.
  assert (2 ^ w = 2 * 2 ^ (w - 1)) as E.
  { rewrite <- Z.pow_succ_r by lia. f_equal. lia. }
  pose proof (Z.mod_pos_bound (z + 2 ^ (w - 1)) (2 ^ w)). lia.
Qed.

Lemma ckS_ok w z : - 2 ^ (w - 1) <= z < 2 ^ (w - 1) → ckS w z = Ok z.
Proof.
  intros H. unfold ckS.
  destruct (Z.leb_spec (- 2 ^ (w - 1)) z); [|lia].
  destruct (Z.ltb_spec z (2 ^ (w - 1))); [done|lia].
Qed.

(** ** Inversion of monadic code *)
Lemma bind_Ok {A B} (m : result A) (f : A → result B) b :
  (a ← m; f a) = Ok b ↔ ∃ a, m = Ok a ∧ f a = Ok b.
Proof. destruct m; simpl; naive_solver. Qed.

Lemma bind_safe {A B} (m : result A) (f : A → result B) :
  safe m → (∀ a, m = Ok a → safe (f a)) → safe (a ← m; f a).
Proof. destruct m; simpl; naive_solver. Qed.

Lemma or_invalid_safe {A} (m : result A) r : safe (m ?! r) ↔ safe m.
Proof. by destruct m. Qed.

Lemma or_invalid_Ok {A} (m : result A) r a : m ?! r = Ok a ↔ m = Ok a.
Proof. destruct m; simpl; naive_solver. Qed.

Lemma or_invalid_at_safe {A} (m : result A) r i : safe (or_invalid_at m r i) ↔ safe m.
Proof. by destruct m. Qed.

Lemma foldM_app {S X} (f : S → X → result S) l1 l2 s :
  foldM f (l1 ++ l2) s = (s ← foldM f l1 s; foldM f l2 s).
Proof. revert s. induction l1 as [|x l1 IH]; intros s; simpl; [done|]. destruct (f s x); simpl; auto. Qed.

(** A loop that never fails, with an invariant on what it has visited. *)
Lemma foldM_inv {S X} (f : S → X → result S) (I : list X → S → Prop) l s : I [] s →
  (∀ seen x s, x ∈ l → I seen s → ∃ s', f s x = Ok s' ∧ I (seen ++ [x]) s') →
  ∃ s', foldM f l s = Ok s' ∧ I l s'.
Proof.
  intros H0 Hstep. enough (∀ l2 l1 s, l = l1 ++ l2 → I l1 s → ∃ s', foldM f l2 s = Ok s' ∧ I l s') as Hall by (by apply (Hall l [])).
  induction l2 as [|x l2 IH]; intros l1 s1 E Hs; cbn [foldM].
  - exists s1. by rewrite E, app_nil_r.
  - destruct (Hstep l1 x s1) as (s2 & -> & Hs2); [rewrite E; set_solver|done|]. cbn [mbind result_bind].
    apply (IH (l1 ++ [x])); [by rewrite E, <- app_assoc|done].
Qed.

Lemma vassert_Ok b w u : vassert b w = Ok u ↔ b = true.
Proof. destruct b, u; simpl; naive_solver. Qed.

Lemma vassert_true b w : b = true → vassert b w = Ok ().
Proof. by intros ->. Qed.

(** Lists built element by element from the same list. *)
(** Different keys of a map are no more than its entries. *)
Lemma NoDup_keys_size `{Countable K} {V} (m : gmap K V) (l : list K) :
  NoDup l → (∀ k, k ∈ l → is_Some (m !! k)) → (length l <= size m)%nat.
Proof.
  intros Hnd Hin. rewrite <- (size_list_to_set (C := gset K) l) by done. rewrite <- (size_dom m).
  apply subseteq_size. intros k Hk%elem_of_list_to_set. by apply elem_of_dom, Hin.
Qed.

Lemma elem_of_rev {A} (l : list A) x : x ∈ rev l ↔ x ∈ l.
Proof. by rewrite <- Permutation_rev. Qed.

Lemma Forall2_map_map {X A B} (P : A → B → Prop) (f : X → A) (g : X → B) (l : list X) :
  Forall (λ x, P (f x) (g x)) l → Forall2 P (map f l) (map g l).
Proof. induction 1; constructor; done. Qed.

Create HintDb pop discriminated.
Create HintDb keystone discriminated.
#[export] Hint Resolve bind_safe : pop.
#[export] Hint Rewrite @or_invalid_Ok @or_invalid_safe @or_invalid_at_safe : pop.

(** [inv_ok] decomposes hypotheses [(x ← m; k) = Ok v]. *)
Ltac inv_ok :=
  repeat match goal with
  | H : mbind _ _ = Ok _ |- _ => apply bind_Ok in H as (? & ? & ?)
  | H : mret _ = Ok _ |- _ => injection H as H
  | H : Ok _ = Ok _ |- _ => injection H as H
  | H : vassert _ _ = Ok _ |- _ => apply vassert_Ok in H
  | H : or_invalid _ _ = Ok _ |- _ => apply or_invalid_Ok in H
  | H : Invalid _ = Ok _ |- _ => discriminate H
  | H : invalid _ = Ok _ |- _ => discriminate H
  | H : Assert _ = Ok _ |- _ => discriminate H
  | H : Undef _ = Ok _ |- _ => discriminate H
  | H : Throw _ = Ok _ |- _ => discriminate H
  | H : OutOfFuel = Ok _ |- _ => discriminate H
  end; subst.

(** [rewrite_ok] runs the goal forward along hypotheses [m = Ok a]. *)
Ltac rewrite_ok :=
  repeat match goal with
  | E : ?m = Ok _ |- context [mbind _ ?m] => rewrite E; cbn [mbind result_bind]
  end.

(** [bsplit] splits on the boolean comparisons of integers in the goal. *)
Ltac bsplit :=
  repeat match goal with
  | |- context [Z.leb ?a ?b] => destruct (Z.leb_spec a b)
  | |- context [Z.ltb ?a ?b] => destruct (Z.ltb_spec a b)
  | |- context [Z.eqb ?a ?b] => destruct (Z.eqb_spec a b)
  end; simpl; try lia; try done.
