(* ===== verification/Keystone.v ===== *)
(** * Keystone arithmetic ([src/pop/keystone_util.cpp])

    A keystone is a block whose height is a multiple of the keystone interval.
    Heights are [int32_t], the interval is [uint32_t]: C++ converts a height to
    [uint32_t] before [%], [/] and [+] with the interval, and the result back
    to [int32_t] on return.  Division by a zero interval is undefined. *)
From S2P Require Import Prelude.

Definition u32_rem (a k : Z) : result Z :=
  if k =? 0 then Undef "division by zero" else Ok (u32 a mod k).

Definition u32_quot (a k : Z) : result Z :=
  if k =? 0 then Undef "division by zero" else Ok (u32 a / k).

Definition highestKeystoneAtOrBefore (blockNumber keystoneInterval : Z) : result Z :=
  vassert (0 <=? blockNumber) "negative block number";;
  r ← u32_rem blockNumber keystoneInterval;
  let diff := i32 r in
  cki32 (blockNumber - diff).

Definition blockHeightToKeystoneNumber (blockHeight keystoneInterval : Z) : result Z :=
  q ← u32_quot blockHeight keystoneInterval;
  Ok (i32 q).

Definition isKeystone (blockNumber keystoneInterval : Z) : result bool :=
  vassert (0 <=? blockNumber) "negative block number";;
  r ← u32_rem blockNumber keystoneInterval;
  Ok (r =? 0).

Definition firstKeystoneAfter (blockNumber keystoneInterval : Z) : result Z :=
  vassert (0 <=? blockNumber) "negative block number";;
  ks ← isKeystone blockNumber keystoneInterval;
  if (ks : bool) then Ok (i32 (u32 (u32 blockNumber + keystoneInterval)))
  else
    r ← u32_rem blockNumber keystoneInterval;
    let diff := i32 r in
    Ok (i32 (u32 (u32 blockNumber + u32 (keystoneInterval - u32 diff)))).

Definition highestBlockWhichConnectsKeystoneToPrevious
    (blockNumberOfKeystone keystoneInterval : Z) : result Z :=
  ks ← isKeystone blockNumberOfKeystone keystoneInterval;
  vassert ks "non-keystone block";;
  Ok (i32 (u32 (u32 (u32 blockNumberOfKeystone + keystoneInterval) + 1))).

Definition isCrossedKeystoneBoundary
    (bottomHeight tipHeight keystoneInterval : Z) : result bool :=
  vassert (0 <=? bottomHeight) "negative bottomHeight";;
  vassert (0 <=? tipHeight) "negative tipHeight";;
  keystoneIntervalAmount ← u32_quot bottomHeight keystoneInterval;
  tipIntervalAmount ← u32_quot tipHeight keystoneInterval;
  Ok (i32 keystoneIntervalAmount <? i32 tipIntervalAmount).

Definition areOnSameKeystoneInterval (height1 height2 keystoneInterval : Z) : result bool :=
  a ← u32_quot height1 keystoneInterval;
  b ← u32_quot height2 keystoneInterval;
  Ok (a =? b).

Definition getPreviousKeystoneHeight
    (height keystoneInterval keystone_num : Z) : result Z :=
  if u32 height <=? u32 (1 + u32 (keystone_num * keystoneInterval)) then Ok 0
  else
    h1 ← cki32 (height - 1);
    ks ← isKeystone h1 keystoneInterval;
    arg ← (if (ks : bool) then cki32 (height - 2) else cki32 (height - 1));
    h ← highestKeystoneAtOrBefore arg keystoneInterval;
    let ret := i32 (u32 (u32 h - u32 (keystone_num * keystoneInterval))) in
    Ok (if ret <? 0 then 0 else ret).

(** ** Lemmas *)
Definition height_ok (h : Z) : Prop := 0 <= h <= INT32_MAX.
Definition interval_ok (k : Z) : Prop := 0 < k <= INT32_MAX.

Ltac hlia := unfold height_ok, interval_ok, INT32_MAX in *; lia.

Lemma u32_height h : height_ok h → u32 h = h.
Proof. unfold height_ok, INT32_MAX. intros. apply wrapU_small. lia. Qed.

Lemma i32_height h : height_ok h → i32 h = h.
Proof. unfold height_ok, INT32_MAX. intros. apply wrapS_small; lia. Qed.

Lemma u32_rem_ok h k : height_ok h → interval_ok k → u32_rem h k = Ok (h mod k).
Proof.
  intros Hh Hk. unfold u32_rem. rewrite u32_height by done.
  unfold interval_ok in Hk. bsplit.
Qed.

Lemma u32_quot_ok h k : height_ok h → interval_ok k → u32_quot h k = Ok (h / k).
Proof.
  intros Hh Hk. unfold u32_quot. rewrite u32_height by done.
  unfold interval_ok in Hk. bsplit.
Qed.

Lemma mod_height h k : height_ok h → interval_ok k → height_ok (h mod k) ∧ h mod k <= h.
Proof.
  intros Hh Hk. unfold height_ok, interval_ok in *.
  pose proof (Z.mod_pos_bound h k). pose proof (Z.mod_le h k). lia.
Qed.

Lemma div_height h k : height_ok h → interval_ok k → height_ok (h / k).
Proof.
  intros Hh Hk. unfold height_ok, interval_ok in *.
  pose proof (Z.div_pos h k). pose proof (Z.div_le_upper_bound h k h). nia.
Qed.

#[export] Hint Rewrite u32_height i32_height u32_rem_ok u32_quot_ok
  using (first [done | apply mod_height; done | apply div_height; done]) : keystone.

Ltac keystone := repeat (progress (autorewrite with keystone; simpl)).

Lemma leb_height h : height_ok h → (0 <=? h) = true.
Proof. intros [??]. by apply Z.leb_le. Qed.

Lemma isKeystone_eq h k : height_ok h → interval_ok k →
  isKeystone h k = Ok (h mod k =? 0).
Proof. intros. unfold isKeystone. rewrite leb_height by done. by keystone. Qed.

Lemma highestKeystoneAtOrBefore_eq h k : height_ok h → interval_ok k →
  highestKeystoneAtOrBefore h k = Ok (h - h mod k).
Proof.
  intros Hh Hk. unfold highestKeystoneAtOrBefore. rewrite leb_height by done. keystone.
  destruct (mod_height h k) as [[??]?]; try done. apply ckS_ok.
  unfold height_ok, INT32_MAX in *. lia.
Qed.

Lemma blockHeightToKeystoneNumber_eq h k : height_ok h → interval_ok k →
  blockHeightToKeystoneNumber h k = Ok (h / k).
Proof. intros. unfold blockHeightToKeystoneNumber. by keystone. Qed.

Lemma firstKeystoneAfter_eq h k : height_ok h → interval_ok k → h + k <= INT32_MAX →
  firstKeystoneAfter h k = Ok (h - h mod k + k).
Proof.
  intros Hh Hk Hs. unfold firstKeystoneAfter. rewrite leb_height by done. simpl.
  rewrite isKeystone_eq by done. simpl.
  destruct (mod_height h k) as [??]; try done.
  pose proof (Z.mod_pos_bound h k).
  destruct (Z.eqb_spec (h mod k) 0) as [E|E].
  - rewrite (u32_height h) by done. rewrite (wrapU_small 32) by hlia.
    rewrite wrapS_small by hlia. f_equal. lia.
  - keystone. rewrite (i32_height (h mod k)), (u32_height (h mod k)) by done.
    rewrite (wrapU_small 32 (k - _)) by hlia. rewrite (wrapU_small 32) by hlia.
    rewrite wrapS_small by hlia. f_equal. lia.
Qed.

Lemma highestConnecting_eq h k : height_ok h → interval_ok k → h mod k = 0 →
  h + k + 1 <= INT32_MAX →
  highestBlockWhichConnectsKeystoneToPrevious h k = Ok (h + k + 1).
Proof.
  intros Hh Hk Hm Hs. unfold highestBlockWhichConnectsKeystoneToPrevious.
  rewrite isKeystone_eq by done. simpl. rewrite Hm. simpl.
  unfold height_ok, interval_ok, INT32_MAX in *.
  rewrite (wrapU_small 32 h) by lia. rewrite (wrapU_small 32 (h + k)) by lia.
  rewrite (wrapU_small 32) by lia. rewrite wrapS_small by lia. done.
Qed.

Lemma isCrossedKeystoneBoundary_eq a b k : height_ok a → height_ok b → interval_ok k →
  isCrossedKeystoneBoundary a b k = Ok (a / k <? b / k).
Proof.
  intros. unfold isCrossedKeystoneBoundary. rewrite !leb_height by done. by keystone.
Qed.

(** The keystones before a block of height [h]: the block before it, at [h - 1],
    does not count. *)
Lemma getPreviousKeystoneHeight_eq h k n : height_ok h → interval_ok k → 0 <= n → 1 + n * k <= INT32_MAX →
  getPreviousKeystoneHeight h k n = Ok (Z.max 0 (k * ((h - 2) / k - n))).
Proof.
  intros Hh Hk Hn Hs. pose proof Hh as Hh'. pose proof Hk as Hk'. unfold height_ok, interval_ok, INT32_MAX in Hh', Hk', Hs.
  unfold getPreviousKeystoneHeight. rewrite u32_height by done.
  rewrite (wrapU_small 32 (n * k)) by nia. rewrite (wrapU_small 32 (1 + n * k)) by nia.
  pose proof (Z.div_mod (h - 2) k ltac:(lia)) as E2. pose proof (Z.mod_pos_bound (h - 2) k ltac:(lia)).
  destruct (Z.leb_spec h (1 + n * k)) as [Hle|Hgt].
  - f_equal. assert ((h - 2) / k < n) by (apply Z.div_lt_upper_bound; lia). nia.
  - assert (2 <= h) by nia. assert (cki32 (h - 1) = Ok (h - 1)) as -> by (apply ckS_ok; lia).
    assert (cki32 (h - 2) = Ok (h - 2)) as -> by (apply ckS_ok; lia). cbn [mbind result_bind].
    rewrite isKeystone_eq by hlia. cbn [mbind result_bind].
    assert (∃ arg, (if (h - 1) mod k =? 0 then Ok (h - 2) else Ok (h - 1)) = Ok arg ∧ height_ok arg ∧
      arg - arg mod k = k * ((h - 2) / k)) as (arg & -> & Harg & Ea).
    { destruct (Z.eqb_spec ((h - 1) mod k) 0) as [E0|E0].
      - exists (h - 2). split; [done|]. split; [hlia|]. lia.
      - exists (h - 1). split; [done|]. split; [hlia|].
        pose proof (Z.div_mod (h - 1) k ltac:(lia)). pose proof (Z.mod_pos_bound (h - 1) k ltac:(lia)).
        assert ((h - 1) / k = (h - 2) / k) by (apply (Z.div_unique_pos (h - 2) _ _ ((h - 1) mod k - 1)); lia). lia. }
    cbn [mbind result_bind]. rewrite highestKeystoneAtOrBefore_eq by done. cbn [mbind result_bind]. rewrite Ea.
    assert (n <= (h - 2) / k) by (apply Z.div_le_lower_bound; nia). assert (0 <= k * ((h - 2) / k) <= h - 2) by nia.
    rewrite (u32_height (k * _)) by hlia. rewrite (wrapU_small 32) by nia. rewrite wrapS_small by nia.
    f_equal. destruct (Z.ltb_spec (k * ((h - 2) / k) - n * k) 0); nia.
Qed.

(** ** Properties *)

(** For every height and interval in range and no [int32_t] overflow,
    [firstKeystoneAfter] returns the least keystone strictly above the height
    and [highestKeystoneAtOrBefore] the greatest keystone not above it. *)
Lemma keystone_neighbours h k :
  height_ok h → interval_ok k → h + k <= INT32_MAX →
  ∃ lo hi, highestKeystoneAtOrBefore h k = Ok lo ∧ firstKeystoneAfter h k = Ok hi ∧
    isKeystone lo k = Ok true ∧ isKeystone hi k = Ok true ∧ lo <= h < hi ∧
    (∀ m, height_ok m → isKeystone m k = Ok true → m <= lo ∨ hi <= m).
Proof.
  intros Hh Hk Hs. exists (h - h mod k), (h - h mod k + k).
  rewrite highestKeystoneAtOrBefore_eq, firstKeystoneAfter_eq by done.
  destruct (mod_height h k) as [[??]?]; try done.
  assert (0 <= h mod k < k) by (apply Z.mod_pos_bound; apply Hk).
  assert (h - h mod k = k * (h / k)) as E by (pose proof (Z.div_mod h k); unfold interval_ok in *; lia).
  unfold height_ok, interval_ok, INT32_MAX in *.
  repeat split; try lia.
  - rewrite isKeystone_eq by hlia. rewrite E, Z.mul_comm.
    by rewrite Z.mod_mul by lia.
  - rewrite isKeystone_eq by hlia. rewrite E.
    replace (k * (h / k) + k) with ((h / k + 1) * k) by lia. by rewrite Z.mod_mul by lia.
  - intros m Hm. rewrite isKeystone_eq by hlia.
    intros [= Hm0]. apply Z.eqb_eq, Z.div_exact in Hm0; [|lia]. rewrite E.
    destruct (Z.le_gt_cases (m / k) (h / k)); [left|right]; nia.
Qed.

Lemma keystone_neighbours_witness :
  firstKeystoneAfter 41 20 = Ok 60 ∧
  ∃ lo hi, highestKeystoneAtOrBefore 41 20 = Ok lo ∧ firstKeystoneAfter 41 20 = Ok hi ∧
    isKeystone lo 20 = Ok true ∧ isKeystone hi 20 = Ok true ∧ lo <= 41 < hi ∧
    (∀ m, height_ok m → isKeystone m 20 = Ok true → m <= lo ∨ hi <= m).
Proof.
  split; [vm_compute; reflexivity|].
  apply (keystone_neighbours 41 20); unfold height_ok, interval_ok, INT32_MAX; lia.
Defined.
