(* ===== verification/BlockIndex.v ===== *)
(** * Block status flags and block tree nodes
    ([blockchain/block_status.hpp], [blockchain/block_index.hpp])

    A [BlockIndex*] is the key of the node in the tree's store
    ([BaseBlockTree::blocks_] allocates one node per key and asserts that keys
    are never duplicated), [nullptr] is [None], and dereferencing is a lookup
    in the store.  [A] is the addon the C++ struct inherits from, [B] the block
    header.  The set [pnext] is ordered by address in C++; its elements are
    visited here in the order of stdpp's [elements]. *)
From S2P Require Import Prelude.

(** ** [enum BlockStateStatus], [enum BlockValidityStatus] *)
Definition BLOCK_VALID_TREE : Z := 1.
Definition BLOCK_CONNECTED : Z := 2.
Definition BLOCK_CAN_BE_APPLIED_MAYBE_WITH_OTHER_CHAIN : Z := 3.
Definition BLOCK_CAN_BE_APPLIED : Z := 4.
Definition BLOCK_VALID_MASK : Z :=
  Z.lor (Z.lor BLOCK_VALID_TREE BLOCK_CONNECTED)
        (Z.lor BLOCK_CAN_BE_APPLIED_MAYBE_WITH_OTHER_CHAIN BLOCK_CAN_BE_APPLIED).

Definition BLOCK_VALID_UNKNOWN : Z := 0.
Definition BLOCK_BOOTSTRAP : Z := Z.shiftl 1 4.
Definition BLOCK_FAILED_BLOCK : Z := Z.shiftl 1 5.
Definition BLOCK_FAILED_POP : Z := Z.shiftl 1 6.
Definition BLOCK_FAILED_CHILD : Z := Z.shiftl 1 7.
Definition BLOCK_FAILED_MASK : Z :=
  Z.lor (Z.lor BLOCK_FAILED_CHILD BLOCK_FAILED_POP) BLOCK_FAILED_BLOCK.
Definition BLOCK_HAS_PAYLOADS : Z := Z.shiftl 1 8.
Definition BLOCK_ACTIVE : Z := Z.shiftl 1 9.
Definition BLOCK_DELETED : Z := Z.shiftl 1 10.

Definition isValidInvalidationReason (reason : Z) : bool :=
  (reason =? BLOCK_FAILED_BLOCK) || (reason =? BLOCK_FAILED_POP).

(** ** The node *)
Record BlockIndex (K B A : Type) `{Countable K} := mkBlockIndex {
  height : Z;
  header : B;
  status : Z;
  dirty : bool;
  pprev : option K;
  pnext : gset K;
  finalized : bool;
  addon : A
}.
Arguments mkBlockIndex {K B A _ _}.
Arguments height {K B A _ _}.
Arguments header {K B A _ _}.
Arguments status {K B A _ _}.
Arguments dirty {K B A _ _}.
Arguments pprev {K B A _ _}.
Arguments pnext {K B A _ _}.
Arguments finalized {K B A _ _}.
Arguments addon {K B A _ _}.

(** What an addon offers to the node: [validTipLevel] and [setNull]. *)
Class BlockAddon (A : Type) := { validTipLevel : Z; addon_setNull : A → A }.

Section node.
Context {K B A : Type} `{Countable K}.
Notation index_t := (BlockIndex K B A).

Definition with_status (s : Z) (d : bool) (i : index_t) : index_t :=
  mkBlockIndex (height i) (header i) s d (pprev i) (pnext i) (finalized i) (addon i).
Definition with_dirty (d : bool) (i : index_t) : index_t := with_status (status i) d i.
Definition with_addon (a : A) (i : index_t) : index_t :=
  mkBlockIndex (height i) (header i) (status i) (dirty i) (pprev i) (pnext i) (finalized i) a.
Definition with_links (p : option K) (n : gset K) (i : index_t) : index_t :=
  mkBlockIndex (height i) (header i) (status i) (dirty i) p n (finalized i) (addon i).
Definition with_finalized (f : bool) (i : index_t) : index_t :=
  mkBlockIndex (height i) (header i) (status i) (dirty i) (pprev i) (pnext i) f (addon i).

Definition isTip (i : index_t) : bool := bool_decide (pnext i = ∅).
Definition isRoot (i : index_t) : bool := bool_decide (pprev i = None).

Definition setDirty (i : index_t) : index_t := with_dirty true i.
Definition unsetDirty (i : index_t) : index_t := with_dirty false i.
Definition isDirty (i : index_t) : bool := dirty i.

Definition hasFlags (i : index_t) (s : Z) : bool := negb (Z.land (status i) s =? 0).

Definition setFlag (s : Z) (i : index_t) : index_t :=
  let newStatus := Z.lor (status i) s in
  if newStatus =? status i then i else with_status newStatus true i.

Definition unsetFlag (s : Z) (i : index_t) : index_t :=
  let newStatus := Z.ldiff (status i) s in
  if newStatus =? status i then i else with_status newStatus true i.

Definition setStatus (s : Z) (i : index_t) : index_t :=
  if s =? status i then i else with_status s true i.

Definition setHeight (h : Z) (i : index_t) : index_t :=
  mkBlockIndex h (header i) (status i) true (pprev i) (pnext i) (finalized i) (addon i).

Definition setHeader (b : B) (i : index_t) : index_t :=
  mkBlockIndex (height i) b (status i) true (pprev i) (pnext i) (finalized i) (addon i).

Definition isDeleted (i : index_t) : bool := hasFlags i BLOCK_DELETED.
Definition isFailed (i : index_t) : bool := negb (Z.land (status i) BLOCK_FAILED_MASK =? 0).

Definition getValidityLevel (i : index_t) : result Z :=
  let level := Z.land (status i) BLOCK_VALID_MASK in
  vassert (level <=? BLOCK_CAN_BE_APPLIED) "unknown validity level";;
  Ok level.

Definition isValidUpTo (upTo : Z) (i : index_t) : result bool :=
  validityLevel ← getValidityLevel i;
  vassert (negb (validityLevel =? BLOCK_CAN_BE_APPLIED) || negb (hasFlags i BLOCK_FAILED_POP))
    "BLOCK_CAN_BE_APPLIED and BLOCK_FAILED_POP are mutually exclusive";;
  level ← getValidityLevel i;
  Ok (upTo <=? level).

Definition isValid (upTo : Z) (i : index_t) : result bool :=
  if isFailed i then Ok false else isValidUpTo upTo i.

Definition isConnected (i : index_t) : result bool := isValidUpTo BLOCK_CONNECTED i.

Definition restore (i : index_t) : result index_t :=
  vassert (isDeleted i) "tried to restore a block that is not deleted";;
  Ok (unsetFlag BLOCK_DELETED i).

Definition lowerValidity (upTo : Z) (i : index_t) : index_t * bool :=
  if negb (Z.land (status i) BLOCK_FAILED_POP =? 0) then (i, false)
  else if upTo <? Z.land (status i) BLOCK_VALID_MASK then
    (with_status (Z.lor (Z.ldiff (status i) BLOCK_VALID_MASK) upTo) (dirty i) i, true)
  else (i, false).

(** The predecessor's level is read only to check the assertion. *)
Definition raiseValidity (prev : option index_t) (upTo : Z) (i : index_t)
    : result (index_t * bool) :=
  if negb (Z.land (status i) BLOCK_FAILED_POP =? 0) then Ok (i, false)
  else if Z.land (status i) BLOCK_VALID_MASK <? upTo then
    match prev with
    | None => Ok ()
    | Some p =>
      level ← getValidityLevel p;
      vassert (upTo <=? level) "validity level beyond that of the ancestor"
    end;;
    Ok (with_status (Z.lor (Z.ldiff (status i) BLOCK_VALID_MASK) upTo) (dirty i) i, true)
  else Ok (i, false).

Context `{BlockAddon A}.

Definition deleteTemporarily (i : index_t) : result index_t :=
  vassert (negb (isDeleted i)) "tried to delete a block that is already deleted";;
  let s := Z.lor (Z.lor (Z.land (status i) BLOCK_FAILED_MASK) BLOCK_VALID_UNKNOWN)
                 BLOCK_DELETED in
  Ok (with_status s true (with_addon (addon_setNull (addon i)) i)).

Definition canBeATip (i : index_t) : result bool :=
  if isDeleted i then Ok false else isValid validTipLevel i.

(** [BlockIndex(BlockIndex* prev)]: a node in the deleted state; the
    constructor also links it into [prev->pnext], and the height is an [int32_t]: see
    [createBlockIndex]. *)
Definition newIndex (prev_key : K) (prev : index_t) (b : B) (a : A) : index_t :=
  let i := mkBlockIndex 0 b (Z.lor BLOCK_VALID_UNKNOWN BLOCK_DELETED) false
             (Some prev_key) ∅ false a in
  let i := if isFailed prev then setFlag BLOCK_FAILED_CHILD i else i in
  mkBlockIndex (height prev + 1) (header i) (status i) (dirty i)
    (pprev i) (pnext i) (finalized i) (addon i).

(** [explicit BlockIndex(height_t)]: a root node in the deleted state. *)
Definition newRootIndex (h : Z) (b : B) (a : A) : index_t :=
  mkBlockIndex h b (Z.lor BLOCK_VALID_UNKNOWN BLOCK_DELETED) false None ∅ false a.
End node.

(** ** Nodes in their store *)
Section store.
Context {K B A : Type} `{Countable K}.
Notation index_t := (BlockIndex K B A).
Notation store := (gmap K index_t).

Definition deref (m : store) (k : K) : result index_t :=
  match m !! k with Some i => Ok i | None => Undef "dangling BlockIndex pointer" end.

(** Pointers to the children, in iteration order. *)
Definition children (m : store) (i : index_t) : list K := elements (pnext i).

(** [getPrev]: asserts that heights are consecutive. *)
Definition getPrev (m : store) (k : K) : result (option K) :=
  i ← deref m k;
  match pprev i with
  | None => Ok None
  | Some p =>
    j ← deref m p;
    vassert (height i =? height j + 1) "unexpected height of the previous block";;
    Ok (Some p)
  end.

(** [while (index != nullptr && index->height > _height) index = index->getPrev();] *)
Fixpoint getAncestor_loop (fuel : nat) (m : store) (index : option K) (h : Z)
    : result (option K) :=
  match index with
  | None => Ok None
  | Some k =>
    i ← deref m k;
    if h <? height i then
      match fuel with
      | O => OutOfFuel
      | S fuel => p ← getPrev m k; getAncestor_loop fuel m p h
      end
    else Ok (Some k)
  end.

Definition getAncestor (m : store) (k : K) (h : Z) : result (option K) :=
  vassert (0 <=? h) "negative height";;
  i ← deref m k;
  if height i <? h then Ok None
  else
    r ← getAncestor_loop (Z.to_nat (height i - h)) m (Some k) h;
    match r with
    | None => Ok None
    | Some a =>
      j ← deref m a;
      vassert (height j =? h) "ancestor height";;
      Ok (Some a)
    end.

Definition getAncestorBlocksBehind (m : store) (k : K) (steps : Z) : result (option K) :=
  i ← deref m k;
  if (steps <? 0) || (height i <? steps) then Ok None
  else getAncestor m k (height i - steps).

Definition isDescendantOf (m : store) (k ancestor : K) : result bool :=
  j ← deref m ancestor;
  r ← getAncestor m k (height j);
  Ok (bool_decide (r = Some ancestor)).

Definition isAncestorOf (m : store) (k descendant : K) : result bool :=
  i ← deref m k;
  r ← getAncestor m descendant (height i);
  Ok (bool_decide (r = Some k)).

(** [getForkBlock]: walk both cursors back in lockstep. *)
Fixpoint getForkBlock_loop (fuel : nat) (m : store) (a b : option K) : result (option K) :=
  match a, b with
  | Some ka, Some kb =>
    if bool_decide (ka = kb) then Ok (Some ka)
    else
      match fuel with
      | O => OutOfFuel
      | S fuel =>
        pa ← getPrev m ka;
        pb ← getPrev m kb;
        getForkBlock_loop fuel m pa pb
      end
  | _, _ => Ok None
  end.

Definition getForkBlock (m : store) (a b : K) : result (option K) :=
  ia ← deref m a;
  ib ← deref m b;
  let initialHeight := Z.min (height ia) (height ib) in
  ca ← getAncestor m a initialHeight;
  cb ← getAncestor m b initialHeight;
  getForkBlock_loop (Z.to_nat initialHeight + 1) m ca cb.

(** The recursive call of [isBlockOutdated] is on the fork point. *)
Fixpoint isBlockOutdated (fuel : nat) (m : store) (finalBlock candidate : K) : result bool :=
  fi ← deref m finalBlock;
  ci ← deref m candidate;
  a ← getAncestor m candidate (height fi);
  if bool_decide (a = Some finalBlock) then Ok false
  else if height ci <? height fi then Ok true
  else if (height ci =? height fi) && negb (bool_decide (finalBlock = candidate)) then Ok true
  else
    b ← getAncestor m finalBlock (height ci);
    if bool_decide (b = Some candidate) then Ok false
    else
      fork ← getForkBlock m finalBlock candidate;
      match fork with
      | None => Ok true
      | Some f =>
        match fuel with
        | O => OutOfFuel
        | S fuel => isBlockOutdated fuel m finalBlock f
        end
      end.

Definition nondeletedDescendantCount (m : store) (i : index_t) : result Z :=
  foldr (λ c acc,
    n ← acc; j ← deref m c;
    Ok (if isDeleted j then n else n + 1)) (Ok 0) (children m i).

(** [std::none_of(pnext..., p)] *)
Fixpoint none_of (m : store) (p : index_t → result bool) (l : list K) : result bool :=
  match l with
  | [] => Ok true
  | c :: l =>
    j ← deref m c;
    b ← p j;
    if (b : bool) then Ok false else none_of m p l
  end.

Definition allDescendantsUnapplied (m : store) (i : index_t) : result bool :=
  if isTip i then Ok true
  else none_of m (λ j, Ok (hasFlags j BLOCK_ACTIVE)) (children m i).

Definition allDescendantsUnconnected (m : store) (i : index_t) : result bool :=
  if isTip i then Ok true else none_of m isConnected (children m i).

Definition isValidTip `{BlockAddon A} (m : store) (i : index_t) : result bool :=
  c ← canBeATip i;
  if (c : bool) then
    if isTip i then Ok true else none_of m canBeATip (children m i)
  else Ok false.
End store.

(** ** Well-formed stores and ancestors *)
Section wf.
Context {K B A : Type} `{Countable K}.
Notation index_t := (BlockIndex K B A).
Notation store := (gmap K index_t).
Implicit Types (m : store) (k a b p c : K) (i j : index_t) (n : nat).

(** Links go both ways and heights are consecutive. *)
Record wf_store (m : store) : Prop := {
  wf_height : ∀ k i, m !! k = Some i → 0 <= height i;
  wf_prev : ∀ k i p, m !! k = Some i → pprev i = Some p →
    ∃ j, m !! p = Some j ∧ height i = height j + 1 ∧ k ∈ pnext j;
  wf_next : ∀ k i c, m !! k = Some i → c ∈ pnext i →
    ∃ j, m !! c = Some j ∧ pprev j = Some k
}.

(** The [n]-th predecessor. *)
Fixpoint back (m : store) (n : nat) (k : K) : option K :=
  match n with
  | O => Some k
  | S n => i ← m !! k; p ← pprev i; back m n p
  end.

Definition ancestor (m : store) (a k : K) : Prop := ∃ n, back m n k = Some a.

Lemma deref_Ok m k i : deref m k = Ok i ↔ m !! k = Some i.
Proof. unfold deref. destruct (m !! k); naive_solver. Qed.

Lemma deref_eq m k i : m !! k = Some i → deref m k = Ok i.
Proof. apply deref_Ok. Qed.

Lemma getPrev_eq m k i : wf_store m → m !! k = Some i → getPrev m k = Ok (pprev i).
Proof.
  intros W Hk. unfold getPrev. rewrite (deref_eq _ _ _ Hk). simpl.
  destruct (pprev i) as [p|] eqn:E; [|done].
  destruct (wf_prev m W k i p) as (j & Hj & Hh & _); [done..|].
  rewrite (deref_eq _ _ _ Hj). simpl. by rewrite Hh, Z.eqb_refl.
Qed.

Lemma back_S m n k i p : m !! k = Some i → pprev i = Some p → back m (S n) k = back m n p.
Proof. intros Hk Hp. simpl. by rewrite Hk; simpl; rewrite Hp. Qed.

Lemma back_add m n1 n2 k x : back m n1 k = Some x → back m (n1 + n2) k = back m n2 x.
Proof.
  revert k. induction n1 as [|n1 IH]; intros k; simpl; [congruence|].
  destruct (m !! k) as [i|]; simpl; [|done]. destruct (pprev i); simpl; [|done]. apply IH.
Qed.

Lemma back_prefix m n1 n2 k y : back m (n1 + n2) k = Some y → ∃ x, back m n1 k = Some x.
Proof.
  revert k. induction n1 as [|n1 IH]; intros k; simpl; [eauto|].
  destruct (m !! k) as [i|]; simpl; [|done]. destruct (pprev i); simpl; [|done]. apply IH.
Qed.

Lemma back_height m n k i x : wf_store m → m !! k = Some i → back m n k = Some x →
  ∃ j, m !! x = Some j ∧ height j = height i - Z.of_nat n.
Proof.
  intros W. revert k i. induction n as [|n IH]; intros k i Hk; simpl.
  - intros [= <-]. exists i. split; [done|lia].
  - rewrite Hk. simpl. destruct (pprev i) as [p|] eqn:E; simpl; [|done]. intros Hb.
    destruct (wf_prev m W k i p) as (j & Hj & Hh & _); [done..|].
    destruct (IH p j Hj Hb) as (x' & ? & ?). exists x'. split; [done|lia].
Qed.

Lemma getAncestor_loop_eq m fuel k i h : wf_store m → m !! k = Some i →
  0 <= h → height i - h <= Z.of_nat fuel →
  getAncestor_loop fuel m (Some k) h = Ok (back m (Z.to_nat (height i - h)) k).
Proof.
  intros W. revert k i. induction fuel as [|fuel IH]; intros k i Hk Hh Hf.
  - simpl. rewrite (deref_eq _ _ _ Hk). simpl.
    destruct (Z.ltb_spec h (height i)); [lia|].
    by replace (Z.to_nat (height i - h)) with 0%nat by lia.
  - simpl. rewrite (deref_eq _ _ _ Hk). simpl.
    destruct (Z.ltb_spec h (height i)).
    + rewrite (getPrev_eq _ _ _ W Hk). simpl.
      replace (Z.to_nat (height i - h)) with (S (Z.to_nat (height i - 1 - h))) by lia.
      simpl. rewrite Hk. simpl. destruct (pprev i) as [p|] eqn:E; simpl.
      * destruct (wf_prev m W k i p) as (j & Hj & Hh' & _); [done..|].
        rewrite (IH p j Hj) by lia. do 3 f_equal. lia.
      * destruct fuel; done.
    + by replace (Z.to_nat (height i - h)) with 0%nat by lia.
Qed.

Lemma getAncestor_eq m k i h : wf_store m → m !! k = Some i → 0 <= h →
  getAncestor m k h =
    Ok (if height i <? h then None else back m (Z.to_nat (height i - h)) k).
Proof.
  intros W Hk Hh. unfold getAncestor.
  rewrite (deref_eq _ _ _ Hk). destruct (Z.leb_spec 0 h); [|lia]. simpl.
  destruct (Z.ltb_spec (height i) h); [done|].
  rewrite (getAncestor_loop_eq _ _ _ _ _ W Hk) by lia. simpl.
  destruct (back m _ k) as [x|] eqn:E; [|done].
  destruct (back_height _ _ _ _ _ W Hk E) as (j & Hj & Hhj).
  rewrite (deref_eq _ _ _ Hj). simpl.
  destruct (Z.eqb_spec (height j) h); [done|lia].
Qed.

(** Ancestors are determined by their height. *)
Lemma ancestor_back m a k i j : wf_store m → m !! k = Some i → m !! a = Some j →
  ancestor m a k → height j <= height i ∧ back m (Z.to_nat (height i - height j)) k = Some a.
Proof.
  intros W Hk Ha [n Hn]. destruct (back_height _ _ _ _ _ W Hk Hn) as (j' & Hj' & Hh).
  assert (j' = j) as -> by congruence. split; [lia|].
  by replace (Z.to_nat (height i - height j)) with n by lia.
Qed.

Lemma ancestor_lookup m a k i : wf_store m → m !! k = Some i → ancestor m a k →
  ∃ j, m !! a = Some j ∧ height j <= height i.
Proof.
  intros W Hk [n Hn]. destruct (back_height _ _ _ _ _ W Hk Hn) as (j & ? & ?).
  exists j. split; [done|lia].
Qed.

Lemma ancestor_refl m k : ancestor m k k.
Proof. by exists 0%nat. Qed.

Lemma ancestor_trans m a b k : ancestor m a b → ancestor m b k → ancestor m a k.
Proof.
  intros [n1 H1] [n2 H2]. exists (n2 + n1)%nat. by rewrite (back_add _ _ _ _ _ H2).
Qed.

Lemma getAncestor_ancestor m k i a j : wf_store m → m !! k = Some i → m !! a = Some j →
  (getAncestor m k (height j) = Ok (Some a) ↔ ancestor m a k).
Proof.
  intros W Hk Ha. rewrite (getAncestor_eq m k i) by eauto using wf_height.
  destruct (Z.ltb_spec (height i) (height j)) as [Hlt|Hge].
  - split; [done|]. intros Hanc.
    destruct (ancestor_back _ _ _ _ _ W Hk Ha Hanc). lia.
  - split.
    + intros [= ?]. by eexists.
    + intros Hanc. by destruct (ancestor_back _ _ _ _ _ W Hk Ha Hanc) as [_ ->].
Qed.

Lemma getAncestor_total m k i h : wf_store m → m !! k = Some i → 0 <= h →
  ∃ r, getAncestor m k h = Ok r.
Proof. intros W Hk Hh. rewrite (getAncestor_eq m k i) by done. by eexists. Qed.

(** *** Fork points *)
Lemma getForkBlock_loop_spec m fuel a b ia ib : wf_store m →
  m !! a = Some ia → m !! b = Some ib → height ia = height ib →
  height ia < Z.of_nat fuel →
  ∃ r, getForkBlock_loop fuel m (Some a) (Some b) = Ok r ∧
    match r with
    | Some f => ∃ n, back m n a = Some f ∧ back m n b = Some f ∧
        ∀ n' x, back m n' a = Some x → back m n' b = Some x → (n <= n')%nat
    | None => ∀ n x, back m n a = Some x → back m n b = Some x → False
    end.
Proof.
  intros W. revert a b ia ib.
  induction fuel as [|fuel IH]; intros a b ia ib Ha Hb Hh Hf.
  { pose proof (wf_height m W _ _ Ha). lia. }
  simpl. case_bool_decide as E.
  { subst b. exists (Some a). split; [done|]. exists 0%nat. simpl.
    split_and!; [done..|]. intros. lia. }
  rewrite (getPrev_eq _ _ _ W Ha), (getPrev_eq _ _ _ W Hb). simpl.
  assert (∀ n x, back m n a = Some x → back m n b = Some x → ∃ pa pb n', n = S n' ∧
    pprev ia = Some pa ∧ pprev ib = Some pb ∧ back m n' pa = Some x ∧ back m n' pb = Some x)
    as Hstep.
  { intros [|n] x; simpl; [congruence|]. rewrite Ha, Hb. simpl.
    destruct (pprev ia) as [pa|], (pprev ib) as [pb|]; simpl; try done.
    intros ??. by exists pa, pb, n. }
  destruct (pprev ia) as [pa|] eqn:Ea; [destruct (pprev ib) as [pb|] eqn:Eb|].
  - destruct (wf_prev m W a ia pa) as (ja & Hja & ? & _); [done..|].
    destruct (wf_prev m W b ib pb) as (jb & Hjb & ? & _); [done..|].
    destruct (IH pa pb ja jb) as (r & Hr & Hspec); [done|done|lia|lia|].
    exists r. split; [done|]. destruct r as [f|].
    + destruct Hspec as (n & Hna & Hnb & Hmin). exists (S n).
      rewrite !(back_S _ _ _ _ _ Ha Ea), !(back_S _ _ _ _ _ Hb Eb).
      split_and!; [done..|]. intros n' x Hx Hx'.
      destruct (Hstep n' x Hx Hx') as (? & ? & n'' & -> & [= <-] & [= <-] & ? & ?).
      enough (n <= n'')%nat by lia. eauto.
    + intros n x Hx Hx'.
      destruct (Hstep n x Hx Hx') as (? & ? & n'' & -> & [= <-] & [= <-] & ? & ?). eauto.
  - exists None. split; [by destruct fuel|]. intros n x Hx Hx'.
    by destruct (Hstep n x Hx Hx') as (? & ? & ? & ? & ? & ? & ?).
  - exists None. split; [by destruct fuel|]. intros n x Hx Hx'.
    by destruct (Hstep n x Hx Hx') as (? & ? & ? & ? & ? & ? & ?).
Qed.

(** [f] is the highest common ancestor of [a] and [b]. *)
Definition fork_point (m : store) (a b f : K) : Prop :=
  ancestor m f a ∧ ancestor m f b ∧
  ∀ g, ancestor m g a → ancestor m g b → ancestor m g f.

Lemma getForkBlock_spec m a b ia ib : wf_store m → m !! a = Some ia → m !! b = Some ib →
  ∃ r, getForkBlock m a b = Ok r ∧
    match r with
    | Some f => fork_point m a b f
    | None => ∀ g, ancestor m g a → ancestor m g b → False
    end.
Proof.
  intros W Ha Hb. unfold getForkBlock. rewrite (deref_eq _ _ _ Ha), (deref_eq _ _ _ Hb). simpl.
  set (h0 := Z.min (height ia) (height ib)).
  assert (0 <= h0) by (pose proof (wf_height m W _ _ Ha); pose proof (wf_height m W _ _ Hb); lia).
  rewrite (getAncestor_eq m a ia), (getAncestor_eq m b ib) by done. simpl.
  destruct (Z.ltb_spec (height ia) h0); [lia|]. destruct (Z.ltb_spec (height ib) h0); [lia|].
  assert (∀ g, ancestor m g a → ancestor m g b → ∃ n,
    back m (Z.to_nat (height ia - h0) + n) a = Some g ∧
    back m (Z.to_nat (height ib - h0) + n) b = Some g) as Hcommon.
  { intros g Hga Hgb. destruct (ancestor_lookup _ _ _ _ W Ha Hga) as (jg & Hg & Hle).
    destruct (ancestor_back _ _ _ _ _ W Ha Hg Hga) as [? Hna].
    destruct (ancestor_back _ _ _ _ _ W Hb Hg Hgb) as [? Hnb].
    exists (Z.to_nat (h0 - height jg)). split; [rewrite <- Hna|rewrite <- Hnb]; f_equal; lia. }
  destruct (back m _ a) as [ca|] eqn:Ea; [destruct (back m _ b) as [cb|] eqn:Eb|].
  - destruct (back_height _ _ _ _ _ W Ha Ea) as (ja & Hja & ?).
    destruct (back_height _ _ _ _ _ W Hb Eb) as (jb & Hjb & ?).
    destruct (getForkBlock_loop_spec m (Z.to_nat h0 + 1) ca cb ja jb) as (r & Hr & Hs);
      [done..|lia|lia|].
    exists r. split; [done|].
    assert (∀ g, ancestor m g a → ancestor m g b → ∃ n,
      back m n ca = Some g ∧ back m n cb = Some g) as Hc.
    { intros g Hga Hgb. destruct (Hcommon g Hga Hgb) as (n & Hna & Hnb). exists n.
      rewrite (back_add _ _ _ _ _ Ea) in Hna. by rewrite (back_add _ _ _ _ _ Eb) in Hnb. }
    destruct r as [f|].
    + destruct Hs as (n & Hna & Hnb & Hmin). split_and!.
      * exists (Z.to_nat (height ia - h0) + n)%nat. by rewrite (back_add _ _ _ _ _ Ea).
      * exists (Z.to_nat (height ib - h0) + n)%nat. by rewrite (back_add _ _ _ _ _ Eb).
      * intros g Hga Hgb. destruct (Hc g Hga Hgb) as (n' & Hna' & Hnb').
        pose proof (Hmin n' g Hna' Hnb'). exists (n' - n)%nat.
        rewrite <- (back_add _ _ (n' - n) _ _ Hna).
        by replace (n + (n' - n))%nat with n' by lia.
    + intros g Hga Hgb. destruct (Hc g Hga Hgb) as (n' & ? & ?). eauto.
  - exists None. split; [by destruct (Z.to_nat h0 + 1)%nat|]. intros g Hga Hgb.
    destruct (Hcommon g Hga Hgb) as (n & _ & Hnb).
    destruct (back_prefix m (Z.to_nat (height ib - h0)) n b g Hnb). congruence.
  - exists None. split; [by destruct (Z.to_nat h0 + 1)%nat|]. intros g Hga Hgb.
    destruct (Hcommon g Hga Hgb) as (n & Hna & _).
    destruct (back_prefix m (Z.to_nat (height ia - h0)) n a g Hna). congruence.
Qed.

(** *** Outdated blocks *)
Lemma isBlockOutdated_S m fuel f c fi ci : wf_store m → m !! f = Some fi → m !! c = Some ci →
  ∃ r, isBlockOutdated (S fuel) m f c = Ok r ∧ (r = false ↔ ancestor m f c).
Proof.
  intros W Hf Hc.
  assert (∀ n c ci, m !! c = Some ci → height ci <= height fi → ∃ r,
    isBlockOutdated n m f c = Ok r ∧ (r = false ↔ ancestor m f c)) as Hlow.
  { clear c ci Hc. intros n c ci Hc Hle.
    assert (∃ ra, getAncestor m c (height fi) = Ok ra ∧ (ra = Some f ↔ ancestor m f c))
      as (ra & Hra & Hanc).
    { destruct (getAncestor_total m c ci (height fi) W Hc) as [ra Hra]; [by eapply wf_height|].
      exists ra. split; [done|]. rewrite <- (getAncestor_ancestor _ _ _ _ _ W Hc Hf), Hra.
      split; [by intros ->|by intros [= ->]]. }
    assert (isBlockOutdated n m f c =
      if bool_decide (ra = Some f) then Ok false else Ok true) as ->.
    { destruct n; cbn [isBlockOutdated]; rewrite (deref_eq _ _ _ Hf), (deref_eq _ _ _ Hc); simpl;
        rewrite Hra; simpl; case_bool_decide as E; try done;
        (destruct (Z.ltb_spec (height ci) (height fi)); [done|]);
        (destruct (Z.eqb_spec (height ci) (height fi)); [|lia]);
        (destruct (bool_decide_reflect (f = c)); [|done]);
        exfalso; apply E, Hanc; subst; apply ancestor_refl. }
    case_bool_decide as E; eexists; (split; [done|]); rewrite <- Hanc; naive_solver. }
  destruct (Z.le_gt_cases (height ci) (height fi)); [by eapply Hlow|].
  cbn [isBlockOutdated]. rewrite (deref_eq _ _ _ Hf), (deref_eq _ _ _ Hc). simpl.
  destruct (getAncestor_total m c ci (height fi) W Hc) as [ra Hra]; [by eapply wf_height|].
  pose proof (getAncestor_ancestor _ _ _ _ _ W Hc Hf) as Hanc. rewrite Hra in *. simpl.
  case_bool_decide as E.
  { exists false. split; [done|]. split; [|done]. intros _. apply Hanc. by subst. }
  destruct (Z.ltb_spec (height ci) (height fi)); [lia|].
  destruct (Z.eqb_spec (height ci) (height fi)); [lia|]. simpl.
  rewrite (getAncestor_eq m f fi) by eauto using wf_height.
  destruct (Z.ltb_spec (height fi) (height ci)); [|lia]. simpl.
  destruct (getForkBlock_spec m f c fi ci) as (r & Hr & Hs); [done..|]. rewrite Hr. simpl.
  destruct r as [g|].
  - destruct Hs as (Hgf & Hgc & _).
    destruct (ancestor_lookup _ _ _ _ W Hf Hgf) as (gi & Hg & Hle).
    destruct (Hlow fuel g gi Hg Hle) as (r & Hr' & Hiff). exists r. split; [done|].
    rewrite Hiff. split; [intros; by eapply ancestor_trans|].
    intros Hfc. exfalso. apply E. apply Hanc in Hfc. by injection Hfc.
  - exists true. split; [done|]. split; [done|]. intros Hfc. exfalso.
    eapply Hs; [apply ancestor_refl|done].
Qed.
End wf.

(** ** Flags as bits *)
Section flags.
Context {K B A : Type} `{Countable K}.
Implicit Types i : BlockIndex K B A.

Lemma land_shiftl_bit x n : 0 <= n →
  negb (Z.land x (Z.shiftl 1 n) =? 0) = Z.testbit x n.
Proof.
  intros Hn. destruct (Z.testbit x n) eqn:E.
  - destruct (Z.eqb_spec (Z.land x (Z.shiftl 1 n)) 0) as [E0|]; [|done].
    apply (f_equal (λ z, Z.testbit z n)) in E0.
    rewrite Z.land_spec, E, Z.shiftl_spec, Z.sub_diag, Z.bits_0 in E0 by lia. done.
  - destruct (Z.eqb_spec (Z.land x (Z.shiftl 1 n)) 0) as [|E0]; [done|].
    exfalso. apply E0. apply Z.bits_inj'. intros k Hk.
    rewrite Z.land_spec, Z.bits_0, Z.shiftl_spec by lia.
    destruct (Z.eq_dec k n) as [->|]; [by rewrite E|].
    destruct (Z.lt_ge_cases k n).
    + rewrite (Z.testbit_neg_r 1) by lia. by rewrite andb_false_r.
    + rewrite (Z.bits_above_log2 1) by (simpl; lia). by rewrite andb_false_r.
Qed.

Lemma hasFlags_bit i n : 0 <= n → hasFlags i (Z.shiftl 1 n) = Z.testbit (status i) n.
Proof. apply land_shiftl_bit. Qed.

Lemma failed_mask_bits x :
  negb (Z.land x BLOCK_FAILED_MASK =? 0) = Z.testbit x 5 || Z.testbit x 6 || Z.testbit x 7.
Proof.
  rewrite <- (land_shiftl_bit x 5), <- (land_shiftl_bit x 6), <- (land_shiftl_bit x 7) by lia.
  unfold BLOCK_FAILED_MASK. rewrite !Z.land_lor_distr_r.
  change BLOCK_FAILED_CHILD with (Z.shiftl 1 7).
  change BLOCK_FAILED_POP with (Z.shiftl 1 6).
  change BLOCK_FAILED_BLOCK with (Z.shiftl 1 5).
  rewrite <- !negb_andb. f_equal.
  destruct (Z.eqb_spec (Z.lor (Z.lor (Z.land x (Z.shiftl 1 7)) (Z.land x (Z.shiftl 1 6)))
    (Z.land x (Z.shiftl 1 5))) 0) as [E|E].
  - apply Z.lor_eq_0_iff in E as [E E5]. apply Z.lor_eq_0_iff in E as [E7 E6].
    by rewrite E5, E6, E7.
  - destruct (Z.eqb_spec (Z.land x (Z.shiftl 1 5)) 0) as [E5|]; [|done].
    destruct (Z.eqb_spec (Z.land x (Z.shiftl 1 6)) 0) as [E6|]; [|done].
    destruct (Z.eqb_spec (Z.land x (Z.shiftl 1 7)) 0) as [E7|]; [|done].
    exfalso. apply E. by rewrite E5, E6, E7.
Qed.

Lemma isFailed_bits i :
  isFailed i = Z.testbit (status i) 5 || Z.testbit (status i) 6 || Z.testbit (status i) 7.
Proof. apply failed_mask_bits. Qed.

Lemma testbit_one n m : 0 <= n → 0 <= m → Z.testbit (Z.shiftl 1 n) m = (m =? n).
Proof.
  intros. rewrite Z.shiftl_spec by lia. destruct (Z.eqb_spec m n) as [->|].
  - by rewrite Z.sub_diag.
  - destruct (Z.lt_ge_cases m n).
    + by rewrite Z.testbit_neg_r by lia.
    + by rewrite Z.bits_above_log2 by (simpl; lia).
Qed.

Lemma status_setFlag s i : status (setFlag s i) = Z.lor (status i) s.
Proof. unfold setFlag. destruct (Z.eqb_spec (Z.lor (status i) s) (status i)); simpl; congruence. Qed.

Lemma status_unsetFlag s i : status (unsetFlag s i) = Z.ldiff (status i) s.
Proof. unfold unsetFlag. destruct (Z.eqb_spec (Z.ldiff (status i) s) (status i)); simpl; congruence. Qed.

Lemma setFlag_bit n m i : 0 <= n → 0 <= m →
  Z.testbit (status (setFlag (Z.shiftl 1 n) i)) m = Z.testbit (status i) m || (m =? n).
Proof. intros. by rewrite status_setFlag, Z.lor_spec, testbit_one. Qed.

Lemma unsetFlag_bit n m i : 0 <= n → 0 <= m →
  Z.testbit (status (unsetFlag (Z.shiftl 1 n) i)) m = Z.testbit (status i) m && negb (m =? n).
Proof. intros. by rewrite status_unsetFlag, Z.ldiff_spec, testbit_one. Qed.

(** Everything but the status and the dirty mark. *)
Definition same_links (i j : BlockIndex K B A) : Prop :=
  height i = height j ∧ pprev i = pprev j ∧ pnext i = pnext j.

Lemma setFlag_links s i : same_links (setFlag s i) i.
Proof. unfold setFlag, same_links. by destruct (_ =? _). Qed.

Lemma unsetFlag_links s i : same_links (unsetFlag s i) i.
Proof. unfold unsetFlag, same_links. by destruct (_ =? _). Qed.

Lemma height_setFlag s i : height (setFlag s i) = height i.
Proof. apply setFlag_links. Qed.
Lemma pprev_setFlag s i : pprev (setFlag s i) = pprev i.
Proof. apply setFlag_links. Qed.
Lemma pnext_setFlag s i : pnext (setFlag s i) = pnext i.
Proof. apply setFlag_links. Qed.
Lemma height_unsetFlag s i : height (unsetFlag s i) = height i.
Proof. apply unsetFlag_links. Qed.
Lemma pprev_unsetFlag s i : pprev (unsetFlag s i) = pprev i.
Proof. apply unsetFlag_links. Qed.
Lemma pnext_unsetFlag s i : pnext (unsetFlag s i) = pnext i.
Proof. apply unsetFlag_links. Qed.
End flags.

(** ** Properties *)
Section props.
Context {K B A : Type} `{Countable K}.
Implicit Types m : gmap K (BlockIndex K B A).

(** C16: in a well-formed store [getForkBlock] returns the highest common
    ancestor of its arguments, and [nullptr] only if they have none. *)
Theorem getForkBlock_correct m a b :
  wf_store m → is_Some (m !! a) → is_Some (m !! b) →
  ∃ r, getForkBlock m a b = Ok r ∧
    match r with
    | Some f => fork_point m a b f
    | None => ∀ g, ¬ (ancestor m g a ∧ ancestor m g b)
    end.
Proof.
  intros W [ia Ha] [ib Hb]. destruct (getForkBlock_spec m a b ia ib W Ha Hb) as (r & Hr & Hs).
  exists r. split; [done|]. destruct r; naive_solver.
Qed.

(** One recursive call is always enough for [isBlockOutdated], and a
    candidate is outdated exactly when the final block is not its ancestor. *)
Lemma isBlockOutdated_correct m fuel final candidate :
  wf_store m → is_Some (m !! final) → is_Some (m !! candidate) →
  ∃ r, isBlockOutdated (S fuel) m final candidate = Ok r ∧
    (r = true ↔ ¬ ancestor m final candidate).
Proof.
  intros W [fi Hf] [ci Hc].
  destruct (isBlockOutdated_S m fuel final candidate fi ci W Hf Hc) as (r & Hr & Hiff).
  exists r. split; [done|]. rewrite <- Hiff. by destruct r.
Qed.
End props.

(** A concrete tree with a fork at block 1: 0 - 1 - {2 - 3, 4}. *)
Module Example_tree.
Definition node (h : Z) (p : option Z) (n : gset Z) : BlockIndex Z unit unit :=
  mkBlockIndex h () 4 false p n false ().
Definition t : gmap Z (BlockIndex Z unit unit) :=
  list_to_map [(0, node 0 None {[1]}); (1, node 1 (Some 0) {[2; 4]});
               (2, node 2 (Some 1) {[3]}); (3, node 3 (Some 2) ∅); (4, node 2 (Some 1) ∅)].

Lemma t_lookup k i : t !! k = Some i →
  (k, i) ∈ [(0, node 0 None {[1]}); (1, node 1 (Some 0) {[2; 4]});
            (2, node 2 (Some 1) {[3]}); (3, node 3 (Some 2) ∅); (4, node 2 (Some 1) ∅)].
Proof. apply elem_of_list_to_map_2. Qed.

Lemma t_wf : wf_store t.
Proof.
  constructor.
  - intros k i Hk%t_lookup. set_unfold in Hk. naive_solver lia.
  - intros k i p Hk%t_lookup Hp. set_unfold in Hk.
    destruct_or?; simplify_eq/=; eexists; (split; [reflexivity|]);
      (split; [reflexivity|set_solver]).
  - intros k i c Hk%t_lookup Hc. set_unfold in Hk.
    destruct_or?; simplify_eq/=; set_unfold in Hc; destruct_or?; simplify_eq/=;
      eexists; (split; reflexivity).
Defined.
End Example_tree.

Lemma getForkBlock_correct_witness :
  getForkBlock Example_tree.t 3 4 = Ok (Some 1) ∧
  ∃ r, getForkBlock Example_tree.t 3 4 = Ok r ∧
    match r with
    | Some f => fork_point Example_tree.t 3 4 f
    | None => ∀ g, ¬ (ancestor Example_tree.t g 3 ∧ ancestor Example_tree.t g 4)
    end.
Proof.
  split; [vm_compute; reflexivity|].
  apply (getForkBlock_correct Example_tree.t 3 4); [apply Example_tree.t_wf|by eexists..].
Defined.

Lemma isBlockOutdated_correct_witness :
  isBlockOutdated 1 Example_tree.t 2 4 = Ok true ∧
  ∃ r, isBlockOutdated 1 Example_tree.t 2 4 = Ok r ∧
    (r = true ↔ ¬ ancestor Example_tree.t 2 4).
Proof.
  split; [vm_compute; reflexivity|].
  apply (isBlockOutdated_correct Example_tree.t 0 2 4); [apply Example_tree.t_wf|by eexists..].
Defined.
