(* ===== verification/Chain.v ===== *)
(** * Chains and chain slices
    ([blockchain/chain.hpp], [blockchain/chain_slice.hpp])

    [Chain] is a vector of node pointers, one per height from [startHeight_];
    entries are [nullptr] until [setTip] has filled them. *)
From S2P Require Import Prelude BlockIndex.

Record Chain (K : Type) := mkChain { startHeight_ : Z; chain : list (option K) }.
Arguments mkChain {K}.
Arguments startHeight_ {K}.
Arguments chain {K}.

(** [std::vector::resize]: drop the tail or append null pointers. *)
Definition resize {K} (n : nat) (l : list (option K)) : list (option K) :=
  take n l ++ replicate (n - length l) None.

Section chain.
Context {K B A : Type} `{Countable K}.
Notation index_t := (BlockIndex K B A).
Notation store := (gmap K index_t).
Implicit Types (m : store) (c : Chain K).

(** [operator[]] *)
Definition chain_at (c : Chain K) (height : Z) : option K :=
  if height <? startHeight_ c then None
  else
    let innerHeight := height - startHeight_ c in
    if Z.of_nat (length (chain c)) <=? innerHeight then None
    else mjoin (chain c !! Z.to_nat innerHeight).

Definition contains (m : store) (c : Chain K) (index : option K) : result bool :=
  match index with
  | None => Ok false
  | Some k => i ← deref m k; Ok (bool_decide (chain_at c (height i) = Some k))
  end.

Definition chain_next (m : store) (c : Chain K) (index : option K) : result (option K) :=
  b ← contains m c index;
  match index with
  | Some k => if (b : bool) then i ← deref m k; Ok (chain_at c (height i + 1)) else Ok None
  | None => Ok None
  end.

Definition chainHeight (c : Chain K) : Z := Z.of_nat (length (chain c)) + startHeight_ c - 1.
Definition blocksCount (c : Chain K) : Z := Z.of_nat (length (chain c)).
Definition chain_empty (c : Chain K) : bool := bool_decide (chain c = []).
Definition chain_tip (c : Chain K) : option K :=
  if chain_empty c then None else chain_at c (chainHeight c).
Definition chain_first (c : Chain K) : option K := mjoin (chain c !! 0%nat).

Fixpoint setTip_loop (fuel : nat) (m : store) (c : Chain K) (index : option K)
    : result (Chain K) :=
  match index with
  | None => Ok c
  | Some k =>
    b ← contains m c (Some k);
    i ← deref m k;
    if (b : bool) || (height i <? startHeight_ c) then Ok c
    else
      match fuel with
      | O => OutOfFuel
      | S fuel =>
        let innerHeight := height i - startHeight_ c in
        let c := mkChain (startHeight_ c) (<[Z.to_nat innerHeight := Some k]> (chain c)) in
        p ← getPrev m k;
        setTip_loop fuel m c p
      end
  end.

Definition setTip (m : store) (c : Chain K) (index : option K) : result (Chain K) :=
  match index with
  | None => Ok (mkChain (startHeight_ c) [])
  | Some k =>
    i ← deref m k;
    if height i <? startHeight_ c then Ok (mkChain (startHeight_ c) [])
    else
      let innerHeight := height i - startHeight_ c in
      let c := mkChain (startHeight_ c) (resize (Z.to_nat (innerHeight + 1)) (chain c)) in
      setTip_loop (S (Z.to_nat innerHeight)) m c (Some k)
  end.

(** [Chain(height_t startHeight, index_t* tip)] *)
Definition newChain (m : store) (startHeight : Z) (tip : option K) : result (Chain K) :=
  setTip m (mkChain startHeight []) tip.

Definition prependRoot (m : store) (c : Chain K) (index : K) : result (Chain K) :=
  i ← deref m index;
  prev ← match chain_first c with
         | Some f => j ← deref m f; Ok (pprev j)
         | None => Ok None
         end;
  vassert (negb (chain_empty c) && bool_decide (prev = Some index))
    "new bootstrap block does not connect to the current one";;
  Ok (mkChain (height i) (Some index :: chain c)).

Definition disconnectTip (c : Chain K) : Chain K :=
  mkChain (startHeight_ c) (removelast (chain c)).

(** [findFork] *)
Fixpoint findFork_loop (fuel : nat) (m : store) (c : Chain K) (index : option K)
    : result (option K) :=
  match index with
  | None => Ok None
  | Some k =>
    b ← contains m c (Some k);
    if (b : bool) then Ok (Some k)
    else
      match fuel with
      | O => OutOfFuel
      | S fuel => p ← getPrev m k; findFork_loop fuel m c p
      end
  end.

Definition findFork (m : store) (c : Chain K) (pindex : option K) : result (option K) :=
  match pindex, chain_tip c with
  | Some k, Some _ =>
    i ← deref m k;
    let lastHeight := chainHeight c in
    start ← (if lastHeight <? height i then getAncestor m k lastHeight else Ok (Some k));
    findFork_loop (S (Z.to_nat (height i))) m c start
  | _, _ => Ok None
  end.

(** ** Chain slices *)
Record ChainSlice := mkSlice { chain_ : Chain K; firstHeight_ : Z; size_ : Z }.

(** [ChainSlice(chain, firstHeight)]: up to the end of the chain; the sizes
    are [size_t]. *)
Definition newSlice (c : Chain K) (firstHeight : Z) : result ChainSlice :=
  let size := u64 (u64 (startHeight_ c + blocksCount c) - firstHeight) in
  vassert (startHeight_ c <=? firstHeight) "slice starts before the chain";;
  vassert (u64 (firstHeight + size) <=? u64 (startHeight_ c + blocksCount c))
    "slice ends after the chain";;
  Ok (mkSlice c firstHeight size).

Definition tipHeight (s : ChainSlice) : Z := i32 (u64 (firstHeight_ s + size_ s)) - 1.

Definition slice_at (s : ChainSlice) (height : Z) : option K :=
  if (height <? firstHeight_ s) || (tipHeight s <? height) then None
  else chain_at (chain_ s) height.

Definition slice_tip (s : ChainSlice) : option K :=
  if size_ s =? 0 then None else chain_at (chain_ s) (tipHeight s).
Definition slice_first (s : ChainSlice) : option K :=
  if size_ s =? 0 then None else chain_at (chain_ s) (firstHeight_ s).

Definition slice_contains (m : store) (s : ChainSlice) (index : option K) : result bool :=
  match index with
  | None => Ok false
  | Some k => i ← deref m k; Ok (bool_decide (slice_at s (height i) = Some k))
  end.
End chain.
Arguments ChainSlice K : clear implicits.
Arguments mkSlice {K}.

(** ** Facts *)
Section facts.
Context {K B A : Type} `{Countable K}.
Notation index_t := (BlockIndex K B A).
Notation store := (gmap K index_t).
Implicit Types (m : store) (c : Chain K) (k x : K) (i j : index_t) (n : nat).

(** The entries of [c] are linked: the one below an entry is its
    predecessor, and heights are those of the positions. *)
Record chain_ok (m : store) (c : Chain K) : Prop := {
  chain_ok_height : ∀ n x, chain c !! n = Some (Some x) →
    ∃ i, m !! x = Some i ∧ height i = startHeight_ c + Z.of_nat n;
  chain_ok_prev : ∀ n x i, chain c !! S n = Some (Some x) → m !! x = Some i →
    chain c !! n = Some (pprev i)
}.

(** [c] is the chain that ends in [k]: every height from [startHeight_] to
    that of [k] holds the ancestor of [k] at that height. *)
Definition chain_of (m : store) (c : Chain K) (k : K) : Prop :=
  ∃ i, m !! k = Some i ∧ startHeight_ c <= height i ∧
    length (chain c) = S (Z.to_nat (height i - startHeight_ c)) ∧
    ∀ n, (n < length (chain c))%nat →
      ∃ x, chain c !! n = Some (Some x) ∧ back m (length (chain c) - 1 - n) k = Some x.

Lemma chain_at_lookup c n : chain_at c (startHeight_ c + Z.of_nat n) = mjoin (chain c !! n).
Proof.
  unfold chain_at. destruct (Z.ltb_spec (startHeight_ c + Z.of_nat n) (startHeight_ c)); [lia|].
  replace (startHeight_ c + Z.of_nat n - startHeight_ c) with (Z.of_nat n) by lia.
  destruct (Z.leb_spec (Z.of_nat (length (chain c))) (Z.of_nat n)).
  - by rewrite lookup_ge_None_2 by lia.
  - by rewrite Nat2Z.id.
Qed.

Lemma chain_at_inv c h x : chain_at c h = Some x →
  ∃ n, h = startHeight_ c + Z.of_nat n ∧ chain c !! n = Some (Some x).
Proof.
  unfold chain_at. destruct (Z.ltb_spec h (startHeight_ c)); [done|].
  destruct (Z.leb_spec (Z.of_nat (length (chain c))) (h - startHeight_ c)); [done|].
  intros Hx. exists (Z.to_nat (h - startHeight_ c)). split; [lia|].
  destruct (chain c !! _); simpl in *; congruence.
Qed.

Lemma contains_eq m c k i : m !! k = Some i →
  contains m c (Some k) = Ok (bool_decide (chain_at c (height i) = Some k)).
Proof. intros Hk. simpl. by rewrite (deref_eq _ _ _ Hk). Qed.

(** In a linked chain, everything below an entry is its chain of ancestors. *)
Lemma chain_ok_back m c n d x : wf_store m → chain_ok m c →
  chain c !! (n + d)%nat = Some (Some x) →
  (∃ r, back m (n + d) x = Some r) →
  ∃ y, chain c !! n = Some (Some y) ∧ back m d x = Some y.
Proof.
  intros W Hok. revert x. induction d as [|d IH]; intros x Hx [r Hr].
  - rewrite Nat.add_0_r in Hx. by exists x.
  - rewrite Nat.add_succ_r in Hx, Hr. destruct (chain_ok_height m c Hok _ _ Hx) as (i & Hi & _).
    pose proof (chain_ok_prev m c Hok _ _ _ Hx Hi) as Hp.
    simpl in Hr. rewrite Hi in Hr. simpl in Hr.
    destruct (pprev i) as [p|] eqn:E; [|done]. simpl in Hr.
    destruct (IH p Hp) as (y & Hy & Hb); [eauto|]. exists y. split; [done|].
    by rewrite (back_S _ _ _ _ _ Hi E).
Qed.

Lemma lookup_resize (n q : nat) (l : list (option K)) x :
  resize n l !! q = Some (Some x) → l !! q = Some (Some x) ∧ (q < n)%nat.
Proof.
  unfold resize. intros Hx.
  assert (q < n)%nat by (apply lookup_lt_Some in Hx; rewrite length_app, length_take, length_replicate in Hx; lia).
  split; [|done].
  destruct (Nat.lt_ge_cases q (length l)).
  - rewrite lookup_app_l in Hx by (rewrite length_take; lia). by rewrite lookup_take_lt in Hx by lia.
  - rewrite lookup_app_r in Hx by (rewrite length_take; lia).
    by apply lookup_replicate in Hx as [? _].
Qed.

Lemma resize_lookup (n q : nat) (l : list (option K)) :
  (q < n)%nat → (q < length l)%nat → resize n l !! q = l !! q.
Proof.
  intros. unfold resize. rewrite lookup_app_l by (rewrite length_take; lia).
  by rewrite lookup_take_lt by lia.
Qed.

Lemma length_resize n (l : list (option K)) : length (resize n l) = n.
Proof. unfold resize. rewrite length_app, length_take, length_replicate. lia. Qed.

Lemma setTip_loop_spec m c0 k i N : wf_store m → chain_ok m c0 →
  m !! k = Some i → Z.of_nat N = height i - startHeight_ c0 →
  (∃ r, back m N k = Some r) →
  ∀ fuel n x c, (n < fuel)%nat → (n <= N)%nat → back m (N - n) k = Some x →
  startHeight_ c = startHeight_ c0 → length (chain c) = S N →
  (∀ q, (n < q <= N)%nat → ∃ y, chain c !! q = Some (Some y) ∧ back m (N - q) k = Some y) →
  (∀ q, (q <= n)%nat → chain c !! q = resize (S N) (chain c0) !! q) →
  ∃ c', setTip_loop fuel m c (Some x) = Ok c' ∧ startHeight_ c' = startHeight_ c0 ∧
    length (chain c') = S N ∧
    ∀ q, (q <= N)%nat → ∃ y, chain c' !! q = Some (Some y) ∧ back m (N - q) k = Some y.
Proof.
  intros W Hok Hk HN [r Hr]. induction fuel as [|fuel IH]; [lia|].
  intros n x c Hfuel Hn Hx Hs Hlen Hhigh Hlow.
  destruct (back_height _ _ _ _ _ W Hk Hx) as (ix & Hix & Hh).
  cbn [setTip_loop]. rewrite (contains_eq _ _ _ _ Hix), (deref_eq _ _ _ Hix).
  assert (height ix = startHeight_ c + Z.of_nat n) as Hhx by lia.
  rewrite Hhx, chain_at_lookup, (Hlow n) by lia. cbn [mbind result_bind].
  case_bool_decide as E.
  - exists c. split_and!; [done..|]. intros q Hq.
    destruct (Nat.le_gt_cases q n); [|apply Hhigh; lia].
    assert (resize (S N) (chain c0) !! n = Some (Some x)) as Hres
      by (destruct (resize (S N) (chain c0) !! n); simpl in E; congruence).
    apply lookup_resize in Hres as [Hres _].
    destruct (chain_ok_back m c0 q (n - q) x W Hok) as (y & Hy & Hb).
    + by replace (q + (n - q))%nat with n by lia.
    + exists r. rewrite <- Hr. transitivity (back m ((N - n) + n) k); [|f_equal; lia].
      rewrite (back_add _ _ _ _ _ Hx). f_equal. lia.
    + exists y. rewrite Hlow, resize_lookup by (first [lia | by eapply lookup_lt_Some]).
      split; [done|]. replace (N - q)%nat with ((N - n) + (n - q))%nat by lia.
      by rewrite (back_add _ _ _ _ _ Hx).
  - cbn [orb]. rewrite Hhx.
    replace (startHeight_ c + Z.of_nat n <? startHeight_ c) with false by bsplit. cbv zeta.
    rewrite (getPrev_eq _ _ _ W Hix). cbn [mbind result_bind].
    replace (Z.to_nat (startHeight_ c + Z.of_nat n - startHeight_ c)) with n by lia.
    set (c1 := mkChain (startHeight_ c) (<[n:=Some x]> (chain c))).
    assert (length (chain c1) = S N) as Hlen1 by (simpl; by rewrite length_insert).
    assert (∀ q, (n <= q <= N)%nat → ∃ y, chain c1 !! q = Some (Some y) ∧ back m (N - q) k = Some y)
      as Hhigh1.
    { intros q Hq. simpl. destruct (decide (q = n)) as [->|].
      - exists x. by rewrite list_lookup_insert_eq by lia.
      - rewrite list_lookup_insert_ne by lia. apply Hhigh. lia. }
    destruct n as [|n].
    + exists c1. split_and!; [|done|done|intros; apply Hhigh1; lia].
      destruct (pprev ix) as [p|] eqn:Ep; [|by destruct fuel].
      destruct (wf_prev m W _ _ _ Hix Ep) as (jp & Hjp & Hhp & _).
      assert (setTip_loop fuel m c1 (Some p) = Ok c1) as ->; [|done].
      assert (height jp <? startHeight_ c1 = true) as Hlt by (simpl; bsplit).
      destruct fuel; cbn [setTip_loop]; rewrite (contains_eq _ _ _ _ Hjp), (deref_eq _ _ _ Hjp);
        cbn [mbind result_bind]; by rewrite Hlt, orb_true_r.
    + assert (∃ p, pprev ix = Some p) as [p Ep].
      { rewrite <- (Nat.sub_add (S n) N Hn), (back_add _ _ _ _ _ Hx) in Hr.
        simpl in Hr. rewrite Hix in Hr. simpl in Hr. destruct (pprev ix); [eauto|done]. }
      rewrite Ep. apply (IH n); [lia|lia| |done|done| |].
      * replace (N - n)%nat with ((N - S n) + 1)%nat by lia.
        rewrite (back_add _ _ _ _ _ Hx). simpl. by rewrite Hix; simpl; rewrite Ep.
      * intros q Hq. apply Hhigh1. lia.
      * intros q Hq. simpl. rewrite list_lookup_insert_ne by lia. apply Hlow. lia.
Qed.

(** The result of [setTip] does not depend on the old contents. *)
Lemma setTip_spec m c k i r : wf_store m → chain_ok m c → m !! k = Some i →
  startHeight_ c <= height i → back m (Z.to_nat (height i - startHeight_ c)) k = Some r →
  ∃ c', setTip m c (Some k) = Ok c' ∧ startHeight_ c' = startHeight_ c ∧ chain_of m c' k.
Proof.
  intros W Hok Hk Hle Hr. unfold setTip. rewrite (deref_eq _ _ _ Hk). simpl.
  destruct (Z.ltb_spec (height i) (startHeight_ c)); [lia|].
  set (N := Z.to_nat (height i - startHeight_ c)) in *.
  replace (Z.to_nat (height i - startHeight_ c + 1)) with (S N) by lia.
  destruct (setTip_loop_spec m c k i N W Hok Hk ltac:(lia) ltac:(eauto) (S N) N k
    (mkChain (startHeight_ c) (resize (S N) (chain c)))) as (c' & Hc' & Hs & Hlen & Hall);
    [lia|lia|by rewrite Nat.sub_diag|done|apply length_resize|intros; lia|done|].
  exists c'. split_and!; [done|done|]. exists i. rewrite Hs. split_and!; [done|lia|lia|].
  intros n Hn. rewrite Hlen. replace (S N - 1 - n)%nat with (N - n)%nat by lia.
  apply Hall. lia.
Qed.

Lemma chain_of_ok m c k : wf_store m → chain_of m c k → chain_ok m c.
Proof.
  intros W (i & Hk & Hle & Hlen & Hall). constructor.
  - intros n x Hx. destruct (Hall n) as (y & Hy & Hb); [by eapply lookup_lt_Some|].
    assert (y = x) as -> by congruence.
    destruct (back_height _ _ _ _ _ W Hk Hb) as (j & Hj & ?). exists j.
    apply lookup_lt_Some in Hx. split; [done|lia].
  - intros n x j Hx Hj. destruct (Hall (S n)) as (y & Hy & Hb); [by eapply lookup_lt_Some|].
    assert (y = x) as -> by congruence. apply lookup_lt_Some in Hx as Hlt.
    destruct (Hall n) as (z & Hz & Hbz); [lia|].
    replace (length (chain c) - 1 - n)%nat with ((length (chain c) - 1 - S n) + 1)%nat in Hbz by lia.
    rewrite (back_add _ _ _ _ _ Hb) in Hbz. simpl in Hbz. rewrite Hj in Hbz. simpl in Hbz.
    rewrite Hz. f_equal. by destruct (pprev j).
Qed.

Lemma chain_of_contains m c k x j : wf_store m → chain_of m c k → m !! x = Some j →
  ∃ b, contains m c (Some x) = Ok b ∧
    (b = true ↔ ancestor m x k ∧ startHeight_ c <= height j).
Proof.
  intros W Hc Hx. rewrite (contains_eq _ _ _ _ Hx). eexists. split; [done|].
  rewrite bool_decide_eq_true. destruct Hc as (i & Hk & Hle & Hlen & Hall). split.
  - intros (n & Hh & Hn)%chain_at_inv. split; [|lia].
    destruct (Hall n) as (y & Hy & Hb); [by eapply lookup_lt_Some|].
    eexists. rewrite Hb. congruence.
  - intros [Hanc Hge]. destruct (ancestor_back _ _ _ _ _ W Hk Hx Hanc) as [Hle' Hb].
    replace (height j) with (startHeight_ c + Z.of_nat (Z.to_nat (height j - startHeight_ c))) by lia.
    rewrite chain_at_lookup. destruct (Hall (Z.to_nat (height j - startHeight_ c))) as (y & Hy & Hby);
      [lia|]. rewrite Hy. simpl. rewrite <- Hby, <- Hb. f_equal. lia.
Qed.
(** A new chain holds the ancestors of its tip from the start height on, as far
    down as the store reaches. *)
Lemma newChain_loop m s k i N : wf_store m → m !! k = Some i → Z.of_nat N = height i - s →
  ∀ fuel n x c, (n < fuel)%nat → (n <= N)%nat → back m (N - n) k = Some x →
  startHeight_ c = s → length (chain c) = S N →
  (∀ q, (n < q <= N)%nat → mjoin (chain c !! q) = back m (N - q) k) →
  (∀ q, (q <= n)%nat → chain c !! q = Some None) →
  ∃ c', setTip_loop fuel m c (Some x) = Ok c' ∧ startHeight_ c' = s ∧ length (chain c') = S N ∧
    ∀ q, (q <= N)%nat → mjoin (chain c' !! q) = back m (N - q) k.
Proof.
  intros W Hk HN. induction fuel as [|fuel IH]; [lia|]. intros n x c Hfuel Hn Hx Hs Hlen Hhigh Hlow.
  destruct (back_height _ _ _ _ _ W Hk Hx) as (ix & Hix & Hh).
  cbn [setTip_loop]. rewrite (contains_eq _ _ _ _ Hix), (deref_eq _ _ _ Hix).
  assert (height ix = startHeight_ c + Z.of_nat n) as Hhx by lia.
  rewrite Hhx, chain_at_lookup, (Hlow n) by lia. cbn [mbind result_bind mjoin option_join].
  rewrite bool_decide_eq_false_2 by done. cbn [orb]. rewrite Hhx.
  replace (startHeight_ c + Z.of_nat n <? startHeight_ c) with false by bsplit. cbv zeta.
  rewrite (getPrev_eq _ _ _ W Hix). cbn [mbind result_bind].
  replace (Z.to_nat (startHeight_ c + Z.of_nat n - startHeight_ c)) with n by lia.
  set (c1 := mkChain (startHeight_ c) (<[n:=Some x]> (chain c))).
  assert (length (chain c1) = S N) as Hlen1 by (simpl; by rewrite length_insert).
  assert (∀ q, (n <= q <= N)%nat → mjoin (chain c1 !! q) = back m (N - q) k) as Hhigh1.
  { intros q Hq. simpl. destruct (decide (q = n)) as [->|].
    - by rewrite list_lookup_insert_eq by lia.
    - rewrite list_lookup_insert_ne by lia. apply Hhigh. lia. }
  assert (∀ q, (q < n)%nat → chain c1 !! q = Some None) as Hlow1.
  { intros q Hq. simpl. rewrite list_lookup_insert_ne by lia. apply Hlow. lia. }
  destruct (pprev ix) as [p|] eqn:Ep.
  - destruct (wf_prev m W _ _ _ Hix Ep) as (jp & Hjp & Hhp & _). destruct n as [|n].
    + exists c1. assert (setTip_loop fuel m c1 (Some p) = Ok c1) as ->.
      { assert (height jp <? startHeight_ c1 = true) as Hlt by (simpl; bsplit).
        destruct fuel; cbn [setTip_loop]; rewrite (contains_eq _ _ _ _ Hjp), (deref_eq _ _ _ Hjp);
          cbn [mbind result_bind]; by rewrite Hlt, orb_true_r. }
      split_and!; [done..|]. intros q Hq. apply Hhigh1. lia.
    + apply (IH n); [lia|lia| |done|done|intros; apply Hhigh1; lia|intros; apply Hlow1; lia].
      replace (N - n)%nat with ((N - S n) + 1)%nat by lia.
      rewrite (back_add _ _ _ _ _ Hx). simpl. by rewrite Hix; simpl; rewrite Ep.
  - exists c1. split_and!; [by destruct fuel|done|done|]. intros q Hq.
    destruct (Nat.le_gt_cases n q); [apply Hhigh1; lia|]. rewrite Hlow1 by lia. cbn [mjoin option_join].
    replace (N - q)%nat with ((N - n) + S (n - q - 1))%nat by lia. rewrite (back_add _ _ _ _ _ Hx). simpl.
    by rewrite Hix; simpl; rewrite Ep.
Qed.

Lemma newChain_contains m s k i : wf_store m → m !! k = Some i →
  ∃ c, newChain m s (Some k) = Ok c ∧ ∀ x j, m !! x = Some j →
    ∃ b, contains m c (Some x) = Ok b ∧ (b = true ↔ ancestor m x k ∧ s <= height j).
Proof.
  intros W Hk. unfold newChain, setTip. rewrite (deref_eq _ _ _ Hk). cbn [mbind result_bind startHeight_ chain].
  destruct (Z.ltb_spec (height i) s) as [Hlt|Hge].
  { eexists. split; [done|]. intros x j Hx. rewrite (contains_eq _ _ _ _ Hx). eexists. split; [done|].
    rewrite bool_decide_eq_true. split.
    - intros (n & _ & Hn)%chain_at_inv. cbn [chain] in Hn. by rewrite lookup_nil in Hn.
    - intros [Ha Hs]. destruct (ancestor_back _ _ _ _ _ W Hk Hx Ha). lia. }
  set (N := Z.to_nat (height i - s)). replace (Z.to_nat (height i - s + 1)) with (S N) by lia.
  destruct (newChain_loop m s k i N W Hk ltac:(lia) (S N) N k (mkChain s (resize (S N) []))) as (c & -> & Hs & Hlen & Hall);
    [lia|lia|by rewrite Nat.sub_diag|done|apply length_resize|intros; lia| |].
  { intros q Hq. cbn [chain]. unfold resize. rewrite take_nil. cbn [app length]. apply lookup_replicate. split; [done|lia]. }
  exists c. split; [done|]. intros x j Hx. rewrite (contains_eq _ _ _ _ Hx). eexists. split; [done|].
  rewrite bool_decide_eq_true. split.
  - intros (n & Hh & Hn)%chain_at_inv. split; [|lia]. apply lookup_lt_Some in Hn as Hlt.
    specialize (Hall n). rewrite Hn in Hall. cbn in Hall. eexists. symmetry. apply Hall. lia.
  - intros [Ha Hsj]. destruct (ancestor_back _ _ _ _ _ W Hk Hx Ha) as [Hle Hb].
    replace (height j) with (startHeight_ c + Z.of_nat (Z.to_nat (height j - s))) by lia.
    rewrite chain_at_lookup, Hall by lia. rewrite <- Hb. f_equal. lia.
Qed.
End facts.

Section findFork_facts.
Context {K B A : Type} `{Countable K}.
Implicit Types (m : gmap K (BlockIndex K B A)) (c : Chain K) (k t x : K).

Lemma findFork_loop_spec m c t : wf_store m → chain_of m c t →
  ∀ fuel k i, m !! k = Some i → height i < Z.of_nat fuel →
  ∃ r, findFork_loop fuel m c (Some k) = Ok r ∧
    match r with
    | Some f => ancestor m f k ∧ contains m c (Some f) = Ok true ∧
        (∀ g, ancestor m g k → contains m c (Some g) = Ok true → ancestor m g f)
    | None => ∀ g, ancestor m g k → contains m c (Some g) = Ok true → False
    end.
Proof.
  intros W Hc. induction fuel as [|fuel IH]; intros k i Hk Hf.
  { pose proof (wf_height m W _ _ Hk). lia. }
  cbn [findFork_loop]. destruct (chain_of_contains m c t k i W Hc Hk) as (b & Hb & _).
  rewrite Hb. cbn [mbind result_bind]. destruct b.
  { exists (Some k). split_and!; [done|apply ancestor_refl|done|done]. }
  assert (∀ g, ancestor m g k → contains m c (Some g) = Ok true →
    ∃ p, pprev i = Some p ∧ ancestor m g p) as Hstep.
  { intros g [[|n] Hn] Hg; simpl in Hn.
    - injection Hn as <-. congruence.
    - rewrite Hk in Hn. simpl in Hn. destruct (pprev i) as [p|]; [|done].
      exists p. split; [done|]. by exists n. }
  rewrite (getPrev_eq _ _ _ W Hk). cbn [mbind result_bind].
  destruct (pprev i) as [p|] eqn:E.
  - destruct (wf_prev m W _ _ _ Hk E) as (j & Hj & Hh & _).
    destruct (IH p j Hj ltac:(lia)) as (r & Hr & Hs). exists r. split; [done|].
    assert (ancestor m p k) as Hpk.
    { exists 1%nat. simpl. by rewrite Hk; simpl; rewrite E. }
    destruct r as [f|].
    + destruct Hs as (Hfp & Hcf & Hmax). split_and!; [by eapply ancestor_trans|done|].
      intros g Hg Hcg. destruct (Hstep g Hg Hcg) as (p' & [= <-] & Hgp). eauto.
    + intros g Hg Hcg. destruct (Hstep g Hg Hcg) as (p' & [= <-] & Hgp). eauto.
  - exists None. split; [by destruct fuel|]. intros g Hg Hcg.
    by destruct (Hstep g Hg Hcg) as (? & ? & _).
Qed.

Lemma chain_of_tip m c t i : chain_of m c t → m !! t = Some i →
  chain_tip c = Some t ∧ chainHeight c = height i.
Proof.
  intros (i' & Ht & Hle & Hlen & Hall) Hi. assert (i' = i) as -> by congruence.
  assert (chainHeight c = height i) as Hh by (unfold chainHeight; lia). split; [|done].
  unfold chain_tip, chain_empty. case_bool_decide as E; [by rewrite E in Hlen|].
  rewrite Hh. replace (height i) with (startHeight_ c + Z.of_nat (length (chain c) - 1)) by lia.
  rewrite chain_at_lookup. destruct (Hall (length (chain c) - 1)%nat) as (x & Hx & Hb); [lia|].
  rewrite Hx. simpl. rewrite <- Hb.
  by replace (length (chain c) - 1 - (length (chain c) - 1))%nat with 0%nat by lia.
Qed.

(** [setTip] rebuilds the chain incrementally, stopping at the first
    block that is already in place; whatever linked chain it starts from, the
    result is exactly the chain of ancestors of the new tip down to
    [startHeight_], and its [tip()] is the new tip. *)
Lemma setTip_correct m c k i r :
  wf_store m → chain_ok m c → m !! k = Some i → startHeight_ c <= height i →
  back m (Z.to_nat (height i - startHeight_ c)) k = Some r →
  ∃ c', setTip m c (Some k) = Ok c' ∧ startHeight_ c' = startHeight_ c ∧
    chain_of m c' k ∧ chain_ok m c' ∧ chain_tip c' = Some k.
Proof.
  intros W Hok Hk Hle Hr. destruct (setTip_spec m c k i r W Hok Hk Hle Hr) as (c' & Hc' & Hs & Hof).
  exists c'. split_and!; [done..|by eapply chain_of_ok|by eapply chain_of_tip].
Qed.

(** [findFork] returns the highest block of the chain that is an
    ancestor of the given block, and [nullptr] only if there is none. *)
Lemma findFork_correct m c t k :
  wf_store m → chain_of m c t → startHeight_ c >= 0 → is_Some (m !! k) →
  ∃ r, findFork m c (Some k) = Ok r ∧
    match r with
    | Some f => ancestor m f k ∧ contains m c (Some f) = Ok true ∧
        (∀ g, ancestor m g k → contains m c (Some g) = Ok true → ancestor m g f)
    | None => ∀ g, ancestor m g k → contains m c (Some g) = Ok true → False
    end.
Proof.
  intros W Hc Hs [i Hk]. pose proof Hc as (it & Ht & Hle & Hlen & Hall).
  destruct (chain_of_tip m c t it Hc Ht) as [Htip Hch].
  unfold findFork. rewrite Htip, (deref_eq _ _ _ Hk), Hch. cbn [mbind result_bind].
  destruct (Z.ltb_spec (height it) (height i)) as [Hlt|Hge].
  - rewrite (getAncestor_eq m k i) by (first [done|lia]).
    destruct (Z.ltb_spec (height i) (height it)); [lia|]. cbn [mbind result_bind].
    assert (∀ g, ancestor m g k → contains m c (Some g) = Ok true → ∃ a,
      back m (Z.to_nat (height i - height it)) k = Some a ∧ ancestor m g a) as Hskip.
    { intros g Hg Hcg. destruct (ancestor_lookup _ _ _ _ W Hk Hg) as (jg & Hjg & _).
      destruct (chain_of_contains m c t g jg W Hc Hjg) as (b & Hb & Hiff).
      assert (b = true) as -> by congruence. destruct Hiff as [[Hgt _] _]; [done|].
      destruct (ancestor_lookup _ _ _ _ W Ht Hgt) as (jg' & Hjg' & Hleg).
      assert (jg' = jg) as -> by congruence.
      destruct (ancestor_back _ _ _ _ _ W Hk Hjg Hg) as [_ Hb'].
      replace (Z.to_nat (height i - height jg)) with
        (Z.to_nat (height i - height it) + Z.to_nat (height it - height jg))%nat in Hb' by lia.
      destruct (back_prefix _ _ _ _ _ Hb') as [a Ha]. exists a. split; [done|].
      exists (Z.to_nat (height it - height jg)). by rewrite <- (back_add _ _ _ _ _ Ha). }
    destruct (back m _ k) as [a|] eqn:Ea.
    + destruct (back_height _ _ _ _ _ W Hk Ea) as (ja & Hja & Hha).
      destruct (findFork_loop_spec m c t W Hc (S (Z.to_nat (height i))) a ja Hja ltac:(lia))
        as (r & Hr & Hspec).
      exists r. split; [done|]. assert (ancestor m a k) as Hak by (by eexists).
      destruct r as [f|].
      * destruct Hspec as (Hfa & Hcf & Hmax). split_and!; [by eapply ancestor_trans|done|].
        intros g Hg Hcg. destruct (Hskip g Hg Hcg) as (? & [= <-] & ?). eauto.
      * intros g Hg Hcg. destruct (Hskip g Hg Hcg) as (? & [= <-] & ?). eauto.
    + exists None. split; [done|]. intros g Hg Hcg.
      by destruct (Hskip g Hg Hcg) as (? & ? & _).
  - cbn [mbind result_bind].
    apply (findFork_loop_spec m c t W Hc (S (Z.to_nat (height i))) k i Hk).
    pose proof (wf_height m W _ _ Hk). lia.
Qed.
End findFork_facts.

Lemma setTip_correct_witness :
  setTip Example_tree.t (mkChain 0 [Some 0; Some 1; Some 4]) (Some 3)
    = Ok (mkChain 0 [Some 0; Some 1; Some 2; Some 3]) ∧
  ∃ c', setTip Example_tree.t (mkChain 0 [Some 0; Some 1; Some 4]) (Some 3) = Ok c' ∧
    startHeight_ c' = 0 ∧ chain_of Example_tree.t c' 3 ∧ chain_ok Example_tree.t c' ∧
    chain_tip c' = Some 3.
Proof.
  split; [vm_compute; reflexivity|].
  apply (setTip_correct Example_tree.t (mkChain 0 [Some 0; Some 1; Some 4]) 3
    (Example_tree.node 3 (Some 2) ∅) 0);
    [apply Example_tree.t_wf| |reflexivity|done|reflexivity].
  constructor.
  - intros [|[|[|n]]] x; simpl; intros [= <-]; (eexists; split; reflexivity).
  - intros [|[|[|n]]] x i; simpl; intros [= <-]; vm_compute; intros [= <-]; reflexivity.
Defined.

Lemma findFork_correct_witness :
  findFork Example_tree.t (mkChain 0 [Some 0; Some 1; Some 4]) (Some 3) = Ok (Some 1) ∧
  ∃ r, findFork Example_tree.t (mkChain 0 [Some 0; Some 1; Some 4]) (Some 3) = Ok r ∧
    match r with
    | Some f => ancestor Example_tree.t f 3 ∧
        contains Example_tree.t (mkChain 0 [Some 0; Some 1; Some 4]) (Some f) = Ok true ∧
        (∀ g, ancestor Example_tree.t g 3 →
          contains Example_tree.t (mkChain 0 [Some 0; Some 1; Some 4]) (Some g) = Ok true →
          ancestor Example_tree.t g f)
    | None => ∀ g, ancestor Example_tree.t g 3 →
          contains Example_tree.t (mkChain 0 [Some 0; Some 1; Some 4]) (Some g) = Ok true → False
    end.
Proof.
  split; [vm_compute; reflexivity|].
  apply (findFork_correct Example_tree.t (mkChain 0 [Some 0; Some 1; Some 4]) 4 3);
    [apply Example_tree.t_wf| |done|by eexists].
  exists (Example_tree.node 2 (Some 1) ∅). split_and!; [reflexivity|done|reflexivity|].
  intros [|[|[|n]]] Hn; simpl in Hn; try lia; (eexists; split; reflexivity).
Defined.
