(* ===== verification/PopScore.v ===== *)
(** * POP score comparison of two chains
    ([blockchain/pop/fork_resolution.hpp], namespace [internal])

    [ReducedPublicationView] gives the score loop the keystones of one chain
    with the height of their first publication in the protecting chain.  Its
    [getProtoKeystoneContext]/[getKeystoneContext] part is the field
    [rpv_context]; the file [PopViews] builds it from the two trees. *)
From S2P Require Import Prelude Keystone.

Record KeystoneContext := mkKeystoneContext {
  kc_blockHeight : Z;
  firstBlockPublicationHeight : Z
}.

(** The parameters of the protected chain the comparison reads. *)
Record fr_config := mkFrConfig {
  getKeystoneInterval : Z;
  getFinalityDelay : Z;
  getForkResolutionLookUpTable : list Z
}.

Definition NO_ENDORSEMENT : Z := INT32_MAX.

Definition publicationViolatesFinality (pubToCheck base : Z) (config : fr_config) : result bool :=
  diff ← cki32 (pubToCheck - base);
  Ok (getFinalityDelay config <? diff).

(** [vector::operator[]] out of range is undefined. *)
Definition table_at (config : fr_config) (i : Z) : result Z :=
  match getForkResolutionLookUpTable config !! Z.to_nat i with
  | Some v => Ok v
  | None => Undef "vector index out of range"
  end.

Definition getConsensusScoreFromRelativeBlockStartingAtZero
    (relativeBlock : Z) (config : fr_config) : result Z :=
  if (relativeBlock <? 0) ||
     (Z.of_nat (length (getForkResolutionLookUpTable config)) <=? u64 relativeBlock)
  then Ok 0
  else v ← table_at config relativeBlock; Ok (i32 v).

Record ReducedPublicationView := mkView {
  rpv_config : fr_config;
  firstKeystone : Z;
  lastKeystone : Z;
  rpv_context : Z → result KeystoneContext
}.

Section view.
Variable v : ReducedPublicationView.
Let ki := getKeystoneInterval (rpv_config v).

Definition rpv_size : result Z :=
  l ← blockHeightToKeystoneNumber (lastKeystone v) ki;
  f ← blockHeightToKeystoneNumber (firstKeystone v) ki;
  d ← cki32 (l - f);
  n ← cki32 (d + 1);
  Ok (u64 n).

Definition rpv_empty : result bool := n ← rpv_size; Ok (n =? 0).

Definition nextKeystoneAfter (keystoneHeight : Z) : result Z :=
  ks ← isKeystone keystoneHeight ki;
  vassert ks "not a keystone";;
  cki32 (keystoneHeight + ki).

Definition getKeystone (blockHeight : Z) : result (option KeystoneContext) :=
  ks ← isKeystone blockHeight ki;
  vassert ks "getKeystone can not be called with a non-keystone block height";;
  if (blockHeight <? firstKeystone v) || (lastKeystone v <? blockHeight) then Ok None
  else c ← rpv_context v blockHeight; Ok (Some c).
End view.

(** The local variables of the loop of [comparePopScoreImpl]. *)
Record fr_state := mkFrState {
  aOutsideFinality : bool;
  bOutsideFinality : bool;
  chainAscore : Z;
  chainBscore : Z;
  previousPublicationA : Z;
  previousPublicationB : Z
}.

Definition fr_init : fr_state := mkFrState false false 0 0 NO_ENDORSEMENT NO_ENDORSEMENT.

Definition publication_of (ctx : option KeystoneContext) : Z :=
  match ctx with None => NO_ENDORSEMENT | Some c => firstBlockPublicationHeight c end.

(** [chainXscore += getForkResolutionLookUpTable()[0]]: [int] plus [uint32_t]. *)
Definition add_first (score : Z) (config : fr_config) : result Z :=
  t ← table_at config 0; Ok (i32 (u32 (u32 score + t))).

(** One iteration of the loop, after the two contexts have been read: the new
    state and whether the loop is left by [break]. *)
Definition fr_step (config : fr_config) (actx bctx : option KeystoneContext) (s : fr_state)
    : result (fr_state * bool) :=
  let earliestPublicationA := publication_of actx in
  let earliestPublicationB := publication_of bctx in
  violA ← match actx with
          | Some _ => publicationViolatesFinality earliestPublicationA (previousPublicationA s) config
          | None => Ok false
          end;
  let aOut := aOutsideFinality s || violA in
  let actx := if (violA : bool) then None else actx in
  violB ← match bctx with
          | Some _ => publicationViolatesFinality earliestPublicationB (previousPublicationB s) config
          | None => Ok false
          end;
  let bOut := bOutsideFinality s || violB in
  let bctx := if (violB : bool) then None else bctx in
  let st aOut bOut a b := mkFrState aOut bOut a b earliestPublicationA earliestPublicationB in
  match actx, bctx with
  | None, None => Ok (st aOut bOut (chainAscore s) (chainBscore s), aOut && bOut)
  | None, Some _ =>
    b ← add_first (chainBscore s) config;
    Ok (st true bOut (chainAscore s) b, chainAscore s <? b)
  | Some _, None =>
    a ← add_first (chainAscore s) config;
    Ok (st aOut true a (chainBscore s), chainBscore s <? a)
  | Some _, Some _ =>
    let earliestPublicationOfEither := Z.min earliestPublicationA earliestPublicationB in
    ra ← cki32 (earliestPublicationA - earliestPublicationOfEither);
    sa ← getConsensusScoreFromRelativeBlockStartingAtZero ra config;
    a ← cki32 (chainAscore s + sa);
    rb ← cki32 (earliestPublicationB - earliestPublicationOfEither);
    sb ← getConsensusScoreFromRelativeBlockStartingAtZero rb config;
    b ← cki32 (chainBscore s + sb);
    behindA ← publicationViolatesFinality earliestPublicationA earliestPublicationB config;
    behindB ← publicationViolatesFinality earliestPublicationB earliestPublicationA config;
    Ok (st (aOut || behindA) (bOut || behindB) a b, false)
  end.

Definition read_context (outside : bool) (v : ReducedPublicationView) (keystone : Z)
    : result (option KeystoneContext) :=
  if outside then Ok None else getKeystone v keystone.

Fixpoint compare_loop (fuel : nat) (a b : ReducedPublicationView)
    (keystoneToCompare latestKeystone : Z) (s : fr_state) : result fr_state :=
  if latestKeystone <? keystoneToCompare then Ok s
  else
    match fuel with
    | O => OutOfFuel
    | S fuel =>
      actx ← read_context (aOutsideFinality s) a keystoneToCompare;
      bctx ← read_context (bOutsideFinality s) b keystoneToCompare;
      sb ← fr_step (rpv_config a) actx bctx s;
      if (sb.2 : bool) then Ok sb.1
      else
        next ← nextKeystoneAfter a keystoneToCompare;
        compare_loop fuel a b next latestKeystone sb.1
    end.

#[export] Instance fr_config_eq_dec : EqDecision fr_config.
Proof. solve_decision. Defined.

(** The C++ asserts that both views hold the same configuration object. *)
Definition comparePopScoreImpl (a b : ReducedPublicationView) : result Z :=
  aEmpty ← rpv_empty a;
  bEmpty ← rpv_empty b;
  if (aEmpty : bool) && (bEmpty : bool) then Ok 0
  else if aEmpty then Ok (-1)
  else if bEmpty then Ok 1
  else
    let earliestKeystone := firstKeystone a in
    vassert (earliestKeystone =? firstKeystone b) "different first keystones";;
    let latestKeystone := Z.max (lastKeystone a) (lastKeystone b) in
    vassert (bool_decide (rpv_config a = rpv_config b)) "different configs";;
    s ← compare_loop (Z.to_nat (latestKeystone - earliestKeystone + 1)) a b
          earliestKeystone latestKeystone fr_init;
    cki32 (chainAscore s - chainBscore s).

(** ** Symmetry *)
Definition swap_state (s : fr_state) : fr_state :=
  mkFrState (bOutsideFinality s) (aOutsideFinality s) (chainBscore s) (chainAscore s)
    (previousPublicationB s) (previousPublicationA s).

Lemma fr_step_swap cfg actx bctx s s' br :
  fr_step cfg actx bctx s = Ok (s', br) →
  fr_step cfg bctx actx (swap_state s) = Ok (swap_state s', br).
Proof.
  unfold fr_step, swap_state. destruct s as [ao bo sa sb pa pb]. cbn.
  destruct actx as [ca|], bctx as [cb|]; cbn; intros Hs.
  - apply bind_Ok in Hs as (va & Hva & Hs). apply bind_Ok in Hs as (vb & Hvb & Hs).
    rewrite Hva, Hvb. cbn. destruct va, vb; cbn in *; inv_ok; simplify_eq/=;
      rewrite ?orb_true_r, ?(Z.min_comm (firstBlockPublicationHeight cb)); by rewrite_ok.
  - apply bind_Ok in Hs as (va & Hva & Hs). rewrite Hva. cbn.
    destruct va; cbn in *; inv_ok; simplify_eq/=; [by rewrite andb_comm|by rewrite_ok].
  - apply bind_Ok in Hs as (va & Hva & Hs). rewrite Hva. cbn.
    destruct va; cbn in *; inv_ok; simplify_eq/=; [by rewrite andb_comm|by rewrite_ok].
  - simplify_eq/=. by rewrite andb_comm.
Qed.

Lemma compare_loop_swap fuel a b k latest s s' :
  rpv_config a = rpv_config b →
  compare_loop fuel a b k latest s = Ok s' →
  compare_loop fuel b a k latest (swap_state s) = Ok (swap_state s').
Proof.
  intros Hc. revert k s. induction fuel as [|fuel IH]; intros k s; simpl;
    destruct (latest <? k); try by intros [= <-].
  intros Hl. apply bind_Ok in Hl as (actx & Ha & Hl). apply bind_Ok in Hl as (bctx & Hb & Hl).
  apply bind_Ok in Hl as ([s1 br] & Hs & Hl).
  cbn [swap_state aOutsideFinality bOutsideFinality].
  rewrite Ha, Hb. cbn. rewrite <- Hc, (fr_step_swap _ _ _ _ _ _ Hs). cbn in *.
  destruct br; [by injection Hl as <-|].
  apply bind_Ok in Hl as (next & Hn & Hl).
  assert (nextKeystoneAfter b k = Ok next) as -> by (unfold nextKeystoneAfter in *; by rewrite <- Hc).
  cbn. by apply IH.
Qed.

(** ** Scores stay in range and the loop terminates *)
Record config_ok (cfg : fr_config) (M : Z) : Prop := {
  co_interval : interval_ok (getKeystoneInterval cfg);
  co_finality : 0 <= getFinalityDelay cfg;
  co_table : getForkResolutionLookUpTable cfg ≠ [];
  co_entries : Forall (λ t, 0 <= t <= M) (getForkResolutionLookUpTable cfg);
  co_max : M <= INT32_MAX
}.

Definition ctx_ok (ctx : option KeystoneContext) : Prop :=
  0 <= publication_of ctx <= NO_ENDORSEMENT.

(** A view as [ReducedPublicationView] builds it: keystones between the first
    and the last have a context with a publication height. *)
Record view_ok (v : ReducedPublicationView) : Prop := {
  vo_first : height_ok (firstKeystone v);
  vo_last : 0 <= lastKeystone v;
  vo_next : lastKeystone v + getKeystoneInterval (rpv_config v) <= INT32_MAX;
  vo_first_ks : firstKeystone v mod getKeystoneInterval (rpv_config v) = 0;
  vo_last_ks : lastKeystone v mod getKeystoneInterval (rpv_config v) = 0;
  vo_order : firstKeystone v - getKeystoneInterval (rpv_config v) <= lastKeystone v;
  vo_ctx : ∀ h, firstKeystone v <= h <= lastKeystone v →
    h mod getKeystoneInterval (rpv_config v) = 0 →
    ∃ c, rpv_context v h = Ok c ∧ ctx_ok (Some c)
}.

Section bounds.
Variables (cfg : fr_config) (M : Z).
Hypothesis Hcfg : config_ok cfg M.

Lemma finality_ok p q : 0 <= p <= NO_ENDORSEMENT → 0 <= q <= NO_ENDORSEMENT →
  publicationViolatesFinality p q cfg = Ok (getFinalityDelay cfg <? p - q).
Proof.
  intros. unfold publicationViolatesFinality. rewrite ckS_ok; [done|].
  unfold NO_ENDORSEMENT, INT32_MAX in *. lia.
Qed.

Lemma table0_ok : ∃ t, table_at cfg 0 = Ok t ∧ 0 <= t <= M.
Proof.
  pose proof (co_table _ _ Hcfg). pose proof (co_entries _ _ Hcfg) as He. unfold table_at.
  destruct (getForkResolutionLookUpTable cfg) as [|t l]; [done|].
  exists t. split; [done|]. by inversion He.
Qed.

Lemma add_first_ok s : 0 <= s → s + M <= INT32_MAX →
  ∃ t, table_at cfg 0 = Ok t ∧ 0 <= t <= M ∧ add_first s cfg = Ok (s + t).
Proof.
  intros. destruct table0_ok as (t & Ht & Hb). exists t. split_and!; [done|lia|lia|].
  unfold add_first. rewrite Ht. cbn. unfold INT32_MAX in *.
  rewrite (wrapU_small 32 s) by lia. rewrite wrapU_small by lia. by rewrite wrapS_small by lia.
Qed.

Lemma relative_score_ok r : 0 <= r <= NO_ENDORSEMENT →
  ∃ t, getConsensusScoreFromRelativeBlockStartingAtZero r cfg = Ok t ∧ 0 <= t <= M ∧
    (Z.of_nat (length (getForkResolutionLookUpTable cfg)) <= r → t = 0).
Proof.
  intros Hr. unfold getConsensusScoreFromRelativeBlockStartingAtZero.
  rewrite wrapU_small by (unfold NO_ENDORSEMENT, INT32_MAX in *; lia).
  destruct (Z.ltb_spec r 0); [lia|]. cbn [orb].
  destruct table0_ok as (t0 & _ & ?).
  destruct (Z.leb_spec (Z.of_nat (length (getForkResolutionLookUpTable cfg))) r).
  { exists 0. split; [done|]. lia. }
  unfold table_at. pose proof (co_entries _ _ Hcfg) as He. pose proof (co_max _ _ Hcfg).
  destruct (lookup_lt_is_Some_2 (getForkResolutionLookUpTable cfg) (Z.to_nat r)) as [t Ht]; [lia|].
  rewrite Ht. cbn. rewrite Forall_lookup in He. pose proof (He _ _ Ht).
  exists t. rewrite wrapS_small by (unfold INT32_MAX in *; lia). split; [done|lia].
Qed.

(** What one iteration does to the scores and flags. *)
Record step_spec (actx bctx : option KeystoneContext) (s s' : fr_state) (br : bool) : Prop := {
  ss_a : chainAscore s <= chainAscore s' <= chainAscore s + M;
  ss_b : chainBscore s <= chainBscore s' <= chainBscore s + M;
  ss_pa : 0 <= previousPublicationA s' <= NO_ENDORSEMENT;
  ss_pb : 0 <= previousPublicationB s' <= NO_ENDORSEMENT;
  ss_aout : aOutsideFinality s = true → aOutsideFinality s' = true;
  ss_bout : bOutsideFinality s = true → bOutsideFinality s' = true;
  ss_anone : actx = None → chainAscore s' = chainAscore s;
  ss_bnone : bctx = None → chainBscore s' = chainBscore s;
  ss_break : br = true →
    (aOutsideFinality s' = true ∧ bOutsideFinality s' = true) ∨
    (aOutsideFinality s' = true ∧ chainAscore s' < chainBscore s') ∨
    (bOutsideFinality s' = true ∧ chainBscore s' < chainAscore s')
}.

Lemma fr_step_ok actx bctx s : ctx_ok actx → ctx_ok bctx →
  0 <= previousPublicationA s <= NO_ENDORSEMENT → 0 <= previousPublicationB s <= NO_ENDORSEMENT →
  0 <= chainAscore s → chainAscore s + M <= INT32_MAX →
  0 <= chainBscore s → chainBscore s + M <= INT32_MAX →
  ∃ s' br, fr_step cfg actx bctx s = Ok (s', br) ∧ step_spec actx bctx s s' br.
Proof.
  intros Ha Hb Hpa Hpb Ha0 HaM Hb0 HbM. destruct table0_ok as (t0 & _ & HM). unfold fr_step.
  assert (∀ ctx prev, ctx_ok ctx → 0 <= prev <= NO_ENDORSEMENT → ∃ v,
    match ctx with
    | Some _ => publicationViolatesFinality (publication_of ctx) prev cfg
    | None => Ok false
    end = Ok v) as Hv.
  { intros [c|] prev Hc Hprev; [|eauto]. rewrite finality_ok by done. eauto. }
  destruct (Hv actx (previousPublicationA s) Ha Hpa) as (va & ->).
  destruct (Hv bctx (previousPublicationB s) Hb Hpb) as (vb & ->). cbn [mbind result_bind].
  set (ea := publication_of actx). set (eb := publication_of bctx).
  assert (∀ sc, 0 <= sc → sc + M <= INT32_MAX → ∃ t, 0 <= t <= M ∧ add_first sc cfg = Ok (sc + t))
    as Hadd.
  { intros sc ? ?. destruct (add_first_ok sc) as (t & _ & ? & ?); eauto. }
  assert (∀ e sc, 0 <= e <= NO_ENDORSEMENT → 0 <= sc → sc + M <= INT32_MAX → Z.min ea eb <= e →
    ∃ t, 0 <= t <= M ∧ cki32 (e - Z.min ea eb) = Ok (e - Z.min ea eb) ∧
      getConsensusScoreFromRelativeBlockStartingAtZero (e - Z.min ea eb) cfg = Ok t ∧
      cki32 (sc + t) = Ok (sc + t)) as Hrel.
  { intros e sc He ? ? ?. destruct (relative_score_ok (e - Z.min ea eb)) as (t & Ht & Htb & _);
      [unfold ctx_ok in *; lia|].
    exists t. split_and!; [lia|lia|apply ckS_ok; unfold ctx_ok, NO_ENDORSEMENT, INT32_MAX in *; lia
      |done|apply ckS_ok; unfold INT32_MAX in *; lia]. }
  destruct (if va then None else actx) as [ca|] eqn:Ea;
    destruct (if vb then None else bctx) as [cb|] eqn:Eb.
  - destruct va; [done|]. destruct vb; [done|]. subst actx bctx.
    destruct (Hrel ea (chainAscore s)) as (ta & ? & Ha1 & Ha2 & Ha3); [done|done|done|lia|].
    destruct (Hrel eb (chainBscore s)) as (tb & ? & Hb1 & Hb2 & Hb3); [done|done|done|lia|].
    rewrite Ha1. cbn [mbind result_bind]. rewrite Ha2. cbn [mbind result_bind].
    rewrite Ha3. cbn [mbind result_bind]. rewrite Hb1. cbn [mbind result_bind].
    rewrite Hb2. cbn [mbind result_bind]. rewrite Hb3. cbn [mbind result_bind].
    rewrite !finality_ok by done. cbn [mbind result_bind].
    eexists _, _. split; [done|]. constructor; cbn; try lia; try done; try (by intros ->).
  - destruct (Hadd (chainAscore s)) as (t & ? & ->); [done..|]. cbn [mbind result_bind].
    eexists _, _. split; [done|]. constructor; cbn; try lia; try done; try (by intros ->);
      try (by intros ->; destruct va); intros ?%Z.ltb_lt; right; right; by split.
  - destruct (Hadd (chainBscore s)) as (t & ? & ->); [done..|]. cbn [mbind result_bind].
    eexists _, _. split; [done|]. constructor; cbn; try lia; try done; try (by intros ->);
      try (by intros ->; destruct vb); intros ?%Z.ltb_lt; right; left; by split.
  - eexists _, _. split; [done|]. constructor; cbn; try lia; try done; try (by intros ->).
    intros [? ?]%andb_prop. by left.
Qed.
End bounds.

(** The loop without the two early exits: the reference the optimised loop is
    compared with. *)
Fixpoint compare_loop_all (fuel : nat) (a b : ReducedPublicationView)
    (keystoneToCompare latestKeystone : Z) (s : fr_state) : result fr_state :=
  if latestKeystone <? keystoneToCompare then Ok s
  else
    match fuel with
    | O => OutOfFuel
    | S fuel =>
      actx ← read_context (aOutsideFinality s) a keystoneToCompare;
      bctx ← read_context (bOutsideFinality s) b keystoneToCompare;
      sb ← fr_step (rpv_config a) actx bctx s;
      next ← nextKeystoneAfter a keystoneToCompare;
      compare_loop_all fuel a b next latestKeystone sb.1
    end.

Section loop.
Variables (a b : ReducedPublicationView) (M : Z).
Hypotheses (Hcfg : config_ok (rpv_config a) M) (Hsame : rpv_config a = rpv_config b)
  (Ha : view_ok a) (Hb : view_ok b) (Hfirst : firstKeystone a = firstKeystone b).
Let ki := getKeystoneInterval (rpv_config a).
Let latest := Z.max (lastKeystone a) (lastKeystone b).

(** [k] is a keystone at which at most [R] iterations are left. *)
Definition at_keystone (R : nat) (k : Z) : Prop :=
  firstKeystone a <= k ∧ k mod ki = 0 ∧ latest < k + Z.of_nat R * ki ∧
  k <= latest + ki.

Definition state_ok (R : nat) (s : fr_state) : Prop :=
  0 <= chainAscore s ∧ chainAscore s + Z.of_nat R * M <= INT32_MAX ∧
  0 <= chainBscore s ∧ chainBscore s + Z.of_nat R * M <= INT32_MAX ∧
  0 <= previousPublicationA s <= NO_ENDORSEMENT ∧
  0 <= previousPublicationB s <= NO_ENDORSEMENT.

Lemma ki_pos : 0 < ki <= INT32_MAX.
Proof. apply (co_interval _ _ Hcfg). Qed.

Lemma latest_next : latest + ki <= INT32_MAX.
Proof.
  pose proof (vo_next _ Ha). pose proof (vo_next _ Hb) as Hnb. rewrite <- Hsame in Hnb.
  unfold latest, ki. lia.
Qed.

Lemma keystone_height k R : at_keystone R k → k <= latest → height_ok k.
Proof.
  intros (? & ? & ? & ?) ?. pose proof (vo_first _ Ha) as [? ?]. pose proof latest_next.
  pose proof ki_pos. unfold height_ok. lia.
Qed.

Lemma read_context_ok v out k R : (v = a ∨ v = b) → at_keystone R k → k <= latest →
  ∃ ctx, read_context out v k = Ok ctx ∧ ctx_ok ctx ∧ (out = true → ctx = None).
Proof.
  intros Hv Hk Hle. pose proof (keystone_height k R Hk Hle) as Hh.
  destruct Hk as (? & Hmod & _). unfold read_context.
  assert (ctx_ok None) by (unfold ctx_ok, publication_of, NO_ENDORSEMENT, INT32_MAX; lia).
  destruct out; [by exists None|].
  assert (getKeystoneInterval (rpv_config v) = ki ∧ view_ok v ∧ firstKeystone v = firstKeystone a)
    as (Hki & Hok & Hf) by (destruct Hv; subst v; rewrite <- ?Hsame; done).
  unfold getKeystone. rewrite Hki, isKeystone_eq by (done || apply (co_interval _ _ Hcfg)).
  cbn [mbind result_bind]. rewrite Hmod. cbn [Z.eqb vassert].
  destruct (Z.ltb_spec k (firstKeystone v)); [lia|]. cbn [orb].
  destruct (Z.ltb_spec (lastKeystone v) k); [by exists None|].
  destruct (vo_ctx v Hok k) as (c & Hc & Hcok); [lia|by rewrite Hki|].
  cbn [mbind result_bind]. rewrite Hc. by exists (Some c).
Qed.

Lemma next_ok k R : at_keystone (S R) k → k <= latest →
  nextKeystoneAfter a k = Ok (k + ki) ∧ at_keystone R (k + ki).
Proof.
  intros Hk Hle. pose proof (keystone_height k (S R) Hk Hle) as Hh.
  pose proof latest_next. pose proof ki_pos.
  destruct Hk as (? & Hmod & ? & ?). split.
  - unfold nextKeystoneAfter. fold ki.
    rewrite isKeystone_eq by (done || apply (co_interval _ _ Hcfg)).
    cbn [mbind result_bind]. rewrite Hmod. cbn [Z.eqb vassert mbind result_bind].
    apply ckS_ok. unfold height_ok, INT32_MAX in *. lia.
  - unfold at_keystone. split_and!; [lia| |lia|lia].
    rewrite <- (Z.mul_1_l ki) at 1. by rewrite Z.mod_add by lia.
Qed.

(** One iteration from a good state succeeds, on either loop. *)
Lemma iteration_ok k R s : at_keystone (S R) k → k <= latest → state_ok (S R) s →
  ∃ actx bctx s' br,
    read_context (aOutsideFinality s) a k = Ok actx ∧
    read_context (bOutsideFinality s) b k = Ok bctx ∧
    fr_step (rpv_config a) actx bctx s = Ok (s', br) ∧
    step_spec M actx bctx s s' br ∧ state_ok R s' ∧
    (aOutsideFinality s = true → actx = None) ∧ (bOutsideFinality s = true → bctx = None).
Proof.
  intros Hk Hle (? & ? & ? & ? & ? & ?). destruct (table0_ok _ _ Hcfg) as (t0 & _ & HM).
  assert (0 <= Z.of_nat R * M) by nia.
  destruct (read_context_ok a (aOutsideFinality s) k (S R)) as (actx & Hra & Hac & Han); auto.
  destruct (read_context_ok b (bOutsideFinality s) k (S R)) as (bctx & Hrb & Hbc & Hbn); auto.
  destruct (fr_step_ok _ _ Hcfg actx bctx s) as (s' & br & Hs & Hspec); [done..|lia|lia|lia|lia|].
  exists actx, bctx, s', br. split_and!; [done..| |done|done].
  destruct Hspec. unfold state_ok. lia.
Qed.

Lemma compare_loop_all_ok R fuel k s : at_keystone R k → state_ok R s → (R <= fuel)%nat →
  ∃ s', compare_loop_all fuel a b k latest s = Ok s' ∧
    chainAscore s <= chainAscore s' <= chainAscore s + Z.of_nat R * M ∧
    chainBscore s <= chainBscore s' <= chainBscore s + Z.of_nat R * M ∧
    (aOutsideFinality s = true → chainAscore s' = chainAscore s) ∧
    (bOutsideFinality s = true → chainBscore s' = chainBscore s).
Proof.
  revert fuel k s. destruct (table0_ok _ _ Hcfg) as (t0 & _ & HM).
  induction R as [|R IH]; intros fuel k s Hk Hs Hf.
  { exists s. destruct Hk as (_ & _ & ? & _).
    assert (latest <? k = true) as Hlt by (apply Z.ltb_lt; lia).
    split_and!; [destruct fuel; simpl; by rewrite Hlt|lia..|done|done]. }
  destruct fuel as [|fuel]; [lia|]. assert (0 <= Z.of_nat R * M) by nia. simpl.
  destruct (Z.ltb_spec latest k) as [|Hle]; [exists s; split_and!; [done|lia..|done|done]|].
  destruct (iteration_ok k R s Hk Hle Hs)
    as (actx & bctx & s' & br & Hra & Hrb & Hst & Hspec & Hs' & Han & Hbn).
  destruct (next_ok k R Hk Hle) as [Hn Hk'].
  rewrite Hra. cbn [mbind result_bind]. rewrite Hrb. cbn [mbind result_bind].
  rewrite Hst. cbn [mbind result_bind fst]. rewrite Hn. cbn [mbind result_bind].
  destruct (IH fuel (k + ki) s' Hk' Hs' ltac:(lia)) as (s2 & Hl & HA & HB & HoA & HoB).
  exists s2. destruct Hspec. split_and!; [done|lia..| |].
  - intros Ho. rewrite HoA by auto. auto.
  - intros Ho. rewrite HoB by auto. auto.
Qed.

(** Both loops succeed, and they agree on which chain has the better score;
    a chain outside finality keeps its score. *)
Lemma compare_loop_ok R fuel k s : at_keystone R k → state_ok R s → (R <= fuel)%nat →
  ∃ s1 s2, compare_loop fuel a b k latest s = Ok s1 ∧
    compare_loop_all fuel a b k latest s = Ok s2 ∧
    chainAscore s <= chainAscore s1 <= chainAscore s + Z.of_nat R * M ∧
    chainBscore s <= chainBscore s1 <= chainBscore s + Z.of_nat R * M ∧
    (bOutsideFinality s = true → chainBscore s1 = chainBscore s) ∧
    Z.sgn (chainAscore s1 - chainBscore s1) = Z.sgn (chainAscore s2 - chainBscore s2).
Proof.
  revert fuel k s. destruct (table0_ok _ _ Hcfg) as (t0 & _ & HM).
  induction R as [|R IH]; intros fuel k s Hk Hs Hf.
  { exists s, s. destruct Hk as (_ & _ & ? & _). destruct Hs as (? & ? & ? & ? & _).
    assert (latest <? k = true) as Hlt by (apply Z.ltb_lt; lia).
    split_and!; [destruct fuel; simpl; by rewrite Hlt..|lia|lia|lia|lia|done|done]. }
  destruct fuel as [|fuel]; [lia|]. assert (0 <= Z.of_nat R * M) by nia. simpl.
  destruct (Z.ltb_spec latest k) as [|Hle].
  { exists s, s. destruct Hs as (? & ? & ? & ? & _). split_and!; done || lia. }
  destruct (iteration_ok k R s Hk Hle Hs)
    as (actx & bctx & s' & br & Hra & Hrb & Hst & Hspec & Hs' & Han & Hbn).
  destruct (next_ok k R Hk Hle) as [Hn Hk'].
  rewrite Hra. cbn [mbind result_bind]. rewrite Hrb. cbn [mbind result_bind].
  rewrite Hst. cbn [mbind result_bind fst snd]. rewrite Hn. cbn [mbind result_bind].
  destruct Hs as (? & ? & ? & ? & _). destruct Hspec. destruct br.
  - destruct (compare_loop_all_ok R fuel (k + ki) s' Hk' Hs' ltac:(lia))
      as (s2 & Hl & HA & HB & HoA & HoB).
    exists s', s2. split_and!; [done|done|lia..|auto|].
    destruct ss_break0 as [(Ho & Ho')|[(Ho & ?)|(Ho & ?)]]; [done|..].
    + by rewrite HoA, HoB.
    + rewrite HoA by done. rewrite !Z.sgn_neg by lia. done.
    + rewrite HoB by done. rewrite !Z.sgn_pos by lia. done.
  - destruct (IH fuel (k + ki) s' Hk' Hs' ltac:(lia)) as (s1 & s2 & Hl1 & Hl2 & ? & ? & HB & ?).
    exists s1, s2. split_and!; try done; try lia. intros Ho. rewrite HB; auto.
Qed.

Lemma start_ok R : firstKeystone a <= latest → latest < firstKeystone a + Z.of_nat R * ki →
  Z.of_nat R * M <= INT32_MAX → at_keystone R (firstKeystone a) ∧ state_ok R fr_init.
Proof.
  intros. pose proof ki_pos. split.
  - unfold at_keystone. pose proof (vo_first_ks _ Ha) as Hk. fold ki in Hk. split_and!; lia || done.
  - unfold state_ok, fr_init, NO_ENDORSEMENT, INT32_MAX in *. cbn. lia.
Qed.
End loop.

Lemma mul_div_le_of_mod a k : 0 < k → a mod k = 0 → k * (a / k) = a.
Proof. intros ? E. rewrite (Z.div_mod a k) at 2 by lia. lia. Qed.

Lemma rpv_size_ok v M : config_ok (rpv_config v) M → view_ok v →
  let ki := getKeystoneInterval (rpv_config v) in
  ∃ n, rpv_size v = Ok n ∧ (n = 0 ↔ lastKeystone v < firstKeystone v).
Proof.
  intros Hc [[? ?] ? Hn Hf Hl Ho _] ki. fold ki in Hn, Hf, Hl, Ho.
  pose proof (co_interval _ _ Hc) as Hi. destruct Hi as [Hki ?]. fold ki in Hki.
  assert (height_ok (lastKeystone v)) as Hlh by (unfold height_ok; lia).
  assert (height_ok (firstKeystone v)) as Hfh by (unfold height_ok; lia).
  pose proof (mul_div_le_of_mod _ _ Hki Hf) as Ef. pose proof (mul_div_le_of_mod _ _ Hki Hl) as El.
  destruct (div_height (lastKeystone v) ki) as [? ?]; [done|apply (co_interval _ _ Hc)|].
  destruct (div_height (firstKeystone v) ki) as [? ?]; [done|apply (co_interval _ _ Hc)|].
  assert (firstKeystone v / ki - 1 <= lastKeystone v / ki) by nia.
  assert (lastKeystone v / ki <= INT32_MAX - 1) by (unfold INT32_MAX in *; nia).
  exists (lastKeystone v / ki - firstKeystone v / ki + 1). split; [|nia].
  unfold rpv_size. fold ki.
  rewrite !blockHeightToKeystoneNumber_eq by (done || apply (co_interval _ _ Hc)).
  cbn [mbind result_bind]. unfold INT32_MAX in *.
  rewrite (ckS_ok 32 (_ - _)) by lia. cbn [mbind result_bind].
  rewrite ckS_ok by lia. cbn [mbind result_bind]. by rewrite wrapU_small by lia.
Qed.

(** The reference: [comparePopScoreImpl] with the loop that visits every
    keystone. *)
Definition comparePopScore_all (a b : ReducedPublicationView) : result Z :=
  aEmpty ← rpv_empty a;
  bEmpty ← rpv_empty b;
  if (aEmpty : bool) && (bEmpty : bool) then Ok 0
  else if aEmpty then Ok (-1)
  else if bEmpty then Ok 1
  else
    s ← compare_loop_all (Z.to_nat (Z.max (lastKeystone a) (lastKeystone b) - firstKeystone a + 1))
          a b (firstKeystone a) (Z.max (lastKeystone a) (lastKeystone b)) fr_init;
    cki32 (chainAscore s - chainBscore s).

(** What the callers of the comparison establish. *)
Record comparable (a b : ReducedPublicationView) (M : Z) : Prop := {
  cmp_cfg : config_ok (rpv_config a) M;
  cmp_same : rpv_config a = rpv_config b;
  cmp_a : view_ok a;
  cmp_b : view_ok b;
  cmp_first : firstKeystone a = firstKeystone b;
  cmp_budget : ((Z.max (lastKeystone a) (lastKeystone b) - firstKeystone a)
      / getKeystoneInterval (rpv_config a) + 1) * M <= INT32_MAX
}.

Lemma rpv_empty_ok v M : config_ok (rpv_config v) M → view_ok v →
  rpv_empty v = Ok (lastKeystone v <? firstKeystone v).
Proof.
  intros Hc Hv. destruct (rpv_size_ok v M Hc Hv) as (n & Hn & Hz). unfold rpv_empty.
  rewrite Hn. cbn. f_equal. destruct (Z.eqb_spec n 0), (Z.ltb_spec (lastKeystone v) (firstKeystone v)); lia.
Qed.

Lemma comparable_budget a b M : comparable a b M →
  firstKeystone a <= Z.max (lastKeystone a) (lastKeystone b) →
  ∃ R, at_keystone a b R (firstKeystone a) ∧ state_ok M R fr_init ∧
    (R <= Z.to_nat (Z.max (lastKeystone a) (lastKeystone b) - firstKeystone a + 1))%nat.
Proof.
  intros [Hc Hs Ha Hb Hf Hbud] Hle. pose proof (co_interval _ _ Hc) as [Hk ?].
  set (d := Z.max (lastKeystone a) (lastKeystone b) - firstKeystone a) in *.
  assert (0 <= d / getKeystoneInterval (rpv_config a) <= d) as Hd.
  { split; [apply Z.div_pos; lia|]. apply Z.div_le_upper_bound; nia. }
  pose proof (Z.mul_succ_div_gt d _ Hk).
  exists (Z.to_nat (d / getKeystoneInterval (rpv_config a) + 1)).
  destruct (start_ok a b M Hc Ha (Z.to_nat (d / getKeystoneInterval (rpv_config a) + 1))); 
    rewrite ?Z2Nat.id by lia; [done|lia|lia|]. split_and!; [done|done|lia].
Qed.

Lemma comparePopScoreImpl_ok a b M : comparable a b M →
  ∃ r r', comparePopScoreImpl a b = Ok r ∧ comparePopScore_all a b = Ok r' ∧
    - INT32_MAX <= r <= INT32_MAX ∧ Z.sgn r = Z.sgn r'.
Proof.
  intros Hcmp. pose proof (comparable_budget a b M Hcmp) as Hbud.
  destruct Hcmp as [Hc Hs Ha Hb Hf _].
  unfold comparePopScoreImpl, comparePopScore_all.
  rewrite (rpv_empty_ok a M), (rpv_empty_ok b M) by (done || by rewrite <- Hs).
  cbn [mbind result_bind]. rewrite <- Hf. unfold INT32_MAX in *.
  destruct (Z.ltb_spec (lastKeystone a) (firstKeystone a)),
    (Z.ltb_spec (lastKeystone b) (firstKeystone a)); cbn [andb].
  - by exists 0, 0.
  - by exists (-1), (-1).
  - by exists 1, 1.
  - rewrite Z.eqb_refl, bool_decide_eq_true_2 by done. cbn [vassert mbind result_bind].
    destruct Hbud as (R & Hk & Hst & Hfu); [lia|].
    pose proof Hst as (_ & ? & _ & ? & _). cbn [fr_init chainAscore chainBscore] in *.
    destruct (compare_loop_ok a b M Hc Hs Ha Hb Hf R _ _ _ Hk Hst Hfu)
      as (s1 & s2 & -> & Hs2 & ? & ? & _ & Hsgn).
    destruct (compare_loop_all_ok a b M Hc Hs Ha Hb Hf R _ _ _ Hk Hst Hfu)
      as (s2' & Hs2' & ? & ? & _). rewrite Hs2 in Hs2' |- *. simplify_eq.
    cbn [mbind result_bind fr_init chainAscore chainBscore] in *.
    unfold INT32_MAX in *. rewrite !ckS_ok by lia. eexists _, _. split_and!; [done|done|lia|lia|done].
Qed.

(** Swapping the two views negates the result. *)
Lemma comparePopScoreImpl_antisym a b r : comparePopScoreImpl a b = Ok r → r ≠ INT32_MIN →
  comparePopScoreImpl b a = Ok (- r).
Proof.
  unfold comparePopScoreImpl. intros H Hr. apply bind_Ok in H as (ae & Hae & H).
  apply bind_Ok in H as (be & Hbe & H). rewrite Hae, Hbe. cbn [mbind result_bind].
  destruct ae, be; cbn [andb] in *; try (by simplify_eq).
  apply bind_Ok in H as ([] & He%vassert_Ok%Z.eqb_eq & H).
  apply bind_Ok in H as ([] & Hc%vassert_Ok%bool_decide_eq_true & H).
  apply bind_Ok in H as (s & Hl & H).
  rewrite <- He, Z.eqb_refl, <- Hc, bool_decide_eq_true_2 by done. cbn [vassert mbind result_bind].
  rewrite (Z.max_comm (lastKeystone b)). apply (compare_loop_swap _ _ _ _ _ _ _ Hc) in Hl.
  change (swap_state fr_init) with fr_init in Hl. rewrite Hl.
  cbn [mbind result_bind swap_state chainAscore chainBscore].
  unfold ckS in H. destruct (_ && _) eqn:E in H; [|done]. injection H as <-.
  apply andb_prop in E as [E1%Z.leb_le E2%Z.ltb_lt]. unfold INT32_MIN in Hr.
  rewrite ckS_ok by lia. f_equal. lia.
Qed.

(** C8: Comparing the publications of two chains terminates with a result for
    all well-formed views, does not overflow, and the early exits of the loop do not
    change which chain wins: the result has the sign of the difference of the
    scores over all keystones, and swapping the chains negates it. *)
Theorem comparePopScoreImpl_total a b M : comparable a b M →
  ∃ r r', comparePopScoreImpl a b = Ok r ∧ comparePopScore_all a b = Ok r' ∧
    - INT32_MAX <= r <= INT32_MAX ∧ Z.sgn r = Z.sgn r' ∧ comparePopScoreImpl b a = Ok (- r).
Proof.
  intros Hcmp. destruct (comparePopScoreImpl_ok a b M Hcmp) as (r & r' & Hr & Hr' & Hb & Hs).
  exists r, r'. split_and!; try done; try lia. apply comparePopScoreImpl_antisym; [done|]. unfold INT32_MAX, INT32_MIN in *. lia.
Qed.

Lemma read_first v M c : config_ok (rpv_config v) M → view_ok v →
  firstKeystone v <= lastKeystone v → rpv_context v (firstKeystone v) = Ok c →
  read_context false v (firstKeystone v) = Ok (Some c) ∧ ctx_ok (Some c).
Proof.
  intros Hc [Hh ? Hn Hf _ _ Hctx] Hle E. split.
  - unfold read_context, getKeystone.
    rewrite isKeystone_eq by (done || apply (co_interval _ _ Hc)). cbn [mbind result_bind].
    rewrite Hf. cbn [Z.eqb vassert mbind result_bind].
    destruct (Z.ltb_spec (firstKeystone v) (firstKeystone v)); [lia|].
    destruct (Z.ltb_spec (lastKeystone v) (firstKeystone v)); [lia|]. cbn [orb]. by rewrite E.
  - destruct (Hctx (firstKeystone v)) as (c' & E' & Hok); [lia|done|]. congruence.
Qed.

(** The first iteration when the publication of [b] comes too late. *)
Lemma late_publication_step cfg M ca cb t l : config_ok cfg M →
  ctx_ok (Some ca) → ctx_ok (Some cb) →
  getForkResolutionLookUpTable cfg = t :: l →
  let pa := firstBlockPublicationHeight ca in
  let pb := firstBlockPublicationHeight cb in
  getFinalityDelay cfg < pb - pa → Z.of_nat (length (t :: l)) <= pb - pa →
  fr_step cfg (Some ca) (Some cb) fr_init = Ok (mkFrState false true t 0 pa pb, false).
Proof.
  intros Hc Ha Hb Ht pa pb Hfin Htab. unfold ctx_ok in Ha, Hb. cbn [publication_of] in Ha, Hb.
  pose proof (co_finality _ _ Hc). unfold fr_step. cbn [publication_of fr_init previousPublicationA
    previousPublicationB aOutsideFinality bOutsideFinality chainAscore chainBscore orb].
  fold pa in Ha |- *. fold pb in Hb |- *. rewrite !(finality_ok cfg) by (lia || done || (unfold NO_ENDORSEMENT, INT32_MAX; lia)).
  cbn [mbind result_bind].
  destruct (Z.ltb_spec (getFinalityDelay cfg) (pa - NO_ENDORSEMENT)); [lia|].
  destruct (Z.ltb_spec (getFinalityDelay cfg) (pb - NO_ENDORSEMENT)); [lia|].
  rewrite Z.min_l, Z.sub_diag by lia. change (ckS 32 0) with (@Ok Z 0). cbn [mbind result_bind].
  destruct (relative_score_ok cfg M Hc (pb - pa)) as (sb & Hsb & _ & Hz); [lia|].
  rewrite Ht in Hz. rewrite Hz in Hsb by done.
  pose proof (co_entries _ _ Hc) as He. rewrite Ht in He. apply Forall_cons in He as [He _].
  pose proof (co_max _ _ Hc). unfold NO_ENDORSEMENT, INT32_MAX in *.
  assert (getConsensusScoreFromRelativeBlockStartingAtZero 0 cfg = Ok t) as ->.
  { unfold getConsensusScoreFromRelativeBlockStartingAtZero, table_at. rewrite Ht.
    rewrite (wrapU_small 64 0) by lia. bsplit. by rewrite wrapS_small by lia. }
  cbn [mbind result_bind]. rewrite (ckS_ok 32 (0 + t)) by lia.
  cbn [mbind result_bind]. rewrite (ckS_ok 32 (pb - pa)) by lia. cbn [mbind result_bind].
  rewrite Hsb. cbn [mbind result_bind]. change (ckS 32 (0 + 0)) with (@Ok Z 0).
  cbn [mbind result_bind]. repeat f_equal; [apply Z.ltb_ge; lia|apply Z.ltb_lt; lia].
Qed.

(** C17: The chain whose first keystone is published earlier in the protecting
    chain wins when the other chain's publication comes more than the finality
    delay later and scores zero in the table, whatever the rest of the two
    chains is: no number of later keystones and publications of [b] can
    overturn it. *)
Theorem earlier_publication_wins a b M ca cb t l : comparable a b M →
  firstKeystone a <= lastKeystone a → firstKeystone b <= lastKeystone b →
  rpv_context a (firstKeystone a) = Ok ca → rpv_context b (firstKeystone b) = Ok cb →
  getForkResolutionLookUpTable (rpv_config a) = t :: l → 0 < t →
  let d := firstBlockPublicationHeight cb - firstBlockPublicationHeight ca in
  getFinalityDelay (rpv_config a) < d → Z.of_nat (length (t :: l)) <= d →
  ∃ r, comparePopScoreImpl a b = Ok r ∧ 0 < r.
Proof.
  intros Hcmp Hea Heb Hca Hcb Ht Ht0 d Hfin Htab.
  destruct (comparable_budget a b M Hcmp) as (R & Hk & Hst & Hfu); [lia|].
  destruct Hcmp as [Hc Hs Ha Hb Hf _]. unfold comparePopScoreImpl.
  rewrite (rpv_empty_ok a M), (rpv_empty_ok b M) by (done || by rewrite <- Hs).
  cbn [mbind result_bind].
  destruct (Z.ltb_spec (lastKeystone a) (firstKeystone a)); [lia|].
  destruct (Z.ltb_spec (lastKeystone b) (firstKeystone b)); [lia|]. cbn [andb].
  rewrite <- Hf, Z.eqb_refl, bool_decide_eq_true_2 by done. cbn [vassert mbind result_bind].
  pose proof (co_interval _ _ Hc) as [? ?].
  destruct R as [|R]; [destruct Hk as (_ & _ & ? & _); lia|].
  destruct (Z.to_nat (_ - _ + 1)) as [|fuel] eqn:Efu; [lia|]. cbn [compare_loop].
  destruct (Z.ltb_spec (Z.max (lastKeystone a) (lastKeystone b)) (firstKeystone a)); [lia|].
  destruct (read_first a M ca Hc Ha Hea Hca) as [Hra Hoka].
  destruct (read_first b M cb ltac:(by rewrite <- Hs) Hb Heb Hcb) as [Hrb Hokb].
  rewrite <- Hf in Hrb. cbn [fr_init aOutsideFinality bOutsideFinality].
  destruct (iteration_ok a b M Hc Hs Ha Hb Hf _ R _ Hk ltac:(lia) Hst)
    as (actx & bctx & s' & br & Hra' & Hrb' & Hs1 & _ & Hs' & _).
  cbn [fr_init aOutsideFinality bOutsideFinality] in Hra', Hrb'.
  rewrite Hra in Hra'. rewrite Hrb in Hrb'. simplify_eq.
  rewrite (late_publication_step _ M _ _ t l Hc Hoka Hokb Ht Hfin Htab) in Hs1. injection Hs1 as <- <-.
  destruct (next_ok a b M Hc Hs Ha Hb _ R Hk ltac:(lia)) as [Hn Hk'].
  rewrite Hra, Hrb. cbn [mbind result_bind]. fold fr_init.
  rewrite (late_publication_step _ M _ _ t l Hc Hoka Hokb Ht Hfin Htab).
  cbn [mbind result_bind fst snd]. rewrite Hn. cbn [mbind result_bind].
  destruct (compare_loop_ok a b M Hc Hs Ha Hb Hf R fuel _ _ Hk' Hs' ltac:(lia))
    as (s1 & s2 & -> & _ & ? & ? & HB & _).
  cbn [chainAscore chainBscore bOutsideFinality mbind result_bind] in *.
  destruct Hs' as (_ & Hsa & _). cbn [chainAscore] in Hsa. rewrite HB by done.
  unfold INT32_MAX in *. rewrite ckS_ok by lia. eexists. split; [done|lia].
Qed.

(** ** Concrete views *)
Module Example_views.
Definition vbk_config : fr_config := mkFrConfig 20 11 [100; 100; 95; 89; 80; 69; 56; 40; 21].
Definition ctx_of (pubs : list Z) (h : Z) : result KeystoneContext :=
  Ok (mkKeystoneContext h (default NO_ENDORSEMENT (pubs !! Z.to_nat (h / 20 - 1)))).
Definition view (last : Z) (pubs : list Z) : ReducedPublicationView :=
  mkView vbk_config 20 last (ctx_of pubs).
Definition va := view 40 [100].
Definition vb := view 100 [115; 116; 117; 118; 119].
Definition vc := view 60 [102; 103; 300].

Lemma vbk_config_ok : config_ok vbk_config 100.
Proof.
  constructor; [by split|done|done| |done].
  repeat (constructor; [lia|]). constructor.
Qed.

Lemma view_view_ok last pubs : last mod 20 = 0 → 0 <= last <= 1000 →
  Forall (λ p, 0 <= p <= NO_ENDORSEMENT) pubs → view_ok (view last pubs).
Proof.
  intros Hm Hl Hp. constructor; cbn; [done|lia|unfold INT32_MAX; lia|done|done|lia|].
  intros h _ _. eexists. split; [done|]. unfold ctx_ok. cbn.
  destruct (pubs !! _) as [p|] eqn:E; cbn; [|unfold NO_ENDORSEMENT, INT32_MAX; lia].
  rewrite Forall_lookup in Hp. eauto.
Qed.

Lemma va_vb_comparable : comparable va vb 100.
Proof.
  constructor; [apply vbk_config_ok|done| | |done|done];
    apply view_view_ok; try done; repeat (constructor; [by vm_compute|]); constructor.
Qed.
End Example_views.

Lemma comparePopScoreImpl_total_witness :
  ∃ r r', comparePopScoreImpl Example_views.va Example_views.vb = Ok r ∧
    comparePopScore_all Example_views.va Example_views.vb = Ok r' ∧
    - INT32_MAX <= r <= INT32_MAX ∧ Z.sgn r = Z.sgn r' ∧
    comparePopScoreImpl Example_views.vb Example_views.va = Ok (- r).
Proof. exact (comparePopScoreImpl_total _ _ _ Example_views.va_vb_comparable). Defined.

Lemma earlier_publication_wins_witness :
  ∃ r, comparePopScoreImpl Example_views.va Example_views.vb = Ok r ∧ 0 < r.
Proof.
  apply (earlier_publication_wins _ _ 100 (mkKeystoneContext 20 100) (mkKeystoneContext 20 115)
    100 [100; 95; 89; 80; 69; 56; 40; 21] Example_views.va_vb_comparable); by vm_compute.
Defined.
