(* ===== verification/PayloadsIndex.v ===== *)
(** * Payload indexes
    ([blockchain/payloads_index.hpp], [blockchain/payloads_index_detail.hpp])

    [FinalizedPayloadsIndex] maps a payload id to the one finalized block that
    contains it, [PayloadsIndex] to the set of non-finalized blocks that
    contain it. *)
From S2P Require Import Prelude BlockIndex.

(** The payload ids of a block in the order [PLIAddBlock] visits them: ATV,
    VTB and VBK ids of an ALT block, VTB ids of a VBK block, none of a BTC
    block. *)
Class PayloadIds (A P : Type) := payloadIds : A → list P.

(** [Block::getHash()] *)
Class BlockHash (B H : Type) := getHash : B → H.

Section payloads.
Context {K B A P H : Type} `{Countable K, Countable P, Countable H}.
Context `{PayloadIds A P, BlockHash B H}.
Notation index_t := (BlockIndex K B A).

(** ** [FinalizedPayloadsIndex] *)
Notation FinalizedPayloadsIndex := (gmap P H).

Definition fpl_find (fpl : FinalizedPayloadsIndex) (pid : P) : option H := fpl !! pid.

Definition fpl_add (pid : P) (hash : H) (fpl : FinalizedPayloadsIndex)
    : result FinalizedPayloadsIndex :=
  vassert (bool_decide (fpl !! pid = None)) "payload is already finalized";;
  Ok (<[pid := hash]> fpl).

Definition fpl_remove (pid : P) (fpl : FinalizedPayloadsIndex)
    : result FinalizedPayloadsIndex :=
  vassert (bool_decide (is_Some (fpl !! pid))) "payload is not finalized";;
  Ok (delete pid fpl).

Definition fpl_addBlock (block : index_t) (fpl : FinalizedPayloadsIndex)
    : result FinalizedPayloadsIndex :=
  vassert (finalized block) "block is not finalized";;
  foldM (λ fpl id, fpl_add id (getHash (header block)) fpl) (payloadIds (addon block)) fpl.

(** ** [PayloadsIndex] *)
Notation PayloadsIndex := (gmap P (gset H)).

Definition pl_find (pl : PayloadsIndex) (id : P) : gset H := default ∅ (pl !! id).

Definition pl_add (id : P) (block : H) (pl : PayloadsIndex) : PayloadsIndex :=
  <[id := {[block]} ∪ pl_find pl id]> pl.

Definition pl_remove (id : P) (block : H) (pl : PayloadsIndex) : PayloadsIndex :=
  match pl !! id with
  | None => pl
  | Some set =>
    let set := set ∖ {[block]} in
    if bool_decide (set = ∅) then delete id pl else <[id := set]> pl
  end.

Definition pl_addBlock (block : index_t) (pl : PayloadsIndex) : result PayloadsIndex :=
  vassert (negb (finalized block)) "block is finalized";;
  Ok (foldl (λ pl id, pl_add id (getHash (header block)) pl) pl (payloadIds (addon block))).

Definition pl_removeBlock (block : index_t) (pl : PayloadsIndex) : PayloadsIndex :=
  foldl (λ pl id, pl_remove id (getHash (header block)) pl) pl (payloadIds (addon block)).

(** ** Lemmas *)
(** No key is left with an empty set. *)
Definition pl_wf (pl : PayloadsIndex) : Prop := ∀ id, pl !! id ≠ Some ∅.

Lemma pl_find_insert id id' s pl :
  pl_find (<[id := s]> pl) id' = if bool_decide (id = id') then s else pl_find pl id'.
Proof.
  unfold pl_find. case_bool_decide; subst; [by rewrite lookup_insert_eq|by rewrite lookup_insert_ne].
Qed.

Lemma pl_find_add id id' h pl :
  pl_find (pl_add id h pl) id' = if bool_decide (id = id') then {[h]} ∪ pl_find pl id else pl_find pl id'.
Proof. apply pl_find_insert. Qed.

Lemma pl_find_remove id id' h pl :
  pl_find (pl_remove id h pl) id' = if bool_decide (id = id') then pl_find pl id ∖ {[h]} else pl_find pl id'.
Proof.
  unfold pl_remove. destruct (pl !! id) as [s|] eqn:Es.
  - unfold pl_find. rewrite Es. cbn. repeat case_bool_decide; subst;
      rewrite ?lookup_delete_eq, ?lookup_delete_ne, ?lookup_insert_eq, ?lookup_insert_ne by done;
      cbn; done || set_solver.
  - case_bool_decide; [subst|done]. unfold pl_find. rewrite Es. cbn. set_solver.
Qed.

Lemma pl_add_wf id h pl : pl_wf pl → pl_wf (pl_add id h pl).
Proof.
  intros W id'. unfold pl_add. destruct (decide (id = id')) as [->|].
  - rewrite lookup_insert_eq. intros [=]. set_solver.
  - rewrite lookup_insert_ne by done. apply W.
Qed.

Lemma pl_remove_wf id h pl : pl_wf pl → pl_wf (pl_remove id h pl).
Proof.
  intros W id'. unfold pl_remove. destruct (pl !! id) as [s|] eqn:Es; [|apply W].
  case_bool_decide; destruct (decide (id = id')) as [->|];
    rewrite ?lookup_delete_eq, ?lookup_delete_ne, ?lookup_insert_eq, ?lookup_insert_ne by done;
    first [done | apply W | congruence].
Qed.

(** Two well-formed indexes with the same [find] are equal. *)
Lemma pl_eq pl pl' : pl_wf pl → pl_wf pl' → (∀ id, pl_find pl id = pl_find pl' id) → pl = pl'.
Proof.
  intros W W' E. apply map_eq. intros id. specialize (E id). specialize (W id). specialize (W' id).
  unfold pl_find in E. destruct (pl !! id), (pl' !! id); cbn in E; congruence.
Qed.

Lemma pl_find_addAll ids h pl id :
  pl_find (foldl (λ pl id, pl_add id h pl) pl ids) id =
    if bool_decide (id ∈ ids) then {[h]} ∪ pl_find pl id else pl_find pl id.
Proof.
  revert pl. induction ids as [|x ids IH]; intros pl; cbn.
  { rewrite bool_decide_eq_false_2 by set_solver. done. }
  rewrite IH, pl_find_add. repeat case_bool_decide; subst; set_solver.
Qed.

Lemma pl_find_removeAll ids h pl id :
  pl_find (foldl (λ pl id, pl_remove id h pl) pl ids) id =
    if bool_decide (id ∈ ids) then pl_find pl id ∖ {[h]} else pl_find pl id.
Proof.
  revert pl. induction ids as [|x ids IH]; intros pl; cbn.
  { rewrite bool_decide_eq_false_2 by set_solver. done. }
  rewrite IH, pl_find_remove. repeat case_bool_decide; subst; set_solver.
Qed.

Lemma foldl_wf (f : PayloadsIndex → P → PayloadsIndex) ids pl :
  (∀ pl id, pl_wf pl → pl_wf (f pl id)) → pl_wf pl → pl_wf (foldl f pl ids).
Proof. intros Hf. revert pl. induction ids; cbn; auto. Qed.

(** After [addBlock] every payload of the block is found in it and no
    other block is affected; [removeBlock] then restores the index exactly
    when the block was not in it before. *)
Lemma pl_addBlock_removeBlock (block : index_t) (pl : PayloadsIndex) :
  pl_wf pl → finalized block = false →
  (∀ id, id ∈ payloadIds (addon block) → getHash (header block) ∉ pl_find pl id) →
  ∃ pl', pl_addBlock block pl = Ok pl' ∧ pl_wf pl' ∧
    (∀ id h, h ∈ pl_find pl' id ↔
      h ∈ pl_find pl id ∨ (h = getHash (header block) ∧ id ∈ payloadIds (addon block))) ∧
    pl_removeBlock block pl' = pl.
Proof.
  intros W Hf Hnew. unfold pl_addBlock. rewrite Hf. cbn. eexists. split; [done|]. split_and!.
  - apply foldl_wf; auto using pl_add_wf.
  - intros id h. rewrite pl_find_addAll. case_bool_decide; set_solver.
  - apply pl_eq; [|done|].
    + apply foldl_wf; [auto using pl_remove_wf|]. apply foldl_wf; auto using pl_add_wf.
    + intros id. unfold pl_removeBlock. rewrite pl_find_removeAll, pl_find_addAll.
      case_bool_decide; [|done]. specialize (Hnew id). set_solver.
Qed.
End payloads.

Module Example_payloads.
#[export] Instance ids : PayloadIds (list Z) Z := λ a, a.
#[export] Instance hash : BlockHash Z Z := λ b, b.
Definition block : BlockIndex Z Z (list Z) := mkBlockIndex 1 7 4 false None ∅ false [10; 11; 10].
Definition pl : gmap Z (gset Z) := {[10 := {[5]}]}.
End Example_payloads.
#[local] Existing Instance Example_payloads.ids.
#[local] Existing Instance Example_payloads.hash.

Lemma pl_addBlock_removeBlock_witness :
  ∃ pl', pl_addBlock Example_payloads.block Example_payloads.pl = Ok pl' ∧ pl_wf pl' ∧
    (∀ id h, h ∈ pl_find pl' id ↔
      h ∈ pl_find Example_payloads.pl id ∨ (h = getHash (header Example_payloads.block)
        ∧ id ∈ payloadIds (addon Example_payloads.block))) ∧
    pl_removeBlock Example_payloads.block pl' = Example_payloads.pl.
Proof.
  apply (pl_addBlock_removeBlock Example_payloads.block Example_payloads.pl).
  - intros id. unfold Example_payloads.pl. rewrite lookup_singleton. case_decide; [|done].
    intros [=].
  - reflexivity.
  - intros id _. unfold pl_find, Example_payloads.pl. rewrite lookup_singleton.
    case_decide; cbn; [|set_solver]. change (getHash (header Example_payloads.block)) with 7. set_solver.
Defined.
