(* ===== verification/TreeAlgo.v ===== *)
(** * Tree traversals ([blockchain/tree_algo.hpp])

    The traversals call a visitor that may modify the tree, so the visitor
    threads a state [S] from which [store_of] reads the nodes.  [children]
    are the elements of [pnext] in iteration order. *)
From S2P Require Import Prelude BlockIndex.

Section algo.
Context {K B A S : Type} `{Countable K}.
Notation index_t := (BlockIndex K B A).
Notation store := (gmap K index_t).
Variable store_of : S → store.

(** [visit] returns whether the traversal goes on below the node; [pnext]
    is copied after the visit.  The recursion depth is bounded by [fuel]. *)
Fixpoint forEachNodePreorder (fuel : nat) (visit : K → S → result (S * bool)) (index : K) (s : S)
    : result S :=
  match fuel with
  | O => OutOfFuel
  | Datatypes.S fuel =>
    r ← visit index s;
    if (r.2 : bool) then
      i ← deref (store_of r.1) index;
      foldM (λ s pnext, forEachNodePreorder fuel visit pnext s)
        (children (store_of r.1) i) r.1
    else Ok r.1
  end.

(** The starting node is not passed to [shouldContinue]. *)
Fixpoint forEachNextNodePreorder (fuel : nat) (shouldContinue : K → S → result (S * bool))
    (index : K) (s : S) : result S :=
  match fuel with
  | O => OutOfFuel
  | Datatypes.S fuel =>
    i ← deref (store_of s) index;
    foldM (λ s pnext,
      r ← shouldContinue pnext s;
      if (r.2 : bool) then forEachNextNodePreorder fuel shouldContinue pnext r.1 else Ok r.1)
      (children (store_of s) i) s
  end.

(** The loop of [forEachNodePostorder]: [set] holds the nodes whose children
    were pushed. *)
Definition pushChildren (shouldVisit : index_t → bool) (m : store) (i : index_t)
    (stack : list K) : result (list K) :=
  foldM (λ stack next, j ← deref m next; Ok (if shouldVisit j then next :: stack else stack))
    (children m i) stack.

Fixpoint postorder_loop (fuel : nat) (visit : K → S → result S) (shouldVisit : index_t → bool)
    (set : gset K) (stack : list K) (s : S) : result S :=
  match stack with
  | [] => Ok s
  | item :: rest =>
    match fuel with
    | O => OutOfFuel
    | Datatypes.S fuel =>
      if bool_decide (item ∈ set) then
        s ← visit item s;
        postorder_loop fuel visit shouldVisit set rest s
      else
        i ← deref (store_of s) item;
        stack ← pushChildren shouldVisit (store_of s) i stack;
        postorder_loop fuel visit shouldVisit ({[item]} ∪ set) stack s
    end
  end.

(** Every node is on top of the stack twice. *)
Definition forEachNodePostorder (visit : K → S → result S) (shouldVisit : index_t → bool)
    (index : K) (s : S) : result S :=
  postorder_loop (2 * size (store_of s)) visit shouldVisit ∅ [index] s.
End algo.

Section tips.
Context {K B A : Type} `{Countable K, BlockAddon A}.
Notation index_t := (BlockIndex K B A).
Notation store := (gmap K index_t).

(** [findValidTips(index)] *)
Definition findValidTips (fuel : nat) (m : store) (index : K) : result (list K) :=
  forEachNodePreorder (λ _, m) fuel (λ next ret,
    i ← deref m next;
    v ← isValid BLOCK_VALID_TREE i;
    if negb v then Ok (ret, false)
    else
      t ← isValidTip m i;
      if (t : bool) then Ok (ret ++ [next], false) else Ok (ret, true)) index [].

(** [findValidTips(tips, index)] *)
Definition findValidTipsIn (m : store) (tips : gset K) (index : K) : result (list K) :=
  i ← deref m index;
  foldM (λ ret tip,
    ancestor ← getAncestor m tip (height i);
    Ok (if bool_decide (ancestor = Some index) then ret ++ [tip] else ret)) (elements tips) [].
End tips.

(** ** The preorder traversal by invariant

    [J l s] says that the work left in state [s] is the work below the nodes
    of [l]; visiting a node replaces it by its children or by nothing. *)
Section preorder.
Context {K B A S : Type} `{Countable K}.
Notation index_t := (BlockIndex K B A).
Variables (store_of : S → gmap K index_t) (visit : K → S → result (S * bool)).
Variables (J : list K → S → Prop) (hgt : K → Z) (top : Z).

(** A node that is still to be visited is in the tree and not above [top]. *)
Hypothesis J_node : ∀ k l s, J (k :: l) s → hgt k <= top.
Hypothesis J_visit : ∀ k l s, J (k :: l) s →
  ∃ s' b i', visit k s = Ok (s', b) ∧ store_of s' !! k = Some i' ∧
    J ((if b : bool then elements (pnext i') else []) ++ l) s' ∧
    ∀ c, c ∈ pnext i' → hgt c = hgt k + 1.

Lemma forEachNodePreorder_inv fuel k l s : J (k :: l) s →
  (Z.to_nat (top - hgt k) < fuel)%nat →
  ∃ s', forEachNodePreorder store_of fuel visit k s = Ok s' ∧ J l s'.
Proof.
  revert k l s. induction fuel as [|fuel IH]; intros k l s HJ Hf; [lia|]. simpl.
  destruct (J_visit k l s HJ) as (s1 & b & i1 & Hv & Hi1 & HJ1 & Hc).
  rewrite Hv. cbn [mbind result_bind fst snd]. destruct b; [|by exists s1].
  rewrite (deref_eq _ _ _ Hi1). cbn [mbind result_bind]. unfold children.
  assert (∀ c, c ∈ elements (pnext i1) → hgt c = hgt k + 1) as Hh by (intros; apply Hc; set_solver).
  clear Hc Hi1 Hv. revert s1 Hh HJ1. generalize (elements (pnext i1)) as cs.
  induction cs as [|c cs IHc]; intros s2 Hh HJ2; simpl; [by exists s2|].
  pose proof (J_node _ _ _ HJ2). pose proof (Hh c ltac:(set_solver)).
  destruct (IH c (cs ++ l) s2 HJ2) as (s3 & -> & HJ3); [lia|]. cbn [mbind result_bind].
  apply IHc; [|done]. intros; apply Hh; set_solver.
Qed.

(** The children of a node, one after the other. *)
Lemma forEachChild_inv fuel cs l s : J (cs ++ l) s →
  (∀ c, c ∈ cs → (Z.to_nat (top - hgt c) < fuel)%nat) →
  ∃ s', foldM (λ s c, forEachNodePreorder store_of fuel visit c s) cs s = Ok s' ∧ J l s'.
Proof.
  revert s. induction cs as [|c cs IHc]; intros s HJ Hf; simpl; [by exists s|].
  destruct (forEachNodePreorder_inv fuel c (cs ++ l) s HJ) as (s3 & -> & HJ3).
  { apply Hf. set_solver. }
  cbn [mbind result_bind]. apply IHc; [done|]. intros; apply Hf; set_solver.
Qed.
End preorder.

(** ** The postorder traversal

    [live s] is the set of nodes the traversal has not removed yet; visiting
    a node whose live children are gone removes it. *)
Section postorder.
Context {K B A S : Type} `{Countable K}.
Notation index_t := (BlockIndex K B A).
Variables (store_of : S → gmap K index_t) (visit : K → S → result S).
Variables (shouldVisit : index_t → bool) (J : S → Prop) (live : S → gset K).
Variable parent : K → option K.

(** Live nodes below [top], connected to it by live nodes. *)
Inductive below (L : gset K) (top : K) : K → Prop :=
| below_top : top ∈ L → below L top top
| below_child k c : below L top k → parent c = Some k → c ∈ L → below L top c.

Hypothesis J_children : ∀ s k, J s → k ∈ live s → ∃ i, store_of s !! k = Some i ∧
  (∀ c, c ∈ pnext i → ∃ j, store_of s !! c = Some j ∧ parent c = Some k ∧
    (shouldVisit j = true ↔ c ∈ live s)) ∧
  (∀ c, c ∈ live s → parent c = Some k → c ∈ pnext i).

Variables (L0 : gset K) (top : K).
Hypothesis J_visit : ∀ s k, J s → live s ⊆ L0 → k ∈ live s → below L0 top k →
  (∀ c, c ∈ live s → parent c ≠ Some k) →
  ∃ s', visit k s = Ok s' ∧ J s' ∧ live s' = live s ∖ {[k]}.
Hypothesis no_cycle : ∀ k, below L0 top k → parent top ≠ Some k.

Lemma below_elem L a x : below L a x → x ∈ L.
Proof. by destruct 1. Qed.

Lemma below_subset L L' a x : L ⊆ L' → below L a x → below L' a x.
Proof. intros HL. induction 1; [by constructor; apply HL|econstructor; eauto]. Qed.

Lemma below_trans L a b x : below L a b → below L b x → below L a x.
Proof. intros Hab. induction 1; [done|econstructor; eauto]. Qed.

Lemma below_step L a x : below L a x →
  x = a ∨ ∃ c, parent c = Some a ∧ c ∈ L ∧ below L c x.
Proof.
  induction 1 as [|k c Hk IH Hp Hc]; [by left|]. right. destruct IH as [->|(d & ? & ? & ?)].
  - exists c. split_and!; [done..|by constructor].
  - exists d. split_and!; [done..|by econstructor].
Qed.

Lemma below_remove L k a x : below L a x → a ≠ k → x ≠ k →
  (∀ c, c ∈ L → parent c ≠ Some k) → below (L ∖ {[k]}) a x.
Proof.
  intros Hb Ha Hx Hk. induction Hb as [|p c Hb IH Hp Hc]; [constructor; set_solver|].
  econstructor; [apply IH|done|set_solver]. intros ->. by apply (Hk c).
Qed.

(** The loop invariant: [expanded] nodes on the stack have their live
    children above them, and every node but [top] was pushed by its parent. *)
Record loop_inv (set : gset K) (stack : list K) (s : S) : Prop := {
  li_J : J s;
  li_sub : live s ⊆ L0;
  li_nodup : NoDup stack;
  li_live : ∀ k, k ∈ stack → k ∈ live s ∧ below L0 top k;
  li_set : ∀ k, k ∈ set → k ∈ live s → k ∈ stack;
  li_above : ∀ l1 k l2 c, stack = l1 ++ k :: l2 → k ∈ set →
    c ∈ live s → parent c = Some k → c ∈ l1;
  li_parent : ∀ c, c ∈ stack → c ≠ top → ∃ p, parent c = Some p ∧ p ∈ set ∧ p ∈ stack;
  li_cover : ∀ x, x ∈ live s → below L0 top x →
    x ∈ stack ∨ ∃ k, k ∈ stack ∧ k ∉ set ∧ below (live s) k x;
  li_keep : ∀ x, x ∈ L0 → x ∉ live s → below L0 top x
}.

Lemma pushChildren_eq m cs stack :
  (∀ c, c ∈ cs → ∃ j, m !! c = Some j) →
  ∃ stack', foldM (λ stack next, j ← deref m next;
      Ok (if shouldVisit j then next :: stack else stack)) cs stack = Ok (stack' ++ stack) ∧
    (∀ c, c ∈ stack' ↔ c ∈ cs ∧ ∃ j, m !! c = Some j ∧ shouldVisit j = true) ∧
    (NoDup cs → NoDup stack').
Proof.
  revert stack. induction cs as [|c cs IH]; intros stack Hcs; simpl.
  { exists []. split_and!; [done|set_solver|done]. }
  destruct (Hcs c) as [j Hj]; [set_solver|]. rewrite (deref_eq _ _ _ Hj). cbn [mbind result_bind].
  destruct (IH (if shouldVisit j then c :: stack else stack)) as (st & Hst & Hin & Hnd);
    [intros; apply Hcs; set_solver|].
  destruct (shouldVisit j) eqn:Ev.
  - exists (st ++ [c]). split_and!.
    + rewrite Hst. by rewrite <- app_assoc.
    + intros x. rewrite elem_of_app, Hin, list_elem_of_singleton, elem_of_cons. naive_solver.
    + intros [? ?]%NoDup_cons. apply NoDup_app. split_and!; [auto|set_solver|apply NoDup_singleton].
  - exists st. split_and!; [done| |].
    + intros x. rewrite Hin, elem_of_cons. naive_solver congruence.
    + intros [? ?]%NoDup_cons. auto.
Qed.

Lemma expand_inv set k rest s i stack' : loop_inv set (k :: rest) s → k ∉ set →
  store_of s !! k = Some i →
  (∀ c, c ∈ stack' ↔ c ∈ live s ∧ parent c = Some k) → NoDup stack' →
  loop_inv ({[k]} ∪ set) (stack' ++ k :: rest) s.
Proof.
  intros [HJ Hsub Hnd Hlive Hset Habove Hpar Hcov Hkeep] Hk Hi Hin Hnd'.
  destruct (Hlive k) as [Hkl Hkb]; [set_solver|].
  assert (∀ c, c ∈ stack' → c ∉ k :: rest) as Hfresh.
  { intros c [Hc Hp]%Hin Hcs. destruct (decide (c = top)) as [->|Hne]; [by eapply no_cycle|].
    destruct (Hpar c Hcs Hne) as (p & Hp' & ? & _). congruence. }
  assert (∀ c, c ∈ stack' → c ∉ set) as Hnset.
  { intros c Hc Hcs. apply (Hfresh c Hc). apply Hset; [done|]. by apply Hin. }
  constructor; [done|done| | | | | | |done].
  - apply NoDup_app. split_and!; [done|done|done].
  - intros c [Hc|Hc]%elem_of_app; [|by apply Hlive]. apply Hin in Hc as [Hc Hp].
    split; [done|]. econstructor; [exact Hkb|done|set_solver].
  - intros x Hx Hxl. apply elem_of_union in Hx as [->%elem_of_singleton|Hx]; [set_solver|].
    apply elem_of_app. right. by apply Hset.
  - intros l1 x l2 c E Hx Hc Hp.
    assert (x ∉ stack') as Hxs.
    { intros Hxs. apply elem_of_union in Hx as [->%elem_of_singleton|Hx].
      - apply (Hfresh k Hxs). set_solver.
      - by apply (Hnset x). }
    apply app_eq_app in E as (l & [(-> & E)|(-> & E)]).
    + destruct l as [|y l]; simpl in E; [|by injection E as <- E; set_solver].
      injection E as -> ->. rewrite app_nil_r in Hin. by apply Hin.
    + destruct l as [|y l]; simpl in E.
      * injection E as -> ->. rewrite app_nil_r. by apply Hin.
      * injection E as <- ->. apply elem_of_app. right.
        apply elem_of_union in Hx as [->%elem_of_singleton|Hx].
        -- apply NoDup_cons in Hnd as [Hnd _]. set_solver.
        -- apply (Habove (k :: l) x l2 c); done.
  - intros c [Hc|Hc]%elem_of_app Hne.
    + apply Hin in Hc as [_ Hp]. exists k. set_solver.
    + destruct (Hpar c Hc Hne) as (p & ? & ? & ?). exists p. set_solver.
  - intros x Hx Hb. destruct (Hcov x Hx Hb) as [Hxs|(y & Hy & Hys & Hyb)]; [set_solver|].
    destruct (decide (y = k)) as [->|Hne].
    + destruct (below_step _ _ _ Hyb) as [->|(c & Hp & Hc & Hcb)]; [set_solver|].
      right. exists c. assert (c ∈ stack') as Hcs by by apply Hin.
      split_and!; [set_solver| |done]. specialize (Hnset c Hcs). specialize (Hfresh c Hcs). set_solver.
    + right. exists y. split_and!; [set_solver|set_solver|done].
Qed.

Lemma removed_inv set k rest s s' : loop_inv set (k :: rest) s → k ∈ set → J s' →
  live s' = live s ∖ {[k]} → (∀ c, c ∈ live s → parent c ≠ Some k) →
  loop_inv set rest s'.
Proof.
  intros [HJ Hsub Hnd Hlive Hset Habove Hpar Hcov Hkeep] Hk HJ' El Hnc.
  apply NoDup_cons in Hnd as [Hkr Hnd]. constructor; rewrite ?El.
  - done.
  - set_solver.
  - done.
  - intros x Hx. destruct (Hlive x) as [? ?]; [set_solver|]. split; [set_solver|done].
  - intros x Hx [Hxl Hne]%elem_of_difference. specialize (Hset x Hx Hxl). set_solver.
  - intros l1 x l2 c -> Hx Hc Hp. assert (c ∈ k :: l1) as Hc'; [|set_solver].
    apply (Habove (k :: l1) x l2); [done|done|set_solver|done].
  - intros c Hc Hne. destruct (Hpar c) as (p & Hp & ? & Hps); [set_solver|done|].
    exists p. split_and!; [done|done|]. apply elem_of_cons in Hps as [->|]; [|done].
    exfalso. apply (Hnc c); [|done]. apply Hlive. set_solver.
  - intros x [Hx Hne]%elem_of_difference Hb.
    destruct (Hcov x Hx Hb) as [Hxs|(y & Hy & Hys & Hyb)]; [set_solver|].
    right. exists y. split_and!; [set_solver|done|].
    apply below_remove; [done|set_solver|set_solver|done].
  - intros x Hx Hxl. destruct (decide (x = k)) as [->|]; [|apply Hkeep; set_solver].
    apply Hlive. set_solver.
Qed.

Lemma postorder_loop_inv fuel set stack s : loop_inv set stack s →
  (2 * size (live s) <= fuel + size (set ∩ live s))%nat →
  ∃ s', postorder_loop store_of fuel visit shouldVisit set stack s = Ok s' ∧ J s' ∧
    live s' ⊆ L0 ∧ ∀ x, x ∈ L0 → (x ∈ live s' ↔ ¬ below L0 top x).
Proof.
  revert set stack s. induction fuel as [|fuel IH]; intros set stack s Hinv Hf;
    (destruct stack as [|k rest];
      [exists s; destruct Hinv as [HJ Hsub _ _ _ _ _ Hcov Hkeep];
       (split_and!; [done|done|done|]);
       intros x Hx; split;
       [intros Hxl Hb; destruct (Hcov x Hxl Hb) as [?|(? & ? & _)]; set_solver
       |intros Hnb; destruct (decide (x ∈ live s)); [done|by exfalso; auto]]|]);
    pose proof (li_live _ _ _ Hinv k ltac:(set_solver)) as [Hkl Hkb];
    assert (size (set ∩ live s) <= size (live s))%nat by (apply subseteq_size; set_solver);
    assert (0 < size (live s))%nat by (apply Nat.neq_0_lt_0; intros E%size_empty_inv; set_solver).
  { lia. }
  simpl. case_bool_decide as Hks.
  - assert (∀ c, c ∈ live s → parent c ≠ Some k) as Hnc.
    { intros c Hc Hp. pose proof (li_above _ _ _ Hinv [] k rest c eq_refl Hks Hc Hp). set_solver. }
    destruct (J_visit s k) as (s1 & Hv & HJ1 & El); [apply Hinv..|done|done|done|].
    rewrite Hv. cbn [mbind result_bind]. apply IH; [by eapply removed_inv|].
    rewrite El. rewrite size_difference by set_solver. rewrite size_singleton.
    replace (set ∩ (live s ∖ {[k]})) with ((set ∩ live s) ∖ {[k]}) by set_solver.
    rewrite size_difference by set_solver. rewrite size_singleton. lia.
  - destruct (J_children s k) as (i & Hi & Hc1 & Hc2); [apply Hinv|done|].
    rewrite (deref_eq _ _ _ Hi). cbn [mbind result_bind]. unfold pushChildren, children.
    destruct (pushChildren_eq (store_of s) (elements (pnext i)) (k :: rest)) as (st & -> & Hin & Hnd).
    { intros c Hc. destruct (Hc1 c) as (j & ? & _); [set_solver|eauto]. }
    cbn [mbind result_bind]. apply IH.
    + eapply expand_inv; [done|done|done| |apply Hnd, NoDup_elements].
      intros c. rewrite Hin, elem_of_elements. split.
      * intros (Hc & j & Hj & Hsv). destruct (Hc1 c Hc) as (j' & Hj' & Hp & Hiff). split; [|done].
        apply Hiff. congruence.
      * intros [Hc Hp]. specialize (Hc2 c Hc Hp). split; [done|].
        destruct (Hc1 c Hc2) as (j & Hj & _ & Hiff). exists j. split; [done|]. by apply Hiff.
    + replace (({[k]} ∪ set) ∩ live s) with ({[k]} ∪ (set ∩ live s)) by set_solver.
      rewrite size_union by set_solver. rewrite size_singleton. lia.
Qed.

(** All nodes below [top] are removed, the others stay. *)
Lemma forEachNodePostorder_inv s : J s → live s = L0 → top ∈ L0 →
  (size (live s) <= size (store_of s))%nat →
  ∃ s', forEachNodePostorder store_of visit shouldVisit top s = Ok s' ∧ J s' ∧
    live s' ⊆ L0 ∧ ∀ x, x ∈ L0 → (x ∈ live s' ↔ ¬ below L0 top x).
Proof.
  intros HJ El Htop Hs. apply postorder_loop_inv; [|lia].
  constructor; rewrite ?El.
  - done.
  - done.
  - apply NoDup_singleton.
  - intros k ->%list_elem_of_singleton. split; [done|by constructor].
  - by intros x Hx%elem_of_empty.
  - by intros l1 k l2 c _ Hk%elem_of_empty.
  - by intros c ->%list_elem_of_singleton.
  - intros x Hx Hb. right. exists top. split_and!; [by left|apply not_elem_of_empty|done].
  - done.
Qed.
End postorder.
