(* ===== verification/BaseTree.v ===== *)
(** * The block tree ([blockchain/base_block_tree.hpp])

    [BaseBlockTree] owns the nodes ([blocks_]), the valid tips, the active
    chain and the payload indexes.  [K] is [prev_block_hash_t], the key of the
    node store, [H] the full hash, [B] the header, [A] the addon, [P] a payload
    id; [Ext] are the members that the derived class adds ([ext]).  The virtual methods are the class [TreeHooks].  A [bool] function with
    a [ValidationState] that leaves the tree changed on failure returns
    [tree * bool]; log messages are left out. *)
From S2P Require Import Prelude BlockIndex Chain TreeAlgo PayloadsIndex.

(** Static facts about a block type: [getPreviousBlock], [makePrevHash],
    the comparison of [assertBlockSanity] and [operator==]. *)
Class BlockHeader (B H K : Type) := {
  getPreviousBlock : B → K;
  makePrevHash : H → K;
  hashIsPrevious : B → bool;
  sameBlock : B → B → bool;
  sameBlock_refl : ∀ b, sameBlock b b = true
}.

(** The stored form of the addon: [toInmem] and [setNullInmemFields]. *)
Class StoredAddon (A SA : Type) := { toInmem : SA → A → A; setNullInmemFields : A → A }.

(** What the tree reports to its subscribers; the last two are signals of
    [AltBlockTree]. *)
Inductive signal (K : Type) :=
| onBlockBeforeDeallocated (k : K)
| onBlockValidityChanged (k : K)
| onBeforeOverrideTip (k : K)
| onBlockConnected (k : K)
| onInvalidBlockConnected (k : K) (state : list string).
Arguments onBlockBeforeDeallocated {K}.
Arguments onBlockValidityChanged {K}.
Arguments onBeforeOverrideTip {K}.
Arguments onBlockConnected {K}.
Arguments onInvalidBlockConnected {K}.

Record StoredBlockIndex (B SA : Type) := mkStored {
  stored_height : Z;
  stored_header : B;
  stored_status : Z;
  stored_addon : SA
}.
Arguments mkStored {B SA}.
Arguments stored_height {B SA}.
Arguments stored_header {B SA}.
Arguments stored_status {B SA}.
Arguments stored_addon {B SA}.

Record BaseBlockTree (K H B A P Ext : Type) `{Countable K, Countable H, Countable P} := mkTree {
  blocks_ : gmap K (BlockIndex K B A);
  tips_ : gset K;
  activeChain_ : Chain K;
  appliedBlockCount : Z;
  deferForkResolutionDepth : Z;
  isUpdateTipsDeferred : bool;
  lastModifiedBlock : option K;
  isLoadingBlocks_ : bool;
  isLoaded_ : bool;
  finalizedPayloadsIndex_ : gmap P H;
  payloadsIndex_ : gmap P (gset H);
  emitted : list (signal K);
  ext : Ext
}.
Arguments mkTree {K H B A P Ext _ _ _ _ _ _}.
Arguments blocks_ {K H B A P Ext _ _ _ _ _ _}.
Arguments tips_ {K H B A P Ext _ _ _ _ _ _}.
Arguments activeChain_ {K H B A P Ext _ _ _ _ _ _}.
Arguments appliedBlockCount {K H B A P Ext _ _ _ _ _ _}.
Arguments deferForkResolutionDepth {K H B A P Ext _ _ _ _ _ _}.
Arguments isUpdateTipsDeferred {K H B A P Ext _ _ _ _ _ _}.
Arguments lastModifiedBlock {K H B A P Ext _ _ _ _ _ _}.
Arguments isLoadingBlocks_ {K H B A P Ext _ _ _ _ _ _}.
Arguments isLoaded_ {K H B A P Ext _ _ _ _ _ _}.
Arguments finalizedPayloadsIndex_ {K H B A P Ext _ _ _ _ _ _}.
Arguments payloadsIndex_ {K H B A P Ext _ _ _ _ _ _}.
Arguments emitted {K H B A P Ext _ _ _ _ _ _}.
Arguments ext {K H B A P Ext _ _ _ _ _ _}.

Section setters.
Context {K H B A P Ext : Type} `{Countable K, Countable H, Countable P}.
Notation tree := (BaseBlockTree K H B A P Ext).
Definition with_blocks (f : gmap K (BlockIndex K B A) → gmap K (BlockIndex K B A)) (t : tree) : tree :=
  mkTree (f (blocks_ t)) (tips_ t) (activeChain_ t) (appliedBlockCount t)
    (deferForkResolutionDepth t) (isUpdateTipsDeferred t) (lastModifiedBlock t)
    (isLoadingBlocks_ t) (isLoaded_ t) (finalizedPayloadsIndex_ t) (payloadsIndex_ t) (emitted t) (ext t).
Definition with_tips (f : gset K → gset K) (t : tree) : tree :=
  mkTree (blocks_ t) (f (tips_ t)) (activeChain_ t) (appliedBlockCount t)
    (deferForkResolutionDepth t) (isUpdateTipsDeferred t) (lastModifiedBlock t)
    (isLoadingBlocks_ t) (isLoaded_ t) (finalizedPayloadsIndex_ t) (payloadsIndex_ t) (emitted t) (ext t).
Definition with_chain (c : Chain K) (t : tree) : tree :=
  mkTree (blocks_ t) (tips_ t) c (appliedBlockCount t)
    (deferForkResolutionDepth t) (isUpdateTipsDeferred t) (lastModifiedBlock t)
    (isLoadingBlocks_ t) (isLoaded_ t) (finalizedPayloadsIndex_ t) (payloadsIndex_ t) (emitted t) (ext t).
Definition with_applied (n : Z) (t : tree) : tree :=
  mkTree (blocks_ t) (tips_ t) (activeChain_ t) n
    (deferForkResolutionDepth t) (isUpdateTipsDeferred t) (lastModifiedBlock t)
    (isLoadingBlocks_ t) (isLoaded_ t) (finalizedPayloadsIndex_ t) (payloadsIndex_ t) (emitted t) (ext t).
Definition with_defer (d : Z) (b : bool) (l : option K) (t : tree) : tree :=
  mkTree (blocks_ t) (tips_ t) (activeChain_ t) (appliedBlockCount t) d b l
    (isLoadingBlocks_ t) (isLoaded_ t) (finalizedPayloadsIndex_ t) (payloadsIndex_ t) (emitted t) (ext t).
Definition with_loading (loading loaded : bool) (t : tree) : tree :=
  mkTree (blocks_ t) (tips_ t) (activeChain_ t) (appliedBlockCount t)
    (deferForkResolutionDepth t) (isUpdateTipsDeferred t) (lastModifiedBlock t)
    loading loaded (finalizedPayloadsIndex_ t) (payloadsIndex_ t) (emitted t) (ext t).
Definition with_payloads (fpl : gmap P H) (pl : gmap P (gset H)) (t : tree) : tree :=
  mkTree (blocks_ t) (tips_ t) (activeChain_ t) (appliedBlockCount t)
    (deferForkResolutionDepth t) (isUpdateTipsDeferred t) (lastModifiedBlock t)
    (isLoadingBlocks_ t) (isLoaded_ t) fpl pl (emitted t) (ext t).
Definition emit (e : signal K) (t : tree) : tree :=
  mkTree (blocks_ t) (tips_ t) (activeChain_ t) (appliedBlockCount t)
    (deferForkResolutionDepth t) (isUpdateTipsDeferred t) (lastModifiedBlock t)
    (isLoadingBlocks_ t) (isLoaded_ t) (finalizedPayloadsIndex_ t) (payloadsIndex_ t)
    (emitted t ++ [e]) (ext t).

(** The members of the derived class. *)
Definition with_ext (e : Ext) (t : tree) : tree :=
  mkTree (blocks_ t) (tips_ t) (activeChain_ t) (appliedBlockCount t)
    (deferForkResolutionDepth t) (isUpdateTipsDeferred t) (lastModifiedBlock t)
    (isLoadingBlocks_ t) (isLoaded_ t) (finalizedPayloadsIndex_ t) (payloadsIndex_ t) (emitted t) e.

(** The tree a constructor creates. *)
Definition emptyTree (e : Ext) : tree :=
  mkTree ∅ ∅ (mkChain 0 []) 0 0 false None false false ∅ ∅ [] e.

(** A member function call on the node at [k]. *)
Definition modify (k : K) (f : BlockIndex K B A → BlockIndex K B A) (t : tree) : result tree :=
  i ← deref (blocks_ t) k;
  Ok (with_blocks <[k := f i]> t).

Definition node_raiseValidity (k : K) (upTo : Z) (t : tree) : result (tree * bool) :=
  i ← deref (blocks_ t) k;
  prev ← match pprev i with
         | None => Ok None
         | Some p => j ← deref (blocks_ t) p; Ok (Some j)
         end;
  r ← raiseValidity prev upTo i;
  Ok (with_blocks <[k := r.1]> t, r.2).
End setters.

(** The virtual member functions: [setState(index, state)] (the [bool] is the
    result), [determineBestChain], [onBeforeLeafRemoved], [onBlockInserted] and
    [overrideTip]. *)
Class TreeHooks (K H B A P Ext : Type) `{Countable K, Countable H, Countable P} := {
  setState : K → BaseBlockTree K H B A P Ext → result (BaseBlockTree K H B A P Ext * bool);
  determineBestChain : K → BaseBlockTree K H B A P Ext → result (BaseBlockTree K H B A P Ext);
  onBeforeLeafRemoved : K → BaseBlockTree K H B A P Ext → result (BaseBlockTree K H B A P Ext);
  onBlockInserted : K → BaseBlockTree K H B A P Ext → result (BaseBlockTree K H B A P Ext);
  overrideTip : K → BaseBlockTree K H B A P Ext → result (BaseBlockTree K H B A P Ext)
}.

Section ops.
Context {K H B A P Ext SA : Type} `{Countable K, Countable H, Countable P, EqDecision B}.
Context `{BlockAddon A, PayloadIds A P, BlockHash B H, BlockHeader B H K, StoredAddon A SA}.
Notation tree := (BaseBlockTree K H B A P Ext).
Notation index_t := (BlockIndex K B A).
Context `{HK : !TreeHooks K H B A P Ext}.

(** ** Lookup *)
Definition findBlockIndex (t : tree) (hash : K) : option K :=
  match blocks_ t !! hash with Some _ => Some hash | None => None end.

Definition getBlockIndex (t : tree) (hash : K) : option K :=
  match blocks_ t !! hash with
  | Some i => if isDeleted i then None else Some hash
  | None => None
  end.

Definition isBootstrapped (t : tree) : result bool :=
  let empty := bool_decide (blocks_ t = ∅) in
  let tip := chain_tip (activeChain_ t) in
  match empty, tip with
  | false, Some _ => Ok true
  | true, None => Ok false
  | _, _ => Assert "the blockchain is neither bootstrapped nor empty"
  end.

Definition getRoot (t : tree) : result K :=
  b ← isBootstrapped t;
  vassert b "must be bootstrapped";;
  match chain_first (activeChain_ t) with
  | Some root => Ok root
  | None => Assert "must be bootstrapped"
  end.

(** ** Tips *)
Definition tryAddTip (index : K) (t : tree) : result tree :=
  i ← deref (blocks_ t) index;
  valid ← isValidTip (blocks_ t) i;
  if (valid : bool) then
    let drop := match pprev i with Some p => {[p]} | None => ∅ end in
    Ok (with_tips (λ tips, {[index]} ∪ (tips ∖ drop)) t)
  else Ok t.

Definition doInvalidate (block : K) (reason : Z) (t : tree) : result tree :=
  i ← deref (blocks_ t) block;
  applied ← isValidUpTo BLOCK_CAN_BE_APPLIED i;
  vassert (negb applied || (Z.land reason BLOCK_FAILED_POP =? 0))
    "attempted to set mutually exclusive flags";;
  t ← modify block (setFlag reason) t;
  Ok (emit (onBlockValidityChanged block) (with_tips (λ tips, tips ∖ {[block]}) t)).

Definition doReValidate (block : K) (reason : Z) (t : tree) : result tree :=
  t ← modify block (unsetFlag reason) t;
  t ← tryAddTip block t;
  Ok (emit (onBlockValidityChanged block) t).

(** ** Fork resolution of the tips

    [doUpdateTips] iterates over [tips_] while [determineBestChain] runs.
    When the current element is erased, or an element is inserted, the
    iterator of the range-for is invalidated. *)
Fixpoint updateTips_loop (l : list K) (t : tree) : result tree :=
  match l with
  | [] => Ok t
  | tip :: l =>
    if bool_decide (tip ∈ tips_ t) then
      i ← deref (blocks_ t) tip;
      v ← isValidTip (blocks_ t) i;
      vassert v "found a block in tips_ which is not a valid tip";;
      t' ← determineBestChain tip t;
      if bool_decide (tip ∈ tips_ t' ∧ tips_ t' ⊆ tips_ t) then updateTips_loop l t'
      else Undef "tips_ modified while iterating"
    else updateTips_loop l t
  end.

Definition doUpdateTips (t : tree) : result tree := updateTips_loop (elements (tips_ t)) t.

Definition updateTips (t : tree) : result tree :=
  if deferForkResolutionDepth t =? 0 then doUpdateTips t
  else Ok (with_defer (deferForkResolutionDepth t) true None t).

(** The affected tips are collected first. *)
Definition doUpdateAffectedTips (modifiedBlock : K) (t : tree) : result tree :=
  tips ← findValidTipsIn (blocks_ t) (tips_ t) modifiedBlock;
  foldM (λ t tip, determineBestChain tip t) tips t.

Definition updateAffectedTips (modifiedBlock : K) (t : tree) : result tree :=
  if deferForkResolutionDepth t =? 0 then doUpdateAffectedTips modifiedBlock t
  else if isUpdateTipsDeferred t then Ok t
  else
    match lastModifiedBlock t with
    | None => Ok (with_defer (deferForkResolutionDepth t) false (Some modifiedBlock) t)
    | Some _ => Ok (with_defer (deferForkResolutionDepth t) true None t)
    end.

(** [DeferForkResolutionGuard]: constructor, override and destructor. *)
Definition deferForkResolution (t : tree) : tree :=
  with_defer (deferForkResolutionDepth t + 1) (isUpdateTipsDeferred t) (lastModifiedBlock t) t.

Definition overrideDeferredForkResolution (bestChain : option K) (t : tree) : result tree :=
  match bestChain with
  | None => Ok t
  | Some bestChain =>
    let t := with_defer (deferForkResolutionDepth t) false None t in
    r ← setState bestChain t;
    vassert r.2 "could not revert to the saved best chain tip";;
    Ok r.1
  end.

Definition continueForkResolution (t : tree) : result tree :=
  vassert (0 <? deferForkResolutionDepth t) "fork resolution is not deferred";;
  let t := with_defer (deferForkResolutionDepth t - 1) (isUpdateTipsDeferred t)
             (lastModifiedBlock t) t in
  if 0 <? deferForkResolutionDepth t then Ok t
  else
    t ← match lastModifiedBlock t with
        | None => Ok t
        | Some block =>
          vassert (negb (isUpdateTipsDeferred t)) "both kinds of update are deferred";;
          t ← doUpdateAffectedTips block t;
          Ok (with_defer (deferForkResolutionDepth t) (isUpdateTipsDeferred t) None t)
        end;
    if isUpdateTipsDeferred t then
      t ← doUpdateTips t;
      Ok (with_defer (deferForkResolutionDepth t) false (lastModifiedBlock t) t)
    else Ok t.

(** ** Invalidation *)
Definition maxHeight (m : gmap K index_t) : Z := map_fold (λ _ i h, Z.max (height i) h) 0 m.

(** Enough for a traversal that descends one block per call. *)
Definition traversal_fuel (t : tree) : nat := S (Z.to_nat (maxHeight (blocks_ t))).

(** Both subtree operations start below the children of the block. *)
Definition forEachDescendant (visit : K → tree → result (tree * bool)) (block : K) (t : tree)
    : result tree :=
  i ← deref (blocks_ t) block;
  let fuel := traversal_fuel t in
  foldM (λ t pnext, forEachNodePreorder blocks_ fuel visit pnext t)
    (children (blocks_ t) i) t.

Definition visit_invalidate (index : K) (t : tree) : result (tree * bool) :=
  i ← deref (blocks_ t) index;
  let failed := isFailed i in
  t ← doInvalidate index BLOCK_FAILED_CHILD t;
  Ok (t, negb failed).

Definition visit_revalidate (index : K) (t : tree) : result (tree * bool) :=
  t ← doReValidate index BLOCK_FAILED_CHILD t;
  i ← deref (blocks_ t) index;
  Ok (t, negb (isFailed i)).

Definition invalidateSubtree (toBeInvalidated : K) (reason : Z) (shouldDetermineBestChain : bool)
    (t : tree) : result tree :=
  i ← deref (blocks_ t) toBeInvalidated;
  match pprev i with
  | None => Assert "cannot invalidate the root block"
  | Some prev =>
    vassert (isValidInvalidationReason reason) "invalid invalidation reason";;
    if hasFlags i reason then Ok t
    else
      valid ← isValid BLOCK_VALID_TREE i;
      if negb valid then doInvalidate toBeInvalidated reason t
      else
        isOnMainChain ← contains (blocks_ t) (activeChain_ t) (Some toBeInvalidated);
        t ← (if (isOnMainChain : bool) then
               r ← setState prev t;
               vassert r.2 "setState";;
               Ok r.1
             else Ok t);
        t ← doInvalidate toBeInvalidated reason t;
        t ← forEachDescendant visit_invalidate toBeInvalidated t;
        t ← tryAddTip prev t;
        if shouldDetermineBestChain then updateTips t else Ok t
  end.

Definition revalidateSubtree (toBeValidated : K) (reason : Z) (shouldDetermineBestChain : bool)
    (t : tree) : result tree :=
  i ← deref (blocks_ t) toBeValidated;
  vassert (negb (isRoot i)) "cannot revalidate the root block";;
  vassert (isValidInvalidationReason reason) "invalid revalidation reason";;
  if negb (hasFlags i reason) then Ok t
  else if hasFlags i (Z.ldiff BLOCK_FAILED_MASK reason) then doReValidate toBeValidated reason t
  else
    t ← doReValidate toBeValidated reason t;
    t ← forEachDescendant visit_revalidate toBeValidated t;
    if shouldDetermineBestChain then updateTips t else Ok t.

(** ** Removal *)
Definition visit_remove (next : K) (t : tree) : result tree :=
  t ← onBeforeLeafRemoved next t;
  let t := with_tips (λ tips, tips ∖ {[next]}) t in
  i ← deref (blocks_ t) next;
  i ← deleteTemporarily i;
  Ok (with_blocks <[next := i]> t).

Definition removeSubtree (toRemove : K) (t : tree) : result tree :=
  i ← deref (blocks_ t) toRemove;
  match pprev i with
  | None => Assert "cannot remove the root block"
  | Some prev =>
    isOnMainChain ← contains (blocks_ t) (activeChain_ t) (Some toRemove);
    t ← (if (isOnMainChain : bool) then
           r ← setState prev t;
           vassert r.2 "setState";;
           Ok r.1
         else Ok t);
    t ← forEachNodePostorder blocks_ visit_remove (λ next, negb (isDeleted next)) toRemove t;
    t ← tryAddTip prev t;
    if (isOnMainChain : bool) then updateTips t else Ok t
  end.

Definition removeLeaf (toRemove : K) (t : tree) : result tree :=
  i ← deref (blocks_ t) toRemove;
  n ← nondeletedDescendantCount (blocks_ t) i;
  vassert (n =? 0) "not a leaf block";;
  removeSubtree toRemove t.

(** ** The active chain *)
Definition base_overrideTip (to : K) (t : tree) : result tree :=
  let t := emit (onBeforeOverrideTip to) t in
  c ← setTip (blocks_ t) (activeChain_ t) (Some to);
  Ok (with_applied (blocksCount c) (with_chain c t)).

(** [BaseBlockTree::setState] calls the virtual [overrideTip]. *)
Definition base_setState (index : K) (t : tree) : result (tree * bool) :=
  t ← overrideTip index t; Ok (t, true).

Definition setState_hash (block : K) (t : tree) : result (tree * bool) :=
  match getBlockIndex t block with
  | None => invalid "-setstate-unknown-block"
  | Some index => setState index t
  end.

Definition loadTip (hash : K) (t : tree) : result tree :=
  vassert (isLoadingBlocks_ t) "tree must be in LoadingBlocks state";;
  vassert (negb (isLoaded_ t)) "tree is already loaded";;
  match getBlockIndex t hash with
  | None => invalid "-no-tip"
  | Some tip =>
    t ← overrideTip tip t;
    Ok (with_loading false true t)
  end.

Definition decreaseAppliedBlockCount (erasedBlocks : Z) (t : tree) : result tree :=
  vassert (erasedBlocks <=? appliedBlockCount t) "applied block count";;
  Ok (with_applied (appliedBlockCount t - erasedBlocks) t).

(** ** Insertion *)
Definition createBlockIndex (hash : K) (prev : K) (header : B) (a : A) (t : tree) : result tree :=
  j ← deref (blocks_ t) prev;
  vassert (bool_decide (blocks_ t !! hash = None)) "duplicate hash";;
  cki32 (height j + 1);;
  Ok (with_blocks (λ m, <[hash := newIndex prev j header a]>
        (<[prev := with_links (pprev j) ({[hash]} ∪ pnext j) j]> m)) t).

Definition createBootstrapBlockIndex (hash : K) (h : Z) (header : B) (a : A) (t : tree)
    : result tree :=
  vassert (bool_decide (blocks_ t !! hash = None)) "duplicate hash";;
  Ok (with_blocks (λ m, <[hash := with_finalized true (newRootIndex h header a)]> m) t).

Definition hash_key (header : B) : K := makePrevHash (getHash header).

(** The addon of a new node is default constructed. *)
Variable newAddon : A.
Variable newHeader : B.

Definition doInsertBlockHeader (header : B) (bootstrapHeight : Z) (t : tree) : result tree :=
  let prev := getBlockIndex t (getPreviousBlock header) in
  boot ← isBootstrapped t;
  vassert (Bool.eqb boot (if prev then true else false)) "already bootstrapped";;
  t ← match prev with
      | None => createBootstrapBlockIndex (hash_key header) bootstrapHeight newHeader newAddon t
      | Some prev => createBlockIndex (hash_key header) prev newHeader newAddon t
      end;
  modify (hash_key header) (setHeader header) t.

Definition insertBlockHeader (block : B) (bootstrapHeight : Z) (t : tree) : result (tree * K) :=
  vassert (negb (hashIsPrevious block)) "previous block hash equals the block hash";;
  let hash := hash_key block in
  match blocks_ t !! hash with
  | Some i => 
    if negb (isDeleted i) then Ok (t, false)
    else
      vassert (sameBlock block (header i)) "hash collision";;
      Ok (t, true)
  | None => t ← doInsertBlockHeader block bootstrapHeight t; Ok (t, true)
  end ≫= λ '(t, fresh),
  if (fresh : bool) then
    i ← deref (blocks_ t) hash;
    i ← restore i;
    let t := with_blocks <[hash := i]> t in
    t ← tryAddTip hash t;
    t ← onBlockInserted hash t;
    r ← node_raiseValidity hash BLOCK_VALID_TREE t;
    Ok (r.1, hash)
  else Ok (t, hash).
End ops.
