(* ===== verification/TreeInv.v ===== *)
(** * Invariants of the block tree

    [tree_inv]: the links are well formed, a block is flagged
    [BLOCK_FAILED_CHILD] exactly when its predecessor is failed, and [tips_] is
    exactly the set of valid tips.  [invalidateSubtree], [revalidateSubtree]
    and [removeSubtree] preserve it. *)
From S2P Require Import Prelude BlockIndex Chain TreeAlgo PayloadsIndex BaseTree.

(** ** Status words *)
Definition level (s : Z) : Z := Z.land s 7.

(** What [getValidityLevel] and [isValidUpTo] assert. *)
Definition status_ok (s : Z) : Prop := level s <= 4 ∧ ¬ (level s = 4 ∧ Z.testbit s 6 = true).

Section status.
Context {K B A : Type} `{Countable K, BlockAddon A}.
Notation index_t := (BlockIndex K B A).
Implicit Types (i j : index_t) (m : gmap K index_t).

Definition can_tip i : bool :=
  negb (isDeleted i) && negb (isFailed i) && (validTipLevel <=? level (status i)).

Definition valid_tip m i : Prop :=
  can_tip i = true ∧ ∀ c j, c ∈ pnext i → m !! c = Some j → can_tip j = false.

Lemma testbit_level s n : 0 <= n → Z.testbit (level s) n = Z.testbit s n && (n <? 3).
Proof.
  intros Hn. unfold level. rewrite Z.land_spec. f_equal. change 7 with (Z.ones 3).
  destruct (Z.ltb_spec n 3); [by apply Z.ones_spec_low|apply Z.ones_spec_high; lia].
Qed.

Lemma level_eq s s' : (∀ n, 0 <= n < 3 → Z.testbit s n = Z.testbit s' n) → level s = level s'.
Proof.
  intros E. apply Z.bits_inj'. intros n Hn. rewrite !testbit_level by done.
  destruct (Z.ltb_spec n 3); [rewrite E by lia; done|by rewrite !andb_false_r].
Qed.

(** Only the bits of the level, the failure flags and [BLOCK_DELETED] count. *)
Lemma can_tip_eq i j :
  (∀ n, 0 <= n < 3 ∨ n = 10 → Z.testbit (status i) n = Z.testbit (status j) n) →
  isFailed i = isFailed j → can_tip i = can_tip j.
Proof.
  intros E Ef. unfold can_tip, isDeleted. change BLOCK_DELETED with (Z.shiftl 1 10).
  rewrite !hasFlags_bit by lia. rewrite (E 10) by lia. rewrite Ef.
  by rewrite (level_eq (status i) (status j)) by (intros; apply E; lia).
Qed.

Lemma can_tip_failed i : isFailed i = true → can_tip i = false.
Proof. unfold can_tip. intros ->. by rewrite andb_false_r. Qed.

Lemma status_ok_eq s s' : status_ok s →
  (∀ n, 0 <= n < 3 ∨ n = 6 → Z.testbit s n = Z.testbit s' n) → status_ok s'.
Proof.
  intros [Hl Hx] E. unfold status_ok. rewrite <- (level_eq s s'), <- (E 6) by (intros; apply E || lia; lia).
  done.
Qed.

Lemma isValidUpTo_eq up i : status_ok (status i) → isValidUpTo up i = Ok (up <=? level (status i)).
Proof.
  intros [Hl Hx]. unfold isValidUpTo, getValidityLevel. change BLOCK_VALID_MASK with 7.
  change BLOCK_CAN_BE_APPLIED with 4. change BLOCK_FAILED_POP with (Z.shiftl 1 6).
  fold (level (status i)). rewrite hasFlags_bit by lia.
  destruct (Z.leb_spec (level (status i)) 4); [|lia]. cbn [vassert mbind result_bind].
  destruct (Z.eqb_spec (level (status i)) 4); cbn [negb orb]; [|done].
  destruct (Z.testbit (status i) 6) eqn:E; cbn; [naive_solver|done].
Qed.

Lemma isValid_eq up i : status_ok (status i) →
  isValid up i = Ok (negb (isFailed i) && (up <=? level (status i))).
Proof. intros. unfold isValid. destruct (isFailed i); [done|]. by apply isValidUpTo_eq. Qed.

Lemma canBeATip_eq i : status_ok (status i) → canBeATip i = Ok (can_tip i).
Proof.
  intros. unfold canBeATip, can_tip. destruct (isDeleted i); [done|]. by rewrite isValid_eq.
Qed.

Lemma isValidTip_eq m k i : wf_store m → (∀ k i, m !! k = Some i → status_ok (status i)) →
  m !! k = Some i → ∃ b, isValidTip m i = Ok b ∧ (b = true ↔ valid_tip m i).
Proof.
  intros W Hst Hk. unfold isValidTip. rewrite canBeATip_eq by eauto. cbn [mbind result_bind].
  destruct (can_tip i) eqn:Ec; [|exists false; split; [done|]; split; [done|intros []; congruence]].
  unfold isTip, valid_tip, children. case_bool_decide as Et.
  { exists true. split; [done|]. split; [|done]. intros _. split; [done|]. rewrite Et. set_solver. }
  assert (∀ l, (∀ c, c ∈ l → c ∈ pnext i) → ∃ b, none_of m canBeATip l = Ok b ∧
    (b = true ↔ ∀ c j, c ∈ l → m !! c = Some j → can_tip j = false)) as Hl.
  { induction l as [|c l IH]; intros Hin; simpl; [exists true; split; [done|]; set_solver|].
    destruct (wf_next m W k i c) as (j & Hj & _); [done|set_solver|].
    rewrite (deref_eq _ _ _ Hj). cbn [mbind result_bind]. rewrite canBeATip_eq by eauto.
    cbn [mbind result_bind]. destruct (can_tip j) eqn:Ej.
    - exists false. split; [done|]. split; [done|]. intros Hall.
      rewrite (Hall c j) in Ej; [done|set_solver|done].
    - destruct IH as (b & -> & Hb); [set_solver|]. exists b. split; [done|]. rewrite Hb.
      split; [intros Hall c' j' [->|?]%elem_of_cons ?; [congruence|eauto]|set_solver]. }
  destruct (Hl (elements (pnext i))) as (b & Hb & Hiff); [set_solver|]. exists b. split; [done|].
  rewrite Hiff. set_solver.
Qed.
End status.

(** ** The invariant *)
Section inv.
Context {K H B A P Ext : Type} `{Countable K, Countable H, Countable P, BlockAddon A}.
Notation tree := (BaseBlockTree K H B A P Ext).
Notation index_t := (BlockIndex K B A).
Notation store := (gmap K index_t).
Implicit Types (m : store) (i j : index_t) (t : tree) (k p x : K) (T : gset K).

(** [BLOCK_FAILED_CHILD] is bit 7. *)
Definition child_flag_ok m k : Prop := ∀ i p j,
  m !! k = Some i → pprev i = Some p → m !! p = Some j → Z.testbit (status i) 7 = isFailed j.

Record store_ok m : Prop := {
  so_wf : wf_store m;
  so_status : ∀ k i, m !! k = Some i → status_ok (status i)
}.

Definition is_valid_tip m x : Prop := ∃ i, m !! x = Some i ∧ valid_tip m i.

Record tree_inv t : Prop := {
  ti_store : store_ok (blocks_ t);
  ti_child : ∀ k, child_flag_ok (blocks_ t) k;
  ti_tips : ∀ x, x ∈ tips_ t ↔ is_valid_tip (blocks_ t) x
}.

(** Nodes that differ in their status and dirty mark only. *)
Definition same_node i j : Prop :=
  height i = height j ∧ header i = header j ∧ pprev i = pprev j ∧ pnext i = pnext j ∧
  finalized i = finalized j ∧ addon i = addon j.

(** ... in the [BLOCK_FAILED_CHILD] flag only. *)
Definition same_own i j : Prop :=
  same_node i j ∧ (∀ n, n ≠ 7 → Z.testbit (status i) n = Z.testbit (status j) n) ∧
  (pprev i = None → status i = status j).

Definition store_rel (R : index_t → index_t → Prop) m m' : Prop :=
  ∀ k, option_Forall2 R (m !! k) (m' !! k).

#[export] Instance same_node_equiv : Equivalence same_node.
Proof.
  split; unfold same_node; [done| |].
  - intros i j (? & ? & ? & ? & ? & ?). by split_and!.
  - intros i j l (? & ? & ? & ? & ? & ?) (? & ? & ? & ? & ? & ?). split_and!; congruence.
Qed.

#[export] Instance same_own_equiv : Equivalence same_own.
Proof.
  unfold same_own. split.
  - done.
  - intros i j (Hn & E & Hr). split; [by symmetry|]. split; [intros n ?; by rewrite E|].
    intros Hp. symmetry. apply Hr. destruct Hn as (_ & _ & -> & _). done.
  - intros i j l (Hn & E1 & Hr1) (Hn' & E2 & Hr2). split; [by etrans|].
    split; [intros n ?; by rewrite E1, E2|]. intros Hp. rewrite Hr1 by done. apply Hr2.
    destruct Hn as (_ & _ & <- & _). done.
Qed.

#[export] Instance store_rel_equiv R : Equivalence R → Equivalence (store_rel R).
Proof.
  intros HR. unfold store_rel. split.
  - intros m k. reflexivity.
  - intros m m' E k. specialize (E k). by symmetry.
  - intros m1 m2 m3 E1 E2 k. specialize (E1 k). specialize (E2 k). by etrans.
Qed.

Lemma store_rel_lookup R m m' k i : store_rel R m m' → m !! k = Some i →
  ∃ j, m' !! k = Some j ∧ R i j.
Proof. intros E Hk. specialize (E k). rewrite Hk in E. inversion E; subst. eauto. Qed.

Lemma store_rel_mono (R R' : index_t → index_t → Prop) m m' :
  (∀ i j, R i j → R' i j) → store_rel R m m' → store_rel R' m m'.
Proof. intros HR E k. specialize (E k). inversion E; constructor; auto. Qed.

Lemma store_rel_insert R m k i j : Reflexive R → m !! k = Some i → R i j →
  store_rel R m (<[k := j]> m).
Proof.
  intros HR Hk Hij x. destruct (decide (k = x)) as [->|].
  - rewrite lookup_insert_eq, Hk. by constructor.
  - rewrite lookup_insert_ne by done. reflexivity.
Qed.

#[export] Instance same_links_equiv : Equivalence (@same_links K B A _ _).
Proof.
  split; unfold same_links; [done| |].
  - intros i j (? & ? & ?). by split_and!.
  - intros i j l (? & ? & ?) (? & ? & ?). split_and!; congruence.
Qed.

Lemma same_node_links i j : same_node i j → same_links i j.
Proof. intros (? & _ & ? & ? & _). by split_and!. Qed.

Lemma same_links_wf m m' : store_rel same_links m m' → wf_store m → wf_store m'.
Proof.
  intros E W.
  assert (store_rel same_links m' m) as E' by by symmetry.
  constructor.
  - intros k i Hk. destruct (store_rel_lookup _ _ _ _ _ E' Hk) as (j & Hj & (-> & _)).
    by eapply wf_height.
  - intros k i p Hk Hp. destruct (store_rel_lookup _ _ _ _ _ E' Hk) as (i0 & Hk0 & (Eh & Ep & _)).
    destruct (wf_prev m W k i0 p) as (j0 & Hj0 & Hh & Hin); [done|congruence|].
    destruct (store_rel_lookup _ _ _ _ _ E Hj0) as (j & Hj & (Eh' & _ & En)).
    exists j. split_and!; [done|congruence|by rewrite <- En].
  - intros k i c Hk Hc. destruct (store_rel_lookup _ _ _ _ _ E' Hk) as (i0 & Hk0 & (_ & _ & En)).
    destruct (wf_next m W k i0 c) as (j0 & Hj0 & Hp); [done|by rewrite <- En|].
    destruct (store_rel_lookup _ _ _ _ _ E Hj0) as (j & Hj & (_ & Ep & _)).
    exists j. split; [done|congruence].
Qed.

Lemma same_node_wf m m' : store_rel same_node m m' → wf_store m → wf_store m'.
Proof. intros E. apply same_links_wf. by eapply store_rel_mono; [apply same_node_links|]. Qed.

#[export] Instance wf_store_proper : Proper (store_rel same_node ==> iff) wf_store.
Proof. intros m m' E. split; apply same_node_wf; [done|by symmetry]. Qed.

Lemma valid_tip_prev m k i p j : store_ok m → m !! k = Some i → pprev i = Some p →
  m !! p = Some j → can_tip i = true → ¬ valid_tip m j.
Proof.
  intros [W _] Hk Hp Hj Hc [_ Hn].
  destruct (wf_prev m W k i p) as (j' & Hj' & _ & Hin); [done..|].
  assert (j' = j) as -> by congruence. rewrite (Hn k i) in Hc; done.
Qed.

(** *** [tryAddTip] *)
Lemma tryAddTip_spec t k i : store_ok (blocks_ t) → blocks_ t !! k = Some i →
  (∀ x, x ≠ k → Some x ≠ pprev i → (x ∈ tips_ t ↔ is_valid_tip (blocks_ t) x)) →
  (k ∈ tips_ t → valid_tip (blocks_ t) i) →
  (∀ p, pprev i = Some p → is_valid_tip (blocks_ t) p → p ∈ tips_ t) →
  (∀ p, pprev i = Some p → p ∈ tips_ t → is_valid_tip (blocks_ t) p ∨ valid_tip (blocks_ t) i) →
  ∃ t', tryAddTip k t = Ok t' ∧ t' = with_tips (λ _, tips_ t') t ∧
    ∀ x, x ∈ tips_ t' ↔ is_valid_tip (blocks_ t) x.
Proof.
  intros Hok Hk Hother Hks Hpc Hps. unfold tryAddTip. rewrite (deref_eq _ _ _ Hk).
  cbn [mbind result_bind].
  destruct (isValidTip_eq (blocks_ t) k i) as (b & -> & Hb); [apply Hok..|done|].
  cbn [mbind result_bind].
  assert (∀ x, x = k → (is_valid_tip (blocks_ t) x ↔ valid_tip (blocks_ t) i)) as Hkv.
  { intros x ->. unfold is_valid_tip. rewrite Hk. naive_solver. }
  destruct b.
  - assert (valid_tip (blocks_ t) i) as Hv by by apply Hb.
    eexists. split; [done|]. split; [done|]. intros x. cbn [with_tips tips_].
    destruct (decide (x = k)) as [->|Hne].
    + rewrite Hkv by done. set_solver.
    + destruct (decide (Some x = pprev i)) as [Ep|Hp].
      * rewrite <- Ep. split; [set_solver|]. intros (j & Hj & Hvj). exfalso.
        by eapply (valid_tip_prev (blocks_ t) k i x j); [done|done|symmetry|done|apply Hv|].
      * rewrite <- Hother by done. destruct (pprev i); set_solver.
  - assert (¬ valid_tip (blocks_ t) i) as Hv by (intros ?%Hb; done).
    exists t. split; [done|]. split; [by destruct t|]. intros x.
    destruct (decide (x = k)) as [->|Hne].
    + rewrite Hkv by done. naive_solver.
    + destruct (decide (Some x = pprev i)) as [Ep|Hp]; [|by apply Hother].
      split; [|by apply Hpc]. intros Hx. destruct (Hps x); naive_solver.
Qed.

(** The fields the subtree operations leave alone. *)
Definition same_base t t' : Prop :=
  activeChain_ t = activeChain_ t' ∧ appliedBlockCount t = appliedBlockCount t' ∧
  deferForkResolutionDepth t = deferForkResolutionDepth t' ∧
  isUpdateTipsDeferred t = isUpdateTipsDeferred t' ∧
  lastModifiedBlock t = lastModifiedBlock t' ∧
  isLoadingBlocks_ t = isLoadingBlocks_ t' ∧ isLoaded_ t = isLoaded_ t' ∧
  finalizedPayloadsIndex_ t = finalizedPayloadsIndex_ t' ∧ payloadsIndex_ t = payloadsIndex_ t'.

(** ... and the members of the derived class. *)
Definition same_rest t t' : Prop :=
  activeChain_ t = activeChain_ t' ∧ appliedBlockCount t = appliedBlockCount t' ∧
  deferForkResolutionDepth t = deferForkResolutionDepth t' ∧
  isUpdateTipsDeferred t = isUpdateTipsDeferred t' ∧
  lastModifiedBlock t = lastModifiedBlock t' ∧
  isLoadingBlocks_ t = isLoadingBlocks_ t' ∧ isLoaded_ t = isLoaded_ t' ∧
  finalizedPayloadsIndex_ t = finalizedPayloadsIndex_ t' ∧ payloadsIndex_ t = payloadsIndex_ t' ∧ ext t = ext t'.

#[export] Instance same_base_equiv : Equivalence same_base.
Proof.
  split; unfold same_base; [done| |].
  - intros t t' Heq. destruct_and! Heq. by split_and!.
  - intros t1 t2 t3 Heq Heq'. destruct_and! Heq. destruct_and! Heq'. split_and!; congruence.
Qed.

#[export] Instance same_rest_equiv : Equivalence same_rest.
Proof.
  split; unfold same_rest; [done| |].
  - intros t t' Heq. destruct_and! Heq. by split_and!.
  - intros t1 t2 t3 Heq Heq'. destruct_and! Heq. destruct_and! Heq'. split_and!; congruence.
Qed.

Lemma same_node_setFlag s i : same_node (setFlag s i) i.
Proof. unfold setFlag, same_node. by destruct (_ =? _). Qed.
Lemma same_node_unsetFlag s i : same_node (unsetFlag s i) i.
Proof. unfold unsetFlag, same_node. by destruct (_ =? _). Qed.

Lemma same_own_setFlag i p : pprev i = Some p → same_own i (setFlag BLOCK_FAILED_CHILD i).
Proof.
  intros Hp. split; [symmetry; apply same_node_setFlag|]. split; [|congruence]. intros n Hn. change BLOCK_FAILED_CHILD with (Z.shiftl 1 7).
  destruct (Z.le_gt_cases 0 n); [|by rewrite !Z.testbit_neg_r by lia].
  rewrite setFlag_bit by lia. destruct (Z.eqb_spec n 7); [done|by rewrite orb_false_r].
Qed.

Lemma same_own_unsetFlag i p : pprev i = Some p → same_own i (unsetFlag BLOCK_FAILED_CHILD i).
Proof.
  intros Hp. split; [symmetry; apply same_node_unsetFlag|]. split; [|congruence]. intros n Hn. change BLOCK_FAILED_CHILD with (Z.shiftl 1 7).
  destruct (Z.le_gt_cases 0 n); [|by rewrite !Z.testbit_neg_r by lia].
  rewrite unsetFlag_bit by lia. destruct (Z.eqb_spec n 7); [done|by rewrite andb_true_r].
Qed.

Lemma doInvalidate_eq t k i n : blocks_ t !! k = Some i → status_ok (status i) → 0 <= n →
  (n = 6 → level (status i) ≠ 4) →
  doInvalidate k (Z.shiftl 1 n) t =
    Ok (emit (onBlockValidityChanged k) (with_tips (λ T, T ∖ {[k]})
      (with_blocks <[k := setFlag (Z.shiftl 1 n) i]> t))).
Proof.
  intros Hk Hst Hn Hl. unfold doInvalidate. rewrite (deref_eq _ _ _ Hk). cbn [mbind result_bind].
  rewrite isValidUpTo_eq by done. cbn [mbind result_bind].
  rewrite vassert_true.
  - cbn [mbind result_bind]. unfold modify. rewrite (deref_eq _ _ _ Hk). done.
  - change BLOCK_FAILED_POP with (Z.shiftl 1 6).
    rewrite <- (negb_involutive (_ =? 0)), land_shiftl_bit, testbit_one by lia.
    destruct (Z.eqb_spec 6 n) as [<-|]; [|by rewrite orb_true_r].
    destruct (Z.leb_spec BLOCK_CAN_BE_APPLIED (level (status i))) as [Hle|]; [|done].
    destruct Hst as [Hle' _]. change BLOCK_CAN_BE_APPLIED with 4 in Hle. exfalso.
    specialize (Hl eq_refl). lia.
Qed.

(** *** Adding a failure flag *)
(** [T] is sound, and complete except possibly for [xo]. *)
Definition tips_sound m T : Prop := ∀ x, x ∈ T → is_valid_tip m x.
Definition tips_complete_but (xo : option K) m T : Prop :=
  ∀ x, Some x ≠ xo → is_valid_tip m x → x ∈ T.

Lemma setFlag_failed n i : 5 <= n <= 7 → isFailed (setFlag (Z.shiftl 1 n) i) = true.
Proof.
  intros Hn. rewrite isFailed_bits, !setFlag_bit by lia.
  assert (n = 5 ∨ n = 6 ∨ n = 7) as [->|[->| ->]] by lia; cbn; by rewrite ?orb_true_r.
Qed.

(** After failing [k], the tips without [k] are sound, and complete except
    for the predecessor of [k]. *)
Lemma fail_tips m T k i n xo : store_ok m → m !! k = Some i → 5 <= n <= 7 →
  tips_sound m T → tips_complete_but xo m T →
  (pprev i = xo ∨ ∃ p j, pprev i = Some p ∧ m !! p = Some j ∧ isFailed j = true) →
  let m' := <[k := setFlag (Z.shiftl 1 n) i]> m in
  tips_sound m' (T ∖ {[k]}) ∧ tips_complete_but xo m' (T ∖ {[k]}).
Proof.
  intros Hok Hk Hn Hs Hc Hprev m'. pose proof (setFlag_failed n i Hn) as Hf.
  assert (∀ c j, m' !! c = Some j → can_tip j = true → c ≠ k ∧ m !! c = Some j) as Hct.
  { intros c j. unfold m'. destruct (decide (k = c)) as [<-|].
    - rewrite lookup_insert_eq. intros [= <-]. by rewrite can_tip_failed.
    - rewrite lookup_insert_ne by done. done. }
  split.
  - intros x [Hx Hxk]%elem_of_difference. destruct (Hs x Hx) as (j & Hj & Hcj & Hn').
    exists j. split; [unfold m'; rewrite lookup_insert_ne by set_solver; done|].
    split; [done|]. intros c jc Hc' Hjc. destruct (can_tip jc) eqn:E; [|done].
    destruct (Hct c jc Hjc E) as [_ Hjc']. rewrite <- E. by apply (Hn' c).
  - intros x Hxo (j & Hj & Hcj & Hn'). destruct (Hct x j Hj Hcj) as [Hxk Hj0].
    apply elem_of_difference. split; [|set_solver]. apply Hc; [done|]. exists j. split; [done|].
    split; [done|]. intros c jc Hc' Hjc. destruct (decide (c = k)) as [->|Hck].
    + assert (jc = i) as -> by congruence. exfalso.
      destruct (wf_next m (so_wf _ Hok) x j k Hj0 Hc') as (i' & Hi' & Hp).
      assert (i' = i) as -> by congruence. destruct Hprev as [Hpx|(p & jp & Hp' & Hjp & Hfp)]; [congruence|].
      assert (p = x) as -> by congruence. assert (jp = j) as -> by congruence.
      by rewrite can_tip_failed in Hcj.
    + apply (Hn' c); [done|]. unfold m'. by rewrite lookup_insert_ne by done.
Qed.

Lemma status_ok_setFlag n i : status_ok (status i) → 5 <= n <= 7 →
  (n = 6 → level (status i) ≠ 4) → status_ok (status (setFlag (Z.shiftl 1 n) i)).
Proof.
  intros [Hl Hx] Hn H6.
  assert (level (status (setFlag (Z.shiftl 1 n) i)) = level (status i)) as El.
  { apply level_eq. intros q Hq. rewrite setFlag_bit by lia.
    destruct (Z.eqb_spec q n); [lia|by rewrite orb_false_r]. }
  unfold status_ok. rewrite El, setFlag_bit by lia. split; [done|]. intros [E4 E6].
  destruct (Z.eqb_spec 6 n) as [<-|]; [by apply H6|]. rewrite orb_false_r in E6. naive_solver.
Qed.

Lemma status_ok_unsetFlag n i : status_ok (status i) → 5 <= n <= 7 →
  status_ok (status (unsetFlag (Z.shiftl 1 n) i)).
Proof.
  intros [Hl Hx] Hn.
  assert (level (status (unsetFlag (Z.shiftl 1 n) i)) = level (status i)) as El.
  { apply level_eq. intros q Hq. rewrite unsetFlag_bit by lia.
    destruct (Z.eqb_spec q n); [lia|by rewrite andb_true_r]. }
  unfold status_ok. rewrite El, unsetFlag_bit by lia. split; [done|]. intros [E4 E6].
  apply andb_prop in E6 as [E6 _]. naive_solver.
Qed.

Lemma store_ok_links m k i i' : store_ok m → m !! k = Some i → same_links i i' →
  status_ok (status i') → store_ok (<[k := i']> m).
Proof.
  intros [W Hst] Hk Hsn Hs. split.
  - eapply same_links_wf; [|exact W]. by apply (store_rel_insert same_links m k i); [apply _|..].
  - intros x j. destruct (decide (k = x)) as [<-|].
    + rewrite lookup_insert_eq. by intros [= <-].
    + rewrite lookup_insert_ne by done. apply Hst.
Qed.

Lemma store_ok_update m k i i' : store_ok m → m !! k = Some i → same_node i i' →
  status_ok (status i') → store_ok (<[k := i']> m).
Proof. intros. by apply (store_ok_links m k i); [..|apply same_node_links|]. Qed.

(** Changing the status of [k] keeps the child flags of all blocks but [k]
    and, if [k]'s failure changes, the children of [k]. *)
Lemma child_flag_links m k i i' x : wf_store m → m !! k = Some i → same_links i i' →
  x ≠ k → (isFailed i' = isFailed i ∨ x ∉ pnext i) →
  child_flag_ok m x → child_flag_ok (<[k := i']> m) x.
Proof.
  intros W Hk (_ & _ & En) Hx Hf Hc j p jp Hj Hp Hjp.
  rewrite lookup_insert_ne in Hj by done.
  destruct (decide (k = p)) as [<-|].
  - rewrite lookup_insert_eq in Hjp. injection Hjp as <-.
    destruct (wf_prev m W x j k) as (i0 & Hi0 & _ & Hin); [done..|].
    assert (i0 = i) as -> by congruence. destruct Hf as [->|Hf]; [by eapply Hc|done].
  - rewrite lookup_insert_ne in Hjp by done. by eapply Hc.
Qed.

Lemma child_flag_update m k i i' x : wf_store m → m !! k = Some i → same_node i i' →
  x ≠ k → (isFailed i' = isFailed i ∨ x ∉ pnext i) →
  child_flag_ok m x → child_flag_ok (<[k := i']> m) x.
Proof. intros ?? Hsn. by apply child_flag_links, same_node_links. Qed.

Lemma prev_ne m k i p : wf_store m → m !! k = Some i → pprev i = Some p → k ≠ p.
Proof.
  intros W Hk Hp ->. destruct (wf_prev m W p i p) as (j & Hj & ? & _); [done..|].
  assert (j = i) as -> by congruence. lia.
Qed.

(** What the nodes of a pending list look like: their predecessor's failure is [b]. *)
Definition pending (b : bool) m (l : list K) : Prop := ∀ k, k ∈ l →
  ∃ i p j, m !! k = Some i ∧ pprev i = Some p ∧ m !! p = Some j ∧ isFailed j = b.

(** The traversal of [invalidateSubtree]. *)
Record inval_J (t0 : tree) (xo : option K) (l : list K) (t : tree) : Prop := {
  ij_rel : store_rel same_own (blocks_ t0) (blocks_ t);
  ij_rest : same_rest t0 t;
  ij_ok : store_ok (blocks_ t);
  ij_pending : pending true (blocks_ t) l;
  ij_child : ∀ k, k ∉ l → child_flag_ok (blocks_ t) k;
  ij_sound : tips_sound (blocks_ t) (tips_ t);
  ij_complete : tips_complete_but xo (blocks_ t) (tips_ t)
}.

Lemma visit_invalidate_J t0 xo k l t : inval_J t0 xo (k :: l) t →
  ∃ t' b i', visit_invalidate k t = Ok (t', b) ∧ blocks_ t' !! k = Some i' ∧
    inval_J t0 xo ((if b : bool then elements (pnext i') else []) ++ l) t'.
Proof.
  intros [Hrel Hrest Hok Hpend Hchild Hs Hc].
  destruct (Hpend k) as (i & p & j & Hk & Hp & Hj & Hjf); [by left|].
  assert (status_ok (status i)) as Hsi by by eapply so_status.
  pose proof (prev_ne _ _ _ _ (so_wf _ Hok) Hk Hp) as Hkp.
  unfold visit_invalidate. rewrite (deref_eq _ _ _ Hk). cbn [mbind result_bind].
  change BLOCK_FAILED_CHILD with (Z.shiftl 1 7).
  rewrite (doInvalidate_eq t k i 7) by (done || lia). cbn [mbind result_bind].
  set (i' := setFlag (Z.shiftl 1 7) i).
  assert (same_own i i') as Hown by (by eapply same_own_setFlag).
  assert (status_ok (status i')) as Hsi' by (apply status_ok_setFlag; done || lia).
  assert (isFailed i' = true) as Hf' by (apply setFlag_failed; lia).
  assert (∀ x, x ≠ k → x ∉ l → (isFailed i = true ∨ x ∉ pnext i) →
    child_flag_ok (<[k := i']> (blocks_ t)) x) as Hothers.
  { intros x Hxk Hxl Hx. eapply child_flag_update; [apply Hok|done|apply Hown|done| |].
    - rewrite Hf'. naive_solver.
    - apply Hchild. rewrite not_elem_of_cons. done. }
  eexists _, _, i'. split; [done|]. split; [apply lookup_insert_eq|].
  destruct (fail_tips (blocks_ t) (tips_ t) k i 7 xo Hok Hk ltac:(lia) Hs Hc
    ltac:(right; eauto)) as [Hs' Hc'].
  assert (pnext i' = pnext i) as En by (symmetry; apply Hown).
  assert (∀ x jx, x ≠ k → blocks_ t !! x = Some jx →
    <[k := i']> (blocks_ t) !! x = Some jx) as Hne by (intros; by rewrite lookup_insert_ne).
  constructor; cbn [emit with_tips with_blocks blocks_ tips_]; try done.
  - etrans; [done|]. by apply (store_rel_insert same_own _ k i); [apply _|..].
  - eapply store_ok_update; [done|done|apply Hown|done].
  - intros x [Hx|Hx]%elem_of_app.
    + destruct (isFailed i) eqn:Efi; cbn [negb] in Hx; [set_solver|]. rewrite En in Hx.
      destruct (wf_next (blocks_ t) (so_wf _ Hok) k i x) as (jx & Hjx & Hpx); [done|set_solver|].
      exists jx, k, i'. rewrite lookup_insert_eq. split_and!; [|done..].
      apply Hne; [|done]. intros ->. by eapply prev_ne; [apply Hok|exact Hjx|exact Hpx|].
    + destruct (Hpend x) as (ix & px & jx & Hix & Hpx & Hjx & Hfx); [by right|].
      exists (if decide (x = k) then i' else ix), px, (if decide (px = k) then i' else jx).
      split_and!.
      * destruct (decide (x = k)) as [->|]; [apply lookup_insert_eq|auto].
      * destruct (decide (x = k)) as [->|]; [|done]. transitivity (pprev i); [symmetry; apply Hown|congruence].
      * destruct (decide (px = k)) as [->|]; [apply lookup_insert_eq|auto].
      * by destruct (decide (px = k)).
  - intros x Hx. apply not_elem_of_app in Hx as [Hx Hxl].
    destruct (decide (x = k)) as [->|Hxk].
    + intros i0 p0 j0. rewrite lookup_insert_eq. intros [= <-] Hp0 Hj0.
      assert (p0 = p) as -> by (assert (pprev i' = pprev i) by (symmetry; apply Hown); congruence).
      rewrite lookup_insert_ne in Hj0 by done. assert (j0 = j) as -> by congruence. rewrite Hjf.
      unfold i'. rewrite setFlag_bit by lia. by rewrite orb_true_r.
    + apply Hothers; [done|done|]. destruct (isFailed i); [by left|right].
      cbn [negb] in Hx. rewrite En in Hx. set_solver.
Qed.

(** Heights as the traversals measure them. *)
Definition hgt m k : Z := match m !! k with Some i => height i | None => 0 end.

Lemma maxHeight_ge m k i : m !! k = Some i → height i <= maxHeight m.
Proof.
  unfold maxHeight. revert k i.
  apply (map_fold_weak_ind (λ r m, ∀ k i, m !! k = Some i → height i <= r)).
  - intros k i. by rewrite lookup_empty.
  - intros k0 i0 m0 r Hk0 IH k i. destruct (decide (k0 = k)) as [<-|].
    + rewrite lookup_insert_eq. intros [= <-]. lia.
    + rewrite lookup_insert_ne by done. intros Hk. specialize (IH k i Hk). lia.
Qed.

Lemma hgt_eq m m' k : store_rel same_node m m' → hgt m' k = hgt m k.
Proof. intros E. unfold hgt. specialize (E k). inversion E as [i j (Eh & _)|]; congruence. Qed.

Lemma hgt_le m m' k : wf_store m → store_rel same_node m m' → is_Some (m' !! k) →
  0 <= hgt m k <= maxHeight m.
Proof.
  intros W E [i' Hi']. unfold hgt. specialize (E k). rewrite Hi' in E. inversion E as [i ? ? Hi|].
  split; [by eapply wf_height|by eapply maxHeight_ge].
Qed.

Lemma hgt_child m m' k i c : wf_store m → store_rel same_node m m' → m' !! k = Some i →
  c ∈ pnext i → hgt m c = hgt m k + 1.
Proof.
  intros W E Hk Hc. rewrite <- (hgt_eq m m' c E), <- (hgt_eq m m' k E).
  assert (wf_store m') as W' by by rewrite <- E.
  destruct (wf_next m' W' k i c) as (j & Hj & Hp); [done..|].
  destruct (wf_prev m' W' c j k) as (i0 & Hi0 & Hh & _); [done..|].
  unfold hgt. rewrite Hj, Hk. congruence.
Qed.

Lemma own_node m m' : store_rel same_own m m' → store_rel same_node m m'.
Proof. apply store_rel_mono. by intros ?? []. Qed.

(** The whole traversal of [invalidateSubtree] and [revalidateSubtree]. *)
Lemma forEachDescendant_ok visit (J : list K → tree → Prop) t0 k i :
  wf_store (blocks_ t0) → blocks_ t0 !! k = Some i →
  (∀ l t, J l t → store_rel same_node (blocks_ t0) (blocks_ t) ∧
    ∀ x, x ∈ l → is_Some (blocks_ t !! x)) →
  (∀ x l t, J (x :: l) t → ∃ t' b i', visit x t = Ok (t', b) ∧ blocks_ t' !! x = Some i' ∧
    J ((if b : bool then elements (pnext i') else []) ++ l) t') →
  J (elements (pnext i)) t0 →
  ∃ t', forEachDescendant visit k t0 = Ok t' ∧ J [] t'.
Proof.
  intros W Hk HJ Hv HJ0. unfold forEachDescendant. rewrite (deref_eq _ _ _ Hk).
  cbn [mbind result_bind]. unfold children.
  apply (forEachChild_inv blocks_ visit J (hgt (blocks_ t0)) (maxHeight (blocks_ t0))).
  - intros x l t Hx. destruct (HJ _ _ Hx) as [E Hin].
    apply (hgt_le _ (blocks_ t) x W E). apply Hin. by left.
  - intros x l t Hx. destruct (Hv _ _ _ Hx) as (t' & b & i' & Ht' & Hi' & HJ').
    exists t', b, i'. split_and!; [done..|]. intros c Hc.
    by eapply (hgt_child _ (blocks_ t')); [|eapply HJ| |].
  - by rewrite app_nil_r.
  - intros c Hc. unfold traversal_fuel. destruct (HJ _ _ HJ0) as [E Hin].
    pose proof (hgt_le _ _ c W E (Hin c Hc)). lia.
Qed.

(** Below a block that has just failed: the flags of the descendants, then the
    predecessor may be a tip. *)
Lemma invalidate_below_ok t1 k i' p : store_ok (blocks_ t1) → blocks_ t1 !! k = Some i' → pprev i' = Some p →
  isFailed i' = true → is_Some (blocks_ t1 !! p) →
  tips_sound (blocks_ t1) (tips_ t1) → tips_complete_but (Some p) (blocks_ t1) (tips_ t1) →
  (∀ x, x ∉ pnext i' → child_flag_ok (blocks_ t1) x) →
  ∃ t', (t ← forEachDescendant visit_invalidate k t1; tryAddTip p t) = Ok t' ∧ tree_inv t' ∧ same_rest t1 t' ∧
    store_rel same_own (blocks_ t1) (blocks_ t').
Proof.
  intros Hok1 Hk1 Hp Hf' [j Hj] Hs1 Hc1 Hchild1.
  destruct (forEachDescendant_ok visit_invalidate (inval_J t1 (Some p)) t1 k i')
    as (t2 & Ht2 & [Hrel Hrest Hok2 _ Hchild2 Hs2 Hc2]).
  { apply Hok1. } { done. }
  { intros l t' HJ. split; [apply own_node, HJ|]. intros x Hx.
    destruct (ij_pending _ _ _ _ HJ x Hx) as (ix & _ & _ & Hix & _). eauto. }
  { intros. by apply visit_invalidate_J. }
  { constructor; try done.
    - intros x Hx%elem_of_elements.
      destruct (wf_next _ (so_wf _ Hok1) k i' x) as (jx & Hjx & Hpx); [done..|]. by exists jx, k, i'.
    - intros x Hx. rewrite elem_of_elements in Hx. by apply Hchild1. }
  rewrite Ht2. cbn [mbind result_bind].
  destruct (store_rel_lookup _ _ _ p j Hrel Hj) as (j2 & Hj2 & Hjj2).
  destruct (tryAddTip_spec t2 p j2 Hok2 Hj2) as (t3 & Ht3 & Et3 & Htips3).
  - intros x Hx _. split; [apply Hs2|]. apply Hc2. congruence.
  - intros Hx. destruct (Hs2 p Hx) as (j3 & Hj3 & Hv). congruence.
  - intros q Hq Hv. apply Hc2; [|done]. intros [= ->]. by eapply prev_ne; [apply Hok2|exact Hj2|exact Hq|].
  - intros q Hq Hx. left. by apply Hs2.
  - exists t3. rewrite Ht3. split; [done|]. rewrite Et3. split; [|split; [done|exact Hrel]].
    constructor; [done| |done]. intros x. apply Hchild2. set_solver.
Qed.

(** The part of [invalidateSubtree] that changes flags and tips. *)
Lemma invalidate_flags_ok t k i p n : tree_inv t → blocks_ t !! k = Some i →
  pprev i = Some p → isFailed i = false → 5 <= n <= 6 → (n = 6 → level (status i) ≠ 4) →
  ∃ t', (t ← doInvalidate k (Z.shiftl 1 n) t; t ← forEachDescendant visit_invalidate k t; tryAddTip p t)
      = Ok t' ∧ tree_inv t' ∧ same_rest t t' ∧
    store_rel same_own (<[k := setFlag (Z.shiftl 1 n) i]> (blocks_ t)) (blocks_ t').
Proof.
  intros [Hok Hchild Htips] Hk Hp Hfi Hn H6.
  assert (status_ok (status i)) as Hsi by by eapply so_status.
  pose proof (prev_ne _ _ _ _ (so_wf _ Hok) Hk Hp) as Hkp.
  rewrite (doInvalidate_eq t k i n) by (done || lia). cbn [mbind result_bind].
  set (i' := setFlag (Z.shiftl 1 n) i). set (t1 := emit _ _).
  assert (blocks_ t1 !! k = Some i') as Hk1 by apply lookup_insert_eq.
  assert (same_node i i') as Hsn by (symmetry; apply same_node_setFlag).
  assert (store_ok (blocks_ t1)) as Hok1.
  { apply (store_ok_update _ k i); [done|done|done|]. apply status_ok_setFlag; done || lia. }
  destruct (fail_tips (blocks_ t) (tips_ t) k i n (Some p) Hok Hk ltac:(lia)) as [Hs1 Hc1].
  { intros x. apply Htips. } { intros x _. apply Htips. } { by left. }
  assert (isFailed i' = true) as Hf' by (apply setFlag_failed; lia).
  destruct (wf_prev _ (so_wf _ Hok) k i p) as (j & Hj & _); [done..|].
  assert (isFailed j = false) as Hfj.
  { rewrite <- (Hchild k i p j) by done. rewrite isFailed_bits in Hfi.
    by apply orb_false_elim in Hfi as [_ ?]. }
  apply (invalidate_below_ok t1 k i' p); [done|done|by rewrite <- Hp; symmetry; apply Hsn|done|cbn; rewrite lookup_insert_ne by done; by eexists|done|done|].
  intros x Hx. destruct (decide (x = k)) as [->|Hxk].
  - intros ix px jx Hix Hpx Hjx. assert (ix = i') as -> by congruence.
    assert (px = p) as -> by (assert (pprev i = pprev i') by apply Hsn; congruence).
    unfold t1 in Hjx. cbn in Hjx. rewrite lookup_insert_ne in Hjx by done.
    assert (jx = j) as -> by congruence. rewrite Hfj. unfold i'. rewrite setFlag_bit by lia.
    rewrite (Hchild k i p j) by done. rewrite Hfj. by destruct (Z.eqb_spec 7 n); [lia|].
  - apply (child_flag_update _ k i); [apply Hok|done|done|done| |done].
    right. assert (pnext i = pnext i') as -> by apply Hsn. done.
Qed.

(** *** Removing a failure flag *)
Lemma flag_failed n i : 5 <= n <= 7 → Z.testbit (status i) n = true → isFailed i = true.
Proof.
  intros Hn Hb. rewrite isFailed_bits.
  assert (n = 5 ∨ n = 6 ∨ n = 7) as [->|[->| ->]] by lia; rewrite Hb; by rewrite ?orb_true_r.
Qed.

Lemma children_cannot_tip m k i : wf_store m → m !! k = Some i → isFailed i = true →
  (∀ c, c ∈ pnext i → child_flag_ok m c) →
  ∀ c j, c ∈ pnext i → m !! c = Some j → isFailed j = true ∧ can_tip j = false.
Proof.
  intros W Hk Hf Hch c j Hc Hj. destruct (wf_next m W k i c) as (j' & Hj' & Hp); [done..|].
  assert (j' = j) as -> by congruence.
  assert (isFailed j = true) as Hfj.
  { apply (flag_failed 7); [lia|]. rewrite <- Hf. by apply (Hch c Hc j k i). }
  split; [done|by apply can_tip_failed].
Qed.

(** [tryAddTip] on a node whose status was changed: it could not be a tip
    before, nor can its children. *)
Lemma tryAddTip_enable t t1 k i i' : store_ok (blocks_ t) → store_ok (blocks_ t1) →
  blocks_ t !! k = Some i → same_links i i' → blocks_ t1 = <[k := i']> (blocks_ t) →
  tips_ t1 = tips_ t → can_tip i = false →
  (∀ c j, c ∈ pnext i → blocks_ t !! c = Some j → can_tip j = false) →
  (∀ x, x ∈ tips_ t ↔ is_valid_tip (blocks_ t) x) →
  ∃ t', tryAddTip k t1 = Ok t' ∧ t' = with_tips (λ _, tips_ t') t1 ∧
    ∀ x, x ∈ tips_ t' ↔ is_valid_tip (blocks_ t1) x.
Proof.
  intros Hok Hok1 Hk (_ & Ep & En) Eb Et Hci Hcc Htips.
  assert (blocks_ t1 !! k = Some i') as Hk1 by (rewrite Eb; apply lookup_insert_eq).
  assert (∀ c, c ∈ pnext i → c ≠ k) as Hself.
  { intros c Hc ->. destruct (wf_next _ (so_wf _ Hok) k i k) as (j & Hj & Hp); [done..|].
    by eapply prev_ne; [apply Hok|exact Hj|exact Hp|]. }
  assert (can_tip i' = true → valid_tip (blocks_ t1) i') as Hvk.
  { intros Hc. split; [done|]. intros c j Hcn Hj. rewrite <- En in Hcn. rewrite Eb in Hj.
    rewrite lookup_insert_ne in Hj by (intros ->; by apply (Hself c)). by apply (Hcc c j). }
  (* validity of the other nodes *)
  assert (∀ x j, x ≠ k → (k ∉ pnext j ∨ can_tip i' = false) →
    (valid_tip (blocks_ t1) j ↔ valid_tip (blocks_ t) j)) as Hsame.
  { intros x j Hx Hj. unfold valid_tip. rewrite Eb. split; intros [Hcj Hall]; (split; [done|]);
      intros c jc Hc Hjc; destruct (decide (c = k)) as [->|Hck].
    - congruence.
    - apply (Hall c); [done|]. by rewrite lookup_insert_ne.
    - rewrite lookup_insert_eq in Hjc. injection Hjc as <-. naive_solver.
    - apply (Hall c); [done|]. by rewrite lookup_insert_ne in Hjc. }
  assert (∀ x, x ≠ k → blocks_ t1 !! x = blocks_ t !! x) as Hne.
  { intros x Hx. rewrite Eb. by rewrite lookup_insert_ne. }
  assert (∀ x j, blocks_ t !! x = Some j → k ∈ pnext j → pprev i' = Some x) as Hpar.
  { intros x j Hj Hin. destruct (wf_next _ (so_wf _ Hok) x j k) as (i0 & Hi0 & Hp); [done..|].
    rewrite <- Ep. congruence. }
  apply (tryAddTip_spec t1 k i' Hok1 Hk1); rewrite ?Et.
  - intros x Hx Hxp. rewrite Htips. unfold is_valid_tip.
    rewrite (Hne x Hx). split; intros (j & Hj & Hv); exists j; (split; [done|]);
      apply (Hsame x j Hx); try done; left; intros Hin; by rewrite (Hpar x j Hj Hin) in Hxp.
  - intros (j & Hj & Hv & _)%Htips. congruence.
  - intros p Hp (j & Hj & Hv). apply Htips.
    assert (k ≠ p) as Hkp by (by eapply prev_ne; [apply Hok1|exact Hk1|exact Hp]).
    rewrite Hne in Hj by done. exists j. split; [done|].
    destruct (can_tip i') eqn:Ec.
    + exfalso. eapply (valid_tip_prev _ k i' p j Hok1 Hk1 Hp); [by rewrite Hne|done|done].
    + apply (Hsame p j); [done|by right|done].
  - intros p Hp (j & Hj & Hv)%Htips.
    assert (k ≠ p) as Hkp by (by eapply prev_ne; [apply Hok1|exact Hk1|exact Hp]).
    destruct (can_tip i') eqn:Ec; [right; auto|left].
    exists j. split; [by rewrite Hne|]. apply (Hsame p j); [done|by right|done].
Qed.

Lemma doReValidate_ok t k i n : store_ok (blocks_ t) → blocks_ t !! k = Some i → 5 <= n <= 7 →
  Z.testbit (status i) n = true → (∀ c, c ∈ pnext i → child_flag_ok (blocks_ t) c) →
  (∀ x, x ∈ tips_ t ↔ is_valid_tip (blocks_ t) x) →
  let i' := unsetFlag (Z.shiftl 1 n) i in
  ∃ t', doReValidate k (Z.shiftl 1 n) t = Ok t' ∧ blocks_ t' = <[k := i']> (blocks_ t) ∧
    (∀ x, x ∈ tips_ t' ↔ is_valid_tip (blocks_ t') x) ∧ same_rest t t' ∧ store_ok (blocks_ t').
Proof.
  intros Hok Hk Hn Hbit Hch Htips i'. unfold doReValidate, modify. rewrite (deref_eq _ _ _ Hk).
  cbn [mbind result_bind]. fold i'. set (t1 := with_blocks _ t).
  assert (isFailed i = true) as Hf by (by apply (flag_failed n)).
  assert (same_node i i') as Hsn by (symmetry; apply same_node_unsetFlag).
  assert (store_ok (blocks_ t1)) as Hok1.
  { apply (store_ok_update _ k i); [done|done|done|].
    apply status_ok_unsetFlag; [by eapply so_status|lia]. }
  pose proof (children_cannot_tip _ k i (so_wf _ Hok) Hk Hf Hch) as Hcc.
  destruct (tryAddTip_enable t t1 k i i' Hok Hok1 Hk) as (t2 & Ht2 & Et2 & Htips2);
    [by apply same_node_links|done|done|by apply can_tip_failed|by intros; eapply Hcc|done|].
  rewrite Ht2. cbn [mbind result_bind]. eexists. split; [done|]. cbn [emit blocks_ tips_].
  rewrite Et2. cbn [with_tips blocks_]. split_and!; [done|done| |done].
  unfold same_rest. rewrite Et2. cbn. by split_and!.
Qed.

Record reval_J (t0 : tree) (l : list K) (t : tree) : Prop := {
  rj_rel : store_rel same_own (blocks_ t0) (blocks_ t);
  rj_rest : same_rest t0 t;
  rj_ok : store_ok (blocks_ t);
  rj_nodup : NoDup l;
  rj_pending : ∀ k, k ∈ l → ∃ i p j, blocks_ t !! k = Some i ∧ pprev i = Some p ∧
    blocks_ t !! p = Some j ∧ isFailed j = false ∧ Z.testbit (status i) 7 = true;
  rj_child : ∀ k, k ∉ l → child_flag_ok (blocks_ t) k;
  rj_tips : ∀ x, x ∈ tips_ t ↔ is_valid_tip (blocks_ t) x
}.

Lemma visit_revalidate_J t0 k l t : reval_J t0 (k :: l) t →
  ∃ t' b i', visit_revalidate k t = Ok (t', b) ∧ blocks_ t' !! k = Some i' ∧
    reval_J t0 ((if b : bool then elements (pnext i') else []) ++ l) t'.
Proof.
  intros [Hrel Hrest Hok Hnd Hpend Hchild Htips]. apply NoDup_cons in Hnd as [Hkl Hnd].
  destruct (Hpend k) as (i & p & j & Hk & Hp & Hj & Hjf & Hbit); [by left|].
  pose proof (prev_ne _ _ _ _ (so_wf _ Hok) Hk Hp) as Hkp.
  assert (isFailed i = true) as Hf by (apply (flag_failed 7); done || lia).
  (* no child of [k] is pending *)
  assert (∀ c, c ∈ pnext i → c ∉ k :: l) as Hfresh.
  { intros c Hc Hin. destruct (Hpend c Hin) as (ic & pc & jc & Hic & Hpc & Hjc & Hfc & _).
    destruct (wf_next _ (so_wf _ Hok) k i c) as (ic' & Hic' & Hpc'); [done..|]. congruence. }
  destruct (doReValidate_ok t k i 7 Hok Hk ltac:(lia) Hbit) as (t1 & Ht1 & Eb & Htips1 & Hr1 & Hok1);
    [by auto|done|].
  unfold visit_revalidate. change BLOCK_FAILED_CHILD with (Z.shiftl 1 7). rewrite Ht1.
  cbn [mbind result_bind]. set (i' := unsetFlag (Z.shiftl 1 7) i) in *.
  assert (blocks_ t1 !! k = Some i') as Hk1 by (rewrite Eb; apply lookup_insert_eq).
  rewrite (deref_eq _ _ _ Hk1). cbn [mbind result_bind]. eexists _, _, i'. split; [done|].
  split; [done|].
  assert (same_own i i') as Hown by (by eapply same_own_unsetFlag).
  assert (pnext i' = pnext i) as En by (symmetry; apply Hown).
  assert (∀ x jx, x ≠ k → blocks_ t !! x = Some jx → blocks_ t1 !! x = Some jx) as Hne.
  { intros x jx Hx. rewrite Eb. by rewrite lookup_insert_ne. }
  constructor; [|by etrans|done| | | |done].
  - etrans; [done|]. rewrite Eb. by apply (store_rel_insert same_own _ k i); [apply _|..].
  - apply NoDup_app. split; [destruct (negb _); [apply NoDup_elements|apply NoDup_nil_2]|].
    split; [|done]. intros c Hc Hin. destruct (isFailed i') eqn:E; cbn [negb] in Hc; [set_solver|].
    apply (Hfresh c); [set_solver|by right].
  - intros x [Hx|Hx]%elem_of_app.
    + destruct (isFailed i') eqn:Ef'; cbn [negb] in Hx; [set_solver|].
      assert (x ∈ pnext i) as Hxi by set_solver.
      destruct (wf_next _ (so_wf _ Hok) k i x) as (jx & Hjx & Hpx); [done..|].
      assert (x ≠ k) as Hxk by (intros ->; apply (Hfresh k Hxi); by left).
      exists jx, k, i'. split_and!; [by apply Hne|done|done|done|].
      rewrite <- Hf. apply (Hchild x) with k; [by apply Hfresh|done..].
    + destruct (Hpend x) as (ix & px & jx & Hix & Hpx & Hjx & Hfx & Hbx); [by right|].
      assert (x ≠ k) as Hxk by (intros ->; done).
      assert (px ≠ k) as Hpk by (intros ->; congruence).
      exists ix, px, jx. split_and!; auto.
  - intros x Hx. apply not_elem_of_app in Hx as [Hx Hxl]. rewrite Eb.
    destruct (decide (x = k)) as [->|Hxk].
    + intros i0 p0 j0. rewrite lookup_insert_eq. intros [= <-] Hp0 Hj0.
      assert (p0 = p) as -> by (assert (pprev i' = pprev i) by (symmetry; apply Hown); congruence).
      rewrite lookup_insert_ne in Hj0 by done. assert (j0 = j) as -> by congruence. rewrite Hjf.
      unfold i'. rewrite unsetFlag_bit by lia. by rewrite andb_false_r.
    + apply (child_flag_update _ k i); [apply Hok|done|apply Hown|done| |].
      * destruct (isFailed i') eqn:Ef'; [left; congruence|right]. cbn [negb] in Hx. set_solver.
      * apply Hchild. by rewrite not_elem_of_cons.
Qed.

(** The part of [revalidateSubtree] that changes flags and tips: the block
    is not failed for another reason. *)
Lemma revalidate_flags_ok t k i n : tree_inv t → blocks_ t !! k = Some i →
  5 <= n <= 6 → Z.testbit (status i) n = true →
  isFailed (unsetFlag (Z.shiftl 1 n) i) = false →
  ∃ t', (t ← doReValidate k (Z.shiftl 1 n) t; forEachDescendant visit_revalidate k t) = Ok t' ∧
    tree_inv t' ∧ same_rest t t' ∧
    store_rel same_own (<[k := unsetFlag (Z.shiftl 1 n) i]> (blocks_ t)) (blocks_ t').
Proof.
  intros [Hok Hchild Htips] Hk Hn Hbit Hfi'.
  assert (isFailed i = true) as Hf by (apply (flag_failed n); done || lia).
  destruct (doReValidate_ok t k i n Hok Hk ltac:(lia) Hbit) as (t1 & Ht1 & Eb & Htips1 & Hr1 & Hok1);
    [by auto|done|].
  rewrite Ht1. cbn [mbind result_bind]. set (i' := unsetFlag (Z.shiftl 1 n) i) in *.
  assert (blocks_ t1 !! k = Some i') as Hk1 by (rewrite Eb; apply lookup_insert_eq).
  assert (same_node i i') as Hsn by (symmetry; apply same_node_unsetFlag).
  assert (pnext i' = pnext i) as En by (symmetry; apply Hsn).
  assert (Z.testbit (status i) 7 = false) as Hb7.
  { rewrite isFailed_bits in Hfi'. apply orb_false_elim in Hfi' as [_ Hb7]. unfold i' in Hb7.
    rewrite unsetFlag_bit in Hb7 by lia. destruct (Z.eqb_spec 7 n); [lia|]. by rewrite andb_true_r in Hb7. }
  destruct (forEachDescendant_ok visit_revalidate (reval_J t1) t1 k i')
    as (t2 & Ht2 & [Hrel Hrest Hok2 _ _ Hchild2 Htips2]).
  { apply Hok1. } { done. }
  { intros l t' HJ. split; [apply own_node, HJ|]. intros x Hx.
    destruct (rj_pending _ _ _ HJ x Hx) as (ix & _ & _ & Hix & _). eauto. }
  { intros. by apply visit_revalidate_J. }
  { constructor; try done.
    - apply NoDup_elements.
    - intros x Hx%elem_of_elements. rewrite En in Hx.
      destruct (wf_next _ (so_wf _ Hok) k i x) as (jx & Hjx & Hpx); [done..|].
      exists jx, k, i'. split_and!; [|done|done|done|].
      + rewrite Eb, lookup_insert_ne; [done|]. intros ->.
        by eapply prev_ne; [apply Hok|exact Hjx|exact Hpx|].
      + rewrite <- Hf. by apply (Hchild x) with k.
    - intros x Hx. rewrite Eb. destruct (decide (x = k)) as [->|Hxk].
      + intros ix px jx. rewrite lookup_insert_eq. intros [= <-] Hpx Hjx.
        assert (pprev i = Some px) as Hpi by (rewrite <- Hpx; apply Hsn).
        pose proof (prev_ne _ _ _ _ (so_wf _ Hok) Hk Hpi) as Hne.
        rewrite lookup_insert_ne in Hjx by done. rewrite <- (Hchild k i px jx) by done.
        unfold i'. rewrite unsetFlag_bit by lia. destruct (Z.eqb_spec 7 n); [lia|]. by rewrite andb_true_r.
      + apply (child_flag_update _ k i); [apply Hok|done|done|done| |done].
        right. rewrite elem_of_elements, En in Hx. done. }
  rewrite Ht2. exists t2. split; [done|]. split_and!.
  - constructor; [done| |done]. intros x. apply Hchild2. set_solver.
  - by etrans.
  - by rewrite <- Eb.
Qed.
End inv.

(** ** Properties of the subtree operations *)
Section props.
Context {K H B A P Ext SA : Type} `{Countable K, Countable H, Countable P, BlockAddon A}.
Context `{HK : !TreeHooks K H B A P Ext}.
Notation tree := (BaseBlockTree K H B A P Ext).
Notation index_t := (BlockIndex K B A).
Implicit Types (m : gmap K index_t) (i j : index_t) (t : tree) (k p x : K).

Lemma is_valid_tip_update m k i i' x : m !! k = Some i → same_links i i' → can_tip i' = can_tip i →
  is_valid_tip (<[k := i']> m) x ↔ is_valid_tip m x.
Proof.
  intros Hk (_ & _ & En) Ec.
  assert (∀ c, (∃ j, <[k := i']> m !! c = Some j ∧ can_tip j = true) ↔
    (∃ j, m !! c = Some j ∧ can_tip j = true)) as Hc.
  { intros c. destruct (decide (k = c)) as [<-|].
    - rewrite lookup_insert_eq, Hk. split; intros (j & [= <-] & ?); eexists; (split; [done|]); congruence.
    - by rewrite lookup_insert_ne. }
  assert (∀ j, (∀ c jc, c ∈ pnext j → <[k := i']> m !! c = Some jc → can_tip jc = false) ↔
    (∀ c jc, c ∈ pnext j → m !! c = Some jc → can_tip jc = false)) as Hall.
  { intros j. split; intros Ha c jc Hin Hjc; destruct (can_tip jc) eqn:E; try done.
    - destruct (proj2 (Hc c)) as (j' & Hj' & E'); [by eauto|]. by rewrite (Ha c j' Hin Hj') in E'.
    - destruct (proj1 (Hc c)) as (j' & Hj' & E'); [by eauto|]. by rewrite (Ha c j' Hin Hj') in E'. }
  unfold is_valid_tip, valid_tip. destruct (decide (k = x)) as [<-|].
  - rewrite lookup_insert_eq, Hk. split; intros (j & [= <-] & Hcj & Ha); eexists; (split; [done|]);
      (split; [congruence|]); [rewrite En|rewrite <- En]; by apply Hall.
  - rewrite lookup_insert_ne by done. split; intros (j & Hj & Hcj & Ha); exists j; (split; [done|]);
      (split; [done|]); by apply Hall.
Qed.

(** An update that keeps the links, the failure and the fitness for a tip. *)
Lemma update_tree_inv t t' k i i' : tree_inv t → blocks_ t !! k = Some i → same_links i i' → status_ok (status i') →
  isFailed i' = isFailed i → can_tip i' = can_tip i → Z.testbit (status i') 7 = Z.testbit (status i) 7 →
  blocks_ t' = <[k := i']> (blocks_ t) → tips_ t' = tips_ t → tree_inv t'.
Proof.
  intros [Hok Hch Htips] Hk Hl Hst Hf Hc H7 Eb Et. constructor; rewrite ?Eb.
  - by eapply store_ok_links.
  - intros x. destruct (decide (x = k)) as [->|Hx].
    + intros ix px jx. rewrite lookup_insert_eq. intros [= <-] Hpx Hjx. rewrite H7.
      assert (pprev i = Some px) as Hpi by (rewrite <- Hpx; apply Hl).
      pose proof (prev_ne _ _ _ _ (so_wf _ Hok) Hk Hpi).
      rewrite lookup_insert_ne in Hjx by done. by apply (Hch k i px jx).
    + apply (child_flag_links _ k i); [apply Hok|done|done|done|by left|done].
  - intros x. by rewrite Et, Htips, is_valid_tip_update.
Qed.

(** Changing a flag of a block that stays failed. *)
Lemma still_failed_inv t t' k i i' : tree_inv t → blocks_ t !! k = Some i → same_node i i' →
  isFailed i = true → isFailed i' = true → status_ok (status i') →
  Z.testbit (status i') 7 = Z.testbit (status i) 7 →
  blocks_ t' = <[k := i']> (blocks_ t) → tips_ t' = tips_ t → tree_inv t'.
Proof.
  intros Hinv Hk Hsn Hf Hf' Hst H7 Eb Et.
  apply (update_tree_inv t t' k i i'); [done|done|by apply same_node_links|done|congruence| |done..].
  by rewrite !can_tip_failed.
Qed.

(** Below a failed block everything is failed and no tip. *)
Lemma failed_below t k i x : tree_inv t → blocks_ t !! k = Some i → isFailed i = true →
  ancestor (blocks_ t) k x → ∃ j, blocks_ t !! x = Some j ∧ isFailed j = true ∧ x ∉ tips_ t.
Proof.
  intros Hinv Hk Hf [n Hn].
  assert (∃ j, blocks_ t !! x = Some j ∧ isFailed j = true) as (j & Hj & Hfj).
  { revert x Hn. induction n as [|n IH]; simpl; intros x Hn; [injection Hn as ->; eauto|].
    destruct (blocks_ t !! x) as [j|] eqn:Hj; simpl in Hn; [|done].
    destruct (pprev j) as [q|] eqn:Hq; simpl in Hn; [|done].
    destruct (IH q Hn) as (jq & Hjq & Hfq). exists j. split; [done|].
    apply (flag_failed 7); [lia|]. rewrite <- Hfq. by apply (ti_child _ Hinv x j q jq). }
  exists j. split_and!; [done|done|]. intros Hx%(ti_tips _ Hinv). destruct Hx as (j' & Hj' & Hc & _).
  assert (j' = j) as -> by congruence. by rewrite can_tip_failed in Hc.
Qed.

(** The reasons the operations accept, as flag bits. *)
Definition reason_bit (reason n : Z) : Prop := reason = Z.shiftl 1 n ∧ (n = 5 ∨ n = 6).

Lemma reason_valid reason n : reason_bit reason n → isValidInvalidationReason reason = true.
Proof. intros [-> [->| ->]]; done. Qed.

Lemma setFlag_id n i : 0 <= n → Z.testbit (status i) n = true → setFlag (Z.shiftl 1 n) i = i.
Proof.
  intros Hn Hb. unfold setFlag. destruct (Z.eqb_spec (Z.lor (status i) (Z.shiftl 1 n)) (status i)) as [|E]; [done|].
  exfalso. apply E. apply Z.bits_inj'. intros q Hq. rewrite Z.lor_spec, testbit_one by lia.
  destruct (Z.eqb_spec q n) as [->|]; [by rewrite Hb|by rewrite orb_false_r].
Qed.

(** What the caller must know about the block. *)
Record invalidatable (t : tree) (k : K) (i : index_t) (p : K) (n : Z) : Prop := {
  iv_inv : tree_inv t;
  iv_block : blocks_ t !! k = Some i;
  iv_prev : pprev i = Some p;
  iv_fork : contains (blocks_ t) (activeChain_ t) (Some k) = Ok false;
  iv_pop : n = 6 → level (status i) ≠ 4;
  iv_level : isFailed i = true ∨ 1 <= level (status i)
}.

(** Invalidating a block off the active chain succeeds, keeps the
    invariant, sets the reason on the block and changes nothing else but the
    FAILED_CHILD flags; afterwards every block of the subtree is failed and
    none of them is a tip. *)
Lemma invalidateSubtree_correct t k i p reason n : reason_bit reason n →
  invalidatable t k i p n →
  ∃ t', invalidateSubtree k reason false t = Ok t' ∧ tree_inv t' ∧ same_rest t t' ∧
    store_rel same_own (<[k := setFlag reason i]> (blocks_ t)) (blocks_ t') ∧
    ∀ x, ancestor (blocks_ t') k x →
      ∃ j, blocks_ t' !! x = Some j ∧ isFailed j = true ∧ x ∉ tips_ t'.
Proof.
  intros [Er Hn] [Hinv Hk Hp Hfork Hpop Hlvl].
  assert (5 <= n <= 6) as Hn' by lia. pose proof (ti_store _ Hinv) as Hok.
  assert (status_ok (status i)) as Hst by by eapply so_status.
  assert (∀ t', tree_inv t' → store_rel same_own (<[k := setFlag reason i]> (blocks_ t)) (blocks_ t') →
    ∀ x, ancestor (blocks_ t') k x → ∃ j, blocks_ t' !! x = Some j ∧ isFailed j = true ∧ x ∉ tips_ t')
    as Hbelow.
  { intros t' Hinv' Hrel x. destruct (store_rel_lookup _ _ _ k (setFlag reason i) Hrel) as (j & Hj & Hs).
    { apply lookup_insert_eq. }
    apply (failed_below t' k j); [done|done|]. apply (flag_failed n); [lia|].
    destruct Hs as (_ & Hb & _). rewrite <- Hb, Er, setFlag_bit by lia.
    by rewrite Z.eqb_refl, orb_true_r. }
  unfold invalidateSubtree. rewrite (deref_eq _ _ _ Hk). cbn [mbind result_bind]. rewrite Hp.
  rewrite (reason_valid reason n) by (by split). cbn [vassert mbind result_bind].
  rewrite Er, hasFlags_bit by lia. destruct (Z.testbit (status i) n) eqn:Eb.
  { exists t. rewrite setFlag_id by (done || lia). rewrite insert_id by done.
    split_and!; [done..|]. apply Hbelow; [done|].
    rewrite Er, setFlag_id by (done || lia). by rewrite insert_id. }
  rewrite isValid_eq by done. cbn [mbind result_bind]. change BLOCK_VALID_TREE with 1.
  destruct (isFailed i) eqn:Ef; cbn [negb andb].
  - rewrite (doInvalidate_eq t k i n) by (done || lia). eexists. split; [done|].
    set (i' := setFlag (Z.shiftl 1 n) i).
    match goal with |- tree_inv ?T ∧ _ => set (t' := T) end.
    assert (tree_inv t') as Hinv'.
    { apply (still_failed_inv t _ k i i'); [done|done|symmetry; apply same_node_setFlag|done| | | |done|].
      - apply setFlag_failed. lia.
      - apply status_ok_setFlag; done || lia.
      - unfold i'. rewrite setFlag_bit by lia. destruct (Z.eqb_spec 7 n); [lia|by rewrite orb_false_r].
      - cbn. apply set_eq. intros x. rewrite elem_of_difference, elem_of_singleton. split; [tauto|].
        intros Hx. split; [done|]. intros ->. apply (ti_tips _ Hinv) in Hx as (j & Hj & Hc & _).
        assert (j = i) as -> by congruence. by rewrite can_tip_failed in Hc. }
    split_and!; [done|done|done|]. apply Hbelow; [done|]. by rewrite Er.
  - destruct (Z.leb_spec 1 (level (status i))); [cbn [negb]|lia].
    rewrite Hfork. cbn [mbind result_bind].
    destruct (invalidate_flags_ok t k i p n) as (t' & Ht' & Hinv' & Hrest & Hrel); [done..|].
    exists t'. apply bind_Ok in Ht' as (t1 & -> & Ht'). cbn [mbind result_bind].
    apply bind_Ok in Ht' as (t2 & -> & Ht'). cbn [mbind result_bind]. rewrite Ht'.
    split_and!; [done..|]. apply Hbelow; [done|]. by rewrite Er.
Qed.

(** A status is determined by the own flags and the invariant, level by level. *)
Lemma status_determined_below t t2 h : tree_inv t → tree_inv t2 →
  (∀ x i, blocks_ t !! x = Some i → height i < h → ∃ j, blocks_ t2 !! x = Some j ∧ same_own i j) →
  ∀ x i, blocks_ t !! x = Some i → height i < h →
    ∃ j, blocks_ t2 !! x = Some j ∧ same_node i j ∧ status i = status j.
Proof.
  intros Hinv Hinv2 Hrel.
  assert (∀ n x i, blocks_ t !! x = Some i → height i < h → Z.to_nat (height i) = n →
    ∃ j, blocks_ t2 !! x = Some j ∧ same_node i j ∧ status i = status j) as Hall; [|by eauto].
  induction n as [n IH] using (well_founded_induction lt_wf). intros x i Hx Hlt Hh.
  destruct (Hrel x i Hx Hlt) as (j & Hj & Hsn & Hb & Hroot).
  exists j. split_and!; [done|done|]. destruct (pprev i) as [p|] eqn:Hp; [|by apply Hroot].
  apply Z.bits_inj'. intros q _. destruct (decide (q = 7)) as [->|Hq]; [|by apply Hb].
  destruct (wf_prev _ (so_wf _ (ti_store _ Hinv)) x i p) as (ip & Hip & Hhp & _); [done..|].
  pose proof (wf_height _ (so_wf _ (ti_store _ Hinv)) _ _ Hip).
  destruct (IH (Z.to_nat (height ip)) ltac:(lia) p ip Hip ltac:(lia) eq_refl) as (jp & Hjp & _ & Est).
  rewrite (ti_child _ Hinv x i p ip) by done.
  assert (pprev j = Some p) as Hpj by (rewrite <- Hp; symmetry; apply Hsn).
  rewrite (ti_child _ Hinv2 x j p jp) by done. unfold isFailed. by rewrite Est.
Qed.

Lemma status_determined t t2 : tree_inv t → tree_inv t2 →
  store_rel same_own (blocks_ t) (blocks_ t2) →
  ∀ x i, blocks_ t !! x = Some i → ∃ j, blocks_ t2 !! x = Some j ∧ same_node i j ∧ status i = status j.
Proof.
  intros Hinv Hinv2 Hrel x i Hx.
  apply (status_determined_below t t2 (height i + 1)); [done|done| |done|lia].
  intros y iy Hy _. by apply (store_rel_lookup _ _ _ _ _ Hrel).
Qed.

Lemma tips_determined t t2 : tree_inv t → tree_inv t2 →
  (∀ x i, blocks_ t !! x = Some i → ∃ j, blocks_ t2 !! x = Some j ∧ same_node i j ∧ status i = status j) →
  (∀ x, is_Some (blocks_ t2 !! x) → is_Some (blocks_ t !! x)) → tips_ t2 = tips_ t.
Proof.
  intros Hinv Hinv2 Hall Hdom. apply set_eq. intros x.
  rewrite (ti_tips _ Hinv x), (ti_tips _ Hinv2 x). unfold is_valid_tip, valid_tip.
  assert (∀ i j, same_node i j → status i = status j → can_tip i = can_tip j) as Hct.
  { intros i j _ E. apply can_tip_eq; [intros; by rewrite E|]. unfold isFailed. by rewrite E. }
  split.
  - intros (j & Hj & Hcj & Hn). destruct (Hdom x) as [i Hi]; [eauto|].
    destruct (Hall x i Hi) as (j' & Hj' & Hsn & Est). assert (j' = j) as -> by congruence.
    exists i. split; [done|]. split; [by rewrite (Hct i j)|]. intros c ic Hc Hic.
    destruct (Hall c ic Hic) as (jc & Hjc & Hsnc & Estc). rewrite (Hct ic jc) by done.
    apply (Hn c); [|done]. replace (pnext j) with (pnext i) by apply Hsn. done.
  - intros (i & Hi & Hci & Hn). destruct (Hall x i Hi) as (j & Hj & Hsn & Est).
    exists j. split; [done|]. split; [by rewrite <- (Hct i j)|]. intros c jc Hc Hjc.
    destruct (Hdom c) as [ic Hic]; [eauto|].
    destruct (Hall c ic Hic) as (jc' & Hjc' & Hsnc & Estc). assert (jc' = jc) as -> by congruence.
    rewrite <- (Hct ic jc) by done. apply (Hn c); [|done]. replace (pnext i) with (pnext j); [done|].
    symmetry. apply Hsn.
Qed.

(** C14: Revalidating a block with the reason it was invalidated for restores
    the status of every block of the tree and the set of tips. *)
Theorem revalidateSubtree_undo t k i p reason n : reason_bit reason n →
  invalidatable t k i p n → isFailed i = false →
  ∃ t1 t2, invalidateSubtree k reason false t = Ok t1 ∧ revalidateSubtree k reason false t1 = Ok t2 ∧
    tree_inv t2 ∧ same_rest t t2 ∧ tips_ t2 = tips_ t ∧
    ∀ x i, blocks_ t !! x = Some i →
      ∃ j, blocks_ t2 !! x = Some j ∧ same_node i j ∧ status i = status j.
Proof.
  intros Hr Hiv Hf. pose proof Hr as [Er Hn]. pose proof Hiv as [Hinv Hk Hp Hfork _ _].
  assert (5 <= n <= 6) as Hn' by lia.
  destruct (invalidateSubtree_correct t k i p reason n Hr Hiv) as (t1 & Ht1 & Hinv1 & Hrest1 & Hrel1 & _).
  destruct (store_rel_lookup _ _ _ k (setFlag reason i) Hrel1) as (i1 & Hi1 & Hs1 & Hb1 & _).
  { apply lookup_insert_eq. }
  assert (Z.testbit (status i1) n = true) as Hbit.
  { rewrite <- Hb1, Er, setFlag_bit by lia. by rewrite Z.eqb_refl, orb_true_r. }
  assert (∀ q, 5 <= q <= 7 → Z.testbit (status i) q = false) as Hclean.
  { intros q Hq. destruct (Z.testbit (status i) q) eqn:E; [|done].
    by rewrite (flag_failed q) in Hf. }
  destruct (wf_prev _ (so_wf _ (ti_store _ Hinv)) k i p) as (jp & Hjp & Hhp & _); [done..|].
  (* the blocks below the height of [k] are unchanged *)
  destruct (status_determined_below t t1 (height i) Hinv Hinv1) with (x := p) (i := jp)
    as (jp1 & Hjp1 & _ & Estp); [|done|lia|].
  { intros x ix Hx Hh. apply (store_rel_lookup _ _ _ _ _ Hrel1). rewrite lookup_insert_ne; [done|].
    intros ->. assert (ix = i) as -> by congruence. lia. }
  assert (same_node i i1) as Hsi1.
  { transitivity (setFlag reason i); [symmetry; apply same_node_setFlag|done]. }
  assert (pprev i1 = Some p) as Hp1 by (rewrite <- Hp; symmetry; apply Hsi1).
  assert (∀ q, q ≠ n → 0 <= q → Z.testbit (status i1) q = Z.testbit (status i) q) as Hsame.
  { intros q Hqn Hq. destruct (decide (q = 7)) as [->|Hq7].
    - rewrite (ti_child _ Hinv1 k i1 p jp1), (ti_child _ Hinv k i p jp) by done.
      unfold isFailed. by rewrite Estp.
    - rewrite <- Hb1, Er, setFlag_bit by lia. destruct (Z.eqb_spec q n); [done|by rewrite orb_false_r]. }
  set (i2 := unsetFlag (Z.shiftl 1 n) i1).
  assert (∀ q, Z.testbit (status i2) q = Z.testbit (status i) q) as Hi2.
  { intros q. destruct (Z.lt_ge_cases q 0); [by rewrite !Z.testbit_neg_r by lia|].
    unfold i2. rewrite unsetFlag_bit by lia. destruct (Z.eqb_spec q n) as [->|].
    - by rewrite andb_false_r, Hclean by lia.
    - rewrite andb_true_r. by apply Hsame. }
  assert (isFailed i2 = false) as Hf2 by (rewrite isFailed_bits, !Hi2, !Hclean by lia; done).
  destruct (revalidate_flags_ok t1 k i1 n) as (t2 & Ht2 & Hinv2 & Hrest2 & Hrel2); [done..|].
  fold i2 in Hrel2. exists t1, t2. split; [done|].
  assert (∀ x ix, blocks_ t !! x = Some ix → ∃ j, blocks_ t2 !! x = Some j ∧ same_own ix j) as Hown.
  { intros x ix Hx. destruct (decide (x = k)) as [->|Hxk].
    - assert (ix = i) as -> by congruence.
      destruct (store_rel_lookup _ _ _ k i2 Hrel2) as (j & Hj & Hsj); [apply lookup_insert_eq|].
      exists j. split; [done|]. etrans; [|exact Hsj]. split_and!; [|done|congruence].
      etrans; [exact Hsi1|]. symmetry. apply same_node_unsetFlag.
    - destruct (store_rel_lookup _ _ _ x ix Hrel1) as (j1 & Hj1 & Hs); [by rewrite lookup_insert_ne|].
      destruct (store_rel_lookup _ _ _ x j1 Hrel2) as (j & Hj & Hs'); [by rewrite lookup_insert_ne|].
      exists j. split; [done|]. by etrans. }
  assert (∀ x ix, blocks_ t !! x = Some ix →
    ∃ j, blocks_ t2 !! x = Some j ∧ same_node ix j ∧ status ix = status j) as Hst.
  { intros x ix Hx. apply (status_determined_below t t2 (height ix + 1)); [done|done| |done|lia]. eauto. }
  assert (∀ x, is_Some (blocks_ t2 !! x) → is_Some (blocks_ t !! x)) as Hdom.
  { intros x [j Hj]. pose proof (Hrel2 x) as E2. rewrite Hj in E2. pose proof (Hrel1 x) as E1.
    destruct (decide (x = k)) as [->|Hxk]; [eauto|].
    rewrite lookup_insert_ne in E2 by done. rewrite lookup_insert_ne in E1 by done.
    destruct (blocks_ t !! x); [eauto|]. destruct (blocks_ t1 !! x); [inversion E1|inversion E2]. }
  split; [|split_and!; [done|by etrans|by apply tips_determined|done]].
  unfold revalidateSubtree. rewrite (deref_eq _ _ _ Hi1). cbn [mbind result_bind].
  unfold isRoot. rewrite bool_decide_eq_false_2 by congruence. cbn [negb vassert mbind result_bind].
  rewrite (reason_valid reason n Hr). cbn [vassert mbind result_bind].
  rewrite Er at 1. rewrite hasFlags_bit by lia. rewrite Hbit. cbn [negb].
  assert (hasFlags i1 (Z.ldiff BLOCK_FAILED_MASK reason) = false) as ->.
  { unfold hasFlags. apply negb_false_iff, Z.eqb_eq. apply Z.bits_inj'. intros q Hq.
    rewrite Z.land_spec, Z.bits_0, Z.ldiff_spec. unfold BLOCK_FAILED_MASK.
    change BLOCK_FAILED_CHILD with (Z.shiftl 1 7). change BLOCK_FAILED_POP with (Z.shiftl 1 6).
    change BLOCK_FAILED_BLOCK with (Z.shiftl 1 5). rewrite !Z.lor_spec, Er, !testbit_one by lia.
    destruct (Z.eqb_spec q n) as [->|]; cbn [negb]; [by rewrite !andb_false_r|].
    rewrite Hsame by done.
    destruct (Z.eqb_spec q 7) as [->|]; [by rewrite Hclean by lia|].
    destruct (Z.eqb_spec q 6) as [->|]; [by rewrite Hclean by lia|].
    destruct (Z.eqb_spec q 5) as [->|]; [by rewrite Hclean by lia|]. by rewrite andb_false_r. }
  apply bind_Ok in Ht2 as (t1' & Ht1' & Ht2). rewrite Er, Ht1'. cbn [mbind result_bind].
  rewrite Ht2. done.
Qed.
End props.

(** ** A decision procedure for the invariant, for concrete trees *)
Section check.
Context {K H B A P Ext : Type} `{Countable K, Countable H, Countable P, BlockAddon A}.
Notation tree := (BaseBlockTree K H B A P Ext).
Notation index_t := (BlockIndex K B A).
Implicit Types (m : gmap K index_t) (i : index_t) (t : tree).

Definition tip_check m i : Prop :=
  can_tip i = true ∧
  set_Forall (λ c, match m !! c with Some j => can_tip j = false | None => True end) (pnext i).

Definition node_check m (k : K) i : Prop :=
  0 <= height i ∧ level (status i) <= 4 ∧ (level (status i) = 4 → Z.testbit (status i) 6 = false) ∧
  match pprev i with
  | None => True
  | Some p =>
    match m !! p with
    | Some j => height i = height j + 1 ∧ k ∈ pnext j ∧ Z.testbit (status i) 7 = isFailed j
    | None => False
    end
  end ∧
  set_Forall (λ c, match m !! c with Some j => pprev j = Some k | None => False end) (pnext i).

Definition inv_check t : Prop :=
  map_Forall (node_check (blocks_ t)) (blocks_ t) ∧
  map_Forall (λ k i, k ∈ tips_ t ↔ tip_check (blocks_ t) i) (blocks_ t) ∧
  set_Forall (λ x, is_Some (blocks_ t !! x)) (tips_ t).

#[export] Instance tip_check_dec m i : Decision (tip_check m i).
Proof.
  apply and_dec; [apply _|]. apply set_Forall_dec. intros c. destruct (m !! c); apply _.
Defined.

#[export] Instance node_check_dec m k i : Decision (node_check m k i).
Proof.
  unfold node_check. repeat (apply and_dec; [apply _|]). apply and_dec.
  - destruct (pprev i) as [p|]; [|apply _]. destruct (m !! p); apply _.
  - apply set_Forall_dec. intros c. destruct (m !! c); apply _.
Defined.

#[export] Instance inv_check_dec t : Decision (inv_check t).
Proof. apply _. Defined.

Lemma tip_check_valid m i : tip_check m i ↔ valid_tip m i.
Proof.
  unfold tip_check, valid_tip, set_Forall. split; intros [Hc Hall]; (split; [done|]).
  - intros c j Hc' Hj. specialize (Hall c Hc'). by rewrite Hj in Hall.
  - intros c Hc'. destruct (m !! c) as [j|] eqn:Hj; [by eapply Hall|done].
Qed.

Lemma inv_check_ok t : inv_check t → tree_inv t.
Proof.
  intros (Hn & Ht & Hd). constructor; [split; [constructor|]| |].
  - intros k i Hk. by destruct (Hn k i Hk).
  - intros k i p Hk Hp. destruct (Hn k i Hk) as (_ & _ & _ & Hpp & _). rewrite Hp in Hpp.
    destruct (blocks_ t !! p) as [j|]; [|done]. exists j. naive_solver.
  - intros k i c Hk Hc. destruct (Hn k i Hk) as (_ & _ & _ & _ & Hcc). specialize (Hcc c Hc).
    cbn in Hcc. destruct (blocks_ t !! c) as [j|]; [|done]. by exists j.
  - intros k i Hk. destruct (Hn k i Hk) as (_ & ? & H4 & _). split; [done|].
    intros [E E6]. by rewrite H4 in E6.
  - intros k i p j Hk Hp Hj. destruct (Hn k i Hk) as (_ & _ & _ & Hpp & _).
    rewrite Hp, Hj in Hpp. naive_solver.
  - intros x. split.
    + intros Hx. destruct (Hd x Hx) as [i Hi]. exists i. split; [done|].
      apply tip_check_valid. by apply (Ht x i Hi).
    + intros (i & Hi & Hv%tip_check_valid). by apply (Ht x i Hi).
Qed.
End check.

Module Example_base.
#[export] Instance unit_addon : BlockAddon unit := {| validTipLevel := 1; addon_setNull := id |}.
Notation tree := (BaseBlockTree Z Z unit unit Z unit).
(** Hooks that do nothing. *)
#[export] Instance no_hooks : TreeHooks Z Z unit unit Z unit := {|
  setState _ t := Ok (t, true);
  determineBestChain _ t := Ok t;
  onBeforeLeafRemoved _ t := Ok t;
  onBlockInserted _ t := Ok t;
  overrideTip _ t := Ok t
|}.
(** The tree of [Example_tree] with the active chain 0 - 1 - 2 - 3. *)
Definition t0 : tree :=
  mkTree Example_tree.t {[3; 4]} (mkChain 0 [Some 0; Some 1; Some 2; Some 3]) 4
    0 false None false true ∅ ∅ [] ().

Lemma t0_inv : tree_inv t0.
Proof. apply inv_check_ok, (bool_decide_unpack _). by vm_compute. Defined.

Definition node4 : BlockIndex Z unit unit := Example_tree.node 2 (Some 1) ∅.

Lemma t0_invalidatable : invalidatable t0 4 node4 1 5.
Proof.
  constructor; [apply t0_inv|reflexivity|reflexivity|reflexivity|done|].
  right. by vm_compute.
Defined.
End Example_base.
#[local] Existing Instance Example_base.unit_addon.
#[local] Existing Instance Example_base.no_hooks.

Lemma invalidateSubtree_correct_witness :
  ∃ t', invalidateSubtree 4 BLOCK_FAILED_BLOCK false Example_base.t0 = Ok t' ∧ tree_inv t' ∧
    same_rest Example_base.t0 t' ∧
    store_rel same_own
      (<[4 := setFlag BLOCK_FAILED_BLOCK Example_base.node4]> (blocks_ Example_base.t0)) (blocks_ t') ∧
    ∀ x, ancestor (blocks_ t') 4 x →
      ∃ j, blocks_ t' !! x = Some j ∧ isFailed j = true ∧ x ∉ tips_ t'.
Proof.
  apply (invalidateSubtree_correct Example_base.t0 4 Example_base.node4 1 _ 5);
    [split; [reflexivity|by left]|apply Example_base.t0_invalidatable].
Defined.

Lemma revalidateSubtree_undo_witness :
  ∃ t1 t2, invalidateSubtree 4 BLOCK_FAILED_BLOCK false Example_base.t0 = Ok t1 ∧
    revalidateSubtree 4 BLOCK_FAILED_BLOCK false t1 = Ok t2 ∧
    tree_inv t2 ∧ same_rest Example_base.t0 t2 ∧ tips_ t2 = tips_ Example_base.t0 ∧
    ∀ x i, blocks_ Example_base.t0 !! x = Some i →
      ∃ j, blocks_ t2 !! x = Some j ∧ same_node i j ∧ status i = status j.
Proof.
  apply (revalidateSubtree_undo Example_base.t0 4 Example_base.node4 1 _ 5);
    [split; [reflexivity|by left]|apply Example_base.t0_invalidatable|reflexivity].
Defined.
