(* ===== verification/TreeRemove.v ===== *)
(** * Removal of a subtree

    [removeSubtree] deletes exactly the blocks below its argument and keeps
    [tree_inv]. *)
From S2P Require Import Prelude BlockIndex Chain TreeAlgo PayloadsIndex BaseTree TreeInv.

(** [onBeforeLeafRemoved] only takes the payloads of the block out of the
    payload index. *)
Class RemovalHook (K H B A P Ext : Type) `{TreeHooks K H B A P Ext} :=
  onBeforeLeafRemoved_frame : ∀ (k : K) (t : BaseBlockTree K H B A P Ext), is_Some (blocks_ t !! k) →
    ∃ pl, onBeforeLeafRemoved k t = Ok (with_payloads (finalizedPayloadsIndex_ t) pl t).

Section remove.
Context {K H B A P Ext : Type} `{Countable K, Countable H, Countable P, BlockAddon A}.
Context `{HK : !TreeHooks K H B A P Ext, HR : !RemovalHook K H B A P Ext}.
Notation tree := (BaseBlockTree K H B A P Ext).
Notation index_t := (BlockIndex K B A).
Implicit Types (m : gmap K index_t) (i j : index_t) (t : tree) (k p x : K).

(** What [deleteTemporarily] leaves. *)
Definition deleted i : index_t :=
  with_status (Z.lor (Z.lor (Z.land (status i) BLOCK_FAILED_MASK) BLOCK_VALID_UNKNOWN) BLOCK_DELETED)
    true (with_addon (addon_setNull (addon i)) i).

Lemma deleteTemporarily_eq i : isDeleted i = false → deleteTemporarily i = Ok (deleted i).
Proof. intros E. unfold deleteTemporarily. by rewrite E. Qed.

Lemma deleted_links i : same_links i (deleted i).
Proof. by split_and!. Qed.

Lemma deleted_bit n i : 0 <= n →
  Z.testbit (status (deleted i)) n =
    (Z.testbit (status i) n && ((n =? 5) || (n =? 6) || (n =? 7))) || (n =? 10).
Proof.
  intros Hn. cbn [deleted with_status status]. change BLOCK_DELETED with (Z.shiftl 1 10).
  rewrite Z.lor_spec, testbit_one by lia. f_equal.
  change BLOCK_VALID_UNKNOWN with 0. rewrite Z.lor_0_r, Z.land_spec. f_equal.
  unfold BLOCK_FAILED_MASK. change BLOCK_FAILED_CHILD with (Z.shiftl 1 7).
  change BLOCK_FAILED_POP with (Z.shiftl 1 6). change BLOCK_FAILED_BLOCK with (Z.shiftl 1 5).
  rewrite !Z.lor_spec, !testbit_one by lia.
  destruct (n =? 5), (n =? 6), (n =? 7); done.
Qed.

Lemma deleted_isFailed i : isFailed (deleted i) = isFailed i.
Proof.
  rewrite !isFailed_bits, !deleted_bit by lia. cbn [Z.eqb Pos.eqb orb].
  by rewrite !andb_true_r, !orb_false_r.
Qed.

Lemma deleted_isDeleted i : isDeleted (deleted i) = true.
Proof.
  unfold isDeleted. change BLOCK_DELETED with (Z.shiftl 1 10). rewrite hasFlags_bit by lia.
  rewrite deleted_bit by lia. by rewrite orb_true_r.
Qed.

Lemma deleted_level i : level (status (deleted i)) = 0.
Proof.
  change 0 with (level 0). apply level_eq. intros n Hn. rewrite deleted_bit, Z.bits_0 by lia.
  assert (n = 0 ∨ n = 1 ∨ n = 2) as [->|[->| ->]] by lia; by rewrite andb_false_r.
Qed.

Lemma deleted_status_ok i : status_ok (status (deleted i)).
Proof. unfold status_ok. rewrite deleted_level. lia. Qed.

(** The nodes that are not deleted. *)
Definition live m : gset K := dom (filter (λ ki, isDeleted ki.2 = false) m).

Lemma elem_of_live m x : x ∈ live m ↔ ∃ i, m !! x = Some i ∧ isDeleted i = false.
Proof.
  unfold live. rewrite elem_of_dom. unfold is_Some. setoid_rewrite map_lookup_filter_Some. done.
Qed.

Definition parent m x : option K := m !! x ≫= pprev.

Lemma live_delete m k i : m !! k = Some i → live (<[k := deleted i]> m) = live m ∖ {[k]}.
Proof.
  intros Hk. apply set_eq. intros x. rewrite elem_of_difference, !elem_of_live, elem_of_singleton.
  destruct (decide (x = k)) as [->|Hne].
  - rewrite lookup_insert_eq. split; [|tauto].
    intros (j & [= <-] & Hd). by rewrite deleted_isDeleted in Hd.
  - rewrite lookup_insert_ne by done. tauto.
Qed.

Lemma below_lookup m L a x : below (parent m) L a x → x = a ∨ ∃ p, parent m x = Some p ∧ below (parent m) L a p.
Proof. destruct 1; eauto. Qed.

Lemma below_height m L a x i j : wf_store m → below (parent m) L a x → m !! a = Some i →
  m !! x = Some j → height i <= height j.
Proof.
  intros W Hb Hi. revert j. induction Hb as [|p x Hb IH Hp Hx]; intros j Hj.
  { assert (i = j) as -> by congruence. lia. }
  unfold parent in Hp. rewrite Hj in Hp. cbn in Hp.
  destruct (wf_prev m W x j p) as (jp & Hjp & Hh & _); [done..|]. specialize (IH jp Hjp). lia.
Qed.

Section traversal.
Variables (t0 : tree) (top prev : K) (itop : index_t).
Hypotheses (Hinv : tree_inv t0) (Htop : blocks_ t0 !! top = Some itop)
  (Hprev : pprev itop = Some prev).
Notation m0 := (blocks_ t0).
Notation under := (below (parent m0) (live m0) top).

Lemma no_cycle_top x : under x → parent m0 top ≠ Some x.
Proof.
  intros Hb Hp. unfold parent in Hp. rewrite Htop in Hp. cbn in Hp.
  destruct (wf_prev m0 (so_wf _ (ti_store _ Hinv)) top itop x) as (j & Hj & Hh & _); [done..|].
  pose proof (below_height _ _ _ _ _ _ (so_wf _ (ti_store _ Hinv)) Hb Htop Hj). lia.
Qed.

(** The nodes of the subtree that are gone, all other nodes as they were. *)
Definition removed_rel m : Prop := ∀ x, match m0 !! x with
  | None => m !! x = None
  | Some i => m !! x = Some i ∨ (m !! x = Some (deleted i) ∧ under x ∧ isDeleted i = false)
  end.

Record remove_J (t : tree) : Prop := {
  rm_rel : removed_rel (blocks_ t);
  rm_ok : store_ok (blocks_ t);
  rm_rest : same_rest t0 (with_payloads (finalizedPayloadsIndex_ t0) (payloadsIndex_ t0) t);
  rm_fpl : finalizedPayloadsIndex_ t = finalizedPayloadsIndex_ t0;
  rm_child : ∀ x, child_flag_ok (blocks_ t) x;
  rm_sound : tips_sound (blocks_ t) (tips_ t);
  rm_complete : ∀ x, ¬ under x → x ≠ prev → is_valid_tip (blocks_ t) x → x ∈ tips_ t
}.

Lemma removed_lookup m x j : removed_rel m → m !! x = Some j →
  ∃ i, m0 !! x = Some i ∧ same_links i j ∧ isFailed j = isFailed i ∧
    (isDeleted j = false → j = i).
Proof.
  intros Hr Hx. specialize (Hr x). destruct (m0 !! x) as [i|]; [|congruence].
  exists i. split; [done|]. destruct Hr as [Hr|(Hr & _)]; assert (Hj := Hr); rewrite Hx in Hj;
    injection Hj as ->; [done|].
  rewrite deleted_isFailed, deleted_isDeleted. split_and!; done.
Qed.

Lemma remove_children t k : remove_J t → k ∈ live (blocks_ t) →
  ∃ i, blocks_ t !! k = Some i ∧
    (∀ c, c ∈ pnext i → ∃ j, blocks_ t !! c = Some j ∧ parent m0 c = Some k ∧
      (negb (isDeleted j) = true ↔ c ∈ live (blocks_ t))) ∧
    (∀ c, c ∈ live (blocks_ t) → parent m0 c = Some k → c ∈ pnext i).
Proof.
  intros [Hr Hok _ _ _ _ _] (i & Hi & _)%elem_of_live. exists i. split; [done|]. split.
  - intros c Hc. destruct (wf_next _ (so_wf _ Hok) k i c) as (j & Hj & Hp); [done..|].
    exists j. split; [done|]. destruct (removed_lookup _ c j Hr Hj) as (j0 & Hj0 & (_ & Ep & _) & _).
    split; [unfold parent; rewrite Hj0; cbn; congruence|].
    rewrite elem_of_live, negb_true_iff. naive_solver.
  - intros c (j & Hj & _)%elem_of_live Hp.
    destruct (removed_lookup _ c j Hr Hj) as (j0 & Hj0 & (_ & Ep & _) & _).
    unfold parent in Hp. rewrite Hj0 in Hp. cbn in Hp.
    destruct (wf_prev _ (so_wf _ Hok) c j k) as (i' & Hi' & _ & Hin); [done|congruence|].
    congruence.
Qed.

Lemma remove_visit t k : remove_J t → live (blocks_ t) ⊆ live m0 → k ∈ live (blocks_ t) →
  under k → (∀ c, c ∈ live (blocks_ t) → parent m0 c ≠ Some k) →
  ∃ t', visit_remove k t = Ok t' ∧ remove_J t' ∧ live (blocks_ t') = live (blocks_ t) ∖ {[k]}.
Proof.
  intros [Hr Hok Hrest Hfpl Hch Hs Hc] _ (i & Hi & Hd)%elem_of_live Hk Hnc.
  destruct (removed_lookup _ k i Hr Hi) as (i0 & Hi0 & _ & _ & Heq).
  specialize (Heq Hd). subst i0. unfold visit_remove.
  destruct (onBeforeLeafRemoved_frame k t) as [pl ->]; [eauto|]. cbn [mbind result_bind].
  cbn [with_payloads with_tips blocks_]. rewrite (deref_eq _ _ _ Hi). cbn [mbind result_bind].
  rewrite deleteTemporarily_eq by done. cbn [mbind result_bind].
  eexists. split; [done|]. split; [|by apply live_delete].
  assert (∀ x j, <[k:=deleted i]> (blocks_ t) !! x = Some j → can_tip j = true →
    x ≠ k ∧ blocks_ t !! x = Some j) as Hct.
  { intros x j. destruct (decide (k = x)) as [<-|].
    - rewrite lookup_insert_eq. intros [= <-]. unfold can_tip. by rewrite deleted_isDeleted.
    - rewrite lookup_insert_ne by done. done. }
  constructor; cbn [with_blocks with_tips with_payloads blocks_ tips_ finalizedPayloadsIndex_]; try done.
  - intros x. specialize (Hr x). destruct (m0 !! x) as [ix|] eqn:Ex.
    + destruct (decide (k = x)) as [<-|].
      * assert (ix = i) as -> by congruence. rewrite lookup_insert_eq. right. by split_and!.
      * by rewrite lookup_insert_ne.
    + rewrite lookup_insert_ne; [done|]. intros ->. congruence.
  - apply (store_ok_links _ k i); [done|done|apply deleted_links|apply deleted_status_ok].
  - intros x. destruct (decide (x = k)) as [->|Hxk].
    + intros ix px jx. rewrite lookup_insert_eq. intros [= <-] Hpx Hjx.
      rewrite deleted_bit by lia. cbn [Z.eqb Pos.eqb orb]. rewrite andb_true_r, orb_false_r.
      change (pprev i = Some px) in Hpx.
      pose proof (prev_ne _ _ _ _ (so_wf _ Hok) Hi Hpx). rewrite lookup_insert_ne in Hjx by done.
      by apply (Hch k i px jx).
    + apply (child_flag_links _ k i); [apply Hok|done|apply deleted_links|done| |apply Hch].
      left. apply deleted_isFailed.
  - intros x [Hx Hxk]%elem_of_difference. destruct (Hs x Hx) as (j & Hj & Hcj & Hall).
    exists j. rewrite lookup_insert_ne by set_solver. split; [done|]. split; [done|].
    intros c jc Hcin Hjc. destruct (can_tip jc) eqn:Ec; [|done].
    destruct (Hct c jc Hjc Ec) as [_ Hjc']. rewrite <- Ec. by apply (Hall c).
  - intros x Hx Hxp (j & Hj & Hcj & Hall). destruct (Hct x j Hj Hcj) as [Hxk Hj'].
    apply elem_of_difference. split; [|set_solver]. apply Hc; [done|done|].
    exists j. split; [done|]. split; [done|]. intros c jc Hcin Hjc.
    destruct (decide (c = k)) as [->|Hck].
    + (* [x] is the predecessor of [k] *)
      destruct (wf_next _ (so_wf _ Hok) x j k) as (jk & Hjk & Hpk); [done..|].
      assert (jk = i) as -> by congruence. exfalso.
      destruct (below_lookup _ _ _ _ Hk) as [->|(q & Hq & Hbq)].
      * congruence.
      * unfold parent in Hq. rewrite Hi0 in Hq. cbn in Hq. congruence.
    + apply (Hall c); [done|]. by rewrite lookup_insert_ne.
Qed.

Lemma removal_ok : isDeleted itop = false →
  ∃ t', (t ← forEachNodePostorder blocks_ visit_remove (λ i, negb (isDeleted i)) top t0;
         tryAddTip prev t) = Ok t' ∧
    tree_inv t' ∧ same_rest t0 (with_payloads (finalizedPayloadsIndex_ t0) (payloadsIndex_ t0) t') ∧
    removed_rel (blocks_ t') ∧
    ∀ x i, m0 !! x = Some i →
      (under x → blocks_ t' !! x = Some (deleted i)) ∧
      (¬ under x → blocks_ t' !! x = Some i).
Proof.
  intros Hd. pose proof Hinv as [Hok0 Hch0 Htips0].
  assert (top ∈ live m0) as Htl by (apply elem_of_live; eauto).
  destruct (forEachNodePostorder_inv blocks_ visit_remove (λ i, negb (isDeleted i)) remove_J
    (λ t, live (blocks_ t)) (parent m0)) with (L0 := live m0) (top := top) (s := t0)
    as (t1 & Ht1 & HJ1 & Hsub & Hlive1).
  { intros t k HJ Hk. by apply remove_children. }
  { intros t k HJ Hsub Hk Hb Hnc. by apply remove_visit. }
  { intros k. apply no_cycle_top. }
  { constructor; [|done|done|done|done| |].
    - intros x. destruct (m0 !! x); [by left|done].
    - intros x. apply Htips0.
    - intros x _ _. apply Htips0. }
  { done. } { done. }
  { rewrite <- size_dom. apply subseteq_size. intros x (i & Hi & _)%elem_of_live.
    apply elem_of_dom. eauto. }
  rewrite Ht1. cbn [mbind result_bind]. destruct HJ1 as [Hr Hok1 Hrest Hfpl Hch1 Hs1 Hc1].
  assert (∀ x i, m0 !! x = Some i →
    (under x → blocks_ t1 !! x = Some (deleted i)) ∧ (¬ under x → blocks_ t1 !! x = Some i)) as Hfin.
  { intros x i Hx. pose proof (Hr x) as Hrx. rewrite Hx in Hrx. split.
    - intros Hb. assert (x ∈ live m0) as Hxl by (by eapply below_elem).
      destruct Hrx as [Hrx|(Hrx & _)]; [|done]. exfalso. apply (Hlive1 x Hxl); [|done].
      apply elem_of_live. apply elem_of_live in Hxl as (i' & Hi' & Hdi).
      exists i. split; [done|congruence].
    - intros Hnb. destruct Hrx as [Hrx|(_ & Hb & _)]; [done|]. by destruct Hnb. }
  destruct (wf_prev m0 (so_wf _ Hok0) top itop prev) as (jp & Hjp & Hhp & _); [done..|].
  assert (¬ under prev) as Hnp by (intros Hb; apply (no_cycle_top prev Hb); unfold parent; by rewrite Htop).
  assert (blocks_ t1 !! prev = Some jp) as Hjp1 by by apply Hfin.
  assert (∀ x, under x → ¬ is_valid_tip (blocks_ t1) x) as Hnv.
  { intros x Hb (j & Hj & Hcj & _). assert (x ∈ live m0) as Hxl by (by eapply below_elem).
    apply elem_of_live in Hxl as (i & Hi & _). destruct (Hfin x i Hi) as [Hfx _].
    specialize (Hfx Hb). assert (j = deleted i) as -> by congruence. unfold can_tip in Hcj.
    by rewrite deleted_isDeleted in Hcj. }
  assert (∀ x, x ≠ prev → is_valid_tip (blocks_ t1) x → x ∈ tips_ t1) as Hc1'.
  { intros x Hx Hv. apply Hc1; [|done|done]. intros Hb. by apply (Hnv x). }
  destruct (tryAddTip_spec t1 prev jp Hok1 Hjp1) as (t2 & Ht2 & Et2 & Htips2).
  - intros x Hx _. split; [apply Hs1|auto].
  - intros Hx. destruct (Hs1 prev Hx) as (j & Hj & Hv). congruence.
  - intros q Hq Hv. apply Hc1'; [|done]. intros ->.
    by eapply prev_ne; [apply Hok1|exact Hjp1|exact Hq|].
  - intros q _ Hq. left. by apply Hs1.
  - exists t2. rewrite Ht2, Et2. cbn [with_tips blocks_]. split_and!; [done| |done|done|done].
    constructor; [done|done|done].
Qed.
End traversal.
End remove.

(** ** Properties *)
Section props.
Context {K H B A P Ext : Type} `{Countable K, Countable H, Countable P, BlockAddon A}.
Context `{HK : !TreeHooks K H B A P Ext, HR : !RemovalHook K H B A P Ext}.
Implicit Types (i j : BlockIndex K B A) (t : BaseBlockTree K H B A P Ext) (k p x : K).

(** C15: Removing a subtree off the active chain succeeds, keeps the
    invariant, and deletes exactly the blocks that are connected to its root
    by blocks that are not deleted, keeping their failure flags; every other
    block is unchanged. *)
Theorem removeSubtree_correct t k i p : tree_inv t → blocks_ t !! k = Some i →
  pprev i = Some p → isDeleted i = false →
  contains (blocks_ t) (activeChain_ t) (Some k) = Ok false →
  ∃ t', removeSubtree k t = Ok t' ∧ tree_inv t' ∧
    activeChain_ t' = activeChain_ t ∧ appliedBlockCount t' = appliedBlockCount t ∧
    ∀ x j, blocks_ t !! x = Some j →
      (below (parent (blocks_ t)) (live (blocks_ t)) k x → ∃ j', blocks_ t' !! x = Some j' ∧
        isDeleted j' = true ∧ isFailed j' = isFailed j ∧ same_links j j') ∧
      (¬ below (parent (blocks_ t)) (live (blocks_ t)) k x → blocks_ t' !! x = Some j).
Proof.
  intros Hinv Hk Hp Hd Hfork. unfold removeSubtree. rewrite (deref_eq _ _ _ Hk).
  cbn [mbind result_bind]. rewrite Hp, Hfork. cbn [mbind result_bind].
  destruct (removal_ok t k p i Hinv Hk Hp Hd) as (t' & Ht' & Hinv' & (Hr1 & Hr2 & _) & _ & Hall).
  apply bind_Ok in Ht' as (t1 & Ht1 & Ht'). rewrite Ht1. cbn [mbind result_bind]. rewrite Ht'.
  cbn [mbind result_bind]. exists t'. split_and!; [done|done|by symmetry..|].
  intros x j Hx. destruct (Hall x j Hx) as [Hb Hnb]. split; [|done]. intros Hbx.
  exists (deleted j). split_and!; [auto|apply deleted_isDeleted|apply deleted_isFailed|apply deleted_links].
Qed.
End props.

#[local] Existing Instance Example_base.unit_addon.
#[local] Existing Instance Example_base.no_hooks.
#[local] Instance no_hooks_removal : RemovalHook Z Z unit unit Z unit.
Proof. intros k t _. exists (payloadsIndex_ t). by destruct t. Defined.

Lemma removeSubtree_correct_witness :
  ∃ t', removeSubtree 4 Example_base.t0 = Ok t' ∧ tree_inv t' ∧
    activeChain_ t' = activeChain_ Example_base.t0 ∧
    appliedBlockCount t' = appliedBlockCount Example_base.t0 ∧
    ∀ x j, blocks_ Example_base.t0 !! x = Some j →
      (below (parent (blocks_ Example_base.t0)) (live (blocks_ Example_base.t0)) 4 x →
        ∃ j', blocks_ t' !! x = Some j' ∧
          isDeleted j' = true ∧ isFailed j' = isFailed j ∧ same_links j j') ∧
      (¬ below (parent (blocks_ Example_base.t0)) (live (blocks_ Example_base.t0)) 4 x →
        blocks_ t' !! x = Some j).
Proof.
  apply (removeSubtree_correct Example_base.t0 4 Example_base.node4 1);
    [apply Example_base.t0_inv|reflexivity..].
Defined.
