(* ===== verification/TreeStorage.v ===== *)
(** * Loading stored blocks and finalization
    ([blockchain/base_block_tree.hpp]: [loadBlockInner], [deallocateBlock],
    [deallocateTree], [finalizeBlockImpl], [finalizeBlocks]) *)
From S2P Require Import Prelude BlockIndex Chain TreeAlgo PayloadsIndex BaseTree.

Section ops.
Context {K H B A P Ext SA : Type} `{Countable K, Countable H, Countable P, EqDecision B}.
Context `{BlockAddon A, PayloadIds A P, BlockHash B H, BlockHeader B H K, StoredAddon A SA}.
Notation tree := (BaseBlockTree K H B A P Ext).
Notation index_t := (BlockIndex K B A).
Context `{HK : !TreeHooks K H B A P Ext}.
Variables (newAddon : A) (newHeader : B).

(** ** Loading *)
(** [BlockIndex::mergeFrom], then the in-memory fields are cleared and the
    links recovered. *)
Definition mergeFrom (index : StoredBlockIndex B SA) (i : index_t) : index_t :=
  let i := setHeight (stored_height index) i in
  let i := setHeader (stored_header index) i in
  let i := setStatus (stored_status index) i in
  with_addon (toInmem (stored_addon index) (addon i)) i.

Definition loadFields (index : StoredBlockIndex B SA) (i : index_t) : index_t :=
  let next := pnext i in
  let prev := pprev i in
  let i := mergeFrom index i in
  with_links prev next (with_addon (setNullInmemFields (addon i)) i).

(** Find or create the node of a loaded block. *)
Definition loadTarget (index : StoredBlockIndex B SA) (connectForward fast_load : bool)
    (root : K) (t : tree) : result tree :=
  let hash := hash_key (stored_header index) in
  match blocks_ t !! hash with
  | Some i =>
    if isDeleted i then i ← restore i; Ok (with_blocks <[hash := i]> t) else Ok t
  | None =>
    match getBlockIndex t (getPreviousBlock (stored_header index)) with
    | None =>
      r ← deref (blocks_ t) root;
      (if negb fast_load then
         if connectForward then invalid "bad-prev"
         else if negb (bool_decide (getPreviousBlock (header r) = hash)) then invalid "bad-block-hash"
         else Ok tt
       else Ok tt);;
      t ← createBootstrapBlockIndex hash (stored_height index) newHeader newAddon t;
      i ← deref (blocks_ t) hash;
      i ← restore i;
      let t := with_blocks <[hash := with_links (pprev i) ({[root]} ∪ pnext i) i]> t in
      r ← deref (blocks_ t) root;
      vassert (isRoot r) "root";;
      modify root (λ r, with_links (Some hash) (pnext r) r) t
    | Some prev =>
      t ← createBlockIndex hash prev newHeader newAddon t;
      i ← deref (blocks_ t) hash;
      i ← restore i;
      Ok (with_blocks <[hash := i]> t)
    end
  end.

Definition loadBlockInner (index : StoredBlockIndex B SA) (connectForward fast_load : bool)
    (t : tree) : result tree :=
  boot ← isBootstrapped t;
  vassert boot "should be bootstrapped";;
  vassert (negb (isLoaded_ t)) "tree must not be loaded";;
  let t := with_loading true (isLoaded_ t) t in
  root ← getRoot t;
  r ← deref (blocks_ t) root;
  (if fast_load then Ok tt
   else if connectForward then
     if stored_height index <? height r then invalid "bad-height" else Ok tt
   else if negb (stored_height index + 1 =? height r) then invalid "bad-height" else Ok tt);;
  let fullHash := getHash (stored_header index) in
  (if negb fast_load && (stored_height index =? height r) &&
      negb (bool_decide (fullHash = getHash (header r)))
   then invalid "bad-root" else Ok tt);;
  let hash := hash_key (stored_header index) in
  (match blocks_ t !! hash with
   | Some current =>
     if negb fast_load && negb (isDeleted current) && negb (hasFlags current BLOCK_BOOTSTRAP)
     then invalid "block-exists" else Ok tt
   | None => Ok tt
   end);;
  t ← loadTarget index connectForward fast_load root t;
  current ← deref (blocks_ t) hash;
  vassert (negb (isDeleted current)) "deleted";;
  t ← modify hash (loadFields index) t;
  current ← deref (blocks_ t) hash;
  (match pprev current with
   | Some prev =>
     if negb fast_load then
       p ← deref (blocks_ t) prev;
       if negb (height current =? height p + 1) then invalid "bad-height" else Ok tt
     else Ok tt
   | None => Ok tt
   end);;
  t ← (if isRoot current && negb (bool_decide (chain_first (activeChain_ t) = Some hash)) &&
          negb connectForward
       then c ← prependRoot (blocks_ t) (activeChain_ t) hash; Ok (with_chain c t)
       else Ok t);
  current ← deref (blocks_ t) hash;
  vassert (negb (isDeleted current)) "deleted";;
  r ← node_raiseValidity hash BLOCK_VALID_TREE t;
  t ← modify hash unsetDirty r.1;
  tryAddTip hash t.

Definition base_loadBlockForward (index : StoredBlockIndex B SA) (fast_load : bool) (t : tree)
    : result tree := loadBlockInner index true fast_load t.

(** ** Deallocation *)
(** [BlockIndex::disconnectFromPrev] *)
Definition disconnectFromPrev (k : K) (t : tree) : result tree :=
  i ← deref (blocks_ t) k;
  match pprev i with
  | None => Ok t
  | Some p =>
    j ← deref (blocks_ t) p;
    vassert (bool_decide (k ∈ pnext j)) "not a child of the previous block";;
    t ← modify p (λ j, with_links (pprev j) (pnext j ∖ {[k]}) j) t;
    modify k (λ i, with_links None (pnext i) i) t
  end.

(** The last assertion is the one of [~BlockIndex]. *)
Definition deallocateBlock (block : K) (t : tree) : result tree :=
  i ← deref (blocks_ t) block;
  vassert (isDeleted i) "cannot erase a block that is not deleted";;
  vassert (isTip i) "cannot erase a block that has successors";;
  let t := emit (onBlockBeforeDeallocated block) t in
  let shortHash := hash_key (header i) in
  match blocks_ t !! shortHash with
  | None => Assert "block is not in the store"
  | Some d =>
    vassert (isTip d && isDeleted d && isRoot d) "~BlockIndex";;
    Ok (with_blocks (delete shortHash) t)
  end.

Definition visit_deallocate (next : K) (t : tree) : result tree :=
  i ← deref (blocks_ t) next;
  t ← (if negb (isDeleted i) then
         t ← onBeforeLeafRemoved next t;
         i ← deref (blocks_ t) next;
         i ← deleteTemporarily i;
         Ok (with_blocks <[next := i]> t)
       else Ok t);
  t ← disconnectFromPrev next t;
  deallocateBlock next t.

(** [while (index != nullptr && !index->isRoot()) index = index->pprev;] *)
Fixpoint oldestAncestor (fuel : nat) (m : gmap K index_t) (index : K) : result K :=
  i ← deref m index;
  match pprev i with
  | None => Ok index
  | Some p => match fuel with O => OutOfFuel | S fuel => oldestAncestor fuel m p end
  end.

Definition deallocateTree (toDelete : K) (t : tree) : result tree :=
  i ← deref (blocks_ t) toDelete;
  index ← oldestAncestor (Z.to_nat (height i)) (blocks_ t) toDelete;
  forEachNodePostorder blocks_ visit_deallocate (λ _, true) index t.

(** [~BaseBlockTree] *)
Definition destroyTree (t : tree) : result tree :=
  boot ← isBootstrapped t;
  if (boot : bool) then root ← getRoot t; deallocateTree root t else Ok t.

(** ** Finalization *)
(** The lowest dirty block among [walkBlock] and its predecessors, or [final]. *)
Fixpoint lowestDirty (fuel : nat) (m : gmap K index_t) (final : K) (walkBlock : option K)
    : result K :=
  match walkBlock with
  | None => Ok final
  | Some w =>
    i ← deref m w;
    let final := if isDirty i then w else final in
    match fuel with O => OutOfFuel | S fuel => lowestDirty fuel m final (pprev i) end
  end.

(** The walk from an outdated tip to the active chain; the loop tests [tip]
    instead of [walkBlock], so a tip that is not connected to the active
    chain is walked beyond its root. *)
Fixpoint walkToActive (fuel : nat) (m : gmap K index_t) (c : Chain K) (newFinalized : bool)
    (walkBlock : option K) : result (bool * option K) :=
  b ← contains m c walkBlock;
  if (b : bool) then Ok (newFinalized, walkBlock)
  else
    match walkBlock with
    | None => Undef "null pointer dereference"
    | Some w =>
      i ← deref m w;
      match fuel with
      | O => OutOfFuel
      | S fuel => walkToActive fuel m c (newFinalized || isDirty i) (pprev i)
      end
    end.

(** The predicate passed to [erase_if]; the state is the final block and the
    tips that are kept. *)
Definition eraseOutdated (t : tree) (s : K * gset K) (tip : K) : result (K * gset K) :=
  onChain ← contains (blocks_ t) (activeChain_ t) (Some tip);
  if (onChain : bool) then Ok s
  else
    outdated ← isBlockOutdated 1 (blocks_ t) s.1 tip;
    if (outdated : bool) then
      i ← deref (blocks_ t) tip;
      r ← walkToActive (S (Z.to_nat (height i))) (blocks_ t) (activeChain_ t) false (Some tip);
      match r with
      | (true, Some w) => Ok (w, s.2 ∖ {[tip]})
      | (true, None) => Undef "null pointer dereference"
      | (false, _) => Ok (s.1, s.2 ∖ {[tip]})
      end
    else Ok s.

(** Mark a block and its predecessors as finalized. *)
Fixpoint markFinalized (fuel : nat) (ptr : option K) (t : tree) : result tree :=
  match ptr with
  | None => Ok t
  | Some k =>
    i ← deref (blocks_ t) k;
    if finalized i then Ok t
    else
      let i := with_finalized true i in
      let t := with_blocks <[k := i]> t in
      fpl ← fpl_addBlock i (finalizedPayloadsIndex_ t);
      let t := with_payloads fpl (payloadsIndex_ t) t in
      match fuel with O => OutOfFuel | S fuel => markFinalized fuel (pprev i) t end
  end.

(** Disconnect the new root from the blocks before it and deallocate those,
    then the blocks parallel to the final block. *)
Definition cutBelow (newRoot finalizedBlock : K) (t : tree) : result tree :=
  i ← deref (blocks_ t) newRoot;
  match pprev i with
  | None => Ok t
  | Some rootPrev =>
    t ← modify rootPrev (λ j, with_links (pprev j) (pnext j ∖ {[newRoot]}) j) t;
    t ← modify newRoot (λ i, with_links None (pnext i) i) t;
    t ← deallocateTree rootPrev t;
    f ← deref (blocks_ t) finalizedBlock;
    match pprev f with
    | None => Ok t
    | Some fp =>
      j ← deref (blocks_ t) fp;
      foldM (λ t par, t ← disconnectFromPrev par t; deallocateTree par t)
        (elements (pnext j ∖ {[finalizedBlock]})) t
    end
  end.

Definition finalizeBlockImpl (index : K) (preserveBlocksBehindFinal : Z) (t : tree) : result tree :=
  vassert (appliedBlockCount t =? blocksCount (activeChain_ t)) "applied block count";;
  root ← getRoot t;
  if bool_decide (index = root) then
    i ← deref (blocks_ t) index;
    if finalized i then Ok t
    else
      let i := with_finalized true i in
      let t := with_blocks <[index := i]> t in
      fpl ← fpl_addBlock i (finalizedPayloadsIndex_ t);
      Ok (with_payloads fpl (payloadsIndex_ t) t)
  else
    onChain ← contains (blocks_ t) (activeChain_ t) (Some index);
    vassert onChain "final block is not on the active chain";;
    i ← deref (blocks_ t) index;
    finalizedBlock ← lowestDirty (S (Z.to_nat (height i))) (blocks_ t) index (Some index);
    s ← foldM (eraseOutdated t) (elements (tips_ t)) (finalizedBlock, tips_ t);
    let finalizedBlock := s.1 in
    let t := with_tips (λ _, s.2) t in
    f ← deref (blocks_ t) finalizedBlock;
    firstBlockHeight ← cki32 (height f - preserveBlocksBehindFinal);
    root ← getRoot t;
    r ← deref (blocks_ t) root;
    let rootBlockHeight := height r in
    let firstBlockHeight := Z.max rootBlockHeight firstBlockHeight in
    match chain_at (activeChain_ t) firstBlockHeight with
    | None => Assert "no new root"
    | Some newRoot =>
      t ← cutBelow newRoot finalizedBlock t;
      c ← newChain (blocks_ t) firstBlockHeight (chain_tip (activeChain_ t));
      let t := with_applied (blocksCount c) (with_chain c t) in
      f ← deref (blocks_ t) finalizedBlock;
      markFinalized (S (Z.to_nat (height f))) (Some finalizedBlock) t
    end.

Definition base_finalizeBlocks (maxReorgBlocks preserveBlocksBehindFinal maxFinalizeBlockHeight : Z)
    (t : tree) : result tree :=
  match chain_tip (activeChain_ t) with
  | None => Assert "tree must be bootstrapped"
  | Some tip =>
    vassert (negb (isLoadingBlocks_ t)) "loading blocks";;
    i ← deref (blocks_ t) tip;
    if height i <? maxReorgBlocks then Ok t
    else
      firstBlockHeight ← cki32 (height i - maxReorgBlocks);
      root ← getRoot t;
      r ← deref (blocks_ t) root;
      let firstBlockHeight := Z.max (height r) firstBlockHeight in
      match chain_at (activeChain_ t) firstBlockHeight with
      | None => Assert "no block to finalize"
      | Some finalizedIndex =>
        f ← deref (blocks_ t) finalizedIndex;
        if maxFinalizeBlockHeight <=? height f then Ok t
        else finalizeBlockImpl finalizedIndex preserveBlocksBehindFinal t
      end
  end.
End ops.
