(* ===== verification/BlockTree.v ===== *)
(** * Trees with a proof of work ([blockchain/blocktree.hpp])

    [BlockTree] adds validation of headers, cumulative work and the choice of
    the best chain to [BaseBlockTree].  The overloaded functions it calls
    ([checkBlock], [contextuallyCheckBlock], [getBlockProof] and the chain
    parameters) are the class [BlockRules]. *)
From S2P Require Import Prelude BlockIndex Chain TreeAlgo PayloadsIndex BaseTree TreeStorage.

(** [chainWork] is an [ArithUint256]; [setIsBootstrap(true)] and
    [clearBlockOfProofEndorsement] are addon methods. *)
Class WorkAddon (A : Type) := {
  chainWork : A → Z;
  set_chainWork : Z → A → A;
  setIsBootstrap : A → A;
  clearBlockOfProofEndorsement : A → A
}.

Class WorkAddonLaws (A : Type) `{WorkAddon A} := {
  chainWork_set : ∀ w a, chainWork (set_chainWork w a) = w;
  chainWork_set_set : ∀ w w' a, set_chainWork w (set_chainWork w' a) = set_chainWork w a;
  chainWork_clear : ∀ a, chainWork (clearBlockOfProofEndorsement a) = chainWork a;
  chainWork_bootstrap : ∀ a, chainWork (setIsBootstrap a) = chainWork a
}.

Class BlockRules (K B A : Type) `{Countable K} := {
  block_name : string;
  checkBlock : B → result unit;
  contextuallyCheckBlock : gmap K (BlockIndex K B A) → K → B → result unit;
  getBlockProof : B → Z;
  numBlocksForBootstrap : Z;
  getOldBlocksWindow : Z;
  getMaxReorgBlocks : Z;
  preserveBlocksBehindFinal : Z
}.

(** A [bool] function with a [ValidationState]: the trace of a failure, or the
    result. *)
Definition catch {X} (m : result X) : result (list string + X) :=
  match m with
  | Ok a => Ok (inr a)
  | Invalid t => Ok (inl t)
  | Assert w => Assert w
  | Throw w => Throw w
  | Undef w => Undef w
  | OutOfFuel => OutOfFuel
  end.

Section ops.
Context {K H B A P Ext SA : Type} `{Countable K, Countable H, Countable P, EqDecision B}.
Context `{BlockAddon A, PayloadIds A P, BlockHash B H, BlockHeader B H K, StoredAddon A SA}.
Context `{WorkAddon A, !BlockRules K B A}.
Notation tree := (BaseBlockTree K H B A P Ext).
Notation index_t := (BlockIndex K B A).
Variables (newAddon : A) (newHeader : B).

Definition work_of (i : index_t) : Z := chainWork (addon i).
Definition set_work (w : Z) (i : index_t) : index_t := with_addon (set_chainWork w (addon i)) i.

(** [ArithUint256] addition. *)
Definition add256 (a b : Z) : Z := wrapU 256 (a + b).

(** [BlockTree::onBlockInserted]; also the recovery of the work of a loaded
    block. *)
Definition updateChainWork (newIndex : K) (t : tree) : result tree :=
  i ← deref (blocks_ t) newIndex;
  let i := set_work (getBlockProof (header i)) i in
  i ← match pprev i with
      | None => Ok i
      | Some p => j ← deref (blocks_ t) p; Ok (set_work (add256 (work_of i) (work_of j)) i)
      end;
  Ok (with_blocks <[newIndex := i]> t).

(** [BlockTree::determineBestChain]; the result of [setState] is ignored. *)
Definition work_determineBestChain (setState : K → tree → result (tree * bool)) (candidate : K)
    (t : tree) : result tree :=
  match chain_tip (activeChain_ t) with
  | None => Assert "must be bootstrapped"
  | Some bestTip =>
    if bool_decide (bestTip = candidate) then Ok t
    else
      c ← deref (blocks_ t) candidate;
      v ← isValid BLOCK_VALID_TREE c;
      if negb v then Ok t
      else
        b ← deref (blocks_ t) bestTip;
        if work_of b <? work_of c then r ← setState candidate t; Ok r.1 else Ok t
  end.

Context `{HK : !TreeHooks K H B A P Ext}.

(** ** Acceptance of a header *)
Definition validateAndAddBlock (block : B) (shouldContextuallyCheck : bool) (t : tree)
    : result (tree * (list string + K)) :=
  check ← catch (checkBlock block);
  match check with
  | inl e => Ok (t, inl (e ++ [(block_name +:+ "-check-block")%string]))
  | inr _ =>
    match getBlockIndex t (getPreviousBlock block) with
    | None => Ok (t, inl [(block_name +:+ "-bad-prev-block")%string])
    | Some prev =>
      check ← catch (if shouldContextuallyCheck then contextuallyCheckBlock (blocks_ t) prev block
                     else Ok tt);
      match check with
      | inl e => Ok (t, inl (e ++ [(block_name +:+ "-contextually-check-block")%string]))
      | inr _ =>
        r ← insertBlockHeader newAddon newHeader block 0 t;
        let '(t, index) := r in
        r ← node_raiseValidity index BLOCK_CONNECTED t;
        let t := r.1 in
        p ← deref (blocks_ t) prev;
        v ← isValid BLOCK_VALID_TREE p;
        if negb v then
          t ← modify index (setFlag BLOCK_FAILED_CHILD) t;
          Ok (t, inl [(block_name +:+ "-bad-chain")%string])
        else Ok (t, inr index)
      end
    end
  end.

Definition acceptBlockHeaderImpl (block : B) (shouldContextuallyCheck : bool) (t : tree)
    : result (tree * (list string + K)) :=
  r ← validateAndAddBlock block shouldContextuallyCheck t;
  match r with
  | (t, inl e) => Ok (t, inl e)
  | (t, inr index) =>
    t ← (if shouldContextuallyCheck then Ok t else modify index (setFlag BLOCK_BOOTSTRAP) t);
    t ← tryAddTip index t;
    t ← determineBestChain index t;
    Ok (t, inr index)
  end.

Definition acceptBlockHeader (block : B) (t : tree) : result (tree * (list string + K)) :=
  acceptBlockHeaderImpl block true t.

(** ** Bootstrap *)
Definition bootstrap (height : Z) (block : B) (t : tree) : result tree :=
  check ← catch (checkBlock block);
  vassert (match check with inl _ => false | inr _ => true end) "found statelessly invalid bootstrap block";;
  r ← insertBlockHeader newAddon newHeader block height t;
  let '(t, index) := r in
  t ← modify index (setHeight height) t;
  c ← newChain (blocks_ t) height (Some index);
  let t := with_chain c t in
  t ← modify index (λ i, setDirty (with_addon (setIsBootstrap (addon i)) i)) t;
  i ← deref (blocks_ t) index;
  vassert (finalized i) "bootstrap block is not finalized";;
  boot ← isBootstrapped t;
  vassert boot "bootstrapped";;
  vassert (if getBlockIndex t (hash_key (header i)) then true else false) "block not found";;
  t ← tryAddTip index t;
  t ← modify index (setFlag BLOCK_ACTIVE) t;
  r ← node_raiseValidity index BLOCK_CAN_BE_APPLIED t;
  vassert r.2 "validity was not raised";;
  t ← modify index (setFlag BLOCK_BOOTSTRAP) r.1;
  Ok (with_applied 1 t).

Definition assertNotStarted (t : tree) : result unit :=
  boot ← isBootstrapped t;
  vassert (negb boot) "already bootstrapped";;
  vassert (negb (isLoaded_ t)) "loaded";;
  vassert (negb (isLoadingBlocks_ t)) "loading blocks".

Definition bootstrapWithGenesis (block : B) (t : tree) : result tree :=
  assertNotStarted t;;
  t ← bootstrap 0 block t;
  Ok (with_loading false (isLoaded_ t) t).

Definition bootstrapWithChain (startHeight : Z) (chain : list B) (t : tree) : result tree :=
  assertNotStarted t;;
  match chain with
  | [] => Assert "bootstrap chain must not be empty"
  | genesis :: rest =>
    vassert (numBlocksForBootstrap <=? Z.of_nat (length chain)) "bootstrap chain is too small";;
    t ← bootstrap startHeight genesis t;
    foldM (λ t block,
      r ← acceptBlockHeaderImpl block false t;
      vassert (match r.2 with inl _ => false | inr _ => true end) "found statelessly invalid bootstrap block";;
      match getBlockIndex r.1 (hash_key block) with
      | None => Assert "block not found"
      | Some index => modify index (λ i, setDirty (with_addon (setIsBootstrap (addon i)) i)) r.1
      end) rest t
  end.

(** ** Loading *)
Definition loadBlockForward (index : StoredBlockIndex B SA) (fast_load : bool) (t : tree)
    : result tree :=
  (if fast_load then Ok tt else checkBlock (stored_header index) ?! "bad-header");;
  let hash := hash_key (stored_header index) in
  t ← base_loadBlockForward newAddon newHeader index fast_load t;
  match getBlockIndex t hash with
  | None => Assert "loaded block"
  | Some current =>
    vassert (negb (isLoaded_ t)) "loaded";;
    vassert (isLoadingBlocks_ t) "not loading blocks";;
    i ← deref (blocks_ t) current;
    (match pprev i with
     | Some prev =>
       if negb fast_load && negb (hasFlags i BLOCK_BOOTSTRAP)
       then contextuallyCheckBlock (blocks_ t) prev (header i) ?! "bad-block-contextually"
       else Ok tt
     | None => Ok tt
     end);;
    t ← updateChainWork current t;
    t ← modify current (λ i, with_addon (clearBlockOfProofEndorsement (addon i)) i) t;
    r ← node_raiseValidity current BLOCK_VALID_TREE t;
    Ok r.1
  end.

(** ** Queries and finalization *)
Definition isBlockOld_height (height0 : Z) (t : tree) : result bool :=
  match chain_tip (activeChain_ t) with
  | None => Assert "no tip"
  | Some tip =>
    i ← deref (blocks_ t) tip;
    d ← cki32 (height i - height0);
    Ok (getOldBlocksWindow <? d)
  end.

Definition isBlockOld (hash : K) (t : tree) : result bool :=
  match getBlockIndex t hash with
  | None => Ok false
  | Some index => i ← deref (blocks_ t) index; isBlockOld_height (height i) t
  end.

Definition finalizeBlocks (t : tree) : result tree :=
  vassert (negb (isLoadingBlocks_ t)) "loading blocks";;
  base_finalizeBlocks getMaxReorgBlocks preserveBlocksBehindFinal INT32_MAX t.
End ops.

(** The virtual methods of a plain [BlockTree] (the BTC tree): [setState] and
    [overrideTip] are those of the base class, nothing happens before a leaf
    is removed. *)
Section hooks.
Context {K H B A P Ext : Type} `{Countable K, Countable H, Countable P, WorkAddon A, !BlockRules K B A}.
Notation tree := (BaseBlockTree K H B A P Ext).

Definition plain_setState (k : K) (t : tree) : result (tree * bool) :=
  t ← base_overrideTip k t; Ok (t, true).

#[export] Instance plain_hooks : TreeHooks K H B A P Ext := {|
  setState := plain_setState;
  determineBestChain := work_determineBestChain plain_setState;
  onBeforeLeafRemoved _ t := Ok t;
  onBlockInserted := updateChainWork;
  overrideTip := base_overrideTip
|}.

(** [plain_setState] is [BaseBlockTree::setState] with the dynamic type of
    the tree. *)
Lemma plain_setState_base k t : setState k t = base_setState (HK := plain_hooks) k t.
Proof. reflexivity. Qed.
End hooks.
