(* ===== verification/BlockTreeInv.v ===== *)
(** * A plain block tree follows the chain with the most work

    [btree_inv]: the invariant of a tree whose best chain is chosen by
    [work_determineBestChain] and whose [setState] only moves the tip.
    [acceptBlockHeader], [invalidateSubtree], [revalidateSubtree] and
    [removeSubtree] preserve it; in particular the active tip always has the
    most work among the valid tips. *)
From S2P Require Import Prelude BlockIndex Chain TreeAlgo PayloadsIndex BaseTree TreeInv TreeRemove TreeStorage BlockTree.

(** What is deferred: the depth of the guards, and whether the tips have to be
    updated when the last guard is released.  [updateAffectedTips] is never called,
    so that no block is recorded as modified. *)
Notation guard_state := (Z * bool)%type (only parsing).

Section inv.
Context {K H B A P Ext SA : Type} `{Countable K, Countable H, Countable P, EqDecision B}.
Context `{BlockAddon A, PayloadIds A P, BlockHash B H, BlockHeader B H K, StoredAddon A SA}.
Context `{WorkAddon A, !BlockRules K B A}.
Notation tree := (BaseBlockTree K H B A P Ext).
Notation index_t := (BlockIndex K B A).
Implicit Types (m : gmap K index_t) (i j : index_t) (t : tree) (k p x : K).
Variables (newAddon : A) (newHeader : B).
(** [BLOCK_VALID_TREE] in the BTC and VBK trees. *)
Hypothesis tip_level : validTipLevel = 1.

Record btree_at (g : guard_state) t : Prop := {
  bi_inv : tree_inv t;
  bi_pop : ∀ k i, blocks_ t !! k = Some i → Z.testbit (status i) 6 = false;
  bi_conn : ∀ k i, blocks_ t !! k = Some i → isDeleted i = false → 2 <= level (status i);
  bi_dlevel : ∀ k i, blocks_ t !! k = Some i → isDeleted i = true → level (status i) = 0;
  bi_del : ∀ k i p j, blocks_ t !! k = Some i → pprev i = Some p → blocks_ t !! p = Some j →
    isDeleted j = true → isDeleted i = true;
  bi_key : ∀ k i, blocks_ t !! k = Some i → hash_key (header i) = k ∧
    ∀ p, pprev i = Some p → getPreviousBlock (header i) = p;
  bi_root : ∀ k i, blocks_ t !! k = Some i → pprev i = None →
    height i = startHeight_ (activeChain_ t) ∧ isDeleted i = false;
  bi_tip : ∃ k i, chain_of (blocks_ t) (activeChain_ t) k ∧ blocks_ t !! k = Some i ∧
    isDeleted i = false ∧ isFailed i = false;
  bi_applied : appliedBlockCount t = blocksCount (activeChain_ t);
  bi_defer : deferForkResolutionDepth t = g.1 ∧ isUpdateTipsDeferred t = g.2 ∧ lastModifiedBlock t = None
}.

(** No valid tip has more work than the active tip. *)
Definition best_work t : Prop := ∀ tip x it ix, chain_tip (activeChain_ t) = Some tip →
  blocks_ t !! tip = Some it → x ∈ tips_ t → blocks_ t !! x = Some ix → work_of ix <= work_of it.

Section at_guard.
Context {g : guard_state}.
Notation btree_inv := (btree_at g).

(** ** Raising the validity of a node *)
Definition raised up i : index_t :=
  if level (status i) <? up then
    with_status (Z.lor (Z.ldiff (status i) BLOCK_VALID_MASK) up) (dirty i) i
  else i.

Lemma raised_bit up i n : 0 <= up <= 7 → 3 <= n →
  Z.testbit (status (raised up i)) n = Z.testbit (status i) n.
Proof.
  intros Hup Hn. unfold raised. destruct (_ <? up); [|done]. cbn [with_status status].
  change BLOCK_VALID_MASK with (Z.ones 3).
  rewrite Z.lor_spec, Z.ldiff_spec, Z.ones_spec_high by lia. rewrite andb_true_r.
  rewrite <- (Z.mod_small up (2 ^ 3)) by lia. rewrite Z.mod_pow2_bits_high by lia.
  by rewrite orb_false_r.
Qed.

Lemma raised_level up i : 0 <= up <= 7 → level (status (raised up i)) = Z.max up (level (status i)).
Proof.
  intros Hup. unfold raised. destruct (Z.ltb_spec (level (status i)) up); [|lia].
  rewrite Z.max_l by lia. cbn [with_status status]. unfold level at 1.
  change BLOCK_VALID_MASK with (Z.ones 3). change 7 with (Z.ones 3).
  rewrite Z.land_lor_distr_l. rewrite Z.land_ldiff, Z.lor_0_l. rewrite Z.land_ones by lia.
  apply Z.mod_small. lia.
Qed.

Lemma raised_node up i : same_node (raised up i) i.
Proof. unfold raised. by destruct (_ <? up). Qed.

Lemma raised_flags up i : 0 <= up <= 7 →
  isFailed (raised up i) = isFailed i ∧ isDeleted (raised up i) = isDeleted i.
Proof.
  intros Hup. rewrite !isFailed_bits. unfold isDeleted. change BLOCK_DELETED with (Z.shiftl 1 10).
  rewrite !hasFlags_bit by lia. by rewrite !raised_bit by lia.
Qed.

Lemma raise_ok t k i up : blocks_ t !! k = Some i → Z.testbit (status i) 6 = false →
  (∀ p, pprev i = Some p → ∃ j, blocks_ t !! p = Some j ∧ level (status j) <= 4 ∧
    (level (status i) < up → up <= level (status j))) →
  node_raiseValidity k up t = Ok (with_blocks <[k := raised up i]> t, level (status i) <? up).
Proof.
  intros Hk Hb6 Hp. unfold node_raiseValidity, raiseValidity, raised. rewrite (deref_eq _ _ _ Hk).
  cbn [mbind result_bind]. change BLOCK_FAILED_POP with (Z.shiftl 1 6).
  rewrite land_shiftl_bit, Hb6 by lia. change BLOCK_VALID_MASK with 7.
  fold (level (status i)).
  destruct (pprev i) as [p|] eqn:Ep; cbn [mbind result_bind].
  - destruct (Hp p eq_refl) as (j & Hj & Hl & Hup). rewrite (deref_eq _ _ _ Hj).
    cbn [mbind result_bind]. destruct (Z.ltb_spec (level (status i)) up); [|done].
    unfold getValidityLevel. change BLOCK_VALID_MASK with 7. fold (level (status j)).
    change BLOCK_CAN_BE_APPLIED with 4.
    rewrite (proj2 (Z.leb_le _ _) Hl). cbn [vassert mbind result_bind].
    rewrite (proj2 (Z.leb_le up _)) by auto. done.
  - by destruct (Z.ltb_spec (level (status i)) up).
Qed.

(** ** Links *)
Lemma back_links m m' n k : store_rel same_links m m' → back m' n k = back m n k.
Proof.
  intros E. revert k. induction n as [|n IH]; intros k; simpl; [done|].
  specialize (E k). destruct E as [i j (_ & Ep & _)|]; simpl; [|done]. rewrite <- Ep.
  by destruct (pprev i); simpl.
Qed.

Lemma chain_of_links m m' c k : store_rel same_links m m' → chain_of m c k → chain_of m' c k.
Proof.
  intros E (i & Hk & Hle & Hlen & Hall).
  destruct (store_rel_lookup _ _ _ k i E Hk) as (j & Hj & (Eh & _)).
  exists j. rewrite <- Eh. split_and!; [done..|]. intros n Hn.
  destruct (Hall n Hn) as (x & Hx & Hb). exists x. by rewrite (back_links _ _ _ _ E).
Qed.

Lemma ancestor_links m m' k x : store_rel same_links m m' → ancestor m' k x ↔ ancestor m k x.
Proof. intros E. unfold ancestor. by setoid_rewrite (back_links _ _ _ _ E). Qed.

Lemma own_links m m' : store_rel same_own m m' → store_rel same_links m m'.
Proof. apply store_rel_mono. intros ?? (Hn & _). by apply same_node_links. Qed.

(** Every block is connected to the root of the active chain. *)
Lemma back_root t k i : btree_inv t → blocks_ t !! k = Some i →
  startHeight_ (activeChain_ t) <= height i ∧
  ∃ r, back (blocks_ t) (Z.to_nat (height i - startHeight_ (activeChain_ t))) k = Some r.
Proof.
  intros Hinv. pose proof (so_wf _ (ti_store _ (bi_inv _ _ Hinv))) as W.
  remember (Z.to_nat (height i)) as n eqn:En. revert k i En.
  induction n as [n IH] using (well_founded_induction lt_wf). intros k i -> Hk.
  destruct (pprev i) as [p|] eqn:Hp.
  - destruct (wf_prev _ W k i p) as (j & Hj & Hh & _); [done..|].
    pose proof (wf_height _ W _ _ Hj).
    destruct (IH (Z.to_nat (height j)) ltac:(lia) p j eq_refl Hj) as (Hle & r & Hr).
    split; [lia|]. exists r.
    replace (Z.to_nat (height i - startHeight_ (activeChain_ t)))
      with (S (Z.to_nat (height j - startHeight_ (activeChain_ t)))) by lia.
    by rewrite (back_S _ _ _ _ _ Hk Hp).
  - rewrite (proj1 (bi_root _ _ Hinv k i Hk Hp)). split; [lia|]. rewrite Z.sub_diag. by exists k.
Qed.

(** ** Moving the tip *)
Definition same_blocks t t' : Prop := blocks_ t' = blocks_ t ∧ tips_ t' = tips_ t.

Lemma setState_ok t k i : btree_inv t → blocks_ t !! k = Some i →
  isDeleted i = false → isFailed i = false →
  ∃ t', plain_setState k t = Ok (t', true) ∧ btree_inv t' ∧ same_blocks t t' ∧
    chain_tip (activeChain_ t') = Some k ∧ startHeight_ (activeChain_ t') = startHeight_ (activeChain_ t).
Proof.
  intros Hinv Hk Hd Hf. pose proof (so_wf _ (ti_store _ (bi_inv _ _ Hinv))) as W.
  destruct (back_root t k i Hinv Hk) as (Hle & r & Hr).
  destruct (bi_tip _ _ Hinv) as (k0 & i0 & Hc0 & _).
  destruct (setTip_spec (blocks_ t) (activeChain_ t) k i r W) as (c & Hc & Es & Hof);
    [by eapply chain_of_ok|done..|].
  unfold plain_setState, base_overrideTip. cbn [emit blocks_ activeChain_]. rewrite Hc.
  cbn [mbind result_bind]. eexists. split; [done|].
  destruct (chain_of_tip _ _ _ _ Hof Hk) as [Htip _].
  split_and!; [|done|done|done]. destruct Hinv as [[Hs Hcf Ht] Hpop Hconn Hdl Hdel Hkey Hroot _ _ Hdf].
  constructor; [by constructor|done|done|done|done|done| | |done|done].
  - intros x ix Hx Hpx. cbn. rewrite Es. exact (Hroot x ix Hx Hpx).
  - by exists k, i.
Qed.

(** ** Choosing the best chain *)
Definition tip_work t : Z :=
  match chain_tip (activeChain_ t) with
  | Some k => match blocks_ t !! k with Some i => work_of i | None => 0 end
  | None => 0
  end.

Lemma tip_lookup t : btree_inv t → ∃ k i, chain_tip (activeChain_ t) = Some k ∧
  blocks_ t !! k = Some i ∧ tip_work t = work_of i.
Proof.
  intros Hinv. destruct (bi_tip _ _ Hinv) as (k & i & Hc & Hk & _).
  destruct (chain_of_tip _ _ _ _ Hc Hk) as [Ht _]. exists k, i. unfold tip_work. by rewrite Ht, Hk.
Qed.

Lemma tip_work_eq t k i : chain_tip (activeChain_ t) = Some k → blocks_ t !! k = Some i →
  tip_work t = work_of i.
Proof. unfold tip_work. by intros -> ->. Qed.

Lemma determine_ok t k i : btree_inv t → blocks_ t !! k = Some i → isDeleted i = false →
  ∃ t', work_determineBestChain plain_setState k t = Ok t' ∧ btree_inv t' ∧ same_blocks t t' ∧
    tip_work t <= tip_work t' ∧ (k ∈ tips_ t → work_of i <= tip_work t').
Proof.
  intros Hinv Hk Hd. destruct (tip_lookup t Hinv) as (b & ib & Htip & Hb & Ew).
  unfold work_determineBestChain. rewrite Htip. case_bool_decide as Ebk.
  { subst b. exists t. split_and!; [done|done|done|lia|]. intros _.
    assert (ib = i) as -> by congruence. lia. }
  rewrite (deref_eq _ _ _ Hk). cbn [mbind result_bind].
  rewrite isValid_eq by (eapply so_status; [apply (ti_store _ (bi_inv _ _ Hinv))|done]).
  cbn [mbind result_bind].
  assert (k ∈ tips_ t → isFailed i = false ∧ 1 <= level (status i)) as Htv.
  { intros (i' & Hi' & Hc & _)%(ti_tips _ (bi_inv _ _ Hinv)). assert (i' = i) as -> by congruence.
    unfold can_tip in Hc. rewrite tip_level in Hc.
    apply andb_prop in Hc as [[_ Hf]%andb_prop Hl%Z.leb_le]. by apply negb_true_iff in Hf. }
  change BLOCK_VALID_TREE with 1.
  destruct (negb (isFailed i) && (1 <=? level (status i))) eqn:Ev; cbn [negb].
  - rewrite (deref_eq _ _ _ Hb). cbn [mbind result_bind].
    apply andb_prop in Ev as [Hf%negb_true_iff Hl%Z.leb_le].
    destruct (Z.ltb_spec (work_of ib) (work_of i)).
    + destruct (setState_ok t k i Hinv Hk Hd Hf) as (t' & Ht' & Hinv' & Hsame & Htip' & _).
      rewrite Ht'. cbn [mbind result_bind fst]. exists t'.
      assert (tip_work t' = work_of i) as Ew'.
      { apply (tip_work_eq t' k); [done|]. by rewrite (proj1 Hsame). }
      split_and!; [done|done|done|lia|lia].
    + exists t. split_and!; [done|done|done|lia|]. intros _. lia.
  - exists t. split_and!; [done|done|done|lia|]. intros (Hf & Hl)%Htv.
    rewrite Hf in Ev. cbn in Ev. apply Z.leb_gt in Ev. lia.
Qed.

Lemma same_blocks_trans t1 t2 t3 : same_blocks t1 t2 → same_blocks t2 t3 → same_blocks t1 t3.
Proof. intros [E1 E2] [E3 E4]. split; congruence. Qed.

(** [doUpdateTips] terminates and the iteration over the tips stays valid. *)
Lemma updateTips_ok (l : list K) t : btree_inv t → (∀ x, x ∈ l → x ∈ tips_ t) →
  ∃ t', updateTips_loop (HK := plain_hooks) l t = Ok t' ∧ btree_inv t' ∧ same_blocks t t' ∧
    tip_work t <= tip_work t' ∧
    ∀ x i, x ∈ l → blocks_ t !! x = Some i → work_of i <= tip_work t'.
Proof.
  revert t. induction l as [|x l IH]; intros t Hinv Hl; cbn [updateTips_loop].
  { exists t. split_and!; [done|done|done|lia|set_solver]. }
  assert (x ∈ tips_ t) as Hx by (apply Hl; set_solver).
  rewrite bool_decide_eq_true_2 by done.
  pose proof (bi_inv _ _ Hinv) as Htree.
  pose proof (proj1 (ti_tips _ Htree x) Hx) as (i & Hi & Hv).
  rewrite (deref_eq _ _ _ Hi). cbn [mbind result_bind].
  destruct (isValidTip_eq (blocks_ t) x i) as (b & Hb & Hbv); [apply Htree..|done|].
  rewrite Hb. cbn [mbind result_bind]. rewrite (proj2 Hbv Hv). cbn [vassert mbind result_bind].
  assert (isDeleted i = false) as Hd.
  { destruct Hv as [Hc _]. unfold can_tip in Hc. by destruct (isDeleted i). }
  destruct (determine_ok t x i Hinv Hi Hd) as (t1 & Ht1 & Hinv1 & Hs1 & Hw1 & Hwx).
  cbn [determineBestChain plain_hooks]. rewrite Ht1. cbn [mbind result_bind].
  rewrite bool_decide_eq_true_2 by (rewrite (proj2 Hs1); set_solver).
  destruct (IH t1 Hinv1) as (t2 & Ht2 & Hinv2 & Hs2 & Hw2 & Hall).
  { intros y Hy. rewrite (proj2 Hs1). apply Hl. set_solver. }
  exists t2. split_and!; [done|done|by eapply same_blocks_trans|lia|].
  intros y iy [->|Hy]%elem_of_cons Hiy.
  - assert (iy = i) as -> by congruence. specialize (Hwx Hx). lia.
  - apply (Hall y); [done|]. by rewrite (proj1 Hs1).
Qed.

Lemma doUpdateTips_ok t : btree_inv t →
  ∃ t', doUpdateTips (HK := plain_hooks) t = Ok t' ∧ btree_inv t' ∧ same_blocks t t' ∧ best_work t'.
Proof.
  intros Hinv. unfold doUpdateTips.
  destruct (updateTips_ok (elements (tips_ t)) t Hinv) as (t' & Ht' & Hinv' & Hs & _ & Hall);
    [set_solver|].
  exists t'. split_and!; [done|done|done|].
  intros tip x it ix Htip Hit Hx Hix. rewrite <- (tip_work_eq t' tip it Htip Hit).
  apply (Hall x); [rewrite elem_of_elements; by rewrite <- (proj2 Hs)|by rewrite <- (proj1 Hs)].
Qed.

(** ** Changing failure flags *)
Definition same_but_failed i j : Prop :=
  same_node i j ∧ ∀ n, n ≠ 5 → n ≠ 7 → Z.testbit (status i) n = Z.testbit (status j) n.

Lemma flags_inv t t' : btree_inv t → tree_inv t' → same_rest t t' →
  store_rel same_but_failed (blocks_ t) (blocks_ t') →
  (∃ k i, chain_tip (activeChain_ t) = Some k ∧ blocks_ t' !! k = Some i ∧ isFailed i = false) →
  btree_inv t' ∧ tip_work t' = tip_work t.
Proof.
  intros Hinv Hinv' (Ec & Ea & Ed & Eu & El & _) Hrel (tip & itip & Htip & Hitip & Hftip).
  assert (store_rel same_links (blocks_ t) (blocks_ t')) as Hlinks.
  { eapply store_rel_mono; [|exact Hrel]. intros ?? [Hn _]. by apply same_node_links. }
  assert (∀ x j, blocks_ t' !! x = Some j → ∃ i, blocks_ t !! x = Some i ∧ same_but_failed i j) as Hback.
  { intros x j Hj. specialize (Hrel x). rewrite Hj in Hrel. inversion Hrel as [i ? Hs Hi|]; subst.
    eauto. }
  assert (∀ i j, same_but_failed i j → isDeleted j = isDeleted i ∧ level (status j) = level (status i))
    as Hbits.
  { intros i j [_ Hb]. unfold isDeleted. change BLOCK_DELETED with (Z.shiftl 1 10).
    rewrite !hasFlags_bit by lia. rewrite (Hb 10) by lia. split; [done|].
    apply level_eq. intros n Hn. symmetry. apply Hb; lia. }
  split.
  - constructor; rewrite <- ?Ec, <- ?Ea, <- ?Ed, <- ?Eu, <- ?El; try apply Hinv.
    + done.
    + intros x j Hj. destruct (Hback x j Hj) as (i & Hi & _ & Hb).
      rewrite <- Hb by lia. by eapply bi_pop.
    + intros x j Hj Hd. destruct (Hback x j Hj) as (i & Hi & Hs).
      destruct (Hbits _ _ Hs) as [E1 E2]. rewrite E2. eapply bi_conn; [done|done|congruence].
    + intros x j Hj Hd. destruct (Hback x j Hj) as (i & Hi & Hs).
      destruct (Hbits _ _ Hs) as [E1 E2]. rewrite E2. eapply bi_dlevel; [done|done|congruence].
    + intros x j p jp Hj Hp Hjp Hd. destruct (Hback x j Hj) as (i & Hi & Hs).
      destruct (Hback p jp Hjp) as (ip & Hip & Hsp). destruct (Hbits _ _ Hs) as [-> _].
      destruct (Hbits _ _ Hsp) as [Ed' _]. eapply (bi_del _ _ Hinv x i p ip); [done| |done|congruence].
      rewrite <- Hp. apply Hs.
    + intros x j Hj. destruct (Hback x j Hj) as (i & Hi & ((_ & Eh & Ep & _) & _)).
      rewrite <- Eh, <- Ep. by eapply bi_key.
    + intros x j Hj Hp. destruct (Hback x j Hj) as (i & Hi & Hs). pose proof Hs as [(Eh & _ & Ep & _) _].
      rewrite <- Eh. rewrite (proj1 (Hbits _ _ Hs)).
      apply (bi_root _ _ Hinv x i Hi). congruence.
    + destruct (bi_tip _ _ Hinv) as (k & i & Hc & Hk & Hd & Hf).
      destruct (chain_of_tip _ _ _ _ Hc Hk) as [Ht _]. assert (tip = k) as -> by congruence.
      exists k, itip. split_and!; [by eapply chain_of_links|done| |done].
      destruct (Hback k itip Hitip) as (i' & Hi' & Hs). assert (i' = i) as -> by congruence.
      by destruct (Hbits _ _ Hs) as [-> _].
  - unfold tip_work. rewrite <- Ec, Htip, Hitip.
    destruct (Hback tip itip Hitip) as (i & -> & ((_ & _ & _ & _ & _ & Ea') & _)).
    unfold work_of. by rewrite Ea'.
Qed.

(** Blocks outside the subtree keep their status. *)
Lemma status_unaffected t t' k i' x i : tree_inv t → tree_inv t' →
  store_rel same_own (<[k := i']> (blocks_ t)) (blocks_ t') →
  blocks_ t !! x = Some i → ¬ ancestor (blocks_ t) k x →
  ∃ j, blocks_ t' !! x = Some j ∧ same_node i j ∧ status i = status j.
Proof.
  intros Hinv Hinv' Hrel. remember (Z.to_nat (height i)) as n eqn:En. revert x i En.
  induction n as [n IH] using (well_founded_induction lt_wf). intros x i -> Hx Hanc.
  assert (x ≠ k) as Hxk by (intros ->; apply Hanc, ancestor_refl).
  destruct (store_rel_lookup _ _ _ x i Hrel) as (j & Hj & Hsn & Hb & Hroot);
    [by rewrite lookup_insert_ne|].
  exists j. split_and!; [done|done|]. destruct (pprev i) as [p|] eqn:Hp; [|by apply Hroot].
  apply Z.bits_inj'. intros q _. destruct (decide (q = 7)) as [->|Hq]; [|by apply Hb].
  destruct (wf_prev _ (so_wf _ (ti_store _ Hinv)) x i p) as (ip & Hip & Hhp & _); [done..|].
  pose proof (wf_height _ (so_wf _ (ti_store _ Hinv)) _ _ Hip).
  destruct (IH (Z.to_nat (height ip)) ltac:(lia) p ip eq_refl Hip) as (jp & Hjp & _ & Est).
  { intros [q Hn]. apply Hanc. exists (S q). by rewrite (back_S _ _ _ _ _ Hx Hp). }
  rewrite (ti_child _ Hinv x i p ip) by done.
  assert (pprev j = Some p) as Hpj by (rewrite <- Hp; symmetry; apply Hsn).
  rewrite (ti_child _ Hinv' x j p jp) by done. unfold isFailed. by rewrite Est.
Qed.

Lemma set_own_rel m m' k i i' : m !! k = Some i → same_but_failed i i' →
  store_rel same_own (<[k := i']> m) m' → store_rel same_but_failed m m'.
Proof.
  intros Hk Hs Hrel x. specialize (Hrel x). destruct (decide (k = x)) as [<-|].
  - rewrite lookup_insert_eq in Hrel. rewrite Hk. inversion Hrel as [? j (Hn & Hb & _)|]; subst.
    constructor. destruct Hs as [Hn0 Hb0]. split; [by etrans|]. intros q ??. by rewrite Hb0, Hb.
  - rewrite lookup_insert_ne in Hrel by done. inversion Hrel as [? j (Hn & Hb & _)|]; subst; constructor.
    split; [done|]. intros q _ ?. by apply Hb.
Qed.

Lemma setFlag_but_failed i : same_but_failed i (setFlag (Z.shiftl 1 5) i).
Proof.
  split; [symmetry; apply same_node_setFlag|]. intros n Hn5 _.
  destruct (Z.lt_ge_cases n 0); [by rewrite !Z.testbit_neg_r by lia|].
  rewrite setFlag_bit by lia. destruct (Z.eqb_spec n 5); [done|by rewrite orb_false_r].
Qed.

Lemma unsetFlag_but_failed i : same_but_failed i (unsetFlag (Z.shiftl 1 5) i).
Proof.
  split; [symmetry; apply same_node_unsetFlag|]. intros n Hn5 _.
  destruct (Z.lt_ge_cases n 0); [by rewrite !Z.testbit_neg_r by lia|].
  rewrite unsetFlag_bit by lia. destruct (Z.eqb_spec n 5); [done|by rewrite andb_true_r].
Qed.

(** Leaving the subtree of [k]: after it the active tip is not below [k]. *)
Lemma leave_subtree t k i p : btree_inv t → blocks_ t !! k = Some i → pprev i = Some p →
  isDeleted i = false →
  ∃ onChain t', contains (blocks_ t) (activeChain_ t) (Some k) = Ok onChain ∧
    (if (onChain : bool) then r ← setState (TreeHooks := plain_hooks) p t; vassert r.2 "setState";; Ok r.1
     else Ok t) = Ok t' ∧
    btree_inv t' ∧ same_blocks t t' ∧
    ∃ tip, chain_tip (activeChain_ t') = Some tip ∧ ¬ ancestor (blocks_ t) k tip.
Proof.
  intros Hinv Hk Hp Hd. pose proof (so_wf _ (ti_store _ (bi_inv _ _ Hinv))) as W.
  destruct (bi_tip _ _ Hinv) as (tip & it & Hc & Htip & _ & Hft).
  destruct (chain_of_contains _ _ _ k i W Hc Hk) as (b & Hb & Hiff).
  destruct (chain_of_tip _ _ _ _ Hc Htip) as [Ht _].
  destruct (wf_prev _ W k i p) as (j & Hj & Hh & _); [done..|].
  exists b. rewrite Hb. destruct b.
  - assert (isFailed i = false) as Hf.
    { destruct (isFailed i) eqn:E; [|done]. destruct (proj1 Hiff eq_refl) as [Hanc _].
      destruct (failed_below t k i tip (bi_inv _ _ Hinv) Hk E Hanc) as (jt & Hjt & Hfj & _). congruence. }
    assert (isFailed j = false) as Hfj.
    { rewrite <- (ti_child _ (bi_inv _ _ Hinv) k i p j) by done. rewrite isFailed_bits in Hf.
      by apply orb_false_elim in Hf as [_ ?]. }
    assert (isDeleted j = false) as Hdj.
    { destruct (isDeleted j) eqn:E; [|done]. by rewrite (bi_del _ _ Hinv k i p j) in Hd. }
    destruct (setState_ok t p j Hinv Hj Hdj Hfj) as (t' & Ht' & Hinv' & Hs & Htip' & _).
    exists t'. split; [done|]. cbn [setState plain_hooks]. rewrite Ht'. cbn [mbind result_bind fst snd vassert].
    split_and!; [done|done|done|]. exists p. split; [done|]. intros Hanc.
    destruct (ancestor_lookup _ _ _ _ W Hj Hanc) as (i' & Hi' & Hle).
    assert (i' = i) as -> by congruence. lia.
  - exists t. split_and!; [done|done|done|done|]. exists tip. split; [done|]. intros Hanc.
    assert (false = true); [|done]. apply Hiff. split; [done|]. by apply (back_root t k i Hinv).
Qed.

Lemma best_work_eq t t' : tip_work t' = tip_work t → tips_ t' = tips_ t →
  store_rel same_but_failed (blocks_ t) (blocks_ t') → btree_inv t → btree_inv t' →
  best_work t → best_work t'.
Proof.
  intros Ew Et Hrel Hinv Hinv' Hbest tip x itip ix Htip Hitip Hx Hix.
  rewrite <- (tip_work_eq t' tip itip Htip Hitip), Ew.
  destruct (tip_lookup t Hinv) as (b & ib & Hb & Hib & ->). rewrite Et in Hx.
  pose proof (Hrel x) as Rx. rewrite Hix in Rx.
  inversion Rx as [i ? ((_ & _ & _ & _ & _ & Ea) & _) Hi|]; subst.
  assert (work_of ix = work_of i) as -> by (unfold work_of; by rewrite Ea). by eapply Hbest.
Qed.

Lemma bit6_level t k i n : btree_inv t → blocks_ t !! k = Some i → n = 5 →
  (n = 6 → level (status i) ≠ 4).
Proof. intros. lia. Qed.

(** A flag change on a block that is failed before and after. *)
Lemma still_failed_best t t' k i i' : btree_inv t → best_work t → blocks_ t !! k = Some i →
  same_but_failed i i' → isFailed i = true → isFailed i' = true →
  Z.testbit (status i') 7 = Z.testbit (status i) 7 → same_rest t t' →
  blocks_ t' = <[k := i']> (blocks_ t) → (∀ x, x ∈ tips_ t' ↔ x ∈ tips_ t) →
  btree_inv t' ∧ best_work t'.
Proof.
  intros Hinv Hbest Hk Hs Hf Hf' Hb7 Hrest Eb Et0.
  assert (tips_ t' = tips_ t) as Et by (apply set_eq, Et0).
  pose proof (bi_inv _ _ Hinv) as Htree. pose proof Hs as [Hsn Hb].
  assert (tree_inv t') as Hinv'.
  { eapply (still_failed_inv t t' k i i'); [done..| |done|done|done].
    apply (status_ok_eq (status i)); [eapply so_status; [apply Htree|done]|].
    intros n Hn. apply Hb; lia. }
  assert (store_rel same_but_failed (blocks_ t) (blocks_ t')) as Hrel.
  { rewrite Eb. eapply set_own_rel; [done|done|reflexivity]. }
  destruct (bi_tip _ _ Hinv) as (tip & it & Hc & Hit & _ & Hft).
  destruct (chain_of_tip _ _ _ _ Hc Hit) as [Htip _].
  destruct (flags_inv t t' Hinv Hinv' Hrest Hrel) as [Hinv2 Ew].
  { exists tip, it. split_and!; [done| |done]. rewrite Eb, lookup_insert_ne; [done|]. congruence. }
  split; [done|]. by eapply best_work_eq.
Qed.

Lemma not_tip_failed t k i : tree_inv t → blocks_ t !! k = Some i → isFailed i = true → k ∉ tips_ t.
Proof.
  intros Hinv Hk Hf (j & Hj & Hc & _)%(ti_tips _ Hinv). assert (j = i) as -> by congruence.
  by rewrite can_tip_failed in Hc.
Qed.

Lemma unset_failed_flags i n : 0 <= n →
  hasFlags i (Z.ldiff BLOCK_FAILED_MASK (Z.shiftl 1 n)) = isFailed (unsetFlag (Z.shiftl 1 n) i).
Proof.
  intros Hn. unfold hasFlags, isFailed. rewrite status_unsetFlag.
  assert (Z.land (status i) (Z.ldiff BLOCK_FAILED_MASK (Z.shiftl 1 n)) =
    Z.land (Z.ldiff (status i) (Z.shiftl 1 n)) BLOCK_FAILED_MASK) as ->; [|done].
  apply Z.bits_inj'. intros q _. rewrite !Z.land_spec, !Z.ldiff_spec, <- !andb_assoc.
  f_equal. apply andb_comm.
Qed.

(** ** Removal *)
Lemma below_ancestor m L a x : below (parent m) L a x → ancestor m a x.
Proof.
  induction 1 as [|p c _ [n IH] Hp _]; [apply ancestor_refl|]. exists (S n). simpl.
  unfold parent in Hp. destruct (m !! c) as [i|]; [|done]. simpl in *. by rewrite Hp.
Qed.

Lemma removal_inv t t' k i tip : btree_inv t → blocks_ t !! k = Some i → pprev i ≠ None → tree_inv t' →
  same_rest t (with_payloads (finalizedPayloadsIndex_ t) (payloadsIndex_ t) t') →
  removed_rel t k (blocks_ t') →
  (∀ x i, blocks_ t !! x = Some i → below (parent (blocks_ t)) (live (blocks_ t)) k x →
    blocks_ t' !! x = Some (deleted i)) →
  chain_tip (activeChain_ t) = Some tip → ¬ ancestor (blocks_ t) k tip → btree_inv t'.
Proof.
  intros Hinv Hk Hpi Hinv' (Ec & Ea & Ed & Eu & El & _) Hrel Hdel Htip Hanc.
  cbn [with_payloads activeChain_ appliedBlockCount deferForkResolutionDepth isUpdateTipsDeferred lastModifiedBlock] in Ec, Ea, Ed, Eu, El.
  assert (∀ x j, blocks_ t' !! x = Some j → ∃ i, blocks_ t !! x = Some i ∧
    (j = i ∨ j = deleted i ∧ below (parent (blocks_ t)) (live (blocks_ t)) k x)) as Hback.
  { intros x j Hj. specialize (Hrel x). destruct (blocks_ t !! x) as [ix|]; [|congruence].
    exists ix. split; [done|]. destruct Hrel as [E|(E & Hb & _)]; rewrite E in Hj; injection Hj as <-; auto. }
  assert (∀ j, Z.testbit (status (deleted j)) 6 = Z.testbit (status j) 6) as Hb6.
  { intros j. rewrite deleted_bit by lia. cbn. by rewrite andb_true_r, orb_false_r. }
  assert (store_rel same_links (blocks_ t) (blocks_ t')) as Hlinks.
  { intros x. specialize (Hrel x). destruct (blocks_ t !! x) as [ix|]; [|rewrite Hrel; constructor].
    destruct Hrel as [->|(-> & _)]; constructor; [done|apply deleted_links]. }
  destruct (bi_tip _ _ Hinv) as (tip' & it & Hc & Hit & Hdt & Hft).
  destruct (chain_of_tip _ _ _ _ Hc Hit) as [Htip' _]. assert (tip' = tip) as -> by congruence.
  constructor; rewrite <- ?Ec, <- ?Ea, <- ?Ed, <- ?Eu, <- ?El; try apply Hinv.
  - done.
  - intros x j Hj. destruct (Hback x j Hj) as (ix & Hix & [->|(-> & _)]); rewrite ?Hb6; by eapply bi_pop.
  - intros x j Hj Hdj. destruct (Hback x j Hj) as (ix & Hix & [->|(-> & _)]); [by eapply bi_conn|].
    by rewrite deleted_isDeleted in Hdj.
  - intros x j Hj Hdj. destruct (Hback x j Hj) as (ix & Hix & [->|(-> & _)]); [by eapply bi_dlevel|].
    apply deleted_level.
  - intros x j q jq Hj Hq Hjq Hdq. destruct (isDeleted j) eqn:Edj; [done|]. exfalso.
    destruct (Hback x j Hj) as (ix & Hix & [->|(-> & _)]); [|by rewrite deleted_isDeleted in Edj].
    destruct (Hback q jq Hjq) as (iq & Hiq & [->|(-> & Hbq)]).
    + by rewrite (bi_del _ _ Hinv x ix q iq) in Edj.
    + assert (below (parent (blocks_ t)) (live (blocks_ t)) k x) as Hbx.
      { econstructor; [exact Hbq|by unfold parent; rewrite Hix|]. apply elem_of_live. eauto. }
      rewrite (Hdel x ix Hix Hbx) in Hj. injection Hj as E.
      by rewrite <- (f_equal isDeleted E), deleted_isDeleted in Edj.
  - intros x j Hj. destruct (Hback x j Hj) as (ix & Hix & [->|(-> & _)]);
      exact (bi_key _ _ Hinv x ix Hix).
  - intros x j Hj Hq. destruct (Hback x j Hj) as (ix & Hix & [->|(-> & Hb)]);
      [exact (bi_root _ _ Hinv x ix Hix Hq)|]. exfalso.
    apply below_ancestor in Hb as [[|n] Hn]; cbn [back] in Hn.
    { injection Hn as ->. assert (ix = i) as -> by congruence. done. }
    change (pprev ix = None) in Hq. rewrite Hix in Hn. cbn in Hn. by rewrite Hq in Hn.
  - exists tip, it. split_and!; [by eapply chain_of_links| |done|done].
    specialize (Hrel tip). rewrite Hit in Hrel. destruct Hrel as [E|(_ & Hb & _)]; [done|].
    exfalso. by apply Hanc, (below_ancestor _ (live (blocks_ t))).
Qed.
(** ** Changing the addon of a node, but not its work *)
Definition same_state i j : Prop :=
  same_links i j ∧ header i = header j ∧ status i = status j ∧ work_of i = work_of j.

Lemma same_state_flags i j : same_state i j → isDeleted i = isDeleted j ∧ isFailed i = isFailed j ∧ can_tip i = can_tip j.
Proof. intros (_ & _ & E & _). unfold can_tip, isDeleted, isFailed, hasFlags. by rewrite E. Qed.

Lemma touched_inv t k i i' : btree_inv t → blocks_ t !! k = Some i → same_state i i' →
  btree_inv (with_blocks <[k := i']> t).
Proof.
  intros Hinv Hk Hs. pose proof Hs as (Hl & Eh & Es & _). destruct (same_state_flags i i' Hs) as (Ed & Ef & Ec).
  pose proof (bi_inv _ _ Hinv) as [Hok Hch Htips].
  assert (∀ x j, <[k := i']> (blocks_ t) !! x = Some j → ∃ j0, blocks_ t !! x = Some j0 ∧ same_state j0 j) as Hback.
  { intros x j. destruct (decide (k = x)) as [<-|]; [rewrite lookup_insert_eq; intros [= <-]; by exists i|].
    rewrite lookup_insert_ne by done. intros Hj. exists j. split; [done|]. repeat split. }
  assert (∀ j0 j, same_state j0 j → isDeleted j = isDeleted j0) as Hdel by (intros ?? Hj; symmetry; by apply same_state_flags).
  constructor; cbn [with_blocks blocks_ activeChain_ appliedBlockCount deferForkResolutionDepth]; try apply Hinv.
  - apply (update_tree_inv t _ k i i'); [by constructor|done|done|rewrite <- Es; by eapply so_status|done|done|by rewrite Es|done|done].
  - intros x j (j0 & Hj0 & _ & _ & <- & _)%Hback. by eapply bi_pop.
  - intros x j (j0 & Hj0 & Hs0)%Hback. rewrite (Hdel _ _ Hs0). destruct Hs0 as (_ & _ & <- & _). by eapply bi_conn.
  - intros x j (j0 & Hj0 & Hs0)%Hback. rewrite (Hdel _ _ Hs0). destruct Hs0 as (_ & _ & <- & _). by eapply bi_dlevel.
  - intros x j p jp (j0 & Hj0 & Hs0)%Hback Hp (p0 & Hp0 & Hsp)%Hback. rewrite (Hdel _ _ Hs0), (Hdel _ _ Hsp).
    destruct Hs0 as ((_ & Ep & _) & _). rewrite <- Ep in Hp. by eapply (bi_del _ _ Hinv x j0 p p0).
  - intros x j (j0 & Hj0 & (_ & Ep & _) & <- & _)%Hback. rewrite <- Ep. by eapply bi_key.
  - intros x j (j0 & Hj0 & Hs0)%Hback Hp. rewrite (Hdel _ _ Hs0). destruct Hs0 as ((<- & Ep & _) & _).
    rewrite <- Ep in Hp. by eapply bi_root.
  - destruct (bi_tip _ _ Hinv) as (x & ix & Hc & Hx & Hdx & Hfx). exists x.
    assert (store_rel same_links (blocks_ t) (<[k := i']> (blocks_ t))) as Hrel by (by apply (store_rel_insert same_links _ k i); [apply _|..]).
    destruct (decide (k = x)) as [<-|].
    + exists i'. assert (ix = i) as -> by congruence. rewrite lookup_insert_eq. split_and!; [by eapply chain_of_links|done|congruence..].
    + exists ix. rewrite lookup_insert_ne by done. split_and!; [by eapply chain_of_links|done..].
Qed.

End at_guard.

(** ** Updating the tips, now or when the guard is released *)
Definition after_update (g : guard_state) : guard_state := if g.1 =? 0 then g else (g.1, true).

(** A guard is created; a guard inside another one is released. *)
Lemma with_defer_inv g g' t : btree_at g t → btree_at g' (with_defer g'.1 g'.2 None t).
Proof. intros [[Hs Hcf Ht] ? ? ? ? ? ? ? ? _]. by constructor. Qed.

Lemma defer_inv g t : btree_at g t → btree_at (g.1 + 1, g.2) (deferForkResolution t).
Proof.
  intros Hinv. pose proof (bi_defer _ _ Hinv) as (Ed & Eu & El). unfold deferForkResolution. rewrite Ed, Eu, El.
  by apply (with_defer_inv g (g.1 + 1, g.2)).
Qed.

Lemma updateTips_any g t : btree_at g t →
  ∃ t', updateTips (HK := plain_hooks) t = Ok t' ∧ btree_at (after_update g) t' ∧ same_blocks t t' ∧
    (g.1 = 0 → best_work t').
Proof.
  intros Hinv. pose proof (bi_defer _ _ Hinv) as (Ed & Eu & El). unfold updateTips, after_update. rewrite Ed.
  destruct (Z.eqb_spec g.1 0) as [E0|Hne].
  - destruct (doUpdateTips_ok t Hinv) as (t' & ? & ? & ? & ?). by exists t'.
  - eexists. split; [done|]. split; [|split; [done|done]]. destruct Hinv as [[Hs Hcf Ht] ? ? ? ? ? ? ? ? _]. by constructor.
Qed.
End inv.

(** The invariant without a guard. *)
Notation btree_inv := (btree_at (0, false)).

(** ** Properties *)
Section props.
Context {K H B A P Ext SA : Type} `{Countable K, Countable H, Countable P, EqDecision B}.
Context `{BlockAddon A, PayloadIds A P, BlockHash B H, BlockHeader B H K, StoredAddon A SA}.
Context `{WorkAddon A, !BlockRules K B A}.
Notation tree := (BaseBlockTree K H B A P Ext).
Notation index_t := (BlockIndex K B A).
Implicit Types (i j : index_t) (t : tree) (k p x : K).
Hypothesis tip_level : validTipLevel = 1.

(** C6: In a plain block tree [invalidateSubtree] of any block but the root,
    on the active chain or not, succeeds and keeps the invariant; every block
    of the subtree is failed, the active tip is outside of it, and it has the
    most work among all valid tips. *)
Theorem invalidateSubtree_best_chain t k i p : btree_inv t → best_work t →
  blocks_ t !! k = Some i → pprev i = Some p → isDeleted i = false →
  ∃ t', invalidateSubtree (HK := plain_hooks) k BLOCK_FAILED_BLOCK true t = Ok t' ∧
    btree_inv t' ∧ best_work t' ∧
    (∀ x, ancestor (blocks_ t') k x → ∃ j, blocks_ t' !! x = Some j ∧ isFailed j = true) ∧
    ∀ tip, chain_tip (activeChain_ t') = Some tip → ¬ ancestor (blocks_ t') k tip.
Proof.
  intros Hinv Hbest Hk Hp Hd.
  assert (∀ t' j, btree_inv t' → blocks_ t' !! k = Some j → isFailed j = true →
    (∀ x, ancestor (blocks_ t') k x → ∃ j, blocks_ t' !! x = Some j ∧ isFailed j = true) ∧
    ∀ tip, chain_tip (activeChain_ t') = Some tip → ¬ ancestor (blocks_ t') k tip) as Hpost.
  { intros t' j Hinv' Hj Hf.
    assert (∀ x, ancestor (blocks_ t') k x → ∃ j, blocks_ t' !! x = Some j ∧ isFailed j = true) as Hall.
    { intros x Hx. destruct (failed_below t' k j x (bi_inv _ _ Hinv') Hj Hf Hx) as (? & ? & ? & _). eauto. }
    split; [done|]. intros tip Htip Hanc. destruct (Hall tip Hanc) as (jt & Hjt & Hft).
    destruct (bi_tip _ _ Hinv') as (tip' & it & Hc & Hit & _ & Hft').
    destruct (chain_of_tip _ _ _ _ Hc Hit) as [Htip' _]. congruence. }
  pose proof (bi_inv _ _ Hinv) as Htree.
  assert (status_ok (status i)) as Hst by (eapply so_status; [apply Htree|done]).
  unfold invalidateSubtree. rewrite (deref_eq _ _ _ Hk). cbn [mbind result_bind]. rewrite Hp.
  cbn [isValidInvalidationReason Z.eqb orb vassert mbind result_bind].
  change BLOCK_FAILED_BLOCK with (Z.shiftl 1 5). rewrite hasFlags_bit by lia.
  destruct (Z.testbit (status i) 5) eqn:Eb.
  { exists t. split_and!; [done|done|done|..]; eapply Hpost; (done || by eapply (flag_failed 5)). }
  rewrite isValid_eq by done. cbn [mbind result_bind]. change BLOCK_VALID_TREE with 1.
  pose proof (bi_conn _ _ Hinv k i Hk Hd).
  destruct (isFailed i) eqn:Ef; cbn [negb andb].
  - rewrite (doInvalidate_eq t k i 5) by (done || lia). eexists. split; [done|].
    match goal with |- btree_inv ?T ∧ _ => set (t' := T) end.
    set (i' := setFlag (Z.shiftl 1 5) i) in t'.
    assert (isFailed i' = true) as Hf' by (apply setFlag_failed; lia).
    destruct (still_failed_best (g := (0, false)) t t' k i i') as [Hinv' Hbest']; [done..|apply setFlag_but_failed|done|done| |done|done| |].
    { unfold i'. rewrite setFlag_bit by lia. by rewrite orb_false_r. }
    { intros x. cbn. pose proof (not_tip_failed t k i Htree Hk Ef). set_solver. }
    split_and!; [done|done|..]; apply (Hpost t' i'); done || apply lookup_insert_eq.
  - destruct (Z.leb_spec 1 (level (status i))); [cbn [negb]|lia].
    destruct (leave_subtree t k i p Hinv Hk Hp Hd) as (b & t1 & Hb & Ht1 & Hinv1 & [Eb1 Et1] & tip & Htip & Hanc).
    rewrite Hb. cbn [mbind result_bind]. rewrite Ht1. cbn [mbind result_bind].
    rewrite <- Eb1 in Hk, Hanc.
    destruct (invalidate_flags_ok t1 k i p 5 (bi_inv _ _ Hinv1) Hk Hp Ef ltac:(lia) ltac:(lia))
      as (t2 & Ht2 & Hinv2 & Hrest2 & Hrel2).
    apply bind_Ok in Ht2 as (ta & -> & Ht2). cbn [mbind result_bind].
    apply bind_Ok in Ht2 as (tb & -> & Ht2). cbn [mbind result_bind]. rewrite Ht2.
    cbn [mbind result_bind].
    destruct (flags_inv t1 t2 Hinv1 Hinv2 Hrest2) as [Hb2 _].
    { eapply set_own_rel; [done|apply setFlag_but_failed|done]. }
    { destruct (bi_tip _ _ Hinv1) as (tip' & it & Hc & Hit & _ & Hft).
      destruct (chain_of_tip _ _ _ _ Hc Hit) as [Htip' _]. assert (tip' = tip) as -> by congruence.
      destruct (status_unaffected t1 t2 k _ tip it (bi_inv _ _ Hinv1) Hinv2 Hrel2 Hit Hanc)
        as (jt & Hjt & _ & Est).
      exists tip, jt. split_and!; [done|done|]. unfold isFailed. by rewrite <- Est. }
    destruct (updateTips_any tip_level _ t2 Hb2) as (t3 & Ht3 & Hb3 & [Eb3 _] & Hbest3).
    exists t3. split_and!; [done|done|by apply Hbest3|..];
      (destruct (store_rel_lookup _ _ _ k (setFlag (Z.shiftl 1 5) i) Hrel2) as (j & Hj & _ & Hbj & _);
        [apply lookup_insert_eq|]);
      apply (Hpost t3 j); try done; try (by rewrite Eb3);
      apply (flag_failed 5); try lia; rewrite <- Hbj, setFlag_bit by lia; by rewrite orb_true_r.
Qed.

(** C12: In a plain block tree [revalidateSubtree] succeeds and keeps the
    invariant, and the active tip then has the most work among all valid
    tips, those that became valid again included. *)
Theorem revalidateSubtree_best_chain t k i p : btree_inv t → best_work t →
  blocks_ t !! k = Some i → pprev i = Some p →
  ∃ t', revalidateSubtree (HK := plain_hooks) k BLOCK_FAILED_BLOCK true t = Ok t' ∧
    btree_inv t' ∧ best_work t' ∧
    ∃ j, blocks_ t' !! k = Some j ∧ Z.testbit (status j) 5 = false.
Proof.
  intros Hinv Hbest Hk Hp. pose proof (bi_inv _ _ Hinv) as Htree.
  assert (status_ok (status i)) as Hst by (eapply so_status; [apply Htree|done]).
  unfold revalidateSubtree. rewrite (deref_eq _ _ _ Hk). cbn [mbind result_bind].
  unfold isRoot. rewrite bool_decide_eq_false_2 by congruence.
  cbn [isValidInvalidationReason Z.eqb orb negb vassert mbind result_bind].
  change BLOCK_FAILED_BLOCK with (Z.shiftl 1 5). rewrite hasFlags_bit by lia.
  destruct (Z.testbit (status i) 5) eqn:Eb; cbn [negb];
    [|by exists t; split_and!; [done..|by exists i]].
  assert (isFailed i = true) as Hf by (by apply (flag_failed 5)).
  rewrite unset_failed_flags by lia. set (i' := unsetFlag (Z.shiftl 1 5) i).
  assert (Z.testbit (status i') 5 = false) as Hb5.
  { unfold i'. rewrite unsetFlag_bit by lia. by rewrite andb_false_r. }
  destruct (isFailed i') eqn:Ef'.
  - destruct (doReValidate_ok t k i 5 (ti_store _ Htree) Hk ltac:(lia) Eb)
      as (t' & Ht' & Ebl & Htips & Hrest & Hok'); [by intros; apply Htree|apply Htree|].
    fold i' in Ebl. exists t'. split; [done|].
    destruct (still_failed_best (g := (0, false)) t t' k i i') as [Hinv' Hbest'];
      [done..|apply unsetFlag_but_failed|done|done| |done|done| |].
    { unfold i'. rewrite unsetFlag_bit by lia. by rewrite andb_true_r. }
    { intros x. rewrite Htips, Ebl, (ti_tips _ Htree). apply (is_valid_tip_update _ k i i'); [done| |].
      - apply same_node_links. symmetry. apply same_node_unsetFlag.
      - by rewrite !can_tip_failed. }
    split_and!; [done|done|]. exists i'. rewrite Ebl, lookup_insert_eq. done.
  - destruct (revalidate_flags_ok t k i 5 Htree Hk ltac:(lia) Eb Ef') as (t2 & Ht2 & Hinv2 & Hrest2 & Hrel2).
    apply bind_Ok in Ht2 as (ta & -> & Ht2). cbn [mbind result_bind]. rewrite Ht2.
    cbn [mbind result_bind].
    destruct (flags_inv t t2 Hinv Hinv2 Hrest2) as [Hb2 _].
    { eapply set_own_rel; [done|apply unsetFlag_but_failed|done]. }
    { destruct (bi_tip _ _ Hinv) as (tip & it & Hc & Hit & _ & Hft).
      destruct (chain_of_tip _ _ _ _ Hc Hit) as [Htip _].
      destruct (status_unaffected t t2 k _ tip it Htree Hinv2 Hrel2 Hit) as (jt & Hjt & _ & Est).
      { intros Hanc. destruct (failed_below t k i tip Htree Hk Hf Hanc) as (j & Hj & Hfj & _). congruence. }
      exists tip, jt. split_and!; [done|done|]. unfold isFailed. by rewrite <- Est. }
    destruct (updateTips_any tip_level _ t2 Hb2) as (t3 & Ht3 & Hb3 & [Eb3 _] & Hbest3).
    exists t3. split_and!; [done|done|by apply Hbest3|].
    destruct (store_rel_lookup _ _ _ k i' Hrel2) as (j & Hj & _ & Hbj & _); [apply lookup_insert_eq|].
    exists j. rewrite Eb3. split; [done|]. by rewrite <- Hbj.
Qed.

#[local] Instance plain_removal : RemovalHook K H B A P Ext.
Proof. intros k t _. exists (payloadsIndex_ t). by destruct t. Qed.

Lemma removeSubtree_ok {g} t k i p : btree_at g t →
  blocks_ t !! k = Some i → pprev i = Some p → isDeleted i = false →
  ∃ t' onChain, contains (blocks_ t) (activeChain_ t) (Some k) = Ok onChain ∧
    removeSubtree (HK := plain_hooks) k t = Ok t' ∧ btree_at (if onChain then after_update g else g) t' ∧
    (onChain = true → g.1 = 0 → best_work t') ∧ (onChain = false → activeChain_ t' = activeChain_ t) ∧
    removed_rel t k (blocks_ t') ∧
    ∀ x j, blocks_ t !! x = Some j →
      (below (parent (blocks_ t)) (live (blocks_ t)) k x → blocks_ t' !! x = Some (deleted j)) ∧
      (¬ below (parent (blocks_ t)) (live (blocks_ t)) k x → blocks_ t' !! x = Some j).
Proof.
  intros Hinv Hk Hp Hd.
  destruct (leave_subtree t k i p Hinv Hk Hp Hd) as (b & t1 & Hb & Ht1 & Hinv1 & [Eb1 Et1] & tip & Htip & Hanc).
  rewrite Hb. unfold removeSubtree. rewrite (deref_eq _ _ _ Hk). cbn [mbind result_bind]. rewrite Hp, Hb.
  cbn [mbind result_bind]. rewrite Ht1. cbn [mbind result_bind].
  assert (b = false → activeChain_ t1 = activeChain_ t) as Ec1 by (intros ->; by injection Ht1 as ->).
  rewrite <- Eb1 in Hk, Hanc |- *.
  destruct (removal_ok t1 k p i (bi_inv _ _ Hinv1) Hk Hp Hd) as (t2 & Ht2 & Hinv2 & Hrest & Hrel & Hall).
  apply bind_Ok in Ht2 as (ta & -> & Ht2). cbn [mbind result_bind]. rewrite Ht2. cbn [mbind result_bind].
  pose proof (removal_inv t1 t2 k i tip Hinv1 Hk ltac:(congruence) Hinv2 Hrest Hrel
    (λ x ix Hx, proj1 (Hall x ix Hx)) Htip Hanc) as Hb2.
  assert (removed_rel t k (blocks_ t2)) as Hrel' by (unfold removed_rel; rewrite <- Eb1; exact Hrel).
  destruct b; [|exists t2, false; do 4 (split; [done|]); split; [intros _; rewrite <- Ec1 by done; symmetry; apply Hrest|done]].
  destruct (updateTips_any tip_level _ t2 Hb2) as (t3 & Ht3 & Hb3 & [Eb3 _] & Hbest3).
  exists t3, true. rewrite Eb3. by split_and!.
Qed.

(** C13: In a plain block tree [removeSubtree] of any block but the root, on
    the active chain or not, succeeds and keeps the invariant; the block is
    deleted, and when the active chain had to be changed the active tip has the
    most work among the remaining valid tips. *)
Theorem removeSubtree_best_chain t k i p : btree_inv t →
  blocks_ t !! k = Some i → pprev i = Some p → isDeleted i = false →
  ∃ t', removeSubtree (HK := plain_hooks) k t = Ok t' ∧ btree_inv t' ∧
    (contains (blocks_ t) (activeChain_ t) (Some k) = Ok true → best_work t') ∧
    ∃ j, blocks_ t' !! k = Some j ∧ isDeleted j = true.
Proof.
  intros Hinv Hk Hp Hd. destruct (removeSubtree_ok t k i p Hinv Hk Hp Hd) as (t' & b & Eb & ? & ? & Hbest & _ & _ & Hall).
  exists t'. split_and!; [done|by destruct b|by rewrite Eb; intros [= ->]; apply Hbest|]. exists (deleted i). split; [|apply deleted_isDeleted].
  apply (Hall k i Hk). constructor. apply elem_of_live. eauto.
Qed.
End props.

(** ** A decision procedure for the invariant, for concrete trees *)
Section check.
Context {K H B A P Ext : Type} `{Countable K, Countable H, Countable P}.
Context `{BlockAddon A, BlockHash B H, BlockHeader B H K, WorkAddon A}.
Notation tree := (BaseBlockTree K H B A P Ext).
Notation index_t := (BlockIndex K B A).
Implicit Types (m : gmap K index_t) (i j : index_t) (t : tree) (k : K).

Definition bnode_check t k i : Prop :=
  Z.testbit (status i) 6 = false ∧
  (if isDeleted i then level (status i) = 0 else 2 <= level (status i)) ∧
  hash_key (header i) = k ∧
  match pprev i with
  | Some p => getPreviousBlock (header i) = p ∧
      match blocks_ t !! p with Some j => isDeleted j = true → isDeleted i = true | None => True end
  | None => height i = startHeight_ (activeChain_ t) ∧ isDeleted i = false
  end.

Definition chain_check m (c : Chain K) k i : Prop :=
  startHeight_ c <= height i ∧ length (chain c) = S (Z.to_nat (height i - startHeight_ c)) ∧
  Forall (λ n, chain c !! n = Some (back m (length (chain c) - 1 - n) k) ∧
    is_Some (back m (length (chain c) - 1 - n) k)) (seq 0 (length (chain c))).

Definition with_tip t (Q : K → index_t → Prop) : Prop :=
  match chain_tip (activeChain_ t) with
  | Some k => match blocks_ t !! k with Some i => Q k i | None => False end
  | None => False
  end.

Definition btree_check t : Prop :=
  inv_check t ∧ map_Forall (bnode_check t) (blocks_ t) ∧
  with_tip t (λ k i, chain_check (blocks_ t) (activeChain_ t) k i ∧ isDeleted i = false ∧
    isFailed i = false) ∧
  appliedBlockCount t = blocksCount (activeChain_ t) ∧ deferForkResolutionDepth t = 0 ∧
  isUpdateTipsDeferred t = false ∧ lastModifiedBlock t = None.

Definition best_check t : Prop :=
  with_tip t (λ _ it, set_Forall (λ x,
    match blocks_ t !! x with Some ix => work_of ix <= work_of it | None => True end) (tips_ t)).

#[export] Instance bnode_check_dec t k i : Decision (bnode_check t k i).
Proof.
  unfold bnode_check. apply and_dec; [apply _|]. apply and_dec; [destruct (isDeleted i); apply _|].
  apply and_dec; [apply _|]. destruct (pprev i) as [p|]; [|apply _].
  apply and_dec; [apply _|]. destruct (blocks_ t !! p); apply _.
Defined.

#[export] Instance with_tip_dec t Q : (∀ k i, Decision (Q k i)) → Decision (with_tip t Q).
Proof. intros. unfold with_tip. destruct (chain_tip _) as [k|]; [destruct (blocks_ t !! k)|]; apply _. Defined.

#[export] Instance btree_check_dec t : Decision (btree_check t).
Proof. apply _. Defined.

#[export] Instance best_check_dec t : Decision (best_check t).
Proof.
  apply with_tip_dec. intros k i. apply set_Forall_dec. intros x. destruct (blocks_ t !! x); apply _.
Defined.

Lemma chain_check_ok m c k i : m !! k = Some i → chain_check m c k i → chain_of m c k.
Proof.
  intros Hk (Hle & Hlen & Hall). exists i. split_and!; [done..|]. intros n Hn.
  rewrite Forall_forall in Hall. destruct (Hall n) as [E [x Hx]].
  { apply elem_of_seq. lia. }
  exists x. by rewrite E, Hx.
Qed.

Lemma btree_check_ok t : btree_check t → btree_inv t.
Proof.
  intros (Hi & Hn & Ht & Ha & Hd). constructor; [by apply inv_check_ok|..]; try done.
  - intros k i Hk. by destruct (Hn k i Hk).
  - intros k i Hk Hdel. destruct (Hn k i Hk) as (_ & Hl & _). by rewrite Hdel in Hl.
  - intros k i Hk Hdel. destruct (Hn k i Hk) as (_ & Hl & _). by rewrite Hdel in Hl.
  - intros k i p j Hk Hp Hj Hdel. destruct (Hn k i Hk) as (_ & _ & _ & Hpp).
    rewrite Hp, Hj in Hpp. naive_solver.
  - intros k i Hk. destruct (Hn k i Hk) as (_ & _ & Hh & Hpp). split; [done|]. intros p Hp.
    rewrite Hp in Hpp. naive_solver.
  - intros k i Hk Hp. destruct (Hn k i Hk) as (_ & _ & _ & Hpp). by rewrite Hp in Hpp.
  - unfold with_tip in Ht. destruct (chain_tip _) as [k|]; [|done].
    destruct (blocks_ t !! k) as [i|] eqn:Hk; [|done]. destruct Ht as (Hc & ? & ?).
    exists k, i. split_and!; [by eapply chain_check_ok|done..].
Qed.

Lemma best_check_ok t : best_check t → best_work t.
Proof.
  intros Hb tip x it ix Htip Hit Hx Hix. unfold best_check, with_tip in Hb.
  rewrite Htip, Hit in Hb. specialize (Hb x Hx). cbn in Hb. by rewrite Hix in Hb.
Qed.
End check.

(** A tree of five blocks built with the tree's own operations: a header is
    its hash, the hash of its previous block and its work; 4 is on the fork
    1 - 3 - 4, which has more work than 1 - 2. *)
Module Example_btree.
Notation header := (Z * Z * Z)%type.
Notation tree := (BaseBlockTree Z Z header Z Z unit).
#[export] Instance z_addon : BlockAddon Z := {| validTipLevel := 1; addon_setNull := id |}.
#[export] Instance z_payloads : PayloadIds Z Z := λ _, [].
#[export] Instance z_hash : BlockHash header Z := λ b, b.1.1.
#[export] Instance z_header : BlockHeader header Z Z := {|
  getPreviousBlock b := b.1.2; makePrevHash h := h; hashIsPrevious b := bool_decide (b.1.1 = b.1.2);
  sameBlock a b := bool_decide (a = b); sameBlock_refl b := bool_decide_eq_true_2 (b = b) eq_refl
|}.
#[export] Instance z_work : WorkAddon Z := {|
  chainWork a := a; set_chainWork w _ := w; setIsBootstrap a := a; clearBlockOfProofEndorsement a := a
|}.
#[export] Instance z_work_laws : WorkAddonLaws Z.
Proof. by split. Defined.
#[export] Instance z_rules : BlockRules Z header Z := {|
  block_name := "BTC";
  checkBlock b := if 0 <? b.2 then Ok () else invalid "no-work";
  contextuallyCheckBlock m p b := Ok ();
  getBlockProof b := b.2;
  numBlocksForBootstrap := 1; getOldBlocksWindow := 10; getMaxReorgBlocks := 10;
  preserveBlocksBehindFinal := 10
|}.

Lemma tip_level_1 : validTipLevel (A := Z) = 1.
Proof. reflexivity. Defined.

Definition run : result tree :=
  t ← bootstrapWithGenesis (HK := plain_hooks) 0 (0, 0, 0) (0, -1, 1) (emptyTree ());
  foldM (λ t b, r ← acceptBlockHeader (HK := plain_hooks) 0 (0, 0, 0) b t; Ok r.1)
    [(1, 0, 1); (2, 1, 1); (3, 1, 1); (4, 3, 1)] t.

Definition t1 : tree := match run with Ok t => t | _ => emptyTree () end.

Definition node (k : Z) : BlockIndex Z header Z :=
  match blocks_ t1 !! k with Some i => i | None => newRootIndex 0 (0, 0, 0) 0 end.

Lemma t1_tip : chain_tip (activeChain_ t1) = Some 4.
Proof. by vm_compute. Qed.

Lemma t1_inv : btree_inv t1.
Proof. apply btree_check_ok, (bool_decide_unpack _). by vm_compute. Defined.

Lemma t1_best : best_work t1.
Proof. apply best_check_ok, (bool_decide_unpack _). by vm_compute. Defined.
End Example_btree.
Import Example_btree.

(** 3 is on the active chain, 4 is its child. *)
Lemma invalidateSubtree_best_chain_witness :
  ∃ t', invalidateSubtree (HK := plain_hooks) 3 BLOCK_FAILED_BLOCK true t1 = Ok t' ∧
    btree_inv t' ∧ best_work t' ∧
    (∀ x, ancestor (blocks_ t') 3 x → ∃ j, blocks_ t' !! x = Some j ∧ isFailed j = true) ∧
    ∀ tip, chain_tip (activeChain_ t') = Some tip → ¬ ancestor (blocks_ t') 3 tip.
Proof.
  apply (invalidateSubtree_best_chain tip_level_1 t1 3 (node 3) 1);
    [apply t1_inv|apply t1_best|vm_compute; reflexivity..].
Defined.

Definition t1_invalidated : tree :=
  match invalidateSubtree (HK := plain_hooks) 3 BLOCK_FAILED_BLOCK true t1 with Ok t => t | _ => t1 end.

Lemma revalidateSubtree_best_chain_witness :
  ∃ t', revalidateSubtree (HK := plain_hooks) 3 BLOCK_FAILED_BLOCK true t1_invalidated = Ok t' ∧
    btree_inv t' ∧ best_work t' ∧
    ∃ j, blocks_ t' !! 3 = Some j ∧ Z.testbit (status j) 5 = false.
Proof.
  eapply (revalidateSubtree_best_chain tip_level_1 t1_invalidated 3 _ 1).
  - apply btree_check_ok, (bool_decide_unpack _). by vm_compute.
  - apply best_check_ok, (bool_decide_unpack _). by vm_compute.
  - vm_compute. reflexivity.
  - vm_compute. reflexivity.
Defined.

Lemma removeSubtree_best_chain_witness :
  ∃ t', removeSubtree (HK := plain_hooks) 3 t1 = Ok t' ∧ btree_inv t' ∧
    (contains (blocks_ t1) (activeChain_ t1) (Some 3) = Ok true → best_work t') ∧
    ∃ j, blocks_ t' !! 3 = Some j ∧ isDeleted j = true.
Proof.
  apply (removeSubtree_best_chain tip_level_1 t1 3 (node 3) 1);
    [apply t1_inv|vm_compute; reflexivity..].
Defined.
