(* ===== verification/AcceptHeader.v ===== *)
(** * Acceptance of headers in a plain block tree

    [acceptBlockHeader] never aborts, keeps [btree_inv] and leaves the active
    tip with the most work. *)
From S2P Require Import Prelude BlockIndex Chain TreeAlgo PayloadsIndex BaseTree TreeInv TreeRemove TreeStorage BlockTree BlockTreeInv.

Section accept.
Context {K H B A P Ext SA : Type} `{Countable K, Countable H, Countable P, EqDecision B}.
Context `{BlockAddon A, PayloadIds A P, BlockHash B H, BlockHeader B H K, StoredAddon A SA}.
Context `{WorkAddon A, !BlockRules K B A}.
Notation tree := (BaseBlockTree K H B A P Ext).
Notation index_t := (BlockIndex K B A).
Implicit Types (m : gmap K index_t) (i j : index_t) (t tb : tree) (k p x : K) (b : B).
Variables (newAddon : A) (newHeader : B).
Hypothesis tip_level : validTipLevel = 1.
Context {g : guard_state}.
#[local] Notation btree_inv := (btree_at g).

Lemma chain_of_mono m m' c k :
  (∀ x i, m !! x = Some i → ∃ i', m' !! x = Some i' ∧ height i' = height i ∧ pprev i' = pprev i) →
  chain_of m c k → chain_of m' c k.
Proof.
  intros Hm (i & Hk & Hle & Hlen & Hall). destruct (Hm k i Hk) as (i' & Hk' & Eh & _).
  assert (∀ n x y, back m n x = Some y → back m' n x = Some y) as Hback.
  { induction n as [|n IH]; intros x y; simpl; [done|].
    destruct (m !! x) as [ix|] eqn:Ex; simpl; [|done].
    destruct (Hm x ix Ex) as (ix' & -> & _ & Ep). simpl. rewrite Ep.
    destruct (pprev ix); simpl; [apply IH|done]. }
  exists i'. rewrite Eh. split_and!; [done..|]. intros n Hn. destruct (Hall n Hn) as (x & ? & ?). eauto.
Qed.

(** A new leaf [k] below [p]. *)
Lemma wf_leaf m k p i j : wf_store m → m !! k = None → m !! p = Some j →
  pprev i = Some p → pnext i = ∅ → height i = height j + 1 →
  wf_store (<[k := i]> (<[p := with_links (pprev j) ({[k]} ∪ pnext j) j]> m)).
Proof.
  intros W Hk Hp Hpi Hni Hhi. assert (k ≠ p) as Hkp by congruence.
  set (j' := with_links _ _ j). set (m' := <[k := i]> _).
  assert (m' !! k = Some i) as Mk by apply lookup_insert_eq.
  assert (m' !! p = Some j') as Mp by (unfold m'; rewrite lookup_insert_ne, lookup_insert_eq; done).
  assert (∀ x, x ≠ k → x ≠ p → m' !! x = m !! x) as Mo.
  { intros x ??. unfold m'. by rewrite !lookup_insert_ne. }
  assert (∀ x jx, m !! x = Some jx → ∃ jx', m' !! x = Some jx' ∧ height jx' = height jx ∧
    pprev jx' = pprev jx ∧ pnext jx ⊆ pnext jx') as Mold.
  { intros x jx Hx. destruct (decide (x = p)) as [->|Hxp].
    - exists j'. assert (jx = j) as -> by congruence. split_and!; [done|done|done|]. cbn. set_solver.
    - exists jx. rewrite Mo; [done|congruence|done]. }
  pose proof (wf_height _ W _ _ Hp).
  constructor.
  - intros x ix Hx. destruct (decide (x = k)) as [->|Hxk]; [assert (ix = i) as -> by congruence; lia|].
    destruct (decide (x = p)) as [->|Hxp]; [assert (ix = j') as -> by congruence; done|].
    rewrite Mo in Hx by done. by eapply wf_height.
  - intros x ix q Hx Hq. destruct (decide (x = k)) as [->|Hxk].
    + assert (ix = i) as -> by congruence. assert (q = p) as -> by congruence.
      exists j'. split_and!; [done|done|]. cbn. set_solver.
    + assert (∃ ix0, m !! x = Some ix0 ∧ height ix0 = height ix ∧ pprev ix0 = pprev ix)
        as (ix0 & Hx0 & Eh & Ep).
      { destruct (decide (x = p)) as [->|Hxp]; [|exists ix; by rewrite <- Mo].
        assert (ix = j') as -> by congruence. by exists j. }
      destruct (wf_prev _ W x ix0 q) as (jq & Hjq & Hh & Hin); [done|congruence|].
      destruct (Mold q jq Hjq) as (jq' & ? & ? & ? & ?). exists jq'. split_and!; [done|lia|set_solver].
  - intros x ix c Hx Hc. destruct (decide (x = k)) as [->|Hxk].
    { assert (ix = i) as -> by congruence. rewrite Hni in Hc. set_solver. }
    destruct (decide (c = k)) as [->|Hck].
    + destruct (decide (x = p)) as [->|Hxp]; [by exists i|].
      rewrite Mo in Hx by done. destruct (wf_next _ W x ix k) as (? & ? & _); [done..|]. congruence.
    + assert (∃ ix0, m !! x = Some ix0 ∧ c ∈ pnext ix0) as (ix0 & Hx0 & Hc0).
      { destruct (decide (x = p)) as [->|Hxp]; [|exists ix; by rewrite <- Mo].
        assert (ix = j') as -> by congruence. exists j. split; [done|]. cbn in Hc. set_solver. }
      destruct (wf_next _ W x ix0 c) as (jc & Hjc & Hpc); [done..|].
      destruct (Mold c jc Hjc) as (jc' & ? & _ & ? & _). exists jc'. split; [done|congruence].
Qed.

(** Adding a child does not change the rest of a node. *)
Definition new_node j p b : index_t := setHeader b (newIndex p j newHeader newAddon).

Lemma new_node_facts j p b :
  pprev (new_node j p b) = Some p ∧ pnext (new_node j p b) = ∅ ∧
  height (new_node j p b) = height j + 1 ∧ header (new_node j p b) = b ∧
  isDeleted (new_node j p b) = true ∧ level (status (new_node j p b)) = 0 ∧
  Z.testbit (status (new_node j p b)) 6 = false ∧
  Z.testbit (status (new_node j p b)) 7 = isFailed j.
Proof. unfold new_node, newIndex. destruct (isFailed j); cbn; done. Qed.

Lemma new_node_addon j p b : addon (new_node j p b) = newAddon.
Proof. unfold new_node, newIndex. by destruct (isFailed j). Qed.

Lemma isBootstrapped_ok t : btree_inv t → isBootstrapped t = Ok true.
Proof.
  intros Hinv. destruct (tip_lookup t Hinv) as (k & i & Ht & Hk & _).
  unfold isBootstrapped. rewrite Ht. rewrite bool_decide_eq_false_2; [done|].
  intros E. by rewrite E, lookup_empty in Hk.
Qed.

(** Nodes that differ in their children and dirty mark only. *)
Definition same_data i i' : Prop :=
  status i' = status i ∧ height i' = height i ∧ pprev i' = pprev i ∧ header i' = header i ∧ addon i' = addon i.

Lemma same_data_work i i' : same_data i i' → work_of i' = work_of i.
Proof. intros (_ & _ & _ & _ & Ea). unfold work_of. by rewrite Ea. Qed.

(** A tree that differs from [t] in one deleted node [k] at most. *)
Record prepared t tb k p b : Prop := {
  pr_inv : btree_inv tb;
  pr_tips : tips_ tb = tips_ t;
  pr_chain : activeChain_ tb = activeChain_ t;
  pr_node : ∃ i, blocks_ tb !! k = Some i ∧ isDeleted i = true ∧ pprev i = Some p ∧ header i = b ∧
    (blocks_ t !! k = None ∧ addon i = newAddon ∨ blocks_ t !! k = Some i);
  pr_prev : ∃ j j0, blocks_ tb !! p = Some j ∧ isDeleted j = false ∧
    blocks_ t !! p = Some j0 ∧ isFailed j = isFailed j0;
  pr_data : ∀ x i, x ≠ k → blocks_ t !! x = Some i → ∃ i', blocks_ tb !! x = Some i' ∧ same_data i i';
  pr_data_inv : ∀ x i', x ≠ k → blocks_ tb !! x = Some i' → ∃ i, blocks_ t !! x = Some i ∧ same_data i i'
}.

Lemma create_ok t b k p jp : btree_inv t → hash_key b = k → getPreviousBlock b = p →
  blocks_ t !! k = None → blocks_ t !! p = Some jp → isDeleted jp = false → height jp < INT32_MAX →
  ∃ tb, doInsertBlockHeader newAddon newHeader b 0 t = Ok tb ∧ prepared t tb k p b.
Proof.
  intros Hinv Hhk Hpb Hk Hp Hd Hhp. unfold doInsertBlockHeader, getBlockIndex.
  pose proof (wf_height _ (so_wf _ (ti_store _ (bi_inv _ _ Hinv))) p jp Hp) as Hhp0.
  rewrite Hpb, Hp, Hd, (isBootstrapped_ok t Hinv). cbn [mbind result_bind Bool.eqb vassert].
  unfold createBlockIndex. rewrite Hhk, (deref_eq _ _ _ Hp). cbn [mbind result_bind].
  rewrite bool_decide_eq_true_2 by done. cbn [vassert mbind result_bind].
  rewrite (ckS_ok 32) by (unfold INT32_MAX in *; lia). cbn [mbind result_bind].
  unfold modify. cbn [with_blocks blocks_].
  rewrite (deref_eq _ k (newIndex p jp newHeader newAddon)) by apply lookup_insert_eq.
  cbn [mbind result_bind]. eexists. split; [done|]. fold (new_node jp p b).
  set (jp' := with_links (pprev jp) ({[k]} ∪ pnext jp) jp).
  destruct (new_node_facts jp p b) as (Np & Nn & Nh & Nb & Nd & Nl & N6 & N7).
  set (nn := new_node jp p b) in *.
  match goal with |- prepared _ ?T _ _ _ => set (tb := T) end.
  assert (blocks_ tb = <[k := nn]> (<[p := jp']> (blocks_ t))) as Eb.
  { cbn. by rewrite insert_insert_eq. }
  assert (k ≠ p) as Hkp by congruence.
  assert (blocks_ tb !! k = Some nn) as Mk by (rewrite Eb; apply lookup_insert_eq).
  assert (blocks_ tb !! p = Some jp') as Mp by (rewrite Eb, lookup_insert_ne, lookup_insert_eq; done).
  assert (∀ x, x ≠ k → x ≠ p → blocks_ tb !! x = blocks_ t !! x) as Mo.
  { intros x ??. rewrite Eb. by rewrite !lookup_insert_ne. }
  pose proof (bi_inv _ _ Hinv) as [[W Hst] Hcf Htips].
  assert (wf_store (blocks_ tb)) as W'.
  { rewrite Eb. apply wf_leaf; done. }
  (* every other node is unchanged but for the children of [p] *)
  assert (∀ x i', x ≠ k → blocks_ tb !! x = Some i' → ∃ i, blocks_ t !! x = Some i ∧
    status i' = status i ∧ height i' = height i ∧ pprev i' = pprev i ∧ header i' = header i ∧
    addon i' = addon i ∧ (∀ c, c ≠ k → (c ∈ pnext i' ↔ c ∈ pnext i))) as Mback.
  { intros x i' Hx Hi'. destruct (decide (x = p)) as [->|Hxp].
    - assert (i' = jp') as -> by congruence. exists jp. split_and!; try done. cbn. set_solver.
    - rewrite Mo in Hi' by done. exists i'. split_and!; done. }
  assert (∀ x i, blocks_ t !! x = Some i → x ≠ k ∧ ∃ i', blocks_ tb !! x = Some i' ∧
    status i' = status i ∧ height i' = height i ∧ pprev i' = pprev i ∧ header i' = header i ∧
    addon i' = addon i ∧ (∀ c, c ≠ k → (c ∈ pnext i' ↔ c ∈ pnext i))) as Mfwd.
  { intros x i Hi. assert (x ≠ k) as Hx by congruence. split; [done|].
    destruct (decide (x = p)) as [->|Hxp].
    - assert (i = jp) as -> by congruence. exists jp'. split_and!; try done. cbn. set_solver.
    - exists i. rewrite Mo by done. split_and!; done. }
  assert (∀ i i' : index_t, status i' = status i → can_tip i' = can_tip i ∧ isFailed i' = isFailed i ∧
    isDeleted i' = isDeleted i) as Hst_eq.
  { intros i i' E. unfold can_tip, isDeleted, hasFlags, isFailed. by rewrite E. }
  assert (can_tip nn = false) as Hcn by (unfold can_tip; by rewrite Nd).
  assert (∀ x i i', x ≠ k → blocks_ t !! x = Some i → blocks_ tb !! x = Some i' →
    (valid_tip (blocks_ tb) i' ↔ valid_tip (blocks_ t) i)) as Hvt.
  { intros x i i' Hx Hi Hi'. destruct (Mfwd x i Hi) as (_ & i0 & Hi0 & Es & _ & _ & _ & _ & En).
    assert (i0 = i') as -> by congruence. unfold valid_tip. rewrite (proj1 (Hst_eq _ _ Es)).
    split; intros [Hc Hall]; (split; [done|]); intros c jc Hc' Hjc.
    - destruct (Mfwd c jc Hjc) as (Hck & jc' & Hjc' & Esc & _).
      rewrite <- (proj1 (Hst_eq _ _ Esc)). apply (Hall c); [by apply En|done].
    - destruct (decide (c = k)) as [->|Hck]; [by assert (jc = nn) as -> by congruence|].
      destruct (Mback c jc Hck Hjc) as (jc0 & Hjc0 & Esc & _).
      rewrite (proj1 (Hst_eq _ _ Esc)). apply (Hall c); [by apply En|done]. }
  split; [|done|done|exists nn; split_and!; [done..|]; left; split; [done|apply new_node_addon]|by exists jp', jp| |].
  - constructor; [constructor; [split; [done|]| |]|..].
    + intros x i' Hi'. destruct (decide (x = k)) as [->|Hx].
      * assert (i' = nn) as -> by congruence. unfold status_ok. rewrite Nl. lia.
      * destruct (Mback x i' Hx Hi') as (i & Hi & -> & _). eauto.
    + intros x i' q jq Hi' Hq Hjq. destruct (decide (x = k)) as [->|Hx].
      * assert (i' = nn) as -> by congruence. assert (q = p) as -> by congruence.
        by assert (jq = jp') as -> by congruence.
      * destruct (Mback x i' Hx Hi') as (i & Hi & Es & _ & Ep & _). rewrite Es.
        destruct (wf_prev _ W x i q) as (jq0 & Hjq0 & _); [done|congruence|].
        destruct (Mfwd q jq0 Hjq0) as (_ & jq' & Hjq' & Esq & _).
        assert (jq' = jq) as -> by congruence. rewrite (proj1 (proj2 (Hst_eq _ _ Esq))).
        apply (Hcf x i q); [done|congruence|done].
    + intros x. cbn [tb with_blocks tips_]. rewrite Htips. split.
      * intros (i & Hi & Hv). destruct (Mfwd x i Hi) as (Hx & i' & Hi' & _). exists i'.
        split; [done|]. by apply (Hvt x i i').
      * intros (i' & Hi' & Hv). destruct (decide (x = k)) as [->|Hx].
        -- assert (i' = nn) as -> by congruence. destruct Hv as [Hv _]. congruence.
        -- destruct (Mback x i' Hx Hi') as (i & Hi & _). exists i. split; [done|]. by apply (Hvt x i i').
    + intros x i' Hi'. destruct (decide (x = k)) as [->|Hx]; [congruence|].
      destruct (Mback x i' Hx Hi') as (i & Hi & -> & _). by eapply bi_pop.
    + intros x i' Hi' Hd'. destruct (decide (x = k)) as [->|Hx]; [congruence|].
      destruct (Mback x i' Hx Hi') as (i & Hi & Es & _). rewrite Es. eapply bi_conn; [done|done|].
      rewrite <- Hd'. symmetry. by apply Hst_eq.
    + intros x i' Hi' Hd'. destruct (decide (x = k)) as [->|Hx]; [congruence|].
      destruct (Mback x i' Hx Hi') as (i & Hi & Es & _). rewrite Es. eapply bi_dlevel; [done|done|].
      rewrite <- Hd'. symmetry. by apply Hst_eq.
    + intros x i' q jq Hi' Hq Hjq Hdq. destruct (decide (x = k)) as [->|Hx]; [congruence|].
      destruct (Mback x i' Hx Hi') as (i & Hi & Es & _ & Ep & _).
      destruct (wf_prev _ W x i q) as (jq0 & Hjq0 & _); [done|congruence|].
      destruct (Mfwd q jq0 Hjq0) as (_ & jq' & Hjq' & Esq & _).
      assert (jq' = jq) as -> by congruence. rewrite (proj2 (proj2 (Hst_eq _ _ Es))).
      rewrite (proj2 (proj2 (Hst_eq _ _ Esq))) in Hdq.
      eapply (bi_del _ _ Hinv x i q jq0); [done|congruence|done|done].
    + intros x i' Hi'. destruct (decide (x = k)) as [->|Hx].
      * assert (i' = nn) as -> by congruence. rewrite Nb, Np. split; [done|]. congruence.
      * destruct (Mback x i' Hx Hi') as (i & Hi & _ & _ & -> & -> & _). by eapply bi_key.
    + intros x i' Hi' Hr. destruct (decide (x = k)) as [->|Hx]; [congruence|].
      destruct (Mback x i' Hx Hi') as (i & Hi & Es & -> & Ep & _).
      rewrite (proj2 (proj2 (Hst_eq _ _ Es))). apply (bi_root _ _ Hinv x i Hi). congruence.
    + destruct (bi_tip _ _ Hinv) as (x & i & Hc & Hi & Hdt & Hft).
      destruct (Mfwd x i Hi) as (_ & i' & Hi' & Es & _). exists x, i'. split_and!.
      * eapply chain_of_mono; [|exact Hc]. intros y iy Hy.
        destruct (Mfwd y iy Hy) as (_ & iy' & ? & _ & ? & ? & _). by exists iy'.
      * done.
      * rewrite <- Hdt. by apply Hst_eq.
      * rewrite <- Hft. by apply Hst_eq.
    + apply Hinv.
    + apply Hinv.
  - intros x i Hx Hi. destruct (Mfwd x i Hi) as (_ & i' & Hi' & ? & ? & ? & ? & ? & _).
    exists i'. split; [done|]. by split_and!.
  - intros x i' Hx Hi'. destruct (Mback x i' Hx Hi') as (i & Hi & ? & ? & ? & ? & ? & _).
    exists i. split; [done|]. by split_and!.
Qed.

(** ** Activation of a deleted node *)
Record activated i i' : Prop := {
  ac_links : same_links i i';
  ac_header : header i' = header i;
  ac_failed : ∀ n, 5 <= n <= 7 → Z.testbit (status i') n = Z.testbit (status i) n;
  ac_deleted : isDeleted i' = false;
  ac_level : level (status i') = 2
}.

Lemma activated_failed i i' : activated i i' → isFailed i' = isFailed i.
Proof. intros [_ _ Hb _ _]. rewrite !isFailed_bits. by rewrite !Hb by lia. Qed.

Lemma deleted_cannot_tip i : isDeleted i = true → can_tip i = false.
Proof. unfold can_tip. by intros ->. Qed.

(** The children of a deleted block are deleted. *)
Lemma deleted_children t k i c j : btree_inv t → blocks_ t !! k = Some i → isDeleted i = true →
  c ∈ pnext i → blocks_ t !! c = Some j → isDeleted j = true.
Proof.
  intros Hinv Hk Hd Hc Hj. pose proof (so_wf _ (ti_store _ (bi_inv _ _ Hinv))) as W.
  destruct (wf_next _ W k i c) as (j' & Hj' & Hp); [done..|]. assert (j' = j) as -> by congruence.
  by eapply (bi_del _ _ Hinv c j k i).
Qed.

Lemma activate_inv t t' k i i' p jp : btree_inv t → blocks_ t !! k = Some i → isDeleted i = true →
  pprev i = Some p → blocks_ t !! p = Some jp → isDeleted jp = false → activated i i' →
  blocks_ t' = <[k := i']> (blocks_ t) → same_rest t t' → tree_inv t' → btree_inv t'.
Proof.
  intros Hinv Hk Hd Hp Hjp Hdp Hact Eb (Ec & Ea & Ed & Eu & El & _) Hinv'.
  pose proof Hact as [(El1 & El2 & El3) Eh Hbits Hd' Hl'].
  assert (k ≠ p) as Hkp by (eapply (prev_ne (blocks_ t)); [apply Hinv|done|done]).
  assert (∀ x ix', blocks_ t' !! x = Some ix' → x = k ∧ ix' = i' ∨ x ≠ k ∧ blocks_ t !! x = Some ix')
    as Hback.
  { intros x ix'. rewrite Eb. destruct (decide (x = k)) as [->|].
    - rewrite lookup_insert_eq. intros [= <-]. by left.
    - rewrite lookup_insert_ne by done. by right. }
  constructor; rewrite <- ?Ec, <- ?Ea, <- ?Ed, <- ?Eu, <- ?El; try apply Hinv.
  - done.
  - intros x ix [[-> ->]|[_ Hix]]%Hback; [|by eapply bi_pop].
    rewrite Hbits by lia. by eapply bi_pop.
  - intros x ix [[-> ->]|[_ Hix]]%Hback; [lia|by eapply bi_conn].
  - intros x ix [[-> ->]|[_ Hix]]%Hback; [congruence|by eapply bi_dlevel].
  - intros x ix q jq [[-> ->]|[Hx Hix]]%Hback Hq Hjq Hdq.
    + assert (q = p) as -> by congruence. rewrite Eb, lookup_insert_ne in Hjq by done. congruence.
    + apply Hback in Hjq as [[-> ->]|[_ Hjq]]; [congruence|].
      by eapply (bi_del _ _ Hinv x ix q jq).
  - intros x ix [[-> ->]|[_ Hix]]%Hback; [|by eapply bi_key].
    rewrite Eh, <- El2. by apply (bi_key _ _ Hinv).
  - intros x ix [[-> ->]|[_ Hix]]%Hback Hq; [congruence|by apply (bi_root _ _ Hinv x)].
  - destruct (bi_tip _ _ Hinv) as (x & ix & Hc & Hix & Hdx & Hfx). exists x, ix.
    split_and!; [|by rewrite Eb, lookup_insert_ne by congruence|done|done].
    eapply chain_of_links; [|exact Hc]. rewrite Eb.
    by apply (store_rel_insert same_links _ k i); [apply _|..].
Qed.

(** The failure of a block activated below a failed or a valid block. *)
Lemma activate_tips t t1 k i i' : btree_inv t → blocks_ t !! k = Some i → isDeleted i = true →
  activated i i' → blocks_ t1 = <[k := i']> (blocks_ t) → tips_ t1 = tips_ t → same_rest t t1 →
  (isFailed i' = true → tree_inv t1) ∧
  ∃ t2, tryAddTip k t1 = Ok t2 ∧ blocks_ t2 = blocks_ t1 ∧ same_rest t t2 ∧ tree_inv t2.
Proof.
  intros Hinv Hk Hd Hact Eb Et Hrest. pose proof (bi_inv _ _ Hinv) as [Hok Hchild Htips].
  pose proof (activated_failed _ _ Hact) as Ef.
  assert (store_ok (blocks_ t1)) as Hok1.
  { rewrite Eb. eapply store_ok_links; [done|done|apply Hact|]. unfold status_ok.
    rewrite (ac_level _ _ Hact). lia. }
  assert (∀ x, child_flag_ok (blocks_ t1) x) as Hchild1.
  { intros x. rewrite Eb. destruct (decide (x = k)) as [->|].
    - intros j q jq Hj Hq Hjq. rewrite lookup_insert_eq in Hj. injection Hj as <-.
      rewrite (ac_failed _ _ Hact) by lia. destruct (ac_links _ _ Hact) as (_ & Ep & _).
      rewrite <- Ep in Hq. assert (k ≠ q) by (eapply (prev_ne (blocks_ t)); [apply Hok|done|done]).
      rewrite lookup_insert_ne in Hjq by done. by apply (Hchild k i q jq).
    - apply (child_flag_links _ k i i'); [apply Hok|done|apply Hact|done|by left|done]. }
  split.
  - intros Hf. constructor; [done|done|]. intros x. rewrite Et, Eb, Htips.
    symmetry. apply (is_valid_tip_update _ k i i'); [done|apply Hact|].
    by rewrite can_tip_failed, deleted_cannot_tip.
  - destruct (tryAddTip_enable t t1 k i i') as (t2 & Ht2 & E2 & Htips2);
      [done|done|done|apply Hact|done|done|by apply deleted_cannot_tip| |done|].
    { intros c j Hc Hj. apply deleted_cannot_tip. by eapply (deleted_children t k i c j). }
    exists t2. rewrite E2. cbn [with_tips blocks_]. split_and!; [rewrite Ht2, <- E2; done|done| |].
    + unfold same_rest in *. cbn. done.
    + constructor; cbn [with_tips blocks_ tips_]; done.
Qed.

(** ** [insertBlockHeader] *)
Context `{!WorkAddonLaws A}.
Definition inserted_work b (jp : index_t) : Z := add256 (getBlockProof b) (work_of jp).

Definition inserted_node b i (jp : index_t) : index_t :=
  set_work (inserted_work b jp) (set_work (getBlockProof b) (unsetFlag BLOCK_DELETED i)).

Lemma inserted_node_facts b i jp :
  same_links i (inserted_node b i jp) ∧ header (inserted_node b i jp) = header i ∧
  work_of (inserted_node b i jp) = inserted_work b jp ∧
  (∀ n, 0 <= n → Z.testbit (status (inserted_node b i jp)) n = Z.testbit (status i) n && negb (n =? 10)).
Proof.
  unfold inserted_node, set_work, work_of. cbn [with_addon addon header status].
  rewrite chainWork_set. split_and!; [|by unfold unsetFlag; destruct (_ =? _)|done|].
  - destruct (unsetFlag_links BLOCK_DELETED i) as (E1 & E2 & E3). unfold same_links. by cbn.
  - intros n Hn. change BLOCK_DELETED with (Z.shiftl 1 10). by apply unsetFlag_bit.
Qed.

Lemma inserted_level b i jp : level (status (inserted_node b i jp)) = level (status i).
Proof.
  apply level_eq. intros n Hn. destruct (inserted_node_facts b i jp) as (_ & _ & _ & Hb). rewrite Hb by lia.
  destruct (Z.eqb_spec n 10); [lia|]. by rewrite andb_true_r.
Qed.

Lemma raised_activated b i jp :
  level (status i) <= 2 → activated i (raised 2 (raised 1 (inserted_node b i jp))).
Proof.
  destruct (inserted_node_facts b i jp) as (Hl & Eh & _ & Hb). pose proof (inserted_level b i jp) as El.
  set (j := inserted_node b i jp) in *.
  assert (same_node (raised 2 (raised 1 j)) j) as Hsn by (by rewrite !raised_node).
  intros Hle.
  constructor.
  - etrans; [exact Hl|]. symmetry. by apply same_node_links.
  - rewrite <- Eh. apply Hsn.
  - intros n Hn. rewrite !raised_bit, Hb by lia. destruct (Z.eqb_spec n 10); [lia|]. by rewrite andb_true_r.
  - rewrite (proj2 (raised_flags 2 _ ltac:(lia))), (proj2 (raised_flags 1 _ ltac:(lia))). unfold isDeleted.
    change BLOCK_DELETED with (Z.shiftl 1 10). rewrite hasFlags_bit, Hb by lia. by rewrite andb_false_r.
  - rewrite !raised_level by lia. lia.
Qed.

Lemma tryAddTip_low t k i : store_ok (blocks_ t) → blocks_ t !! k = Some i → level (status i) = 0 →
  tryAddTip k t = Ok t.
Proof.
  intros Hok Hk Hl. unfold tryAddTip. rewrite (deref_eq _ _ _ Hk). cbn [mbind result_bind].
  destruct (isValidTip_eq (blocks_ t) k i) as (v & -> & Hv); [apply Hok..|done|].
  cbn [mbind result_bind]. destruct v; [|done]. exfalso. destruct Hv as [[Hc _] _]; [done|].
  unfold can_tip in Hc. rewrite tip_level, Hl in Hc. by rewrite andb_false_r in Hc.
Qed.

Lemma with_blocks_twice t k i j :
  with_blocks <[k := j]> (with_blocks <[k := i]> t) = with_blocks <[k := j]> t.
Proof. unfold with_blocks. cbn. by rewrite insert_insert_eq. Qed.

Lemma undeleted_status_ok i : status_ok (status i) → Z.testbit (status i) 6 = false →
  status_ok (status (unsetFlag BLOCK_DELETED i)).
Proof.
  intros [Hl _] Hb6. unfold status_ok. change BLOCK_DELETED with (Z.shiftl 1 10).
  rewrite unsetFlag_bit, Hb6 by lia. split; [|cbn; lia].
  assert (level (status (unsetFlag (Z.shiftl 1 10) i)) = level (status i)) as ->; [|done].
  apply level_eq. intros n Hn. rewrite unsetFlag_bit by lia.
  destruct (Z.eqb_spec n 10); [lia|]. by rewrite andb_true_r.
Qed.

(** The code that runs after a node was created or found deleted. *)
Definition activation (k : K) t : result (tree * K) :=
  i ← deref (blocks_ t) k;
  i ← restore i;
  let t := with_blocks <[k := i]> t in
  t ← tryAddTip k t;
  t ← onBlockInserted (TreeHooks := plain_hooks) k t;
  r ← node_raiseValidity k BLOCK_VALID_TREE t;
  Ok (r.1, k).

Lemma activation_ok t k i p jp : btree_inv t → blocks_ t !! k = Some i → isDeleted i = true →
  pprev i = Some p → blocks_ t !! p = Some jp → isDeleted jp = false →
  activation k t = Ok (with_blocks <[k := raised 1 (inserted_node (header i) i jp)]> t, k).
Proof.
  intros Hinv Hk Hd Hp Hjp Hdp. pose proof (ti_store _ (bi_inv _ _ Hinv)) as Hok.
  assert (k ≠ p) as Hkp by (eapply (prev_ne (blocks_ t)); [apply Hinv|done|done]).
  unfold activation. rewrite (deref_eq _ _ _ Hk). cbn [mbind result_bind]. unfold restore. rewrite Hd.
  cbn [mbind result_bind vassert]. set (i1 := unsetFlag BLOCK_DELETED i).
  pose proof (unsetFlag_links BLOCK_DELETED i) as Hl1. fold i1 in Hl1.
  rewrite (tryAddTip_low _ k i1).
  2: { apply (store_ok_links _ k i); [done|done|by symmetry|].
       apply undeleted_status_ok; [by eapply so_status|by eapply bi_pop]. }
  2: { cbn. apply lookup_insert_eq. }
  2: { rewrite <- (bi_dlevel _ _ Hinv k i Hk Hd). apply level_eq. intros n Hn. unfold i1.
       change BLOCK_DELETED with (Z.shiftl 1 10). rewrite unsetFlag_bit by lia.
       destruct (Z.eqb_spec n 10); [lia|]. by rewrite andb_true_r. }
  cbn [mbind result_bind onBlockInserted plain_hooks]. unfold updateChainWork.
  cbn [with_blocks blocks_]. rewrite (deref_eq _ k i1) by apply lookup_insert_eq.
  cbn [mbind result_bind]. assert (pprev (set_work (getBlockProof (header i1)) i1) = Some p) as ->.
  { cbn. destruct Hl1 as (_ & -> & _). done. }
  rewrite (deref_eq _ p jp) by (by rewrite lookup_insert_ne).
  cbn [mbind result_bind]. fold (with_blocks <[k := i1]> t). rewrite with_blocks_twice.
  assert (set_work _ (set_work (getBlockProof (header i1)) i1) = inserted_node (header i) i jp) as ->.
  { unfold inserted_node. fold i1. assert (header i1 = header i) as -> by (unfold i1, unsetFlag; by destruct (_ =? _)).
    do 2 f_equal. unfold work_of, set_work. cbn. by rewrite chainWork_set. }
  set (i2 := inserted_node (header i) i jp).
  destruct (inserted_node_facts (header i) i jp) as ((_ & Ep & _) & _ & _ & Hb). fold i2 in Ep, Hb.
  rewrite (raise_ok _ k i2).
  - cbn [mbind result_bind fst]. by rewrite with_blocks_twice.
  - cbn. apply lookup_insert_eq.
  - rewrite Hb by lia. by rewrite (bi_pop _ _ Hinv k i Hk).
  - intros q Hq. assert (q = p) as -> by congruence. exists jp. cbn. rewrite lookup_insert_ne by done.
    pose proof (bi_conn _ _ Hinv p jp Hjp Hdp). pose proof (so_status _ Hok p jp Hjp) as [? _].
    change BLOCK_VALID_TREE with 1. split_and!; [done|lia|lia].
Qed.

(** Raising to [BLOCK_CONNECTED] afterwards. *)
Lemma connect_ok t k i p jp : btree_inv t → blocks_ t !! k = Some i → isDeleted i = true →
  pprev i = Some p → blocks_ t !! p = Some jp → isDeleted jp = false →
  let i3 := raised 1 (inserted_node (header i) i jp) in
  node_raiseValidity k BLOCK_CONNECTED (with_blocks <[k := i3]> t) =
    Ok (with_blocks <[k := raised 2 i3]> t, true).
Proof.
  intros Hinv Hk Hd Hp Hjp Hdp i3. pose proof (ti_store _ (bi_inv _ _ Hinv)) as Hok.
  assert (k ≠ p) as Hkp by (eapply (prev_ne (blocks_ t)); [apply Hinv|done|done]).
  destruct (inserted_node_facts (header i) i jp) as ((_ & Ep & _) & _ & _ & Hb).
  pose proof (inserted_level (header i) i jp) as El. rewrite (bi_dlevel _ _ Hinv k i Hk Hd) in El.
  assert (level (status i3) = 1) as El3 by (unfold i3; rewrite raised_level by lia; lia).
  rewrite (raise_ok _ k i3).
  - rewrite El3. change BLOCK_CONNECTED with 2. by rewrite with_blocks_twice.
  - cbn. apply lookup_insert_eq.
  - unfold i3. rewrite raised_bit, Hb by lia. by rewrite (bi_pop _ _ Hinv k i Hk).
  - intros q Hq. assert (q = p) as ->.
    { destruct (raised_node 1 (inserted_node (header i) i jp)) as (_ & _ & Ep' & _).
      fold i3 in Ep'. congruence. }
    exists jp. cbn. rewrite lookup_insert_ne by done.
    pose proof (bi_conn _ _ Hinv p jp Hjp Hdp). pose proof (so_status _ Hok p jp Hjp) as [? _].
    change BLOCK_CONNECTED with 2. split_and!; [done|lia|lia].
Qed.

Lemma insertBlockHeader_fresh t tb k p b : hashIsPrevious b = false → hash_key b = k →
  (blocks_ t !! k = None ∧ doInsertBlockHeader newAddon newHeader b 0 t = Ok tb ∨
   tb = t ∧ ∃ i, blocks_ t !! k = Some i ∧ isDeleted i = true ∧ header i = b) →
  prepared t tb k p b →
  insertBlockHeader (HK := plain_hooks) newAddon newHeader b 0 t = activation k tb.
Proof.
  intros Hsane <- Hcase _. unfold insertBlockHeader. rewrite Hsane. cbn [negb vassert mbind result_bind].
  destruct Hcase as [[Hk Hins]|(-> & i & Hk & Hd & Eb)]; rewrite Hk.
  - rewrite Hins. done.
  - rewrite Hd, Eb, sameBlock_refl. done.
Qed.

Lemma insertBlockHeader_present t k b i : hashIsPrevious b = false → hash_key b = k →
  blocks_ t !! k = Some i → isDeleted i = false →
  insertBlockHeader (HK := plain_hooks) newAddon newHeader b 0 t = Ok (t, k).
Proof.
  intros Hsane <- Hk Hd. unfold insertBlockHeader. rewrite Hsane. cbn [negb vassert mbind result_bind].
  by rewrite Hk, Hd.
Qed.

(** What [acceptBlockHeader] does once the node is connected. *)
Definition accept_rest (prev k : K) t : result (tree * (list string + K)) :=
  jp ← deref (blocks_ t) prev;
  v ← isValid BLOCK_VALID_TREE jp;
  if negb v then
    t ← modify k (setFlag BLOCK_FAILED_CHILD) t;
    Ok (t, inl [(block_name +:+ "-bad-chain")%string])
  else
    t ← tryAddTip k t;
    t ← determineBestChain (TreeHooks := plain_hooks) k t;
    Ok (t, inr k).

Lemma accept_unfold t b p jp : checkBlock b = Ok () → getPreviousBlock b = p →
  blocks_ t !! p = Some jp → isDeleted jp = false →
  contextuallyCheckBlock (blocks_ t) p b = Ok () →
  acceptBlockHeader (HK := plain_hooks) newAddon newHeader b t =
    (r ← insertBlockHeader (HK := plain_hooks) newAddon newHeader b 0 t;
     s ← node_raiseValidity r.2 BLOCK_CONNECTED r.1;
     accept_rest p r.2 s.1).
Proof.
  intros Hc Hpb Hp Hd Hctx. unfold acceptBlockHeader, acceptBlockHeaderImpl, validateAndAddBlock.
  rewrite Hc. cbn [catch mbind result_bind]. unfold getBlockIndex. rewrite Hpb, Hp, Hd, Hctx.
  cbn [catch mbind result_bind].
  destruct (insertBlockHeader _ _ b 0 t) as [[t1 k]| | | | |]; cbn [mbind result_bind fst snd]; [|done..].
  destruct (node_raiseValidity k _ t1) as [[t2 r]| | | | |]; cbn [mbind result_bind fst snd]; [|done..].
  unfold accept_rest. destruct (deref (blocks_ t2) p); cbn [mbind result_bind]; [|done..].
  destruct (isValid _ _) as [v| | | | |]; cbn [mbind result_bind]; [|done..].
  destruct v; cbn [negb mbind result_bind]; [done|].
  by destruct (modify k _ t2).
Qed.

(** The block can be in the tree only as the child of its previous block. *)
Definition no_collision t b : Prop := ∀ i, blocks_ t !! hash_key b = Some i →
  header i = b ∧ pprev i = Some (getPreviousBlock b).

Lemma best_work_of t t' k : btree_inv t → btree_inv t' → best_work t →
  activeChain_ t' = activeChain_ t → (∀ x, x ∈ tips_ t' → x ∈ tips_ t) →
  (∀ x i', x ≠ k → blocks_ t' !! x = Some i' → ∃ i, blocks_ t !! x = Some i ∧ work_of i' = work_of i) →
  k ∉ tips_ t → chain_tip (activeChain_ t) ≠ Some k → best_work t'.
Proof.
  intros Hinv Hinv' Hbest Ec Ht Hw Hkt Hkc tip x it ix Htip Hit Hx Hix. rewrite Ec in Htip.
  assert (x ≠ k) as Hxk by (intros ->; by apply Hkt, Ht).
  assert (tip ≠ k) as Htk by congruence.
  destruct (Hw x ix Hxk Hix) as (ix0 & Hix0 & ->). destruct (Hw tip it Htk Hit) as (it0 & Hit0 & ->).
  eapply Hbest; [done|done|by apply Ht|done].
Qed.

Lemma determine_best t t' k i : btree_inv t → blocks_ t !! k = Some i → isDeleted i = false →
  (∀ x ix, x ≠ k → x ∈ tips_ t → blocks_ t !! x = Some ix → work_of ix <= tip_work t) → k ∈ tips_ t →
  ∃ t', determineBestChain (TreeHooks := plain_hooks) k t = Ok t' ∧ btree_inv t' ∧
    same_blocks t t' ∧ best_work t'.
Proof.
  intros Hinv Hk Hd Hall Hkt.
  destruct (determine_ok tip_level t k i Hinv Hk Hd) as (t1 & Ht1 & Hinv1 & [Eb Et] & Hmono & Hwk).
  exists t1. split_and!; [done|done|done|]. intros tip x it ix Htip Hit Hx Hix.
  rewrite <- (tip_work_eq t1 tip it Htip Hit). rewrite Et in Hx. rewrite Eb in Hix.
  destruct (decide (x = k)) as [->|Hxk].
  - assert (ix = i) as -> by congruence. auto.
  - specialize (Hall x ix Hxk Hx Hix). lia.
Qed.

Lemma best_tip_work t : btree_inv t → best_work t → ∀ x ix, x ∈ tips_ t → blocks_ t !! x = Some ix →
  work_of ix <= tip_work t.
Proof.
  intros Hinv Hbest x ix Hx Hix. destruct (tip_lookup t Hinv) as (tip & it & Htip & Hit & ->).
  by eapply Hbest.
Qed.

(** The outcome of an acceptance. *)
Definition accepted t b (t' : tree) (r : list string + K) : Prop :=
  match r with
  | inr k => k = hash_key b ∧ ∃ i, blocks_ t' !! k = Some i ∧ header i = b ∧
      isDeleted i = false ∧ Z.testbit (status i) 7 = false
  | inl _ => activeChain_ t' = activeChain_ t ∧ tips_ t' = tips_ t
  end.

Lemma isValid_prev t p jp : btree_inv t → blocks_ t !! p = Some jp → isDeleted jp = false →
  isValid BLOCK_VALID_TREE jp = Ok (negb (isFailed jp)).
Proof.
  intros Hinv Hp Hd. pose proof (bi_conn _ _ Hinv p jp Hp Hd).
  rewrite isValid_eq by (eapply so_status; [apply (ti_store _ (bi_inv _ _ Hinv))|done]).
  f_equal. change BLOCK_VALID_TREE with 1. destruct (Z.leb_spec 1 (level (status jp))); [|lia].
  apply andb_true_r.
Qed.

Lemma accept_rest_fresh t tb k p b i i4 : btree_inv t → hash_key b = k →
  prepared t tb k p b → blocks_ tb !! k = Some i → activated i i4 →
  ∃ t' r, accept_rest p k (with_blocks <[k := i4]> tb) = Ok (t', r) ∧ btree_inv t' ∧
    (best_work t → best_work t') ∧ accepted t b t' r ∧ blocks_ t' = <[k := i4]> (blocks_ tb) ∧
    ∀ jp, blocks_ t !! p = Some jp → isFailed jp = false → r = inr k.
Proof.
  intros Hinv Hkey [Hb Htips Hchain (i' & Hk & Hd & Hp & Hh & _) (jp & jp0 & Hjp & Hdp & Hjp0 & Ef0) Hw Hwi] Hk' Hact.
  assert (i' = i) as -> by congruence. clear Hk'. set (T := with_blocks <[k := i4]> tb).
  assert (k ≠ p) as Hkp by congruence.
  assert (blocks_ T !! p = Some jp) as HTp by (cbn; by rewrite lookup_insert_ne).
  assert (blocks_ T !! k = Some i4) as HTk by (cbn; apply lookup_insert_eq).
  assert (k ∉ tips_ tb) as Hkt.
  { rewrite (ti_tips _ (bi_inv _ _ Hb)). intros (j & Hj & Hc & _). assert (j = i) as -> by congruence.
    by rewrite deleted_cannot_tip in Hc. }
  assert (chain_tip (activeChain_ tb) ≠ Some k) as Hkc.
  { destruct (bi_tip _ _ Hb) as (x & ix & Hc & Hix & Hdx & _).
    destruct (chain_of_tip _ _ _ _ Hc Hix) as [-> _]. congruence. }
  assert (best_work t → best_work tb) as Hbb.
  { intros Hbest. eapply (best_work_of t tb k); try (done || congruence || by rewrite Htips).
    intros x ix Hx Hix. destruct (Hwi x ix Hx Hix) as (i0 & Hi0 & Hs). exists i0. split; [done|by apply same_data_work]. }
  destruct (activate_tips tb T k i i4 Hb Hk Hd Hact eq_refl eq_refl) as [Hfail (t2 & Ht2 & Eb2 & Hr2 & Hi2)].
  { unfold same_rest. done. }
  assert (Z.testbit (status i4) 7 = isFailed jp) as E7.
  { rewrite (ac_failed _ _ Hact) by lia. by apply (ti_child _ (bi_inv _ _ Hb) k i p jp). }
  unfold accept_rest. rewrite (deref_eq _ _ _ HTp). cbn [mbind result_bind].
  rewrite (isValid_prev tb p jp) by done. cbn [mbind result_bind]. rewrite negb_involutive.
  destruct (isFailed jp) eqn:Ef.
  - unfold modify. rewrite (deref_eq _ _ _ HTk). cbn [mbind result_bind].
    change BLOCK_FAILED_CHILD with (Z.shiftl 1 7). rewrite setFlag_id by (lia || done).
    unfold T. rewrite with_blocks_twice. fold T. exists T, (inl [(block_name +:+ "-bad-chain")%string]). split; [done|].
    assert (btree_inv T) as HbT.
    { eapply (activate_inv tb T k i i4); try done. apply Hfail. apply (flag_failed 7); [lia|done]. }
    split_and!; [done| |cbn; by rewrite Hchain, Htips|done|intros; congruence].
    intros Hbest. eapply (best_work_of tb T k); try done; [by apply Hbb|]. intros x ix Hxk Hix. cbn in Hix.
    rewrite lookup_insert_ne in Hix by done. eauto.
  - rewrite Ht2. cbn [mbind result_bind].
    assert (btree_inv t2) as Hb2 by (eapply (activate_inv tb t2 k i i4); done).
    destruct (determine_ok tip_level t2 k i4 Hb2) as (t3 & Ht3 & Hb3 & [Eb3 Et3] & Hmono & Hwk);
      [by rewrite Eb2|apply Hact|].
    cbn [determineBestChain plain_hooks]. rewrite Ht3. cbn [mbind result_bind].
    exists t3, (inr k). split; [done|]. split; [done|]. split; [|split; [|split; [by rewrite Eb3, Eb2|done]]].
    + intros Hbest%Hbb tip x it ix Htip Hit Hx Hix. rewrite <- (tip_work_eq t3 tip it Htip Hit).
      rewrite Et3 in Hx. destruct (decide (x = k)) as [->|Hxk].
      { rewrite Eb3, Eb2, HTk in Hix. injection Hix as <-. auto. }
      rewrite Eb3, Eb2 in Hix. cbn in Hix. rewrite lookup_insert_ne in Hix by done.
      etrans; [|exact Hmono].
      assert (tip_work t2 = tip_work tb) as ->.
      { unfold tip_work. destruct Hr2 as (<- & _).
        destruct (chain_tip (activeChain_ tb)) as [y|] eqn:Ey; [|done].
        rewrite Eb2. cbn. by rewrite lookup_insert_ne by congruence. }
      destruct (decide (x ∈ tips_ tb)) as [Hxt|Hxt]; [by eapply best_tip_work|].
      (* [tryAddTip] only adds [k] *)
      exfalso. apply Hxt. unfold tryAddTip in Ht2. rewrite (deref_eq _ _ _ HTk) in Ht2.
      cbn [mbind result_bind] in Ht2. destruct (isValidTip _ _) as [v| | | | |]; try discriminate.
      cbn [mbind result_bind] in Ht2. destruct v; injection Ht2 as <-; [|done].
      cbn [with_tips tips_] in Hx. set_solver.
    + split; [done|]. exists i4. rewrite Eb3, Eb2. split_and!; [done| |apply Hact|congruence].
      by rewrite (ac_header _ _ Hact).
Qed.

Lemma accept_rest_present t b k i jp : btree_inv t → hash_key b = k →
  blocks_ t !! k = Some i → isDeleted i = false → header i = b → pprev i = Some (getPreviousBlock b) →
  blocks_ t !! getPreviousBlock b = Some jp → isDeleted jp = false →
  ∃ t' r, accept_rest (getPreviousBlock b) k t = Ok (t', r) ∧ btree_inv t' ∧ (best_work t → best_work t') ∧
    accepted t b t' r ∧ blocks_ t' = blocks_ t ∧ (isFailed jp = false → r = inr k).
Proof.
  intros Hinv Hkey Hk Hd Hh Hp Hjp Hdp. pose proof (bi_inv _ _ Hinv) as [Hok Hchild Htips].
  pose proof (Hchild k i _ jp Hk Hp Hjp) as E7.
  unfold accept_rest. rewrite (deref_eq _ _ _ Hjp). cbn [mbind result_bind].
  rewrite (isValid_prev t) with (p := getPreviousBlock b) by done. cbn [mbind result_bind].
  rewrite negb_involutive. destruct (isFailed jp) eqn:Ef.
  - unfold modify. rewrite (deref_eq _ _ _ Hk). cbn [mbind result_bind].
    change BLOCK_FAILED_CHILD with (Z.shiftl 1 7). rewrite setFlag_id by (lia || done).
    assert (with_blocks <[k := i]> t = t) as ->.
    { unfold with_blocks. rewrite insert_id by done. by destruct t. }
    exists t, (inl [(block_name +:+ "-bad-chain")%string]). by split_and!; [..|congruence].
  - destruct (tryAddTip_spec t k i Hok Hk) as (t1 & Ht1 & E1 & Htips1).
    { intros x _ _. apply Htips. }
    { intros (j & Hj & Hv)%Htips. by assert (j = i) as -> by congruence. }
    { intros q _. apply Htips. }
    { intros q _ Hq. left. by apply Htips. }
    assert (t1 = t) as ->.
    { rewrite E1. assert (tips_ t1 = tips_ t) as ->; [|by destruct t].
      apply set_eq. intros x. by rewrite Htips1, Htips. }
    rewrite Ht1. cbn [mbind result_bind].
    destruct (determine_ok tip_level t k i Hinv Hk Hd) as (t3 & Ht3 & Hb3 & [Eb3 Et3] & Hmono & Hwk).
    cbn [determineBestChain plain_hooks]. rewrite Ht3. cbn [mbind result_bind].
    exists t3, (inr k). split; [done|]. split; [done|]. split; [|split; [|done]].
    + intros Hbest tip x it ix Htip Hit Hx Hix. rewrite <- (tip_work_eq t3 tip it Htip Hit).
      rewrite Et3 in Hx. rewrite Eb3 in Hix. etrans; [|exact Hmono]. by eapply best_tip_work.
    + split; [done|]. exists i. rewrite Eb3. by split_and!.
Qed.

Definition insert_connect t b : result (tree * (list string + K)) :=
  r ← insertBlockHeader (HK := plain_hooks) newAddon newHeader b 0 t;
  s ← node_raiseValidity r.2 BLOCK_CONNECTED r.1;
  accept_rest (getPreviousBlock b) r.2 s.1.

Lemma insert_and_connect t tb k p b : btree_inv t → hashIsPrevious b = false →
  hash_key b = k → getPreviousBlock b = p →
  (blocks_ t !! k = None ∧ doInsertBlockHeader newAddon newHeader b 0 t = Ok tb ∨
   tb = t ∧ ∃ i, blocks_ t !! k = Some i ∧ isDeleted i = true ∧ header i = b) →
  prepared t tb k p b →
  ∃ t' r, insert_connect t b = Ok (t', r) ∧ btree_inv t' ∧
    (best_work t → best_work t') ∧ accepted t b t' r ∧
    (∃ i jp, blocks_ tb !! k = Some i ∧ blocks_ tb !! p = Some jp ∧
      blocks_ t' = <[k := raised 2 (raised 1 (inserted_node b i jp))]> (blocks_ tb)) ∧
    ∀ jp, blocks_ t !! p = Some jp → isFailed jp = false → r = inr k.
Proof.
  intros Hinv Hsane Hkey Hpb Hcase Hprep.
  pose proof Hprep as [Hb _ _ (i & Hk & Hd & Hp & Hh & _) (jp & _ & Hjp & Hdp & _) _ _].
  unfold insert_connect. rewrite (insertBlockHeader_fresh t tb k p b) by done.
  rewrite (activation_ok tb k i p jp) by done. cbn [mbind result_bind fst snd].
  rewrite (connect_ok tb k i p jp) by done. cbn [mbind result_bind fst snd]. rewrite Hpb.
  destruct (accept_rest_fresh t tb k p b i (raised 2 (raised 1 (inserted_node (header i) i jp))))
    as (t' & r & ? & ? & ? & ? & ? & ?); [done..| |].
  - apply raised_activated. rewrite (bi_dlevel _ _ Hb k i) by done. lia.
  - exists t', r. split_and!; try done. exists i, jp. by rewrite <- Hh.
Qed.

Lemma connect_present t k b i jp : btree_inv t → hashIsPrevious b = false →
  hash_key b = k → blocks_ t !! k = Some i → isDeleted i = false → header i = b →
  pprev i = Some (getPreviousBlock b) →
  blocks_ t !! getPreviousBlock b = Some jp → isDeleted jp = false →
  ∃ t' r, insert_connect t b = Ok (t', r) ∧ btree_inv t' ∧ (best_work t → best_work t') ∧
    accepted t b t' r ∧ blocks_ t' = blocks_ t ∧ (isFailed jp = false → r = inr k).
Proof.
  intros Hinv Hsane Hkey Hk Hd Hh Hp Hjp Hdp. unfold insert_connect.
  rewrite (insertBlockHeader_present t k b i) by done. cbn [mbind result_bind fst snd].
  pose proof (bi_conn _ _ Hinv k i Hk Hd) as Hl.
  assert (raised 2 i = i) as Er.
  { unfold raised. destruct (Z.ltb_spec (level (status i)) 2); [lia|done]. }
  rewrite (raise_ok t k i); [|done|by eapply bi_pop|].
  - change BLOCK_CONNECTED with 2. rewrite Er. cbn [mbind result_bind fst snd].
    assert (with_blocks <[k := i]> t = t) as ->.
    { unfold with_blocks. rewrite insert_id by done. by destruct t. }
    by apply (accept_rest_present t b k i jp).
  - intros q Hq. assert (q = getPreviousBlock b) as -> by congruence. exists jp.
    pose proof (bi_conn _ _ Hinv _ jp Hjp Hdp).
    pose proof (so_status _ (ti_store _ (bi_inv _ _ Hinv)) _ jp Hjp) as [? _].
    change BLOCK_CONNECTED with 2. split_and!; [done|lia|lia].
Qed.
End accept.

(** ** Properties *)
Section props.
Context {K H B A P Ext SA : Type} `{Countable K, Countable H, Countable P, EqDecision B}.
Context `{BlockAddon A, PayloadIds A P, BlockHash B H, BlockHeader B H K, StoredAddon A SA}.
Context `{WorkAddon A, !WorkAddonLaws A, !BlockRules K B A}.
Notation tree := (BaseBlockTree K H B A P Ext).
Implicit Types (t : tree) (b : B).

(** What an acceptance does to the blocks: nothing, or it adds one block. *)
Definition passes t b jp : Prop :=
  is_ok (checkBlock b) = true ∧ blocks_ t !! getPreviousBlock b = Some jp ∧ isDeleted jp = false ∧
  is_ok (contextuallyCheckBlock (blocks_ t) (getPreviousBlock b) b) = true.

Definition rejects t b : Prop :=
  is_ok (checkBlock b) = false ∨ getBlockIndex t (getPreviousBlock b) = None ∨
  is_ok (contextuallyCheckBlock (blocks_ t) (getPreviousBlock b) b) = false.

Definition added {g} newAddon t b t' : Prop :=
  ∃ tb i jp, prepared newAddon (g := g) t tb (hash_key b) (getPreviousBlock b) b ∧
    (∀ i, blocks_ t !! hash_key b = Some i → isDeleted i = true) ∧
    blocks_ tb !! hash_key b = Some i ∧ blocks_ tb !! getPreviousBlock b = Some jp ∧
    blocks_ t' = <[hash_key b := raised 2 (raised 1 (inserted_node b i jp))]> (blocks_ tb).

Definition acceptance {g} newAddon t b t' (r : list string + K) : Prop :=
  (rejects t b ∧ t' = t ∧ ∃ e, r = inl e) ∨
  (∃ jp, passes t b jp ∧ (isFailed jp = false → r = inr (hash_key b)) ∧
    ((∃ i, blocks_ t !! hash_key b = Some i ∧ isDeleted i = false ∧ blocks_ t' = blocks_ t) ∨
     added (g := g) newAddon t b t')).

Lemma accept_ok {g} newAddon newHeader t b :
  validTipLevel = 1 → btree_at g t → no_collision t b → hashIsPrevious b = false →
  safe (checkBlock b) →
  (∀ jp, blocks_ t !! getPreviousBlock b = Some jp →
    height jp < INT32_MAX ∧ safe (contextuallyCheckBlock (blocks_ t) (getPreviousBlock b) b)) →
  ∃ t' r, acceptBlockHeader (HK := plain_hooks) newAddon newHeader b t = Ok (t', r) ∧
    btree_at g t' ∧ (best_work t → best_work t') ∧ accepted t b t' r ∧ acceptance newAddon (g := g) t b t' r.
Proof.
  intros Htl Hinv Hcol Hsane Hsafe Hctx. unfold acceptance, rejects.
  destruct (checkBlock b) as [[]|tr| | | |] eqn:Ec; try done.
  2: { unfold acceptBlockHeader, acceptBlockHeaderImpl, validateAndAddBlock. rewrite Ec.
       cbn [catch mbind result_bind]. eexists t, _. split; [done|]. split_and!; [done..|]. left. split_and!; [by left|done|by eexists]. }
  destruct (getBlockIndex t (getPreviousBlock b)) as [p|] eqn:Ep.
  2: { unfold acceptBlockHeader, acceptBlockHeaderImpl, validateAndAddBlock. rewrite Ec, Ep.
       cbn [catch mbind result_bind]. eexists t, _. split; [done|]. split_and!; [done..|]. left. split_and!; [by right; left|done|by eexists]. }
  assert (p = getPreviousBlock b ∧ ∃ jp, blocks_ t !! p = Some jp ∧ isDeleted jp = false)
    as (-> & jp & Hjp & Hdp).
  { unfold getBlockIndex in Ep. destruct (blocks_ t !! _) as [jp|] eqn:Ejp; [|done].
    destruct (isDeleted jp) eqn:Edp; [done|]. injection Ep as <-. eauto. }
  destruct (Hctx jp Hjp) as [Hhp Hctx']. clear Hctx. rename Hctx' into Hctx.
  destruct (contextuallyCheckBlock (blocks_ t) (getPreviousBlock b) b) as [[]|tr| | | |] eqn:Ex; try done.
  2: { unfold acceptBlockHeader, acceptBlockHeaderImpl, validateAndAddBlock. rewrite Ec, Ep, Ex.
       cbn [catch mbind result_bind]. eexists t, _. split; [done|]. split_and!; [done..|]. left. split_and!; [by right; right|done|by eexists]. }
  assert (passes t b jp) as Hpass by (unfold passes; by rewrite Ec, Ex).
  rewrite (accept_unfold newAddon newHeader t b (getPreviousBlock b) jp) by done.
  destruct (blocks_ t !! hash_key b) as [i|] eqn:Ek; [destruct (Hcol i Ek) as [Hh Hp]; destruct (isDeleted i) eqn:Edi|].
  - assert (prepared (g := g) newAddon t t (hash_key b) (getPreviousBlock b) b) as Hprep.
    { split; [done|done|done|exists i; split_and!; [done..|by right]|by exists jp, jp|..];
        intros x ix Hx Hix; exists ix; split; [done|by split_and!|done|by split_and!]. }
    destruct (insert_and_connect (g := g) newAddon newHeader Htl t t (hash_key b) (getPreviousBlock b) b)
      as (t' & r & Hr & ? & ? & ? & (i0 & jp0 & ? & ? & ?) & ?); [done..|right; eauto 10|done|].
    exists t', r. split; [exact Hr|]. split_and!; [done..|]. right. exists jp. split_and!; [done|by eauto|].
    right. exists t, i0, jp0. split_and!; [done|congruence|congruence|done|done].
  - destruct (connect_present (g := g) newAddon newHeader Htl t (hash_key b) b i jp) as (t' & r & Hr & ? & ? & ? & ? & ?);
      [done..|]. exists t', r. split; [exact Hr|]. split_and!; [done..|]. right. exists jp. split_and!; [done..|].
    left. by exists i.
  - destruct (create_ok (g := g) newAddon newHeader Htl t b (hash_key b) (getPreviousBlock b) jp) as (tb & Htb & Hprep); [done..|].
    destruct (insert_and_connect (g := g) newAddon newHeader Htl t tb (hash_key b) (getPreviousBlock b) b)
      as (t' & r & Hr & ? & ? & ? & (i0 & jp0 & ? & ? & ?) & ?); [done..|by left|done|].
    exists t', r. split; [exact Hr|]. split_and!; [done..|]. right. exists jp. split_and!; [done|by eauto|].
    right. exists tb, i0, jp0. split_and!; [done|congruence|done|done|done].
Qed.

(** C7: In a plain block tree [acceptBlockHeader] never aborts: a header that
    fails a check or has no previous block in the tree leaves the tree as it
    is; any other header is stored below its previous block, the tree
    invariant holds, and the active tip has the most work among all valid
    tips. A header below a failed block is rejected but kept.  The checks are only
    asked not to abort on this header and its stored predecessor, whose height is below
    the largest [int32_t]. *)
Theorem acceptBlockHeader_best_chain newAddon newHeader t b :
  validTipLevel = 1 → btree_inv t → best_work t → no_collision t b → hashIsPrevious b = false →
  safe (checkBlock b) →
  (∀ jp, blocks_ t !! getPreviousBlock b = Some jp →
    height jp < INT32_MAX ∧ safe (contextuallyCheckBlock (blocks_ t) (getPreviousBlock b) b)) →
  ∃ t' r, acceptBlockHeader (HK := plain_hooks) newAddon newHeader b t = Ok (t', r) ∧
    btree_inv t' ∧ best_work t' ∧ accepted t b t' r ∧
    (is_ok (checkBlock b) = false ∨ getBlockIndex t (getPreviousBlock b) = None → t' = t) ∧
    (is_ok (checkBlock b) = true → ∀ jp, blocks_ t !! getPreviousBlock b = Some jp →
      isDeleted jp = false → isFailed jp = false →
      is_ok (contextuallyCheckBlock (blocks_ t) (getPreviousBlock b) b) = true →
      r = inr (hash_key b)).
Proof.
  intros Htl Hinv Hbest Hcol Hsane Hsafe Hctx.
  destruct (accept_ok (g := (0, false)) newAddon newHeader t b) as (t' & r & Hr & ? & ? & ? & Hacc); [done..|].
  exists t', r. split_and!; [done|done|by auto|done|..].
  - destruct Hacc as [(_ & ? & _)|(jp & (Hc & Hp & Hd & _) & _)]; [done|]. unfold getBlockIndex. rewrite Hp, Hd.
    intros [?|?]; [congruence|done].
  - intros Hc jp Hjp Hdp Hf Hx. destruct Hacc as [([?|[Hg|?]] & _)|(jp' & (_ & Hjp' & _) & Hres & _)]; try congruence.
    + unfold getBlockIndex in Hg. by rewrite Hjp, Hdp in Hg.
    + apply Hres. congruence.
Qed.
End props.
