(* ===== verification/Serde.v ===== *)
(** * Binary serialization ([read_stream.hpp], [write_stream.hpp], [serde.hpp],
    [serde.cpp])

    Bytes are integers in [0, 256), vectors and slices are lists of bytes; a
    [Slice] of a stream is the list it points to (nothing writes to the buffer
    of a [ReadStream]).  A reader is a function of the stream that returns a
    value and the advanced stream, or the [ValidationState]; out parameters are
    results, which is what every caller gets because it passes a default
    constructed object.  A writer appends to the vector of a [WriteStream]. *)
From S2P Require Import Prelude.

(** ** Integral types *)
Record int_type := mkInt { it_size : nat; it_signed : bool }.
Definition uint8_t := mkInt 1 false.
Definition int16_t := mkInt 2 true.
Definition int32_t := mkInt 4 true.
Definition uint32_t := mkInt 4 false.
Definition int64_t := mkInt 8 true.
Definition uint64_t := mkInt 8 false.

Definition bits_of (T : int_type) : Z := 8 * Z.of_nat (it_size T).

(** [static_cast<T>]. *)
Definition conv (T : int_type) (z : Z) : Z :=
  if it_signed T then wrapS (bits_of T) z else wrapU (bits_of T) z.

Definition in_range (T : int_type) (z : Z) : Prop :=
  if it_signed T then - 2 ^ (bits_of T - 1) <= z < 2 ^ (bits_of T - 1) else 0 <= z < 2 ^ (bits_of T).

#[export] Instance in_range_dec T z : Decision (in_range T z).
Proof. unfold in_range. destruct (it_signed T); apply _. Defined.

Definition byte_ok (b : Z) : Prop := 0 <= b < 256.
Notation bytes_ok := (Forall byte_ok).

(** ** [ReadStream] *)
Record ReadStream := mkStream { m_Buffer : list Z; m_Pos : nat }.

Definition newStream (v : list Z) : ReadStream := mkStream v 0.
Definition remaining (s : ReadStream) : nat := length (m_Buffer s) - m_Pos s.
Definition hasMore (nbytes : nat) (s : ReadStream) : bool := (nbytes <=? remaining s)%nat.
Definition remainingBytes (s : ReadStream) : list Z := drop (m_Pos s) (m_Buffer s).
Definition advance (n : nat) (s : ReadStream) : ReadStream := mkStream (m_Buffer s) (m_Pos s + n).

Definition reader (A : Type) : Type := ReadStream → result (A * ReadStream).

Definition ret {A} (a : A) : reader A := λ s, Ok (a, s).
Definition rbind {A B} (p : reader A) (f : A → reader B) : reader B := λ s,
  r ← p s; f r.1 r.2.

(** [if (!p) return state.Invalid(reason);] *)
Definition fails {A} (p : reader A) (reason : string) : reader A := λ s, p s ?! reason.
Definition fails_at {A} (p : reader A) (reason : string) (i : Z) : reader A := λ s,
  or_invalid_at (p s) reason i.

(** A check that reads nothing. *)
Definition guard (m : result unit) : reader unit := λ s, _ ← m; Ok (tt, s).

Notation "x <- p ;; q" := (rbind p (λ x, q))
  (at level 100, p at next level, right associativity) : pop_scope.

Definition readSlice (size : nat) : reader (list Z) := λ s,
  if hasMore size s then Ok (take size (remainingBytes s), advance size s)
  else invalid "readslice-underflow".

Definition read (size : nat) : reader (list Z) := λ s,
  if (size =? 0)%nat then Ok ([], s)
  else if hasMore size s then Ok (take size (remainingBytes s), advance size s)
  else invalid "read-underflow".

(** [t += static_cast<T>(static_cast<T>(b) << shift)], [shift] from
    [8 * (bytes - 1)] down to 0. *)
Fixpoint be_loop (T : int_type) (t : Z) (bs : list Z) : Z :=
  match bs with
  | [] => t
  | b :: bs =>
    be_loop T (conv T (t + conv T (Z.shiftl (conv T b) (8 * Z.of_nat (length bs))))) bs
  end.

Definition readBE (T : int_type) (bytes : nat) : reader Z := λ s,
  if hasMore bytes s then Ok (be_loop T 0 (take bytes (remainingBytes s)), advance bytes s)
  else invalid "readbe-underflow".

(** ... [shift] from 0 upwards. *)
Fixpoint le_loop (T : int_type) (t shift : Z) (bs : list Z) : Z :=
  match bs with
  | [] => t
  | b :: bs => le_loop T (conv T (t + conv T (Z.shiftl (conv T b) shift))) (shift + 8) bs
  end.

Definition readLE (T : int_type) : reader Z := λ s,
  if hasMore (it_size T) s then
    Ok (le_loop T 0 0 (take (it_size T) (remainingBytes s)), advance (it_size T) s)
  else invalid "readle-underflow".

(** ** [WriteStream] *)
Notation WriteStream := (list Z) (only parsing).
Definition writer : Type := WriteStream → result WriteStream.

Definition wseq (p q : writer) : writer := λ w, w ← p w; q w.
Definition wdone : writer := λ w, Ok w.
Infix "+++" := wseq (at level 60, right associativity) : pop_scope.

(** [write(vector)] *)
Definition write (v : list Z) : writer := λ w, Ok (w ++ v).

(** The [n] low bytes of [num], the most significant one first. *)
Fixpoint be_bytes (num : Z) (n : nat) : list Z :=
  match n with
  | O => []
  | S n => Z.land (Z.shiftr num (8 * Z.of_nat n)) 255 :: be_bytes num n
  end.

Fixpoint le_bytes (num shift : Z) (n : nat) : list Z :=
  match n with
  | O => []
  | S n => Z.land (Z.shiftr num shift) 255 :: le_bytes num (shift + 8) n
  end.

Definition writeBE (T : int_type) (num : Z) (bytes : nat) : writer := λ w,
  vassert (bytes <=? it_size T)%nat "bytes <= sizeof(T)";;
  Ok (w ++ be_bytes (conv T num) bytes).

Definition writeLE (T : int_type) (num : Z) : writer := λ w,
  Ok (w ++ le_bytes (conv T num) 0 (it_size T)).

(** The contents of a fresh stream written by [p]. *)
Definition written (p : writer) : result (list Z) := p [].

(** ** VBK primitives *)
Definition checkRange (num min max : Z) : result unit :=
  if num <? min then invalid "range-below"
  else if max <? num then invalid "range-above"
  else Ok tt.

(** [do { if ((input >> ((x - 1) * 8)) != 0) break; x--; } while (x > 1);]
    with [x = k + 1]. *)
Fixpoint trimmed_size (k : nat) (input : Z) : nat :=
  match k with
  | O => 1
  | S k' => if negb (Z.shiftr input (8 * Z.of_nat k) =? 0) then S k else trimmed_size k' input
  end.

Definition trimmedArray (input : Z) : list Z := be_bytes input (trimmed_size 7 input).

Definition fixedArray (T : int_type) (input : Z) : result (list Z) :=
  written (writeBE T input (it_size T)).

Definition readSingleByteLenValue (minLen maxLen : Z) : reader (list Z) :=
  length <- fails (readBE uint8_t 1) "readsingle-bad-length";;
  _ <- fails (guard (checkRange length minLen maxLen)) "readsingle-bad-range";;
  readSlice (Z.to_nat length).

(** The overload that reads into a container of [N] bytes: [Blob::resize]
    asserts that the length is [N]. *)
Definition readSingleByteLenBlob (N : nat) (minLen maxLen : Z) : reader (list Z) :=
  length <- fails (readBE uint8_t 1) "readsingle-bad-length";;
  _ <- fails (guard (checkRange length minLen maxLen)) "readsingle-bad-range";;
  _ <- guard (vassert (length =? Z.of_nat N) "Blob::resize");;
  read (Z.to_nat length).

(** ... into a [std::vector]. *)
Definition readSingleByteLenVector (minLen maxLen : Z) : reader (list Z) :=
  length <- fails (readBE uint8_t 1) "readsingle-bad-length";;
  _ <- fails (guard (checkRange length minLen maxLen)) "readsingle-bad-range";;
  read (Z.to_nat length).

(** Run a reader on a slice: a new stream whose rest is dropped. *)
Definition on_slice {A} (p : reader A) (v : list Z) : reader A := λ s,
  r ← p (newStream v); Ok (r.1, s).

Definition readSingleBEValue (T : int_type) : reader Z :=
  data <- fails (readSingleByteLenValue 0 (Z.of_nat (it_size T))) "readsinglebe-bad-data";;
  on_slice (readBE T (length data)) data.

(** The length is converted from [int32_t] to [uint64_t] for the check. *)
Definition readVarLenValue (minLen maxLen : Z) : reader (list Z) :=
  length <- fails (readSingleBEValue int32_t) "readvarlen-bad-length";;
  _ <- fails (guard (checkRange (u64 length) minLen maxLen)) "readvarlen-bad-range";;
  readSlice (Z.to_nat (u64 length)).

Definition writeSingleByteLenValue (value : list Z) : writer := λ w,
  vassert (is_ok (checkRange (Z.of_nat (length value)) 0 255)) "Can not writeSingleByteLen";;
  (writeBE uint8_t (Z.of_nat (length value)) 1 +++ write value) w.

Definition writeSingleBEValue (value : Z) : writer :=
  let dataBytes := trimmedArray (conv int64_t value) in
  writeBE uint8_t (Z.of_nat (length dataBytes)) 1 +++ write dataBytes.

Definition writeSingleFixedBEValue (T : int_type) (value : Z) : writer := λ w,
  data ← written (writeBE T value (it_size T));
  writeSingleByteLenValue data w.

Definition writeVarLenValue (value : list Z) : writer :=
  writeSingleBEValue (Z.of_nat (length value)) +++ write value.

(** ** Sizes ([size_t]) *)
Definition singleByteLenValueSize (valueSize : Z) : result Z :=
  vassert (is_ok (checkRange valueSize 0 255)) "Can not singleByteLenSize";;
  Ok (u64 (1 + valueSize)).

Definition singleBEValueSize (value : Z) : Z :=
  1 + Z.of_nat (length (trimmedArray (conv int64_t value))).

Definition singleFixedBEValueSize (T : int_type) (value : Z) : result Z :=
  data ← written (writeBE T value (it_size T));
  singleByteLenValueSize (Z.of_nat (length data)).

Definition varLenValueSize (valueSize : Z) : Z := u64 (singleBEValueSize valueSize + valueSize).

(** [size += x] *)
Definition addsize (a b : Z) : Z := u64 (a + b).

(** [size_t size = 0; size += x1; size += x2; ...] *)
Fixpoint accumulate_from (size : Z) (parts : list (result Z)) : result Z :=
  match parts with
  | [] => Ok size
  | x :: parts => n ← x; accumulate_from (addsize size n) parts
  end.
Definition accumulate : list (result Z) → result Z := accumulate_from 0.

(** ** Containers *)
(** A loop that reads [count] items and adds the index to the error. *)
Fixpoint readLoop {A} (reason : string) (readFunc : reader A) (count : nat) (i : Z) : reader (list A) :=
  match count with
  | O => ret []
  | S count =>
    item <- fails_at readFunc reason i;;
    rest <- readLoop reason readFunc count (i + 1);;
    ret (item :: rest)
  end.
Definition readItems {A} : reader A → nat → Z → reader (list A) := readLoop "readarray-bad-item".

Definition readArrayOf {A} (min max : Z) (readFunc : reader A) : reader (list A) :=
  count <- fails (readSingleBEValue int32_t) "readarray-bad-count";;
  _ <- fails (guard (checkRange (u64 count) min max)) "readarray-bad-range";;
  readItems readFunc (Z.to_nat (u64 count)) 0.

(** How often [readArrayOf] calls [readFunc]. *)
Fixpoint loop_calls {A} (readFunc : reader A) (count : nat) (s : ReadStream) : Z :=
  match count with
  | O => 0
  | S count => match readFunc s with Ok r => 1 + loop_calls readFunc count r.2 | _ => 1 end
  end.
Definition array_calls {A} (min max : Z) (readFunc : reader A) (s : ReadStream) : Z :=
  match readSingleBEValue int32_t s with
  | Ok (count, s) =>
    if is_ok (checkRange (u64 count) min max) then loop_calls readFunc (Z.to_nat (u64 count)) s else 0
  | _ => 0
  end.

Fixpoint writeItems {A} (f : A → writer) (l : list A) : writer :=
  match l with
  | [] => wdone
  | x :: l => f x +++ writeItems f l
  end.

Definition writeContainer {A} (t : list A) (f : A → writer) : writer :=
  writeSingleBEValue (Z.of_nat (length t)) +++ writeItems f t.

Fixpoint sumSizes {A} (f : A → result Z) (l : list A) (size : Z) : result Z :=
  match l with
  | [] => Ok size
  | x :: l => n ← f x; sumSizes f l (addsize size n)
  end.

Definition estimateContainerSize {A} (t : list A) (f : A → result Z) : result Z :=
  sumSizes f t (singleBEValueSize (Z.of_nat (length t))).

(** ** Network byte *)
Record NetworkBytePair := mkNetwork { networkType : option Z; typeId : Z }.

Definition readNetworkByte (type : Z) : reader NetworkBytePair :=
  networkOrType <- fails (readBE uint8_t 1) "bad-network-byte";;
  if networkOrType =? conv uint8_t type then ret (mkNetwork None networkOrType)
  else
    typeId <- fails (readBE uint8_t 1) "bad-type-id";;
    ret (mkNetwork (Some networkOrType) typeId).

Definition writeNetworkByte (networkOrType : NetworkBytePair) : writer :=
  (match networkType networkOrType with Some v => writeBE uint8_t v 1 | None => wdone end) +++
  writeBE uint8_t (typeId networkOrType) 1.

Definition networkByteSize (networkOrType : NetworkBytePair) : Z :=
  (match networkType networkOrType with Some _ => 1 | None => 0 end) + 1.

(** ** Integers *)
Lemma bits_pos T : 0 <= bits_of T.
Proof. unfold bits_of. lia. Qed.

Lemma wrapS_mod w a b : 0 < w → a mod 2 ^ w = b mod 2 ^ w → wrapS w a = wrapS w b.
Proof.
  intros Hw E. unfold wrapS. rewrite (Z.add_mod a), (Z.add_mod b), E by lia. done.
Qed.

Lemma wrapS_mod_eq w a : 0 < w → wrapS w a mod 2 ^ w = a mod 2 ^ w.
Proof.
  intros Hw. unfold wrapS.
  rewrite Zminus_mod, Z.mod_mod, <- Zminus_mod by lia. f_equal. lia.
Qed.

Lemma conv_mod T a : (0 < it_size T)%nat → conv T a mod 2 ^ bits_of T = a mod 2 ^ bits_of T.
Proof.
  intros Hs. assert (0 < bits_of T) by (unfold bits_of; lia). unfold conv.
  destruct (it_signed T); [by apply wrapS_mod_eq|]. unfold wrapU. apply Z.mod_mod. lia.
Qed.

Lemma conv_eq T a b : (0 < it_size T)%nat → a mod 2 ^ bits_of T = b mod 2 ^ bits_of T →
  conv T a = conv T b.
Proof.
  intros Hs E. assert (0 < bits_of T) by (unfold bits_of; lia). unfold conv.
  destruct (it_signed T); [by apply wrapS_mod|done].
Qed.

Lemma conv_add T a b : (0 < it_size T)%nat → conv T (a + conv T b) = conv T (a + b).
Proof.
  intros Hs. apply conv_eq; [done|]. assert (0 < bits_of T) by (unfold bits_of; lia).
  rewrite Z.add_mod, conv_mod, <- Z.add_mod by (done || lia). done.
Qed.

Lemma conv_shift T a n : (0 < it_size T)%nat → 0 <= n →
  conv T (Z.shiftl (conv T a) n) = conv T (Z.shiftl a n).
Proof.
  intros Hs Hn. apply conv_eq; [done|]. assert (0 < bits_of T) by (unfold bits_of; lia).
  rewrite !Z.shiftl_mul_pow2 by done.
  rewrite Z.mul_mod, conv_mod, <- Z.mul_mod by (done || lia). done.
Qed.

Lemma conv_id T z : (0 < it_size T)%nat → in_range T z → conv T z = z.
Proof.
  intros Hs. assert (0 < bits_of T) by (unfold bits_of; lia). unfold conv, in_range.
  destruct (it_signed T); intros ?; [by apply wrapS_small|by apply wrapU_small].
Qed.

Lemma conv_range T z : (0 < it_size T)%nat → in_range T (conv T z).
Proof.
  intros Hs. assert (0 < bits_of T) by (unfold bits_of; lia). unfold conv, in_range.
  destruct (it_signed T); [by apply wrapS_range|apply wrapU_range; lia].
Qed.

Lemma pow256 n : 0 <= n → 2 ^ (8 * n) = 256 ^ n.
Proof. intros. by rewrite Z.pow_mul_r by lia. Qed.

Lemma conv_add_l T a b : (0 < it_size T)%nat → conv T (conv T a + b) = conv T (a + b).
Proof. intros. rewrite (Z.add_comm (conv T a)), conv_add by done. f_equal. lia. Qed.

(** One step of [readBE] and [readLE]. *)
Lemma conv_step T t b n : (0 < it_size T)%nat → 0 <= n →
  conv T (t + conv T (Z.shiftl (conv T b) (8 * n))) = conv T (t + b * 256 ^ n).
Proof.
  intros. rewrite conv_shift, conv_add by (done || lia).
  by rewrite Z.shiftl_mul_pow2, pow256 by lia.
Qed.

(** The number a byte string stands for. *)
Fixpoint be_Z (bs : list Z) : Z :=
  match bs with [] => 0 | b :: bs => b * 256 ^ Z.of_nat (length bs) + be_Z bs end.

Fixpoint le_Z (bs : list Z) : Z :=
  match bs with [] => 0 | b :: bs => b + 256 * le_Z bs end.

Lemma bits_pow T : 2 ^ bits_of T = 256 ^ Z.of_nat (it_size T).
Proof. unfold bits_of. apply pow256. lia. Qed.

Lemma be_loop_eq T bs t : (0 < it_size T)%nat → conv T t = t → be_loop T t bs = conv T (t + be_Z bs).
Proof.
  intros Hs. revert t. induction bs as [|b bs IH]; intros t Ht; simpl.
  - by rewrite Z.add_0_r.
  - rewrite IH, conv_step by (done || lia || (apply conv_id; [done|by apply conv_range])).
    rewrite conv_add_l by done. f_equal. lia.
Qed.

Lemma le_loop_eq T bs t k : (0 < it_size T)%nat → conv T t = t →
  le_loop T t (8 * Z.of_nat k) bs = conv T (t + 256 ^ Z.of_nat k * le_Z bs).
Proof.
  intros Hs. revert t k. induction bs as [|b bs IH]; intros t k Ht; simpl.
  - by rewrite Z.mul_0_r, Z.add_0_r.
  - replace (8 * Z.of_nat k + 8) with (8 * Z.of_nat (S k)) by lia. rewrite IH.
    + rewrite conv_step, conv_add_l by (done || lia). f_equal.
      rewrite (Nat2Z.inj_succ k), Z.pow_succ_r by lia. lia.
    + apply conv_id; [done|by apply conv_range].
Qed.

Lemma land_255 z : Z.land z 255 = z mod 256.
Proof. change 255 with (Z.ones 8). by rewrite Z.land_ones. Qed.

Lemma length_be_bytes v n : length (be_bytes v n) = n.
Proof. induction n; simpl; auto. Qed.

Lemma length_le_bytes v s n : length (le_bytes v s n) = n.
Proof. revert s. induction n; intros; simpl; auto. Qed.

Lemma be_bytes_ok v n : bytes_ok (be_bytes v n).
Proof.
  induction n as [|n IH]; simpl; constructor; [|done]. rewrite land_255. apply Z.mod_pos_bound. lia.
Qed.

Lemma le_bytes_ok v s n : bytes_ok (le_bytes v s n).
Proof.
  revert s. induction n as [|n IH]; intros s; simpl; constructor; [|done].
  rewrite land_255. apply Z.mod_pos_bound. lia.
Qed.

Lemma be_Z_bytes v n : be_Z (be_bytes v n) = v mod 256 ^ Z.of_nat n.
Proof.
  induction n as [|n IH]; simpl; [by rewrite Z.mod_1_r|].
  rewrite length_be_bytes, IH, land_255, Z.shiftr_div_pow2, pow256 by lia.
  rewrite Nat2Z.inj_succ, Z.pow_succ_r, (Z.mul_comm 256) by lia. rewrite Z.rem_mul_r by lia. lia.
Qed.

Lemma le_Z_bytes v k n : le_Z (le_bytes v (8 * Z.of_nat k) n) = (v / 256 ^ Z.of_nat k) mod 256 ^ Z.of_nat n.
Proof.
  revert k. induction n as [|n IH]; intros k; simpl; [by rewrite Z.mod_1_r|].
  replace (8 * Z.of_nat k + 8) with (8 * Z.of_nat (S k)) by lia.
  rewrite IH, land_255, Z.shiftr_div_pow2, pow256 by lia.
  assert (0 < 256 ^ Z.of_nat k) by (apply Z.pow_pos_nonneg; lia).
  assert (0 < 256 ^ Z.of_nat n) by (apply Z.pow_pos_nonneg; lia).
  rewrite (Nat2Z.inj_succ n), Z.pow_succ_r by lia. rewrite Z.rem_mul_r by lia.
  rewrite Z.div_div, (Nat2Z.inj_succ k), Z.pow_succ_r by lia.
  by rewrite (Z.mul_comm 256 (256 ^ _)).
Qed.

Lemma be_Z_range bs : bytes_ok bs → 0 <= be_Z bs < 256 ^ Z.of_nat (length bs).
Proof.
  induction 1 as [|b bs [Hb1 Hb2] _ IH]; [by cbn|]. cbn [be_Z length].
  rewrite Nat2Z.inj_succ, Z.pow_succ_r by lia. nia.
Qed.

(** ** Laws of readers and writers *)
Definition size_of (e : list Z) : Z := Z.of_nat (length e).

(** A [Blob<N>]. *)
Definition blob_ok (N : nat) (v : list Z) : Prop := bytes_ok v ∧ length v = N.

(** [p] reads [v] from the encoding [e], whatever follows it. *)
Definition reads {A} (p : reader A) (e : list Z) (v : A) : Prop := ∀ s rest,
  remainingBytes s = e ++ rest → p s = Ok (v, advance (length e) s).

(** [p] appends [e]. *)
Definition writes (p : writer) (e : list Z) : Prop := ∀ w, p w = Ok (w ++ e).

(** A stream over bytes, with its position inside of the buffer. *)
Definition stream_ok (s : ReadStream) : Prop :=
  bytes_ok (m_Buffer s) ∧ (m_Pos s <= length (m_Buffer s))%nat.

(** [p] neither aborts nor has undefined behaviour, on any input; it stays in
    the buffer, and what it reads satisfies [Q]. *)
Definition safe_reading {A} (Q : A → Prop) (p : reader A) : Prop := ∀ s, stream_ok s →
  match p s with Ok r => stream_ok r.2 ∧ Q r.1 | Invalid _ => True | _ => False end.
Notation safe_reader := (safe_reading (λ _, True)).

Lemma remaining_length s : remaining s = length (remainingBytes s).
Proof. unfold remaining, remainingBytes. by rewrite length_drop. Qed.

Lemma remaining_advance n s : remainingBytes (advance n s) = drop n (remainingBytes s).
Proof. unfold remainingBytes, advance. simpl. by rewrite drop_drop. Qed.

Lemma advance_add n m s : advance m (advance n s) = advance (n + m) s.
Proof. unfold advance. simpl. f_equal. lia. Qed.

Lemma reads_ret {A} (a : A) : reads (ret a) [] a.
Proof. intros s rest _. unfold ret, advance. simpl. by rewrite Nat.add_0_r; destruct s. Qed.

Lemma reads_bind {A B} (p : reader A) (f : A → reader B) e1 e2 a b :
  reads p e1 a → reads (f a) e2 b → reads (rbind p f) (e1 ++ e2) b.
Proof.
  intros Hp Hf s rest Hs. unfold rbind. rewrite (Hp s (e2 ++ rest)) by (by rewrite app_assoc).
  cbn [mbind result_bind fst snd]. rewrite (Hf _ rest).
  - by rewrite advance_add, length_app.
  - rewrite remaining_advance, Hs, <- app_assoc. by rewrite drop_app_length.
Qed.

Lemma reads_fails {A} (p : reader A) e a r : reads p e a → reads (fails p r) e a.
Proof. intros Hp s rest Hs. unfold fails. by rewrite (Hp s rest). Qed.

Lemma reads_fails_at {A} (p : reader A) e a r i : reads p e a → reads (fails_at p r i) e a.
Proof. intros Hp s rest Hs. unfold fails_at. by rewrite (Hp s rest). Qed.

Lemma reads_guard m : m = Ok tt → reads (guard m) [] tt.
Proof. intros -> s rest _. unfold guard, advance. simpl. by rewrite Nat.add_0_r; destruct s. Qed.

Lemma reads_guard_bind {B} m (p : reader B) e b r : m = Ok tt → reads p e b →
  reads (rbind (fails (guard m) r) (λ _, p)) e b.
Proof. intros Hm Hp. apply (reads_bind _ _ []) with tt; [by apply reads_fails, reads_guard|done]. Qed.

Lemma hasMore_app s e rest n : remainingBytes s = e ++ rest → length e = n →
  hasMore n s = true ∧ take n (remainingBytes s) = e.
Proof.
  intros Hs <-. unfold hasMore. rewrite remaining_length, Hs, length_app. split.
  - apply Nat.leb_le. lia.
  - by rewrite take_app_length.
Qed.

Lemma reads_slice e n : length e = n → reads (readSlice n) e e.
Proof.
  intros Hl s rest Hs. unfold readSlice.
  destruct (hasMore_app s e rest n) as [-> ->]; [done..|]. by rewrite Hl.
Qed.

Lemma reads_read e n : length e = n → reads (read n) e e.
Proof.
  intros Hl s rest Hs. unfold read. destruct (Nat.eqb_spec n 0) as [->|].
  - destruct e; [|done]. by apply (reads_ret [] s rest).
  - destruct (hasMore_app s e rest n) as [-> ->]; [done..|]. by rewrite Hl.
Qed.

Lemma conv_zero T : (0 < it_size T)%nat → conv T 0 = 0.
Proof.
  intros Hs. apply conv_id; [done|]. assert (0 < bits_of T) by (unfold bits_of; lia).
  unfold in_range. destruct (it_signed T); [|lia].
  assert (0 < 2 ^ (bits_of T - 1)) by (apply Z.pow_pos_nonneg; lia). lia.
Qed.

Lemma conv_mod_eq T v : (0 < it_size T)%nat → conv T (v mod 256 ^ Z.of_nat (it_size T)) = conv T v.
Proof.
  intros Hs. apply conv_eq; [done|]. rewrite <- bits_pow. apply Z.mod_mod.
  assert (0 < bits_of T) by (unfold bits_of; lia). lia.
Qed.

Lemma reads_BE_mod T v n : (0 < it_size T)%nat →
  reads (readBE T n) (be_bytes v n) (conv T (v mod 256 ^ Z.of_nat n)).
Proof.
  intros Hs s rest Hrem. unfold readBE.
  destruct (hasMore_app s (be_bytes v n) rest n) as [-> ->]; [done|apply length_be_bytes|].
  by rewrite length_be_bytes, be_loop_eq, Z.add_0_l, be_Z_bytes by (done || by apply conv_zero).
Qed.

(** The whole width: the value converted to the type read. *)
Lemma reads_BE T v : (0 < it_size T)%nat →
  reads (readBE T (it_size T)) (be_bytes v (it_size T)) (conv T v).
Proof. intros Hs. rewrite <- conv_mod_eq by done. by apply reads_BE_mod. Qed.

Lemma reads_BE_n T v n : (0 < it_size T)%nat → in_range T v → 0 <= v < 256 ^ Z.of_nat n →
  reads (readBE T n) (be_bytes v n) v.
Proof.
  intros Hs Hr Hv. rewrite <- (conv_id T v) at 2 by done. rewrite <- (Z.mod_small v _ Hv) at 2.
  by apply reads_BE_mod.
Qed.

Lemma reads_LE T v : (0 < it_size T)%nat →
  reads (readLE T) (le_bytes v 0 (it_size T)) (conv T v).
Proof.
  intros Hs s rest Hrem. unfold readLE.
  destruct (hasMore_app s (le_bytes v 0 (it_size T)) rest (it_size T)) as [-> ->];
    [done|apply length_le_bytes|].
  rewrite length_le_bytes. change 0 with (8 * Z.of_nat 0) at 2.
  rewrite (le_loop_eq T) by first [done | by apply conv_zero].
  change (le_bytes v 0 (it_size T)) with (le_bytes v (8 * Z.of_nat 0) (it_size T)).
  rewrite le_Z_bytes. change (256 ^ Z.of_nat 0) with 1.
  by rewrite Z.div_1_r, Z.mul_1_l, Z.add_0_l, conv_mod_eq.
Qed.

(** *** Writers *)
Lemma writes_seq p q e1 e2 : writes p e1 → writes q e2 → writes (p +++ q) (e1 ++ e2).
Proof.
  intros Hp Hq w. unfold wseq. rewrite Hp. cbn [mbind result_bind]. rewrite Hq. by rewrite app_assoc.
Qed.

Lemma writes_done : writes wdone [].
Proof. intros w. unfold wdone. by rewrite app_nil_r. Qed.

Lemma writes_write e : writes (write e) e.
Proof. done. Qed.

Lemma writes_BE T v n : (0 < it_size T)%nat → (n <= it_size T)%nat → writes (writeBE T v n) (be_bytes v n).
Proof.
  intros Hs Hn w. unfold writeBE. rewrite (proj2 (Nat.leb_le _ _)) by done.
  cbn [vassert mbind result_bind]. do 2 f_equal.
  assert (∀ k, (k <= it_size T)%nat → be_bytes (conv T v) k = be_bytes v k) as E; [|by apply E].
  induction k as [|k IH]; intros Hk; [done|]. simpl. rewrite IH by lia. f_equal.
  rewrite !land_255, !Z.shiftr_div_pow2, !pow256 by lia.
  assert (∀ z, (z / 256 ^ Z.of_nat k) mod 256 =
    ((z mod 2 ^ bits_of T) / 256 ^ Z.of_nat k) mod 256) as E.
  { intros z. rewrite bits_pow.
    replace (Z.of_nat (it_size T)) with (Z.of_nat k + (1 + Z.of_nat (it_size T - S k))) by lia.
    rewrite Z.pow_add_r, Z.pow_add_r by lia.
    assert (0 < 256 ^ Z.of_nat k) by (apply Z.pow_pos_nonneg; lia).
    assert (0 < 256 ^ Z.of_nat (it_size T - S k)) by (apply Z.pow_pos_nonneg; lia).
    rewrite Z.rem_mul_r, Z.mul_comm, Z.div_add, Z.rem_mul_r by lia.
    rewrite (Z.div_small (z mod _)), Z.add_0_l by (apply Z.mod_pos_bound; lia).
    change (256 ^ 1) with 256. rewrite (Z.mul_comm 256), Z.mod_add, Z.mod_mod by lia. done. }
  rewrite E, conv_mod by done. by rewrite <- E.
Qed.

Lemma writes_LE T v : writes (writeLE T v) (le_bytes (conv T v) 0 (it_size T)).
Proof. done. Qed.

(** *** The VBK primitives *)
Definition enc_sbl (v : list Z) : list Z := be_bytes (Z.of_nat (length v)) 1 ++ v.
Definition enc_be (v : Z) : list Z := enc_sbl (trimmedArray v).
Definition enc_varlen (v : list Z) : list Z := enc_be (Z.of_nat (length v)) ++ v.

Lemma length_enc_sbl v : length (enc_sbl v) = S (length v).
Proof. unfold enc_sbl. by rewrite length_app, length_be_bytes. Qed.

Lemma checkRange_ok n min max : min <= n <= max → checkRange n min max = Ok tt.
Proof. intros. unfold checkRange. destruct (Z.ltb_spec n min), (Z.ltb_spec max n); lia || done. Qed.

Lemma checkRange_safe n min max : safe (checkRange n min max).
Proof. unfold checkRange. by repeat case_match. Qed.

Lemma writes_sbl v : (length v <= 255)%nat → writes (writeSingleByteLenValue v) (enc_sbl v).
Proof.
  intros Hl w. unfold writeSingleByteLenValue. rewrite checkRange_ok by lia.
  cbn [is_ok vassert mbind result_bind].
  apply (writes_seq _ _ (be_bytes (Z.of_nat (length v)) 1) v); [|done].
  apply writes_BE; simpl; lia.
Qed.

Lemma reads_len (v : list Z) : (length v <= 255)%nat →
  reads (readBE uint8_t 1) (be_bytes (Z.of_nat (length v)) 1) (Z.of_nat (length v)).
Proof.
  intros Hl. apply reads_BE_n; [simpl; lia| |simpl; lia].
  unfold in_range, bits_of. simpl. lia.
Qed.

Lemma reads_sbl v lo hi : (length v <= 255)%nat → lo <= Z.of_nat (length v) <= hi →
  reads (readSingleByteLenValue lo hi) (enc_sbl v) v.
Proof.
  intros Hl Hr. unfold readSingleByteLenValue, enc_sbl. eapply reads_bind.
  { apply reads_fails, reads_len. done. }
  apply reads_guard_bind; [by apply checkRange_ok|]. apply reads_slice. lia.
Qed.

Lemma reads_sbl_vector v lo hi : (length v <= 255)%nat → lo <= Z.of_nat (length v) <= hi →
  reads (readSingleByteLenVector lo hi) (enc_sbl v) v.
Proof.
  intros Hl Hr. unfold readSingleByteLenVector, enc_sbl. eapply reads_bind.
  { apply reads_fails, reads_len. done. }
  apply reads_guard_bind; [by apply checkRange_ok|]. apply reads_read. lia.
Qed.

Lemma reads_sbl_blob N v : (N <= 255)%nat → length v = N →
  reads (readSingleByteLenBlob N (Z.of_nat N) (Z.of_nat N)) (enc_sbl v) v.
Proof.
  intros Hl <-. unfold readSingleByteLenBlob, enc_sbl. eapply reads_bind.
  { apply reads_fails, reads_len. done. }
  apply reads_guard_bind; [by apply checkRange_ok|].
  apply (reads_bind _ _ [] v tt); [by apply reads_guard; rewrite Z.eqb_refl|].
  apply reads_read. lia.
Qed.

Lemma reads_on_slice {A} (p : reader A) v a : reads p v a → reads (on_slice p v) [] a.
Proof.
  intros Hp s rest _. unfold on_slice. rewrite (Hp (newStream v) []) by (by rewrite app_nil_r).
  cbn [mbind result_bind fst]. unfold advance. simpl. by rewrite Nat.add_0_r; destruct s.
Qed.

Lemma trimmed_size_le k v : (1 <= trimmed_size k v <= S k)%nat.
Proof.
  induction k as [|k IH]; cbn [trimmed_size]; [lia|]. destruct (negb _); lia.
Qed.

Lemma trimmed_size_fits k v : 0 <= v < 256 ^ Z.of_nat (S k) → v < 256 ^ Z.of_nat (trimmed_size k v).
Proof.
  induction k as [|k IH]; intros Hv; cbn [trimmed_size]; [simpl in *; lia|].
  destruct (Z.eqb_spec (Z.shiftr v (8 * Z.of_nat (S k))) 0) as [E|E]; cbn [negb]; [|apply Hv].
  apply IH. rewrite Z.shiftr_div_pow2, pow256 in E by lia. apply Z.div_small_iff in E; lia.
Qed.

Lemma trimmed_size_min k v n : 0 <= v < 256 ^ Z.of_nat n → (1 <= n)%nat → (trimmed_size k v <= n)%nat.
Proof.
  intros Hv Hn. induction k as [|k IH]; cbn [trimmed_size]; [lia|].
  destruct (Z.eqb_spec (Z.shiftr v (8 * Z.of_nat (S k))) 0) as [E|E]; cbn [negb]; [done|].
  destruct (Nat.le_gt_cases (S (S k)) n); [done|]. destruct E.
  rewrite Z.shiftr_div_pow2, pow256 by lia. apply Z.div_small.
  assert (256 ^ Z.of_nat n <= 256 ^ Z.of_nat (S k)) by (apply Z.pow_le_mono_r; lia). lia.
Qed.

Lemma trimmed_size_neg v : - 2 ^ 63 <= v < 0 → trimmed_size 7 v = 8%nat.
Proof.
  intros Hv. cbn [trimmed_size].
  destruct (Z.eqb_spec (Z.shiftr v (8 * Z.of_nat 7)) 0) as [E|]; [|done].
  apply Z.shiftr_eq_0_iff in E. lia.
Qed.

(** A value of type [T] that [writeSingleBEValue] makes readable: a negative
    [int32_t] takes eight bytes. *)
Definition be_readable (T : int_type) (v : Z) : Prop :=
  in_range T v ∧ in_range int64_t v ∧ (0 <= v ∨ it_size T = 8%nat) ∧ (1 <= it_size T <= 8)%nat.

#[export] Instance be_readable_dec T v : Decision (be_readable T v).
Proof. apply _. Defined.

Lemma length_trimmed v : length (trimmedArray v) = trimmed_size 7 v.
Proof. apply length_be_bytes. Qed.

Lemma length_trimmed_le v : (1 <= length (trimmedArray v) <= 8)%nat.
Proof. rewrite length_trimmed. apply trimmed_size_le. Qed.

Lemma in_range_nonneg T v : 0 <= v → in_range T v → (1 <= it_size T)%nat → v < 256 ^ Z.of_nat (it_size T).
Proof.
  intros Hv Hr Hs. rewrite <- bits_pow. unfold in_range in Hr. assert (0 < bits_of T) by (unfold bits_of; lia).
  destruct (it_signed T); [|lia].
  assert (2 ^ (bits_of T - 1) <= 2 ^ bits_of T) by (apply Z.pow_le_mono_r; lia). lia.
Qed.

Lemma reads_be T v : be_readable T v → reads (readSingleBEValue T) (enc_be v) v.
Proof.
  intros (Hr & H64 & Hv & Hs). unfold readSingleBEValue, enc_be.
  pose proof (length_trimmed_le v) as Hl.
  assert (length (trimmedArray v) <= it_size T)%nat as Hle.
  { rewrite length_trimmed. destruct Hv as [Hv| ->]; [|apply trimmed_size_le].
    apply trimmed_size_min; [|lia]. split; [done|]. apply in_range_nonneg; [done..|lia]. }
  rewrite <- (app_nil_r (enc_sbl _)). eapply reads_bind; [apply reads_fails, reads_sbl; lia|].
  apply reads_on_slice. rewrite length_trimmed. unfold trimmedArray.
  assert (0 <= v ∨ v < 0) as [Hpos|Hneg] by lia.
  - apply reads_BE_n; [lia|done|]. split; [done|]. apply trimmed_size_fits. split; [done|].
    change (S 7) with (it_size int64_t). apply in_range_nonneg; [done..|simpl; lia].
  - unfold in_range, bits_of in H64. cbn in H64. rewrite trimmed_size_neg by lia.
    destruct Hv as [|E8]; [lia|]. rewrite <- E8.
    rewrite <- (conv_id T v) at 2 by (done || lia). apply reads_BE. lia.
Qed.

Lemma writes_be v : in_range int64_t v → writes (writeSingleBEValue v) (enc_be v).
Proof.
  intros Hr. unfold writeSingleBEValue, enc_be, enc_sbl. rewrite conv_id by (done || simpl; lia).
  apply writes_seq; [apply writes_BE; simpl; lia|done].
Qed.

Lemma written_writes p e : writes p e → written p = Ok e.
Proof. intros Hp. unfold written. by rewrite Hp. Qed.

Lemma writes_fixed_be T v : (1 <= it_size T <= 8)%nat →
  writes (writeSingleFixedBEValue T v) (enc_sbl (be_bytes v (it_size T))).
Proof.
  intros Hs w. unfold writeSingleFixedBEValue.
  rewrite (written_writes _ (be_bytes v (it_size T))) by (apply writes_BE; lia).
  cbn [mbind result_bind]. apply writes_sbl. rewrite length_be_bytes. lia.
Qed.

Lemma reads_fixed_be T v : (1 <= it_size T <= 8)%nat → in_range T v →
  reads (readSingleBEValue T) (enc_sbl (be_bytes v (it_size T))) v.
Proof.
  intros Hs Hr. unfold readSingleBEValue. rewrite <- (app_nil_r (enc_sbl _)).
  eapply reads_bind; [apply reads_fails, reads_sbl; rewrite length_be_bytes; lia|].
  apply reads_on_slice. rewrite length_be_bytes. pose proof (reads_BE T v ltac:(lia)) as Hb.
  rewrite conv_id in Hb by (done || lia). exact Hb.
Qed.

Lemma reads_varlen v lo hi : (Z.of_nat (length v) < 2 ^ 31) → lo <= Z.of_nat (length v) <= hi →
  reads (readVarLenValue lo hi) (enc_varlen v) v.
Proof.
  intros Hl Hr. unfold readVarLenValue, enc_varlen.
  assert (u64 (Z.of_nat (length v)) = Z.of_nat (length v)) as E by (apply wrapU_small; lia).
  eapply reads_bind; [apply reads_fails, reads_be|].
  - unfold be_readable, in_range, bits_of. simpl. lia.
  - apply reads_guard_bind; [rewrite E; by apply checkRange_ok|]. apply reads_slice. rewrite E. lia.
Qed.

Lemma writes_varlen v : (Z.of_nat (length v) < 2 ^ 63) → writes (writeVarLenValue v) (enc_varlen v).
Proof.
  intros Hl. unfold writeVarLenValue, enc_varlen. apply writes_seq; [|done].
  apply writes_be. unfold in_range, bits_of. simpl. lia.
Qed.

(** *** Sizes *)
Lemma u64_small n : 0 <= n < 2 ^ 64 → u64 n = n.
Proof. apply wrapU_small. Qed.

Lemma size_sbl v : (length v <= 255)%nat →
  singleByteLenValueSize (Z.of_nat (length v)) = Ok (Z.of_nat (length (enc_sbl v))).
Proof.
  intros Hl. unfold singleByteLenValueSize. rewrite checkRange_ok by lia.
  cbn [is_ok vassert mbind result_bind]. rewrite u64_small by lia. rewrite length_enc_sbl. f_equal. lia.
Qed.

Lemma size_be v : in_range int64_t v → singleBEValueSize v = Z.of_nat (length (enc_be v)).
Proof.
  intros Hr. unfold singleBEValueSize, enc_be. rewrite conv_id by (done || simpl; lia).
  rewrite length_enc_sbl. lia.
Qed.

Lemma length_enc_be v : (2 <= length (enc_be v) <= 9)%nat.
Proof. unfold enc_be. rewrite length_enc_sbl. pose proof (length_trimmed_le v). lia. Qed.

Lemma size_varlen v : (Z.of_nat (length v) < 2 ^ 63) →
  varLenValueSize (Z.of_nat (length v)) = Z.of_nat (length (enc_varlen v)).
Proof.
  intros Hl. unfold varLenValueSize, enc_varlen.
  rewrite size_be by (unfold in_range, bits_of; simpl; lia). rewrite length_app.
  pose proof (length_enc_be (Z.of_nat (length v))). rewrite u64_small by lia. lia.
Qed.

Lemma size_fixed_be T v : (1 <= it_size T <= 8)%nat →
  singleFixedBEValueSize T v = Ok (Z.of_nat (length (enc_sbl (be_bytes v (it_size T))))).
Proof.
  intros Hs. unfold singleFixedBEValueSize.
  rewrite (written_writes _ (be_bytes v (it_size T))) by (apply writes_BE; lia).
  cbn [mbind result_bind]. apply size_sbl. rewrite length_be_bytes. lia.
Qed.

(** *** Safety *)
Lemma safe_ret {A} (a : A) : safe_reader (ret a).
Proof. done. Qed.

Lemma safe_ret_with {A} (Q : A → Prop) (a : A) : Q a → safe_reading Q (ret a).
Proof. done. Qed.

Lemma safe_weaken {A} (Q R : A → Prop) (p : reader A) :
  safe_reading Q p → (∀ a, Q a → R a) → safe_reading R p.
Proof. intros Hp Hq s Hs. specialize (Hp s Hs). destruct (p s); naive_solver. Qed.

Lemma safe_forget {A} (Q : A → Prop) (p : reader A) : safe_reading Q p → safe_reader p.
Proof. intros Hp. by eapply safe_weaken. Qed.

Lemma safe_bind {A B} (Q : A → Prop) (R : B → Prop) (p : reader A) (f : A → reader B) :
  safe_reading Q p → (∀ a, Q a → safe_reading R (f a)) → safe_reading R (rbind p f).
Proof.
  intros Hp Hf s Hs. unfold rbind. specialize (Hp s Hs). destruct (p s); try done.
  cbn [mbind result_bind]. destruct Hp as [Hs' Ha]. by apply Hf.
Qed.

Lemma safe_fails {A} (Q : A → Prop) (p : reader A) r : safe_reading Q p → safe_reading Q (fails p r).
Proof. intros Hp s Hs. unfold fails. specialize (Hp s Hs). by destruct (p s). Qed.

Lemma safe_fails_at {A} (Q : A → Prop) (p : reader A) r i : safe_reading Q p → safe_reading Q (fails_at p r i).
Proof. intros Hp s Hs. unfold fails_at. specialize (Hp s Hs). by destruct (p s). Qed.

Lemma safe_guard m : safe m → safe_reader (guard m).
Proof. intros Hm s Hs. unfold guard. by destruct m. Qed.

(** A check that the rest may rely on. *)
Lemma safe_guard_with {A} (R : A → Prop) m r (f : unit → reader A) :
  safe m → (m = Ok tt → safe_reading R (f tt)) → safe_reading R (rbind (fails (guard m) r) f).
Proof.
  intros Hm Hf s Hs. unfold rbind, fails, guard. destruct m as [[]| | | | |]; try done.
  cbn [mbind result_bind or_invalid fst snd]. by apply Hf.
Qed.

Lemma checkRange_inv n lo hi u : checkRange n lo hi = Ok u → lo <= n <= hi.
Proof. unfold checkRange. by bsplit. Qed.

Lemma safe_checkRange n lo hi r : safe_reader (fails (guard (checkRange n lo hi)) r).
Proof. apply safe_fails, safe_guard, checkRange_safe. Qed.

Lemma bytes_take_drop s n : stream_ok s → bytes_ok (take n (remainingBytes s)).
Proof. intros [Hs _]. by apply Forall_take, Forall_drop. Qed.

Lemma stream_advance s n : stream_ok s → hasMore n s = true → stream_ok (advance n s).
Proof.
  intros [Hs Hp] Hn%Nat.leb_le. split; [done|]. unfold remaining in Hn. simpl. lia.
Qed.

Lemma safe_readBE T n : (0 < it_size T)%nat → safe_reading (in_range T) (readBE T n).
Proof.
  intros HT s Hs. unfold readBE. destruct (hasMore _ _) eqn:E; [|done]. split; [by apply stream_advance|].
  cbn [fst]. rewrite (be_loop_eq T) by first [done | by apply conv_zero]. by apply conv_range.
Qed.

Lemma safe_readLE T : (0 < it_size T)%nat → safe_reading (in_range T) (readLE T).
Proof.
  intros HT s Hs. unfold readLE. destruct (hasMore _ _) eqn:E; [|done]. split; [by apply stream_advance|].
  cbn [fst]. change 0 with (8 * Z.of_nat 0) at 2.
  rewrite (le_loop_eq T) by first [done | by apply conv_zero]. by apply conv_range.
Qed.

(** Slices are bytes of the requested length. *)
Definition bytes_of_length (lo hi : Z) (v : list Z) : Prop :=
  bytes_ok v ∧ lo <= Z.of_nat (length v) <= hi.

Lemma length_take_remaining s n : hasMore n s = true → length (take n (remainingBytes s)) = n.
Proof. intros E%Nat.leb_le. rewrite length_take, <- remaining_length. lia. Qed.

Lemma safe_readSlice n : safe_reading (bytes_of_length (Z.of_nat n) (Z.of_nat n)) (readSlice n).
Proof.
  intros s Hs. unfold readSlice. destruct (hasMore _ _) eqn:E; [|done]. split; [by apply stream_advance|].
  split; [by apply bytes_take_drop|]. cbn [fst]. rewrite length_take_remaining by done. lia.
Qed.

Lemma safe_read n : safe_reading (bytes_of_length (Z.of_nat n) (Z.of_nat n)) (read n).
Proof.
  intros s Hs. unfold read. destruct (Nat.eqb_spec n 0) as [->|_]; [split; [done|]; split; [constructor|simpl; lia]|].
  destruct (hasMore _ _) eqn:E; [|done]. split; [by apply stream_advance|].
  split; [by apply bytes_take_drop|]. cbn [fst]. rewrite length_take_remaining by done. lia.
Qed.

Lemma safe_on_slice {A} (Q : A → Prop) (p : reader A) v : bytes_ok v → safe_reading Q p →
  safe_reading Q (on_slice p v).
Proof.
  intros Hv Hp s Hs. unfold on_slice. specialize (Hp (newStream v)).
  destruct (p _); try (by apply Hp; split; [done|simpl; lia]).
  cbn [mbind result_bind fst snd]. split; [done|]. apply Hp. split; [done|simpl; lia].
Qed.

Create HintDb serde discriminated.
#[export] Hint Resolve safe_ret safe_fails safe_fails_at safe_guard safe_checkRange
  safe_readSlice safe_read checkRange_safe : serde.

Lemma safe_byte : safe_reading byte_ok (readBE uint8_t 1).
Proof. apply (safe_weaken _ _ _ (safe_readBE uint8_t 1 ltac:(simpl; lia))). done. Qed.

Lemma safe_sbl lo hi : safe_reading (bytes_of_length lo hi) (readSingleByteLenValue lo hi).
Proof.
  unfold readSingleByteLenValue. eapply safe_bind; [apply safe_fails, safe_byte|].
  intros n Hn. apply safe_guard_with; [apply checkRange_safe|]. intros Hr%checkRange_inv.
  eapply safe_weaken; [apply safe_readSlice|]. intros v [Hv Hl]. unfold byte_ok in Hn.
  split; [done|lia].
Qed.

Lemma safe_sbl_vector lo hi : safe_reading (bytes_of_length lo hi) (readSingleByteLenVector lo hi).
Proof.
  unfold readSingleByteLenVector. eapply safe_bind; [apply safe_fails, safe_byte|].
  intros n Hn. apply safe_guard_with; [apply checkRange_safe|]. intros Hr%checkRange_inv.
  eapply safe_weaken; [apply safe_read|]. intros v [Hv Hl]. unfold byte_ok in Hn.
  split; [done|lia].
Qed.

(** The length prefix is one byte. *)
Lemma safe_sbl_short lo hi : safe_reading (λ v, bytes_of_length lo hi v ∧ (length v <= 255)%nat)
  (readSingleByteLenVector lo hi).
Proof.
  unfold readSingleByteLenVector. eapply safe_bind; [apply safe_fails, safe_byte|].
  intros n Hn. apply safe_guard_with; [apply checkRange_safe|]. intros Hr%checkRange_inv.
  eapply safe_weaken; [apply safe_read|]. intros v [Hv Hl]. unfold byte_ok in Hn.
  split; [split; [done|lia]|lia].
Qed.

(** The assertion of [Blob::resize] holds when the bounds are the size. *)
Lemma safe_sbl_blob N : safe_reading (bytes_of_length (Z.of_nat N) (Z.of_nat N))
  (readSingleByteLenBlob N (Z.of_nat N) (Z.of_nat N)).
Proof.
  unfold readSingleByteLenBlob. eapply safe_bind; [apply safe_fails, safe_byte|].
  intros n _. apply safe_guard_with; [apply checkRange_safe|]. intros Hr%checkRange_inv.
  assert (n = Z.of_nat N) as -> by lia.
  eapply safe_bind; [apply safe_guard; by rewrite Z.eqb_refl|]. intros _ _. rewrite Nat2Z.id. apply safe_read.
Qed.
#[export] Hint Resolve safe_sbl safe_sbl_vector safe_sbl_blob safe_byte : serde.

Lemma safe_be T : (0 < it_size T)%nat → safe_reading (in_range T) (readSingleBEValue T).
Proof.
  intros HT. unfold readSingleBEValue. eapply safe_bind; [apply safe_fails, safe_sbl|].
  intros v [Hv _]. apply safe_on_slice; [done|]. by apply safe_readBE.
Qed.

Lemma safe_varlen lo hi : safe_reading (bytes_of_length lo hi) (readVarLenValue lo hi).
Proof.
  unfold readVarLenValue. eapply safe_bind; [apply safe_fails, safe_be; simpl; lia|].
  intros n _. apply safe_guard_with; [apply checkRange_safe|]. intros Hr%checkRange_inv.
  eapply safe_weaken; [apply safe_readSlice|]. intros v [Hv Hl]. pose proof (wrapU_range 64 n).
  split; [done|lia].
Qed.

Lemma safe_readLoop {A} (Q : A → Prop) r (p : reader A) n i : safe_reading Q p →
  safe_reading (λ l, Forall Q l ∧ length l = n) (readLoop r p n i).
Proof.
  intros Hp. revert i. induction n as [|n IH]; intros i; cbn [readLoop].
  { apply safe_ret_with. by split; [constructor|]. }
  eapply safe_bind; [by apply safe_fails_at|]. intros x Hx.
  eapply safe_bind; [apply IH|]. intros l [Hl Hn]. apply safe_ret_with. split; [by constructor|]. simpl. lia.
Qed.

Lemma safe_readArrayOf {A} (Q : A → Prop) lo hi (p : reader A) : safe_reading Q p →
  safe_reading (λ l, Forall Q l ∧ lo <= Z.of_nat (length l) <= hi) (readArrayOf lo hi p).
Proof.
  intros Hp. unfold readArrayOf. eapply safe_bind; [apply safe_fails, safe_be; simpl; lia|].
  intros n _. apply safe_guard_with; [apply checkRange_safe|]. intros Hr%checkRange_inv.
  eapply safe_weaken; [by apply safe_readLoop|]. intros l [Hl Hn]. pose proof (wrapU_range 64 n).
  split; [done|lia].
Qed.

Definition network_ok (type : Z) (n : NetworkBytePair) : Prop :=
  byte_ok (typeId n) ∧ byte_ok type ∧
  match networkType n with Some v => byte_ok v ∧ v ≠ type | None => typeId n = type end.

Lemma safe_readNetworkByte t : byte_ok t → safe_reading (network_ok t) (readNetworkByte t).
Proof.
  intros Ht. unfold readNetworkByte.
  assert (conv uint8_t t = t) as -> by (apply conv_id; [simpl; lia|done]).
  eapply safe_bind; [apply safe_fails, safe_byte|]. intros b Hb.
  destruct (Z.eqb_spec b t); [by apply safe_ret_with|].
  eapply safe_bind; [apply safe_fails, safe_byte|]. intros b' Hb'. by apply safe_ret_with.
Qed.

(** *** Containers *)
Lemma reads_loop {A} r (p : reader A) l es i :
  Forall2 (λ x e, reads p e x) l es → reads (readLoop r p (length l) i) (concat es) l.
Proof.
  intros Hall. revert i. induction Hall as [|x e l es Hx _ IH]; intros i; [apply reads_ret|].
  cbn [length readLoop concat]. apply (reads_bind _ _ e (concat es) x); [by apply reads_fails_at|].
  rewrite <- (app_nil_r (concat es)). apply (reads_bind _ _ _ _ l); [apply IH|apply reads_ret].
Qed.

Lemma reads_arrayOf {A} (p : reader A) l es ec hi :
  Forall2 (λ x e, reads p e x) l es → reads (readSingleBEValue int32_t) ec (Z.of_nat (length l)) →
  Z.of_nat (length l) <= hi < 2 ^ 31 → reads (readArrayOf 0 hi p) (ec ++ concat es) l.
Proof.
  intros Hall Hc Hhi. unfold readArrayOf.
  assert (u64 (Z.of_nat (length l)) = Z.of_nat (length l)) as E by (apply u64_small; lia).
  eapply reads_bind; [by apply reads_fails|].
  apply reads_guard_bind; [rewrite E; apply checkRange_ok; lia|].
  rewrite E, Nat2Z.id. by apply reads_loop.
Qed.

Lemma writes_items {A} (f : A → writer) l es :
  Forall2 (λ x e, writes (f x) e) l es → writes (writeItems f l) (concat es).
Proof.
  induction 1 as [|x e l es Hx _ IH]; [apply writes_done|]. by apply writes_seq.
Qed.

Lemma addsize_ok a b : 0 <= a → 0 <= b → a + b < 2 ^ 64 → addsize a b = a + b.
Proof. intros. apply u64_small. lia. Qed.

Lemma sumSizes_ok {A} (f : A → result Z) l (es : list (list Z)) size :
  Forall2 (λ x e, f x = Ok (Z.of_nat (length e))) l es → 0 <= size →
  size + Z.of_nat (length (concat es)) < 2 ^ 64 →
  sumSizes f l size = Ok (size + Z.of_nat (length (concat es))).
Proof.
  intros Hall. revert size. induction Hall as [|x e l es Hx _ IH]; intros size Hs Hb; cbn [sumSizes concat].
  - simpl. f_equal. lia.
  - cbn [concat] in Hb. rewrite length_app in *. rewrite Hx. cbn [mbind result_bind].
    rewrite addsize_ok by lia. rewrite IH by lia. f_equal. lia.
Qed.

Lemma length_concat_le (es : list (list Z)) B :
  Forall (λ e, Z.of_nat (length e) <= B) es → Z.of_nat (length (concat es)) <= Z.of_nat (length es) * B.
Proof.
  induction 1 as [|e es He _ IH]; cbn [concat length]; [lia|]. rewrite length_app. lia.
Qed.

Lemma accumulate_from_ok parts es size :
  Forall2 (λ x e, x = Ok (size_of e)) parts es → 0 <= size →
  size + size_of (concat es) < 2 ^ 64 → accumulate_from size parts = Ok (size + size_of (concat es)).
Proof.
  intros Hall. revert size. unfold size_of in *. induction Hall as [|x e parts es -> _ IH]; intros size Hs Hb;
    cbn [accumulate_from concat].
  - simpl. f_equal. lia.
  - cbn [concat] in Hb. rewrite length_app in *. cbn [mbind result_bind].
    rewrite addsize_ok by lia. rewrite IH by lia. f_equal. lia.
Qed.

(** The sizes of consecutive parts add up to the size of the encoding. *)
Lemma accumulate_ok parts es : Forall2 (λ x e, x = Ok (size_of e)) parts es →
  size_of (concat es) < 2 ^ 64 → accumulate parts = Ok (size_of (concat es)).
Proof. intros Hall Hb. unfold accumulate. by rewrite (accumulate_from_ok _ es 0 Hall) by lia. Qed.

(** *** Network byte *)
Definition enc_network (n : NetworkBytePair) : list Z :=
  (match networkType n with Some v => be_bytes v 1 | None => [] end) ++ be_bytes (typeId n) 1.

Lemma byte_range v : byte_ok v → in_range uint8_t v.
Proof. unfold byte_ok, in_range, bits_of. simpl. lia. Qed.

Lemma reads_byte v : byte_ok v → reads (readBE uint8_t 1) (be_bytes v 1) v.
Proof. intros Hv. apply reads_BE_n; [simpl; lia|by apply byte_range|]. unfold byte_ok in Hv. simpl. lia. Qed.

Lemma writes_byte v : writes (writeBE uint8_t v 1) (be_bytes v 1).
Proof. apply writes_BE; simpl; lia. Qed.

Lemma reads_network type n : network_ok type n → reads (readNetworkByte type) (enc_network n) n.
Proof.
  intros (Ht & Hty & Hn). unfold readNetworkByte, enc_network.
  assert (conv uint8_t type = type) as -> by (apply conv_id; [simpl; lia|by apply byte_range]).
  destruct n as [[v|] t]; cbn [networkType typeId] in *.
  - destruct Hn as [Hv Hne]. eapply reads_bind; [by apply reads_fails, reads_byte|].
    destruct (Z.eqb_spec v type); [done|]. rewrite <- (app_nil_r (be_bytes t 1)).
    eapply reads_bind; [by apply reads_fails, reads_byte|apply reads_ret].
  - subst t. cbn [app]. rewrite <- (app_nil_r (be_bytes type 1)).
    eapply reads_bind; [by apply reads_fails, reads_byte|]. rewrite Z.eqb_refl. apply reads_ret.
Qed.

Lemma writes_network n : writes (writeNetworkByte n) (enc_network n).
Proof.
  unfold writeNetworkByte, enc_network. destruct (networkType n);
    (apply writes_seq; [|apply writes_byte]); [apply writes_byte|apply writes_done].
Qed.

Lemma size_network n : networkByteSize n = Z.of_nat (length (enc_network n)).
Proof. unfold networkByteSize, enc_network. by destruct (networkType n). Qed.

(** ** The interface of an entity

    [encoding] is the byte format.  [toVbkEncoding] writes it, [estimateSize]
    is its length and [DeserializeFromVbkEncoding] reads it back.  [valid] are
    the objects that can be written; what a decoder returns is valid.
    [encodable] adds the limits that the decoder imposes. *)
Class Codec (A : Type) := {
  toVbkEncoding : A → writer;
  fromVbkEncoding : reader A;
  estimateSize : A → result Z;
  encoding : A → list Z;
  valid : A → Prop;
  encodable : A → Prop;
  max_size : Z
}.
#[global] Arguments max_size A {_}.

Class CodecLaws (A : Type) `{Codec A} := {
  codec_valid : ∀ x, encodable x → valid x;
  codec_writes : ∀ x, valid x → writes (toVbkEncoding x) (encoding x);
  codec_size : ∀ x, valid x → estimateSize x = Ok (size_of (encoding x));
  codec_max : ∀ x, valid x → size_of (encoding x) <= max_size A;
  codec_reads : ∀ x, encodable x → reads fromVbkEncoding (encoding x) x;
  codec_safe : safe_reading valid (fromVbkEncoding (A := A))
}.
#[export] Hint Resolve codec_valid codec_writes codec_size codec_max codec_reads codec_safe : serde.

(** [SerializeToVbkEncoding] and [DeserializeFromVbkEncoding(Slice, ...)]. *)
Definition SerializeToVbkEncoding {A} `{Codec A} (obj : A) : result (list Z) :=
  written (toVbkEncoding obj).

Definition DeserializeFromVbkEncoding {A} `{Codec A} (data : list Z) : result A :=
  r ← fromVbkEncoding (newStream data); Ok r.1.

Section codec.
Context {A : Type} `{CodecLaws A}.

Lemma serialize_valid (x : A) : valid x → SerializeToVbkEncoding x = Ok (encoding x).
Proof. intros Hx. by apply written_writes, codec_writes. Qed.

Lemma roundtrip (x : A) : encodable x → DeserializeFromVbkEncoding (encoding x) = Ok x.
Proof.
  intros Hx. unfold DeserializeFromVbkEncoding.
  by rewrite (codec_reads x Hx (newStream (encoding x)) []) by (by rewrite app_nil_r).
Qed.

(** Two different objects never have the same encoding. *)
Lemma encoding_inj (x y : A) : encodable x → encodable y → encoding x = encoding y → x = y.
Proof. intros Dx%roundtrip Dy%roundtrip E. congruence. Qed.

(** Any input is decoded or rejected; what is decoded can be encoded. *)
Lemma deserialize_safe data : bytes_ok data →
  match DeserializeFromVbkEncoding (A := A) data with
  | Ok x => valid x
  | Invalid _ => True
  | _ => False
  end.
Proof.
  intros Hd. unfold DeserializeFromVbkEncoding. pose proof (codec_safe (newStream data)) as Hs.
  destruct (fromVbkEncoding _); (apply Hs; split; [done|simpl; lia]).
Qed.

(** An array of entities. *)
Definition enc_list (l : list A) : list Z := enc_be (Z.of_nat (length l)) ++ concat (map encoding l).

Lemma size_concat (l : list A) : Forall valid l →
  size_of (concat (map encoding l)) <= Z.of_nat (length l) * max_size A.
Proof.
  intros Hl. unfold size_of. rewrite <- (length_map encoding l). apply length_concat_le.
  apply Forall_map. eapply Forall_impl; [exact Hl|]. apply codec_max.
Qed.

Lemma size_enc_list (l : list A) hi : Forall valid l → Z.of_nat (length l) <= hi → 0 <= max_size A →
  size_of (enc_list l) <= 9 + hi * max_size A.
Proof.
  intros Hl Hhi Hm. unfold enc_list, size_of. rewrite length_app, Nat2Z.inj_add.
  pose proof (length_enc_be (Z.of_nat (length l))). pose proof (size_concat l Hl). unfold size_of in *. nia.
Qed.

Lemma writes_list (l : list A) : Forall valid l → Z.of_nat (length l) < 2 ^ 63 →
  writes (writeContainer l toVbkEncoding) (enc_list l).
Proof.
  intros Hl Hn. apply writes_seq; [apply writes_be; unfold in_range, bits_of; simpl; lia|].
  apply writes_items. induction Hl; constructor; [by apply codec_writes|]. apply IHHl. simpl in Hn. lia.
Qed.

Lemma estimate_list (l : list A) : Forall valid l → Z.of_nat (length l) < 2 ^ 63 →
  size_of (enc_list l) < 2 ^ 64 → estimateContainerSize l estimateSize = Ok (size_of (enc_list l)).
Proof.
  intros Hl Hn Hsize. unfold enc_list, size_of in *. rewrite length_app, Nat2Z.inj_add in *.
  unfold estimateContainerSize. rewrite size_be by (unfold in_range, bits_of; simpl; lia).
  apply sumSizes_ok; [|lia..]. clear Hn Hsize. induction Hl; constructor; [by apply codec_size|done].
Qed.

Lemma reads_list (l : list A) hi : Forall encodable l → Z.of_nat (length l) <= hi < 2 ^ 31 →
  reads (readArrayOf 0 hi fromVbkEncoding) (enc_list l) l.
Proof.
  intros Hl Hhi. apply reads_arrayOf; [|apply reads_be; unfold be_readable, in_range, bits_of; simpl; lia|done].
  clear Hhi. induction Hl; constructor; [by apply codec_reads|done].
Qed.
End codec.

(** Blobs read from a stream. *)
Lemma blob_of_length N v : bytes_of_length (Z.of_nat N) (Z.of_nat N) v → blob_ok N v.
Proof. intros [Hb Hl]. split; [done|lia]. Qed.

Lemma safe_readBlob N : safe_reading (blob_ok N) (readSlice N).
Proof. eapply safe_weaken; [apply safe_readSlice|]. apply blob_of_length. Qed.

Lemma safe_sbl_N N : safe_reading (blob_ok N) (readSingleByteLenBlob N (Z.of_nat N) (Z.of_nat N)).
Proof. eapply safe_weaken; [apply safe_sbl_blob|]. apply blob_of_length. Qed.

Lemma reads_eq {A} (p : reader A) e e' v : reads p e v → e = e' → reads p e' v.
Proof. by intros ? <-. Qed.

Lemma writes_eq (p : writer) e e' : writes p e → e = e' → writes p e'.
Proof. by intros ? <-. Qed.

Lemma reads_value {A} (p : reader A) e v v' : reads p e v → v = v' → reads p e v'.
Proof. by intros ? <-. Qed.

Lemma size_app e1 e2 : size_of (e1 ++ e2) = size_of e1 + size_of e2.
Proof. unfold size_of. rewrite length_app. lia. Qed.

Lemma size_concat_cons e es : size_of (concat (e :: es)) = size_of e + size_of (concat es).
Proof. apply size_app. Qed.

Lemma size_be_bytes v n : size_of (be_bytes v n) = Z.of_nat n.
Proof. unfold size_of. by rewrite length_be_bytes. Qed.

Lemma size_le_bytes v s n : size_of (le_bytes v s n) = Z.of_nat n.
Proof. unfold size_of. by rewrite length_le_bytes. Qed.

Lemma size_nonneg e : 0 <= size_of e.
Proof. unfold size_of. lia. Qed.

Lemma size_enc_sbl v : size_of (enc_sbl v) = 1 + size_of v.
Proof. unfold size_of. rewrite length_enc_sbl. lia. Qed.

Lemma size_enc_be v : 2 <= size_of (enc_be v) <= 9.
Proof. unfold size_of. pose proof (length_enc_be v). lia. Qed.

Lemma size_enc_varlen v : size_of (enc_varlen v) <= 9 + size_of v.
Proof. unfold enc_varlen. rewrite size_app. pose proof (size_enc_be (Z.of_nat (length v))). lia. Qed.

Lemma blob_size N v : blob_ok N v → size_of v = Z.of_nat N.
Proof. intros [_ <-]. done. Qed.

(** [conjs tac] splits syntactic conjunctions only, and solves the parts. *)
Ltac conjs tac :=
  lazymatch goal with
  | |- _ ∧ _ => split; conjs tac
  | |- blob_ok _ _ => split; conjs tac
  | |- _ => solve [tac]
  end.

(** [writes_parts] goes through a sequence of writers. *)
Ltac writes_parts := repeat lazymatch goal with |- writes (wseq _ _) _ => apply writes_seq end.

Lemma writes_ext (p q : writer) e : (∀ w, p w = q w) → writes q e → writes p e.
Proof. intros E Hq w. by rewrite E. Qed.

Lemma Ok_inj {A} (x y : A) : Ok x = Ok y → x = y.
Proof. by intros [= ->]. Qed.
