(* ===== verification/Base58.v ===== *)
(** * Base58 and Base59 ([base58.cpp], [base59.cpp])

    A [std::string] is the list of its characters as unsigned bytes.  The
    encoders and decoders work on fixed-size buffers whose sizes come from
    logarithms rounded up; the theorems show that the buffers are always large
    enough (the assertions hold), that decoding is inverse to encoding, and
    that both compute the same number in another base. *)
From Stdlib Require Import Ascii String List.
From S2P Require Import Prelude Serde.

Definition chars (s : string) : list Z :=
  map (λ a, Z.of_nat (nat_of_ascii a)) (list_ascii_of_string s).

(** [IsSpace]: space, \f, \n, \r, \t, \v *)
Definition IsSpace (c : Z) : bool :=
  (c =? 32) || (c =? 12) || (c =? 10) || (c =? 13) || (c =? 9) || (c =? 11).

Definition pszBase58 : list Z :=
  chars "123456789ABCDEFGHJKLMNPQRSTUVWXYZabcdefghijkmnopqrstuvwxyz".

Definition mapBase58 : list Z :=
  [-1; -1; -1; -1; -1; -1; -1; -1; -1; -1; -1; -1; -1; -1; -1; -1; -1; -1; -1;
   -1; -1; -1; -1; -1; -1; -1; -1; -1; -1; -1; -1; -1; -1; -1; -1; -1; -1; -1;
   -1; -1; -1; -1; -1; -1; -1; -1; -1; -1; -1; 0; 1; 2; 3; 4; 5; 6; 7;
   8; -1; -1; -1; -1; -1; -1; -1; 9; 10; 11; 12; 13; 14; 15; 16; -1; 17; 18;
   19; 20; 21; -1; 22; 23; 24; 25; 26; 27; 28; 29; 30; 31; 32; -1; -1; -1; -1;
   -1; -1; 33; 34; 35; 36; 37; 38; 39; 40; 41; 42; 43; -1; 44; 45; 46; 47; 48;
   49; 50; 51; 52; 53; 54; 55; 56; 57; -1; -1; -1; -1; -1] ++ repeat (-1) 128.

(** The inner loops "b = b * mul + carry" on a vector in reversed order
    ([rbegin()] first); the result is the vector, the last carry and [i]. *)
Fixpoint mul_add (mul base : Z) (len i : nat) (carry : Z) (ds : list Z) : list Z * Z * nat :=
  match ds with
  | [] => ([], carry, i)
  | d :: ds' =>
    if negb (carry =? 0) || (i <? len)%nat then
      let carry := carry + mul * d in
      let r := mul_add mul base len (S i) (carry / base) ds' in
      (carry mod base :: r.1.1, r.1.2, r.2)
    else (ds, carry, i)
  end.

Fixpoint skip_zeros (l : list Z) : list Z :=
  match l with
  | [] => []
  | d :: l' => if d =? 0 then skip_zeros l' else l
  end.

Fixpoint count_zeros (l : list Z) : nat :=
  match l with
  | [] => 0
  | d :: l' => if d =? 0 then S (count_zeros l') else 0
  end.

(** ** [EncodeBase58] *)
Fixpoint encode58_loop (b58 : list Z) (len : nat) (bytes : list Z) : result (list Z * nat) :=
  match bytes with
  | [] => Ok (b58, len)
  | ch :: bytes =>
    let r := mul_add 256 58 len 0 ch b58 in
    vassert (r.1.2 =? 0) "carry == 0";;
    encode58_loop r.1.1 r.2 bytes
  end.

Definition char58 (d : Z) : Z := nth (Z.to_nat d) pszBase58 0.

(** The counters of type [int] are naturals: the input has fewer than 2^31 bytes. *)
Definition EncodeBase58 (input : list Z) : result (list Z) :=
  let zeroes := count_zeros input in
  let bytes := skip_zeros input in
  let size := (length bytes * 138 / 100 + 1)%nat in
  r ← encode58_loop (repeat 0 size) 0 bytes;
  let '(b58, len) := r in
  Ok (repeat 49 zeroes ++ map char58 (skip_zeros (rev (take len b58)))).

(** ** [DecodeBase58] *)
Fixpoint skip_spaces (l : list Z) : list Z :=
  match l with
  | [] => []
  | c :: l' => if IsSpace c then skip_spaces l' else l
  end.

(** Leading ['1']s: their number and the rest. *)
Fixpoint skip_ones (max_ret_len : nat) (zeroes : nat) (psz : list Z) : result (nat * list Z) :=
  match psz with
  | c :: psz' =>
    if c =? 49 then
      if (max_ret_len <? S zeroes)%nat then invalid "decode-base-58"
      else skip_ones max_ret_len (S zeroes) psz'
    else Ok (zeroes, psz)
  | [] => Ok (zeroes, psz)
  end.

(** The conversion loop: the reversed vector, [length] and the rest of the
    string. *)
Fixpoint decode58_loop (max_ret_len zeroes : nat) (b256 : list Z) (len : nat) (psz : list Z)
    : result (list Z * nat * list Z) :=
  match psz with
  | [] => Ok (b256, len, [])
  | c :: psz' =>
    if IsSpace c then Ok (b256, len, psz)
    else
      let carry := nth (Z.to_nat c) mapBase58 (-1) in
      if carry =? -1 then invalid "decode-base-58"
      else
        let r := mul_add 58 256 len 0 carry b256 in
        vassert (r.1.2 =? 0) "carry == 0";;
        if (max_ret_len <? r.2 + zeroes)%nat then invalid "decode-base-58"
        else decode58_loop max_ret_len zeroes r.1.1 r.2 psz'
  end.

(** A string with a NUL character is not valid as a C string. *)
Definition DecodeBase58 (str : list Z) : result (list Z) :=
  if bool_decide (0 ∈ str) then invalid "decode-base-58"
  else
    let max_ret_len := S (length str) in
    z ← skip_ones max_ret_len 0 (skip_spaces str);
    let '(zeroes, psz) := z in
    let size := (length psz * 733 / 1000 + 1)%nat in
    r ← decode58_loop max_ret_len zeroes (repeat 0 size) 0 psz;
    let '(b256, len, psz) := r in
    if bool_decide (skip_spaces psz = []) then Ok (repeat 0 zeroes ++ rev (take len b256))
    else invalid "decode-base-58".

(** ** Base59 *)
Definition g_Base59Alphabet : list Z :=
  chars "123456789ABCDEFGHJKLMNPQRSTUVWXYZabcdefghijkmnopqrstuvwxyz0".

Definition g_Indexes : list Z :=
  [-1; -1; -1; -1; -1; -1; -1; -1; -1; -1; -1; -1; -1; -1; -1; -1; -1; -1; -1;
   -1; -1; -1; -1; -1; -1; -1; -1; -1; -1; -1; -1; -1; -1; -1; -1; -1; -1; -1;
   -1; -1; -1; -1; -1; -1; -1; -1; -1; -1; 58; 0; 1; 2; 3; 4; 5; 6; 7;
   8; -1; -1; -1; -1; -1; -1; -1; 9; 10; 11; 12; 13; 14; 15; 16; -1; 17; 18;
   19; 20; 21; -1; 22; 23; 24; 25; 26; 27; 28; 29; 30; 31; 32; -1; -1; -1; -1;
   -1; -1; 33; 34; 35; 36; 37; 38; 39; 40; 41; 42; 43; -1; 44; 45; 46; 47; 48;
   49; 50; 51; 52; 53; 54; 55; 56; 57; -1; -1; -1; -1; -1].

(** [divmod59] and [divmod256] on the part of the number from [startAt]:
    the quotient in place and the remainder. *)
Fixpoint divmod (from to remainder : Z) (number : list Z) : list Z * Z :=
  match number with
  | [] => ([], remainder)
  | d :: number =>
    let temp := remainder * from + d in
    let r := divmod from to (temp mod to) number in
    (u8 (temp / to) :: r.1, r.2)
  end.

(** The loops of both functions: the digits from the least significant one on.
    [number] is the part from [startAt]; [temp] is filled from its end:
    [capacity] is [j], and writing in front of it is an out-of-range write. *)
Fixpoint convert_loop (from to : Z) (fuel capacity : nat) (number : list Z) (out : list Z)
    : result (list Z * nat) :=
  match number with
  | [] => Ok (out, capacity)
  | _ =>
    match fuel with
    | O => OutOfFuel
    | S fuel =>
      let r := divmod from to 0 number in
      let number := if nth 0 r.1 0 =? 0 then tail r.1 else r.1 in
      match capacity with
      | O => Undef "write before the buffer"
      | S capacity => convert_loop from to fuel capacity number (u8 r.2 :: out)
      end
    end
  end.

Definition char59 (d : Z) : Z := nth (Z.to_nat d) g_Base59Alphabet 0.

Fixpoint skip_char (c : Z) (l : list Z) : list Z :=
  match l with
  | [] => []
  | d :: l' => if d =? c then skip_char c l' else l
  end.

Definition EncodeBase59 (buf : list Z) : result (list Z) :=
  if bool_decide (buf = []) then Ok []
  else
    let zeroCount := count_zeros buf in
    let size := (length buf * 2)%nat in
    r ← convert_loop 256 59 size size (skip_zeros buf) [];
    let temp := skip_char 49 (map char59 r.1) in
    let j := (size - length temp)%nat in
    if (j <? zeroCount)%nat then Undef "write before the buffer"
    else Ok (repeat 49 zeroCount ++ temp).

(** [g_Indexes[input[i]]]: a character of 128 and above is outside of the
    array. *)
Fixpoint indexes59 (input : list Z) : result (list Z) :=
  match input with
  | [] => Ok []
  | c :: input =>
    match g_Indexes !! Z.to_nat c with
    | None => Undef "g_Indexes index out of range"
    | Some digit59 =>
      if digit59 <? 0 then invalid "decode-base-59"
      else rest ← indexes59 input; Ok (digit59 :: rest)
    end
  end.

(** [temp.begin() + j - zeroCount]: [j] is at least [zeroCount]; the cells
    before the digits are still zero. *)
Definition DecodeBase59 (input : list Z) : result (list Z) :=
  if bool_decide (input = []) then Ok []
  else
    input59 ← indexes59 input;
    let zeroCount := count_zeros input59 in
    let size := length input in
    r ← convert_loop 59 256 size size (skip_zeros input59) [];
    let temp := skip_zeros r.1 in
    let j := (size - length temp)%nat in
    if (j <? zeroCount)%nat then Undef "read before the buffer"
    else Ok (repeat 0 zeroCount ++ temp).

Example encode58_ex : EncodeBase58 [0; 1; 2; 255] = Ok (chars "1LiA").
Proof. vm_compute. reflexivity. Qed.
Example decode58_ex : DecodeBase58 (chars "1LiA") = Ok [0;1;2;255].
Proof. vm_compute. reflexivity. Qed.
Example encode59_ex : EncodeBase59 [0; 1; 2; 255] = Ok (chars "1L3o").
Proof. vm_compute. reflexivity. Qed.

(** ** Numbers in positional notation *)
Definition digit (base d : Z) : Prop := 0 <= d < base.
Notation digits base := (Forall (digit base)).

(** Least significant digit first, and last. *)
Fixpoint le_val (base : Z) (l : list Z) : Z :=
  match l with [] => 0 | d :: l => d + base * le_val base l end.

Fixpoint be_val (base : Z) (l : list Z) : Z :=
  match l with [] => 0 | d :: l => d * base ^ Z.of_nat (length l) + be_val base l end.

Lemma be_val_app base l1 l2 : 0 < base →
  be_val base (l1 ++ l2) = be_val base l1 * base ^ Z.of_nat (length l2) + be_val base l2.
Proof.
  intros Hb. induction l1 as [|d l1 IH]; cbn [app be_val]; [lia|].
  rewrite IH, length_app, Nat2Z.inj_add, Z.pow_add_r by lia. lia.
Qed.

Lemma be_val_rev base l : 0 < base → be_val base (rev l) = le_val base l.
Proof.
  intros Hb. induction l as [|d l IH]; [done|]. cbn [rev le_val].
  rewrite be_val_app, IH by done. cbn [be_val length]. rewrite Z.pow_1_r, Z.pow_0_r. lia.
Qed.

Lemma be_val_range base l : 0 < base → digits base l → 0 <= be_val base l < base ^ Z.of_nat (length l).
Proof.
  intros Hb. induction 1 as [|d l [Hd1 Hd2] _ IH]; cbn [be_val length]; [simpl; lia|].
  rewrite Nat2Z.inj_succ, Z.pow_succ_r by lia. nia.
Qed.

Lemma digits_rev base l : digits base l → digits base (rev l).
Proof. apply Forall_rev. Qed.

Lemma le_val_range base l : 0 < base → digits base l → 0 <= le_val base l < base ^ Z.of_nat (length l).
Proof.
  intros Hb Hl. rewrite <- be_val_rev by done. rewrite <- (length_rev l).
  apply be_val_range; [done|by apply digits_rev].
Qed.

(** A representation without leading zeros. *)
Definition canonical (base : Z) (l : list Z) : Prop := digits base l ∧ nth 0 l 1 ≠ 0.

Lemma be_val_pos base d l : 0 < base → canonical base (d :: l) →
  base ^ Z.of_nat (length l) <= be_val base (d :: l).
Proof.
  intros Hb [Hl Hd]. apply Forall_cons in Hl as [[Hd1 Hd2] Hl]. cbn in Hd.
  cbn [be_val]. pose proof (be_val_range base l Hb Hl). nia.
Qed.

Lemma canonical_length base l1 l2 : 1 < base → canonical base l1 → digits base l2 →
  be_val base l1 = be_val base l2 → (length l1 <= length l2)%nat.
Proof.
  intros Hb H1 H2 E. destruct l1 as [|d l1]; [simpl; lia|].
  pose proof (be_val_pos base d l1 ltac:(lia) H1). pose proof (be_val_range base l2 ltac:(lia) H2).
  destruct (Nat.le_gt_cases (length (d :: l1)) (length l2)) as [|Hlt]; [done|].
  cbn [length] in Hlt.
  assert (base ^ Z.of_nat (length l2) <= base ^ Z.of_nat (length l1)) by (apply Z.pow_le_mono_r; lia). lia.
Qed.

Lemma be_val_inj base l1 l2 : 0 < base → digits base l1 → digits base l2 → length l1 = length l2 →
  be_val base l1 = be_val base l2 → l1 = l2.
Proof.
  intros Hb H1. revert l2. induction H1 as [|d l1 [Hd1 Hd2] H1 IH]; intros l2 H2 El E.
  { by destruct l2. }
  destruct H2 as [|d2 l2 [Hd3 Hd4] H2]; [done|]. cbn [be_val] in E. injection El as El.
  rewrite El in E. pose proof (be_val_range base l1 Hb H1). pose proof (be_val_range base l2 Hb H2).
  rewrite El in *. assert (d = d2) as -> by nia. f_equal. apply IH; [done..|lia].
Qed.

(** A number has one representation without leading zeros. *)
Lemma canonical_unique base l1 l2 : 1 < base → canonical base l1 → canonical base l2 →
  be_val base l1 = be_val base l2 → l1 = l2.
Proof.
  intros Hb H1 H2 E. apply (be_val_inj base); [lia|apply H1|apply H2| |done].
  apply Nat.le_antisymm; eapply canonical_length; (apply H1 || apply H2 || done || by symmetry).
Qed.

(** *** Leading zeros *)
Lemma skip_zeros_eq l : l = repeat 0 (count_zeros l) ++ skip_zeros l.
Proof.
  induction l as [|d l IH]; [done|]. cbn [count_zeros skip_zeros].
  destruct (Z.eqb_spec d 0) as [->|]; [|done]. cbn [repeat app]. by f_equal.
Qed.

Lemma skip_zeros_canonical base l : digits base l → canonical base (skip_zeros l).
Proof.
  induction 1 as [|d l Hd Hl IH]; [by split|]. cbn [skip_zeros].
  destruct (Z.eqb_spec d 0); [done|]. split; [by constructor|done].
Qed.

Lemma skip_zeros_val base l : be_val base (skip_zeros l) = be_val base l.
Proof.
  induction l as [|d l IH]; [done|]. cbn [skip_zeros].
  destruct (Z.eqb_spec d 0) as [->|]; [|done]. cbn [be_val]. lia.
Qed.

Lemma skip_zeros_id base l : canonical base l → skip_zeros l = l.
Proof.
  intros [_ Hd]. destruct l as [|d l]; [done|]. cbn in *. by destruct (Z.eqb_spec d 0).
Qed.

Lemma count_zeros_repeat n l : nth 0 l 1 ≠ 0 →
  count_zeros (repeat 0 n ++ l) = n ∧ skip_zeros (repeat 0 n ++ l) = l.
Proof.
  intros Hl. induction n as [|n [IH1 IH2]]; cbn [repeat app count_zeros skip_zeros].
  - destruct l as [|d l]; [done|]. cbn in *. by destruct (Z.eqb_spec d 0).
  - rewrite Z.eqb_refl. by rewrite IH1, IH2.
Qed.

Lemma length_skip_zeros l : (length (skip_zeros l) <= length l)%nat.
Proof. induction l as [|d l IH]; [done|]. cbn [skip_zeros]. destruct (_ =? _); simpl in *; lia. Qed.

(** ** Base58 *)
Notation zeros := (Forall (λ d, d = 0)).

Lemma zeros_le_val base l : zeros l → le_val base l = 0.
Proof. induction 1 as [|d l -> _ IH]; cbn [le_val]; lia. Qed.

Lemma zeros_digits base l : 0 < base → zeros l → digits base l.
Proof. intros Hb Hz. eapply Forall_impl; [exact Hz|]. simpl. intros d ->. unfold digit. lia. Qed.

(** What the inner loop computes, with the digits from [len] on zero. *)
Lemma mul_add_spec mul base len i carry ds : 0 < base → 0 <= mul → 0 <= carry →
  digits base ds → zeros (drop (len - i) ds) →
  let r := mul_add mul base len i carry ds in
  digits base r.1.1 ∧ length r.1.1 = length ds ∧ 0 <= r.1.2 ∧
  le_val base r.1.1 + r.1.2 * base ^ Z.of_nat (length ds) = mul * le_val base ds + carry ∧
  zeros (drop (r.2 - i) r.1.1) ∧ (i <= r.2)%nat ∧ (len <= r.2 ∨ r.2 = i + length ds)%nat ∧
  (r.2 - i <= length ds)%nat.
Proof.
  intros Hb Hm. revert i carry. induction ds as [|d ds IH]; intros i carry Hc Hd Hz; cbn [mul_add].
  { cbn [fst snd length le_val]. rewrite Z.pow_0_r. split_and!; [done|done|done|lia| |lia|simpl; lia|simpl; lia].
    by rewrite drop_nil. }
  apply Forall_cons in Hd as [[Hd1 Hd2] Hd].
  destruct (negb (carry =? 0) || (i <? len)%nat) eqn:E.
  - cbn [fst snd]. set (c := carry + mul * d).
    assert (0 <= c) by (unfold c; nia).
    destruct (IH (S i) (c / base)) as (H1 & H2 & H3 & H4 & H5 & H6 & H7 & H8).
    { by apply Z.div_pos. }
    { done. }
    { destruct (len - i)%nat as [|n] eqn:En.
      - apply Forall_cons in Hz as [_ Hz]. by replace (len - S i)%nat with 0%nat by lia.
      - by replace (len - S i)%nat with n by lia. }
    set (r := mul_add mul base len (S i) (c / base) ds) in *.
    pose proof (Z.div_mod c base ltac:(lia)). pose proof (Z.mod_pos_bound c base ltac:(lia)).
    split_and!.
    + constructor; [unfold digit; lia|done].
    + cbn [length]. by rewrite H2.
    + done.
    + cbn [le_val length]. rewrite Nat2Z.inj_succ, Z.pow_succ_r by lia.
      unfold c in *. nia.
    + replace (r.2 - i)%nat with (S (r.2 - S i)) by lia. done.
    + lia.
    + cbn [length]. lia.
    + cbn [length]. lia.
  - apply orb_false_elim in E as [E1%negb_false_iff%Z.eqb_eq E2%Nat.ltb_ge]. subst carry.
    replace (len - i)%nat with 0%nat in Hz by lia. cbn [fst snd]. rewrite Nat.sub_diag.
    rewrite (zeros_le_val base (d :: ds)) by done.
    split_and!; [by apply zeros_digits|done|lia|lia|done|lia|lia|lia].
Qed.

(** The state of both outer loops: a buffer that holds [v] in its first [len]
    digits. *)
Record holds (base : Z) (size : nat) (v : Z) (b : list Z) (len : nat) : Prop := {
  ho_digits : digits base b;
  ho_size : length b = size;
  ho_val : le_val base b = v;
  ho_zeros : zeros (drop len b);
  ho_len : (len <= size)%nat
}.

Lemma holds_init base size : 0 < base → holds base size 0 (repeat 0 size) 0.
Proof.
  intros Hb. assert (zeros (repeat 0 size)) as Hz by (induction size; by constructor).
  constructor; [by apply zeros_digits|apply repeat_length|by apply zeros_le_val|done|lia].
Qed.

(** One outer step: the carry is used up when the result fits the buffer. *)
Lemma holds_step base mul size v b len carry : 0 < base → 0 <= mul → 0 <= carry →
  holds base size v b len → mul * v + carry < base ^ Z.of_nat size →
  let r := mul_add mul base len 0 carry b in
  r.1.2 = 0 ∧ holds base size (mul * v + carry) r.1.1 r.2.
Proof.
  intros Hb Hm Hc [Hd Hs Hv Hz Hl] Hfit r.
  destruct (mul_add_spec mul base len 0 carry b) as (H1 & H2 & H3 & H4 & H5 & _ & _ & H8);
    [done..|by rewrite Nat.sub_0_r|]. fold r in H1, H2, H3, H4, H5, H8.
  rewrite Nat.sub_0_r in H5, H8. rewrite Hs in *.
  pose proof (le_val_range base r.1.1 Hb H1) as Hr. rewrite H2 in Hr.
  assert (r.1.2 = 0) as Hc0 by nia. split; [done|]. constructor; [done|done|lia|done|done].
Qed.

(** The digits of the result. *)
Lemma holds_result base size v b len : 0 < base → holds base size v b len →
  let l := rev (take len b) in
  digits base l ∧ be_val base l = v.
Proof.
  intros Hb [Hd Hs Hv Hz Hl]. cbn zeta. split; [by apply digits_rev, Forall_take|].
  rewrite be_val_rev by done. rewrite <- (take_drop len b) in Hv.
  assert (∀ l1 l2, zeros l2 → le_val base (l1 ++ l2) = le_val base l1) as E.
  { induction l1 as [|d l1 IH]; intros l2 H2; cbn [app le_val]; [by rewrite zeros_le_val|]. by rewrite IH. }
  by rewrite E in Hv.
Qed.

(** Buffer sizes: logarithms rounded up, [138/100] and [733/1000]. *)
Lemma pow_ratio a b p q n : 1 < a → 1 < b → 0 < q → a ^ q <= b ^ p → 0 <= n →
  a ^ n < b ^ (n * p / q + 1).
Proof.
  intros Ha Hb Hq Hab Hn. assert (0 <= p).
  { destruct (Z.le_gt_cases 0 p); [done|]. rewrite (Z.pow_neg_r b p) in Hab by lia.
    pose proof (Z.pow_pos_nonneg a q). lia. }
  set (k := n * p / q + 1). assert (n * p < k * q) as Hk.
  { pose proof (Z.mul_succ_div_gt (n * p) q Hq). unfold k. lia. }
  assert (0 <= k) by (unfold k; pose proof (Z.div_pos (n * p) q); lia).
  destruct (Z.lt_ge_cases (a ^ n) (b ^ k)) as [|Hge]; [done|]. exfalso.
  assert ((b ^ k) ^ q <= (a ^ n) ^ q) as Hpow.
  { apply Z.pow_le_mono_l. split; [apply Z.pow_nonneg; lia|done]. }
  assert ((a ^ q) ^ n <= (b ^ p) ^ n) as Hpow'.
  { apply Z.pow_le_mono_l. split; [apply Z.pow_nonneg; lia|done]. }
  rewrite <- !Z.pow_mul_r in Hpow, Hpow' by lia. rewrite (Z.mul_comm q n), (Z.mul_comm p n) in Hpow'.
  clearbody k. assert (0 <= n * p) by nia.
  assert (b ^ (n * p) < b ^ (k * q)) by (apply Z.pow_lt_mono_r; lia). lia.
Qed.

(** *** The alphabet and its inverse *)
Definition good58 (d : Z) : Prop :=
  nth (Z.to_nat (char58 d)) mapBase58 (-1) = d ∧ IsSpace (char58 d) = false ∧ char58 d ≠ 0 ∧
  (char58 d = 49 ↔ d = 0) ∧ 0 < char58 d < 128.

#[local] Instance good58_dec d : Decision (good58 d).
Proof. unfold good58. apply _. Defined.

Lemma map58_char58 d : digit 58 d → good58 d.
Proof.
  intros Hd. assert (Forall (λ n, good58 (Z.of_nat n)) (seq 0 58)) as Hseq
    by (apply (bool_decide_unpack _); by vm_compute).
  rewrite Forall_forall in Hseq. unfold digit in Hd. rewrite <- (Z2Nat.id d) by lia.
  apply Hseq, elem_of_seq. lia.
Qed.

Lemma map58_range c : 0 <= c → let d := nth (Z.to_nat c) mapBase58 (-1) in
  d = -1 ∨ digit 58 d ∧ char58 d = c.
Proof.
  intros Hc. destruct (Nat.lt_ge_cases (Z.to_nat c) 256) as [Hlt|Hge].
  - assert (Forall (λ n, nth n mapBase58 (-1) = -1 ∨ (0 <= nth n mapBase58 (-1) < 58) ∧
      char58 (nth n mapBase58 (-1)) = Z.of_nat n) (seq 0 256))
      as Hseq by (apply (bool_decide_unpack _); by vm_compute).
    rewrite Forall_forall in Hseq. specialize (Hseq (Z.to_nat c)). cbn zeta in *.
    rewrite Z2Nat.id in Hseq by lia. apply Hseq, elem_of_seq. lia.
  - left. apply nth_overflow. by change (length mapBase58) with 256%nat.
Qed.

Lemma map_char58_inj ds1 ds2 : digits 58 ds1 → digits 58 ds2 → map char58 ds1 = map char58 ds2 → ds1 = ds2.
Proof.
  intros H1. revert ds2. induction H1 as [|d1 ds1 Hd1 _ IH]; intros ds2 H2 E.
  { by destruct ds2. }
  destruct H2 as [|d2 ds2 Hd2 H2]; [done|]. cbn [map] in E. injection E as E1 E2.
  f_equal; [|by apply IH]. rewrite <- (proj1 (map58_char58 d1 Hd1)), E1. apply map58_char58, Hd2.
Qed.

(** *** Encoding *)
Lemma encode58_loop_ok size bytes b len v : bytes_ok bytes → holds 58 size v b len → 0 <= v →
  v * 256 ^ Z.of_nat (length bytes) + be_val 256 bytes < 58 ^ Z.of_nat size →
  ∃ b' len', encode58_loop b len bytes = Ok (b', len') ∧
    holds 58 size (v * 256 ^ Z.of_nat (length bytes) + be_val 256 bytes) b' len'.
Proof.
  intros Hbytes. revert b len v. induction Hbytes as [|ch bytes Hch Hbytes IH]; intros b len v Hh Hv Hfit.
  { exists b, len. split; [done|]. cbn [be_val length]. by rewrite Z.pow_0_r, Z.mul_1_r, Z.add_0_r. }
  cbn [encode58_loop]. cbn [be_val length] in Hfit |- *.
  rewrite Nat2Z.inj_succ, Z.pow_succ_r in Hfit |- * by lia.
  assert (digits 256 bytes) as Hd by done.
  pose proof (be_val_range 256 bytes ltac:(lia) Hd). unfold byte_ok in Hch.
  destruct (holds_step 58 256 size v b len ch) as [Hc Hh']; [lia|lia|lia|done| |].
  { nia. }
  rewrite Hc. cbn [Z.eqb vassert mbind result_bind].
  destruct (IH _ _ (256 * v + ch) Hh') as (b' & len' & Hl & Hr); [lia| |].
  - replace ((256 * v + ch) * _ + _) with (v * (256 * 256 ^ Z.of_nat (length bytes)) +
      (ch * 256 ^ Z.of_nat (length bytes) + be_val 256 bytes)) by lia. done.
  - exists b', len'. split; [done|].
    replace (v * (256 * 256 ^ Z.of_nat (length bytes)) + (ch * 256 ^ Z.of_nat (length bytes) + be_val 256 bytes))
      with ((256 * v + ch) * 256 ^ Z.of_nat (length bytes) + be_val 256 bytes) by lia. done.
Qed.

Lemma encode58_size n : 256 ^ Z.of_nat n < 58 ^ Z.of_nat (n * 138 / 100 + 1).
Proof.
  rewrite Nat2Z.inj_add, Nat2Z.inj_div, Nat2Z.inj_mul. apply pow_ratio; [lia..| |lia].
  apply Z.leb_le. by vm_compute.
Qed.

(** The encoder is total: it writes the number in base 58, after one ['1'] per
    leading zero byte. *)
Lemma EncodeBase58_spec input : bytes_ok input → ∃ ds,
  EncodeBase58 input = Ok (repeat 49 (count_zeros input) ++ map char58 ds) ∧
  canonical 58 ds ∧ be_val 58 ds = be_val 256 (skip_zeros input).
Proof.
  intros Hi. unfold EncodeBase58.
  set (bytes := skip_zeros input). set (size := (length bytes * 138 / 100 + 1)%nat).
  destruct (skip_zeros_canonical 256 input Hi) as [Hb _]. fold bytes in Hb.
  destruct (encode58_loop_ok size bytes (repeat 0 size) 0 0) as (b & len & -> & Hh);
    [done|by apply holds_init|done| |].
  { pose proof (be_val_range 256 bytes ltac:(lia) Hb). pose proof (encode58_size (length bytes)).
    unfold size. lia. }
  cbn [mbind result_bind]. destruct (holds_result 58 size _ b len ltac:(lia) Hh) as [Hd Hv].
  exists (skip_zeros (rev (take len b))). split; [done|]. split; [by apply skip_zeros_canonical|].
  rewrite skip_zeros_val. etrans; [exact Hv|lia].
Qed.

(** *** Decoding *)
(** The length of the number grows by at most one digit per character, and the
    first digit is never zero. *)
Lemma mul_add_growth len i carry ds : (i <= len)%nat → 0 <= carry < 58 → digits 256 ds →
  zeros (drop (len - i) ds) →
  let r := mul_add 58 256 len i carry ds in
  (r.2 <= S len)%nat ∧ (r.2 = S len → 256 ^ Z.of_nat (len - i) <= le_val 256 r.1.1).
Proof.
  revert i carry. induction ds as [|d ds IH]; intros i carry Hi Hc Hd Hz; cbn [mul_add].
  { cbn [snd]. lia. }
  apply Forall_cons in Hd as [[Hd1 Hd2] Hd].
  assert (i < len ∨ i = len)%nat as [Hlt| ->] by lia.
  - rewrite (proj2 (Nat.ltb_lt _ _)) by done. rewrite orb_true_r. cbn [fst snd].
    destruct (IH (S i) ((carry + 58 * d) / 256)) as [H1 H2]; [lia| |done| |].
    { split; [apply Z.div_pos; lia|]. apply Z.div_lt_upper_bound; lia. }
    { by replace (len - i)%nat with (S (len - S i)) in Hz by lia. }
    split; [done|]. intros E. specialize (H2 E). cbn [le_val].
    replace (Z.of_nat (len - i)) with (Z.succ (Z.of_nat (len - S i))) by lia.
    rewrite Z.pow_succ_r by lia. pose proof (Z.mod_pos_bound (carry + 58 * d) 256). lia.
  - rewrite Nat.sub_diag in *. rewrite Nat.ltb_irrefl, orb_false_r.
    apply Forall_cons in Hz as [-> Hz]. destruct (Z.eqb_spec carry 0) as [->|Hne]; cbn [negb].
    { cbn [fst snd]. lia. }
    rewrite Z.mul_0_r, Z.add_0_r. rewrite (Z.div_small carry), (Z.mod_small carry) by lia.
    assert (mul_add 58 256 len (S len) 0 ds = (ds, 0, S len)) as ->.
    { destruct ds; cbn [mul_add]; [done|]. rewrite Z.eqb_refl. cbn [negb orb].
      by rewrite (proj2 (Nat.ltb_ge _ _)) by lia. }
    cbn [fst snd le_val]. rewrite zeros_le_val by done. split; [lia|]. simpl. lia.
Qed.

Definition tight (len : nat) (v : Z) : Prop :=
  (len = 0%nat ∧ v = 0) ∨ ((1 <= len)%nat ∧ 256 ^ Z.of_nat (len - 1) <= v).

Definition no_b58_prefix (psz : list Z) : Prop :=
  psz = [] ∨ ∃ c t, psz = c :: t ∧ IsSpace c = true.

Lemma no_b58_prefix_cons c t : no_b58_prefix (c :: t) → IsSpace c = false → False.
Proof. intros [?|(c' & t' & E & Hs)]; congruence. Qed.

Lemma decode58_step size v b len d : 0 <= v → digit 58 d → holds 256 size v b len → tight len v →
  (len = 0%nat → d ≠ 0) → 58 * v + d < 256 ^ Z.of_nat size →
  let r := mul_add 58 256 len 0 d b in
  r.1.2 = 0 ∧ holds 256 size (58 * v + d) r.1.1 r.2 ∧ tight r.2 (58 * v + d) ∧ (1 <= r.2 <= S len)%nat.
Proof.
  intros Hv Hd Hh Ht Hne Hfit r. unfold digit in Hd.
  destruct (holds_step 256 58 size v b len d) as [Hc Hh']; [lia|lia|lia|done|done|]. fold r in Hc, Hh'.
  pose proof Hh as [Hdig Hsz Hval Hz Hlen].
  destruct (mul_add_growth len 0 d b) as [Hg1 Hg2]; [lia|done|done|by rewrite Nat.sub_0_r|].
  destruct (mul_add_spec 58 256 len 0 d b) as (_ & _ & _ & _ & _ & _ & H7 & _);
    [lia|lia|lia|done|by rewrite Nat.sub_0_r|]. fold r in Hg1, Hg2, H7. rewrite Hsz in H7.
  assert (len <= r.2)%nat by lia. rewrite Nat.sub_0_r in Hg2.
  split; [done|]. split; [done|].
  assert (r.2 = len ∨ r.2 = S len) as [E|E] by lia; rewrite E.
  - destruct Ht as [[-> ->]|[Hl Ht]].
    + exfalso. pose proof (ho_zeros _ _ _ _ _ Hh') as Hz'. rewrite E in Hz'. cbn in Hz'.
      pose proof (ho_val _ _ _ _ _ Hh') as Hv'. rewrite zeros_le_val in Hv' by done.
      specialize (Hne eq_refl). lia.
    + split; [|lia]. right. split; [done|lia].
  - split; [|lia]. right. split; [lia|]. replace (S len - 1)%nat with len by lia.
    rewrite <- (ho_val _ _ _ _ _ Hh'). by apply Hg2.
Qed.

Lemma decode58_loop_spec max z size psz : Forall (λ c, 0 <= c) psz → ∀ v b len,
  holds 256 size v b len → 0 <= v → tight len v → (len = 0%nat → nth 0 psz 0 ≠ 49) →
  (v + 1) * 58 ^ Z.of_nat (length psz) <= 256 ^ Z.of_nat size →
  match decode58_loop max z b len psz with
  | Ok (b', len', rest) => ∃ ds, psz = map char58 ds ++ rest ∧ digits 58 ds ∧ no_b58_prefix rest ∧
      holds 256 size (v * 58 ^ Z.of_nat (length ds) + be_val 58 ds) b' len' ∧
      tight len' (v * 58 ^ Z.of_nat (length ds) + be_val 58 ds) ∧ (len' <= len + length ds)%nat
  | Invalid _ => ¬ ∃ ds rest, psz = map char58 ds ++ rest ∧ digits 58 ds ∧ no_b58_prefix rest ∧
      (len + length ds + z <= max)%nat
  | _ => False
  end.
Proof.
  induction 1 as [|c psz Hc Hpsz IH]; intros v b len Hh Hv Ht Hone Hfit; cbn [decode58_loop].
  { exists []. cbn [map app length be_val]. rewrite Z.pow_0_r, Z.mul_1_r, Z.add_0_r.
    split_and!; [done|done|by left|done|done|lia]. }
  destruct (IsSpace c) eqn:Esp.
  { exists []. cbn [map app length be_val]. rewrite Z.pow_0_r, Z.mul_1_r, Z.add_0_r.
    split_and!; [done|done|right; eauto|done|done|lia]. }
  destruct (map58_range c Hc) as [E|[Hd Ec]]; cbn zeta in *.
  { rewrite E, Z.eqb_refl. intros (ds & rest & Eq & Hds & Hr & _). destruct Hds as [|d ds Hd Hds].
    { cbn [map app] in Eq. subst rest. by eapply no_b58_prefix_cons. }
    injection Eq as -> _. destruct (map58_char58 d Hd) as (Em & _). unfold digit in Hd. lia. }
  set (d := nth (Z.to_nat c) mapBase58 (-1)) in *. pose proof Hd as Hd'. unfold digit in Hd'.
  rewrite (proj2 (Z.eqb_neq d (-1))) by lia.
  cbn [length] in Hfit. rewrite Nat2Z.inj_succ, Z.pow_succ_r in Hfit by lia.
  assert (0 < 58 ^ Z.of_nat (length psz)) by (apply Z.pow_pos_nonneg; lia).
  destruct (decode58_step size v b len d) as (H1 & H2 & H3 & H4); [done|done|done|done| |nia|].
  { intros El Ed. apply (Hone El). cbn [nth]. rewrite <- Ec. by apply map58_char58. }
  cbv zeta in H1, H2, H3, H4. rewrite H1. cbn [Z.eqb vassert mbind result_bind].
  set (r := mul_add 58 256 len 0 d b) in *. destruct (_ <? _)%nat eqn:Emax.
  { apply Nat.ltb_lt in Emax. intros (ds & rest & Eq & Hds & Hr & Hm). destruct ds as [|d' ds].
    { cbn [map app] in Eq. subst rest. by eapply no_b58_prefix_cons. }
    cbn [length] in Hm. lia. }
  specialize (IH (58 * v + d) r.1.1 r.2 H2 ltac:(lia) H3 ltac:(lia) ltac:(nia)).
  destruct (decode58_loop _ _ _ _ _) as [[[b' len'] rest]| | | | |]; [|try done..].
  - destruct IH as (ds & -> & Hds & Hr & Hh' & Ht' & Hl). exists (d :: ds).
    cbn [map app length be_val]. rewrite Nat2Z.inj_succ, Z.pow_succ_r by lia.
    replace (v * (58 * 58 ^ Z.of_nat (length ds)) + (d * 58 ^ Z.of_nat (length ds) + be_val 58 ds))
      with ((58 * v + d) * 58 ^ Z.of_nat (length ds) + be_val 58 ds) by lia.
    split_and!; [by rewrite Ec|by constructor|done|done|done|lia].
  - intros (ds & rest & Eq & Hds & Hr & Hm). destruct Hds as [|d' ds Hd1 Hds].
    { cbn [map app] in Eq. subst rest. by eapply no_b58_prefix_cons. }
    apply IH. injection Eq as Eq1 Eq2. exists ds, rest. cbn [length] in Hm. split_and!; [done|done|done|lia].
Qed.

Lemma skip_ones_ok max n psz : (n + length psz <= max)%nat →
  ∃ k rest, psz = repeat 49 k ++ rest ∧ nth 0 rest 0 ≠ 49 ∧ skip_ones max n psz = Ok ((n + k)%nat, rest).
Proof.
  revert n. induction psz as [|c psz IH]; intros n Hn; cbn [skip_ones].
  { exists 0%nat, []. by rewrite Nat.add_0_r. }
  cbn [length] in Hn. destruct (Z.eqb_spec c 49) as [->|Hne].
  - rewrite (proj2 (Nat.ltb_ge _ _)) by lia. destruct (IH (S n)) as (k & rest & -> & Hr & E); [lia|].
    exists (S k), rest. split_and!; [done|done|]. rewrite E. do 2 f_equal. lia.
  - exists 0%nat, (c :: psz). by rewrite Nat.add_0_r.
Qed.

Lemma skip_ones_repeat k rest rest' k' : nth 0 rest 0 ≠ 49 → nth 0 rest' 0 ≠ 49 →
  repeat 49 k ++ rest = repeat 49 k' ++ rest' → k = k' ∧ rest = rest'.
Proof.
  intros H1 H2. revert k'. induction k as [|k IH]; intros [|k'] E; cbn [repeat app] in E.
  - done.
  - by subst rest.
  - by subst rest'.
  - injection E as E. destruct (IH _ E) as [-> ->]. done.
Qed.

Lemma Forall_repeat {A} (P : A → Prop) x n : P x → Forall P (repeat x n).
Proof. intros Hx. induction n; by constructor. Qed.

(** *** White space around the digits *)
Notation spaces := (Forall (λ c, IsSpace c = true)).

Lemma skip_spaces_app sp l : spaces sp → (match l with c :: _ => IsSpace c = false | [] => True end) →
  skip_spaces (sp ++ l) = l.
Proof.
  intros Hsp Hl. induction Hsp as [|c sp Hc _ IH]; cbn [app skip_spaces]; [|by rewrite Hc].
  destruct l as [|c l]; [done|]. cbn [skip_spaces]. by rewrite Hl.
Qed.

Lemma skip_spaces_eq l : ∃ sp, spaces sp ∧ l = sp ++ skip_spaces l.
Proof.
  induction l as [|c l (sp & Hsp & IH)]; cbn [skip_spaces]; [by exists []|].
  destruct (IsSpace c) eqn:E; [|by exists []]. exists (c :: sp). split; [by constructor|].
  cbn [app]. by f_equal.
Qed.

Lemma decode58_split ds1 r1 ds2 r2 : digits 58 ds1 → digits 58 ds2 → no_b58_prefix r1 → no_b58_prefix r2 →
  map char58 ds1 ++ r1 = map char58 ds2 ++ r2 → ds1 = ds2 ∧ r1 = r2.
Proof.
  intros H1. revert ds2. induction H1 as [|d1 ds1 Hd1 _ IH]; intros ds2 H2 Hr1 Hr2 E.
  - destruct H2 as [|d2 ds2 Hd2 H2]; [done|]. cbn [map app] in E. subst r1. exfalso.
    by eapply no_b58_prefix_cons; [|apply map58_char58].
  - destruct H2 as [|d2 ds2 Hd2 H2]; cbn [map app] in E.
    + subst r2. exfalso. by eapply no_b58_prefix_cons; [|apply map58_char58].
    + injection E as E1 E2. destruct (IH ds2) as [-> ->]; [done..|]. split; [|done]. f_equal.
      rewrite <- (proj1 (map58_char58 d1 Hd1)), E1. apply map58_char58, Hd2.
Qed.

Lemma decode58_size n : 58 ^ Z.of_nat n <= 256 ^ Z.of_nat (n * 733 / 1000 + 1).
Proof.
  rewrite Nat2Z.inj_add, Nat2Z.inj_div, Nat2Z.inj_mul. apply Z.lt_le_incl, pow_ratio; [lia..| |lia].
  apply Z.leb_le. by vm_compute.
Qed.

(** What the decoder reads: white space, ['1']s, digits, white space. *)
Record base58_text (str : list Z) (z : nat) (ds : list Z) : Prop := {
  bt_split : ∃ sp1 sp2, str = sp1 ++ repeat 49 z ++ map char58 ds ++ sp2 ∧ spaces sp1 ∧ spaces sp2;
  bt_canonical : canonical 58 ds
}.

Lemma tight_canonical size v b len : holds 256 size v b len → tight len v →
  canonical 256 (rev (take len b)) ∧ be_val 256 (rev (take len b)) = v.
Proof.
  intros Hh Ht. destruct (holds_result 256 size v b len ltac:(lia) Hh) as [Hd Hv]. split; [|done]. split; [done|].
  pose proof (length_rev (take len b)) as Hl. rewrite length_take, (ho_size _ _ _ _ _ Hh) in Hl.
  pose proof (ho_len _ _ _ _ _ Hh). rewrite Nat.min_l in Hl by done.
  destruct (rev (take len b)) as [|d l]; [done|]. cbn [nth]. intros ->.
  destruct Ht as [[-> _]|[_ Ht]]; [done|]. cbn [be_val] in Hv. apply Forall_cons in Hd as [_ Hd].
  pose proof (be_val_range 256 l ltac:(lia) Hd). cbn [length] in Hl.
  replace (len - 1)%nat with (length l) in Ht by lia. lia.
Qed.

Lemma canonical_no_one ds rest : canonical 58 ds → no_b58_prefix rest → nth 0 (map char58 ds ++ rest) 0 ≠ 49.
Proof.
  intros [Hds Hd] Hr. destruct Hds as [|d ds Hd1 _]; cbn [map app nth].
  - destruct Hr as [->|(c & t & -> & Hc)]; [done|]. cbn [nth]. by intros ->.
  - intros E. apply map58_char58 in Hd1 as (_ & _ & _ & Hiff & _). by apply Hd, Hiff.
Qed.

Lemma spaces_no_b58_prefix sp : spaces sp → no_b58_prefix sp.
Proof. intros [|c t Hc _]; [by left|]. right. eauto. Qed.

Lemma text_chars str z ds : base58_text str z ds → Forall (λ c, 0 < c) str.
Proof.
  intros [(sp1 & sp2 & -> & H1 & H2) [Hd _]].
  assert (∀ sp, spaces sp → Forall (λ c, 0 < c) sp) as Hsp.
  { intros sp Hsp. eapply Forall_impl; [exact Hsp|]. intros c. cbv beta. unfold IsSpace. rewrite !orb_true_iff, !Z.eqb_eq. lia. }
  repeat (apply Forall_app; split); [by apply Hsp|by apply Forall_repeat| |by apply Hsp].
  apply Forall_map. eapply Forall_impl; [exact Hd|]. intros d Hd'. cbn.
  by apply map58_char58 in Hd' as (_ & _ & _ & _ & ? & _).
Qed.

Lemma text_skip_spaces str z ds : base58_text str z ds →
  ∃ rest, spaces rest ∧ skip_spaces str = repeat 49 z ++ map char58 ds ++ rest.
Proof.
  intros [(sp1 & sp2 & -> & H1 & H2) [Hd _]]. destruct z as [|z].
  - destruct Hd as [|d ds Hd Hds]; cbn [repeat map app].
    + exists []. split; [done|]. rewrite <- (app_nil_r (sp1 ++ sp2)).
      apply skip_spaces_app; [by apply Forall_app|done].
    + exists sp2. split; [done|]. apply skip_spaces_app; [done|]. apply map58_char58, Hd.
  - exists sp2. split; [done|]. by apply skip_spaces_app.
Qed.

(** The decoder accepts exactly these texts. *)
Lemma DecodeBase58_cases str : bytes_ok str →
  match DecodeBase58 str with
  | Ok out => ∃ z ds bs, base58_text str z ds ∧ out = repeat 0 z ++ bs ∧ canonical 256 bs ∧
      be_val 256 bs = be_val 58 ds ∧ (length bs <= length ds)%nat
  | Invalid _ => ¬ ∃ z ds, base58_text str z ds
  | _ => False
  end.
Proof.
  intros Hstr. unfold DecodeBase58. case_bool_decide as H0.
  { intros (z & ds & Ht). apply text_chars in Ht. rewrite Forall_forall in Ht. apply Ht in H0. lia. }
  destruct (skip_spaces_eq str) as (sp1 & Hsp1 & Es). set (psz0 := skip_spaces str) in *.
  assert (length psz0 <= length str)%nat as Hl by (rewrite Es, length_app; lia).
  destruct (skip_ones_ok (S (length str)) 0 psz0) as (z & psz & Ep & Hz & Esk); [lia|].
  rewrite Esk. cbn [mbind result_bind]. rewrite Nat.add_0_l. set (size := (length psz * 733 / 1000 + 1)%nat).
  assert (z + length psz <= length str)%nat by (rewrite Ep, length_app, repeat_length in Hl; lia).
  assert (Forall (λ c, 0 <= c) psz) as Hpsz.
  { rewrite Es, Ep in Hstr. rewrite !Forall_app in Hstr.
    destruct Hstr as (_ & _ & Hpsz). eapply Forall_impl; [exact Hpsz|]. unfold byte_ok. intros c. cbv beta. lia. }
  pose proof (decode58_loop_spec (S (length str)) z size psz Hpsz 0 (repeat 0 size) 0) as Hloop.
  specialize (Hloop ltac:(by apply holds_init) ltac:(lia) ltac:(by left) ltac:(done)).
  rewrite Z.add_0_l, Z.mul_1_l in Hloop. specialize (Hloop (decode58_size _)).
  assert (∀ z' ds', base58_text str z' ds' → ∃ rest, psz = map char58 ds' ++ rest ∧ spaces rest)
    as Huniq.
  { intros z' ds' Ht. pose proof (bt_canonical _ _ _ Ht) as Hcan.
    destruct (text_skip_spaces _ _ _ Ht) as (rest & Hrest & Ep'). fold psz0 in Ep'. exists rest.
    rewrite Ep in Ep'. apply skip_ones_repeat in Ep' as [_ ->];
      [done|done|by apply canonical_no_one, spaces_no_b58_prefix]. }
  destruct (decode58_loop _ _ _ _ _) as [[[b len] rest]| | | | |]; [|try done..]; cbn [mbind result_bind].
  - destruct Hloop as (ds & -> & Hds & Hrest & Hh & Ht & Hlen). rewrite Z.add_0_l in *.
    destruct (tight_canonical _ _ _ _ Hh Ht) as [Hc Hv].
    assert (canonical 58 ds) as Hcan.
    { split; [done|]. destruct Hds as [|d ds Hd _]; [done|]. cbn [map app nth] in Hz |- *. intros ->.
      by apply Hz. }
    destruct (skip_spaces_eq rest) as (sp2 & Hsp2 & Er). case_bool_decide as Hend.
    + exists z, ds, (rev (take len b)). rewrite Hend, app_nil_r in Er. split_and!; [|done|done|done|].
      * split; [|done]. exists sp1, sp2. split; [|done]. by rewrite Es, Ep, Er.
      * rewrite length_rev, length_take. lia.
    + intros (z' & ds' & Ht'). destruct (Huniq z' ds' Ht') as (rest' & E & Hrest').
      apply decode58_split in E as [_ ->]; [|done|apply Ht'|done|by apply spaces_no_b58_prefix].
      apply Hend. rewrite <- (app_nil_r rest'). by apply skip_spaces_app.
  - intros (z' & ds' & Ht'). destruct (Huniq z' ds' Ht') as (rest' & E & Hrest').
    apply Hloop. exists ds', rest'. split_and!; [done|apply Ht'|by apply spaces_no_b58_prefix|].
    rewrite E, length_app, length_map in H. lia.
Qed.

(** The decoder never aborts, reads or writes outside of its buffer. *)
Lemma DecodeBase58_safe str : bytes_ok str → safe (DecodeBase58 str).
Proof. intros Hs. pose proof (DecodeBase58_cases str Hs). by destruct (DecodeBase58 str). Qed.

Lemma zeros_bytes z bs : canonical 256 bs → bytes_ok (repeat 0 z ++ bs).
Proof.
  intros [Hd _]. apply Forall_app. split; [|exact Hd]. apply Forall_repeat. unfold byte_ok. lia.
Qed.

(** C18: the decoder accepts exactly the encodings, with white space around
    them, and returns what was encoded. *)
Theorem DecodeBase58_correct str out : bytes_ok str →
  DecodeBase58 str = Ok out ↔
  bytes_ok out ∧ ∃ s sp1 sp2, EncodeBase58 out = Ok s ∧ str = sp1 ++ s ++ sp2 ∧ spaces sp1 ∧ spaces sp2.
Proof.
  intros Hstr. pose proof (DecodeBase58_cases str Hstr) as Hdec. split.
  - intros E. rewrite E in Hdec. destruct Hdec as (z & ds & bs & Ht & -> & Hbs & Hval & _).
    pose proof (zeros_bytes z bs Hbs) as Hout. split; [done|].
    destruct (EncodeBase58_spec _ Hout) as (ds' & Es & Hds' & Hval').
    destruct (count_zeros_repeat z bs (proj2 Hbs)) as [Ez Ebs]. rewrite Ez in Es. rewrite Ebs in Hval'.
    assert (ds' = ds) as -> by (apply (canonical_unique 58); [lia|done|apply Ht|congruence]).
    destruct (bt_split _ _ _ Ht) as (sp1 & sp2 & -> & H1 & H2). eexists _, sp1, sp2.
    split_and!; [exact Es|by rewrite <- app_assoc|done|done].
  - intros (Hout & s & sp1 & sp2 & Es & -> & H1 & H2).
    destruct (EncodeBase58_spec out Hout) as (ds & Es' & Hds & Hval). rewrite Es in Es'. injection Es' as ->.
    assert (base58_text (sp1 ++ (repeat 49 (count_zeros out) ++ map char58 ds) ++ sp2) (count_zeros out) ds) as Ht.
    { split; [|done]. exists sp1, sp2. split; [by rewrite <- app_assoc|done]. }
    destruct (DecodeBase58 _) as [out'| | | | |]; [|by exfalso; eauto..].
    destruct Hdec as (z & ds' & bs & Ht' & -> & Hbs & Hval' & _). f_equal.
    destruct (text_skip_spaces _ _ _ Ht) as (r & Hr & E). destruct (text_skip_spaces _ _ _ Ht') as (r' & Hr' & E').
    rewrite E in E'. apply skip_ones_repeat in E' as [<- E'];
      [|by apply canonical_no_one, spaces_no_b58_prefix|apply canonical_no_one; [apply Ht'|by apply spaces_no_b58_prefix]].
    apply decode58_split in E' as [<- _];
      [|apply Hds|apply Ht'|by apply spaces_no_b58_prefix|by apply spaces_no_b58_prefix].
    etrans; [|symmetry; apply skip_zeros_eq]. apply (f_equal (app _)),  (canonical_unique 256); [lia|done| |congruence].
    apply skip_zeros_canonical. exact Hout.
Qed.

(** ** Base59 *)
Definition convert_next (from to : Z) (number : list Z) : list Z :=
  let r := divmod from to 0 number in if nth 0 r.1 0 =? 0 then tail r.1 else r.1.

Lemma divmod_spec from to rem number : 0 < from <= 256 → 0 < to <= 256 → digits from number → digit to rem →
  let r := divmod from to rem number in
  digits from r.1 ∧ digit to r.2 ∧ length r.1 = length number ∧
  rem * from ^ Z.of_nat (length number) + be_val from number = be_val from r.1 * to + r.2.
Proof.
  intros Hf Ht Hn. revert rem. induction Hn as [|d number Hd Hn IH]; intros rem Hr; cbn [divmod].
  { cbn [fst snd length be_val]. split_and!; [done..|]. rewrite Z.pow_0_r. lia. }
  unfold digit in Hd, Hr. set (temp := rem * from + d).
  pose proof (Z.div_mod temp to ltac:(lia)) as Hdm. pose proof (Z.mod_pos_bound temp to ltac:(lia)) as Hmod.
  assert (0 <= temp / to < from) as Hq.
  { split; [apply Z.div_pos; unfold temp; nia|]. apply Z.div_lt_upper_bound; unfold temp; nia. }
  destruct (IH (temp mod to) Hmod) as (H1 & H2 & H3 & H4). cbn [fst snd length be_val].
  rewrite (wrapU_small 8) by (change (2 ^ 8) with 256; lia). rewrite H3.
  split_and!; [by constructor|done|done|]. rewrite Nat2Z.inj_succ, Z.pow_succ_r by lia.
  set (p := from ^ Z.of_nat (length number)) in *. unfold temp in *. nia.
Qed.

Lemma convert_next_spec from to number : 0 < from <= 256 → 0 < to <= 256 → digits from number →
  let r := divmod from to 0 number in
  digits from (convert_next from to number) ∧ digit to r.2 ∧
  be_val from number = be_val from (convert_next from to number) * to + r.2.
Proof.
  intros Hf Ht Hn r. destruct (divmod_spec from to 0 number Hf Ht Hn) as (H1 & H2 & _ & H4).
  { unfold digit. lia. }
  fold r in H1, H2, H4. unfold convert_next. fold r. rewrite Z.mul_0_l, Z.add_0_l in H4.
  destruct (Z.eqb_spec (nth 0 r.1 0) 0) as [E|_]; [|done]. destruct H1 as [|d q Hd H1]; [done|].
  cbn [nth] in E. subst d. cbn [tail]. cbn [be_val] in H4. split_and!; [done|done|lia].
Qed.

Lemma convert_loop_S from to fuel cap number out : number ≠ [] →
  convert_loop from to (S fuel) (S cap) number out =
  convert_loop from to fuel cap (convert_next from to number) (u8 (divmod from to 0 number).2 :: out).
Proof. by destruct number. Qed.

(** The loop, for an invariant [I] between [j] and the number that leaves room
    for each digit. *)
Lemma convert_loop_ok from to (I : nat → list Z → Prop) : 0 < from <= 256 → 0 < to <= 256 →
  (∀ cap number, I cap number → digits from number → number ≠ [] →
     ∃ cap', cap = S cap' ∧ I cap' (convert_next from to number)) →
  ∀ fuel cap number out, (cap <= fuel)%nat → I cap number → digits from number →
  ∃ rs cap', convert_loop from to fuel cap number out = Ok (rs ++ out, cap') ∧ digits to rs ∧
    be_val to rs = be_val from number.
Proof.
  intros Hf Ht Hstep. induction fuel as [|fuel IH]; intros cap number out Hfuel Hi Hd;
    (destruct number as [|d number']; [exists [], cap; by destruct cap|]).
  { destruct (Hstep _ _ Hi Hd) as (cap' & -> & _); [done|lia]. }
  destruct (Hstep _ _ Hi Hd) as (cap' & -> & Hi'); [done|].
  destruct (convert_next_spec from to _ Hf Ht Hd) as (Hd' & Hr & Hv).
  set (number := d :: number') in *. unfold digit in Hr.
  destruct (IH cap' (convert_next from to number) (u8 (divmod from to 0 number).2 :: out))
    as (rs & cap'' & E & Hrs & Hval); [lia|done|done|].
  rewrite (wrapU_small 8 (divmod from to 0 number).2) in E by (change (2 ^ 8) with 256; lia).
  exists (rs ++ [(divmod from to 0 number).2]), cap''. split_and!.
  - rewrite convert_loop_S, (wrapU_small 8) by (done || change (2 ^ 8) with 256; lia).
    rewrite <- app_assoc. exact E.
  - apply Forall_app. split; [done|]. by apply Forall_singleton.
  - rewrite be_val_app, Hval, Hv by lia. cbn [be_val length]. rewrite Z.pow_1_r, Z.pow_0_r. lia.
Qed.

(** Encoding: twice as many base 59 digits as bytes are enough. *)
Lemma convert_next_59 cap number : canonical 256 number ∧ be_val 256 number < 59 ^ Z.of_nat cap →
  digits 256 number → number ≠ [] → ∃ cap', cap = S cap' ∧
  canonical 256 (convert_next 256 59 number) ∧ be_val 256 (convert_next 256 59 number) < 59 ^ Z.of_nat cap'.
Proof.
  intros [Hc Hv] Hd Hne. destruct (convert_next_spec 256 59 number) as (Hd' & Hr & Hval); [lia|lia|done|].
  unfold digit in Hr. destruct number as [|d number]; [done|].
  pose proof (be_val_pos 256 d number ltac:(lia) Hc).
  assert (0 < 256 ^ Z.of_nat (length number)) by (apply Z.pow_pos_nonneg; lia).
  destruct cap as [|cap]; [change (59 ^ Z.of_nat 0) with 1 in Hv; lia|]. exists cap. split; [done|].
  rewrite Nat2Z.inj_succ, Z.pow_succ_r in Hv by lia. split; [|lia]. split; [done|].
  destruct Hc as [_ Hd0]. cbn [nth] in Hd0. clear Hval Hr Hd' H H0 Hv Hne.
  apply Forall_cons in Hd as [Hd1 Hd]. unfold digit in Hd1. unfold convert_next. cbn [divmod]. cbn [fst nth].
  rewrite Z.mul_0_l, Z.add_0_l. assert (0 <= d / 59 < 256) as Hq.
  { split; [apply Z.div_pos; lia|apply Z.div_lt_upper_bound; lia]. }
  rewrite (wrapU_small 8) by (change (2 ^ 8) with 256; lia).
  destruct (Z.eqb_spec (d / 59) 0) as [E|E]; [|done]. cbn [tail].
  destruct Hd as [|d2 number Hd2 Hd]; [done|]. unfold digit in Hd2. cbn [divmod fst nth].
  pose proof (Z.div_mod d 59 ltac:(lia)). rewrite E in H.
  assert (0 < (d mod 59 * 256 + d2) / 59 < 256) as Hq2.
  { split; [apply Z.div_str_pos; lia|apply Z.div_lt_upper_bound; pose proof (Z.mod_pos_bound d 59); lia]. }
  rewrite (wrapU_small 8) by (change (2 ^ 8) with 256; lia). lia.
Qed.

Definition good59 (d : Z) : Prop :=
  g_Indexes !! Z.to_nat (char59 d) = Some d ∧ (char59 d = 49 ↔ d = 0) ∧ 0 < char59 d < 128.

#[local] Instance good59_dec d : Decision (good59 d).
Proof. unfold good59. apply _. Defined.

Lemma index_char59 d : digit 59 d → good59 d.
Proof.
  intros Hd. assert (Forall (λ n, good59 (Z.of_nat n)) (seq 0 59)) as Hseq
    by (apply (bool_decide_unpack _); by vm_compute).
  rewrite Forall_forall in Hseq. unfold digit in Hd. rewrite <- (Z2Nat.id d) by lia.
  apply Hseq, elem_of_seq. lia.
Qed.

Definition good_index (n : nat) : Prop :=
  g_Indexes !! n = Some (nth n g_Indexes (-1)) ∧
  (nth n g_Indexes (-1) = -1 ∨
   (0 <= nth n g_Indexes (-1) < 59) ∧ char59 (nth n g_Indexes (-1)) = Z.of_nat n).

#[local] Instance good_index_dec n : Decision (good_index n).
Proof. unfold good_index. apply _. Defined.

Lemma index_range c : 0 <= c < 128 → ∃ d, g_Indexes !! Z.to_nat c = Some d ∧ (d = -1 ∨ digit 59 d ∧ char59 d = c).
Proof.
  intros Hc. assert (Forall good_index (seq 0 128)) as Hseq by (apply (bool_decide_unpack _); by vm_compute).
  rewrite Forall_forall in Hseq. specialize (Hseq (Z.to_nat c)). unfold good_index in Hseq.
  rewrite Z2Nat.id in Hseq by lia. exists (nth (Z.to_nat c) g_Indexes (-1)). apply Hseq, elem_of_seq. lia.
Qed.

Lemma skip_char_map l : digits 59 l → skip_char 49 (map char59 l) = map char59 (skip_zeros l).
Proof.
  induction 1 as [|d l Hd _ IH]; [done|]. cbn [map skip_char skip_zeros].
  destruct (index_char59 d Hd) as (_ & Hiff & _).
  destruct (Z.eqb_spec (char59 d) 49), (Z.eqb_spec d 0); [done|tauto|tauto|done].
Qed.

Lemma value_length base l n : 1 < base → canonical base l → be_val base l < base ^ Z.of_nat n →
  (length l <= n)%nat.
Proof.
  intros Hb Hc Hv. destruct l as [|d l]; [simpl; lia|]. pose proof (be_val_pos base d l ltac:(lia) Hc).
  assert (base ^ Z.of_nat (length l) < base ^ Z.of_nat n) as Hp%Z.pow_lt_mono_r_iff by lia; cbn [length]; lia.
Qed.

Lemma zeros_and_digits l : length l = (count_zeros l + length (skip_zeros l))%nat.
Proof. rewrite (skip_zeros_eq l) at 1. by rewrite length_app, repeat_length. Qed.

(** The encoder is total. *)
Lemma EncodeBase59_spec buf : bytes_ok buf → ∃ ds,
  EncodeBase59 buf = Ok (repeat 49 (count_zeros buf) ++ map char59 ds) ∧
  canonical 59 ds ∧ be_val 59 ds = be_val 256 (skip_zeros buf).
Proof.
  intros Hb. unfold EncodeBase59. case_bool_decide as E0; [subst buf; by exists []|].
  set (size := (length buf * 2)%nat).
  pose proof (skip_zeros_canonical 256 buf Hb) as Hcan. pose proof Hcan as [Hd _].
  assert (be_val 256 (skip_zeros buf) < 59 ^ Z.of_nat (length (skip_zeros buf) * 2)) as Hval.
  { pose proof (be_val_range 256 (skip_zeros buf) ltac:(lia) Hd) as [_ Hlt].
    rewrite Nat2Z.inj_mul, Z.mul_comm, Z.pow_mul_r by lia. eapply Z.lt_le_trans; [exact Hlt|].
    apply Z.pow_le_mono_l. lia. }
  pose proof (zeros_and_digits buf) as Hlen.
  assert (59 ^ Z.of_nat (length (skip_zeros buf) * 2) <= 59 ^ Z.of_nat size) as Hsize
    by (apply Z.pow_le_mono_r; lia).
  destruct (convert_loop_ok 256 59 (λ cap number, canonical 256 number ∧ be_val 256 number < 59 ^ Z.of_nat cap)
    ltac:(lia) ltac:(lia) convert_next_59 size size (skip_zeros buf) []) as (rs & cap' & -> & Hrs & Hv);
    [done|split; [done|lia]|done|].
  cbn [mbind result_bind fst]. rewrite app_nil_r, skip_char_map by done.
  pose proof (skip_zeros_canonical 59 rs Hrs) as Hc. exists (skip_zeros rs).
  assert (length (skip_zeros rs) <= length (skip_zeros buf) * 2)%nat.
  { apply (value_length 59); [lia|done|]. by rewrite skip_zeros_val, Hv. }
  rewrite length_map, (proj2 (Nat.ltb_ge _ _)) by lia. split_and!; [done|done|]. by rewrite skip_zeros_val.
Qed.

(** *** Decoding *)
Notation ascii_chars := (Forall (λ c, 0 <= c < 128)).

Lemma char59_inj d1 d2 : digit 59 d1 → digit 59 d2 → char59 d1 = char59 d2 → d1 = d2.
Proof.
  intros H1%index_char59 H2%index_char59 E. destruct H1 as [H1 _], H2 as [H2 _]. rewrite E in H1. congruence.
Qed.

Lemma map_char59_inj ds1 ds2 : digits 59 ds1 → digits 59 ds2 → map char59 ds1 = map char59 ds2 → ds1 = ds2.
Proof.
  intros H1. revert ds2. induction H1 as [|d1 ds1 Hd1 _ IH]; intros ds2 H2 E.
  { by destruct ds2. }
  destruct H2 as [|d2 ds2 Hd2 H2]; [done|]. injection E as E1 E2.
  f_equal; [by apply char59_inj|by apply IH].
Qed.

Lemma indexes59_map ds : digits 59 ds → indexes59 (map char59 ds) = Ok ds.
Proof.
  induction 1 as [|d ds Hd _ IH]; [done|]. cbn [map indexes59].
  destruct (index_char59 d Hd) as [-> _]. unfold digit in Hd.
  rewrite (proj2 (Z.ltb_ge d 0)) by lia. by rewrite IH.
Qed.

Lemma indexes59_cases str : ascii_chars str →
  (∃ ds, digits 59 ds ∧ str = map char59 ds) ∨ (∃ t, indexes59 str = Invalid t).
Proof.
  induction 1 as [|c str Hc _ IH]; [left; by exists []|]. cbn [indexes59].
  destruct (index_range c Hc) as (d & -> & Hd). destruct Hd as [->|[Hd Ec]]; [right; by eexists|].
  unfold digit in Hd. rewrite (proj2 (Z.ltb_ge d 0)) by lia.
  destruct IH as [(ds & Hds & ->)|(t & ->)]; [left|right; by eexists].
  exists (d :: ds). split; [by constructor|]. cbn [map]. by rewrite Ec.
Qed.

(** Decoding: each digit gives at most one byte. *)
Lemma convert_next_256 cap number : (length number <= cap)%nat → digits 59 number → number ≠ [] →
  ∃ cap', cap = S cap' ∧ (length (convert_next 59 256 number) <= cap')%nat.
Proof.
  intros Hl Hd Hne. destruct Hd as [|d number Hd Hn]; [done|]. destruct cap as [|cap]; cbn [length] in Hl; [lia|].
  exists cap. split; [done|]. unfold convert_next, digit in *. cbn [divmod fst nth].
  rewrite Z.mul_0_l, Z.add_0_l, (Z.div_small d), (Z.mod_small d) by lia.
  change (u8 0) with 0. cbn [nth Z.eqb tail].
  destruct (divmod_spec 59 256 d number) as (_ & _ & -> & _); [lia|lia|done|unfold digit; lia|lia].
Qed.

Lemma DecodeBase59_map ds : digits 59 ds → ∃ bs,
  DecodeBase59 (map char59 ds) = Ok (repeat 0 (count_zeros ds) ++ bs) ∧ canonical 256 bs ∧
  be_val 256 bs = be_val 59 (skip_zeros ds) ∧ (length bs <= length (skip_zeros ds))%nat.
Proof.
  intros Hds. unfold DecodeBase59. case_bool_decide as E0.
  { destruct ds; [|done]. exists []. split_and!; [done|by split|done|done]. }
  rewrite indexes59_map by done. cbn [mbind result_bind]. rewrite length_map.
  pose proof (skip_zeros_canonical 59 ds Hds) as [Hd _]. pose proof (zeros_and_digits ds) as Hlen.
  destruct (convert_loop_ok 59 256 (λ cap number, (length number <= cap)%nat) ltac:(lia) ltac:(lia) convert_next_256
    (length ds) (length ds) (skip_zeros ds) []) as (rs & cap' & -> & Hrs & Hv); [done|lia|done|].
  cbn [mbind result_bind fst]. rewrite app_nil_r. exists (skip_zeros rs).
  pose proof (skip_zeros_canonical 256 rs Hrs) as Hc.
  assert (length (skip_zeros rs) <= length (skip_zeros ds))%nat as Hle.
  { apply (value_length 256); [lia|done|]. rewrite skip_zeros_val, Hv.
    pose proof (be_val_range 59 (skip_zeros ds) ltac:(lia) Hd) as [_ Hlt]. eapply Z.lt_le_trans; [exact Hlt|].
    apply Z.pow_le_mono_l. lia. }
  rewrite (proj2 (Nat.ltb_ge _ _)) by lia. split_and!; [done|done|by rewrite skip_zeros_val|done].
Qed.

(** Base59 decoding is exactly the inverse of encoding. *)
Lemma DecodeBase59_correct str out : ascii_chars str →
  DecodeBase59 str = Ok out ↔ bytes_ok out ∧ EncodeBase59 out = Ok str.
Proof.
  intros Hstr. assert (∀ z bs, canonical 256 bs → count_zeros (repeat 0 z ++ bs) = z ∧ skip_zeros (repeat 0 z ++ bs) = bs) as Hz.
  { intros z bs [_ Hbs]. by apply count_zeros_repeat. }
  split.
  - intros E. destruct (indexes59_cases str Hstr) as [(ds & Hds & ->)|(t & Et)].
    + destruct (DecodeBase59_map ds Hds) as (bs & E' & Hbs & Hv & _). rewrite E in E'. injection E' as ->.
      pose proof (zeros_bytes (count_zeros ds) bs Hbs) as Hout. split; [done|].
      destruct (EncodeBase59_spec _ Hout) as (ds' & -> & Hds' & Hv'). destruct (Hz (count_zeros ds) bs Hbs) as [-> Hsk].
      rewrite Hsk in Hv'. assert (ds' = skip_zeros ds) as ->.
      { apply (canonical_unique 59); [lia|done|by apply skip_zeros_canonical|congruence]. }
      f_equal. rewrite (skip_zeros_eq ds) at 3. rewrite map_app. f_equal. by rewrite map_repeat.
    + unfold DecodeBase59 in E. case_bool_decide as E0; [subst str; done|]. by rewrite Et in E.
  - intros [Hout E]. destruct (EncodeBase59_spec out Hout) as (ds & Es & Hds & Hv). rewrite E in Es. injection Es as ->.
    assert (repeat 49 (count_zeros out) ++ map char59 ds = map char59 (repeat 0 (count_zeros out) ++ ds)) as ->.
    { by rewrite map_app, map_repeat. }
    assert (digits 59 (repeat 0 (count_zeros out) ++ ds)) as Hd.
    { apply Forall_app. split; [apply Forall_repeat; unfold digit; lia|apply Hds]. }
    destruct (DecodeBase59_map _ Hd) as (bs & -> & Hbs & Hv' & _). f_equal.
    destruct (count_zeros_repeat (count_zeros out) ds (proj2 Hds)) as [-> Hsk]. rewrite Hsk in Hv'.
    etrans; [|symmetry; apply skip_zeros_eq]. apply (f_equal (app _)), (canonical_unique 256);
      [lia|done|by apply skip_zeros_canonical|congruence].
Qed.

Lemma DecodeBase59_safe str : ascii_chars str → safe (DecodeBase59 str).
Proof.
  intros Hstr. destruct (indexes59_cases str Hstr) as [(ds & Hds & ->)|(t & Et)].
  - by destruct (DecodeBase59_map ds Hds) as (bs & -> & _).
  - unfold DecodeBase59. case_bool_decide; [done|]. by rewrite Et.
Qed.

(** A character outside of ASCII indexes the table out of range. *)
Lemma DecodeBase59_high_char c str : 128 <= c → DecodeBase59 (c :: str) = Undef "g_Indexes index out of range".
Proof.
  intros Hc. unfold DecodeBase59. cbn [bool_decide decide_rel]. case_bool_decide; [done|]. cbn [indexes59].
  assert (g_Indexes !! Z.to_nat c = None) as ->; [|done]. apply lookup_ge_None. change (length g_Indexes) with 128%nat. lia.
Qed.

Lemma DecodeBase58_correct_witness :
  bytes_ok (chars " 1LiA ") ∧ DecodeBase58 (chars " 1LiA ") = Ok [0; 1; 2; 255].
Proof.
  assert (bytes_ok (chars " 1LiA ")) as Hb by (apply (bool_decide_unpack _); by vm_compute).
  split; [exact Hb|]. apply (DecodeBase58_correct _ _ Hb). split.
  - apply (bool_decide_unpack _). by vm_compute.
  - exists (chars "1LiA"), [32], [32]. split_and!; [by vm_compute|done|by repeat constructor|by repeat constructor].
Defined.

Lemma DecodeBase59_correct_witness :
  ascii_chars (chars "1L3o") ∧ EncodeBase59 [0; 1; 2; 255] = Ok (chars "1L3o").
Proof.
  assert (ascii_chars (chars "1L3o")) as Hb by (apply (bool_decide_unpack _); by vm_compute).
  split; [exact Hb|]. apply (DecodeBase59_correct _ [0; 1; 2; 255] Hb). by vm_compute.
Defined.

(** *** Lengths *)
Lemma DecodeBase58_length str out : bytes_ok str → DecodeBase58 str = Ok out → (length out <= length str)%nat.
Proof.
  intros Hs E. pose proof (DecodeBase58_cases str Hs) as Hc. rewrite E in Hc.
  destruct Hc as (z & ds & bs & Ht & -> & _ & _ & Hl). destruct (bt_split _ _ _ Ht) as (sp1 & sp2 & -> & _).
  rewrite !length_app, !repeat_length, length_map. lia.
Qed.

(** A text of [z] ['1']s and [n] digits gives at least [z + n / 2] bytes. *)
Lemma decoded_length_ge base (str : list Z) z (ds bs : list Z) : 16 < base →
  length str = (z + length ds)%nat → canonical base ds → canonical 256 bs → be_val 256 bs = be_val base ds →
  (length str <= length (repeat 0%Z z ++ bs) * 2)%nat.
Proof.
  intros Hb Hl Hds Hbs Hv. rewrite length_app, repeat_length.
  destruct ds as [|d ds]; [cbn [length] in Hl; lia|]. cbn [length] in Hl.
  pose proof (be_val_pos base d ds ltac:(lia) Hds) as Hlow.
  pose proof (be_val_range 256 bs ltac:(lia) (proj1 Hbs)) as [_ Hup].
  assert (16 ^ Z.of_nat (length ds) < 16 ^ (2 * Z.of_nat (length bs))) as Hlt.
  { rewrite Z.pow_mul_r by lia. change (16 ^ 2) with 256.
    eapply Z.le_lt_trans; [|exact Hup]. rewrite Hv. etrans; [|exact Hlow]. apply Z.pow_le_mono_l. lia. }
  apply Z.pow_lt_mono_r_iff in Hlt; lia.
Qed.

Lemma indexes59_ascii str ds : bytes_ok str → indexes59 str = Ok ds → ascii_chars str.
Proof.
  intros Hs. revert ds. induction Hs as [|c str Hc _ IH]; intros ds E; [constructor|]. cbn [indexes59] in E.
  destruct (g_Indexes !! Z.to_nat c) eqn:El; [|done]. destruct (_ <? _); [done|].
  destruct (indexes59 str) as [ds'| | | | |]; try done. constructor; [|by eapply IH].
  apply lookup_lt_Some in El. change (length g_Indexes) with 128%nat in El. unfold byte_ok in Hc. lia.
Qed.

(** A text that decodes has ASCII characters only. *)
Lemma DecodeBase59_ascii str out : bytes_ok str → DecodeBase59 str = Ok out → ascii_chars str.
Proof.
  intros Hs E. unfold DecodeBase59 in E. case_bool_decide; [subst; constructor|].
  destruct (indexes59 str) as [ds| | | | |] eqn:Ei; try done. by eapply indexes59_ascii.
Qed.

Lemma DecodeBase59_length str out : bytes_ok str → DecodeBase59 str = Ok out → (length out <= length str)%nat.
Proof.
  intros Hs E. pose proof (DecodeBase59_ascii _ _ Hs E) as Ha.
  destruct (indexes59_cases str Ha) as [(ds & Hds & ->)|(t & Et)].
  - destruct (DecodeBase59_map ds Hds) as (bs & E' & _ & _ & Hl). rewrite E in E'. injection E' as ->.
    rewrite length_app, repeat_length, length_map. pose proof (zeros_and_digits ds). lia.
  - unfold DecodeBase59 in E. case_bool_decide; [subst; by injection E as <-|]. by rewrite Et in E.
Qed.

(** What the encoders write. *)
Lemma EncodeBase58_chars input s : bytes_ok input → EncodeBase58 input = Ok s →
  Forall (λ c, IsSpace c = false ∧ 0 < c < 128) s ∧ (length input <= length s)%nat.
Proof.
  intros Hi E. destruct (EncodeBase58_spec input Hi) as (ds & E' & Hds & Hv). rewrite E in E'. injection E' as ->.
  split.
  - apply Forall_app. split; [by apply Forall_repeat|]. apply Forall_map. eapply Forall_impl; [apply Hds|].
    intros d Hd%map58_char58. by destruct Hd as (_ & ? & _ & _ & ?).
  - rewrite length_app, repeat_length, length_map, (zeros_and_digits input).
    pose proof (skip_zeros_canonical 256 input Hi) as Hc.
    assert (length (skip_zeros input) <= length ds)%nat; [|lia]. apply (value_length 256); [lia|done|].
    rewrite <- Hv. pose proof (be_val_range 58 ds ltac:(lia) (proj1 Hds)) as [_ Hlt].
    eapply Z.lt_le_trans; [exact Hlt|]. apply Z.pow_le_mono_l. lia.
Qed.

Lemma EncodeBase59_chars input s : bytes_ok input → EncodeBase59 input = Ok s → ascii_chars s.
Proof.
  intros Hi E. destruct (EncodeBase59_spec input Hi) as (ds & E' & Hds & _). rewrite E in E'. injection E' as ->.
  apply Forall_app. split; [by apply Forall_repeat|]. apply Forall_map. eapply Forall_impl; [apply Hds|].
  intros d Hd%index_char59. destruct Hd as (_ & _ & ?). lia.
Qed.

(** *** Texts by their characters *)
Definition b58_char (c : Z) : Prop := ∃ d, digit 58 d ∧ char58 d = c.
Definition b59_char (c : Z) : Prop := ∃ d, digit 59 d ∧ char59 d = c.

Lemma chars_digits (f : Z → Z) (P : Z → Prop) str : Forall (λ c, ∃ d, P d ∧ f d = c) str →
  ∃ ds, Forall P ds ∧ str = map f ds.
Proof.
  induction 1 as [|c str (d & Hd & <-) _ (ds & Hds & ->)]; [by exists []|]. exists (d :: ds). split; [by constructor|done].
Qed.

Lemma digits_chars (f : Z → Z) (P : Z → Prop) ds : Forall P ds → Forall (λ c, ∃ d, P d ∧ f d = c) (map f ds).
Proof. intros Hds. apply Forall_map. eapply Forall_impl; [exact Hds|]. cbn. eauto. Qed.

Lemma b58_char_ok c : b58_char c → IsSpace c = false ∧ 0 < c < 128.
Proof. intros (d & Hd%map58_char58 & <-). by destruct Hd as (_ & ? & _ & _ & ?). Qed.

Lemma b58_bytes str : Forall b58_char str → bytes_ok str.
Proof.
  intros Hs. eapply Forall_impl; [exact Hs|]. intros c Hc%b58_char_ok. unfold byte_ok. lia.
Qed.

(** A text of Base58 characters decodes, to at least half as many bytes. *)
Lemma DecodeBase58_chars str : Forall b58_char str → ∃ out,
  DecodeBase58 str = Ok out ∧ (length str <= length out * 2)%nat.
Proof.
  intros Hs. pose proof (DecodeBase58_cases str (b58_bytes _ Hs)) as Hc.
  destruct (chars_digits _ _ _ Hs) as (dd & Hdd & Es).
  assert (base58_text str (count_zeros dd) (skip_zeros dd)) as Ht.
  { split; [|by apply skip_zeros_canonical]. exists [], []. split_and!; [|done|done].
    cbn [app]. rewrite app_nil_r, Es. rewrite (skip_zeros_eq dd) at 1. by rewrite map_app, map_repeat. }
  destruct (DecodeBase58 str) as [out| | | | |]; [|by exfalso; eauto..]. exists out. split; [done|].
  destruct Hc as (z & ds & bs & Ht' & -> & Hbs & Hv & _).
  assert (∀ sp, spaces sp → (∀ c, c ∈ sp → c ∈ str) → sp = []) as Hno.
  { intros [|w sp] Hsp Hin; [done|]. apply Forall_cons in Hsp as [Hw _]. rewrite Forall_forall in Hs.
    destruct (b58_char_ok w (Hs w (Hin w ltac:(left)))). congruence. }
  destruct (bt_split _ _ _ Ht') as (sp1 & sp2 & E & H1 & H2).
  assert (sp1 = []) as -> by (apply Hno; [done|]; intros c Hin; rewrite E; apply elem_of_app; by left).
  assert (sp2 = []) as -> by (apply Hno; [done|]; intros c Hin; rewrite E, !elem_of_app; auto).
  apply (decoded_length_ge 58 str z ds bs); [lia| |apply Ht'|done|done].
  rewrite E, !length_app, repeat_length, length_map. simpl. lia.
Qed.

Lemma DecodeBase59_chars str : Forall b59_char str → ∃ out,
  DecodeBase59 str = Ok out ∧ (length str <= length out * 2)%nat.
Proof.
  intros Hs. destruct (chars_digits _ _ _ Hs) as (dd & Hdd & ->).
  destruct (DecodeBase59_map dd Hdd) as (bs & -> & Hbs & Hv & _). eexists. split; [done|].
  apply (decoded_length_ge 59 _ _ (skip_zeros dd)); [lia| |by apply skip_zeros_canonical|done|done].
  by rewrite length_map, (zeros_and_digits dd).
Qed.

(** Conversely. *)
Lemma Decode58_b58 str out : bytes_ok str → Forall (λ c, IsSpace c = false) str → DecodeBase58 str = Ok out →
  Forall b58_char str.
Proof.
  intros Hb Hs E. pose proof (DecodeBase58_cases str Hb) as Hc. rewrite E in Hc.
  destruct Hc as (z & ds & _ & Ht & _). destruct (bt_split _ _ _ Ht) as (sp1 & sp2 & Es & H1 & H2).
  assert (∀ sp, spaces sp → Forall (λ c, IsSpace c = false) sp → sp = []) as Hno.
  { intros [|w sp] Hsp Hsp'; [done|]. apply Forall_inv in Hsp. apply Forall_inv in Hsp'. cbv beta in *. congruence. }
  rewrite Es in Hs |- *. rewrite !Forall_app in Hs |- *. destruct Hs as (Hs1 & _ & _ & Hs2).
  rewrite (Hno sp1), (Hno sp2) by done. split_and!; [constructor| | |constructor].
  - apply Forall_repeat. exists 0. split; [unfold digit; lia|done].
  - apply digits_chars, Ht.
Qed.

Lemma Decode59_b59 str out : bytes_ok str → DecodeBase59 str = Ok out → Forall b59_char str.
Proof.
  intros Hb E. pose proof (DecodeBase59_ascii _ _ Hb E) as Ha.
  destruct (indexes59_cases str Ha) as [(ds & Hds & ->)|(t & Et)]; [by apply digits_chars|].
  unfold DecodeBase59 in E. case_bool_decide; [subst; constructor|]. by rewrite Et in E.
Qed.

Lemma EncodeBase58_b58 input s : bytes_ok input → EncodeBase58 input = Ok s → Forall b58_char s.
Proof.
  intros Hi E. destruct (EncodeBase58_spec input Hi) as (ds & E' & Hds & _). rewrite E in E'. injection E' as ->.
  apply Forall_app. split; [|apply digits_chars, Hds]. apply Forall_repeat.
  exists 0. split; [unfold digit; lia|done].
Qed.

Lemma b59_char_ok c : b59_char c → IsSpace c = false ∧ 0 <= c < 128.
Proof.
  intros (d & Hd & <-). assert (Forall (λ n, IsSpace (char59 (Z.of_nat n)) = false) (seq 0 59)) as Hseq
    by (apply (bool_decide_unpack _); by vm_compute).
  rewrite Forall_forall in Hseq. destruct (index_char59 d Hd) as (_ & _ & ?). split; [|lia].
  unfold digit in Hd. rewrite <- (Z2Nat.id d) by lia. apply Hseq, elem_of_seq. lia.
Qed.

Lemma char58_not_zero d : digit 58 d → char58 d ≠ 48.
Proof.
  intros Hd. assert (Forall (λ n, char58 (Z.of_nat n) ≠ 48) (seq 0 58)) as Hseq
    by (apply (bool_decide_unpack _); by vm_compute).
  rewrite Forall_forall in Hseq. unfold digit in Hd. rewrite <- (Z2Nat.id d) by lia. apply Hseq, elem_of_seq. lia.
Qed.
