(* ===== verification/StrUtil.v ===== *)
(** * Hexadecimal strings ([strutil.cpp], [strutil.hpp], [blob.hpp])

    Characters are their codes.  [ParseHex] reads a C string: it skips spaces
    between bytes and stops at the first character that is not a digit, the end of
    the string included. *)
From Stdlib Require Import String.
From S2P Require Import Prelude Serde Base58.

(** [p_util_hexdigit] *)
Definition HexDigit (c : Z) : Z :=
  if (48 <=? c) && (c <=? 57) then c - 48
  else if (65 <=? c) && (c <=? 70) then c - 65 + 10
  else if (97 <=? c) && (c <=? 102) then c - 97 + 10
  else -1.

Fixpoint ParseHex (psz : list Z) : list Z :=
  match psz with
  | [] => []
  | c :: psz =>
    if IsSpace c then ParseHex psz
    else if HexDigit c =? -1 then []
    else
      match psz with
      | [] => []
      | c2 :: psz =>
        if HexDigit c2 =? -1 then []
        else Z.lor (u8 (Z.shiftl (HexDigit c) 4)) (HexDigit c2) :: ParseHex psz
      end
  end.

Definition IsHex (str : list Z) : bool :=
  forallb (λ c, negb (HexDigit c <? 0)) str && negb (bool_decide (str = [])) && (Z.of_nat (length str) mod 2 =? 0).

Definition hexmap : list Z := map Z.of_nat (seq 48 10 ++ seq 97 6).

(** The digits of one byte. *)
Definition hex_byte (val : Z) : list Z :=
  [nth (Z.to_nat (Z.shiftr val 4)) hexmap 0; nth (Z.to_nat (Z.land val 15)) hexmap 0].
Definition HexStr (v : list Z) : list Z := flat_map hex_byte v.
Definition HexStr_if (v : list Z) (reverseHex : bool) : list Z := if reverseHex then HexStr (rev v) else HexStr v.

(** [Blob<N>(std::vector)]: a shorter vector is padded with zeros. *)
Definition newBlob (N : nat) (v : list Z) : result (list Z) :=
  if (N <? length v)%nat then Throw "Blob invalid input size" else Ok (v ++ repeat 0 (N - length v)).
Definition Blob_fromHex (N : nat) (hex : list Z) : result (list Z) := newBlob N (ParseHex hex).
Definition Blob_assertFromHex (N : nat) (hex : list Z) : result (list Z) :=
  vassert (length hex / 2 =? N)%nat "hex.size() / 2 == N";; Blob_fromHex N hex.
Definition isNull (v : list Z) : bool := forallb (λ i, i =? 0) v.

(** ** Round trip *)
Definition hex_byte_check (b : Z) : bool :=
  match hex_byte b with
  | [c1; c2] => negb (IsSpace c1) && negb (HexDigit c1 =? -1) && negb (HexDigit c2 =? -1) &&
      (Z.lor (u8 (Z.shiftl (HexDigit c1) 4)) (HexDigit c2) =? b) && negb (HexDigit c1 <? 0) && negb (HexDigit c2 <? 0)
  | _ => false
  end.

Lemma hex_byte_ok b : byte_ok b → hex_byte_check b = true.
Proof.
  intros Hb. assert (Forall (λ b, hex_byte_check b = true) (map Z.of_nat (seq 0 256))) as Hall.
  { apply (bool_decide_unpack _). by vm_compute. }
  rewrite Forall_forall in Hall. apply Hall, list_elem_of_In, in_map_iff. unfold byte_ok in Hb.
  exists (Z.to_nat b). split; [lia|]. apply in_seq. lia.
Qed.

Lemma ParseHex_byte b l : byte_ok b → ParseHex (hex_byte b ++ l) = b :: ParseHex l.
Proof.
  intros Hb. pose proof (hex_byte_ok b Hb) as Hc. unfold hex_byte_check in Hc. unfold hex_byte in *.
  set (c1 := nth _ _ _) in *. set (c2 := nth (Z.to_nat (Z.land b 15)) _ _) in *. cbn [app ParseHex].
  repeat (apply andb_true_iff in Hc as [Hc ?Hx]). apply negb_true_iff in Hc, Hx, Hx0, Hx2, Hx3.
  apply Z.eqb_eq in Hx1. rewrite Hc, Hx2, Hx3, Hx1. done.
Qed.

(** [ParseHex] inverts [HexStr], and [IsHex] accepts what [HexStr] prints. *)
Lemma ParseHex_HexStr v : bytes_ok v → ParseHex (HexStr v) = v.
Proof. induction 1 as [|b v Hb Hv IH]; [done|]. cbn [HexStr flat_map]. rewrite ParseHex_byte by done. by f_equal. Qed.

Lemma length_HexStr v : length (HexStr v) = (2 * length v)%nat.
Proof. induction v as [|b v IH]; [done|]. unfold HexStr in *. cbn [flat_map]. rewrite length_app, IH. cbn. lia. Qed.

Lemma IsHex_HexStr v : bytes_ok v → v ≠ [] → IsHex (HexStr v) = true.
Proof.
  intros Hv Hne. unfold IsHex. rewrite !andb_true_iff. split_and!.
  - clear Hne. induction Hv as [|b v Hb Hv IH]; [done|]. pose proof (hex_byte_ok b Hb) as Hc.
    unfold hex_byte_check, hex_byte in Hc. repeat (apply andb_true_iff in Hc as [Hc ?Hx]).
    cbn [HexStr flat_map hex_byte app forallb]. by rewrite Hx, Hx0.
  - rewrite bool_decide_eq_false_2; [done|]. intros E. apply (f_equal length) in E. rewrite length_HexStr in E.
    destruct v; [done|]. cbn in E. lia.
  - rewrite length_HexStr. apply Z.eqb_eq. rewrite Nat2Z.inj_mul, Z.mul_comm. apply Z_mod_mult.
Qed.
