(* ===== verification/ArithUint256.v ===== *)
(** * 256-bit unsigned integers ([arith_uint256.hpp], [arith_uint256.cpp])

    [data_] is a list of 32 bytes, the least significant first; [le_Z] gives its
    value.  Every operator is the loop of the source over the bytes; the lemmas
    [value_*] show what it computes modulo 2^256. *)
From Stdlib Require Import String.
From S2P Require Import Prelude Serde StrUtil.

Module U256.
Implicit Types (a b : list Z).

Definition zero : list Z := repeat 0 32.

(** [ArithUint256(uint64_t)], [operator=(uint64_t)] *)
Definition of_u64 (b : Z) : list Z :=
  map (λ i, u8 (Z.shiftr b (8 * i))) [0; 1; 2; 3; 4; 5; 6; 7] ++ repeat 0 24.

(** [ArithUint256(const Blob<N>&)], and [fromLEBytes] *)
Definition of_blob (b : list Z) : result (list Z) :=
  vassert (length b <=? 32)%nat "b.size() <= SHA256_HASH_SIZE";;
  Ok (b ++ drop (length b) zero).
Definition fromLEBytes (b : list Z) : result (list Z) := of_blob (rev b).

(** ** Bitwise operators *)
Definition bit_not a : list Z := map (λ d, u8 (Z.lnot d)) a.
Definition bit_xor a b : list Z := zip_with Z.lxor a b.
Definition bit_and a b : list Z := zip_with Z.land a b.
Definition bit_or a b : list Z := zip_with Z.lor a b.

(** ** Addition *)
Fixpoint add_loop (carry : Z) a b : list Z :=
  match a, b with
  | x :: a, y :: b =>
    let n := u64 (carry + x + y) in
    Z.land n 0xff :: add_loop (Z.shiftr n 8) a b
  | _, _ => []
  end.
Definition add a b : list Z := add_loop 0 a b.

(** [operator++], [operator--] *)
Fixpoint incr a : list Z :=
  match a with
  | [] => []
  | x :: a => let x := u8 (x + 1) in if x =? 0 then x :: incr a else x :: a
  end.
Fixpoint decr a : list Z :=
  match a with
  | [] => []
  | x :: a => let x := u8 (x - 1) in if x =? 255 then x :: decr a else x :: a
  end.

Definition neg a : list Z := incr (bit_not a).
Definition sub a b : list Z := add a (neg b).

(** ** Multiplication *)
Fixpoint mul32_loop (b32 carry : Z) a : list Z :=
  match a with
  | [] => []
  | x :: a =>
    let n := u64 (carry + u64 (b32 * x)) in
    Z.land n 0xff :: mul32_loop b32 (Z.shiftr n 8) a
  end.
Definition mul32 a (b32 : Z) : list Z := mul32_loop b32 0 a.

(** The inner loop: [a.data_] from index [j] on; [dj] is [data_[j]]. *)
Fixpoint mul_row (carry dj : Z) b a : list Z :=
  match a, b with
  | x :: a, y :: b =>
    let n := u64 (carry + x + u64 (dj * y)) in
    Z.land n 0xff :: mul_row (Z.shiftr n 8) dj b a
  | _, _ => a
  end.
Definition mul_step (data b : list Z) a (j : nat) : list Z :=
  take j a ++ mul_row 0 (nth j data 0) b (drop j a).
Definition mul (data b : list Z) : list Z := foldl (mul_step data b) zero (seq 0 32).

(** ** Shifts *)
Definition or_at (i : nat) (d : Z) (data : list Z) : list Z := alter (λ x, Z.lor x d) i data.

Definition shl_step (k : nat) (shift : Z) a (data : list Z) (i : nat) : list Z :=
  let data :=
    if (i + k + 1 <? 32)%nat && negb (shift =? 0)
    then or_at (i + k + 1) (Z.shiftr (nth i a 0) (8 - shift)) data else data in
  if (i + k <? 32)%nat then or_at (i + k) (u8 (Z.shiftl (nth i a 0) shift)) data else data.
Definition shl a (shift : Z) : list Z :=
  foldl (shl_step (Z.to_nat (shift / 8)) (shift mod 8) a) zero (seq 0 32).

Definition shr_step (k : nat) (shift : Z) a (data : list Z) (i : nat) : list Z :=
  let data :=
    if (k + 1 <=? i)%nat && negb (shift =? 0)
    then or_at (i - k - 1) (u8 (Z.shiftl (nth i a 0) (8 - shift))) data else data in
  if (k <=? i)%nat then or_at (i - k) (Z.shiftr (nth i a 0) shift) data else data.
Definition shr a (shift : Z) : list Z :=
  foldl (shr_step (Z.to_nat (shift / 8)) (shift mod 8) a) zero (seq 0 32).

(** ** Comparison: from the most significant byte *)
Fixpoint compare_rev a b : Z :=
  match a, b with
  | x :: a, y :: b => if x <? y then -1 else if y <? x then 1 else compare_rev a b
  | _, _ => 0
  end.
Definition compareTo a b : Z := compare_rev (rev a) (rev b).

(** ** [bits()]: the position of the highest bit *)
Fixpoint byte_bits (nbits : nat) (d : Z) : Z :=
  match nbits with
  | O => 1
  | S n => if negb (Z.land d (Z.shiftl 1 (Z.of_nat nbits)) =? 0) then Z.of_nat nbits + 1 else byte_bits n d
  end.
Fixpoint bits_rev a : Z :=
  match a with
  | [] => 0
  | d :: a => if negb (d =? 0) then 8 * Z.of_nat (length a) + byte_bits 7 d else bits_rev a
  end.
Definition bits a : Z := bits_rev (rev a).

(** ** Division: shift and subtract *)
Fixpoint div_loop (fuel : nat) (num div data : list Z) (shift : Z) : result (list Z) :=
  if shift <? 0 then Ok data
  else
    match fuel with
    | O => OutOfFuel
    | S fuel =>
      if 0 <=? compareTo num div then
        div_loop fuel (sub num div) (shr div 1)
          (or_at (Z.to_nat (shift / 8)) (Z.shiftl 1 (Z.land shift 7)) data) (shift - 1)
      else div_loop fuel num (shr div 1) data (shift - 1)
    end.
Definition div (data b : list Z) : result (list Z) :=
  let num_bits := bits data in
  let div_bits := bits b in
  if div_bits =? 0 then Throw "Division by zero"
  else if num_bits <? div_bits then Ok (of_u64 0)
  else
    let shift := num_bits - div_bits in
    div_loop (Z.to_nat (shift + 1)) data (shl b shift) (of_u64 0) shift.

(** [getLow64]: the host is little-endian. *)
Definition getLow64 a : Z := le_Z (take 8 a).

(** ** Compact representation *)
Definition fromBits (cbits : Z) : list Z * bool * bool :=
  let nSize := Z.shiftr cbits 24 in
  let nWord := Z.land cbits 0x007fffff in
  let '(nWord, target) :=
    if nSize <=? 3 then let w := Z.shiftr nWord (8 * (3 - nSize)) in (w, of_u64 w)
    else (nWord, shl (of_u64 nWord) (8 * (nSize - 3))) in
  let negative := negb (nWord =? 0) && negb (Z.land cbits 0x00800000 =? 0) in
  let overflow := negb (nWord =? 0) &&
    ((34 <? nSize) || ((0xff <? nWord) && (33 <? nSize)) || ((0xffff <? nWord) && (32 <? nSize))) in
  (target, negative, overflow).

Definition toBits (negative : bool) a : result Z :=
  let nSize := (bits a + 7) / 8 in
  let nCompact :=
    if nSize <=? 3 then u32 (Z.shiftl (u32 (getLow64 a)) (8 * (3 - nSize)))
    else u32 (getLow64 (shr a (8 * (nSize - 3)))) in
  let '(nCompact, nSize) :=
    if negb (Z.land nCompact 0x00800000 =? 0) then (Z.shiftr nCompact 8, nSize + 1) else (nCompact, nSize) in
  vassert (Z.land nCompact (u32 (Z.lnot 0x007fffff)) =? 0) "(nCompact & ~0x007fffff) == 0";;
  vassert (nSize <? 256) "nSize < 256";;
  let nCompact := Z.lor nCompact (Z.shiftl nSize 24) in
  Ok (Z.lor nCompact (if negative && negb (Z.land nCompact 0x007fffff =? 0) then 0x00800000 else 0)).

(** ** Decimal strings: characters as numbers *)
Fixpoint toString_loop (fuel : nat) (tmp : list Z) (out : list Z) : result (list Z) :=
  match fuel with
  | O => OutOfFuel
  | S fuel =>
    tmpNext ← div tmp (of_u64 10);
    let decimal := sub tmp (mul32 tmpNext 10) in
    let out := out ++ [u8 (getLow64 decimal + 48)] in
    if compareTo tmpNext (of_u64 0) <=? 0 then Ok out else toString_loop fuel tmpNext out
  end.
Definition toString a : result (list Z) := out ← toString_loop 78 a []; Ok (rev out).

(** [tmp += (sym - '0')]: the difference is converted to [uint64_t]. *)
Definition fromString (num : list Z) : list Z :=
  foldl (λ tmp sym, add (mul32 tmp 10) (of_u64 (u64 (sym - 48)))) (of_u64 0) num.

(** ** Hexadecimal strings: the most significant byte first *)
Definition toHex a : list Z := HexStr (rev a).
Definition setHex (value : list Z) a : result (list Z) :=
  let bytes := ParseHex value in
  if (32 <? length bytes)%nat then Throw "length of the number is more than 32 bytes"
  else Ok (rev bytes ++ drop (length bytes) a).
Definition fromHex (hex : list Z) : result (list Z) := setHex hex zero.

(** ** What the operators compute *)
Definition modulus : Z := 2 ^ 256.
Definition valid a : Prop := bytes_ok a ∧ length a = 32%nat.

Lemma le_Z_range a : bytes_ok a → 0 <= le_Z a < 256 ^ Z.of_nat (length a).
Proof.
  induction 1 as [|x a Hx Ha IH]; cbn [le_Z length]; [lia|]. unfold byte_ok in Hx.
  rewrite Nat2Z.inj_succ, Z.pow_succ_r by lia. lia.
Qed.

Lemma value_range a : valid a → 0 <= le_Z a < modulus.
Proof. intros [Ha Hl]. pose proof (le_Z_range a Ha) as Hr. rewrite Hl in Hr. exact Hr. Qed.

Lemma le_Z_app a b : le_Z (a ++ b) = le_Z a + 256 ^ Z.of_nat (length a) * le_Z b.
Proof.
  induction a as [|x a IH]; cbn [le_Z length app]; [lia|]. rewrite IH, Nat2Z.inj_succ, Z.pow_succ_r by lia. ring.
Qed.

Lemma le_Z_repeat_0 n : le_Z (repeat 0 n) = 0.
Proof. induction n as [|n IH]; cbn [le_Z repeat]; lia. Qed.

Lemma le_Z_inj a b : bytes_ok a → bytes_ok b → length a = length b → le_Z a = le_Z b → a = b.
Proof.
  intros Ha. revert b. induction Ha as [|x a Hx Ha IH]; intros [|y b] Hb Hl E; try done.
  inversion Hb as [|? ? Hy Hb']; subst. cbn [le_Z] in E. unfold byte_ok in *.
  injection Hl as Hl. assert (x = y) as -> by lia. f_equal. apply IH; [done|done|lia].
Qed.

(** One byte of a sum with a carry. *)
Lemma carry_step n m p : 0 <= n → 0 < p →
  Z.land n 0xff + 256 * ((Z.shiftr n 8 + m) mod p) = (n + 256 * m) mod (256 * p).
Proof.
  intros Hn Hp. change 0xff with (Z.ones 8). rewrite Z.land_ones, Z.shiftr_div_pow2 by lia. change (2 ^ 8) with 256.
  rewrite Z.rem_mul_r by lia. by rewrite (Z.mul_comm 256 m), Z_mod_plus_full, Z.div_add by lia.
Qed.

Lemma land_byte n : 0 <= Z.land n 0xff < 256.
Proof. change 0xff with (Z.ones 8). rewrite Z.land_ones by lia. apply Z.mod_pos_bound. lia. Qed.

Lemma mod_succ n : 256 ^ Z.of_nat (S n) = 256 * 256 ^ Z.of_nat n.
Proof. rewrite Nat2Z.inj_succ, Z.pow_succ_r by lia. done. Qed.

Lemma pow_pos n : 0 < 256 ^ Z.of_nat n.
Proof. apply Z.pow_pos_nonneg; lia. Qed.

Lemma shiftr_byte n c : 0 <= n < 256 * c → 0 <= Z.shiftr n 8 < c.
Proof.
  intros Hn. rewrite Z.shiftr_div_pow2 by lia. change (2 ^ 8) with 256. split; [apply Z.div_pos; lia|].
  apply Z.div_lt_upper_bound; lia.
Qed.

(** *** Addition and negation *)
Lemma add_loop_ok a b c : bytes_ok a → bytes_ok b → length a = length b → 0 <= c < 2 →
  bytes_ok (add_loop c a b) ∧ length (add_loop c a b) = length a ∧
  le_Z (add_loop c a b) = (c + le_Z a + le_Z b) mod 256 ^ Z.of_nat (length a).
Proof.
  intros Ha. revert b c. induction Ha as [|x a Hx Ha IH]; intros [|y b] c Hb Hl Hc; try done.
  { cbn. by rewrite Z.mod_1_r. }
  inversion Hb as [|? ? Hy Hb']; subst. unfold byte_ok in Hx, Hy. injection Hl as Hl. cbn [add_loop].
  rewrite (wrapU_small 64) by lia. set (n := c + x + y).
  destruct (IH b (Z.shiftr n 8) Hb' Hl) as (Hok & Hlen & Hv); [apply shiftr_byte; unfold n; lia|].
  split; [constructor; [apply land_byte|done]|]. split; [cbn; lia|].
  cbn [le_Z length]. rewrite Hv, <- Z.add_assoc, carry_step, mod_succ by (apply pow_pos || (unfold n; lia)).
  f_equal. unfold n. lia.
Qed.

Lemma add_ok a b : valid a → valid b → valid (add a b) ∧ le_Z (add a b) = (le_Z a + le_Z b) mod modulus.
Proof.
  intros [Ha Hla] [Hb Hlb]. destruct (add_loop_ok a b 0 Ha Hb) as (? & Hl & Hv); [lia|lia|].
  unfold add. rewrite Hv, Hla. split; [split; [done|lia]|done].
Qed.

Lemma byte_not d : byte_ok d → u8 (Z.lnot d) = 255 - d.
Proof.
  unfold byte_ok, wrapU. intros Hd. change (2 ^ 8) with 256. unfold Z.lnot.
  symmetry. apply (Z.mod_unique _ _ (-1)); lia.
Qed.

Lemma bit_not_ok a : bytes_ok a → bytes_ok (bit_not a) ∧ length (bit_not a) = length a ∧
  le_Z (bit_not a) = 256 ^ Z.of_nat (length a) - 1 - le_Z a.
Proof.
  induction 1 as [|x a Hx Ha (IH1 & IH2 & IH3)]; [done|]. cbn [bit_not map le_Z length] in *.
  rewrite byte_not by done. fold (bit_not a) in *. unfold byte_ok in Hx. split; [constructor; [unfold byte_ok; lia|done]|].
  split; [by rewrite IH2|]. rewrite IH3, mod_succ. lia.
Qed.

Lemma incr_ok a : bytes_ok a → bytes_ok (incr a) ∧ length (incr a) = length a ∧
  le_Z (incr a) = (le_Z a + 1) mod 256 ^ Z.of_nat (length a).
Proof.
  induction 1 as [|x a Hx Ha (IH1 & IH2 & IH3)]; [done|]. cbn [incr]. unfold byte_ok in Hx. pose proof (le_Z_range a Ha).
  unfold wrapU. change (2 ^ 8) with 256. destruct (Z.eq_dec x 255) as [->|].
  - cbn [Z.add Pos.add Z.modulo Z.eqb]. change ((255 + 1) mod 256 =? 0) with true. cbn match.
    split; [by constructor|]. split; [cbn; lia|]. cbn [le_Z length]. rewrite IH3, mod_succ.
    replace (255 + 256 * le_Z a + 1) with (256 * (le_Z a + 1)) by lia.
    rewrite Zmult_mod_distr_l. change ((255 + 1) mod 256) with 0. lia.
  - rewrite Z.mod_small by lia. destruct (Z.eqb_spec (x + 1) 0); [lia|].
    split; [constructor; [unfold byte_ok; lia|done]|]. split; [done|]. cbn [le_Z length]. rewrite mod_succ, Z.mod_small; lia.
Qed.

Lemma neg_ok a : valid a → valid (neg a) ∧ le_Z (neg a) = (- le_Z a) mod modulus.
Proof.
  intros [Ha Hl]. destruct (bit_not_ok a Ha) as (Hn & Hln & Hv). destruct (incr_ok _ Hn) as (Hi & Hli & Hvi).
  unfold neg. split; [split; [done|lia]|]. rewrite Hvi, Hv, Hln, Hl. change (256 ^ Z.of_nat 32) with modulus.
  replace (modulus - 1 - le_Z a + 1) with (- le_Z a + 1 * modulus) by lia. apply Z_mod_plus_full.
Qed.

Lemma sub_ok a b : valid a → valid b → valid (sub a b) ∧ le_Z (sub a b) = (le_Z a - le_Z b) mod modulus.
Proof.
  intros Ha Hb. destruct (neg_ok b Hb) as [Hn Hv]. destruct (add_ok a _ Ha Hn) as [Hs Hvs].
  split; [done|]. unfold sub. rewrite Hvs, Hv, Zplus_mod_idemp_r. done.
Qed.

(** *** Multiplication *)
Lemma mul32_loop_ok (b32 : Z) a (c : Z) : bytes_ok a → 0 <= b32 < 2 ^ 32 → 0 <= c < 2 ^ 32 →
  bytes_ok (mul32_loop b32 c a) ∧ length (mul32_loop b32 c a) = length a ∧
  le_Z (mul32_loop b32 c a) = (c + b32 * le_Z a) mod 256 ^ Z.of_nat (length a).
Proof.
  intros Ha Hb. revert c. induction Ha as [|x a Hx Ha IH]; intros c Hc.
  { cbn. by rewrite Z.mod_1_r. }
  cbn [mul32_loop]. unfold byte_ok in Hx.
  assert (0 <= b32 * x <= (2 ^ 32 - 1) * 255) as Hbx by nia.
  rewrite (wrapU_small 64 (b32 * x)), wrapU_small by lia. set (n := c + b32 * x).
  destruct (IH (Z.shiftr n 8)) as (Hok & Hlen & Hv); [apply shiftr_byte; unfold n; lia|].
  split; [constructor; [apply land_byte|done]|]. split; [cbn; lia|].
  cbn [le_Z length]. rewrite Hv, carry_step, mod_succ by (apply pow_pos || (unfold n; lia)).
  f_equal. unfold n. lia.
Qed.

Lemma mul32_ok a (b32 : Z) : valid a → 0 <= b32 < 2 ^ 32 →
  valid (mul32 a b32) ∧ le_Z (mul32 a b32) = (le_Z a * b32) mod modulus.
Proof.
  intros [Ha Hl] Hb. destruct (mul32_loop_ok b32 a 0 Ha Hb) as (? & Hlm & Hv); [lia|].
  unfold mul32. rewrite Hv, Hl. split; [split; [done|lia]|]. f_equal. lia.
Qed.

Lemma mul_row_ok d b a c : bytes_ok a → bytes_ok b → byte_ok d → 0 <= c < 256 → (length a ≤ length b)%nat →
  bytes_ok (mul_row c d b a) ∧ length (mul_row c d b a) = length a ∧
  le_Z (mul_row c d b a) = (c + le_Z a + d * le_Z b) mod 256 ^ Z.of_nat (length a).
Proof.
  intros Ha Hb Hd. revert b c Hb. induction Ha as [|x a Hx Ha IH]; intros [|y b] c Hb Hc Hl; try (cbn in Hl; lia).
  1,2: cbn; by rewrite Z.mod_1_r.
  inversion Hb as [|? ? Hy Hb']; subst. unfold byte_ok in Hx, Hy, Hd. cbn [length] in Hl. cbn [mul_row].
  assert (0 <= d * y <= 255 * 255) as Hdy by nia.
  rewrite (wrapU_small 64 (d * y)), wrapU_small by lia. set (n := c + x + d * y).
  destruct (IH b (Z.shiftr n 8) Hb') as (Hok & Hlen & Hv); [apply shiftr_byte; unfold n; lia|lia|].
  split; [constructor; [apply land_byte|done]|]. split; [cbn; lia|].
  cbn [le_Z length]. rewrite Hv, <- Z.add_assoc, carry_step, mod_succ by (apply pow_pos || (unfold n; lia)).
  f_equal. unfold n. lia.
Qed.

Lemma le_Z_take_drop j a : (j <= length a)%nat → le_Z a = le_Z (take j a) + 256 ^ Z.of_nat j * le_Z (drop j a).
Proof.
  intros Hj. rewrite <- (take_drop j a) at 1. rewrite le_Z_app, length_take. by replace (j `min` length a)%nat with j by lia.
Qed.

Lemma nth_byte a i : bytes_ok a → byte_ok (nth i a 0).
Proof.
  intros Ha. destruct (nth_in_or_default i a 0) as [Hin| ->]; [|unfold byte_ok; lia].
  rewrite Forall_forall in Ha. apply Ha. by apply list_elem_of_In.
Qed.

Lemma mul_step_ok d b a j : valid d → valid b → valid a → (j < 32)%nat → valid (mul_step d b a j) ∧
  le_Z (mul_step d b a j) = (le_Z a + 256 ^ Z.of_nat j * nth j d 0 * le_Z b) mod modulus.
Proof.
  intros [Hd _] [Hb Hlb] [Ha Hl] Hj. unfold mul_step.
  destruct (mul_row_ok (nth j d 0) b (drop j a) 0) as (Hok & Hlen & Hv).
  { by apply Forall_drop. } { done. } { by apply nth_byte. } { lia. } { rewrite length_drop. lia. }
  rewrite length_drop, Hl in Hlen, Hv. split; [split|].
  - apply Forall_app. split; [by apply Forall_take|done].
  - rewrite length_app, length_take, Hlen. lia.
  - rewrite le_Z_app, Hv, length_take. replace (j `min` length a)%nat with j by lia.
    replace modulus with (256 ^ Z.of_nat j * 256 ^ Z.of_nat (32 - j))
      by (rewrite <- Z.pow_add_r by lia; unfold modulus; change (2 ^ 256) with (256 ^ 32); f_equal; lia).
    pose proof (le_Z_range _ (Forall_take _ j a Ha)) as Hr. rewrite length_take in Hr.
    replace (j `min` length a)%nat with j in Hr by lia. pose proof (pow_pos j). pose proof (pow_pos (32 - j)).
    rewrite (le_Z_take_drop j a) by lia.
    rewrite Z.rem_mul_r by lia.
    replace (le_Z (take j a) + 256 ^ Z.of_nat j * le_Z (drop j a) + 256 ^ Z.of_nat j * nth j d 0 * le_Z b)
      with (le_Z (take j a) + (0 + le_Z (drop j a) + nth j d 0 * le_Z b) * 256 ^ Z.of_nat j) by ring.
    rewrite Z_mod_plus_full, Z.div_add, (Z.mod_small (le_Z _)), (Z.div_small (le_Z _)) by lia. done.
Qed.

Lemma bytes_repeat_0 n : bytes_ok (repeat 0 n).
Proof. induction n; constructor; [unfold byte_ok; lia|done]. Qed.

Lemma zero_ok : valid zero ∧ le_Z zero = 0.
Proof. split; [|done]. split; [|done]. apply bytes_repeat_0. Qed.

Lemma foldl_seq_S {A} (f : A → nat → A) x n : foldl f x (seq 0 (S n)) = f (foldl f x (seq 0 n)) n.
Proof. by rewrite seq_S, foldl_snoc. Qed.

Lemma take_S_nth n a : (n < length a)%nat → take (S n) a = take n a ++ [nth n a 0].
Proof.
  intros Hn. destruct (lookup_lt_is_Some_2 a n Hn) as [x Hx]. rewrite (take_S_r _ _ x) by done.
  by rewrite (nth_lookup_Some _ _ _ _ Hx).
Qed.

Lemma mul_ok a b : valid a → valid b → valid (mul a b) ∧ le_Z (mul a b) = (le_Z a * le_Z b) mod modulus.
Proof.
  intros Ha Hb.
  assert (∀ n, (n <= 32)%nat → valid (foldl (mul_step a b) zero (seq 0 n)) ∧
    le_Z (foldl (mul_step a b) zero (seq 0 n)) = (le_Z (take n a) * le_Z b) mod modulus) as Hall.
  { induction n as [|n IH]; intros Hn; [apply zero_ok|]. destruct IH as [IHv IHe]; [lia|].
    rewrite foldl_seq_S. destruct (mul_step_ok a b _ n Ha Hb IHv) as [Hv He]; [lia|]. split; [done|].
    destruct Ha as [_ Hl]. rewrite He, IHe, Zplus_mod_idemp_l, take_S_nth, le_Z_app, length_take by lia.
    replace (n `min` length a)%nat with n by lia. cbn [le_Z]. f_equal. ring. }
  destruct (Hall 32%nat) as [Hv He]; [lia|]. split; [done|]. unfold mul. rewrite He.
  rewrite take_ge; [done|]. destruct Ha as [_ ->]. lia.
Qed.

(** *** Shifts, bit by bit *)
Lemma byte_high d t : byte_ok d → 8 <= t → Z.testbit d t = false.
Proof.
  intros Hd Ht. unfold byte_ok in Hd. destruct (Z.eq_dec d 0) as [->|]; [apply Z.testbit_0_l|].
  apply Z.bits_above_log2; [lia|]. apply Z.log2_lt_pow2; [lia|].
  assert (2 ^ 8 <= 2 ^ t) by (apply Z.pow_le_mono_r; lia). lia.
Qed.

Lemma le_Z_testbit a q : bytes_ok a → 0 <= q → Z.testbit (le_Z a) q = Z.testbit (nth (Z.to_nat (q / 8)) a 0) (q mod 8).
Proof.
  intros Ha. revert q. induction Ha as [|x a Hx Ha IH]; intros q Hq; cbn [le_Z].
  { rewrite Z.testbit_0_l. destruct (Z.to_nat (q / 8)); by rewrite Z.testbit_0_l. }
  unfold byte_ok in Hx. destruct (Z.lt_ge_cases q 8).
  - rewrite Z.div_small, Z.mod_small by lia. cbn [nth Z.to_nat].
    rewrite <- (Z.mod_pow2_bits_low _ 8) by lia. change (2 ^ 8) with 256.
    by rewrite (Z.mul_comm 256), Z_mod_plus_full, Z.mod_small by lia.
  - replace q with (q - 8 + 8) at 1 by lia. rewrite <- Z.div_pow2_bits by lia. change (2 ^ 8) with 256.
    rewrite (Z.mul_comm 256), Z.div_add, Z.div_small by lia. rewrite Z.add_0_l, IH by lia.
    replace (q / 8) with ((q - 8) / 8 + 1) by (rewrite <- Z.div_add by lia; f_equal; lia).
    rewrite Z.add_1_r, Z2Nat.inj_succ by (apply Z.div_pos; lia). cbn [nth]. f_equal.
    rewrite <- (Z_mod_plus_full (q - 8) 1 8). f_equal. lia.
Qed.

Lemma nth_alter f i j a : (j < length a)%nat → nth i (alter f j a) 0 = if decide (i = j) then f (nth i a 0) else nth i a 0.
Proof.
  intros Hj. rewrite !nth_lookup. destruct (decide (i = j)) as [->|].
  - rewrite list_lookup_alter_eq. destruct (lookup_lt_is_Some_2 a j Hj) as [x ->]. done.
  - by rewrite list_lookup_alter_ne.
Qed.

Lemma byte_lor x y : byte_ok x → byte_ok y → byte_ok (Z.lor x y).
Proof.
  unfold byte_ok. intros Hx Hy. split; [apply Z.lor_nonneg; lia|].
  destruct (Z.eq_dec (Z.lor x y) 0) as [->|Hne]; [lia|]. apply (Z.log2_lt_pow2 _ 8); [assert (0 <= Z.lor x y) by (apply Z.lor_nonneg; lia); lia|].
  rewrite Z.log2_lor by lia. apply Z.max_lub_lt.
  - destruct (Z.eq_dec x 0) as [->|]; [done|]. apply Z.log2_lt_pow2; lia.
  - destruct (Z.eq_dec y 0) as [->|]; [done|]. apply Z.log2_lt_pow2; lia.
Qed.

Lemma or_at_ok p c a : valid a → (p < 32)%nat → byte_ok c → valid (or_at p c a) ∧
  ∀ q, 0 <= q → Z.testbit (le_Z (or_at p c a)) q =
    Z.testbit (le_Z a) q || (q / 8 =? Z.of_nat p) && Z.testbit c (q mod 8).
Proof.
  intros [Ha Hl] Hp Hc. unfold or_at.
  assert (valid (alter (λ x, Z.lor x c) p a)) as Hv.
  { split; [|by rewrite length_alter]. apply Forall_alter; [done|]. intros x _ Hx. by apply byte_lor. }
  split; [done|]. intros q Hq. destruct Hv as [Hv _]. rewrite !le_Z_testbit by done.
  rewrite nth_alter by lia. pose proof (Z.div_pos q 8). destruct (decide (Z.to_nat (q / 8) = p)) as [E|E].
  - rewrite Z.lor_spec. destruct (Z.eqb_spec (q / 8) (Z.of_nat p)); [done|lia].
  - destruct (Z.eqb_spec (q / 8) (Z.of_nat p)); [lia|]. by rewrite orb_false_r.
Qed.

Lemma nth_take i n a : nth i (take n a) 0 = if (i <? n)%nat then nth i a 0 else 0.
Proof.
  rewrite !nth_lookup. destruct (Nat.ltb_spec i n); [by rewrite lookup_take_lt|by rewrite lookup_take_ge].
Qed.

Lemma take_testbit a n r : bytes_ok a → 0 <= r → Z.testbit (le_Z (take (S n) a)) r =
  Z.testbit (le_Z (take n a)) r || (r / 8 =? Z.of_nat n) && Z.testbit (nth n a 0) (r mod 8).
Proof.
  intros Ha Hr. rewrite !le_Z_testbit, !nth_take by (done || by apply Forall_take). pose proof (Z.div_pos r 8).
  destruct (Z.eqb_spec (r / 8) (Z.of_nat n)) as [E|E]; cbn [andb].
  - rewrite E, Nat2Z.id. destruct (Nat.ltb_spec n (S n)); [|lia]. destruct (Nat.ltb_spec n n); [lia|]. by rewrite Z.testbit_0_l.
  - rewrite orb_false_r. destruct (Nat.ltb_spec (Z.to_nat (r / 8)) (S n)), (Nat.ltb_spec (Z.to_nat (r / 8)) n); lia || done.
Qed.

Lemma byte_shiftr d t : byte_ok d → 0 <= t → byte_ok (Z.shiftr d t).
Proof.
  unfold byte_ok. intros Hd Ht. rewrite Z.shiftr_div_pow2 by lia. pose proof (Z.pow_pos_nonneg 2 t).
  split; [apply Z.div_pos; lia|]. apply Z.div_lt_upper_bound; nia.
Qed.
Lemma byte_u8 z : byte_ok (u8 z).
Proof. unfold byte_ok. pose proof (wrapU_range 8 z). lia. Qed.
Lemma u8_testbit z t : 0 <= t < 8 → Z.testbit (u8 z) t = Z.testbit z t.
Proof. intros Ht. unfold wrapU. apply Z.mod_pow2_bits_low. lia. Qed.

(** An optional contribution of a byte. *)
Lemma or_if_ok (b : bool) p c a : valid a → (b = true → (p < 32)%nat) → byte_ok c →
  let a' := if b then or_at p c a else a in valid a' ∧
  ∀ q, 0 <= q → Z.testbit (le_Z a') q = Z.testbit (le_Z a) q || b && (q / 8 =? Z.of_nat p) && Z.testbit c (q mod 8).
Proof.
  intros Ha Hp Hc a'. destruct b; subst a'; cbn [andb].
  - apply or_at_ok; [done|by apply Hp|done].
  - split; [done|]. intros q _. by rewrite orb_false_r.
Qed.

Lemma mod8 q : 0 <= q → q = 8 * (q / 8) + q mod 8 ∧ 0 <= q mod 8 < 8 ∧ 0 <= q / 8.
Proof. intros Hq. pose proof (Z.div_mod q 8). pose proof (Z.mod_pos_bound q 8). pose proof (Z.div_pos q 8). lia. Qed.
Lemma divmod8 p t : 0 <= t < 8 → (8 * p + t) / 8 = p ∧ (8 * p + t) mod 8 = t.
Proof.
  intros Ht. rewrite Z.mul_comm. split; [rewrite Z.div_add_l, Z.div_small by lia; lia|].
  rewrite Z.add_comm, Z_mod_plus_full, Z.mod_small by lia. lia.
Qed.

Lemma shl_step_ok k sh a data n : valid a → valid data → 0 <= sh < 8 → (n < 32)%nat →
  (∀ q, 0 <= q < 256 → Z.testbit (le_Z data) q = Z.testbit (le_Z (take n a)) (q - (8 * Z.of_nat k + sh))) →
  valid (shl_step k sh a data n) ∧
  ∀ q, 0 <= q < 256 → Z.testbit (le_Z (shl_step k sh a data n)) q = Z.testbit (le_Z (take (S n) a)) (q - (8 * Z.of_nat k + sh)).
Proof.
  intros [Ha _] Hd Hs Hn Hbits. pose proof (nth_byte a n Ha) as Hb. unfold shl_step.
  destruct (or_if_ok ((n + k + 1 <? 32)%nat && negb (sh =? 0)) (n + k + 1) (Z.shiftr (nth n a 0) (8 - sh)) data)
    as [Hv1 Hb1]; [done|intros E; apply andb_true_iff in E as [E _]; by apply Nat.ltb_lt in E|apply byte_shiftr; [done|lia]|].
  destruct (or_if_ok (n + k <? 32)%nat (n + k) (u8 (Z.shiftl (nth n a 0) sh)) _ Hv1)
    as [Hv2 Hb2]; [intros E; by apply Nat.ltb_lt in E|apply byte_u8|].
  split; [done|]. intros q Hq. rewrite Hb2, Hb1, Hbits by lia. clear Hb1 Hb2 Hv1 Hv2.
  destruct (mod8 q) as (Eq & Ht & Hp); [lia|]. set (p := q / 8) in *. set (t := q mod 8) in *.
  rewrite Z.shiftr_spec, u8_testbit, Z.shiftl_spec by lia.
  set (r := q - (8 * Z.of_nat k + sh)). destruct (Z.lt_ge_cases r 0) as [Hr|Hr].
  - rewrite !(Z.testbit_neg_r _ r) by done. cbn [orb].
    destruct (Z.eqb_spec p (Z.of_nat (n + k + 1))); [lia|]. rewrite andb_false_r. cbn [orb andb].
    destruct (Z.eqb_spec p (Z.of_nat (n + k))); [|by rewrite andb_false_r]. rewrite (Z.testbit_neg_r _ (t - sh)) by lia. by rewrite andb_false_r.
  - rewrite take_testbit by done. rewrite <- orb_assoc. f_equal. destruct (Z.lt_ge_cases t sh).
    + rewrite (Z.testbit_neg_r _ (t - sh)), andb_false_r, orb_false_r by lia.
      destruct (divmod8 (p - Z.of_nat k - 1) (t - sh + 8)) as [E1 E2]; [lia|].
      replace r with (8 * (p - Z.of_nat k - 1) + (t - sh + 8)) by lia. rewrite E1, E2.
      destruct (Z.eqb_spec sh 0); [lia|]. cbn [negb]. rewrite andb_true_r.
      destruct (Nat.ltb_spec (n + k + 1) 32), (Z.eqb_spec p (Z.of_nat (n + k + 1))), (Z.eqb_spec (p - Z.of_nat k - 1) (Z.of_nat n)); try lia; cbn [andb]; try done.
      f_equal. lia.
    + rewrite (byte_high _ (t + (8 - sh))), andb_false_r by (done || lia). cbn [orb].
      destruct (divmod8 (p - Z.of_nat k) (t - sh)) as [E1 E2]; [lia|].
      replace r with (8 * (p - Z.of_nat k) + (t - sh)) by lia. rewrite E1, E2.
      destruct (Nat.ltb_spec (n + k) 32), (Z.eqb_spec p (Z.of_nat (n + k))), (Z.eqb_spec (p - Z.of_nat k) (Z.of_nat n)); try lia; done.
Qed.

Lemma shr_step_ok k sh a data n : valid a → valid data → 0 <= sh < 8 → (n < 32)%nat →
  (∀ q, 0 <= q < 256 → Z.testbit (le_Z data) q = Z.testbit (le_Z (take n a)) (q + (8 * Z.of_nat k + sh))) →
  valid (shr_step k sh a data n) ∧
  ∀ q, 0 <= q < 256 → Z.testbit (le_Z (shr_step k sh a data n)) q = Z.testbit (le_Z (take (S n) a)) (q + (8 * Z.of_nat k + sh)).
Proof.
  intros [Ha _] Hd Hs Hn Hbits. pose proof (nth_byte a n Ha) as Hb. unfold shr_step.
  destruct (or_if_ok ((k + 1 <=? n)%nat && negb (sh =? 0)) (n - k - 1) (u8 (Z.shiftl (nth n a 0) (8 - sh))) data)
    as [Hv1 Hb1]; [done|lia|apply byte_u8|].
  destruct (or_if_ok (k <=? n)%nat (n - k) (Z.shiftr (nth n a 0) sh) _ Hv1)
    as [Hv2 Hb2]; [lia|apply byte_shiftr; [done|lia]|].
  split; [done|]. intros q Hq. rewrite Hb2, Hb1, Hbits by lia. clear Hb1 Hb2 Hv1 Hv2.
  destruct (mod8 q) as (Eq & Ht & Hp); [lia|]. set (p := q / 8) in *. set (t := q mod 8) in *.
  rewrite Z.shiftr_spec, u8_testbit, Z.shiftl_spec by lia.
  rewrite take_testbit, <- orb_assoc by (done || lia). f_equal. destruct (Z.lt_ge_cases (t + sh) 8).
  - rewrite (Z.testbit_neg_r _ (t - (8 - sh))), andb_false_r by lia. cbn [orb].
    destruct (divmod8 (p + Z.of_nat k) (t + sh)) as [E1 E2]; [lia|].
    replace (q + (8 * Z.of_nat k + sh)) with (8 * (p + Z.of_nat k) + (t + sh)) by lia. rewrite E1, E2.
    destruct (Nat.leb_spec k n), (Z.eqb_spec p (Z.of_nat (n - k))), (Z.eqb_spec (p + Z.of_nat k) (Z.of_nat n)); try lia; done.
  - rewrite (byte_high _ (t + sh)), andb_false_r, orb_false_r by (done || lia).
    destruct (divmod8 (p + Z.of_nat k + 1) (t + sh - 8)) as [E1 E2]; [lia|].
    replace (q + (8 * Z.of_nat k + sh)) with (8 * (p + Z.of_nat k + 1) + (t + sh - 8)) by lia. rewrite E1, E2.
    destruct (Z.eqb_spec sh 0); [lia|]. cbn [negb]. rewrite andb_true_r.
    destruct (Nat.leb_spec (k + 1) n), (Z.eqb_spec p (Z.of_nat (n - k - 1))), (Z.eqb_spec (p + Z.of_nat k + 1) (Z.of_nat n)); try lia; cbn [andb]; try done.
    f_equal. lia.
Qed.

(** The loop over the 32 bytes of a shift. *)
Lemma shift_loop_ok (step : list Z → nat → list Z) a (f : Z → Z) : valid a →
  (∀ data n, valid data → (n < 32)%nat →
    (∀ q, 0 <= q < 256 → Z.testbit (le_Z data) q = Z.testbit (le_Z (take n a)) (f q)) →
    valid (step data n) ∧ ∀ q, 0 <= q < 256 → Z.testbit (le_Z (step data n)) q = Z.testbit (le_Z (take (S n) a)) (f q)) →
  valid (foldl step zero (seq 0 32)) ∧
  ∀ q, 0 <= q < 256 → Z.testbit (le_Z (foldl step zero (seq 0 32))) q = Z.testbit (le_Z a) (f q).
Proof.
  intros Ha Hstep.
  assert (∀ n, (n <= 32)%nat → valid (foldl step zero (seq 0 n)) ∧
    ∀ q, 0 <= q < 256 → Z.testbit (le_Z (foldl step zero (seq 0 n))) q = Z.testbit (le_Z (take n a)) (f q)) as Hall.
  { induction n as [|n IH]; intros Hn.
    - destruct zero_ok as [Hz Ez]. split; [done|]. intros q _. change (foldl step zero (seq 0 0)) with zero.
      rewrite Ez. cbn [take le_Z]. by rewrite !Z.testbit_0_l.
    - rewrite foldl_seq_S. destruct IH; [lia|]. by apply Hstep. }
  destruct (Hall 32%nat) as [Hv Hb]; [lia|]. split; [done|]. intros q Hq. rewrite Hb by done.
  rewrite take_ge; [done|]. destruct Ha as [_ ->]. lia.
Qed.

(** Values below 2^256 are determined by 256 bits. *)
Lemma value_bits a z : valid a → (∀ q, 0 <= q < 256 → Z.testbit (le_Z a) q = Z.testbit z q) → le_Z a = z mod modulus.
Proof.
  intros Ha Hb. rewrite <- (Z.mod_small (le_Z a) modulus) by by apply value_range. unfold modulus.
  apply Z.bits_inj'. intros q Hq. destruct (Z.lt_ge_cases q 256).
  - rewrite !Z.mod_pow2_bits_low by lia. by apply Hb.
  - by rewrite !Z.mod_pow2_bits_high by lia.
Qed.

Lemma shift_parts s : 0 <= s → 8 * Z.of_nat (Z.to_nat (s / 8)) + s mod 8 = s ∧ 0 <= s mod 8 < 8.
Proof. intros Hs. destruct (mod8 s Hs) as (E & ? & ?). split; [|done]. rewrite Z2Nat.id by done. lia. Qed.

Lemma shl_ok a s : valid a → 0 <= s → valid (shl a s) ∧ le_Z (shl a s) = (le_Z a * 2 ^ s) mod modulus.
Proof.
  intros Ha Hs. destruct (shift_parts s Hs) as [E Hsh].
  destruct (shift_loop_ok (shl_step (Z.to_nat (s / 8)) (s mod 8) a) a (λ q, q - s) Ha) as [Hv Hb].
  { intros data n Hd Hn Hq. rewrite <- E in Hq. destruct (shl_step_ok _ _ a data n Ha Hd Hsh Hn Hq) as [Hv Hb]. by rewrite E in Hb. }
  split; [done|]. apply value_bits; [done|]. intros q Hq. unfold shl. rewrite Hb by done.
  rewrite <- Z.shiftl_mul_pow2, Z.shiftl_spec by lia. done.
Qed.

Lemma shr_ok a s : valid a → 0 <= s → valid (shr a s) ∧ le_Z (shr a s) = le_Z a / 2 ^ s.
Proof.
  intros Ha Hs. destruct (shift_parts s Hs) as [E Hsh].
  destruct (shift_loop_ok (shr_step (Z.to_nat (s / 8)) (s mod 8) a) a (λ q, q + s) Ha) as [Hv Hb].
  { intros data n Hd Hn Hq. rewrite <- E in Hq. destruct (shr_step_ok _ _ a data n Ha Hd Hsh Hn Hq) as [Hv Hb]. by rewrite E in Hb. }
  split; [done|]. pose proof (value_range a Ha) as Hr. pose proof (Z.pow_pos_nonneg 2 s).
  rewrite <- (Z.mod_small (le_Z a / 2 ^ s) modulus).
  - apply value_bits; [done|]. intros q Hq. unfold shr. by rewrite Hb, Z.div_pow2_bits by lia.
  - split; [apply Z.div_pos; lia|]. apply Z.div_lt_upper_bound; [lia|]. nia.
Qed.

(** *** Comparison and size *)
Lemma compareTo_ok a b : bytes_ok a → bytes_ok b → length a = length b →
  compareTo a b = if le_Z a <? le_Z b then -1 else if le_Z b <? le_Z a then 1 else 0.
Proof.
  unfold compareTo. revert b. induction a as [|x a IH] using rev_ind; intros b Ha Hb Hl.
  { destruct b; [done|cbn in Hl; lia]. }
  destruct b as [|y b _] using rev_ind; [rewrite length_app in Hl; cbn in Hl; lia|].
  apply Forall_app in Ha as [Ha Hx%Forall_inv]. apply Forall_app in Hb as [Hb Hy%Forall_inv].
  rewrite !length_app in Hl. cbn [length] in Hl. assert (length a = length b) as Hl' by lia.
  rewrite !rev_app_distr. cbn [rev app compare_rev]. rewrite IH, !le_Z_app, Hl' by done. cbn [le_Z].
  pose proof (le_Z_range a Ha). pose proof (le_Z_range b Hb) as Hrb. rewrite Hl' in *.
  pose proof (pow_pos (length b)). set (P := 256 ^ Z.of_nat (length b)) in *.
  destruct (Z.ltb_spec x y); [destruct (Z.ltb_spec (le_Z a + P * (x + 256 * 0)) (le_Z b + P * (y + 256 * 0))); [done|nia]|].
  destruct (Z.ltb_spec y x).
  { destruct (Z.ltb_spec (le_Z a + P * (x + 256 * 0)) (le_Z b + P * (y + 256 * 0))); [nia|].
    destruct (Z.ltb_spec (le_Z b + P * (y + 256 * 0)) (le_Z a + P * (x + 256 * 0))); [done|nia]. }
  assert (x = y) as -> by lia. bsplit.
Qed.

Lemma byte_bits_ok d : 1 <= d < 256 → byte_bits 7 d = Z.log2 d + 1.
Proof.
  intros Hd. assert (Forall (λ d, byte_bits 7 d = Z.log2 d + 1) (map Z.of_nat (seq 1 255))) as Hall.
  { apply (bool_decide_unpack _). by vm_compute. }
  rewrite Forall_forall in Hall. apply Hall. apply list_elem_of_In, in_map_iff. exists (Z.to_nat d).
  split; [lia|]. apply in_seq. lia.
Qed.

Lemma bits_ok a : bytes_ok a → bits a = if le_Z a =? 0 then 0 else Z.log2 (le_Z a) + 1.
Proof.
  unfold bits. induction a as [|x a IH] using rev_ind; intros Ha; [done|].
  apply Forall_app in Ha as [Ha Hx%Forall_inv]. rewrite rev_app_distr. cbn [rev app bits_rev].
  rewrite le_Z_app, IH, length_rev by done. cbn [le_Z]. unfold byte_ok in Hx. pose proof (le_Z_range a Ha) as Hr.
  pose proof (pow_pos (length a)) as Hp. destruct (Z.eqb_spec x 0) as [->|Hx0]; cbn [negb].
  { by replace (le_Z a + 256 ^ Z.of_nat (length a) * (0 + 256 * 0)) with (le_Z a) by lia. }
  rewrite byte_bits_ok by lia. destruct (Z.eqb_spec (le_Z a + 256 ^ Z.of_nat (length a) * (x + 256 * 0)) 0); [nia|].
  rewrite Z.add_assoc. f_equal. symmetry. apply Z.log2_unique; [pose proof (Z.log2_nonneg x); lia|].
  destruct (Z.log2_spec x) as [L1 L2]; [lia|]. rewrite <- Z.add_succ_r, !Z.pow_add_r by (pose proof (Z.log2_nonneg x); lia).
  replace (2 ^ (8 * Z.of_nat (length a))) with (256 ^ Z.of_nat (length a)) by (by rewrite Z.pow_mul_r by lia).
  set (P := 256 ^ Z.of_nat (length a)) in *. split; [nia|]. assert (x + 1 <= 2 ^ Z.succ (Z.log2 x)) by lia. nia.
Qed.

Lemma of_u64_ok v : 0 <= v < 2 ^ 64 → valid (of_u64 v) ∧ le_Z (of_u64 v) = v.
Proof.
  intros Hv. assert (of_u64 v = le_bytes v 0 8 ++ repeat 0 24) as ->.
  { unfold of_u64. f_equal. cbn [map le_bytes]. rewrite !land_255. done. }
  assert (valid (le_bytes v 0 8 ++ repeat 0 24)) as Hok.
  { split; [|done]. apply Forall_app. split; [apply le_bytes_ok|apply bytes_repeat_0]. }
  split; [done|]. rewrite le_Z_app, le_Z_repeat_0. change 0 with (8 * Z.of_nat 0) at 1. rewrite le_Z_bytes.
  rewrite Z.mul_0_r, Z.add_0_r. change (256 ^ Z.of_nat 0) with 1. rewrite Z.div_1_r. by apply Z.mod_small.
Qed.

(** *** Division *)
Lemma set_bit_ok a s m : valid a → 0 <= s < 256 → le_Z a = m * 2 ^ (s + 1) →
  valid (or_at (Z.to_nat (s / 8)) (Z.shiftl 1 (Z.land s 7)) a) ∧
  le_Z (or_at (Z.to_nat (s / 8)) (Z.shiftl 1 (Z.land s 7)) a) = m * 2 ^ (s + 1) + 2 ^ s.
Proof.
  intros Ha Hs Hv. destruct (mod8 s) as (Es & Ht & Hp); [lia|].
  change 7 with (Z.ones 3). rewrite Z.land_ones by lia. change (2 ^ 3) with 8.
  assert (byte_ok (Z.shiftl 1 (s mod 8))) as Hb.
  { unfold byte_ok. rewrite Z.shiftl_mul_pow2, Z.mul_1_l by lia. pose proof (Z.pow_pos_nonneg 2 (s mod 8)).
    assert (2 ^ (s mod 8) <= 2 ^ 7) by (apply Z.pow_le_mono_r; lia). lia. }
  destruct (or_at_ok (Z.to_nat (s / 8)) _ a Ha ltac:(lia) Hb) as [Hok Hbits]. split; [done|].
  pose proof (value_range a Ha) as Hr. pose proof (Z.pow_pos_nonneg 2 s).
  assert (modulus = 2 ^ (s + 1) * 2 ^ (255 - s)) as Em
    by (rewrite <- Z.pow_add_r by lia; unfold modulus; f_equal; lia).
  assert (2 ^ (s + 1) = 2 * 2 ^ s) as E1 by (by rewrite Z.add_1_r, Z.pow_succ_r by lia).
  rewrite Hv, Em in Hr. assert (0 <= m < 2 ^ (255 - s)) as Hm by nia.
  assert (0 <= m * 2 ^ (s + 1) + 2 ^ s < modulus) as Hsum by (rewrite Em; nia).
  rewrite <- (Z.mod_small (m * 2 ^ (s + 1) + 2 ^ s) modulus) by done.
  apply value_bits; [done|]. intros q Hq. rewrite Hbits, Hv by lia.
  rewrite (Z.add_nocarry_lxor (m * _)), Z.lxor_lor, Z.lor_spec.
  - f_equal. destruct (mod8 q) as (Eq & Htq & Hpq); [lia|]. rewrite Z2Nat.id, Z.pow2_bits_eqb by lia.
    rewrite Z.shiftl_mul_pow2, Z.mul_1_l, Z.pow2_bits_eqb by lia.
    destruct (Z.eqb_spec (q / 8) (s / 8)), (Z.eqb_spec (s mod 8) (q mod 8)), (Z.eqb_spec s q); lia || done.
  - apply Z.bits_inj'. intros n Hn. rewrite Z.land_spec, Z.bits_0, Z.pow2_bits_eqb by lia.
    destruct (Z.eqb_spec s n) as [<-|]; [|by rewrite andb_false_r]. by rewrite Z.mul_pow2_bits_low by lia.
  - apply Z.bits_inj'. intros n Hn. rewrite Z.land_spec, Z.bits_0, Z.pow2_bits_eqb by lia.
    destruct (Z.eqb_spec s n) as [<-|]; [|by rewrite andb_false_r]. by rewrite Z.mul_pow2_bits_low by lia.
Qed.

Lemma compare_ge a b : valid a → valid b → (0 <=? compareTo a b) = (le_Z b <=? le_Z a).
Proof.
  intros [Ha Hla] [Hb Hlb]. rewrite compareTo_ok by (done || lia).
  destruct (Z.ltb_spec (le_Z a) (le_Z b)), (Z.ltb_spec (le_Z b) (le_Z a)), (Z.leb_spec (le_Z b) (le_Z a)); lia || done.
Qed.

Lemma div_loop_ok n D N : 0 < D → ∀ num dv data m, valid num → valid dv → valid data → (n <= 256)%nat →
  (n ≠ 0%nat → le_Z dv = D * 2 ^ (Z.of_nat n - 1)) → le_Z num < D * 2 ^ Z.of_nat n →
  le_Z data = m * 2 ^ Z.of_nat n → le_Z data * D + le_Z num = N →
  ∃ q, div_loop n num dv data (Z.of_nat n - 1) = Ok q ∧ valid q ∧ le_Z q = N / D.
Proof.
  intros HD. induction n as [|n IH]; intros num dv data m Hnum Hdv Hdata Hn Ed Hlt Em HN.
  { exists data. cbn. split; [done|]. split; [done|]. pose proof (value_range num Hnum).
    apply (Z.div_unique _ _ _ (le_Z num)); [left|]; cbn in *; lia. }
  cbn [div_loop]. destruct (Z.ltb_spec (Z.of_nat (S n) - 1) 0); [lia|]. rewrite compare_ge by done.
  specialize (Ed ltac:(done)). replace (Z.of_nat (S n) - 1) with (Z.of_nat n) in * by lia.
  destruct (shr_ok dv 1 Hdv) as [Hshr Eshr]; [lia|].
  assert (n ≠ 0%nat → le_Z (shr dv 1) = D * 2 ^ (Z.of_nat n - 1)) as Ed'.
  { intros Hn0. rewrite Eshr, Ed. replace (Z.of_nat n) with (Z.of_nat n - 1 + 1) at 1 by lia.
    rewrite Z.pow_add_r, Z.mul_assoc by lia. by rewrite Z.div_mul by done. }
  assert (2 ^ Z.of_nat (S n) = 2 * 2 ^ Z.of_nat n) as EP by (rewrite <- Z.pow_succ_r by lia; f_equal; lia).
  pose proof (Z.pow_pos_nonneg 2 (Z.of_nat n)). rewrite EP in *.
  pose proof (value_range num Hnum). pose proof (value_range dv Hdv).
  destruct (Z.leb_spec (le_Z dv) (le_Z num)).
  - destruct (sub_ok num dv Hnum Hdv) as [Hsub Esub]. rewrite Z.mod_small in Esub by lia.
    destruct (set_bit_ok data (Z.of_nat n) m Hdata) as [Hset Eset]; [lia| |].
    { rewrite Em. f_equal. rewrite <- EP. f_equal. lia. }
    replace (2 ^ (Z.of_nat n + 1)) with (2 * 2 ^ Z.of_nat n) in Eset by (rewrite <- EP; f_equal; lia).
    apply (IH _ _ _ (2 * m + 1)); [done|done|done|lia|done|nia| |].
    + rewrite Eset. ring.
    + rewrite Eset, Esub, <- HN, Em, Ed. ring.
  - apply (IH _ _ _ (2 * m)); [done|done|done|lia|done|lia| |done]. rewrite Em. ring.
Qed.

(** [operator/=] divides the 256-bit values, and throws when the divisor is zero. *)
Lemma div_ok a b : valid a → valid b →
  if le_Z b =? 0 then div a b = Throw "Division by zero"
  else ∃ q, div a b = Ok q ∧ valid q ∧ le_Z q = le_Z a / le_Z b.
Proof.
  intros Ha Hb. pose proof (value_range a Ha) as Ra. pose proof (value_range b Hb) as Rb. unfold div.
  rewrite !bits_ok by (apply Ha || apply Hb).
  destruct (Z.eqb_spec (le_Z b) 0) as [|Hb0]; [done|]. pose proof (Z.log2_nonneg (le_Z b)).
  destruct (Z.eqb_spec (Z.log2 (le_Z b) + 1) 0); [lia|]. destruct (of_u64_ok 0) as [Hz Ez]; [lia|].
  destruct (Z.log2_spec (le_Z b)) as [Lb1 Lb2]; [lia|].
  destruct (Z.eqb_spec (le_Z a) 0) as [E0|Ha0].
  { destruct (Z.ltb_spec 0 (Z.log2 (le_Z b) + 1)); [|lia]. exists (of_u64 0). by rewrite Ez, E0, Z.div_0_l. }
  destruct (Z.log2_spec (le_Z a)) as [La1 La2]; [lia|].
  destruct (Z.ltb_spec (Z.log2 (le_Z a) + 1) (Z.log2 (le_Z b) + 1)).
  { exists (of_u64 0). split; [done|]. split; [done|]. rewrite Ez, Z.div_small; [done|]. split; [lia|].
    assert (2 ^ Z.succ (Z.log2 (le_Z a)) <= 2 ^ Z.log2 (le_Z b)) by (apply Z.pow_le_mono_r; lia). lia. }
  set (s := Z.log2 (le_Z a) + 1 - (Z.log2 (le_Z b) + 1)).
  assert (Z.log2 (le_Z a) < 256) as L256 by (apply Z.log2_lt_pow2; [lia|apply Ra]).
  assert (2 ^ Z.log2 (le_Z a) = 2 ^ Z.log2 (le_Z b) * 2 ^ s) as Es
    by (rewrite <- Z.pow_add_r by lia; f_equal; lia).
  rewrite Z.pow_succ_r in La2, Lb2 by lia. pose proof (Z.pow_pos_nonneg 2 s).
  assert (2 ^ Z.succ (Z.log2 (le_Z a)) <= modulus) as Lm by (apply Z.pow_le_mono_r; lia).
  rewrite Z.pow_succ_r in Lm by lia.
  destruct (shl_ok b s Hb) as [Hshl Eshl]; [lia|]. rewrite Z.mod_small in Eshl by nia.
  destruct (div_loop_ok (Z.to_nat (s + 1)) (le_Z b) (le_Z a) ltac:(lia) a (shl b s) (of_u64 0) 0) as (q & E & Hq);
    [done|done|done|lia| | |by rewrite Ez|by rewrite Ez|replace (Z.of_nat (Z.to_nat (s + 1)) - 1) with s in E by lia; by exists q].
  - intros _. rewrite Eshl. do 2 f_equal. lia.
  - rewrite Z2Nat.id, Z.add_1_r, Z.pow_succ_r by lia. nia.
Qed.

(** *** Compact form *)
Lemma land_high m n k : 0 <= m < 2 ^ n → 0 <= n → Z.land m (k * 2 ^ n) = 0.
Proof.
  intros Hm Hn. apply Z.bits_inj'. intros q Hq. rewrite Z.land_spec, Z.bits_0. destruct (Z.lt_ge_cases q n).
  - by rewrite Z.mul_pow2_bits_low, andb_false_r by lia.
  - destruct (Z.eq_dec m 0) as [->|]; [by rewrite Z.testbit_0_l|].
    rewrite (Z.bits_above_log2 m); [done|lia|]. apply Z.log2_lt_pow2; [lia|].
    assert (2 ^ n <= 2 ^ q) by (apply Z.pow_le_mono_r; lia). lia.
Qed.

Lemma lor_high m n k : 0 <= m < 2 ^ n → 0 <= n → Z.lor m (k * 2 ^ n) = m + k * 2 ^ n.
Proof. intros Hm Hn. pose proof (land_high m n k Hm Hn). by rewrite <- Z.lxor_lor, <- Z.add_nocarry_lxor. Qed.

Lemma land_pow2_eqb w n : 0 <= n → (Z.land w (2 ^ n) =? 0) = negb (Z.testbit w n).
Proof.
  intros Hn. destruct (Z.testbit w n) eqn:E; cbn [negb].
  - apply Z.eqb_neq. intros E0. assert (Z.testbit (Z.land w (2 ^ n)) n = true) as Ht
      by (rewrite Z.land_spec, E, Z.pow2_bits_true by done; done). by rewrite E0, Z.bits_0 in Ht.
  - apply Z.eqb_eq, Z.bits_inj'. intros q Hq. rewrite Z.land_spec, Z.bits_0, Z.pow2_bits_eqb by done.
    destruct (Z.eqb_spec n q) as [<-|]; [by rewrite E|apply andb_false_r].
Qed.

Lemma bit23 w : 0 <= w < 2 ^ 24 → Z.testbit w 23 = (2 ^ 23 <=? w).
Proof.
  intros Hw. rewrite Z.testbit_eqb by lia. destruct (Z.leb_spec (2 ^ 23) w).
  - replace (w / 2 ^ 23) with 1; [done|]. apply (Z.div_unique _ _ _ (w - 2 ^ 23)); lia.
  - by rewrite Z.div_small by lia.
Qed.

(** The size in bytes and the most significant bytes of a value. *)
Definition byte_size (v : Z) : Z := if v =? 0 then 0 else Z.log2 v / 8 + 1.
Definition leading (v n : Z) : Z := if n <=? 3 then v * 256 ^ (3 - n) else v / 256 ^ (n - 3).
Definition compact (v : Z) : Z :=
  let n := byte_size v in
  let w := leading v n in
  if 2 ^ 23 <=? w then w / 256 + (n + 1) * 2 ^ 24 else w + n * 2 ^ 24.

Lemma byte_size_ok v : 0 < v < modulus → 1 <= byte_size v <= 32 ∧ 256 ^ (byte_size v - 1) <= v < 256 ^ byte_size v.
Proof.
  intros Hv. unfold byte_size. destruct (Z.eqb_spec v 0); [lia|]. destruct (Z.log2_spec v) as [L1 L2]; [lia|].
  pose proof (Z.log2_nonneg v) as L0. assert (Z.log2 v < 256) as L256 by (apply Z.log2_lt_pow2; [lia|apply Hv]).
  destruct (mod8 (Z.log2 v) L0) as (E & Ht & Hp). split; [lia|].
  replace (Z.log2 v / 8 + 1 - 1) with (Z.log2 v / 8) by lia. change 256 with (2 ^ 8). rewrite <- !Z.pow_mul_r by lia.
  assert (2 ^ (8 * (Z.log2 v / 8)) <= 2 ^ Z.log2 v) by (apply Z.pow_le_mono_r; lia).
  assert (2 ^ Z.succ (Z.log2 v) <= 2 ^ (8 * (Z.log2 v / 8 + 1))) by (apply Z.pow_le_mono_r; lia). lia.
Qed.

Lemma byte_size_unique v n : 1 <= n → 256 ^ (n - 1) <= v < 256 ^ n → byte_size v = n.
Proof.
  intros Hn Hv. pose proof (Z.pow_pos_nonneg 256 (n - 1)). assert (0 < v) by lia. unfold byte_size.
  destruct (Z.eqb_spec v 0); [lia|]. change 256 with (2 ^ 8) in Hv. rewrite <- !Z.pow_mul_r in Hv by lia. destruct Hv as [V1 V2].
  apply Z.log2_le_pow2 in V1; [|lia]. apply Z.log2_lt_pow2 in V2; [|lia].
  assert (Z.log2 v / 8 = n - 1) as ->; [|lia].
  destruct (mod8 (Z.log2 v)) as (E & ? & ?); [apply Z.log2_nonneg|]. lia.
Qed.

Lemma leading_range v n : 1 <= n → 256 ^ (n - 1) <= v < 256 ^ n → 2 ^ 16 <= leading v n < 2 ^ 24.
Proof.
  intros Hn Hv. unfold leading. destruct (Z.leb_spec n 3).
  - pose proof (Z.pow_pos_nonneg 256 (3 - n)).
    assert (256 ^ (n - 1) * 256 ^ (3 - n) = 2 ^ 16) as E1 by (rewrite <- Z.pow_add_r by lia; by replace (n - 1 + (3 - n)) with 2 by lia).
    assert (256 ^ n * 256 ^ (3 - n) = 2 ^ 24) as E2 by (rewrite <- Z.pow_add_r by lia; by replace (n + (3 - n)) with 3 by lia).
    nia.
  - pose proof (Z.pow_pos_nonneg 256 (n - 3)).
    assert (256 ^ (n - 1) = 256 ^ (n - 3) * 256 ^ 2) as E1 by (rewrite <- Z.pow_add_r by lia; f_equal; lia).
    assert (256 ^ n = 256 ^ (n - 3) * 256 ^ 3) as E2 by (rewrite <- Z.pow_add_r by lia; f_equal; lia).
    rewrite E1, E2 in Hv. split; [apply Z.div_le_lower_bound|apply Z.div_lt_upper_bound]; lia.
Qed.

Lemma getLow64_small a : valid a → le_Z a < 2 ^ 64 → getLow64 a = le_Z a.
Proof.
  intros [Ha Hl] Hlt. unfold getLow64. rewrite (le_Z_take_drop 8 a) in * by lia.
  pose proof (le_Z_range _ (Forall_take _ 8 a Ha)). pose proof (le_Z_range _ (Forall_drop _ 8 a Ha)).
  change (256 ^ Z.of_nat 8) with (2 ^ 64) in *. assert (le_Z (drop 8 a) = 0) as -> by nia. lia.
Qed.

(** [toBits] computes the compact form. *)
Lemma toBits_eq a : valid a → toBits false a = Ok (compact (le_Z a)) ∧ 0 <= compact (le_Z a) < 2 ^ 32.
Proof.
  intros Ha. pose proof (value_range a Ha) as Hr. unfold toBits. rewrite bits_ok by apply Ha.
  assert (((if le_Z a =? 0 then 0 else Z.log2 (le_Z a) + 1) + 7) / 8 = byte_size (le_Z a)) as ->.
  { unfold byte_size. destruct (Z.eqb_spec (le_Z a) 0); [done|].
    replace (Z.log2 (le_Z a) + 1 + 7) with (Z.log2 (le_Z a) + 1 * 8) by lia. by rewrite Z.div_add by lia. }
  destruct (Z.eq_dec (le_Z a) 0) as [E0|Hne].
  { rewrite E0. cbn [byte_size Z.eqb Z.leb Z.compare]. rewrite getLow64_small, E0 by (done || lia). by vm_compute. }
  destruct (byte_size_ok (le_Z a)) as [Hn Hv]; [lia|]. set (n := byte_size (le_Z a)) in *. set (v := le_Z a) in *.
  pose proof (leading_range v n ltac:(lia) Hv) as Hw.
  assert ((if n <=? 3 then u32 (Z.shiftl (u32 (getLow64 a)) (8 * (3 - n))) else u32 (getLow64 (shr a (8 * (n - 3))))) = leading v n) as ->.
  { revert Hw. unfold leading. destruct (Z.leb_spec n 3); intros Hw.
    - assert (256 ^ n <= 256 ^ 3) by (apply Z.pow_le_mono_r; lia).
      rewrite getLow64_small, (wrapU_small 32 (le_Z a)) by (done || lia). fold v.
      rewrite Z.shiftl_mul_pow2, (Z.pow_mul_r 2 8) by lia. apply wrapU_small. change (2 ^ 8) with 256. lia.
    - destruct (shr_ok a (8 * (n - 3)) Ha) as [Hs Es]; [lia|]. fold v in Es.
      rewrite (Z.pow_mul_r 2 8) in Es by lia. change (2 ^ 8) with 256 in Es.
      rewrite getLow64_small, Es by (done || lia). apply wrapU_small. lia. }
  unfold compact. fold n. set (w := leading v n) in *.
  change 0x00800000 with (2 ^ 23). rewrite land_pow2_eqb, bit23, negb_involutive by lia.
  change (u32 (Z.lnot 8388607)) with (511 * 2 ^ 23).
  assert (∀ m s, 0 <= m < 2 ^ 23 → 0 <= s <= 33 →
    (vassert (Z.land m (511 * 2 ^ 23) =? 0) "(nCompact & ~0x007fffff) == 0";;
     vassert (s <? 256) "nSize < 256";;
     Ok (Z.lor (Z.lor m (Z.shiftl s 24)) 0)) = Ok (m + s * 2 ^ 24)) as Hend.
  { intros m s Hm Hs. rewrite land_high by lia. cbn [Z.eqb vassert mbind result_bind].
    rewrite (proj2 (Z.ltb_lt _ _)) by lia. cbn [vassert mbind result_bind].
    rewrite Z.lor_0_r, Z.shiftl_mul_pow2, lor_high by lia. done. }
  destruct (Z.leb_spec (2 ^ 23) w).
  - rewrite Z.shiftr_div_pow2 by lia. change (2 ^ 8) with 256.
    assert (0 <= w / 256 < 2 ^ 16) by (split; [apply Z.div_pos; lia|apply Z.div_lt_upper_bound; lia]).
    rewrite <- (Hend (w / 256) (n + 1)) by lia. split; [done|lia].
  - rewrite <- (Hend w n) by lia. split; [done|lia].
Qed.

(** The number a compact form stands for: a mantissa, a sign and a size. *)
Definition compact_value (c : Z) : Z :=
  let m := c mod 2 ^ 23 in
  let s := c / 2 ^ 24 in
  if s <=? 3 then m / 256 ^ (3 - s) else m * 256 ^ (s - 3).

Definition overflows (w s : Z) : bool :=
  negb (w =? 0) && ((34 <? s) || ((0xff <? w) && (33 <? s)) || ((0xffff <? w) && (32 <? s))).

Lemma overflows_ok m s : 0 <= m < 2 ^ 23 → 3 < s < 256 → overflows m s = (modulus <=? m * 256 ^ (s - 3)).
Proof.
  intros Hm Hs. unfold overflows. destruct (Z.eqb_spec m 0) as [->|]; [done|]. cbn [negb andb].
  assert (∀ k, 0 <= k <= s - 3 → 256 ^ (s - 3) = 256 ^ k * 256 ^ (s - 3 - k) ∧ 0 < 256 ^ (s - 3 - k)) as Hsplit.
  { intros k Hk. split; [|apply Z.pow_pos_nonneg; lia]. rewrite <- Z.pow_add_r by lia. f_equal. lia. }
  change modulus with (256 ^ 32). destruct (Z.ltb_spec 34 s).
  { destruct (Hsplit 32) as [-> ?]; [lia|]. cbn [orb]. symmetry. apply Z.leb_le. nia. }
  cbn [orb]. destruct (Z.eq_dec s 34) as [->|].
  { change (256 ^ 32) with (256 * 256 ^ 31). destruct (Z.ltb_spec 0xff m), (Z.ltb_spec 0xffff m); cbn [andb orb Z.ltb Z.compare Pos.compare Pos.compare_cont];
      symmetry; first [apply Z.leb_le; change (34 - 3) with 31; lia|apply Z.leb_gt; change (34 - 3) with 31; lia]. }
  destruct (Z.eq_dec s 33) as [->|].
  { change (256 ^ 32) with (256 * 256 * 256 ^ 30). destruct (Z.ltb_spec 0xff m), (Z.ltb_spec 0xffff m); cbn [andb orb Z.ltb Z.compare Pos.compare Pos.compare_cont];
      symmetry; first [apply Z.leb_le; change (33 - 3) with 30; lia|apply Z.leb_gt; change (33 - 3) with 30; lia]. }
  rewrite !(proj2 (Z.ltb_ge _ s)), !andb_false_r by lia. symmetry. apply Z.leb_gt.
  assert (256 ^ (s - 3) <= 256 ^ 29) by (apply Z.pow_le_mono_r; lia). change (256 ^ 32) with (2 ^ 24 * 256 ^ 29). nia.
Qed.

(** [fromBits] of a 32-bit number. *)
Lemma fromBits_spec c : 0 <= c < 2 ^ 32 →
  ∃ t, fromBits c = (t, negb (compact_value c =? 0) && Z.testbit c 23, modulus <=? compact_value c) ∧
    valid t ∧ le_Z t = compact_value c mod modulus.
Proof.
  intros Hc. unfold fromBits, compact_value. rewrite Z.shiftr_div_pow2 by lia.
  assert (0 <= c / 2 ^ 24 < 256) as Hs by (split; [apply Z.div_pos; lia|apply Z.div_lt_upper_bound; lia]).
  change 0x007fffff with (Z.ones 23). rewrite Z.land_ones by lia. pose proof (Z.mod_pos_bound c (2 ^ 23)) as Hm.
  change 0x00800000 with (2 ^ 23). rewrite land_pow2_eqb, negb_involutive by lia.
  set (m := c mod 2 ^ 23) in *. set (s := c / 2 ^ 24) in *. destruct (Z.leb_spec s 3).
  - rewrite Z.shiftr_div_pow2, (Z.pow_mul_r 2 8) by lia. change (2 ^ 8) with 256.
    pose proof (Z.pow_pos_nonneg 256 (3 - s)) as Hp.
    assert (0 <= m / 256 ^ (3 - s) < 2 ^ 23) as Hw by (split; [apply Z.div_pos; lia|apply Z.div_lt_upper_bound; nia]).
    assert (2 ^ 64 < modulus) by (by vm_compute).
    destruct (of_u64_ok (m / 256 ^ (3 - s))) as [Hv Ev]; [lia|].
    eexists. split; [|split; [exact Hv|by rewrite Ev, Z.mod_small by lia]]. f_equal.
    rewrite !(proj2 (Z.ltb_ge _ s)), !andb_false_r by lia. cbn [orb]; rewrite ?andb_false_r; symmetry. apply Z.leb_gt. lia.
  - destruct (of_u64_ok m) as [Hv Ev]; [lia|].
    destruct (shl_ok _ (8 * (s - 3)) Hv) as [Hs' Es]; [lia|].
    eexists. split; [|split; [exact Hs'|by rewrite Es, Ev, (Z.pow_mul_r 2 8) by lia]].
    fold (overflows m s). rewrite overflows_ok by lia. do 3 f_equal.
    pose proof (Z.pow_pos_nonneg 256 (s - 3)). destruct (Z.eqb_spec m 0), (Z.eqb_spec (m * 256 ^ (s - 3)) 0); nia || done.
Qed.

Lemma compact_value_range c : 0 <= c < 2 ^ 32 → 0 <= compact_value c ∧
  (compact_value c < modulus → compact_value c + 1 < modulus).
Proof.
  intros Hc. unfold compact_value. pose proof (Z.mod_pos_bound c (2 ^ 23)) as Hm.
  assert (0 <= c / 2 ^ 24) by (apply Z.div_pos; lia). destruct (Z.leb_spec (c / 2 ^ 24) 3) as [Hs|Hs].
  - pose proof (Z.pow_pos_nonneg 256 (3 - c / 2 ^ 24)). assert (2 ^ 24 < modulus) by (by vm_compute).
    assert (0 <= c mod 2 ^ 23 / 256 ^ (3 - c / 2 ^ 24) < 2 ^ 23) by (split; [apply Z.div_pos; lia|apply Z.div_lt_upper_bound; nia]). lia.
  - replace (c / 2 ^ 24 - 3) with (c / 2 ^ 24 - 4 + 1) by lia. rewrite Z.pow_add_r by lia.
    pose proof (Z.pow_pos_nonneg 256 (c / 2 ^ 24 - 4)). split; [nia|]. change modulus with (256 * 256 ^ 31). nia.
Qed.

(** The parts of a compact number without a sign. *)
Lemma compact_value_parts m s : 0 <= m < 2 ^ 23 → 0 <= s → compact_value (m + s * 2 ^ 24) =
  (if s <=? 3 then m / 256 ^ (3 - s) else m * 256 ^ (s - 3)) ∧ Z.testbit (m + s * 2 ^ 24) 23 = false.
Proof.
  intros Hm Hs. assert (s * 2 ^ 24 = 2 * s * 2 ^ 23) as E by lia. split.
  - unfold compact_value. rewrite Z.div_add, (Z.div_small m), Z.add_0_l by lia.
    by rewrite E, Z_mod_plus_full, Z.mod_small by lia.
  - rewrite Z.testbit_eqb, E, Z.div_add, (Z.div_small m) by lia.
    by rewrite Z.add_0_l, (Z.mul_comm 2), Z_mod_mult.
Qed.

(** Mantissa and size of the compact form. *)
Lemma compact_parts v : 0 < v < modulus → ∃ m s, compact v = m + s * 2 ^ 24 ∧ 2 ^ 15 <= m < 2 ^ 23 ∧ 1 <= s <= 33 ∧
  (s = 33 → m < 2 ^ 16) ∧ if s <=? 3 then m = v * 256 ^ (3 - s) else m = v / 256 ^ (s - 3).
Proof.
  intros Hv. destruct (byte_size_ok v Hv) as [Hn Hr]. unfold compact. set (n := byte_size v) in *.
  pose proof (leading_range v n ltac:(lia) Hr) as Hw. set (w := leading v n) in *.
  destruct (Z.leb_spec (2 ^ 23) w).
  - exists (w / 256), (n + 1). assert (2 ^ 15 <= w / 256 < 2 ^ 16)
      by (split; [apply Z.div_le_lower_bound|apply Z.div_lt_upper_bound]; lia).
    split; [done|]. split; [lia|]. split; [lia|]. split; [lia|]. subst w. unfold leading in *.
    destruct (Z.leb_spec n 3), (Z.leb_spec (n + 1) 3); try lia.
    + replace (3 - n) with (3 - (n + 1) + 1) by lia. rewrite Z.pow_add_r, Z.pow_1_r, Z.mul_assoc, Z.div_mul by lia. done.
    + assert (n = 3) as -> by lia. cbn [Z.sub Z.opp Z.add Z.pow_pos Z.pow]. by rewrite Z.mul_1_r.
    + rewrite Z.div_div by (pose proof (Z.pow_pos_nonneg 256 (n - 3)); lia). f_equal.
      replace (n + 1 - 3) with (n - 3 + 1) by lia. by rewrite Z.pow_add_r by lia.
  - exists w, n. split; [done|]. split; [lia|]. split; [lia|]. split; [lia|]. subst w. unfold leading. by destruct (Z.leb_spec n 3).
Qed.

Lemma compact_of_parts m s : 2 ^ 15 <= m < 2 ^ 23 → 3 < s → compact (m * 256 ^ (s - 3)) = m + s * 2 ^ 24.
Proof.
  intros Hm Hs. pose proof (Z.pow_pos_nonneg 256 (s - 3) ltac:(lia) ltac:(lia)) as HP. set (P := 256 ^ (s - 3)) in *.
  unfold compact. destruct (Z.lt_ge_cases m (2 ^ 16)).
  - assert (256 ^ (s - 3 - 1) * 256 = P) as E1 by (subst P; replace (s - 3) with (s - 3 - 1 + 1) at 2 by lia; by rewrite Z.pow_add_r by lia).
    rewrite (byte_size_unique _ (s - 1)) by (lia || (replace (s - 1 - 1) with (s - 3 + 1) by lia;
      replace (s - 1) with (s - 3 + 2) by lia; rewrite !Z.pow_add_r by lia; fold P; nia)).
    assert (leading (m * P) (s - 1) = m * 256) as ->.
    { unfold leading. destruct (Z.leb_spec (s - 1) 3).
      - assert (s = 4) as -> by lia. subst P. cbn. lia.
      - replace (s - 1 - 3) with (s - 3 - 1) by lia. rewrite <- E1.
        rewrite (Z.mul_comm _ 256), Z.mul_assoc, Z.div_mul; [done|]. pose proof (Z.pow_pos_nonneg 256 (s - 3 - 1)). lia. }
    destruct (Z.leb_spec (2 ^ 23) (m * 256)); [|lia]. rewrite Z.div_mul by done. lia.
  - assert (256 ^ (s - 1) = P * 256 ^ 2) as E1 by (subst P; rewrite <- Z.pow_add_r by lia; f_equal; lia).
    assert (256 ^ s = P * 256 ^ 3) as E2 by (subst P; rewrite <- Z.pow_add_r by lia; f_equal; lia).
    rewrite (byte_size_unique _ s) by (lia || (rewrite E1, E2; nia)).
    unfold leading. destruct (Z.leb_spec s 3); [lia|]. fold P. rewrite Z.div_mul by lia.
    destruct (Z.leb_spec (2 ^ 23) m); lia.
Qed.

(** C25: the compact form of difficulty targets: [toBits] and [fromBits] never
    fail, a compact number is stable (encoding the decoded value gives it back,
    it is neither negative nor overflowing), and decoding loses less than one part
    in 2^15 of the value. *)
Theorem compact_roundtrip a : valid a →
  ∃ c y, toBits false a = Ok c ∧ 0 <= c < 2 ^ 32 ∧ fromBits c = (y, false, false) ∧ valid y ∧
    toBits false y = Ok c ∧ le_Z y <= le_Z a ∧ (le_Z a - le_Z y) * 2 ^ 15 <= le_Z y.
Proof.
  intros Ha. pose proof (value_range a Ha) as Hr. destruct (toBits_eq a Ha) as [Ec Hc].
  exists (compact (le_Z a)). destruct (Z.eq_dec (le_Z a) 0) as [E0|Hne].
  { destruct (of_u64_ok 0) as [Hz Ez]; [lia|]. exists (of_u64 0). destruct (toBits_eq (of_u64 0) Hz) as [Eb _].
    rewrite Ec, Eb, Ez, E0. split_and!; done || (by vm_compute) || lia. }
  destruct (compact_parts (le_Z a)) as (m & s & E & Hm & Hs & H33 & Hpart); [lia|].
  destruct (compact_value_parts m s) as [Vc E23]; [lia|lia|].
  destruct (fromBits_spec (m + s * 2 ^ 24)) as (y & Ey & Hy & Vy); [lia|].
  rewrite E23, andb_false_r in Ey. rewrite Vc in Ey, Vy.
  assert (Hv : le_Z y <= le_Z a ∧ (le_Z a - le_Z y) * 2 ^ 15 <= le_Z y ∧ compact (le_Z y) = m + s * 2 ^ 24 ∧
    (if s <=? 3 then m / 256 ^ (3 - s) else m * 256 ^ (s - 3)) < modulus).
  { destruct (Z.leb_spec s 3).
    - pose proof (Z.pow_pos_nonneg 256 (3 - s) ltac:(lia) ltac:(lia)).
      assert (m / 256 ^ (3 - s) = le_Z a) as Em by (rewrite Hpart; apply Z.div_mul; lia).
      rewrite Em in *. rewrite Z.mod_small in Vy by lia. rewrite <- E, Vy. lia.
    - pose proof (Z.pow_pos_nonneg 256 (s - 3) ltac:(lia) ltac:(lia)). set (P := 256 ^ (s - 3)) in *.
      pose proof (Z.div_mod (le_Z a) P ltac:(lia)). pose proof (Z.mod_pos_bound (le_Z a) P ltac:(lia)). rewrite <- Hpart in *.
      rewrite Z.mod_small in Vy by nia. rewrite Vy. split; [nia|]. split; [nia|]. split; [by apply compact_of_parts|nia]. }
  destruct Hv as (Hle & Herr & Est & Hlt). rewrite (proj2 (Z.leb_gt _ _) Hlt) in Ey. destruct (toBits_eq y Hy) as [Eb _].
  exists y. rewrite E. split; [by rewrite <- E|]. split; [lia|]. split; [done|]. split; [done|]. by rewrite Eb, Est.
Qed.

(** *** All operators *)
Definition agrees (c : list Z) (z : Z) : Prop := valid c ∧ le_Z c = z mod modulus.

(** C24: the byte loops of [ArithUint256] implement unsigned arithmetic modulo
    2^256: sums, differences, products and left shifts wrap around, right shifts
    and quotients are exact, comparison is that of the values, and only a division
    by zero fails. *)
Theorem arithmetic_correct a b (b32 shift : Z) : valid a → valid b → 0 <= b32 < 2 ^ 32 → 0 <= shift →
  agrees (add a b) (le_Z a + le_Z b) ∧ agrees (sub a b) (le_Z a - le_Z b) ∧
  agrees (mul a b) (le_Z a * le_Z b) ∧ agrees (mul32 a b32) (le_Z a * b32) ∧
  agrees (shl a shift) (le_Z a * 2 ^ shift) ∧ agrees (shr a shift) (le_Z a / 2 ^ shift) ∧
  agrees (bit_not a) (-1 - le_Z a) ∧ agrees (neg a) (- le_Z a) ∧ agrees (incr a) (le_Z a + 1) ∧
  compareTo a b = (if le_Z a <? le_Z b then -1 else if le_Z b <? le_Z a then 1 else 0) ∧
  bits a = (if le_Z a =? 0 then 0 else Z.log2 (le_Z a) + 1) ∧
  if le_Z b =? 0 then div a b = Throw "Division by zero"
  else ∃ q, div a b = Ok q ∧ valid q ∧ le_Z q = le_Z a / le_Z b.
Proof.
  intros Ha Hb H32 Hs. pose proof (value_range a Ha) as Hr. unfold agrees.
  do 5 (split; [by apply add_ok || apply sub_ok || apply mul_ok || apply mul32_ok || apply shl_ok|]).
  split.
  { destruct (shr_ok a shift Ha Hs) as [Hv Ev]. split; [done|]. rewrite <- Ev. symmetry. by apply Z.mod_small, value_range. }
  destruct Ha as [Ha Hl]. pose proof (bit_not_ok a Ha) as (Hn & Hln & Hvn). pose proof (incr_ok a Ha) as (Hi & Hli & Hvi).
  rewrite Hl in *. split.
  { split; [by split|]. rewrite Hvn. change (256 ^ Z.of_nat 32) with modulus.
    replace (-1 - le_Z a) with (modulus - 1 - le_Z a + -1 * modulus) by lia. rewrite Z_mod_plus_full, Z.mod_small; lia. }
  split; [by apply neg_ok|]. split; [by split|].
  split; [apply compareTo_ok; [done|apply Hb|destruct Hb; lia]|]. split; [by apply bits_ok|]. by apply div_ok.
Qed.

(** *** Decimal strings *)
Definition digit (c : Z) : Prop := 48 <= c <= 57.
Fixpoint dec_Z (ds : list Z) : Z := match ds with [] => 0 | d :: ds => d - 48 + 10 * dec_Z ds end.

Lemma digit_step a : valid a → ∃ q, div a (of_u64 10) = Ok q ∧ valid q ∧ le_Z q = le_Z a / 10 ∧
  getLow64 (sub a (mul32 q 10)) = le_Z a mod 10.
Proof.
  intros Ha. pose proof (value_range a Ha) as Hr. destruct (of_u64_ok 10) as [Ht Et]; [lia|].
  pose proof (div_ok a _ Ha Ht) as Hd. rewrite Et in Hd. destruct Hd as (q & Eq & Hq & Vq). exists q.
  split; [done|]. split; [done|]. split; [done|].
  destruct (mul32_ok q 10 Hq) as [Hm Em]; [lia|]. destruct (sub_ok a _ Ha Hm) as [Hs Es].
  pose proof (Z.div_mod (le_Z a) 10). pose proof (Z.mod_pos_bound (le_Z a) 10).
  rewrite Em, Vq, (Z.mod_small (_ * 10)) in Es by lia.
  replace (le_Z a - le_Z a / 10 * 10) with (le_Z a mod 10) in Es by lia. rewrite Z.mod_small in Es by lia.
  by rewrite getLow64_small, Es by (done || lia).
Qed.

Lemma toString_loop_S fuel a out : toString_loop (S fuel) a out =
  (tmpNext ← div a (of_u64 10);
   let out := out ++ [u8 (getLow64 (sub a (mul32 tmpNext 10)) + 48)] in
   if compareTo tmpNext (of_u64 0) <=? 0 then Ok out else toString_loop fuel tmpNext out).
Proof. done. Qed.

Lemma toString_loop_ok fuel a out : valid a → le_Z a < 10 ^ Z.of_nat (S fuel) →
  ∃ ds, toString_loop (S fuel) a out = Ok (out ++ ds) ∧ Forall digit ds ∧ dec_Z ds = le_Z a.
Proof.
  revert a out. induction fuel as [|fuel IH]; intros a out Ha Hlt; pose proof (value_range a Ha) as Hr;
    destruct (digit_step a Ha) as (q & Eq & Hq & Vq & Ed); pose proof (Z.mod_pos_bound (le_Z a) 10);
    pose proof (Z.div_mod (le_Z a) 10); destruct (of_u64_ok 0) as [Hz Ez]; [lia| |lia|];
    rewrite toString_loop_S, Eq; cbn [mbind result_bind]; rewrite Ed, wrapU_small by lia;
    rewrite compareTo_ok by (apply Hq || apply Hz || (destruct Hq, Hz; lia)); rewrite Ez, Vq.
  - rewrite Z.div_small by (cbn in Hlt; lia). cbn [Z.ltb Z.compare Z.leb]. eexists. split; [done|].
    split; [by repeat constructor; lia|]. cbn [dec_Z]. rewrite Z.mod_small; [lia|cbn in Hlt; lia].
  - pose proof (Z.div_pos (le_Z a) 10). destruct (Z.ltb_spec (le_Z a / 10) 0); [lia|].
    destruct (Z.ltb_spec 0 (le_Z a / 10)); cbn [Z.leb Z.compare].
    + destruct (IH q (out ++ [le_Z a mod 10 + 48]) Hq) as (ds & E & Hds & Vds).
      { rewrite Vq. apply Z.div_lt_upper_bound; [lia|]. rewrite <- Z.pow_succ_r by lia. by rewrite <- Nat2Z.inj_succ. }
      exists (le_Z a mod 10 + 48 :: ds). rewrite E, <- app_assoc. split; [done|]. split; [constructor; [split; lia|done]|].
      cbn [dec_Z]. rewrite Vds, Vq. lia.
    + eexists. split; [done|]. split; [by repeat constructor; lia|]. cbn [dec_Z]. lia.
Qed.

Lemma fromString_ok ds : Forall digit ds →
  valid (fromString (rev ds)) ∧ le_Z (fromString (rev ds)) = dec_Z ds mod modulus.
Proof.
  unfold fromString. induction 1 as [|d ds Hd Hds [IHv IHe]]; cbn [rev dec_Z].
  { change (0 mod modulus) with 0. apply of_u64_ok. lia. }
  unfold digit in Hd. rewrite foldl_snoc. destruct (mul32_ok _ 10 IHv) as [Hm Em]; [lia|].
  destruct (of_u64_ok (u64 (d - 48))) as [Hu Eu]; [rewrite wrapU_small; lia|].
  destruct (add_ok _ _ Hm Hu) as [Hs Es]. split; [done|].
  rewrite Es, Em, Eu, IHe, wrapU_small by lia. rewrite Zplus_mod_idemp_l, <- Zplus_mod_idemp_l, Zmult_mod_idemp_l, Zplus_mod_idemp_l.
  f_equal. lia.
Qed.

(** C26: [toString] ends, prints the decimal digits of the value, and
    [fromString] reads them back. *)
Theorem toString_roundtrip a : valid a →
  ∃ t, toString a = Ok t ∧ Forall digit t ∧ dec_Z (rev t) = le_Z a ∧ fromString t = a.
Proof.
  intros Ha. pose proof (value_range a Ha) as Hr. unfold toString.
  assert (modulus <= 10 ^ Z.of_nat 78) by (by vm_compute).
  destruct (toString_loop_ok 77 a [] Ha) as (ds & E & Hds & Vds); [lia|].
  rewrite E. cbn [mbind result_bind app]. exists (rev ds). destruct (fromString_ok ds Hds) as [Hv Ev].
  split; [done|]. split; [by apply Forall_rev|]. rewrite rev_involutive. split; [done|].
  apply le_Z_inj; [apply Hv|apply Ha|destruct Hv, Ha; lia|]. by rewrite Ev, Vds, Z.mod_small.
Qed.
End U256.

Import U256.

Lemma toHex_fromHex a : valid a → fromHex (toHex a) = Ok a.
Proof.
  intros [Ha Hl]. unfold fromHex, setHex, toHex. rewrite ParseHex_HexStr by by apply Forall_rev.
  rewrite length_rev, Hl, rev_involutive. cbn [Nat.ltb Nat.leb]. change (drop 32 zero) with (@nil Z). by rewrite app_nil_r.
Qed.

(** The values 2^255 + 12345 and 7. *)
Definition big : list Z := or_at 31 128 (of_u64 12345).

Lemma big_valid : valid big.
Proof. apply (or_at_ok 31 128 (of_u64 12345)); [apply of_u64_ok; lia|lia|unfold byte_ok; lia]. Qed.
Lemma seven_valid : valid (of_u64 7).
Proof. apply of_u64_ok. lia. Qed.

Lemma arithmetic_correct_witness : agrees (add big (of_u64 7)) (le_Z big + le_Z (of_u64 7)) ∧
  agrees (sub big (of_u64 7)) (le_Z big - le_Z (of_u64 7)) ∧
  agrees (mul big (of_u64 7)) (le_Z big * le_Z (of_u64 7)) ∧ agrees (mul32 big 1000) (le_Z big * 1000) ∧
  agrees (shl big 9) (le_Z big * 2 ^ 9) ∧ agrees (shr big 9) (le_Z big / 2 ^ 9) ∧
  agrees (bit_not big) (-1 - le_Z big) ∧ agrees (neg big) (- le_Z big) ∧ agrees (incr big) (le_Z big + 1) ∧
  compareTo big (of_u64 7) = 1 ∧ bits big = 256 ∧
  ∃ q, div big (of_u64 7) = Ok q ∧ valid q ∧ le_Z q = le_Z big / 7.
Proof.
  apply (arithmetic_correct big (of_u64 7) 1000 9 big_valid seven_valid); lia.
Defined.

Lemma compact_roundtrip_witness : ∃ c y, toBits false big = Ok c ∧ 0 <= c < 2 ^ 32 ∧ fromBits c = (y, false, false) ∧
  valid y ∧ toBits false y = Ok c ∧ le_Z y <= le_Z big ∧ (le_Z big - le_Z y) * 2 ^ 15 <= le_Z y.
Proof. apply (compact_roundtrip big big_valid). Defined.

Lemma toString_roundtrip_witness :
  ∃ t, toString big = Ok t ∧ Forall digit t ∧ dec_Z (rev t) = le_Z big ∧ fromString t = big.
Proof. apply (toString_roundtrip big big_valid). Defined.
