(* ===== verification/Address.v ===== *)
(** * Addresses ([address.cpp])

    The text form with its checksum, and the byte form.  SHA-256 is the class
    [Hashes].  [AddressType] has the two values that an [Address] can hold: its
    constructors set one of them, so the [default] branches of the switches are
    reached only by the type byte of an encoding. *)
From Stdlib Require Import String.
From S2P Require Import Prelude Serde Base58.

(** ** The hash functions of [hashutil.cpp] *)
Class Hashes := {
  sha256 : list Z → list Z;
  sha256_bytes : ∀ v, bytes_ok (sha256 v);
  sha256_length : ∀ v, length (sha256 v) = 32%nat
}.

Inductive AddressType := STANDARD | MULTISIG.
Definition type_code (t : AddressType) : Z := match t with STANDARD => 1 | MULTISIG => 3 end.
#[export] Instance AddressType_eq_dec : EqDecision AddressType.
Proof. solve_decision. Defined.

Record Address := mkAddress { m_Type : AddressType; m_Address : list Z }.
#[export] Instance Address_eq_dec : EqDecision Address.
Proof. solve_decision. Defined.

Definition VBK_ADDRESS_SIZE : nat := 30.
Definition STARTING_CHAR : Z := 86.
Definition MULTISIG_ENDING_CHAR : Z := 48.
Definition MULTISIG_ADDRESS_M_VALUE : nat := 1.
Definition MULTISIG_ADDRESS_N_VALUE : nat := 2.
Definition MULTISIG_ADDRESS_MIN_N_VALUE : Z := 2.
Definition MULTISIG_ADDRESS_MAX_N_VALUE : Z := 58.
Definition MULTISIG_ADDRESS_MAX_M_VALUE : Z := 58.
Definition MULTISIG_ADDRESS_DATA_END : nat := 24.
Definition MULTISIG_ADDRESS_CHECKSUM_END : nat := 28.
Definition ADDRESS_POP_DATA_SIZE_PROGPOW : nat := 15.

(** [s[i]] and [s.substr(i)] of a [std::string]. *)
Definition char_at (s : list Z) (i : nat) : result Z :=
  match s !! i with
  | Some c => Ok c
  | None => Undef "string index"
  end.
Definition substr_from (s : list Z) (pos : nat) : result (list Z) :=
  if (length s <? pos)%nat then Throw "std::out_of_range" else Ok (drop pos s).
Definition substr (s : list Z) (pos n : nat) : result (list Z) :=
  r ← substr_from s pos; Ok (take n r).

Definition assert_size (address : list Z) : result unit :=
  vassert (length address =? VBK_ADDRESS_SIZE)%nat "address.length() == VBK_ADDRESS_SIZE".

Definition getDataPortionFromAddress (address : list Z) : result (list Z) :=
  assert_size address;; substr address 0 (MULTISIG_ADDRESS_DATA_END + 1).

Definition isMultisig (address : list Z) : result bool :=
  assert_size address;;
  c ← char_at address (VBK_ADDRESS_SIZE - 1); Ok (c =? MULTISIG_ENDING_CHAR).

Definition getChecksumPortionFromAddress (address : list Z) (multisig : bool) : result (list Z) :=
  assert_size address;;
  if multisig then
    substr address (MULTISIG_ADDRESS_DATA_END + 1) (MULTISIG_ADDRESS_CHECKSUM_END - MULTISIG_ADDRESS_DATA_END)
  else substr_from address (MULTISIG_ADDRESS_DATA_END + 1).

Definition isBase58String (input : list Z) : result unit := _ ← DecodeBase58 input; Ok tt.
Definition isBase59String (input : list Z) : result unit := _ ← DecodeBase59 input; Ok tt.

Definition decodeNumber (input : list Z) : result Z :=
  v ← DecodeBase58 input;
  match v with
  | [] => Undef "ret[0] of an empty vector"
  | d :: _ => Ok (d + 1)
  end.

Section address.
Context `{Hashes}.

Definition calculateChecksum (data : list Z) (multisig : bool) : result (list Z) :=
  let hash := sha256 data in
  checksum ← EncodeBase58 hash;
  if multisig then substr checksum 0 (3 + 1) else substr checksum 0 (4 + 1).

Definition getType (a : Address) : AddressType := m_Type a.
Definition toString (a : Address) : list Z := m_Address a.

Definition addressChecksum (address : Address) : result (list Z) :=
  calculateChecksum (toString address) (bool_decide (getType address = MULTISIG)).

(** [Address::fromPublicKey] *)
Definition fromPublicKey (publicKey : list Z) : result Address :=
  let keyHash := sha256 publicKey in
  keyHashEncoded ← EncodeBase58 keyHash;
  k ← substr keyHashEncoded 0 MULTISIG_ADDRESS_DATA_END;
  let data := STARTING_CHAR :: k in
  checksum ← calculateChecksum data false;
  Ok (mkAddress STANDARD (data ++ checksum)).

(** [operator==] compares the texts only. *)
Definition address_eqb (a b : Address) : bool := bool_decide (m_Address a = m_Address b).

Definition isDerivedFromPublicKey (a : Address) (publicKey : list Z) : result bool :=
  expectedAddress ← fromPublicKey publicKey;
  if negb (address_eqb a expectedAddress) then Ok false
  else
    c1 ← addressChecksum a;
    c2 ← addressChecksum expectedAddress;
    Ok (bool_decide (c1 = c2)).

(** The multisig branch of [fromString]. *)
Definition checkMultisig (input : list Z) : result unit :=
  isBase59String input ?! "addr-bad-multisig-content";;
  cm ← char_at input MULTISIG_ADDRESS_M_VALUE;
  m ← decodeNumber [cm] ?! "addr-multisig-bad-m";
  cn ← char_at input MULTISIG_ADDRESS_N_VALUE;
  n ← decodeNumber [cn] ?! "addr-multisig-bad-n";
  if n <? MULTISIG_ADDRESS_MIN_N_VALUE then invalid "addr-multisig-bad-n-too-small"
  else if n <? m then invalid "addr-multisig-bad-mn"
  else if (MULTISIG_ADDRESS_MAX_N_VALUE <? n) || (MULTISIG_ADDRESS_MAX_M_VALUE <? m) then
    invalid "addr-multisig-bad-mn-too-many"
  else
    remainder ← substr input 0 (VBK_ADDRESS_SIZE - 1);
    isBase58String remainder ?! "addr-multisig-bad-remainder".

(** [Address::fromString]: the new value of the object. *)
Definition fromString (input : list Z) : result Address :=
  if negb (length input =? VBK_ADDRESS_SIZE)%nat then invalid "addr-bad-length"
  else
    c ← char_at input 0;
    if negb (c =? STARTING_CHAR) then invalid "addr-bad-starting-char"
    else
      data ← getDataPortionFromAddress input;
      multisig ← isMultisig input;
      checksum ← getChecksumPortionFromAddress input multisig;
      (if multisig then checkMultisig input else isBase58String input ?! "addr-bad");;
      expectedChecksum ← calculateChecksum data multisig;
      if negb (bool_decide (expectedChecksum = checksum)) then invalid "addr-bad-checksum"
      else Ok (mkAddress (if (multisig : bool) then MULTISIG else STANDARD) input).

(** The bytes of a text of a type; an invalid text fires the assertion of the
    callers. *)
Definition decodeText (t : AddressType) (text : list Z) : result (list Z) :=
  let r := match t with STANDARD => DecodeBase58 text | MULTISIG => DecodeBase59 text end in
  match r with
  | Invalid _ => Assert "cannot decode address"
  | _ => r
  end.

Definition Address_toVbkEncoding (a : Address) : writer := λ w,
  w ← writeBE uint8_t (type_code (getType a)) 1 w;
  decoded ← decodeText (getType a) (toString a);
  writeSingleByteLenValue decoded w.

Definition Address_estimateSize (a : Address) : result Z :=
  decoded ← decodeText (getType a) (toString a);
  n ← singleByteLenValueSize (Z.of_nat (length decoded));
  Ok (addsize 1 n).

(** [getPopBytes] writes the first bytes of the decoded text. *)
Definition getPopBytes (a : Address) : writer := λ w,
  data ← substr_from (m_Address a) 1;
  bytes ← decodeText (getType a) data;
  if (length bytes <? ADDRESS_POP_DATA_SIZE_PROGPOW)%nat then Undef "read past the decoded bytes"
  else write (take ADDRESS_POP_DATA_SIZE_PROGPOW bytes) w.

(** [DeserializeFromVbkEncoding(ReadStream&, Address&, ...)] *)
Definition Address_fromVbkEncoding : reader Address :=
  addressType <- fails (readBE uint8_t 1) "address-type";;
  addressBytes <- fails (readSingleByteLenValue 0 (Z.of_nat VBK_ADDRESS_SIZE)) "address-bytes-len";;
  addressText <- (λ s, text ← (if addressType =? type_code STANDARD then EncodeBase58 addressBytes
                               else if addressType =? type_code MULTISIG then EncodeBase59 addressBytes
                               else invalid "invalid-address-type"); Ok (text, s));;
  fails (λ s, a ← fromString addressText; Ok (a, s)) "bad-addr".

Definition Address_encoding (a : Address) : list Z :=
  be_bytes (type_code (m_Type a)) 1 ++
  match decodeText (m_Type a) (m_Address a) with Ok v => enc_sbl v | _ => [] end.

(** Objects that [fromString] made. *)
Definition Address_valid (a : Address) : Prop :=
  bytes_ok (m_Address a) ∧ fromString (m_Address a) = Ok a.

#[global] Instance Address_codec : Codec Address := {
  toVbkEncoding := Address_toVbkEncoding;
  fromVbkEncoding := Address_fromVbkEncoding;
  estimateSize := Address_estimateSize;
  encoding := Address_encoding;
  valid := Address_valid;
  encodable := Address_valid;
  max_size := 32
}.
(** ** The decoders on address texts *)
Definition decoder (t : AddressType) : list Z → result (list Z) :=
  match t with STANDARD => DecodeBase58 | MULTISIG => DecodeBase59 end.
Definition encoder (t : AddressType) : list Z → result (list Z) :=
  match t with STANDARD => EncodeBase58 | MULTISIG => EncodeBase59 end.

Lemma decodeText_Ok t text v : decoder t text = Ok v → decodeText t text = Ok v.
Proof. unfold decodeText, decoder. by destruct t; intros ->. Qed.

Lemma calculateChecksum_total data multisig : ∃ c, calculateChecksum data multisig = Ok c ∧
  length c = (if multisig then 4 else 5)%nat ∧ Forall (λ c, IsSpace c = false) c.
Proof.
  unfold calculateChecksum. destruct (EncodeBase58_spec (sha256 data) (sha256_bytes _)) as (ds & E & _).
  destruct (EncodeBase58_chars _ _ (sha256_bytes data) E) as [Hc Hl]. rewrite sha256_length in Hl. rewrite E.
  set (s := repeat 49 _ ++ _) in *. cbn [mbind result_bind].
  assert (Forall (λ c, IsSpace c = false) s) by (eapply Forall_impl; [exact Hc|]; by intros c [? _]).
  destruct multisig; unfold substr, substr_from; rewrite (proj2 (Nat.ltb_ge _ _)) by lia;
    cbn [mbind result_bind]; eexists; (split; [done|]); rewrite drop_0;
    (split; [rewrite length_take; lia|by apply Forall_take]).
Qed.

Lemma lookup_ok (s : list Z) i : (i < length s)%nat → char_at s i = Ok (nth i s 0).
Proof.
  intros [c E]%lookup_lt_is_Some. unfold char_at. rewrite E. by rewrite (nth_lookup_Some _ _ _ _ E).
Qed.

(** The parts of [fromString] on a text of the right size. *)
Lemma fromString_eq input : length input = VBK_ADDRESS_SIZE → nth 0 input 0 = STARTING_CHAR →
  let multisig := nth 29 input 0 =? MULTISIG_ENDING_CHAR in
  fromString input =
    ((if multisig then checkMultisig input else isBase58String input ?! "addr-bad");;
     c ← calculateChecksum (take 25 input) multisig;
     if negb (bool_decide (c = if multisig then take 4 (drop 25 input) else drop 25 input)) then
       invalid "addr-bad-checksum"
     else Ok (mkAddress (if multisig then MULTISIG else STANDARD) input)).
Proof.
  intros Hl Hc. cbn zeta. unfold fromString, getDataPortionFromAddress, isMultisig, getChecksumPortionFromAddress,
    assert_size. rewrite Hl. cbn [Nat.eqb negb VBK_ADDRESS_SIZE vassert mbind result_bind].
  rewrite !lookup_ok by (rewrite Hl; unfold VBK_ADDRESS_SIZE; lia). cbn [mbind result_bind].
  rewrite Hc, Z.eqb_refl. cbn [negb]. unfold substr, substr_from. rewrite Hl.
  cbn [mbind result_bind Nat.ltb Nat.leb VBK_ADDRESS_SIZE MULTISIG_ADDRESS_DATA_END Nat.add Nat.sub].
  rewrite drop_0. by destruct (_ =? _).
Qed.

Lemma fromString_inv input a : fromString input = Ok a →
  length input = VBK_ADDRESS_SIZE ∧ nth 0 input 0 = STARTING_CHAR ∧ m_Address a = input.
Proof.
  intros E. unfold fromString in E. destruct (Nat.eqb_spec (length input) VBK_ADDRESS_SIZE) as [Hl|]; [|done].
  rewrite lookup_ok in E by (rewrite Hl; unfold VBK_ADDRESS_SIZE; lia). cbn [negb mbind result_bind] in E.
  destruct (Z.eqb_spec (nth 0 input 0) STARTING_CHAR) as [Hc|]; [|done]. cbn [negb] in E. inv_ok.
  destruct (negb _); [done|]. inv_ok. done.
Qed.

(** What a valid address promises to the byte form. *)
Lemma valid_decoded a : Address_valid a → ∃ v, decoder (m_Type a) (m_Address a) = Ok v ∧
  encoder (m_Type a) v = Ok (m_Address a) ∧ bytes_ok v ∧ (length v <= VBK_ADDRESS_SIZE)%nat.
Proof.
  destruct a as [t input]. unfold Address_valid. cbn [m_Type m_Address]. intros [Hb E].
  destruct (fromString_inv _ _ E) as (Hl & Hc & _). rewrite fromString_eq in E by done.
  apply bind_Ok in E as ([] & Em & E). apply bind_Ok in E as (c & Ec & E). destruct (_ =? _).
  - destruct (negb _); [done|]. injection E as <-. cbn [decoder encoder].
    unfold checkMultisig, isBase59String in Em. inv_ok.
    match goal with Hd : DecodeBase59 input = Ok ?o |- _ => rename o into v; rename Hd into Hv end.
    exists v. pose proof (DecodeBase59_ascii _ _ Hb Hv) as Ha. split_and!; [done|..].
    + by apply (DecodeBase59_correct _ _ Ha).
    + by apply (DecodeBase59_correct _ _ Ha).
    + rewrite <- Hl. by apply DecodeBase59_length.
  - destruct (calculateChecksum_total (take 25 input) false) as (c' & Ec' & _ & Hsp).
    rewrite Ec in Ec'. injection Ec' as <-.
    case_bool_decide as Echk; [|done]. cbn [negb] in E. injection E as <-. cbn [decoder encoder].
    unfold isBase58String in Em. inv_ok.
    match goal with Hd : DecodeBase58 input = Ok ?o |- _ => rename o into v; rename Hd into Hv end.
    exists v. pose proof (proj1 (DecodeBase58_correct _ _ Hb) Hv) as (Hvb & s & sp1 & sp2 & Es & Ei & Hs1 & Hs2).
    split_and!; [done| |done|rewrite <- Hl; by apply DecodeBase58_length].
    destruct Hs1 as [|w sp1 Hw _]; [|by subst input; cbn in Hc; subst w].
    destruct sp2 as [|w sp2 _] using rev_ind; [by rewrite app_nil_r in Ei; subst input|]. exfalso.
    apply Forall_app in Hs2 as [_ Hw%Forall_inv]. cbn [app] in Ei. rewrite app_assoc in Ei.
    rewrite Ei in Hsp. rewrite Ei, length_app in Hl. cbn [length] in Hl. unfold VBK_ADDRESS_SIZE in Hl.
    rewrite drop_app_le in Hsp by lia. apply Forall_app in Hsp as [_ Hsp%Forall_inv]. cbv beta in *; congruence.
Qed.
(** ** [fromString] is defined on every ASCII text *)
Lemma decodeNumber_safe c : b59_char c → safe (decodeNumber [c]).
Proof.
  intros Hc. destruct (b59_char_ok c Hc) as [Hsp Ha]. assert (bytes_ok [c]) as Hb.
  { constructor; [unfold byte_ok; lia|constructor]. }
  unfold decodeNumber. pose proof (DecodeBase58_safe [c] Hb) as Hs.
  destruct (DecodeBase58 [c]) as [out| | | | |] eqn:E; try done. cbn [mbind result_bind].
  destruct (DecodeBase58_chars [c]) as (out' & E' & Hl).
  { eapply Decode58_b58; [done| |exact E]. by constructor. }
  rewrite E in E'. injection E' as <-. destruct out; [simpl in Hl; lia|done].
Qed.

Lemma checkMultisig_safe input : length input = VBK_ADDRESS_SIZE → ascii_chars input →
  safe (checkMultisig input).
Proof.
  intros Hl Ha. assert (bytes_ok input) as Hb.
  { eapply Forall_impl; [exact Ha|]. unfold byte_ok. intros c. cbv beta. lia. }
  unfold checkMultisig, isBase59String. apply bind_safe.
  { apply or_invalid_safe, bind_safe; [by apply DecodeBase59_safe|done]. }
  intros u Hd. apply or_invalid_Ok, bind_Ok in Hd as (out & Hd & _).
  pose proof (Decode59_b59 _ _ Hb Hd) as Hc.
  assert (∀ i, (i < 30)%nat → b59_char (nth i input 0)) as Hnth.
  { intros i Hi. rewrite Forall_forall in Hc. apply Hc, list_elem_of_In, nth_In. by rewrite Hl. }
  assert (∀ i, (i < 30)%nat → char_at input i = Ok (nth i input 0)) as Hat.
  { intros i Hi. apply lookup_ok. by rewrite Hl. }
  rewrite (Hat MULTISIG_ADDRESS_M_VALUE) by (unfold MULTISIG_ADDRESS_M_VALUE; lia). cbn [mbind result_bind].
  apply bind_safe; [apply or_invalid_safe, decodeNumber_safe, Hnth; unfold MULTISIG_ADDRESS_M_VALUE; lia|].
  intros m _. rewrite (Hat MULTISIG_ADDRESS_N_VALUE) by (unfold MULTISIG_ADDRESS_N_VALUE; lia).
  cbn [mbind result_bind].
  apply bind_safe; [apply or_invalid_safe, decodeNumber_safe, Hnth; unfold MULTISIG_ADDRESS_N_VALUE; lia|]. intros n _.
  destruct (_ <? _); [done|]. destruct (_ <? _); [done|]. destruct (_ || _); [done|].
  unfold substr, substr_from. destruct (_ <? _)%nat eqn:E; [by apply Nat.ltb_lt in E; lia|]. cbn [mbind result_bind].
  apply or_invalid_safe, bind_safe; [|done]. by apply DecodeBase58_safe, Forall_take.
Qed.

Lemma fromString_safe input : ascii_chars input → safe (fromString input).
Proof.
  intros Ha. destruct (Nat.eqb_spec (length input) VBK_ADDRESS_SIZE) as [Hl|Hl].
  2:{ unfold fromString. by rewrite (proj2 (Nat.eqb_neq _ _)). }
  destruct (Z.eqb_spec (nth 0 input 0) STARTING_CHAR) as [Hc|Hc].
  2:{ unfold fromString. rewrite lookup_ok by (rewrite Hl; unfold VBK_ADDRESS_SIZE; lia).
      cbn [mbind result_bind]. rewrite (proj2 (Z.eqb_neq _ _)) by done. by destruct (negb _). }
  rewrite fromString_eq by done. apply bind_safe.
  - destruct (_ =? _); [by apply checkMultisig_safe|]. apply or_invalid_safe, bind_safe; [|done].
    apply DecodeBase58_safe. eapply Forall_impl; [exact Ha|]. unfold byte_ok. intros c. cbv beta. lia.
  - intros u _. destruct (calculateChecksum_total (take 25 input) (nth 29 input 0 =? MULTISIG_ENDING_CHAR))
      as (c & -> & _). cbn [mbind result_bind]. by destruct (negb _).
Qed.

(** ** The byte form *)
Lemma encoding_eq a v : decoder (m_Type a) (m_Address a) = Ok v →
  Address_encoding a = be_bytes (type_code (m_Type a)) 1 ++ enc_sbl v.
Proof. intros E. unfold Address_encoding. by rewrite (decodeText_Ok _ _ _ E). Qed.

Lemma type_code_byte t : byte_ok (type_code t).
Proof. destruct t; unfold byte_ok; simpl; lia. Qed.

#[global] Instance Address_laws : CodecLaws Address.
Proof.
  split.
  - done.
  - intros a Ha. destruct (valid_decoded a Ha) as (v & E & _ & _ & Hl). cbn [toVbkEncoding encoding Address_codec].
    intros w. unfold Address_toVbkEncoding, getType, toString. rewrite (encoding_eq a v E), (decodeText_Ok _ _ _ E).
    rewrite writes_byte. cbn [mbind result_bind]. rewrite writes_sbl by (unfold VBK_ADDRESS_SIZE in Hl; lia).
    by rewrite <- app_assoc.
  - intros a Ha. destruct (valid_decoded a Ha) as (v & E & _ & _ & Hl). unfold VBK_ADDRESS_SIZE in Hl.
    cbn [estimateSize encoding Address_codec]. unfold Address_estimateSize, getType, toString.
    rewrite (encoding_eq a v E), (decodeText_Ok _ _ _ E). cbn [mbind result_bind].
    rewrite size_sbl by lia. cbn [mbind result_bind]. unfold size_of.
    rewrite length_app, length_be_bytes, length_enc_sbl, addsize_ok by lia. f_equal. lia.
  - intros a Ha. destruct (valid_decoded a Ha) as (v & E & _ & _ & Hl). unfold VBK_ADDRESS_SIZE in Hl.
    cbn [encoding max_size Address_codec]. rewrite (encoding_eq a v E). unfold size_of.
    rewrite length_app, length_be_bytes, length_enc_sbl. lia.
  - intros a Ha. destruct (valid_decoded a Ha) as (v & E & Henc & _ & Hl). unfold VBK_ADDRESS_SIZE in Hl.
    cbn [fromVbkEncoding encoding Address_codec]. rewrite (encoding_eq a v E). unfold Address_fromVbkEncoding.
    eapply reads_bind; [apply reads_fails, reads_byte, type_code_byte|].
    rewrite <- (app_nil_r (enc_sbl v)).
    eapply reads_bind; [apply reads_fails, reads_sbl; unfold VBK_ADDRESS_SIZE; lia|].
    rewrite <- (app_nil_r []). eapply reads_bind.
    + intros s rest _. unfold encoder in Henc. destruct (m_Type a); simpl type_code; cbn [Z.eqb Pos.eqb];
        rewrite Henc; cbn [mbind result_bind]; by destruct s; unfold advance; simpl; rewrite Nat.add_0_r.
    + apply reads_fails. intros s rest _. rewrite (proj2 Ha). cbn [mbind result_bind].
      by destruct s; unfold advance; simpl; rewrite Nat.add_0_r.
  - cbn [fromVbkEncoding valid Address_codec]. unfold Address_fromVbkEncoding.
    eapply safe_bind; [apply safe_fails, safe_byte|]. intros t _.
    eapply safe_bind; [apply safe_fails, safe_sbl|]. intros v [Hv _].
    apply (safe_bind ascii_chars).
    + intros s Hs. destruct (t =? type_code STANDARD); [|destruct (t =? type_code MULTISIG); [|done]].
      * destruct (EncodeBase58_spec v Hv) as (ds & E & _). pose proof (EncodeBase58_chars _ _ Hv E) as [Hc _].
        rewrite E. cbn [mbind result_bind fst snd]. split; [done|]. eapply Forall_impl; [exact Hc|].
        intros c. cbv beta. lia.
      * destruct (EncodeBase59_spec v Hv) as (ds & E & _). pose proof (EncodeBase59_chars _ _ Hv E) as Hc.
        rewrite E. done.
    + intros text Ht. apply safe_fails. intros s Hs. pose proof (fromString_safe text Ht) as Hsafe.
      destruct (fromString text) as [a| | | | |] eqn:E; try done. cbn [mbind result_bind fst snd].
      split; [done|]. destruct (fromString_inv _ _ E) as (_ & _ & Ea). split; [|by rewrite Ea].
      rewrite Ea. eapply Forall_impl; [exact Ht|]. unfold byte_ok. intros c. cbv beta. lia.
Qed.

(** ** Addresses of public keys *)
Lemma calculateChecksum_b58 data c : calculateChecksum data false = Ok c → Forall b58_char c.
Proof.
  unfold calculateChecksum. intros E. apply bind_Ok in E as (s & Es & E). unfold substr, substr_from in E.
  destruct (_ <? _)%nat; [done|]. injection E as <-. rewrite drop_0.
  apply Forall_take. by eapply EncodeBase58_b58; [apply sha256_bytes|].
Qed.

Lemma fromPublicKey_eq publicKey : ∃ k c,
  fromPublicKey publicKey = Ok (mkAddress STANDARD ((STARTING_CHAR :: k) ++ c)) ∧
  length k = 24%nat ∧ Forall b58_char k ∧ calculateChecksum (STARTING_CHAR :: k) false = Ok c.
Proof.
  unfold fromPublicKey. destruct (EncodeBase58_spec (sha256 publicKey) (sha256_bytes _)) as (ds & Ek & _).
  pose proof (EncodeBase58_b58 _ _ (sha256_bytes publicKey) Ek) as Hk.
  destruct (EncodeBase58_chars _ _ (sha256_bytes publicKey) Ek) as [_ Hl]. rewrite sha256_length in Hl.
  rewrite Ek. cbn [mbind result_bind]. set (s := repeat 49 _ ++ _) in *. unfold substr, substr_from.
  rewrite (proj2 (Nat.ltb_ge _ _)) by lia. cbn [mbind result_bind]. rewrite drop_0.
  destruct (calculateChecksum_total (STARTING_CHAR :: take MULTISIG_ADDRESS_DATA_END s) false) as (c & Ec & _).
  exists (take MULTISIG_ADDRESS_DATA_END s), c. rewrite Ec. split; [done|]. split; [|split; [by apply Forall_take|done]].
  rewrite length_take. unfold MULTISIG_ADDRESS_DATA_END. lia.
Qed.

Lemma standard_valid k c : length k = 24%nat → Forall b58_char k → calculateChecksum (STARTING_CHAR :: k) false = Ok c →
  Address_valid (mkAddress STANDARD ((STARTING_CHAR :: k) ++ c)).
Proof.
  intros Hk Hkc Ec. destruct (calculateChecksum_total (STARTING_CHAR :: k) false) as (c' & Ec' & Hlc & _).
  rewrite Ec in Ec'. injection Ec' as <-. set (input := (STARTING_CHAR :: k) ++ c).
  assert (Forall b58_char input) as Hc.
  { apply Forall_app. split; [constructor; [|done]|by eapply calculateChecksum_b58].
    exists 28. split; [unfold digit; lia|done]. }
  assert (length input = 30%nat) as Hlen by (unfold input; rewrite length_app; cbn [length]; lia).
  split; [by apply b58_bytes|]. cbn [m_Address]. rewrite fromString_eq by done.
  assert (nth 29 input 0 =? MULTISIG_ENDING_CHAR = false) as ->.
  { apply Z.eqb_neq. rewrite Forall_forall in Hc.
    destruct (Hc (nth 29 input 0)) as (d & Hd & E); [apply list_elem_of_In, nth_In; lia|].
    rewrite <- E. by apply char58_not_zero. }
  unfold isBase58String. destruct (DecodeBase58_chars input Hc) as (out & -> & _). cbn [mbind result_bind or_invalid].
  unfold input. rewrite take_app_length', drop_app_length' by (cbn [length]; lia).
  rewrite Ec. cbn [mbind result_bind]. by rewrite bool_decide_true.
Qed.

(** The address of a public key is a valid standard address, and is
    recognised as derived from the key. *)
Lemma fromPublicKey_valid publicKey : ∃ a, fromPublicKey publicKey = Ok a ∧ Address_valid a ∧
  m_Type a = STANDARD ∧ isDerivedFromPublicKey a publicKey = Ok true.
Proof.
  destruct (fromPublicKey_eq publicKey) as (k & c & E & Hk & Hkc & Ec). eexists. split; [exact E|].
  split; [by apply standard_valid|]. split; [done|]. unfold isDerivedFromPublicKey. rewrite E.
  cbn [mbind result_bind]. unfold address_eqb. rewrite bool_decide_true by done. cbn [negb].
  unfold addressChecksum. cbn [getType m_Type].
  destruct (calculateChecksum_total (toString (mkAddress STANDARD ((STARTING_CHAR :: k) ++ c)))
    (bool_decide (STANDARD = MULTISIG))) as (c' & -> & _).
  cbn [mbind result_bind]. by rewrite bool_decide_true.
Qed.

(** Only that address is. *)
Lemma isDerivedFromPublicKey_iff a publicKey : Address_valid a → ∃ d,
  isDerivedFromPublicKey a publicKey = Ok d ∧ (d = true ↔ fromPublicKey publicKey = Ok a).
Proof.
  intros [_ Ha]. destruct (fromPublicKey_valid publicKey) as (e & E & [_ He] & _ & Hd).
  destruct (decide (m_Address a = m_Address e)) as [Et|Et].
  - assert (a = e) as -> by (rewrite Et in Ha; congruence). by exists true.
  - exists false. split; [|split; [done|]; rewrite E; congruence].
    unfold isDerivedFromPublicKey. rewrite E. cbn [mbind result_bind]. unfold address_eqb. by rewrite bool_decide_false.
Qed.

(** The address bytes of a publication are defined for every valid address:
    the decoded text is never shorter than what is copied. *)
Lemma getPopBytes_total a : Address_valid a → ∃ e, writes (getPopBytes a) e ∧
  length e = ADDRESS_POP_DATA_SIZE_PROGPOW.
Proof.
  intros Ha. destruct (valid_decoded a Ha) as (v & E & Henc & Hv & _). destruct a as [t text].
  destruct (fromString_inv _ _ (proj2 Ha)) as (Hl & Hc & _). cbn [m_Type m_Address] in *. unfold VBK_ADDRESS_SIZE in Hl.
  assert (∃ out, decoder t (drop 1 text) = Ok out ∧ (29 <= length out * 2)%nat) as (out & Eo & Ho).
  { replace 29%nat with (length (drop 1 text)) by (rewrite length_drop; lia). destruct t; cbn [decoder encoder] in *.
    - apply DecodeBase58_chars, Forall_drop. by eapply EncodeBase58_b58.
    - apply DecodeBase59_chars, Forall_drop. eapply Decode59_b59; [apply Ha|done]. }
  exists (take ADDRESS_POP_DATA_SIZE_PROGPOW out). unfold ADDRESS_POP_DATA_SIZE_PROGPOW. split.
  - intros w. unfold getPopBytes, substr_from, getType. cbn [m_Address m_Type]. rewrite Hl. change (30 <? 1)%nat with false.
    cbn [mbind result_bind]. rewrite (decodeText_Ok _ _ _ Eo). cbn [mbind result_bind].
    rewrite (proj2 (Nat.ltb_ge _ _)) by (unfold ADDRESS_POP_DATA_SIZE_PROGPOW; lia). done.
  - rewrite length_take. lia.
Qed.

(** An address that was parsed from a text keeps its text and type through
    the byte form. *)
Lemma Address_roundtrip text a : bytes_ok text → fromString text = Ok a →
  m_Address a = text ∧ SerializeToVbkEncoding a = Ok (encoding a) ∧
  DeserializeFromVbkEncoding (encoding a) = Ok a ∧ estimateSize a = Ok (size_of (encoding a)).
Proof.
  intros Hb E. destruct (fromString_inv _ _ E) as (_ & _ & Ea).
  assert (Address_valid a) as Ha by (split; rewrite Ea; done).
  split_and!; [done|by apply serialize_valid|by apply roundtrip|by apply codec_size].
Qed.
End address.

(** ** A concrete hash for the witnesses *)
Definition toy_hashes : Hashes.
Proof.
  refine {| sha256 := λ v, repeat (fold_left Z.add v 0 mod 256) 32 |}.
  - intros v. apply Forall_repeat. unfold byte_ok. apply Z.mod_pos_bound. lia.
  - intros v. apply repeat_length.
Defined.

Definition toy_address : Address :=
  match @fromPublicKey toy_hashes [1; 2; 3] with Ok a => a | _ => mkAddress STANDARD [] end.

Lemma toy_address_valid : @Address_valid toy_hashes toy_address.
Proof.
  split.
  - apply (bool_decide_unpack _). by vm_compute.
  - apply (bool_decide_unpack _). by vm_compute.
Defined.

Lemma Address_roundtrip_witness :
  @fromString toy_hashes (m_Address toy_address) = Ok toy_address ∧
  @estimateSize _ (@Address_codec toy_hashes) toy_address = Ok 24.
Proof.
  destruct (Address_roundtrip (H := toy_hashes) (m_Address toy_address) toy_address) as (_ & _ & _ & Hs).
  - apply toy_address_valid.
  - apply toy_address_valid.
  - split; [apply toy_address_valid|]. etrans; [exact Hs|]. by vm_compute.
Defined.
