(* ===== verification/Blocks.v ===== *)
(** * Block headers ([btcblock.cpp], [vbkblock.cpp], [altblock.cpp])

    Fields are integers at their width and hashes ([Blob<N>]) lists of bytes.
    The cache [hash_] of a header is kept next to it, in [Cached]: it is not
    part of the serialized object and is ignored by [operator==]. *)
From Stdlib Require Import String.
From S2P Require Import Prelude Serde Base58 Address.

(** ** Constants ([consts.hpp], [ct_params.hpp.in]) *)
Definition SHA256_HASH_SIZE : nat := 32.
Definition BTC_HEADER_SIZE : Z := 80.
Definition VBK_HEADER_SIZE_PROGPOW : Z := 65.
Definition VBK_PREVIOUS_BLOCK_HASH_SIZE : nat := 12.
Definition VBK_PREVIOUS_KEYSTONE_HASH_SIZE : nat := 9.
Definition VBK_MERKLE_ROOT_HASH_SIZE : nat := 16.
Definition BTC_BLOCK_HASH_SIZE : nat := 32.
Definition VBK_BLOCK_HASH_SIZE : nat := 24.

(** The size of altchain hashes is chosen when the library is built. *)
Class CtParams := {
  ALT_HASH_SIZE : Z;
  ALT_HASH_SIZE_range : 0 < ALT_HASH_SIZE < 1000
}.

(** [progPowHash], and SHA-256 of hash pairs ([hashutil.cpp]). *)
Class ProgPow := {
  progPowHash : list Z → list Z;
  progPowHash_ok : ∀ v, blob_ok VBK_BLOCK_HASH_SIZE (progPowHash v)
}.

Definition sha256twice `{Hashes} (data : list Z) : list Z := sha256 (sha256 data).
Definition sha256_pair `{Hashes} (a b : list Z) : list Z := sha256 (a ++ b).
Definition sha256twice_pair `{Hashes} (a b : list Z) : list Z := sha256 (sha256_pair a b).

(** [Blob::trim], [Blob::trimLE] *)
Definition trim (M : nat) (v : list Z) : list Z := take M v.
Definition trimLE (M : nat) (v : list Z) : list Z := drop (length v - M) v.

(** ** The cache of a block hash *)
Record Cached (B : Type) := mkCached { cached_block : B; hash_ : list Z }.
Arguments mkCached {B}. Arguments cached_block {B}. Arguments hash_ {B}.

Section cache.
Context {B : Type} (calculateHash : B → list Z) (hash_size : nat).

Definition empty_hash : list Z := replicate hash_size 0.

(** [getHash]: the hash and the object with the cache filled. *)
Definition getHash (b : Cached B) : list Z * Cached B :=
  let b := if bool_decide (hash_ b = empty_hash)
           then mkCached (cached_block b) (calculateHash (cached_block b)) else b in
  (hash_ b, b).

(** A setter of a field, followed by [invalidateHash()]. *)
Definition set_field (f : B → B) (b : Cached B) : Cached B := mkCached (f (cached_block b)) empty_hash.

(** The cache is empty or the hash of the header. *)
Definition cache_ok (b : Cached B) : Prop :=
  hash_ b = empty_hash ∨ hash_ b = calculateHash (cached_block b).

(** A sequence of calls of getters and setters on one object. *)
Inductive cache_op := GetHash | SetField (f : B → B).
Definition run_op (b : Cached B) (o : cache_op) : Cached B :=
  match o with GetHash => (getHash b).2 | SetField f => set_field f b end.

Lemma getHash_ok b : cache_ok b → (getHash b).1 = calculateHash (cached_block b) ∧ cache_ok (getHash b).2 ∧
  cached_block (getHash b).2 = cached_block b.
Proof.
  intros Hb. unfold getHash. case_bool_decide as E; cbn [fst snd hash_ cached_block].
  - split_and!; [done|by right|done].
  - destruct Hb as [|Hb]; [done|]. split_and!; [done|by right|done].
Qed.

Lemma run_op_ok b o : cache_ok b → cache_ok (run_op b o).
Proof. intros Hb. destruct o; [by apply getHash_ok|by left]. Qed.

(** Whatever was read and changed before, [getHash] returns the hash of the
    current header. *)
Lemma getHash_after b os : cache_ok b →
  (getHash (fold_left run_op os b)).1 = calculateHash (cached_block (fold_left run_op os b)).
Proof.
  intros Hb. apply getHash_ok. revert b Hb. induction os as [|o os IH]; intros b Hb; [done|].
  cbn [fold_left]. by apply IH, run_op_ok.
Qed.
End cache.

(** ** [BtcBlock] *)
Module Btc.
Record BtcBlock := mkBtcBlock {
  version : Z;
  previousBlock : list Z;
  merkleRoot : list Z;
  timestamp : Z;
  bits : Z;
  nonce : Z
}.

#[global] Instance BtcBlock_eq_dec : EqDecision BtcBlock.
Proof. solve_decision. Defined.

Definition toRaw (b : BtcBlock) : writer :=
  writeLE uint32_t (version b) +++
  write (rev (previousBlock b)) +++
  write (rev (merkleRoot b)) +++
  writeLE uint32_t (timestamp b) +++
  writeLE uint32_t (bits b) +++
  writeLE uint32_t (nonce b).

Definition toVbkEncoding (b : BtcBlock) : writer := λ w,
  raw ← written (toRaw b); writeSingleByteLenValue raw w.

Definition estimateSize (b : BtcBlock) : result Z :=
  rawSize ← accumulate [Ok 4; Ok (Z.of_nat (length (previousBlock b)));
                        Ok (Z.of_nat (length (merkleRoot b))); Ok 4; Ok 4; Ok 4];
  accumulate [singleByteLenValueSize rawSize].

Definition calculateHash `{Hashes} (b : BtcBlock) : list Z :=
  match written (toRaw b) with Ok raw => rev (sha256twice raw) | _ => [] end.

Definition DeserializeFromRaw (precalculatedHash : list Z) : reader (Cached BtcBlock) :=
  version <- fails (readLE int32_t) "btc-block-version";;
  previousBlock <- fails (readSlice SHA256_HASH_SIZE) "btc-block-previous";;
  merkleRoot <- fails (readSlice SHA256_HASH_SIZE) "btc-block-merkle-root";;
  timestamp <- fails (readLE uint32_t) "btc-block-timestamp";;
  bits <- fails (readLE uint32_t) "btc-block-difficulty";;
  nonce <- fails (readLE uint32_t) "btc-block-nonce";;
  ret (mkCached (mkBtcBlock version (rev previousBlock) (rev merkleRoot) timestamp bits nonce) precalculatedHash).

(** [DeserializeFromRaw] is called with its default hash, so it overwrites
    [out.hash_ = precalculatedHash]. *)
Definition DeserializeFromVbkEncoding (precalculatedHash : list Z) : reader (Cached BtcBlock) :=
  value <- fails (readSingleByteLenValue BTC_HEADER_SIZE BTC_HEADER_SIZE) "btc-block-bad-header";;
  on_slice (DeserializeFromRaw (empty_hash 32)) value.

(** The 80 bytes of a Bitcoin header. *)
Definition raw_parts (b : BtcBlock) : list (list Z) :=
  [le_bytes (conv uint32_t (version b)) 0 4; rev (previousBlock b); rev (merkleRoot b);
   le_bytes (conv uint32_t (timestamp b)) 0 4; le_bytes (conv uint32_t (bits b)) 0 4;
   le_bytes (conv uint32_t (nonce b)) 0 4].

Definition btc_encoding (b : BtcBlock) : list Z := enc_sbl (concat (raw_parts b)).

Definition btc_valid (b : BtcBlock) : Prop :=
  in_range int32_t (version b) ∧ blob_ok SHA256_HASH_SIZE (previousBlock b) ∧
  blob_ok SHA256_HASH_SIZE (merkleRoot b) ∧
  in_range uint32_t (timestamp b) ∧ in_range uint32_t (bits b) ∧ in_range uint32_t (nonce b).

#[global] Instance btc_valid_dec b : Decision (btc_valid b).
Proof. unfold btc_valid, blob_ok. apply _. Defined.

(** The header without its cache, in the form of a codec. *)
Definition fromVbkEncoding : reader BtcBlock :=
  b <- DeserializeFromVbkEncoding (empty_hash 32);; ret (cached_block b).
Definition setTimestamp (ts : Z) : Cached BtcBlock → Cached BtcBlock := set_field 32 (λ b,
  mkBtcBlock (version b) (previousBlock b) (merkleRoot b) ts (bits b) (nonce b)).
Definition setNonce (nnc : Z) : Cached BtcBlock → Cached BtcBlock := set_field 32 (λ b,
  mkBtcBlock (version b) (previousBlock b) (merkleRoot b) (timestamp b) (bits b) nnc).
Definition setVersion (v : Z) : Cached BtcBlock → Cached BtcBlock := set_field 32 (λ b,
  mkBtcBlock v (previousBlock b) (merkleRoot b) (timestamp b) (bits b) (nonce b)).
Definition setPreviousBlock (prev : list Z) : Cached BtcBlock → Cached BtcBlock := set_field 32 (λ b,
  mkBtcBlock (version b) prev (merkleRoot b) (timestamp b) (bits b) (nonce b)).
Definition setMerkleRoot (mr : list Z) : Cached BtcBlock → Cached BtcBlock := set_field 32 (λ b,
  mkBtcBlock (version b) (previousBlock b) mr (timestamp b) (bits b) (nonce b)).
Definition setDifficulty (diff : Z) : Cached BtcBlock → Cached BtcBlock := set_field 32 (λ b,
  mkBtcBlock (version b) (previousBlock b) (merkleRoot b) (timestamp b) diff (nonce b)).

Lemma btc_writes_raw b : writes (toRaw b) (concat (raw_parts b)).
Proof. unfold toRaw. cbn [concat raw_parts]. rewrite app_nil_r. writes_parts; (apply writes_LE || done). Qed.

Lemma btc_size_raw b : btc_valid b → size_of (concat (raw_parts b)) = 80.
Proof.
  intros (_ & [_ Hp] & [_ Hm] & _). unfold raw_parts. rewrite !size_concat_cons, !size_le_bytes.
  unfold size_of. rewrite !length_rev, Hp, Hm. done.
Qed.

Lemma btc_reads_raw b h : btc_valid b → reads (DeserializeFromRaw h) (concat (raw_parts b)) (mkCached b h).
Proof.
  intros (Hv & [_ Hp] & [_ Hm] & Ht & Hb & Hn). unfold DeserializeFromRaw. cbn [concat raw_parts].
  eapply reads_bind; [apply reads_fails, reads_LE; simpl; lia|].
  eapply reads_bind; [apply reads_fails, reads_slice; by rewrite length_rev|].
  eapply reads_bind; [apply reads_fails, reads_slice; by rewrite length_rev|].
  do 3 (eapply reads_bind; [apply reads_fails, reads_LE; simpl; lia|]).
  eapply reads_value; [apply reads_ret|]. rewrite !rev_involutive.
  rewrite !(conv_id uint32_t (conv uint32_t _)) by (first [simpl; lia | apply conv_range; simpl; lia]).
  rewrite (conv_id uint32_t (timestamp b)), (conv_id uint32_t (bits b)), (conv_id uint32_t (nonce b))
    by (done || simpl; lia).
  assert (conv int32_t (conv uint32_t (version b)) = version b) as ->; [|by destruct b].
  rewrite <- (conv_id int32_t (version b)) at 2 by (done || simpl; lia).
  apply conv_eq; [simpl; lia|]. apply (conv_mod uint32_t). simpl; lia.
Qed.

Lemma btc_safe_raw h : safe_reading (λ c, btc_valid (cached_block c)) (DeserializeFromRaw h).
Proof.
  unfold DeserializeFromRaw.
  eapply safe_bind; [apply safe_fails, safe_readLE; simpl; lia|]; intros v Hv.
  eapply safe_bind; [apply safe_fails, safe_readBlob|]; intros p [Hp Hpl].
  eapply safe_bind; [apply safe_fails, safe_readBlob|]; intros m [Hm Hml].
  do 3 (eapply safe_bind; [apply safe_fails, safe_readLE; simpl; lia|]; intros ? ?).
  apply safe_ret_with. unfold btc_valid.
  conjs ltac:(first [assumption | apply Forall_rev; assumption | simpl; rewrite length_rev; assumption]).
Qed.

#[global] Instance Btc_codec : Codec BtcBlock := {
  toVbkEncoding := toVbkEncoding;
  fromVbkEncoding := fromVbkEncoding;
  estimateSize := estimateSize;
  encoding := btc_encoding;
  valid := btc_valid;
  encodable := btc_valid;
  max_size := 81
}.

#[global] Instance Btc_laws : CodecLaws BtcBlock.
Proof.
  split; cbn [Serde.toVbkEncoding Serde.fromVbkEncoding Serde.estimateSize encoding valid encodable max_size Btc_codec].
  - done.
  - intros b Hb w. unfold toVbkEncoding. rewrite (written_writes _ _ (btc_writes_raw b)). cbn [mbind result_bind].
    apply writes_sbl. pose proof (btc_size_raw b Hb) as Hs. unfold size_of in Hs. lia.
  - intros b Hb. pose proof (btc_size_raw b Hb) as Hs. destruct Hb as (_ & [_ Hp] & [_ Hm] & _).
    unfold estimateSize. rewrite Hp, Hm. cbn [mbind result_bind].
    unfold btc_encoding. rewrite size_enc_sbl, Hs. reflexivity.
  - intros b Hb. unfold btc_encoding. rewrite size_enc_sbl, btc_size_raw by done. lia.
  - intros b Hb. pose proof (btc_size_raw b Hb) as Hs. unfold size_of in Hs. unfold fromVbkEncoding, btc_encoding.
    rewrite <- (app_nil_r (enc_sbl _)). apply (reads_bind _ _ _ _ (mkCached b (empty_hash 32))); [|apply reads_ret].
    unfold DeserializeFromVbkEncoding.
    rewrite <- (app_nil_r (enc_sbl _)).
    eapply reads_bind; [apply reads_fails, reads_sbl; unfold BTC_HEADER_SIZE; lia|].
    by apply reads_on_slice, btc_reads_raw.
  - unfold fromVbkEncoding. eapply safe_bind; [|intros c Hc; apply safe_ret_with, Hc].
    unfold DeserializeFromVbkEncoding. eapply safe_bind; [apply safe_fails, safe_sbl|]. intros v [Hv _].
    apply safe_on_slice; [done|]. apply btc_safe_raw.
Qed.

(** The hash passed to [DeserializeFromVbkEncoding] is lost. *)
Lemma precalculatedHash_dropped h : DeserializeFromVbkEncoding h = DeserializeFromVbkEncoding (empty_hash 32).
Proof. done. Qed.
End Btc.

(** ** [VbkBlock] *)
(** The tables of ethash end at epoch 4095 ([progpow/libethash]).
    [height / VBK_ETHASH_EPOCH_LENGTH] is computed on [int64_t]. *)
Definition VBK_MAX_CALCULATED_EPOCHS_SIZE : Z := 4096.
Definition VBK_ETHASH_EPOCH_LENGTH : Z := 8000.
Definition ethashGetEpochWithoutOffset (height : Z) : Z := u32 (Z.quot height VBK_ETHASH_EPOCH_LENGTH).

Module Vbk.
Record VbkBlock := mkVbkBlock {
  height : Z;
  version : Z;
  previousBlock : list Z;
  previousKeystone : list Z;
  secondPreviousKeystone : list Z;
  merkleRoot : list Z;
  timestamp : Z;
  difficulty : Z;
  nonce : Z
}.

#[global] Instance VbkBlock_eq_dec : EqDecision VbkBlock.
Proof. solve_decision. Defined.

Definition toRaw (b : VbkBlock) : writer :=
  writeBE int32_t (height b) 4 +++
  writeBE int16_t (version b) 2 +++
  write (previousBlock b) +++
  write (previousKeystone b) +++
  write (secondPreviousKeystone b) +++
  write (merkleRoot b) +++
  writeBE int32_t (timestamp b) 4 +++
  writeBE int32_t (difficulty b) 4 +++
  writeBE uint64_t (nonce b) 5.

Definition toVbkEncoding (b : VbkBlock) : writer := λ w,
  raw ← written (toRaw b); writeSingleByteLenValue raw w.

Definition estimateSize (b : VbkBlock) : result Z :=
  rawSize ← accumulate [Ok 4; Ok 2; Ok (Z.of_nat (length (previousBlock b)));
                        Ok (Z.of_nat (length (previousKeystone b)));
                        Ok (Z.of_nat (length (secondPreviousKeystone b)));
                        Ok (Z.of_nat (length (merkleRoot b))); Ok 4; Ok 4; Ok 5];
  accumulate [singleByteLenValueSize rawSize].

(** The value of the hash, and its computation: [ethash_get_cachesize] asserts that
    the epoch of the height is in the tables.  [calculateHash] is used of headers whose
    hash was computed before: the stateless checks, the search for duplicate ids and the
    construction of endorsements compute it with [computeHash]. *)
Definition calculateHash `{ProgPow} (b : VbkBlock) : list Z :=
  match written (toRaw b) with Ok raw => progPowHash raw | _ => [] end.
Definition hashable (b : VbkBlock) : bool := ethashGetEpochWithoutOffset (height b) <? VBK_MAX_CALCULATED_EPOCHS_SIZE.
Definition computeHash `{ProgPow} (b : VbkBlock) : result (list Z) :=
  vassert (hashable b) "epoch < VBK_MAX_CALCULATED_EPOCHS_SIZE";; Ok (calculateHash b).

Definition getShortHash `{ProgPow} (b : Cached VbkBlock) : list Z * Cached VbkBlock :=
  let r := getHash calculateHash VBK_BLOCK_HASH_SIZE b in (trimLE 12 r.1, r.2).

Definition DeserializeFromRaw (hash : list Z) : reader (Cached VbkBlock) :=
  height <- fails (readBE int32_t 4) "vbk-block-height";;
  version <- fails (readBE int16_t 2) "vbk-block-version";;
  previousBlock <- fails (readSlice VBK_PREVIOUS_BLOCK_HASH_SIZE) "vbk-block-previous";;
  previousKeystone <- fails (readSlice VBK_PREVIOUS_KEYSTONE_HASH_SIZE) "vbk-block-keystone1";;
  secondPreviousKeystone <- fails (readSlice VBK_PREVIOUS_KEYSTONE_HASH_SIZE) "vbk-block-keystone2";;
  merkleRoot <- fails (readSlice VBK_MERKLE_ROOT_HASH_SIZE) "vbk-block-merkle-root";;
  timestamp <- fails (readBE uint32_t 4) "vbk-block-timestamp";;
  difficulty <- fails (readBE int32_t 4) "vbk-block-difficulty";;
  nonce <- fails (readBE uint64_t 5) "vbk-block-nonce";;
  ret (mkCached (mkVbkBlock height version previousBlock previousKeystone secondPreviousKeystone
                   merkleRoot timestamp difficulty nonce) hash).

Definition DeserializeFromVbkEncoding (precalculatedHash : list Z) : reader (Cached VbkBlock) :=
  value <- fails (readSingleByteLenValue VBK_HEADER_SIZE_PROGPOW VBK_HEADER_SIZE_PROGPOW) "vbk-block-bad-header";;
  on_slice (DeserializeFromRaw precalculatedHash) value.

(** The 65 bytes of a VeriBlock header. *)
Definition raw_parts (b : VbkBlock) : list (list Z) :=
  [be_bytes (height b) 4; be_bytes (version b) 2; previousBlock b; previousKeystone b;
   secondPreviousKeystone b; merkleRoot b; be_bytes (timestamp b) 4; be_bytes (difficulty b) 4;
   be_bytes (nonce b) 5].

Definition vbk_encoding (b : VbkBlock) : list Z := enc_sbl (concat (raw_parts b)).

Definition vbk_valid (b : VbkBlock) : Prop :=
  in_range int32_t (height b) ∧ in_range int16_t (version b) ∧
  blob_ok VBK_PREVIOUS_BLOCK_HASH_SIZE (previousBlock b) ∧
  blob_ok VBK_PREVIOUS_KEYSTONE_HASH_SIZE (previousKeystone b) ∧
  blob_ok VBK_PREVIOUS_KEYSTONE_HASH_SIZE (secondPreviousKeystone b) ∧
  blob_ok VBK_MERKLE_ROOT_HASH_SIZE (merkleRoot b) ∧
  in_range uint32_t (timestamp b) ∧ in_range int32_t (difficulty b) ∧ in_range uint64_t (nonce b).

(** The nonce has five bytes. *)
Definition vbk_encodable (b : VbkBlock) : Prop := vbk_valid b ∧ 0 <= nonce b < 2 ^ 40.

#[global] Instance vbk_valid_dec b : Decision (vbk_valid b).
Proof. unfold vbk_valid, blob_ok. apply _. Defined.
#[global] Instance vbk_encodable_dec b : Decision (vbk_encodable b).
Proof. unfold vbk_encodable. apply _. Defined.

Definition fromVbkEncoding : reader VbkBlock :=
  b <- DeserializeFromVbkEncoding (empty_hash VBK_BLOCK_HASH_SIZE);; ret (cached_block b).
Definition setNonce (nnc : Z) : Cached VbkBlock → Cached VbkBlock := set_field VBK_BLOCK_HASH_SIZE (λ b,
  mkVbkBlock (height b) (version b) (previousBlock b) (previousKeystone b) (secondPreviousKeystone b)
    (merkleRoot b) (timestamp b) (difficulty b) nnc).
Definition setHeight (h : Z) : Cached VbkBlock → Cached VbkBlock := set_field VBK_BLOCK_HASH_SIZE (λ b,
  mkVbkBlock h (version b) (previousBlock b) (previousKeystone b) (secondPreviousKeystone b)
    (merkleRoot b) (timestamp b) (difficulty b) (nonce b)).
Definition setVersion (v : Z) : Cached VbkBlock → Cached VbkBlock := set_field VBK_BLOCK_HASH_SIZE (λ b,
  mkVbkBlock (height b) v (previousBlock b) (previousKeystone b) (secondPreviousKeystone b)
    (merkleRoot b) (timestamp b) (difficulty b) (nonce b)).
Definition setPreviousBlock (prev : list Z) : Cached VbkBlock → Cached VbkBlock := set_field VBK_BLOCK_HASH_SIZE (λ b,
  mkVbkBlock (height b) (version b) prev (previousKeystone b) (secondPreviousKeystone b)
    (merkleRoot b) (timestamp b) (difficulty b) (nonce b)).
Definition setPreviousKeystone (ks : list Z) : Cached VbkBlock → Cached VbkBlock := set_field VBK_BLOCK_HASH_SIZE (λ b,
  mkVbkBlock (height b) (version b) (previousBlock b) ks (secondPreviousKeystone b)
    (merkleRoot b) (timestamp b) (difficulty b) (nonce b)).
Definition setSecondPreviousKeystone (ks : list Z) : Cached VbkBlock → Cached VbkBlock :=
  set_field VBK_BLOCK_HASH_SIZE (λ b,
  mkVbkBlock (height b) (version b) (previousBlock b) (previousKeystone b) ks
    (merkleRoot b) (timestamp b) (difficulty b) (nonce b)).
Definition setMerkleRoot (mroot : list Z) : Cached VbkBlock → Cached VbkBlock := set_field VBK_BLOCK_HASH_SIZE (λ b,
  mkVbkBlock (height b) (version b) (previousBlock b) (previousKeystone b) (secondPreviousKeystone b)
    mroot (timestamp b) (difficulty b) (nonce b)).
Definition setTimestamp (ts : Z) : Cached VbkBlock → Cached VbkBlock := set_field VBK_BLOCK_HASH_SIZE (λ b,
  mkVbkBlock (height b) (version b) (previousBlock b) (previousKeystone b) (secondPreviousKeystone b)
    (merkleRoot b) ts (difficulty b) (nonce b)).
Definition setDifficulty (diff : Z) : Cached VbkBlock → Cached VbkBlock := set_field VBK_BLOCK_HASH_SIZE (λ b,
  mkVbkBlock (height b) (version b) (previousBlock b) (previousKeystone b) (secondPreviousKeystone b)
    (merkleRoot b) (timestamp b) diff (nonce b)).
Definition setPrecalculatedHash (b : Cached VbkBlock) (precalculatedHash : list Z) : Cached VbkBlock :=
  mkCached (cached_block b) precalculatedHash.

Lemma vbk_writes_raw b : writes (toRaw b) (concat (raw_parts b)).
Proof.
  unfold toRaw. cbn [concat raw_parts]. rewrite app_nil_r.
  writes_parts; (apply writes_BE; simpl; lia) || done.
Qed.

Lemma vbk_size_raw b : vbk_valid b → size_of (concat (raw_parts b)) = 65.
Proof.
  intros (_ & _ & [_ H1] & [_ H2] & [_ H3] & [_ H4] & _). unfold raw_parts.
  rewrite !size_concat_cons, !size_be_bytes. unfold size_of. by rewrite H1, H2, H3, H4.
Qed.

Lemma vbk_reads_raw b h : vbk_encodable b → reads (DeserializeFromRaw h) (concat (raw_parts b)) (mkCached b h).
Proof.
  intros ((Hh & Hv & [_ H1] & [_ H2] & [_ H3] & [_ H4] & Ht & Hd & Hn) & Hn5). unfold DeserializeFromRaw.
  cbn [concat raw_parts].
  eapply reads_bind; [apply reads_fails, (reads_BE int32_t); simpl; lia|].
  eapply reads_bind; [apply reads_fails, (reads_BE int16_t); simpl; lia|].
  do 4 (eapply reads_bind; [apply reads_fails, reads_slice; assumption|]).
  eapply reads_bind; [apply reads_fails, (reads_BE uint32_t); simpl; lia|].
  eapply reads_bind; [apply reads_fails, (reads_BE int32_t); simpl; lia|].
  eapply reads_bind; [apply reads_fails, (reads_BE_n uint64_t); [simpl; lia|exact Hn|simpl; lia]|].
  eapply reads_value; [apply reads_ret|].
  rewrite !conv_id by (done || simpl; lia). by destruct b.
Qed.

Lemma vbk_safe_raw h : safe_reading (λ c, vbk_valid (cached_block c)) (DeserializeFromRaw h).
Proof.
  unfold DeserializeFromRaw.
  do 2 (eapply safe_bind; [apply safe_fails, safe_readBE; simpl; lia|]; intros ? ?).
  do 4 (eapply safe_bind; [apply safe_fails, safe_readBlob|]; intros ? []).
  do 3 (eapply safe_bind; [apply safe_fails, safe_readBE; simpl; lia|]; intros ? ?).
  apply safe_ret_with. unfold vbk_valid. conjs ltac:(assumption).
Qed.

#[global] Instance Vbk_codec : Codec VbkBlock := {
  toVbkEncoding := toVbkEncoding;
  fromVbkEncoding := fromVbkEncoding;
  estimateSize := estimateSize;
  encoding := vbk_encoding;
  valid := vbk_valid;
  encodable := vbk_encodable;
  max_size := 66
}.

#[global] Instance Vbk_laws : CodecLaws VbkBlock.
Proof.
  split; cbn [Serde.toVbkEncoding Serde.fromVbkEncoding Serde.estimateSize encoding valid encodable max_size Vbk_codec].
  - by intros b [Hb _].
  - intros b Hb w. unfold toVbkEncoding. rewrite (written_writes _ _ (vbk_writes_raw b)). cbn [mbind result_bind].
    apply writes_sbl. pose proof (vbk_size_raw b Hb) as Hs. unfold size_of in Hs. lia.
  - intros b Hb. pose proof (vbk_size_raw b Hb) as Hs. destruct Hb as (_ & _ & [_ H1] & [_ H2] & [_ H3] & [_ H4] & _).
    unfold estimateSize. rewrite H1, H2, H3, H4. cbn [mbind result_bind].
    unfold vbk_encoding. rewrite size_enc_sbl, Hs. reflexivity.
  - intros b Hb. unfold vbk_encoding. rewrite size_enc_sbl, vbk_size_raw by done. lia.
  - intros b Hb. pose proof (vbk_size_raw b (proj1 Hb)) as Hs. unfold size_of in Hs. unfold fromVbkEncoding, vbk_encoding.
    rewrite <- (app_nil_r (enc_sbl _)).
    apply (reads_bind _ _ _ _ (mkCached b (empty_hash VBK_BLOCK_HASH_SIZE))); [|apply reads_ret].
    unfold DeserializeFromVbkEncoding. rewrite <- (app_nil_r (enc_sbl _)).
    eapply reads_bind; [apply reads_fails, reads_sbl; unfold VBK_HEADER_SIZE_PROGPOW; lia|].
    by apply reads_on_slice, vbk_reads_raw.
  - unfold fromVbkEncoding. eapply safe_bind; [|intros c Hc; apply safe_ret_with, Hc].
    unfold DeserializeFromVbkEncoding. eapply safe_bind; [apply safe_fails, safe_sbl|]. intros v [Hv _].
    apply safe_on_slice; [done|]. apply vbk_safe_raw.
Qed.
End Vbk.

(** ** [AltBlock] *)
Module Alt.
Record AltBlock := mkAltBlock {
  hash : list Z;
  previousBlock : list Z;
  timestamp : Z;
  height : Z
}.

#[global] Instance AltBlock_eq_dec : EqDecision AltBlock.
Proof. solve_decision. Defined.

Section alt.
Context `{CtParams}.

Definition toRaw (b : AltBlock) : writer :=
  writeSingleByteLenValue (hash b) +++
  writeSingleByteLenValue (previousBlock b) +++
  writeBE int32_t (height b) 4 +++
  writeBE uint32_t (timestamp b) 4.

Definition toVbkEncoding : AltBlock → writer := toRaw.

Definition estimateSize (b : AltBlock) : result Z :=
  accumulate [singleByteLenValueSize (Z.of_nat (length (hash b)));
              singleByteLenValueSize (Z.of_nat (length (previousBlock b))); Ok 4; Ok 4].

Definition DeserializeFromRaw : reader AltBlock :=
  hash <- fails (readSingleByteLenVector ALT_HASH_SIZE ALT_HASH_SIZE) "alt-block-hash";;
  previousBlock <- fails (readSingleByteLenVector 0 ALT_HASH_SIZE) "alt-block-prevhash";;
  height <- fails (readBE int32_t 4) "alt-block-height";;
  timestamp <- fails (readBE uint32_t 4) "alt-block-timestamp";;
  ret (mkAltBlock hash previousBlock timestamp height).

Definition DeserializeFromVbkEncoding : reader AltBlock := DeserializeFromRaw.

Definition alt_encoding (b : AltBlock) : list Z :=
  concat [enc_sbl (hash b); enc_sbl (previousBlock b); be_bytes (height b) 4; be_bytes (timestamp b) 4].

Definition alt_valid (b : AltBlock) : Prop :=
  bytes_ok (hash b) ∧ Z.of_nat (length (hash b)) = ALT_HASH_SIZE ∧
  bytes_ok (previousBlock b) ∧ Z.of_nat (length (previousBlock b)) <= ALT_HASH_SIZE ∧
  (length (hash b) <= 255)%nat ∧ (length (previousBlock b) <= 255)%nat ∧
  in_range uint32_t (timestamp b) ∧ in_range int32_t (height b).
#[global] Instance Alt_codec : Codec AltBlock := {
  toVbkEncoding := toVbkEncoding;
  fromVbkEncoding := DeserializeFromVbkEncoding;
  estimateSize := estimateSize;
  encoding := alt_encoding;
  valid := alt_valid;
  encodable := alt_valid;
  max_size := 520
}.

#[global] Instance Alt_laws : CodecLaws AltBlock.
Proof.
  split; cbn [Serde.toVbkEncoding Serde.fromVbkEncoding Serde.estimateSize encoding valid encodable max_size Alt_codec].
  - done.
  - intros b (_ & _ & _ & _ & H1 & H2 & _). unfold toVbkEncoding, toRaw, alt_encoding. cbn [concat].
    rewrite app_nil_r. writes_parts; first [by apply writes_sbl | apply writes_BE; simpl; lia].
  - intros b (_ & _ & _ & _ & H1 & H2 & _). apply accumulate_ok.
    + repeat constructor; (by apply size_sbl) || by rewrite size_be_bytes.
    + rewrite !size_concat_cons, !size_enc_sbl, !size_be_bytes. unfold size_of. simpl. lia.
  - intros b (_ & _ & _ & _ & H1 & H2 & _). unfold alt_encoding.
    rewrite !size_concat_cons, !size_enc_sbl, !size_be_bytes. unfold size_of. simpl. lia.
  - intros b (Hb1 & Hl1 & Hb2 & Hl2 & H1 & H2 & Ht & Hh). unfold DeserializeFromVbkEncoding, DeserializeFromRaw, alt_encoding.
    cbn [concat].
    eapply reads_bind; [apply reads_fails, reads_sbl_vector; lia|].
    eapply reads_bind; [apply reads_fails, reads_sbl_vector; lia|].
    eapply reads_bind; [apply reads_fails, (reads_BE int32_t); simpl; lia|].
    eapply reads_bind; [apply reads_fails, (reads_BE uint32_t); simpl; lia|].
    eapply reads_value; [apply reads_ret|]. rewrite !conv_id by (done || simpl; lia). by destruct b.
  - unfold DeserializeFromVbkEncoding, DeserializeFromRaw.
    eapply safe_bind; [apply safe_fails, safe_sbl_short|]; intros v [[Hv Hl] Hs].
    eapply safe_bind; [apply safe_fails, safe_sbl_short|]; intros p [[Hp Hpl] Hps].
    do 2 (eapply safe_bind; [apply safe_fails, safe_readBE; simpl; lia|]; intros ? ?).
    apply safe_ret_with. unfold alt_valid. conjs ltac:(first [assumption | simpl; lia]).
Qed.
End alt.
End Alt.
