(* ===== verification/BtcContext.v ===== *)
(** * Bitcoin rules that depend on the chain
      ([btc_blockchain_util.cpp], [btc_chain_params.hpp])

    Work of a header, the difficulty of the next block, the median time past, the
    contextual check of a header and the block template of the miner.  [now] is
    [currentTimestamp4()]. *)
From Stdlib Require Import String.
From stdpp Require Import sorting.
From S2P Require Import Prelude Serde StrUtil ArithUint256 Address Blocks BlockIndex.
Import U256.

Record BtcChainParams := mkBtcChainParams {
  networkName : string;
  getPowLimit : list Z;
  getPowTargetTimespan : Z;
  getPowTargetSpacing : Z;
  getAllowMinDifficultyBlocks : bool;
  getPowNoRetargeting : bool;
  EnableTimeAdjustment : bool;
  mMaxFutureBlockTime : Z
}.

Definition getDifficultyAdjustmentInterval (p : BtcChainParams) : result Z :=
  if getPowTargetSpacing p =? 0 then Undef "division by zero"
  else Ok (getPowTargetTimespan p / getPowTargetSpacing p).

Definition BtcChainParamsMain : BtcChainParams :=
  mkBtcChainParams "main" (repeat 255 28 ++ repeat 0 4) (14 * 24 * 60 * 60) (10 * 60) false false true (2 * 60 * 60).
Definition BtcChainParamsTest : BtcChainParams :=
  mkBtcChainParams "test" (repeat 255 28 ++ repeat 0 4) (14 * 24 * 60 * 60) (10 * 60) true false true (2 * 60 * 60).
Definition BtcChainParamsRegTest : BtcChainParams :=
  mkBtcChainParams "regtest" (repeat 255 31 ++ [127]) (14 * 24 * 60 * 60) (10 * 60) true true false (2 * 60 * 60).

(** [getBlockProof] *)
Definition getBlockProof (block : Btc.BtcBlock) : result (list Z) :=
  let '(bnTarget, negative, overflow) := fromBits (Btc.bits block) in
  if negative || overflow || (compareTo bnTarget (of_u64 0) =? 0) then Ok (of_u64 0)
  else q ← U256.div (bit_not bnTarget) (add bnTarget (of_u64 1)); Ok (add q (of_u64 1)).

(** ** The timestamps of a block and its predecessors, at most [n] *)
Section times.
Context {K B A : Type} `{Countable K} (timestamp : B → Z).

Fixpoint timestamps (n : nat) (m : gmap K (BlockIndex K B A)) (pindex : option K) : result (list Z) :=
  match n, pindex with
  | S n, Some k => i ← deref m k; l ← timestamps n m (pprev i); Ok (timestamp (header i) :: l)
  | _, _ => Ok []
  end.

Lemma timestamps_ok (m : gmap K (BlockIndex K B A)) n k i : wf_store m → m !! k = Some i →
  ∃ l, timestamps (S n) m (Some k) = Ok (timestamp (header i) :: l).
Proof.
  intros W. revert k i. induction n as [|n IH]; intros k i Hk; cbn [timestamps]; rewrite (deref_eq _ _ _ Hk); cbn [mbind result_bind].
  { by exists []. }
  destruct (pprev i) as [p|] eqn:Ep; [|by exists []].
  destruct (wf_prev _ W k i p Hk Ep) as (ip & Hip & _). destruct (IH p ip Hip) as [l El]. cbn [timestamps] in El. rewrite El. by eexists.
Qed.
End times.

Section chain.
Context {K A : Type} `{Countable K}.
Notation index_t := (BlockIndex K Btc.BtcBlock A).
Notation store := (gmap K index_t).
Context (params : BtcChainParams) (now : Z).

Definition getTimestamp (i : index_t) : Z := Btc.timestamp (header i).
Definition getDifficulty (i : index_t) : Z := Btc.bits (header i).

(** ** Difficulty *)
Definition calculateNextWorkRequired (currentTip : index_t) (nFirstBlockTime : Z) : result Z :=
  if getPowNoRetargeting params then Ok (getDifficulty currentTip)
  else
    let powTargetTimespan := getPowTargetTimespan params in
    let nActualTimespan := u32 (getTimestamp currentTip - nFirstBlockTime) in
    let nActualTimespan :=
      if nActualTimespan <? powTargetTimespan / 4 then powTargetTimespan / 4 else nActualTimespan in
    let nActualTimespan :=
      if u32 (powTargetTimespan * 4) <? nActualTimespan then u32 (powTargetTimespan * 4) else nActualTimespan in
    let bnNew := mul32 (fromBits (getDifficulty currentTip)).1.1 nActualTimespan in
    bnNew ← U256.div bnNew (of_u64 powTargetTimespan);
    toBits false (if 0 <? compareTo bnNew (getPowLimit params) then getPowLimit params else bnNew).

(** The last block that does not have the minimal difficulty. *)
Fixpoint lastNonSpecial (fuel : nat) (m : store) (interval limit : Z) (pindex : K) : result Z :=
  i ← deref m pindex;
  match pprev i with
  | Some p =>
    if negb (u32 (height i) mod interval =? 0) && (getDifficulty i =? limit) then
      match fuel with
      | O => OutOfFuel
      | S fuel => lastNonSpecial fuel m interval limit p
      end
    else Ok (getDifficulty i)
  | None => Ok (getDifficulty i)
  end.

Definition getNextWorkRequired (m : store) (prevBlock : K) (block : Btc.BtcBlock) : result Z :=
  nProofOfWorkLimit ← toBits false (getPowLimit params);
  prev ← deref m prevBlock;
  interval ← getDifficultyAdjustmentInterval params;
  next ← cki32 (height prev + 1);
  if interval =? 0 then Undef "division by zero"
  else if negb (u32 next mod interval =? 0) then
    if getAllowMinDifficultyBlocks params then
      if u32 (getTimestamp prev + u32 (getPowTargetSpacing params * 2)) <? Btc.timestamp block
      then Ok nProofOfWorkLimit
      else lastNonSpecial (Z.to_nat (height prev)) m interval nProofOfWorkLimit prevBlock
    else Ok (getDifficulty prev)
  else
    let nHeightFirst := u32 (height prev - (interval - 1)) in
    pindexFirst ← getAncestor m prevBlock (i32 nHeightFirst);
    match pindexFirst with
    | None => Assert "unable to find block ancestor at given height"
    | Some f => first ← deref m f; calculateNextWorkRequired prev (getTimestamp first)
    end.

(** ** Time *)
Definition medianTimeSpan : nat := 11.

Definition getMedianTimePast (m : store) (prev : K) : result Z :=
  l ← timestamps Btc.timestamp medianTimeSpan m (Some prev);
  let l := merge_sort Z.le l in
  match l !! (length l / 2)%nat with
  | Some t => Ok t
  | None => Undef "pbegin[(pend - pbegin) / 2]"
  end.

Definition checkBlockTime (m : store) (prev : K) (block : Btc.BtcBlock) : result unit :=
  median ← getMedianTimePast m prev;
  if Btc.timestamp block <? median then invalid "btc-time-too-old"
  else if u32 (now + mMaxFutureBlockTime params) <? Btc.timestamp block then invalid "btc-time-too-new"
  else Ok ().

Definition contextuallyCheckBlock (m : store) (prev : K) (block : Btc.BtcBlock) (shouldVerifyNextWork : bool) : result unit :=
  bad ← (if shouldVerifyNextWork then w ← getNextWorkRequired m prev block; Ok (negb (Btc.bits block =? w))
         else Ok false);
  if (bad : bool) then invalid "btc-bad-diffbits"
  else or_invalid (checkBlockTime m prev block) "btc-check-block-time".

(** [Miner::getBlockTemplate]; [hash] is [tip.getHash()]. *)
Definition getBlockTemplate (m : store) (tip : K) (hash merkle : list Z) : result Btc.BtcBlock :=
  t ← deref m tip;
  let block := Btc.mkBtcBlock (Btc.version (header t)) hash merkle (Z.max (getTimestamp t) now) 0 0 in
  diff ← getNextWorkRequired m tip block;
  Ok (Btc.mkBtcBlock (Btc.version block) (Btc.previousBlock block) (Btc.merkleRoot block) (Btc.timestamp block) diff 0).
End chain.

(** ** The work of a header *)

(** The work of a Bitcoin header is 2^256 / (target + 1), and 0 for a
    negative, zero or overflowing target; the computation never divides by zero
    nor overflows. *)
Lemma getBlockProof_correct block : 0 <= Btc.bits block < 2 ^ 32 →
  ∃ w, getBlockProof block = Ok w ∧ valid w ∧
    let target := compact_value (Btc.bits block) in
    le_Z w = if (negb (target =? 0) && Z.testbit (Btc.bits block) 23) || (modulus <=? target) || (target =? 0)
             then 0 else modulus / (target + 1).
Proof.
  intros Hb. unfold getBlockProof. destruct (fromBits_spec _ Hb) as (t & -> & Ht & Vt).
  destruct (of_u64_ok 0) as [Hz Ez]; [lia|]. destruct (of_u64_ok 1) as [H1 E1]; [lia|].
  set (target := compact_value (Btc.bits block)) in *. cbn zeta.
  destruct (negb (target =? 0) && Z.testbit (Btc.bits block) 23); [by exists (of_u64 0); rewrite Ez|]. cbn [orb].
  destruct (Z.leb_spec modulus target); [by exists (of_u64 0); rewrite Ez|]. cbn [orb].
  destruct (compact_value_range _ Hb) as [Hp Hlt1]. fold target in Hp, Hlt1. specialize (Hlt1 ltac:(done)).
  rewrite Z.mod_small in Vt by lia. rewrite compareTo_ok by (apply Ht || apply Hz || (destruct Ht, Hz; lia)).
  rewrite Ez, Vt. destruct (Z.ltb_spec target 0); [lia|]. destruct (Z.ltb_spec 0 target).
  - cbn [Z.eqb]. destruct (Z.eqb_spec target 0); [lia|]. destruct Ht as [Hbt Hlt].
    destruct (add_ok t _ (conj Hbt Hlt) H1) as [Ha Ea]. destruct (bit_not_ok t Hbt) as (Hn & Hln & Vn).
    rewrite Hlt in *. change (256 ^ Z.of_nat 32) with modulus in Vn.
    rewrite Vt in *. rewrite E1 in Ea.
    rewrite Z.mod_small in Ea by lia.
    pose proof (div_ok (bit_not t) _ (conj Hn Hln) Ha) as Hd. rewrite Ea, Vn in Hd.
    destruct (Z.eqb_spec (target + 1) 0); [lia|]. destruct Hd as (q & -> & Hq & Vq). cbn [mbind result_bind].
    destruct (add_ok q _ Hq H1) as [Hs Es]. eexists. split; [done|]. split; [done|].
    rewrite Es, Vq, E1. assert ((modulus - 1 - target) / (target + 1) + 1 = modulus / (target + 1)) as ->.
    { replace modulus with (modulus - 1 - target + 1 * (target + 1)) at 2 by lia. by rewrite Z.div_add by lia. }
    apply Z.mod_small. split; [apply Z.div_pos; lia|]. apply Z.div_lt; lia.
  - assert (target = 0) as -> by lia. exists (of_u64 0). by rewrite Ez.
Qed.

(** ** The difficulty of the next block *)
Section work.
Context {K A : Type} `{Countable K}.
Notation index_t := (BlockIndex K Btc.BtcBlock A).
Notation store := (gmap K index_t).
Context (params : BtcChainParams) (now : Z).
Implicit Types (m : store) (k : K) (i : index_t).

(** Parameters for which the arithmetic of the retarget does not wrap around. *)
Record params_ok : Prop := {
  po_limit : valid (getPowLimit params);
  po_timespan : 4 <= getPowTargetTimespan params < 2 ^ 30;
  po_spacing : 0 < getPowTargetSpacing params <= getPowTargetTimespan params
}.

Definition interval : Z := getPowTargetTimespan params / getPowTargetSpacing params.

Lemma interval_ok : params_ok → getDifficultyAdjustmentInterval params = Ok interval ∧ 1 <= interval < 2 ^ 30.
Proof.
  intros [_ Ht Hs]. unfold getDifficultyAdjustmentInterval. destruct (Z.eqb_spec (getPowTargetSpacing params) 0); [lia|].
  split; [done|]. unfold interval. split; [apply Z.div_le_lower_bound|apply Z.div_lt_upper_bound]; nia.
Qed.

(** The time between the first and the last block of an interval, limited to a
    factor of four; the difference is unsigned. *)
Definition clamped_timespan (last first : Z) : Z :=
  Z.min (getPowTargetTimespan params * 4) (Z.max (getPowTargetTimespan params / 4) (u32 (last - first))).

Definition retarget (target timespan : Z) : Z :=
  Z.min (le_Z (getPowLimit params)) (target * timespan / getPowTargetTimespan params).

Lemma compare_gt a b : valid a → valid b → (0 <? compareTo a b) = (le_Z b <? le_Z a).
Proof.
  intros [Ha Hla] [Hb Hlb]. rewrite compareTo_ok by (done || lia).
  destruct (Z.ltb_spec (le_Z a) (le_Z b)), (Z.ltb_spec (le_Z b) (le_Z a)); lia || done.
Qed.

Lemma calculateNextWorkRequired_ok i first : params_ok → getPowNoRetargeting params = false →
  0 <= getDifficulty i < 2 ^ 32 → compact_value (getDifficulty i) * (getPowTargetTimespan params * 4) < modulus →
  ∃ c v, calculateNextWorkRequired params i first = Ok c ∧ 0 <= c < 2 ^ 32 ∧ toBits false v = Ok c ∧ valid v ∧
    le_Z v = retarget (compact_value (getDifficulty i)) (clamped_timespan (getTimestamp i) first).
Proof.
  intros [Hl Ht Hs] Hno Hd Hlt. unfold calculateNextWorkRequired. rewrite Hno.
  set (T := getPowTargetTimespan params) in *. destruct (fromBits_spec _ Hd) as (t & -> & Hvt & Vt). cbn [fst].
  destruct (compact_value_range _ Hd) as [Hp _]. rewrite Z.mod_small in Vt by nia.
  rewrite (wrapU_small 32 (T * 4)) by lia. set (a := u32 (getTimestamp i - first)).
  assert ((if T * 4 <? (if a <? T / 4 then T / 4 else a) then T * 4 else if a <? T / 4 then T / 4 else a) =
    clamped_timespan (getTimestamp i) first) as ->.
  { unfold clamped_timespan. fold a T. assert (T / 4 <= T) by (apply Z.div_le_upper_bound; lia).
    destruct (Z.ltb_spec a (T / 4)); bsplit. }
  assert (1 <= clamped_timespan (getTimestamp i) first <= T * 4) as Hts.
  { unfold clamped_timespan. fold a T. assert (1 <= T / 4) by (apply Z.div_le_lower_bound; lia). lia. }
  set (ts := clamped_timespan (getTimestamp i) first) in *.
  destruct (mul32_ok t ts Hvt) as [Hm Em]; [lia|]. rewrite Vt, Z.mod_small in Em by nia.
  destruct (of_u64_ok T) as [HT ET]; [lia|]. pose proof (div_ok _ _ Hm HT) as Hq. rewrite ET, Em in Hq.
  destruct (Z.eqb_spec T 0); [lia|]. destruct Hq as (q & -> & Hq & Vq). cbn [mbind result_bind].
  rewrite compare_gt by done. rewrite Vq. unfold retarget. fold T.
  destruct (Z.ltb_spec (le_Z (getPowLimit params)) (compact_value (getDifficulty i) * ts / T)).
  - destruct (toBits_eq _ Hl) as [Ec Hc]. exists (compact (le_Z (getPowLimit params))), (getPowLimit params).
    split; [done|]. split; [done|]. split; [done|]. split; [done|]. lia.
  - destruct (toBits_eq q Hq) as [Ec Hc]. exists (compact (le_Z q)), q. rewrite Vq in *.
    split; [done|]. split; [done|]. split; [done|]. split; [done|]. lia.
Qed.

(** C27: at the end of a difficulty interval the required difficulty encodes
    [min(powLimit, target * timespan / powTargetTimespan)], with the timespan of
    the interval limited to a factor of four: the target never exceeds the limit
    of the network and grows at most four times. *)
Theorem getNextWorkRequired_retarget m k i f fi block : params_ok → getPowNoRetargeting params = false →
  wf_store m → m !! k = Some i → height i < INT32_MAX → (height i + 1) mod interval = 0 →
  back m (Z.to_nat (interval - 1)) k = Some f → m !! f = Some fi →
  0 <= getDifficulty i < 2 ^ 32 → compact_value (getDifficulty i) * (getPowTargetTimespan params * 4) < modulus →
  ∃ c v, getNextWorkRequired params m k block = Ok c ∧ toBits false v = Ok c ∧ valid v ∧
    le_Z v = retarget (compact_value (getDifficulty i)) (clamped_timespan (getTimestamp i) (getTimestamp fi)) ∧
    le_Z v <= le_Z (getPowLimit params) ∧ le_Z v <= 4 * compact_value (getDifficulty i).
Proof.
  intros Hpo Hno W Hk Hmax Hmod Hb Hf Hd Hlt. destruct (interval_ok Hpo) as [Ei Hi]. pose proof (wf_height _ W _ _ Hk) as Hh.
  destruct (back_height _ _ _ _ _ W Hk Hb) as (fi' & Hfi' & Hhf). assert (fi' = fi) by congruence. subst fi'.
  pose proof (wf_height _ W _ _ Hf) as Hhf0. unfold getNextWorkRequired. unfold INT32_MAX in Hmax.
  destruct (toBits_eq _ (po_limit Hpo)) as [-> _]. rewrite (deref_eq _ _ _ Hk), Ei. cbn [mbind result_bind].
  rewrite ckS_ok by lia. cbn [mbind result_bind]. rewrite (wrapU_small 32 (height i + 1)) by lia.
  rewrite Hmod. destruct (Z.eqb_spec interval 0); [lia|]. cbn [Z.eqb negb].
  rewrite (wrapU_small 32), (wrapS_small 32) by lia.
  rewrite (getAncestor_eq m k i) by (done || lia). destruct (Z.ltb_spec (height i) (height i - (interval - 1))); [lia|].
  replace (height i - (height i - (interval - 1))) with (interval - 1) by lia. rewrite Hb. cbn [mbind result_bind].
  rewrite (deref_eq _ _ _ Hf). cbn [mbind result_bind].
  destruct (calculateNextWorkRequired_ok i (getTimestamp fi) Hpo Hno Hd Hlt) as (c & v & -> & _ & Ev & Hv & Vv).
  exists c, v. do 4 (split; [done|]). rewrite Vv. destruct Hpo as [_ Ht _]. destruct (compact_value_range _ Hd) as [Hp _].
  unfold retarget. split; [lia|]. etrans; [apply Z.le_min_r|]. apply Z.div_le_upper_bound; [lia|].
  unfold clamped_timespan. nia.
Qed.

(** On test networks: the newest block on the way back that does not have the
    minimal difficulty, or that starts an interval. *)
Lemma lastNonSpecial_ok fuel m I limit k i : wf_store m → m !! k = Some i → height i <= Z.of_nat fuel →
  ∃ n a j, lastNonSpecial fuel m I limit k = Ok (getDifficulty j) ∧ back m n k = Some a ∧ m !! a = Some j ∧
    (pprev j = None ∨ u32 (height j) mod I = 0 ∨ getDifficulty j ≠ limit) ∧
    ∀ n' x ix, (n' < n)%nat → back m n' k = Some x → m !! x = Some ix →
      getDifficulty ix = limit ∧ u32 (height ix) mod I ≠ 0.
Proof.
  intros W. revert k i. induction fuel as [|fuel IH]; intros k i Hk Hh; cbn [lastNonSpecial];
    rewrite (deref_eq _ _ _ Hk); cbn [mbind result_bind]; destruct (pprev i) as [p|] eqn:Ep.
  1: { destruct (wf_prev _ W k i p Hk Ep) as (ip & Hip & Hhp & _). pose proof (wf_height _ W _ _ Hip). lia. }
  1,3: exists 0%nat, k, i; split_and!; [done|done|done|by left|lia].
  destruct (Z.eqb_spec (u32 (height i) mod I) 0), (Z.eqb_spec (getDifficulty i) limit); cbn [negb andb];
    [exists 0%nat, k, i; split_and!; [done|done|done|by auto|lia]..| |exists 0%nat, k, i; split_and!; [done|done|done|by auto|lia]].
  destruct (wf_prev _ W k i p Hk Ep) as (ip & Hip & Hhp & _).
  destruct (IH p ip Hip ltac:(lia)) as (n' & a & j & E & Hb & Ha & Hstop & Hbefore).
  exists (S n'), a, j. rewrite (back_S _ _ _ _ _ Hk Ep). split_and!; [done|done|done|done|].
  intros [|q] x ix Hlt Hx Hix; [injection Hx as <-; by assert (ix = i) as -> by congruence|].
  rewrite (back_S _ _ _ _ _ Hk Ep) in Hx. apply (Hbefore q x ix); [lia|done|done].
Qed.

(** The chain holds a whole interval behind [k] when one ends there. *)
Definition interval_stored m k i : Prop := (height i + 1) mod interval = 0 → is_Some (back m (Z.to_nat (interval - 1)) k).

Lemma getNextWorkRequired_total m k i : params_ok → wf_store m → m !! k = Some i →
  height i < INT32_MAX → interval_stored m k i → 0 <= getDifficulty i < 2 ^ 32 →
  (getPowNoRetargeting params = false → compact_value (getDifficulty i) * (getPowTargetTimespan params * 4) < modulus) →
  ∀ block, ∃ c, getNextWorkRequired params m k block = Ok c.
Proof.
  intros Hpo W Hk Hmax Hst Hd Hlt block. destruct (interval_ok Hpo) as [Ei Hi]. pose proof (wf_height _ W _ _ Hk) as Hh.
  destruct (decide ((height i + 1) mod interval = 0)) as [Hmod|Hmod].
  - destruct (Hst Hmod) as [f Hf]. destruct (back_height _ _ _ _ _ W Hk Hf) as (fi & Hfi & Hhf).
    destruct (getPowNoRetargeting params) eqn:Hno.
    + pose proof (wf_height _ W _ _ Hfi). unfold getNextWorkRequired. unfold INT32_MAX in Hmax.
      destruct (toBits_eq _ (po_limit Hpo)) as [-> _]. rewrite (deref_eq _ _ _ Hk), Ei. cbn [mbind result_bind].
      rewrite ckS_ok by lia. cbn [mbind result_bind]. rewrite (wrapU_small 32 (height i + 1)) by lia.
      rewrite Hmod. destruct (Z.eqb_spec interval 0); [lia|]. cbn [Z.eqb negb].
      rewrite (wrapU_small 32), (wrapS_small 32) by lia.
      rewrite (getAncestor_eq m k i) by (done || lia). destruct (Z.ltb_spec (height i) (height i - (interval - 1))); [lia|].
      replace (height i - (height i - (interval - 1))) with (interval - 1) by lia. rewrite Hf. cbn [mbind result_bind].
      rewrite (deref_eq _ _ _ Hfi). cbn [mbind result_bind]. unfold calculateNextWorkRequired. rewrite Hno. by eexists.
    + destruct (getNextWorkRequired_retarget m k i f fi block) as (c & _ & Hc & _); [by auto..|]. by exists c.
  - unfold getNextWorkRequired. unfold INT32_MAX in Hmax.
    destruct (toBits_eq _ (po_limit Hpo)) as [-> _]. rewrite (deref_eq _ _ _ Hk), Ei. cbn [mbind result_bind].
    rewrite ckS_ok by lia. cbn [mbind result_bind]. rewrite (wrapU_small 32 (height i + 1)) by lia.
    destruct (Z.eqb_spec interval 0); [lia|]. destruct (Z.eqb_spec ((height i + 1) mod interval) 0); [done|]. cbn [negb].
    destruct (getAllowMinDifficultyBlocks params); [|by eexists]. case_match; [by eexists|].
    destruct (lastNonSpecial_ok (Z.to_nat (height i)) m interval (compact (le_Z (getPowLimit params))) k i W Hk)
      as (n' & a & j & -> & _); [lia|]. by eexists.
Qed.

(** ** Time *)
(** The median time past is a median of the timestamps of the last eleven
    blocks: at least half of them are not later, and at least half not earlier. *)
Lemma getMedianTimePast_ok m k i : wf_store m → m !! k = Some i →
  ∃ l t, timestamps Btc.timestamp medianTimeSpan m (Some k) = Ok l ∧ getMedianTimePast m k = Ok t ∧ t ∈ l ∧
    (length l <= 2 * length (filter (λ x, (x <= t)%Z) l))%nat ∧ (length l <= 2 * length (filter (λ x, (t <= x)%Z) l))%nat.
Proof.
  intros W Hk. destruct (timestamps_ok Btc.timestamp m 10 k i W Hk) as [l0 El].
  exists (Btc.timestamp (header i) :: l0). unfold getMedianTimePast, medianTimeSpan. rewrite El. cbn [mbind result_bind].
  set (l := Btc.timestamp (header i) :: l0). assert (length l ≠ 0%nat) as Hne by done.
  pose proof (merge_sort_Permutation Z.le l) as Hperm. set (s := merge_sort Z.le l) in *.
  assert (StronglySorted Z.le s) as Hs by apply (StronglySorted_merge_sort Z.le).
  assert (length s = length l) as Els by (by rewrite Hperm).
  destruct (lookup_lt_is_Some_2 s (length s / 2)) as [t Ht].
  { apply Nat.div_lt; lia. }
  rewrite Ht. exists t. split; [done|]. split; [done|]. split; [rewrite <- Hperm; by eapply list_elem_of_lookup_2|].
  pose proof (take_drop_middle s _ _ Ht) as Esplit. rewrite <- Els, <- Hperm.
  assert (length (take (length s / 2) s) = length s / 2)%nat as Eh.
  { rewrite length_take. apply lookup_lt_Some in Ht. lia. }
  set (a := take (length s / 2) s) in *. set (b := drop (S (length s / 2)) s) in *.
  assert (length s = length s / 2 + S (length b))%nat as Elen by (rewrite <- Esplit at 1; rewrite length_app, Eh; done).
  assert (length s = 2 * (length s / 2) + length s mod 2)%nat by (apply Nat.div_mod; lia).
  pose proof (Nat.mod_upper_bound (length s) 2 ltac:(lia)).
  assert (Forall (λ x, x <= t) a ∧ Forall (λ x, t <= x) b) as [Ha Hb].
  { rewrite <- Esplit in Hs. apply StronglySorted_app in Hs as (Hab & _ & Hs). apply StronglySorted_inv in Hs as [_ Hs].
    split; [|done]. rewrite Forall_forall. intros x Hx. apply (Hab x t); [done|left]. }
  assert (∀ (P : Z → Prop) `{∀ x, Decision (P x)} q, length (filter P s) = length (filter P a) + length (filter P [t]) + length (filter P b) ∧
    (Forall P q → filter P q = q))%nat as Hfilter.
  { intros P ? q. split; [rewrite <- Esplit, filter_app, length_app; change (t :: b) with ([t] ++ b); rewrite filter_app, length_app; lia|].
    induction 1 as [|x q Hx Hq IH]; [done|]. by rewrite filter_cons_True, IH. }
  rewrite (proj1 (Hfilter (λ x, x <= t) _ [])), (proj1 (Hfilter (λ x, t <= x) _ [])).
  rewrite (proj2 (Hfilter (λ x, x <= t) _ a)), (proj2 (Hfilter (λ x, t <= x) _ b)) by done.
  rewrite !(proj2 (Hfilter _ _ [t])) by (constructor; [lia|constructor]). cbn [length]. lia.
Qed.

(** The block template of the miner passes the contextual check on the block
    it was made for: its difficulty is the required one, and its time is accepted
    when the clock is not behind the median time past. *)
Lemma getBlockTemplate_valid m k i hash merkle : params_ok → wf_store m → m !! k = Some i →
  height i < INT32_MAX → interval_stored m k i → 0 <= getDifficulty i < 2 ^ 32 →
  (getPowNoRetargeting params = false → compact_value (getDifficulty i) * (getPowTargetTimespan params * 4) < modulus) →
  (∀ t, getMedianTimePast m k = Ok t → t <= Z.max (getTimestamp i) now) →
  Z.max (getTimestamp i) now <= u32 (now + mMaxFutureBlockTime params) →
  ∃ b, getBlockTemplate params now m k hash merkle = Ok b ∧ Btc.previousBlock b = hash ∧
    contextuallyCheckBlock params now m k b true = Ok ().
Proof.
  intros Hpo W Hk Hmax Hst Hd Hlt Hmed Hfut.
  assert (∀ b b', Btc.timestamp b = Btc.timestamp b' → getNextWorkRequired params m k b = getNextWorkRequired params m k b') as Hts.
  { intros b b' E. unfold getNextWorkRequired. by rewrite E. }
  unfold getBlockTemplate. rewrite (deref_eq _ _ _ Hk). cbn [mbind result_bind].
  set (b0 := Btc.mkBtcBlock _ _ _ _ 0 0). destruct (getNextWorkRequired_total m k i Hpo W Hk Hmax Hst Hd Hlt b0) as [c Hc].
  rewrite Hc. cbn [mbind result_bind]. eexists. split; [done|]. split; [done|].
  unfold contextuallyCheckBlock. rewrite (Hts _ b0), Hc by done. cbn [mbind result_bind Btc.bits]. rewrite Z.eqb_refl. cbn [negb].
  unfold checkBlockTime. destruct (getMedianTimePast_ok m k i W Hk) as (_ & t & _ & Et & _). rewrite Et. cbn [mbind result_bind].
  cbn [Btc.timestamp]. specialize (Hmed t Et). subst b0. cbn [Btc.timestamp].
  rewrite !(proj2 (Z.ltb_ge _ _)) by lia. done.
Qed.
End work.

(** ** Two blocks that end an interval of two *)
Module Example_btc.
Definition params : BtcChainParams :=
  mkBtcChainParams "example" (repeat 255 28 ++ repeat 0 4) 1200 600 true false true 7200.
Definition block (ts : Z) : Btc.BtcBlock := Btc.mkBtcBlock 1 (repeat 0 32) (repeat 0 32) ts 0x1b00ffff 0.
Definition root : BlockIndex Z Btc.BtcBlock unit := mkBlockIndex 0 (block 1000) 4 false None {[1]} false ().
Definition tip : BlockIndex Z Btc.BtcBlock unit := mkBlockIndex 1 (block 1400) 4 false (Some 0) ∅ false ().
Definition blocks : gmap Z (BlockIndex Z Btc.BtcBlock unit) := {[ 0 := root; 1 := tip ]}.

Lemma params_valid : params_ok params.
Proof.
  constructor; [|by vm_compute|by vm_compute]. split; [|done]. apply Forall_app.
  split; apply Forall_forall; intros x Hx%list_elem_of_In%repeat_spec; subst; by vm_compute.
Qed.

Lemma blocks_wf : wf_store blocks.
Proof.
  assert (∀ x i, blocks !! x = Some i → (x = 0 ∧ i = root) ∨ (x = 1 ∧ i = tip)) as Hcases.
  { intros x i Hx. unfold blocks in Hx. apply lookup_insert_Some in Hx as [[<- <-]|[_ Hx]]; [by left|].
    apply lookup_singleton_Some in Hx as [<- <-]. by right. }
  constructor.
  - intros k i [[-> ->]|[-> ->]]%Hcases; done.
  - intros k i p [[-> ->]|[-> ->]]%Hcases Hp; [done|]. injection Hp as <-. by exists root.
  - intros k i c [[-> ->]|[-> ->]]%Hcases Hc; [|done]. assert (c = 1) as -> by (cbn in Hc; set_solver). by exists tip.
Qed.
End Example_btc.
Import Example_btc.

Lemma getBlockProof_correct_witness : ∃ w, getBlockProof (block 0) = Ok w ∧ valid w ∧
  le_Z w = modulus / (compact_value 0x1b00ffff + 1).
Proof. apply (getBlockProof_correct (block 0)). by vm_compute. Defined.

Lemma getNextWorkRequired_retarget_witness : ∃ c v, getNextWorkRequired params blocks 1 (block 1500) = Ok c ∧
  toBits false v = Ok c ∧ valid v ∧
  le_Z v = retarget params (compact_value 0x1b00ffff) (clamped_timespan params 1400 1000) ∧
  le_Z v <= le_Z (getPowLimit params) ∧ le_Z v <= 4 * compact_value 0x1b00ffff.
Proof.
  apply (getNextWorkRequired_retarget params blocks 1 tip 0 root (block 1500) params_valid eq_refl blocks_wf); by vm_compute.
Defined.

Lemma getBlockTemplate_valid_witness : ∃ b, getBlockTemplate params 2000 blocks 1 (repeat 7 32) (repeat 9 32) = Ok b ∧
  Btc.previousBlock b = repeat 7 32 ∧ contextuallyCheckBlock params 2000 blocks 1 b true = Ok ().
Proof.
  apply (getBlockTemplate_valid params 2000 blocks 1 tip (repeat 7 32) (repeat 9 32) params_valid blocks_wf).
  - by vm_compute.
  - by vm_compute.
  - intros _. by eexists.
  - by vm_compute.
  - intros _. by vm_compute.
  - intros t E. vm_compute in E. injection E as <-. by vm_compute.
  - by vm_compute.
Defined.
