(* ===== verification/VbkContext.v ===== *)
(** * VeriBlock rules that depend on the chain
      ([vbk_blockchain_util.cpp], [vbk_chain_params.hpp])

    Work of a header, the difficulty of the next block (with the [double]
    arithmetic of its last step: binary64, rounding to nearest), the keystones a
    header must name, the minimum timestamp, the contextual check and the block
    template of the miner.  [now] is [currentTimestamp4()]. *)
From Stdlib Require Import String SpecFloat.
From stdpp Require Import sorting.
From S2P Require Import Prelude Serde Base58 StrUtil ArithUint256 Address Blocks BlockIndex BtcContext.
Import U256.

Record VbkChainParams := mkVbkChainParams {
  getMinimumDifficulty : list Z;
  getPowNoRetargeting : bool;
  getRetargetPeriod : Z;
  getTargetBlockTime : Z;
  getKeystoneInterval : Z;
  mMaxFutureBlockTime : Z;
  getProgPowForkHeight : Z;
  getProgPowStartTimeEpoch : Z;
  isProgPowStartTimeEpochEnabled : bool;
  getTransactionMagicByte : option Z
}.

Definition of_hex (N : nat) (s : string) : list Z :=
  match newBlob N (ParseHex (chars s)) with Ok v => v | _ => [] end.

(** [ArithUint256::fromHex] and [uint256::fromHex] *)
Definition arith_of_hex (s : string) : list Z := match fromHex (chars s) with Ok v => v | _ => [] end.

Definition VbkChainParamsMain : VbkChainParams :=
  mkVbkChainParams (arith_of_hex "14f46b0400") false 100 30 20 (5 * 60) 1512000 1600716052 true None.
Definition VbkChainParamsTest : VbkChainParams :=
  mkVbkChainParams (arith_of_hex "05F5E100") false 100 30 20 (5 * 60) 872000 1600444017 true (Some 0xAA).
Definition VbkChainParamsRegTest : VbkChainParams := 
  mkVbkChainParams (of_hex 32 "1") true 100 30 20 (5 * 60) 0 0 false (Some 0xBB).

(** [getBlockProof]: the [int32_t] difficulty is converted to [uint32_t]. *)
Definition getBlockProof (block : Vbk.VbkBlock) : list Z :=
  let '(target, negative, overflow) := fromBits (u32 (Vbk.difficulty block)) in
  if negative || overflow || (compareTo target (of_u64 0) =? 0) then of_u64 0 else target.

(** ** [double] *)
Definition double_of (z : Z) : spec_float := binary_normalize 53 1024 z 0 false.
Definition dadd : spec_float → spec_float → spec_float := SFadd 53 1024.
Definition dmul : spec_float → spec_float → spec_float := SFmul 53 1024.
Definition ddiv : spec_float → spec_float → spec_float := SFdiv 53 1024.

(** [(uint32_t)x]: undefined outside of the range of the type. *)
Definition double_to_u32 (x : spec_float) : result Z :=
  match x with
  | S754_zero _ => Ok 0
  | S754_finite s m e =>
    let v := if 0 <=? e then Z.shiftl (Zpos m) e else Z.shiftr (Zpos m) (- e) in
    if s then if v =? 0 then Ok 0 else Undef "conversion of a negative double"
    else if v <? 2 ^ 32 then Ok v else Undef "conversion of a large double"
  | _ => Undef "conversion of an infinite double or NaN"
  end.

(** [(double)K / t], rounded half up, in units of 10^-8. *)
Definition coefficient (k t : Z) : result Z :=
  let coef2 := ddiv (double_of k) (double_of t) in
  let coef2 := dadd coef2 (ddiv (double_of 5) (double_of 1000000000)) in
  double_to_u32 (dmul coef2 (double_of 100000000)).

Section chain.
Context {K A : Type} `{Countable K} `{ProgPow}.
Notation index_t := (BlockIndex K Vbk.VbkBlock A).
Notation store := (gmap K index_t).
Context (params : VbkChainParams) (now : Z).

(** [getTimestamp] returns the field as [uint32_t]. *)
Definition getTimestamp (i : index_t) : Z := Vbk.timestamp (header i).
Definition getDifficulty (i : index_t) : Z := Vbk.difficulty (header i).
Definition index_hash (i : index_t) : list Z := Vbk.calculateHash (header i).

(** ** Difficulty *)
Definition clampSolveTime (solveTime : Z) : Z :=
  if i32 (u32 (getTargetBlockTime params * 6)) <? solveTime then i32 (u32 (getTargetBlockTime params * 6))
  else if solveTime <? -6 * i32 (getTargetBlockTime params) then -6 * i32 (getTargetBlockTime params)
  else solveTime.

(** The sums over the last blocks: [t] is [int32_t], the products are
    [uint32_t]. *)
Fixpoint work_loop (fuel : nat) (m : store) (workBlock : K) (i : Z) (targetDif : list Z) (t : Z)
    : result (list Z * Z) :=
  match fuel with
  | O => Ok (targetDif, t)
  | S fuel =>
    w ← deref m workBlock;
    match pprev w with
    | None => Ok (targetDif, t)
    | Some p =>
      prev ← deref m p;
      let solveTime := clampSolveTime (i32 (u32 (getTimestamp w - getTimestamp prev))) in
      let t := i32 (u32 (t + u32 (u32 solveTime * u32 (getRetargetPeriod params - i - 1)))) in
      work_loop fuel m p (i + 1) (add targetDif (fromBits (u32 (getDifficulty prev))).1.1) t
    end
  end.

Definition retarget_constant : Z :=
  u32 (u32 (getRetargetPeriod params * u32 (getRetargetPeriod params - 1)) * getTargetBlockTime params) / 2.

Definition getNextWorkRequired (m : store) (prevBlock : K) : result Z :=
  prev ← deref m prevBlock;
  if getPowNoRetargeting params || (u32 (height prev) <? getRetargetPeriod params)
  then Ok (u32 (getDifficulty prev))
  else
    let period := u32 (getRetargetPeriod params - 1) in
    r ← work_loop (Z.to_nat period) m prevBlock 0 (of_u64 0) 0;
    let '(targetDif, t) := r in
    let targetDif := mul32 targetDif 1000000000 in
    targetDif ← U256.div targetDif (of_u64 period);
    let targetDif := add targetDif (of_u64 5) in
    targetDif ← U256.div targetDif (of_u64 10);
    let limit := i32 (retarget_constant / 10) in
    let t := if t <? limit then limit else t in
    coef ← coefficient retarget_constant t;
    let targetDif := mul32 targetDif coef in
    targetDif ← U256.div targetDif (of_u64 100000000);
    targetDif ← U256.div targetDif (of_u64 100000000);
    let minDif := getMinimumDifficulty params in
    if compareTo targetDif minDif <? 0 then toBits false (add minDif (of_u64 500000))
    else toBits false targetDif.

(** ** Keystones *)
Definition zero_keystone : list Z := repeat 0 VBK_PREVIOUS_KEYSTONE_HASH_SIZE.

(** The distance to the first keystone: the previous block is never used. *)
Definition keystone_diff (tipHeight : Z) : result Z :=
  if getKeystoneInterval params =? 0 then Undef "division by zero"
  else
    let diff := u32 tipHeight mod getKeystoneInterval params in
    Ok (if diff =? 0 then u32 (diff + getKeystoneInterval params) else diff).

(** One of the two keystones of [block]. *)
Definition validKeystone (m : store) (prevBlock : K) (tipHeight diff : Z) (keystone : list Z) : result bool :=
  if i32 diff <=? tipHeight then
    a ← getAncestor m prevBlock (i32 (u32 (tipHeight - diff)));
    match a with
    | None => Ok false
    | Some a => i ← deref m a; Ok (bool_decide (trimLE VBK_PREVIOUS_KEYSTONE_HASH_SIZE (index_hash i) = keystone))
    end
  else Ok (bool_decide (keystone = zero_keystone)).

Definition validateKeystones (m : store) (prevBlock : K) (block : Vbk.VbkBlock) : result bool :=
  prev ← deref m prevBlock;
  diff ← keystone_diff (height prev);
  b ← validKeystone m prevBlock (height prev) diff (Vbk.previousKeystone block);
  if negb b then Ok false
  else
    validKeystone m prevBlock (height prev) (u32 (diff + getKeystoneInterval params)) (Vbk.secondPreviousKeystone block).

(** ** Time *)
Definition HISTORY_FOR_TIMESTAMP_AVERAGE : nat := 20.

Definition calculateMinimumTimestamp (m : store) (prev : K) : result Z :=
  pmedian ← timestamps Vbk.timestamp HISTORY_FOR_TIMESTAMP_AVERAGE m (Some prev);
  let i := length pmedian in
  vassert (0 <? i)%nat "i > 0";;
  vassert (negb (bool_decide (pmedian = []))) "!pmedian.empty()";;
  let pmedian := merge_sort Z.le pmedian in
  let index := if (i mod 2 =? 0)%nat then (i / 2 - 1)%nat else (i / 2)%nat in
  match pmedian !! index with
  | Some t => Ok t
  | None => Throw "pmedian.at(index)"
  end.
Definition getMedianTimePast : store → K → result Z := calculateMinimumTimestamp.

Definition checkBlockTime (m : store) (prev : K) (block : Vbk.VbkBlock) : result unit :=
  median ← getMedianTimePast m prev;
  if Vbk.timestamp block <? median then invalid "vbk-time-too-old"
  else if u32 (now + mMaxFutureBlockTime params) <? Vbk.timestamp block then invalid "vbk-time-too-new"
  else Ok ().

Definition contextuallyCheckBlock (m : store) (prev : K) (block : Vbk.VbkBlock) (shouldVerifyNextWork : bool) : result unit :=
  or_invalid (checkBlockTime m prev block) "vbk-check-block-time";;
  bad ← (if shouldVerifyNextWork
         then w ← getNextWorkRequired m prev; Ok (negb (u32 (Vbk.difficulty block) =? w)) else Ok false);
  if (bad : bool) then invalid "vbk-bad-diffbits"
  else
    b ← validateKeystones m prev block;
    if (b : bool) then Ok () else invalid "vbk-bad-keystones".

(** ** [Miner::getBlockTemplate] *)
Definition template_keystone (m : store) (tip : K) (tipHeight diff : Z) : result (list Z) :=
  if i32 diff <=? tipHeight then
    a ← getAncestor m tip (i32 (u32 (tipHeight - diff)));
    match a with
    | None => Assert "prevKeystoneIndex != nullptr"
    | Some a => i ← deref m a; Ok (trimLE VBK_PREVIOUS_KEYSTONE_HASH_SIZE (index_hash i))
    end
  else Ok zero_keystone.

Definition getBlockTemplate (m : store) (tip : K) (merkle : list Z) : result Vbk.VbkBlock :=
  t ← deref m tip;
  h ← cki32 (height t + 1);
  diff ← keystone_diff (height t);
  k1 ← template_keystone m tip (height t) diff;
  k2 ← template_keystone m tip (height t) (u32 (diff + getKeystoneInterval params));
  d ← getNextWorkRequired m tip;
  Ok (Vbk.mkVbkBlock h (Vbk.version (header t)) (trimLE VBK_PREVIOUS_BLOCK_HASH_SIZE (index_hash t)) k1 k2 merkle
        (Z.max (getTimestamp t) now) (i32 d) 0).
End chain.

Section keystones.
Context {K A : Type} `{Countable K} `{ProgPow}.
Notation index_t := (BlockIndex K Vbk.VbkBlock A).
Notation store := (gmap K index_t).
Context (params : VbkChainParams) (now : Z).
Implicit Types (m : store) (k : K) (i : index_t).
Context (interval_range : 0 < getKeystoneInterval params < 2 ^ 30).

(** The heights of the keystones that a block on a tip of height [h] names: the
    two highest keystones below the tip. *)
Definition keystone1 (h : Z) : Z := getKeystoneInterval params * ((h - 1) / getKeystoneInterval params).
Definition keystone2 (h : Z) : Z := keystone1 h - getKeystoneInterval params.

(** The field for a keystone of height [ks]: the end of the hash of the ancestor
    there, zero below the genesis block. *)
Definition expected_keystone m k i (ks : Z) : option (list Z) :=
  if ks <? 0 then Some zero_keystone
  else
    a ← back m (Z.to_nat (height i - ks)) k;
    j ← m !! a;
    Some (trimLE VBK_PREVIOUS_KEYSTONE_HASH_SIZE (index_hash j)).

Lemma keystone_diff_ok h : 0 <= h < 2 ^ 31 → keystone_diff params h = Ok (h - keystone1 h) ∧
  1 <= h - keystone1 h <= getKeystoneInterval params.
Proof.
  intros Hh. unfold keystone_diff, keystone1. set (n := getKeystoneInterval params) in *.
  destruct (Z.eqb_spec n 0); [lia|]. rewrite (wrapU_small 32) by lia.
  pose proof (Z.div_mod (h - 1) n ltac:(lia)). pose proof (Z.mod_pos_bound (h - 1) n ltac:(lia)).
  pose proof (Z.div_mod h n ltac:(lia)). pose proof (Z.mod_pos_bound h n ltac:(lia)).
  split; [|lia]. f_equal. destruct (Z.eqb_spec (h mod n) 0) as [E|E].
  - rewrite wrapU_small by lia. assert ((h - 1) / n = h / n - 1) as ->; [|lia].
    symmetry. apply (Z.div_unique _ _ _ (n - 1)); [left; lia|]. lia.
  - assert ((h - 1) / n = h / n) as ->; [|lia]. symmetry. apply (Z.div_unique _ _ _ (h mod n - 1)); [left; lia|]. lia.
Qed.

Lemma ancestor_at m k i ks : wf_store m → m !! k = Some i → height i < 2 ^ 31 → 0 <= ks <= height i →
  getAncestor m k (i32 (u32 (height i - (height i - ks)))) = Ok (back m (Z.to_nat (height i - ks)) k).
Proof.
  intros W Hk Hh Hks. pose proof (wf_height _ W _ _ Hk). rewrite wrapU_small, wrapS_small by lia.
  rewrite (getAncestor_eq m k i) by (done || lia). destruct (Z.ltb_spec (height i) (height i - (height i - ks))); [lia|].
  do 3 f_equal. lia.
Qed.

Lemma validKeystone_ok m k i ks keystone : wf_store m → m !! k = Some i → height i < 2 ^ 31 →
  ks < height i → height i - ks < 2 ^ 31 →
  validKeystone m k (height i) (height i - ks) keystone = Ok (bool_decide (expected_keystone m k i ks = Some keystone)).
Proof.
  intros W Hk Hh Hks Hd. pose proof (wf_height _ W _ _ Hk). unfold validKeystone, expected_keystone.
  rewrite (wrapS_small 32) by lia. destruct (Z.leb_spec (height i - ks) (height i)), (Z.ltb_spec ks 0); try lia.
  - rewrite (ancestor_at m k i) by (done || lia). cbn [mbind result_bind].
    destruct (back m (Z.to_nat (height i - ks)) k) as [a|] eqn:Ea; cbn [mbind option_bind]; [|by rewrite bool_decide_eq_false_2].
    destruct (back_height _ _ _ _ _ W Hk Ea) as (j & Hj & _). rewrite (deref_eq _ _ _ Hj), Hj. cbn [mbind result_bind option_bind].
    f_equal. apply bool_decide_ext. split; [by intros ->|by intros [= ->]].
  - f_equal. apply bool_decide_ext. split; [by intros ->|by intros [= ->]].
Qed.

(** A header passes [validateKeystones] exactly when its two keystone fields
    are the ends of the hashes of its ancestors at the two highest keystone heights
    below its predecessor, or zero where these are below the genesis. *)
Lemma validateKeystones_ok m k i block : wf_store m → m !! k = Some i → height i < 2 ^ 31 - 2 ^ 30 →
  validateKeystones params m k block = Ok (bool_decide
    (expected_keystone m k i (keystone1 (height i)) = Some (Vbk.previousKeystone block) ∧
     expected_keystone m k i (keystone2 (height i)) = Some (Vbk.secondPreviousKeystone block))).
Proof.
  intros W Hk Hh. pose proof (wf_height _ W _ _ Hk). destruct (keystone_diff_ok (height i)) as [Ed Hd]; [lia|].
  unfold validateKeystones. rewrite (deref_eq _ _ _ Hk). cbn [mbind result_bind]. rewrite Ed. cbn [mbind result_bind].
  rewrite (validKeystone_ok m k i) by (done || lia). cbn [mbind result_bind].
  rewrite wrapU_small by lia. replace (height i - keystone1 (height i) + getKeystoneInterval params)
    with (height i - keystone2 (height i)) by (unfold keystone2; lia).
  rewrite (validKeystone_ok m k i) by (done || (unfold keystone2; lia)).
  case_bool_decide as E1; cbn [negb]; [|by rewrite bool_decide_eq_false_2 by tauto].
  f_equal. apply bool_decide_ext. tauto.
Qed.

Lemma template_keystone_ok m k i ks : wf_store m → m !! k = Some i → height i < 2 ^ 31 →
  ks < height i → height i - ks < 2 ^ 31 → (0 <= ks → is_Some (back m (Z.to_nat (height i - ks)) k)) →
  ∃ f, template_keystone m k (height i) (height i - ks) = Ok f ∧ expected_keystone m k i ks = Some f.
Proof.
  intros W Hk Hh Hks Hd Hst. pose proof (wf_height _ W _ _ Hk). unfold template_keystone, expected_keystone.
  rewrite (wrapS_small 32) by lia. destruct (Z.leb_spec (height i - ks) (height i)), (Z.ltb_spec ks 0); try lia; [|by eexists].
  rewrite (ancestor_at m k i) by (done || lia). cbn [mbind result_bind]. destruct Hst as [a Ea]; [lia|]. rewrite Ea.
  destruct (back_height _ _ _ _ _ W Hk Ea) as (j & Hj & _). cbn [mbind option_bind].
  rewrite (deref_eq _ _ _ Hj), Hj. by eexists.
Qed.

(** ** Time *)
Lemma calculateMinimumTimestamp_ok m k i : wf_store m → m !! k = Some i →
  ∃ l t, timestamps Vbk.timestamp HISTORY_FOR_TIMESTAMP_AVERAGE m (Some k) = Ok l ∧ calculateMinimumTimestamp m k = Ok t ∧ t ∈ l.
Proof.
  intros W Hk. destruct (timestamps_ok Vbk.timestamp m 19 k i W Hk) as [l0 El].
  exists (Vbk.timestamp (header i) :: l0). unfold calculateMinimumTimestamp, HISTORY_FOR_TIMESTAMP_AVERAGE. rewrite El. cbn [mbind result_bind].
  set (l := Vbk.timestamp (header i) :: l0). assert (length l ≠ 0%nat) as Hne by done.
  rewrite (proj2 (Nat.ltb_lt _ _)) by lia. rewrite bool_decide_eq_false_2 by done. cbn [negb vassert mbind result_bind].
  pose proof (merge_sort_Permutation Z.le l) as Hperm. set (s := merge_sort Z.le l) in *.
  assert (length s = length l) as Els by (by rewrite Hperm).
  pose proof (Nat.div_mod (length l) 2 ltac:(lia)). pose proof (Nat.mod_upper_bound (length l) 2 ltac:(lia)).
  destruct (lookup_lt_is_Some_2 s (if (length l mod 2 =? 0)%nat then (length l / 2 - 1)%nat else (length l / 2)%nat)) as [t Ht].
  { destruct (Nat.eqb_spec (length l mod 2) 0); lia. }
  rewrite Ht. exists t. split; [done|]. split; [done|]. rewrite <- Hperm. by eapply list_elem_of_lookup_2.
Qed.

(** The chain holds the keystones that the next block names. *)
Definition keystones_stored m k i : Prop := ∀ ks, ks = keystone1 (height i) ∨ ks = keystone2 (height i) → 0 <= ks →
  is_Some (back m (Z.to_nat (height i - ks)) k).

(** C29: the block template of the VeriBlock miner passes the contextual check on
    the block it was made for: difficulty, both keystones and, when the clock is
    not behind the minimum timestamp, the time. *)
Theorem vbk_getBlockTemplate_valid m k i merkle d : wf_store m → m !! k = Some i → height i < 2 ^ 31 - 2 ^ 30 →
  keystones_stored m k i → getNextWorkRequired params m k = Ok d → 0 <= d < 2 ^ 32 →
  (∀ t, calculateMinimumTimestamp m k = Ok t → t <= Z.max (getTimestamp i) now) →
  Z.max (getTimestamp i) now <= u32 (now + mMaxFutureBlockTime params) →
  ∃ b, getBlockTemplate params now m k merkle = Ok b ∧ Vbk.height b = height i + 1 ∧
    Vbk.previousBlock b = trimLE VBK_PREVIOUS_BLOCK_HASH_SIZE (index_hash i) ∧
    contextuallyCheckBlock params now m k b true = Ok ().
Proof.
  intros W Hk Hh Hst Hw Hd Hmed Hfut. pose proof (wf_height _ W _ _ Hk).
  destruct (keystone_diff_ok (height i)) as [Ed Hdiff]; [lia|].
  destruct (template_keystone_ok m k i (keystone1 (height i)) W Hk) as (k1 & E1 & X1); [lia|lia|lia|by apply Hst; left|].
  destruct (template_keystone_ok m k i (keystone2 (height i)) W Hk) as (k2 & E2 & X2);
    [lia|unfold keystone2; lia|unfold keystone2; lia|by apply Hst; right|].
  unfold getBlockTemplate. rewrite (deref_eq _ _ _ Hk). cbn [mbind result_bind]. rewrite ckS_ok by lia. cbn [mbind result_bind].
  rewrite Ed. cbn [mbind result_bind]. rewrite E1. cbn [mbind result_bind]. rewrite wrapU_small by lia.
  replace (height i - keystone1 (height i) + getKeystoneInterval params) with (height i - keystone2 (height i)) by (unfold keystone2; lia).
  rewrite E2, Hw. cbn [mbind result_bind]. eexists. split; [done|]. split; [done|]. split; [done|].
  unfold contextuallyCheckBlock. rewrite (validateKeystones_ok m k i) by done.
  rewrite bool_decide_eq_true_2 by done. rewrite Hw. unfold checkBlockTime, getMedianTimePast.
  destruct (calculateMinimumTimestamp_ok m k i W Hk) as (_ & t & _ & Et & _). rewrite Et. specialize (Hmed t Et).
  cbn [mbind result_bind Vbk.timestamp Vbk.difficulty].
  rewrite !(proj2 (Z.ltb_ge _ _)) by lia. cbn [or_invalid mbind result_bind].
  assert (u32 (i32 d) = d) as ->; [|by rewrite Z.eqb_refl].
  unfold wrapU, wrapS. rewrite Zminus_mod, Zmod_mod, <- Zminus_mod. replace (d + 2 ^ (32 - 1) - 2 ^ (32 - 1)) with d by lia.
  by apply Z.mod_small.
Qed.

(** C28: a header passes the contextual check exactly when its time is between the
    minimum timestamp of the chain and the latest accepted one, its difficulty is
    the required one, and its keystone fields name its ancestors at the two
    highest keystone heights below its predecessor. *)
Theorem vbk_contextuallyCheckBlock_correct m k i block : wf_store m → m !! k = Some i → height i < 2 ^ 31 - 2 ^ 30 →
  contextuallyCheckBlock params now m k block true = Ok () ↔
  ∃ t, calculateMinimumTimestamp m k = Ok t ∧ t <= Vbk.timestamp block <= u32 (now + mMaxFutureBlockTime params) ∧
    getNextWorkRequired params m k = Ok (u32 (Vbk.difficulty block)) ∧
    expected_keystone m k i (keystone1 (height i)) = Some (Vbk.previousKeystone block) ∧
    expected_keystone m k i (keystone2 (height i)) = Some (Vbk.secondPreviousKeystone block).
Proof.
  intros W Hk Hh. destruct (calculateMinimumTimestamp_ok m k i W Hk) as (_ & t & _ & Et & _).
  unfold contextuallyCheckBlock, checkBlockTime, getMedianTimePast. rewrite Et, (validateKeystones_ok m k i) by done.
  cbn [mbind result_bind]. split.
  - intros Hok. exists t. destruct (Z.ltb_spec (Vbk.timestamp block) t); [done|].
    destruct (Z.ltb_spec (u32 (now + mMaxFutureBlockTime params)) (Vbk.timestamp block)); [done|].
    cbn [or_invalid mbind result_bind] in Hok. destruct (getNextWorkRequired params m k) as [w| | | | |]; try done.
    cbn [mbind result_bind] in Hok. destruct (Z.eqb_spec (u32 (Vbk.difficulty block)) w) as [Ew|]; [|done].
    cbn [negb mbind result_bind] in Hok. case_bool_decide as Eks; [|done]. rewrite Ew. by destruct Eks.
  - intros (t' & [= <-] & [H1 H2] & -> & E1 & E2). rewrite !(proj2 (Z.ltb_ge _ _)) by lia.
    cbn [or_invalid mbind result_bind]. rewrite Z.eqb_refl. cbn [negb mbind result_bind]. by rewrite bool_decide_eq_true_2.
Qed.
End keystones.

(** ** A chain of two blocks with a keystone at every height *)
Module Example_vbk.
Definition params : VbkChainParams := mkVbkChainParams (of_u64 1) true 100 30 1 300 0 0 false None.
#[export] Instance toy_progpow : ProgPow.
Proof.
  refine {| progPowHash v := take 24 (map (λ x, x mod 256) v ++ repeat 0 24) |}.
  intros v. split; [|rewrite length_take, length_app, repeat_length; unfold VBK_BLOCK_HASH_SIZE; lia].
  apply Forall_take, Forall_app. split; [|apply bytes_repeat_0]. apply Forall_map, Forall_forall. intros x _.
  unfold byte_ok. apply Z.mod_pos_bound. lia.
Defined.
Definition header (h ts : Z) : Vbk.VbkBlock :=
  Vbk.mkVbkBlock h 2 (repeat 0 12) (repeat 0 9) (repeat 0 9) (repeat 0 16) ts 0x05ffffff 0.
Definition root : BlockIndex Z Vbk.VbkBlock unit := mkBlockIndex 0 (header 0 1000) 4 false None {[1]} false ().
Definition tip : BlockIndex Z Vbk.VbkBlock unit := mkBlockIndex 1 (header 1 1030) 4 false (Some 0) ∅ false ().
Definition blocks : gmap Z (BlockIndex Z Vbk.VbkBlock unit) := {[ 0 := root; 1 := tip ]}.

Lemma params_interval : 0 < getKeystoneInterval params < 2 ^ 30.
Proof. by vm_compute. Qed.

Lemma vbk_blocks_wf : wf_store blocks.
Proof.
  assert (∀ x i, blocks !! x = Some i → (x = 0 ∧ i = root) ∨ (x = 1 ∧ i = tip)) as Hcases.
  { intros x i Hx. unfold blocks in Hx. apply lookup_insert_Some in Hx as [[<- <-]|[_ Hx]]; [by left|].
    apply lookup_singleton_Some in Hx as [<- <-]. by right. }
  constructor.
  - intros k i [[-> ->]|[-> ->]]%Hcases; done.
  - intros k i p [[-> ->]|[-> ->]]%Hcases Hp; [done|]. injection Hp as <-. by exists root.
  - intros k i c [[-> ->]|[-> ->]]%Hcases Hc; [|done]. assert (c = 1) as -> by (cbn in Hc; set_solver). by exists tip.
Qed.

Definition block : Vbk.VbkBlock :=
  match getBlockTemplate params 1100 blocks 1 (repeat 9 16) with Ok b => b | _ => header 0 0 end.
End Example_vbk.
Import Example_vbk.

Lemma vbk_getBlockTemplate_valid_witness : ∃ b, getBlockTemplate params 1100 blocks 1 (repeat 9 16) = Ok b ∧
  Vbk.height b = 2 ∧ Vbk.previousBlock b = trimLE VBK_PREVIOUS_BLOCK_HASH_SIZE (index_hash tip) ∧
  contextuallyCheckBlock params 1100 blocks 1 b true = Ok ().
Proof.
  apply (vbk_getBlockTemplate_valid params 1100 params_interval blocks 1 tip (repeat 9 16) 0x05ffffff vbk_blocks_wf).
  - by vm_compute.
  - by vm_compute.
  - intros ks [->| ->] Hks; [by eexists|]. exfalso. vm_compute in Hks. by apply Hks.
  - by vm_compute.
  - by vm_compute.
  - intros t E. vm_compute in E. injection E as <-. by vm_compute.
  - by vm_compute.
Defined.

Lemma vbk_contextuallyCheckBlock_correct_witness :
  contextuallyCheckBlock params 1100 blocks 1 block true = Ok () ↔
  ∃ t, calculateMinimumTimestamp blocks 1 = Ok t ∧ t <= Vbk.timestamp block <= 1400 ∧
    getNextWorkRequired params blocks 1 = Ok (u32 (Vbk.difficulty block)) ∧
    expected_keystone blocks 1 tip 0 = Some (Vbk.previousKeystone block) ∧
    expected_keystone blocks 1 tip (-1) = Some (Vbk.secondPreviousKeystone block).
Proof.
  apply (vbk_contextuallyCheckBlock_correct params 1100 params_interval blocks 1 tip block vbk_blocks_wf); by vm_compute.
Defined.
