(* ===== verification/Payloads.v ===== *)
(** * Payloads ([coin.cpp], [output.cpp], [publication_data.cpp],
    [merkle_path.cpp], [vbk_merkle_path.cpp], [btctx.cpp], [vbktx.cpp],
    [vbkpoptx.cpp], [atv.cpp], [vtb.cpp], [popdata.cpp])

    Each payload is a record with its writer, reader and size estimate, and its
    byte format as a list of parts.  Readers build a fresh object.  The flag
    [checked] of ATV and VTB is not serialized and not modelled. *)
From Stdlib Require Import String.
From S2P Require Import Prelude Serde Base58 Address Blocks.
Import Btc(BtcBlock, Btc_codec, Btc_laws).
Import Vbk(VbkBlock, Vbk_codec, Vbk_laws).

(** ** Constants ([consts.hpp]) *)
Definition BTC_TX_MAX_RAW_SIZE : Z := 4000000.
Definition MAX_BTC_BLOCKS_IN_VBKPOPTX : Z := 65535.
Definition MAX_PAYOUT_INFO_SIZE : Z := 10000.
Definition MAX_HEADER_SIZE_PUBLICATION_DATA : Z := 1024.
Definition MAX_CONTEXT_SIZE_PUBLICATION_DATA : Z := 10000.
Definition MAX_PUBLICATIONDATA_SIZE : Z :=
  1 + 8 + 1 + MAX_HEADER_SIZE_PUBLICATION_DATA + 1 + MAX_PAYOUT_INFO_SIZE + 1 + MAX_CONTEXT_SIZE_PUBLICATION_DATA.
Definition MAX_POPDATA_SIZE : Z := 5500000.
Definition MAX_POPDATA_VBK : Z := 50000.
Definition MAX_POPDATA_VTB : Z := 50000.
Definition MAX_POPDATA_ATV : Z := 50000.
Definition MAX_LAYER_COUNT_MERKLE : Z := 40.
Definition MAX_OUTPUTS_COUNT : Z := 255.
Definition MAX_SIGNATURE_SIZE : Z := 72.
Definition MAX_PUBLIC_KEY_SIZE : Z := 88.
Definition TxType_VBK_TX : Z := 1.
Definition TxType_VBK_POP_TX : Z := 2.

(** A list of bytes with a maximal size. *)
Definition bytes_upto (n : Z) (v : list Z) : Prop := bytes_ok v ∧ Z.of_nat (length v) <= n.

(** ** [Coin] *)
Record Coin := mkCoin { units : Z }.
Definition Coin_toVbkEncoding (c : Coin) : writer := writeSingleBEValue (units c).
Definition Coin_estimateSize (c : Coin) : result Z := Ok (singleBEValueSize (units c)).
Definition Coin_fromVbkEncoding : reader Coin :=
  amount <- fails (readSingleBEValue int64_t) "invalid-amount";; ret (mkCoin amount).
Definition Coin_valid (c : Coin) : Prop := in_range int64_t (units c).
#[global] Instance Coin_codec : Codec Coin := {
  toVbkEncoding := Coin_toVbkEncoding; fromVbkEncoding := Coin_fromVbkEncoding;
  estimateSize := Coin_estimateSize; encoding c := enc_be (units c);
  valid := Coin_valid; encodable := Coin_valid; max_size := 9 }.

(** ** [PublicationData] *)
Record PublicationData := mkPublicationData {
  identifier : Z; header : list Z; contextInfo : list Z; payoutInfo : list Z }.
Definition PublicationData_toVbkEncoding (p : PublicationData) : writer :=
  writeSingleBEValue (identifier p) +++
  writeVarLenValue (header p) +++
  writeVarLenValue (contextInfo p) +++
  writeVarLenValue (payoutInfo p).
Definition PublicationData_estimateSize (p : PublicationData) : result Z :=
  accumulate [Ok (singleBEValueSize (identifier p)); Ok (varLenValueSize (Z.of_nat (length (header p))));
              Ok (varLenValueSize (Z.of_nat (length (contextInfo p))));
              Ok (varLenValueSize (Z.of_nat (length (payoutInfo p))))].
Definition PublicationData_fromVbkEncoding : reader PublicationData :=
  identifier <- fails (readSingleBEValue int64_t) "pub-identifier";;
  header <- fails (readVarLenValue 0 MAX_HEADER_SIZE_PUBLICATION_DATA) "pub-header";;
  contextInfo <- fails (readVarLenValue 0 MAX_CONTEXT_SIZE_PUBLICATION_DATA) "pub-context-info";;
  payoutInfo <- fails (readVarLenValue 0 MAX_PAYOUT_INFO_SIZE) "pub-payout-info";;
  ret (mkPublicationData identifier header contextInfo payoutInfo).
Definition pub_parts (p : PublicationData) : list (list Z) :=
  [enc_be (identifier p); enc_varlen (header p); enc_varlen (contextInfo p); enc_varlen (payoutInfo p)].
Definition PublicationData_valid (p : PublicationData) : Prop :=
  in_range int64_t (identifier p) ∧ bytes_upto MAX_HEADER_SIZE_PUBLICATION_DATA (header p) ∧
  bytes_upto MAX_CONTEXT_SIZE_PUBLICATION_DATA (contextInfo p) ∧ bytes_upto MAX_PAYOUT_INFO_SIZE (payoutInfo p).
#[global] Instance PublicationData_codec : Codec PublicationData := {
  toVbkEncoding := PublicationData_toVbkEncoding; fromVbkEncoding := PublicationData_fromVbkEncoding;
  estimateSize := PublicationData_estimateSize; encoding p := concat (pub_parts p);
  valid := PublicationData_valid; encodable := PublicationData_valid; max_size := 21060 }.

(** ** [BtcTx] *)
Record BtcTx := mkBtcTx { tx : list Z }.
Definition BtcTx_toVbkEncoding (t : BtcTx) : writer := writeVarLenValue (tx t).
Definition BtcTx_estimateSize (t : BtcTx) : result Z := Ok (varLenValueSize (Z.of_nat (length (tx t)))).
Definition BtcTx_getHash `{Hashes} (t : BtcTx) : list Z := sha256twice (tx t).
Definition BtcTx_fromVbkEncoding : reader BtcTx :=
  tx <- fails (readVarLenValue 0 BTC_TX_MAX_RAW_SIZE) "btc-invalid-tx";; ret (mkBtcTx tx).
Definition BtcTx_valid (t : BtcTx) : Prop := bytes_upto BTC_TX_MAX_RAW_SIZE (tx t).
#[global] Instance BtcTx_codec : Codec BtcTx := {
  toVbkEncoding := BtcTx_toVbkEncoding; fromVbkEncoding := BtcTx_fromVbkEncoding;
  estimateSize := BtcTx_estimateSize; encoding t := enc_varlen (tx t);
  valid := BtcTx_valid; encodable := BtcTx_valid; max_size := 4000009 }.

(** ** [MerklePath]: the subject is not part of the encoding *)
Record MerklePath := mkMerklePath { index : Z; subject : list Z; layers : list (list Z) }.
Definition MerklePath_toRaw (p : MerklePath) : writer := λ w,
  subjectSizeBytes ← fixedArray int32_t (conv int32_t (Z.of_nat (length (subject p))));
  (writeSingleFixedBEValue int32_t (index p) +++
   writeSingleFixedBEValue int32_t (conv int32_t (Z.of_nat (length (layers p)))) +++
   writeSingleFixedBEValue int32_t (conv int32_t (Z.of_nat (length subjectSizeBytes))) +++
   write subjectSizeBytes +++
   writeItems writeSingleByteLenValue (layers p)) w.
Definition MerklePath_toVbkEncoding (p : MerklePath) : writer := λ w,
  raw ← written (MerklePath_toRaw p); writeVarLenValue raw w.
Definition MerklePath_estimateSize (p : MerklePath) : result Z :=
  subjectSizeBytes ← fixedArray int32_t (conv int32_t (Z.of_nat (length (subject p))));
  rawSize ← accumulate ([singleFixedBEValueSize int32_t (index p);
    singleFixedBEValueSize int32_t (conv int32_t (Z.of_nat (length (layers p))));
    singleFixedBEValueSize int32_t (conv int32_t (Z.of_nat (length subjectSizeBytes)));
    Ok (Z.of_nat (length subjectSizeBytes))] ++
    map (λ layer, singleByteLenValueSize (Z.of_nat (length layer))) (layers p));
  accumulate [Ok (varLenValueSize rawSize)].
Definition MerklePath_fromRaw (subject : list Z) : reader MerklePath :=
  index <- fails (readSingleBEValue int32_t) "merkle-index";;
  numLayers <- fails (readSingleBEValue int32_t) "merkle-num-layers";;
  _ <- fails (guard (checkRange numLayers 0 MAX_LAYER_COUNT_MERKLE)) "merkle-num-layers-range";;
  sizeOfSizeBottomData <- fails (readSingleBEValue int32_t) "merkle-size-of-size";;
  _ <- guard (if sizeOfSizeBottomData =? 4 then Ok tt else invalid "merkle-size-of-size-range");;
  sizeOfBottomData <- fails (readBE int32_t 4) "merkle-size-of-data";;
  _ <- guard (if sizeOfBottomData =? Z.of_nat SHA256_HASH_SIZE then Ok tt else invalid "merkle-size-of-data-range");;
  layers <- readLoop "merkle-layer" (readSingleByteLenValue (Z.of_nat SHA256_HASH_SIZE) (Z.of_nat SHA256_HASH_SIZE))
    (Z.to_nat numLayers) 0;;
  ret (mkMerklePath index subject layers).
Definition MerklePath_fromVbkEncoding (subject : list Z) : reader MerklePath :=
  merkleBytes <- fails (readVarLenValue 0 MAX_POPDATA_SIZE) "merkle-bytes";;
  on_slice (MerklePath_fromRaw subject) merkleBytes.
Definition merkle_parts (p : MerklePath) : list (list Z) :=
  [enc_sbl (be_bytes (index p) 4); enc_sbl (be_bytes (Z.of_nat (length (layers p))) 4);
   enc_sbl (be_bytes 4 4); be_bytes 32 4] ++ map enc_sbl (layers p).
Definition merkle_encoding (p : MerklePath) : list Z := enc_varlen (concat (merkle_parts p)).
Definition MerklePath_valid (p : MerklePath) : Prop :=
  in_range int32_t (index p) ∧ blob_ok SHA256_HASH_SIZE (subject p) ∧
  Forall (blob_ok SHA256_HASH_SIZE) (layers p) ∧ Z.of_nat (length (layers p)) <= MAX_LAYER_COUNT_MERKLE.

(** ** [VbkMerklePath] *)
Module VbkPath.
Record VbkMerklePath := mkVbkMerklePath {
  treeIndex : Z; index : Z; subject : list Z; layers : list (list Z) }.
Definition toVbkEncoding (p : VbkMerklePath) : writer :=
  writeSingleFixedBEValue int32_t (treeIndex p) +++
  writeSingleFixedBEValue int32_t (index p) +++
  writeSingleByteLenValue (subject p) +++
  writeSingleFixedBEValue int32_t (conv int32_t (Z.of_nat (length (layers p)))) +++
  writeItems writeSingleByteLenValue (layers p).
Definition estimateSize (p : VbkMerklePath) : result Z :=
  accumulate ([singleFixedBEValueSize int32_t (treeIndex p); singleFixedBEValueSize int32_t (index p);
    singleByteLenValueSize (Z.of_nat (length (subject p)));
    singleFixedBEValueSize int32_t (conv int32_t (Z.of_nat (length (layers p))))] ++
    map (λ layer, singleByteLenValueSize (Z.of_nat (length layer))) (layers p)).
Definition readHash : reader (list Z) :=
  readSingleByteLenBlob SHA256_HASH_SIZE (Z.of_nat SHA256_HASH_SIZE) (Z.of_nat SHA256_HASH_SIZE).
Definition fromVbkEncoding : reader VbkMerklePath :=
  treeIndex <- fails (readSingleBEValue int32_t) "vbkmerkle-tree-index";;
  index <- fails (readSingleBEValue int32_t) "vbkmerkle-index";;
  subject <- fails readHash "vbkmerkle-subject";;
  layers <- fails (readArrayOf 0 MAX_LAYER_COUNT_MERKLE readHash) "vbkmerkle-layers";;
  ret (mkVbkMerklePath treeIndex index subject layers).
Definition parts (p : VbkMerklePath) : list (list Z) :=
  [enc_sbl (be_bytes (treeIndex p) 4); enc_sbl (be_bytes (index p) 4); enc_sbl (subject p);
   enc_sbl (be_bytes (Z.of_nat (length (layers p))) 4)] ++ map enc_sbl (layers p).
Definition path_valid (p : VbkMerklePath) : Prop :=
  in_range int32_t (treeIndex p) ∧ in_range int32_t (index p) ∧ blob_ok SHA256_HASH_SIZE (subject p) ∧
  Forall (blob_ok SHA256_HASH_SIZE) (layers p) ∧ Z.of_nat (length (layers p)) <= MAX_LAYER_COUNT_MERKLE.
#[global] Instance VbkMerklePath_codec : Codec VbkMerklePath := {
  toVbkEncoding := toVbkEncoding; fromVbkEncoding := fromVbkEncoding; estimateSize := estimateSize;
  encoding p := concat (parts p); valid := path_valid; encodable := path_valid; max_size := 1368 }.
End VbkPath.
Import VbkPath(VbkMerklePath, VbkMerklePath_codec).

(** ** Laws of the payloads without hashes *)
Ltac unfold_codec :=
  cbn [toVbkEncoding fromVbkEncoding estimateSize encoding valid encodable max_size
       Coin_codec PublicationData_codec BtcTx_codec VbkMerklePath_codec].

Lemma upto_length n v : n < 2 ^ 31 → bytes_upto n v → Z.of_nat (length v) < 2 ^ 31.
Proof. intros Hn [_ Hv]. lia. Qed.

#[global] Instance Coin_laws : CodecLaws Coin.
Proof.
  split; unfold_codec; unfold Coin_valid, Coin_toVbkEncoding, Coin_estimateSize, Coin_fromVbkEncoding.
  - done.
  - intros c Hc. by apply writes_be.
  - intros c Hc. by rewrite size_be.
  - intros c _. apply size_enc_be.
  - intros c Hc. rewrite <- (app_nil_r (enc_be _)).
    eapply reads_bind; [apply reads_fails, reads_be|destruct c; apply reads_ret].
    split_and!; simpl; (done || lia || auto).
  - eapply safe_bind; [apply safe_fails, safe_be; simpl; lia|]. intros v Hv. by apply safe_ret_with.
Qed.

Lemma varlen_upto n v : n < 2 ^ 31 → bytes_upto n v →
  writes (writeVarLenValue v) (enc_varlen v) ∧ reads (readVarLenValue 0 n) (enc_varlen v) v ∧
  varLenValueSize (Z.of_nat (length v)) = size_of (enc_varlen v) ∧ size_of (enc_varlen v) <= 9 + n.
Proof.
  intros Hn [_ Hv]. split_and!.
  - apply writes_varlen. lia.
  - apply reads_varlen; lia.
  - apply size_varlen. lia.
  - etrans; [apply size_enc_varlen|]. unfold size_of. lia.
Qed.

Lemma safe_varlen_upto n : safe_reading (bytes_upto n) (readVarLenValue 0 n).
Proof. eapply safe_weaken; [apply safe_varlen|]. intros v [Hb Hl]. split; [done|lia]. Qed.

Lemma safe_sbl_upto n : safe_reading (bytes_upto n) (readSingleByteLenValue 0 n).
Proof. eapply safe_weaken; [apply safe_sbl|]. intros v [Hb Hl]. split; [done|lia]. Qed.

Lemma pub_size p : PublicationData_valid p → size_of (concat (pub_parts p)) <= 21060.
Proof.
  intros (Hi & Hh & Hc & Hp). unfold pub_parts. rewrite !size_concat_cons. pose proof (size_enc_be (identifier p)).
  apply varlen_upto in Hh as (_ & _ & _ & H1); [|done]. apply varlen_upto in Hc as (_ & _ & _ & H2); [|done].
  apply varlen_upto in Hp as (_ & _ & _ & H3); [|done]. change (size_of (concat [])) with 0.
  unfold MAX_HEADER_SIZE_PUBLICATION_DATA, MAX_CONTEXT_SIZE_PUBLICATION_DATA, MAX_PAYOUT_INFO_SIZE in *. lia.
Qed.

Ltac use_varlen := eapply varlen_upto; [|eassumption]; reflexivity.

#[global] Instance PublicationData_laws : CodecLaws PublicationData.
Proof.
  split; unfold_codec; unfold PublicationData_valid.
  - done.
  - intros p (Hi & Hh & Hc & Hp). unfold PublicationData_toVbkEncoding, pub_parts. cbn [concat]. rewrite app_nil_r.
    apply writes_seq; [by apply writes_be|].
    writes_parts; use_varlen.
  - intros p (Hi & Hh & Hc & Hp). apply accumulate_ok.
    + repeat constructor; [by rewrite size_be|..]; (f_equal; use_varlen).
    + pose proof (pub_size p ltac:(by split_and!)). unfold pub_parts in *. lia.
  - apply pub_size.
  - intros p (Hi & Hh & Hc & Hp). unfold PublicationData_fromVbkEncoding, pub_parts. cbn [concat].
    eapply reads_bind; [apply reads_fails, reads_be; split_and!; simpl; (done || lia || auto)|].
    do 3 (eapply reads_bind; [apply reads_fails; use_varlen|]).
    destruct p. apply reads_ret.
  - unfold PublicationData_fromVbkEncoding.
    eapply safe_bind; [apply safe_fails, safe_be; simpl; lia|]; intros i Hi.
    do 3 (eapply safe_bind; [apply safe_fails, safe_varlen_upto|]; intros ? ?).
    apply safe_ret_with. conjs ltac:(assumption).
Qed.

#[global] Instance BtcTx_laws : CodecLaws BtcTx.
Proof.
  split; unfold_codec; unfold BtcTx_valid.
  - done.
  - intros t Ht. by apply (varlen_upto BTC_TX_MAX_RAW_SIZE).
  - intros t Ht. unfold BtcTx_estimateSize. f_equal. by apply (varlen_upto BTC_TX_MAX_RAW_SIZE).
  - intros t Ht. destruct (varlen_upto BTC_TX_MAX_RAW_SIZE (tx t)) as (_ & _ & _ & ?); [done|done|].
    unfold BTC_TX_MAX_RAW_SIZE in *. lia.
  - intros t Ht. unfold BtcTx_fromVbkEncoding. rewrite <- (app_nil_r (enc_varlen _)).
    eapply reads_bind; [apply reads_fails, varlen_upto; done|destruct t; apply reads_ret].
  - unfold BtcTx_fromVbkEncoding. eapply safe_bind; [apply safe_fails, safe_varlen_upto|].
    intros v Hv. by apply safe_ret_with.
Qed.

(** *** Lists of hashes *)
Notation hashes := (Forall (blob_ok SHA256_HASH_SIZE)).

Lemma hash_short v : blob_ok SHA256_HASH_SIZE v → (length v <= 255)%nat.
Proof. intros [_ ->]. unfold SHA256_HASH_SIZE. lia. Qed.

Lemma writes_hashes l : hashes l → writes (writeItems writeSingleByteLenValue l) (concat (map enc_sbl l)).
Proof.
  intros Hl. apply writes_items. induction Hl; constructor; [by apply writes_sbl, hash_short|done].
Qed.

Lemma sizes_hashes l : hashes l → Forall2 (λ x e, x = Ok (size_of e))
  (map (λ layer, singleByteLenValueSize (Z.of_nat (length layer))) l) (map enc_sbl l).
Proof. induction 1; constructor; [by apply size_sbl, hash_short|done]. Qed.

Lemma size_hashes l : hashes l → size_of (concat (map enc_sbl l)) = 33 * Z.of_nat (length l).
Proof.
  induction 1 as [|v l [_ Hv] _ IH]; [done|]. cbn [map length]. rewrite size_concat_cons, size_enc_sbl, IH.
  unfold size_of. rewrite Hv. unfold SHA256_HASH_SIZE. lia.
Qed.

Lemma reads_hashes l : hashes l → Forall2 (λ v e, reads VbkPath.readHash e v) l (map enc_sbl l).
Proof.
  induction 1 as [|v l [_ Hv] _ IH]; constructor; [|done]. apply reads_sbl_blob; [unfold SHA256_HASH_SIZE; lia|done].
Qed.

Lemma reads_hash_slices l : hashes l → Forall2 (λ v e, reads (readSingleByteLenValue (Z.of_nat SHA256_HASH_SIZE)
  (Z.of_nat SHA256_HASH_SIZE)) e v) l (map enc_sbl l).
Proof.
  induction 1 as [|v l [Hb Hv] _ IH]; constructor; [|done]. apply reads_sbl; [by apply hash_short|rewrite Hv; lia].
Qed.

Lemma count_range {A} (l : list A) : Z.of_nat (length l) <= 40 → in_range int32_t (Z.of_nat (length l)) ∧
  conv int32_t (Z.of_nat (length l)) = Z.of_nat (length l).
Proof.
  intros Hl. assert (in_range int32_t (Z.of_nat (length l))) as Hr by (unfold in_range, bits_of; simpl; lia).
  split; [done|]. apply conv_id; [simpl; lia|done].
Qed.

Lemma fixed_be v : in_range int32_t v → writes (writeSingleFixedBEValue int32_t v) (enc_sbl (be_bytes v 4)) ∧
  reads (readSingleBEValue int32_t) (enc_sbl (be_bytes v 4)) v ∧
  singleFixedBEValueSize int32_t v = Ok (size_of (enc_sbl (be_bytes v 4))) ∧
  size_of (enc_sbl (be_bytes v 4)) = 5.
Proof.
  intros Hv. split_and!.
  - apply (writes_fixed_be int32_t). simpl. lia.
  - apply (reads_fixed_be int32_t); [simpl; lia|done].
  - apply (size_fixed_be int32_t). simpl. lia.
  - rewrite size_enc_sbl, size_be_bytes. lia.
Qed.

(** *** Merkle paths *)
#[global] Instance VbkMerklePath_laws : CodecLaws VbkMerklePath.
Proof.
  split; unfold_codec; unfold VbkPath.path_valid, MAX_LAYER_COUNT_MERKLE.
  - done.
  - intros p (Ht & Hi & Hs & Hl & Hn). destruct (count_range _ Hn) as [Hc Ec].
    unfold VbkPath.toVbkEncoding, VbkPath.parts. rewrite Ec, concat_app. cbn [concat]. rewrite app_nil_r, <- !app_assoc.
    writes_parts; first [by apply fixed_be | by apply writes_sbl, hash_short | by apply writes_hashes].
  - intros p (Ht & Hi & Hs & Hl & Hn). destruct (count_range _ Hn) as [Hc Ec]. apply accumulate_ok.
    + unfold VbkPath.parts. rewrite Ec. apply Forall2_app; [|by apply sizes_hashes].
      repeat constructor; first [by apply fixed_be | by apply size_sbl, hash_short].
    + unfold VbkPath.parts. rewrite concat_app, size_app, size_hashes by done. rewrite !size_concat_cons, !size_enc_sbl, !size_be_bytes.
      rewrite (blob_size _ _ Hs). unfold SHA256_HASH_SIZE. change (size_of (concat [])) with 0. lia.
  - intros p (Ht & Hi & Hs & Hl & Hn).
    unfold VbkPath.parts. rewrite concat_app, size_app, size_hashes by done. rewrite !size_concat_cons, !size_enc_sbl, !size_be_bytes.
    rewrite (blob_size _ _ Hs). unfold SHA256_HASH_SIZE. change (size_of (concat [])) with 0. lia.
  - intros p (Ht & Hi & Hs & Hl & Hn). destruct (count_range _ Hn) as [Hc _].
    unfold VbkPath.fromVbkEncoding, VbkPath.parts. rewrite concat_app. cbn [concat]. rewrite <- !app_assoc.
    do 2 (eapply reads_bind; [apply reads_fails, fixed_be; done|]).
    eapply reads_bind; [apply reads_fails, reads_sbl_blob; [unfold SHA256_HASH_SIZE; lia|apply Hs]|].
    cbn [app]. rewrite <- (app_nil_r (_ ++ concat _)).
    eapply reads_bind; [apply reads_fails, reads_arrayOf; [by apply reads_hashes|by apply fixed_be|]|].
    { unfold MAX_LAYER_COUNT_MERKLE. lia. }
    destruct p. apply reads_ret.
  - unfold VbkPath.fromVbkEncoding.
    do 2 (eapply safe_bind; [apply safe_fails, safe_be; simpl; lia|]; intros ? ?).
    eapply safe_bind; [apply safe_fails, safe_sbl_N|]; intros ? ?.
    eapply safe_bind; [apply safe_fails, safe_readArrayOf, safe_sbl_N|]; intros ls [Hl Hn].
    apply safe_ret_with. unfold MAX_LAYER_COUNT_MERKLE in Hn. cbn.
    split; [done|]. split; [done|]. split; [done|]. split; [done|lia].
Qed.

Lemma merkle_raw_size p : MerklePath_valid p → size_of (concat (merkle_parts p)) = 19 + 33 * Z.of_nat (length (layers p)).
Proof.
  intros (_ & _ & Hl & _). unfold merkle_parts. rewrite concat_app, size_app, size_hashes by done.
  rewrite !size_concat_cons, !size_enc_sbl, !size_be_bytes. change (size_of (concat [])) with 0. lia.
Qed.

Lemma fixedArray_subject p : blob_ok SHA256_HASH_SIZE (subject p) →
  fixedArray int32_t (conv int32_t (Z.of_nat (length (subject p)))) = Ok (be_bytes 32 4).
Proof.
  intros [_ ->]. unfold fixedArray. rewrite (written_writes _ (be_bytes 32 4)); [done|].
  apply (writes_BE int32_t 32 4); simpl; lia.
Qed.

Lemma merkle_writes p : MerklePath_valid p → writes (MerklePath_toVbkEncoding p) (merkle_encoding p).
Proof.
  intros Hp. pose proof (merkle_raw_size p Hp) as Hsize. destruct Hp as (Hi & Hs & Hl & Hn).
  unfold MAX_LAYER_COUNT_MERKLE in Hn.
  assert (writes (MerklePath_toRaw p) (concat (merkle_parts p))) as Hraw.
  { eapply writes_ext.
    { intros w. unfold MerklePath_toRaw. rewrite fixedArray_subject by done. cbn [mbind result_bind].
      rewrite (proj2 (count_range _ Hn)), length_be_bytes. reflexivity. }
    pose proof (proj1 (count_range _ Hn)).
    unfold merkle_parts. rewrite concat_app. cbn [concat]. rewrite app_nil_r, <- !app_assoc.
    writes_parts;
      first [by apply fixed_be | by apply (fixed_be 4) | by apply writes_hashes | done]. }
  intros w. unfold MerklePath_toVbkEncoding. rewrite (written_writes _ _ Hraw). cbn [mbind result_bind].
  apply writes_varlen. unfold size_of in Hsize. lia.
Qed.

Lemma merkle_size p : MerklePath_valid p → MerklePath_estimateSize p = Ok (size_of (merkle_encoding p)) ∧
  size_of (merkle_encoding p) <= 1348.
Proof.
  intros Hp. pose proof (merkle_raw_size p Hp) as Hsize. destruct Hp as (Hi & Hs & Hl & Hn).
  unfold MAX_LAYER_COUNT_MERKLE in Hn. unfold merkle_encoding.
  assert (size_of (enc_varlen (concat (merkle_parts p))) <= 1348) as Hmax by (etrans; [apply size_enc_varlen|]; lia).
  split; [|done]. unfold MerklePath_estimateSize. rewrite fixedArray_subject by done. cbn [mbind result_bind].
  destruct (count_range _ Hn) as [Hc ->]. rewrite length_be_bytes.
  rewrite (accumulate_ok _ (merkle_parts p)).
  - cbn [mbind result_bind]. unfold size_of in *. rewrite size_varlen by lia.
    unfold accumulate. cbn [accumulate_from mbind result_bind]. rewrite addsize_ok by lia. done.
  - unfold merkle_parts. apply Forall2_app; [|by apply sizes_hashes].
    repeat constructor; first [by apply fixed_be | by apply (fixed_be 4) | done].
  - lia.
Qed.

Lemma merkle_reads p : MerklePath_valid p → reads (MerklePath_fromVbkEncoding (subject p)) (merkle_encoding p) p.
Proof.
  intros Hp. pose proof (merkle_raw_size p Hp) as Hsize. destruct Hp as (Hi & Hs & Hl & Hn).
  unfold MAX_LAYER_COUNT_MERKLE in Hn. unfold MerklePath_fromVbkEncoding, merkle_encoding.
  rewrite <- (app_nil_r (enc_varlen _)). unfold size_of in Hsize.
  eapply reads_bind; [apply reads_fails, reads_varlen; unfold MAX_POPDATA_SIZE; lia|]. apply reads_on_slice.
  destruct (count_range _ Hn) as [Hc _]. unfold MerklePath_fromRaw, merkle_parts. rewrite concat_app. cbn [concat].
  rewrite <- !app_assoc.
  do 2 (eapply reads_bind; [apply reads_fails, fixed_be; done|]).
  apply reads_guard_bind; [apply checkRange_ok; unfold MAX_LAYER_COUNT_MERKLE; lia|].
  eapply reads_bind; [by apply reads_fails, (fixed_be 4)|].
  rewrite <- (app_nil_l (be_bytes 32 4 ++ _)).
  eapply reads_bind; [by apply reads_guard|].
  eapply reads_bind; [apply reads_fails, (reads_BE int32_t 32); simpl; lia|].
  cbn [app]. rewrite <- (app_nil_l (concat _)).
  eapply reads_bind; [by apply reads_guard|].
  rewrite <- (app_nil_r (concat _)), Nat2Z.id.
  eapply reads_bind; [by apply reads_loop, reads_hash_slices|]. destruct p. apply reads_ret.
Qed.

Lemma merkle_safe s : blob_ok SHA256_HASH_SIZE s → safe_reading MerklePath_valid (MerklePath_fromVbkEncoding s).
Proof.
  intros Hs. unfold MerklePath_fromVbkEncoding.
  eapply safe_bind; [apply safe_fails, safe_varlen_upto|]. intros v [Hv _]. apply safe_on_slice; [done|].
  unfold MerklePath_fromRaw.
  do 2 (eapply safe_bind; [apply safe_fails, safe_be; simpl; lia|]; intros ? ?).
  apply safe_guard_with; [apply checkRange_safe|]. intros Hr%checkRange_inv.
  eapply safe_bind; [apply safe_fails, safe_be; simpl; lia|]; intros ? ?.
  eapply safe_bind; [apply safe_guard; by destruct (_ =? _)|]; intros _ _.
  eapply safe_bind; [apply safe_fails, safe_readBE; simpl; lia|]; intros ? ?.
  eapply safe_bind; [apply safe_guard; by destruct (_ =? _)|]; intros _ _.
  eapply safe_bind; [apply safe_readLoop, safe_sbl|]. intros ls [Hl Hn].
  apply safe_ret_with. unfold MerklePath_valid. cbn. split; [done|]. split; [done|]. split.
  - eapply Forall_impl; [exact Hl|]. intros x. apply blob_of_length.
  - lia.
Qed.

Section payloads.
Context `{Hashes} `{ProgPow}.

(** ** [Output] *)
Record Output := mkOutput { address : Address; coin : Coin }.
Definition Output_toVbkEncoding (o : Output) : writer :=
  toVbkEncoding (address o) +++ toVbkEncoding (coin o).
Definition Output_estimateSize (o : Output) : result Z :=
  accumulate [estimateSize (address o); estimateSize (coin o)].
Definition Output_fromVbkEncoding : reader Output :=
  address <- fails fromVbkEncoding "output-address";;
  amount <- fails fromVbkEncoding "output-amount";;
  ret (mkOutput address amount).
Definition output_parts (o : Output) : list (list Z) := [encoding (address o); encoding (coin o)].
Definition Output_valid (o : Output) : Prop := valid (address o) ∧ valid (coin o).
#[global] Instance Output_codec : Codec Output := {
  toVbkEncoding := Output_toVbkEncoding; fromVbkEncoding := Output_fromVbkEncoding;
  estimateSize := Output_estimateSize; encoding o := concat (output_parts o);
  valid := Output_valid; encodable := Output_valid; max_size := 41 }.

(** ** [VbkTx] *)
Record VbkTx := mkVbkTx {
  networkOrType : NetworkBytePair; sourceAddress : Address; sourceAmount : Coin;
  outputs : list Output; signatureIndex : Z; publicationData : PublicationData;
  signature : list Z; publicKey : list Z }.
Definition VbkTx_toRaw (t : VbkTx) : writer :=
  writeNetworkByte (networkOrType t) +++
  toVbkEncoding (sourceAddress t) +++
  toVbkEncoding (sourceAmount t) +++
  writeBE uint8_t (Z.of_nat (length (outputs t))) 1 +++
  writeItems toVbkEncoding (outputs t) +++
  writeSingleBEValue (signatureIndex t) +++
  (λ w, pubBytes ← written (toVbkEncoding (publicationData t)); writeVarLenValue pubBytes w).
(** The tail shared by [VbkTx] and [VbkPopTx]. *)
Definition write_signed (toRaw : writer) (signature publicKey : list Z) : writer := λ w,
  raw ← written toRaw;
  (writeVarLenValue raw +++ writeSingleByteLenValue signature +++ writeSingleByteLenValue publicKey) w.
Definition size_signed (rawSize : Z) (signature publicKey : list Z) : result Z :=
  accumulate [Ok (varLenValueSize rawSize); singleByteLenValueSize (Z.of_nat (length signature));
              singleByteLenValueSize (Z.of_nat (length publicKey))].
Definition VbkTx_toVbkEncoding (t : VbkTx) : writer := write_signed (VbkTx_toRaw t) (signature t) (publicKey t).
Definition VbkTx_estimateSize (t : VbkTx) : result Z :=
  rawSize ← accumulate ([Ok (networkByteSize (networkOrType t)); estimateSize (sourceAddress t);
    estimateSize (sourceAmount t); Ok 1] ++ map estimateSize (outputs t) ++
    [Ok (singleBEValueSize (signatureIndex t));
     (n ← estimateSize (publicationData t); Ok (varLenValueSize n))]);
  size_signed rawSize (signature t) (publicKey t).
Definition VbkTx_getHash (t : VbkTx) : result (list Z) :=
  raw ← written (VbkTx_toRaw t); Ok (sha256 raw).
Definition VbkTx_fromRaw (signature publicKey : list Z) : reader VbkTx :=
  networkOrType <- fails (readNetworkByte TxType_VBK_TX) "vbktx-network-or-type";;
  sourceAddress <- fails fromVbkEncoding "vbktx-address";;
  sourceAmount <- fails fromVbkEncoding "vbktx-amount";;
  outputSize <- fails (readBE uint8_t 1) "vbktx-outputs-size";;
  outputs <- readLoop "vbktx-output" fromVbkEncoding (Z.to_nat outputSize) 0;;
  signatureIndex <- fails (readSingleBEValue int64_t) "vbktx-signature-index";;
  pubBytes <- fails (readVarLenValue 0 MAX_PUBLICATIONDATA_SIZE) "vbktx-publication-bytes";;
  publicationData <- fails (on_slice fromVbkEncoding pubBytes) "vbktx-publication-data";;
  ret (mkVbkTx networkOrType sourceAddress sourceAmount outputs signatureIndex publicationData signature publicKey).
Definition VbkTx_fromVbkEncoding : reader VbkTx :=
  rawTx <- fails (readVarLenValue 0 MAX_POPDATA_SIZE) "vbktx-header";;
  signature <- fails (readSingleByteLenValue 0 MAX_SIGNATURE_SIZE) "vbktx-signature";;
  publicKey <- fails (readSingleByteLenValue 0 MAX_PUBLIC_KEY_SIZE) "vbktx-public-key";;
  on_slice (VbkTx_fromRaw signature publicKey) rawTx.
Definition vbktx_parts (t : VbkTx) : list (list Z) :=
  [enc_network (networkOrType t); encoding (sourceAddress t); encoding (sourceAmount t);
   be_bytes (Z.of_nat (length (outputs t))) 1] ++ map encoding (outputs t) ++
  [enc_be (signatureIndex t); enc_varlen (encoding (publicationData t))].
Definition signed_encoding (raw signature publicKey : list Z) : list Z :=
  concat [enc_varlen raw; enc_sbl signature; enc_sbl publicKey].
Definition signature_ok (signature publicKey : list Z) : Prop :=
  bytes_upto MAX_SIGNATURE_SIZE signature ∧ bytes_upto MAX_PUBLIC_KEY_SIZE publicKey.
Definition VbkTx_valid (t : VbkTx) : Prop :=
  network_ok TxType_VBK_TX (networkOrType t) ∧ valid (sourceAddress t) ∧ valid (sourceAmount t) ∧
  Forall valid (outputs t) ∧ Z.of_nat (length (outputs t)) <= MAX_OUTPUTS_COUNT ∧
  in_range int64_t (signatureIndex t) ∧ valid (publicationData t) ∧ signature_ok (signature t) (publicKey t).
Definition VbkTx_encodable (t : VbkTx) : Prop :=
  VbkTx_valid t ∧ size_of (encoding (publicationData t)) <= MAX_PUBLICATIONDATA_SIZE.
#[global] Instance VbkTx_codec : Codec VbkTx := {
  toVbkEncoding := VbkTx_toVbkEncoding; fromVbkEncoding := VbkTx_fromVbkEncoding;
  estimateSize := VbkTx_estimateSize;
  encoding t := signed_encoding (concat (vbktx_parts t)) (signature t) (publicKey t);
  valid := VbkTx_valid; encodable := VbkTx_encodable; max_size := 31800 }.

(** [VbkTx::calculateTxFee] on [int64_t]. *)
Definition calculateTxFee (t : VbkTx) : result Coin :=
  output ← foldM (λ o x, cki64 (o + units (coin x))) (outputs t) 0;
  fee ← cki64 (units (sourceAmount t) - output);
  Ok (mkCoin fee).

(** ** [VbkPopTx] *)
Record VbkPopTx := mkVbkPopTx {
  pop_networkOrType : NetworkBytePair; pop_address : Address; publishedBlock : VbkBlock;
  bitcoinTransaction : BtcTx; pop_merklePath : MerklePath; pop_blockOfProof : BtcBlock;
  blockOfProofContext : list BtcBlock; pop_signature : list Z; pop_publicKey : list Z }.
Definition VbkPopTx_toRaw (t : VbkPopTx) : writer :=
  writeNetworkByte (pop_networkOrType t) +++
  toVbkEncoding (pop_address t) +++
  toVbkEncoding (publishedBlock t) +++
  toVbkEncoding (bitcoinTransaction t) +++
  MerklePath_toVbkEncoding (pop_merklePath t) +++
  toVbkEncoding (pop_blockOfProof t) +++
  writeSingleBEValue (Z.of_nat (length (blockOfProofContext t))) +++
  writeItems toVbkEncoding (blockOfProofContext t).
Definition VbkPopTx_toVbkEncoding (t : VbkPopTx) : writer :=
  write_signed (VbkPopTx_toRaw t) (pop_signature t) (pop_publicKey t).
Definition VbkPopTx_estimateSize (t : VbkPopTx) : result Z :=
  rawSize ← accumulate ([Ok (networkByteSize (pop_networkOrType t)); estimateSize (pop_address t);
    estimateSize (publishedBlock t); estimateSize (bitcoinTransaction t);
    MerklePath_estimateSize (pop_merklePath t); estimateSize (pop_blockOfProof t);
    Ok (singleBEValueSize (Z.of_nat (length (blockOfProofContext t))))] ++
    map estimateSize (blockOfProofContext t));
  size_signed rawSize (pop_signature t) (pop_publicKey t).
Definition VbkPopTx_getHash (t : VbkPopTx) : result (list Z) :=
  raw ← written (VbkPopTx_toRaw t); Ok (sha256 raw).
Definition VbkPopTx_fromRaw (signature publicKey : list Z) : reader VbkPopTx :=
  networkOrType <- fails (readNetworkByte TxType_VBK_POP_TX) "vbkpoptx-network-or-type";;
  address <- fails fromVbkEncoding "vbkpoptx-address";;
  publishedBlock <- fails fromVbkEncoding "vbkpoptx-published-block";;
  bitcoinTransaction <- fails fromVbkEncoding "vbkpoptx-bitcoin-tx";;
  merklePath <- fails (MerklePath_fromVbkEncoding (sha256twice (tx bitcoinTransaction))) "vbkpoptx-merkle-path";;
  blockOfProof <- fails fromVbkEncoding "vbkpoptx-block-of-proof";;
  blockOfProofContext <- fails (readArrayOf 0 MAX_BTC_BLOCKS_IN_VBKPOPTX fromVbkEncoding) "vbkpoptx-btc-context";;
  ret (mkVbkPopTx networkOrType address publishedBlock bitcoinTransaction merklePath blockOfProof
         blockOfProofContext signature publicKey).
Definition VbkPopTx_fromVbkEncoding : reader VbkPopTx :=
  rawTx <- fails (readVarLenValue 0 MAX_POPDATA_SIZE) "vbkpoptx-invalid-tx";;
  signature <- fails (readSingleByteLenValue 0 MAX_SIGNATURE_SIZE) "vbkpoptx-invalid-signature";;
  publicKey <- fails (readSingleByteLenValue 0 MAX_PUBLIC_KEY_SIZE) "vbkpoptx-invalid-public-key";;
  on_slice (VbkPopTx_fromRaw signature publicKey) rawTx.
Definition vbkpoptx_parts (t : VbkPopTx) : list (list Z) :=
  [enc_network (pop_networkOrType t); encoding (pop_address t); encoding (publishedBlock t);
   encoding (bitcoinTransaction t); merkle_encoding (pop_merklePath t); encoding (pop_blockOfProof t);
   enc_be (Z.of_nat (length (blockOfProofContext t)))] ++ map encoding (blockOfProofContext t).
Definition VbkPopTx_valid (t : VbkPopTx) : Prop :=
  network_ok TxType_VBK_POP_TX (pop_networkOrType t) ∧ valid (pop_address t) ∧ valid (publishedBlock t) ∧
  valid (bitcoinTransaction t) ∧ MerklePath_valid (pop_merklePath t) ∧ valid (pop_blockOfProof t) ∧
  Forall valid (blockOfProofContext t) ∧ Z.of_nat (length (blockOfProofContext t)) <= MAX_BTC_BLOCKS_IN_VBKPOPTX ∧
  signature_ok (pop_signature t) (pop_publicKey t).
Definition VbkPopTx_encodable (t : VbkPopTx) : Prop :=
  VbkPopTx_valid t ∧ encodable (publishedBlock t) ∧
  subject (pop_merklePath t) = sha256twice (tx (bitcoinTransaction t)) ∧
  size_of (concat (vbkpoptx_parts t)) <= MAX_POPDATA_SIZE.
#[global] Instance VbkPopTx_codec : Codec VbkPopTx := {
  toVbkEncoding := VbkPopTx_toVbkEncoding; fromVbkEncoding := VbkPopTx_fromVbkEncoding;
  estimateSize := VbkPopTx_estimateSize;
  encoding t := signed_encoding (concat (vbkpoptx_parts t)) (pop_signature t) (pop_publicKey t);
  valid := VbkPopTx_valid; encodable := VbkPopTx_encodable; max_size := 9400000 }.

(** ** Laws of the payloads *)
Ltac unfold_payload :=
  cbn [toVbkEncoding fromVbkEncoding estimateSize encoding valid encodable max_size
       Output_codec VbkTx_codec VbkPopTx_codec].

Lemma max_address (a : Address) : valid a → size_of (encoding a) <= 32.
Proof. exact (codec_max a). Qed.
Lemma max_coin (c : Coin) : valid c → size_of (encoding c) <= 9.
Proof. exact (codec_max c). Qed.
Lemma max_pub (p : PublicationData) : valid p → size_of (encoding p) <= 21060.
Proof. exact (codec_max p). Qed.
Lemma max_btctx (t : BtcTx) : valid t → size_of (encoding t) <= 4000009.
Proof. exact (codec_max t). Qed.
Lemma max_vbkblock (b : VbkBlock) : valid b → size_of (encoding b) <= 66.
Proof. exact (codec_max b). Qed.
Lemma max_btcblock (b : BtcBlock) : valid b → size_of (encoding b) <= 81.
Proof. exact (codec_max b). Qed.
Lemma max_vbkpath (p : VbkMerklePath) : valid p → size_of (encoding p) <= 1368.
Proof. exact (codec_max p). Qed.

#[global] Instance Output_laws : CodecLaws Output.
Proof.
  split; unfold_payload; unfold Output_valid.
  - done.
  - intros o [Ha Hc]. unfold Output_toVbkEncoding, output_parts. cbn [concat]. rewrite app_nil_r.
    writes_parts; by apply codec_writes.
  - intros o [Ha Hc]. apply accumulate_ok.
    + repeat constructor; by apply codec_size.
    + unfold output_parts. rewrite !size_concat_cons. pose proof (max_address _ Ha). pose proof (max_coin _ Hc).
      change (size_of (concat [])) with 0. lia.
  - intros o [Ha Hc]. unfold output_parts. rewrite !size_concat_cons. pose proof (max_address _ Ha).
    pose proof (max_coin _ Hc). change (size_of (concat [])) with 0. lia.
  - intros o [Ha Hc]. unfold Output_fromVbkEncoding, output_parts. cbn [concat].
    do 2 (eapply reads_bind; [apply reads_fails, codec_reads; assumption|]). destruct o. apply reads_ret.
  - unfold Output_fromVbkEncoding. do 2 (eapply safe_bind; [apply safe_fails, codec_safe|]; intros ? ?).
    by apply safe_ret_with.
Qed.

(** *** Signed transactions *)
Lemma signed_spec toRaw raw signature publicKey : writes toRaw raw → size_of raw < 2 ^ 62 →
  signature_ok signature publicKey →
  writes (write_signed toRaw signature publicKey) (signed_encoding raw signature publicKey) ∧
  size_signed (size_of raw) signature publicKey = Ok (size_of (signed_encoding raw signature publicKey)) ∧
  size_of (signed_encoding raw signature publicKey) <= size_of raw + 171.
Proof.
  intros Hraw Hs [[_ H1] [_ H2]]. unfold MAX_SIGNATURE_SIZE, MAX_PUBLIC_KEY_SIZE in *.
  assert (size_of (signed_encoding raw signature publicKey) <= size_of raw + 171) as Hmax.
  { unfold signed_encoding. rewrite !size_concat_cons, !size_enc_sbl. pose proof (size_enc_varlen raw).
    change (size_of (concat [])) with 0. unfold size_of in *. lia. }
  split_and!; [| |done].
  - eapply writes_ext; [intros w; unfold write_signed; rewrite (written_writes _ _ Hraw); cbn [mbind result_bind]; reflexivity|].
    unfold signed_encoding. cbn [concat]. rewrite app_nil_r.
    writes_parts; [apply writes_varlen; unfold size_of in Hs; lia|apply writes_sbl; lia..].
  - unfold size_signed, signed_encoding. apply accumulate_ok.
    + repeat constructor; [f_equal; apply size_varlen; unfold size_of in Hs; lia|apply size_sbl; lia..].
    + unfold signed_encoding in Hmax. lia.
Qed.

Lemma signed_reads {A} (p : list Z → list Z → reader A) raw signature publicKey r1 r2 r3 v :
  reads (p signature publicKey) raw v → size_of raw <= MAX_POPDATA_SIZE → signature_ok signature publicKey →
  reads (rawTx <- fails (readVarLenValue 0 MAX_POPDATA_SIZE) r1;;
         signature <- fails (readSingleByteLenValue 0 MAX_SIGNATURE_SIZE) r2;;
         publicKey <- fails (readSingleByteLenValue 0 MAX_PUBLIC_KEY_SIZE) r3;;
         on_slice (p signature publicKey) rawTx) (signed_encoding raw signature publicKey) v.
Proof.
  intros Hp Hs [[_ H1] [_ H2]]. unfold MAX_SIGNATURE_SIZE, MAX_PUBLIC_KEY_SIZE, MAX_POPDATA_SIZE, size_of in *.
  unfold signed_encoding. cbn [concat].
  eapply reads_bind; [apply reads_fails, reads_varlen; lia|].
  do 2 (eapply reads_bind; [apply reads_fails, reads_sbl; lia|]). by apply reads_on_slice.
Qed.

Lemma signed_safe {A} (Q : A → Prop) (p : list Z → list Z → reader A) r1 r2 r3 :
  (∀ s k, signature_ok s k → safe_reading Q (p s k)) →
  safe_reading Q (rawTx <- fails (readVarLenValue 0 MAX_POPDATA_SIZE) r1;;
         signature <- fails (readSingleByteLenValue 0 MAX_SIGNATURE_SIZE) r2;;
         publicKey <- fails (readSingleByteLenValue 0 MAX_PUBLIC_KEY_SIZE) r3;;
         on_slice (p signature publicKey) rawTx).
Proof.
  intros Hp. eapply safe_bind; [apply safe_fails, safe_varlen_upto|]. intros v [Hv _].
  do 2 (eapply safe_bind; [apply safe_fails, safe_sbl_upto|]; intros ? ?).
  apply safe_on_slice; [done|]. by apply Hp.
Qed.

(** *** [VbkTx] *)
Lemma sizes_list {A} `{CodecLaws A} (l : list A) : Forall valid l →
  Forall2 (λ x e, x = Ok (size_of e)) (map estimateSize l) (map encoding l).
Proof. induction 1; constructor; [by apply codec_size|done]. Qed.

Lemma writes_entities {A} `{CodecLaws A} (l : list A) : Forall valid l →
  writes (writeItems toVbkEncoding l) (concat (map encoding l)).
Proof. intros Hl. apply writes_items. induction Hl; constructor; [by apply codec_writes|done]. Qed.

Lemma size_network_le n : size_of (enc_network n) <= 2.
Proof. unfold enc_network. rewrite size_app, size_be_bytes. destruct (networkType n); [rewrite size_be_bytes|]; change (size_of []) with 0; lia. Qed.

Lemma vbktx_raw t : VbkTx_valid t →
  writes (VbkTx_toRaw t) (concat (vbktx_parts t)) ∧ size_of (concat (vbktx_parts t)) <= 31578.
Proof.
  intros (Hn & Ha & Hc & Ho & Hl & Hi & Hp & _). unfold MAX_OUTPUTS_COUNT in Hl. unfold vbktx_parts.
  rewrite !concat_app. cbn [concat]. split.
  - rewrite !app_nil_r, <- !app_assoc. unfold VbkTx_toRaw. writes_parts.
    + apply writes_network.
    + by apply codec_writes.
    + by apply codec_writes.
    + apply writes_byte.
    + by apply writes_entities.
    + by apply writes_be.
    + eapply writes_ext; [intros w; rewrite (written_writes _ _ (codec_writes _ Hp)); cbn [mbind result_bind]; reflexivity|].
      apply writes_varlen. pose proof (max_pub _ Hp). unfold size_of in *. lia.
  - rewrite !size_app, size_be_bytes. change (size_of []) with 0.
    pose proof (size_network_le (networkOrType t)). pose proof (max_address _ Ha). pose proof (max_coin _ Hc).
    pose proof (size_concat _ Ho : _ <= _ * 41). pose proof (size_enc_be (signatureIndex t)). pose proof (max_pub _ Hp).
    pose proof (size_enc_varlen (encoding (publicationData t))).
    lia.
Qed.

#[global] Instance VbkTx_laws : CodecLaws VbkTx.
Proof.
  split; unfold_payload.
  - by intros t [Ht _].
  - intros t Ht. destruct (vbktx_raw t Ht) as [Hw Hs]. apply signed_spec; [done|lia|apply Ht].
  - intros t Ht. destruct (vbktx_raw t Ht) as [Hw Hs]. unfold VbkTx_estimateSize.
    rewrite (accumulate_ok _ (vbktx_parts t)); [|clear Hs Hw|lia].
    + cbn [mbind result_bind]. eapply signed_spec; [exact Hw|lia|apply Ht].
    + destruct Ht as (Hn & Ha & Hc & Ho & Hl & Hi & Hp & _). unfold vbktx_parts.
      apply Forall2_app; [|apply Forall2_app; [by apply sizes_list|]]; repeat constructor.
      * f_equal. apply size_network.
      * by apply codec_size.
      * by apply codec_size.
      * f_equal. by apply size_be.
      * rewrite (codec_size _ Hp). cbn [mbind result_bind]. f_equal. apply size_varlen.
        pose proof (max_pub _ Hp). unfold size_of in *. lia.
  - intros t Ht. destruct (vbktx_raw t Ht) as [Hw Hs].
    destruct (signed_spec _ _ _ _ Hw ltac:(lia) (proj2 (proj2 (proj2 (proj2 (proj2 (proj2 (proj2 Ht)))))))) as (_ & _ & ?). lia.
  - intros t [Ht Hpub]. destruct (vbktx_raw t Ht) as [_ Hs].
    destruct Ht as (Hn & Ha & Hc & Ho & Hl & Hi & Hp & Hsig). unfold MAX_OUTPUTS_COUNT in Hl.
    apply (signed_reads VbkTx_fromRaw); [clear Hs|unfold MAX_POPDATA_SIZE; lia|done].
    unfold VbkTx_fromRaw, vbktx_parts. rewrite !concat_app. cbn [concat]. rewrite <- !app_assoc.
    eapply reads_bind; [by apply reads_fails, reads_network|].
    do 2 (eapply reads_bind; [by apply reads_fails, codec_reads|]).
    eapply reads_bind; [apply reads_fails, reads_byte; unfold byte_ok; lia|].
    cbn [app]. rewrite Nat2Z.id. eapply reads_bind.
    { apply reads_loop. clear -Ho. induction Ho; constructor; [by apply codec_reads|done]. }
    eapply reads_bind; [apply reads_fails, reads_be; split_and!; simpl; (done || lia || auto)|].
    eapply reads_bind; [apply reads_fails, reads_varlen|].
    { unfold size_of, MAX_PUBLICATIONDATA_SIZE, MAX_HEADER_SIZE_PUBLICATION_DATA, MAX_PAYOUT_INFO_SIZE,
        MAX_CONTEXT_SIZE_PUBLICATION_DATA in Hpub. lia. }
    { unfold size_of in Hpub. lia. }
    rewrite <- (app_nil_l []).
    eapply reads_bind; [by apply reads_fails, reads_on_slice, codec_reads|]. destruct t. apply reads_ret.
  - apply signed_safe. intros sig pk Hsig. unfold VbkTx_fromRaw.
    eapply safe_bind; [apply safe_fails, safe_readNetworkByte; unfold byte_ok, TxType_VBK_TX; lia|]; intros ? ?.
    do 2 (eapply safe_bind; [apply safe_fails, codec_safe|]; intros ? ?).
    eapply safe_bind; [apply safe_fails, safe_byte|]; intros n Hn.
    eapply safe_bind; [apply safe_readLoop, codec_safe|]; intros os [Ho Hl].
    eapply safe_bind; [apply safe_fails, safe_be; simpl; lia|]; intros ? ?.
    eapply safe_bind; [apply safe_fails, safe_varlen_upto|]; intros v [Hv _].
    eapply safe_bind; [apply safe_fails, safe_on_slice; [done|apply codec_safe]|]; intros ? ?.
    apply safe_ret_with. unfold VbkTx_valid. cbn [networkOrType sourceAddress sourceAmount outputs signatureIndex publicationData signature publicKey]. unfold byte_ok in Hn. conjs ltac:(first [assumption | unfold MAX_OUTPUTS_COUNT; lia | exact Hsig]).
Qed.

(** *** [VbkPopTx] *)
Lemma vbkpoptx_raw t : VbkPopTx_valid t →
  writes (VbkPopTx_toRaw t) (concat (vbkpoptx_parts t)) ∧ size_of (concat (vbkpoptx_parts t)) <= 9310000.
Proof.
  intros (Hn & Ha & Hb & Ht & Hm & Hp & Hc & Hl & _). unfold MAX_BTC_BLOCKS_IN_VBKPOPTX in Hl. unfold vbkpoptx_parts.
  rewrite concat_app. cbn [concat]. split.
  - rewrite !app_nil_r, <- !app_assoc. unfold VbkPopTx_toRaw. writes_parts.
    + apply writes_network.
    + by apply codec_writes.
    + by apply codec_writes.
    + by apply codec_writes.
    + by apply merkle_writes.
    + by apply codec_writes.
    + apply writes_be. unfold in_range, bits_of. simpl. lia.
    + by apply writes_entities.
  - rewrite !size_app. change (size_of []) with 0.
    pose proof (size_network_le (pop_networkOrType t)). pose proof (max_address _ Ha). pose proof (max_vbkblock _ Hb).
    pose proof (max_btctx _ Ht). pose proof (proj2 (merkle_size _ Hm)). pose proof (max_btcblock _ Hp).
    pose proof (size_enc_be (Z.of_nat (length (blockOfProofContext t)))). pose proof (size_concat _ Hc : _ <= _ * 81). lia.
Qed.

#[global] Instance VbkPopTx_laws : CodecLaws VbkPopTx.
Proof.
  split; unfold_payload.
  - by intros t [Ht _].
  - intros t Ht. destruct (vbkpoptx_raw t Ht) as [Hw Hs]. apply signed_spec; [done|lia|apply Ht].
  - intros t Ht. destruct (vbkpoptx_raw t Ht) as [Hw Hs]. unfold VbkPopTx_estimateSize.
    rewrite (accumulate_ok _ (vbkpoptx_parts t)); [|clear Hs Hw|lia].
    + cbn [mbind result_bind]. eapply signed_spec; [exact Hw|lia|apply Ht].
    + destruct Ht as (Hn & Ha & Hb & Ht & Hm & Hp & Hc & Hl & _). unfold MAX_BTC_BLOCKS_IN_VBKPOPTX in Hl.
      unfold vbkpoptx_parts. apply Forall2_app; [|by apply sizes_list].
      repeat constructor; try (by apply codec_size).
      * f_equal. apply size_network.
      * by apply merkle_size.
      * f_equal. apply size_be. unfold in_range, bits_of. simpl. lia.
  - intros t Ht. destruct (vbkpoptx_raw t Ht) as [Hw Hs].
    assert (signature_ok (pop_signature t) (pop_publicKey t)) as Hsig by apply Ht.
    destruct (signed_spec _ _ _ _ Hw ltac:(lia) Hsig) as (_ & _ & ?). lia.
  - intros t (Ht & Hpub & Hsub & Hmax).
    destruct Ht as (Hn & Ha & Hb & Ht & Hm & Hp & Hc & Hl & Hsig).
    apply (signed_reads VbkPopTx_fromRaw); [clear Hmax|done|done].
    unfold VbkPopTx_fromRaw, vbkpoptx_parts. rewrite concat_app. cbn [concat]. rewrite <- !app_assoc.
    eapply reads_bind; [by apply reads_fails, reads_network|].
    do 3 (eapply reads_bind; [by apply reads_fails, codec_reads|]).
    rewrite <- Hsub. eapply reads_bind; [by apply reads_fails, merkle_reads|].
    eapply reads_bind; [by apply reads_fails, codec_reads|].
    cbn [app]. rewrite <- (app_nil_r (_ ++ concat _)).
    eapply reads_bind; [apply reads_fails, (reads_list (blockOfProofContext t))|].
    { done. }
    { unfold MAX_BTC_BLOCKS_IN_VBKPOPTX in *. lia. }
    destruct t. apply reads_ret.
  - apply signed_safe. intros sig pk Hsig. unfold VbkPopTx_fromRaw.
    eapply safe_bind; [apply safe_fails, safe_readNetworkByte; unfold byte_ok, TxType_VBK_POP_TX; lia|]; intros ? ?.
    do 3 (eapply safe_bind; [apply safe_fails, codec_safe|]; intros ? ?).
    eapply safe_bind; [apply safe_fails, merkle_safe; split; [apply sha256_bytes|apply sha256_length]|]; intros ? ?.
    eapply safe_bind; [apply safe_fails, codec_safe|]; intros ? ?.
    eapply safe_bind; [apply safe_fails, safe_readArrayOf, codec_safe|]; intros bs [Hb Hl].
    apply safe_ret_with. unfold VbkPopTx_valid.
    cbn [pop_networkOrType pop_address publishedBlock bitcoinTransaction pop_merklePath pop_blockOfProof
         blockOfProofContext pop_signature pop_publicKey].
    conjs ltac:(first [assumption | lia | exact Hsig]).
Qed.

(** ** ATV, VTB: a transaction, its merkle path and the block with it *)
Record ATV := mkATV {
  atv_version : Z; atv_transaction : VbkTx; atv_merklePath : VbkMerklePath; atv_blockOfProof : VbkBlock }.
Record VTB := mkVTB {
  vtb_version : Z; vtb_transaction : VbkPopTx; vtb_merklePath : VbkMerklePath; containingBlock : VbkBlock }.

Definition ATV_toVbkEncoding (a : ATV) : writer :=
  writeBE uint32_t (atv_version a) 4 +++
  (if atv_version a =? 1 then
     toVbkEncoding (atv_transaction a) +++ toVbkEncoding (atv_merklePath a) +++ toVbkEncoding (atv_blockOfProof a)
   else λ _, Assert "ATV serialization version is not implemented").
Definition ATV_estimateSize (a : ATV) : result Z :=
  if atv_version a =? 1 then
    accumulate [Ok 4; estimateSize (atv_transaction a); estimateSize (atv_merklePath a); estimateSize (atv_blockOfProof a)]
  else Assert "ATV estimate size version is not implemented".
Definition ATV_fromVbkEncoding : reader ATV :=
  version <- fails (readBE uint32_t 4) "atv-version";;
  _ <- guard (if version =? 1 then Ok tt else invalid "atv-bad-version");;
  transaction <- fails fromVbkEncoding "atv-transaction";;
  merklePath <- fails fromVbkEncoding "atv-merkle-path";;
  blockOfProof <- fails fromVbkEncoding "atv-containing-block";;
  ret (mkATV version transaction merklePath blockOfProof).
Definition VTB_toVbkEncoding (v : VTB) : writer :=
  writeBE uint32_t (vtb_version v) 4 +++
  (if vtb_version v =? 1 then
     toVbkEncoding (vtb_transaction v) +++ toVbkEncoding (vtb_merklePath v) +++ toVbkEncoding (containingBlock v)
   else λ _, Assert "VTB serialization version is not implemented").
Definition VTB_estimateSize (v : VTB) : result Z :=
  if vtb_version v =? 1 then
    accumulate [Ok 4; estimateSize (vtb_transaction v); estimateSize (vtb_merklePath v); estimateSize (containingBlock v)]
  else Assert "VTB estimate size version is not implemented".
Definition VTB_fromVbkEncoding : reader VTB :=
  version <- fails (readBE uint32_t 4) "vtb-version";;
  _ <- guard (if version =? 1 then Ok tt else invalid "vtb-bad-version");;
  transaction <- fails fromVbkEncoding "vtb-transaction";;
  merklePath <- fails fromVbkEncoding "vtb-merkle-path";;
  containingBlock <- fails fromVbkEncoding "vtb-containing-block";;
  ret (mkVTB version transaction merklePath containingBlock).

(** The identifiers, on headers without a cached hash. *)
Definition ATV_getId (a : ATV) : result (list Z) :=
  left ← VbkTx_getHash (atv_transaction a);
  right ← Vbk.computeHash (atv_blockOfProof a);
  Ok (sha256_pair left right).
(** [uint256(hash)]: the 24 bytes padded with zeros. *)
Definition VTB_getId (v : VTB) : list Z :=
  let btcTx := BtcTx_getHash (bitcoinTransaction (vtb_transaction v)) in
  let blockOfProof := Btc.calculateHash (pop_blockOfProof (vtb_transaction v)) in
  let containingVbkBlock := Vbk.calculateHash (containingBlock v) ++ replicate 8 0 in
  let temp := sha256_pair blockOfProof containingVbkBlock in
  sha256_pair btcTx temp.

Definition ATV_valid (a : ATV) : Prop :=
  atv_version a = 1 ∧ valid (atv_transaction a) ∧ valid (atv_merklePath a) ∧ valid (atv_blockOfProof a).
Definition ATV_encodable (a : ATV) : Prop :=
  atv_version a = 1 ∧ encodable (atv_transaction a) ∧ encodable (atv_merklePath a) ∧ encodable (atv_blockOfProof a).
Definition VTB_valid (v : VTB) : Prop :=
  vtb_version v = 1 ∧ valid (vtb_transaction v) ∧ valid (vtb_merklePath v) ∧ valid (containingBlock v).
Definition VTB_encodable (v : VTB) : Prop :=
  vtb_version v = 1 ∧ encodable (vtb_transaction v) ∧ encodable (vtb_merklePath v) ∧ encodable (containingBlock v).
Definition atv_parts (a : ATV) : list (list Z) :=
  [be_bytes 1 4; encoding (atv_transaction a); encoding (atv_merklePath a); encoding (atv_blockOfProof a)].
Definition vtb_parts (v : VTB) : list (list Z) :=
  [be_bytes 1 4; encoding (vtb_transaction v); encoding (vtb_merklePath v); encoding (containingBlock v)].
#[global] Instance ATV_codec : Codec ATV := {
  toVbkEncoding := ATV_toVbkEncoding; fromVbkEncoding := ATV_fromVbkEncoding; estimateSize := ATV_estimateSize;
  encoding a := concat (atv_parts a); valid := ATV_valid; encodable := ATV_encodable; max_size := 33300 }.
#[global] Instance VTB_codec : Codec VTB := {
  toVbkEncoding := VTB_toVbkEncoding; fromVbkEncoding := VTB_fromVbkEncoding; estimateSize := VTB_estimateSize;
  encoding v := concat (vtb_parts v); valid := VTB_valid; encodable := VTB_encodable; max_size := 9500000 }.

Ltac unfold_pop :=
  cbn [toVbkEncoding fromVbkEncoding estimateSize encoding valid encodable max_size ATV_codec VTB_codec].

Lemma reads_version : reads (readBE uint32_t 4) (be_bytes 1 4) 1.
Proof. apply (reads_BE_n uint32_t); [simpl; lia|unfold in_range, bits_of; simpl; lia|simpl; lia]. Qed.

Lemma max_vbktx (t : VbkTx) : valid t → size_of (encoding t) <= 31800.
Proof. exact (codec_max t). Qed.
Lemma max_vbkpoptx (t : VbkPopTx) : valid t → size_of (encoding t) <= 9400000.
Proof. exact (codec_max t). Qed.

Lemma atv_size a : ATV_valid a → size_of (concat (atv_parts a)) <= 33300.
Proof.
  intros (_ & Ht & Hm & Hb). unfold atv_parts. rewrite !size_concat_cons, size_be_bytes.
  pose proof (max_vbktx _ Ht). pose proof (max_vbkpath _ Hm). pose proof (max_vbkblock _ Hb).
  change (size_of (concat [])) with 0. lia.
Qed.

Lemma vtb_size v : VTB_valid v → size_of (concat (vtb_parts v)) <= 9500000.
Proof.
  intros (_ & Ht & Hm & Hb). unfold vtb_parts. rewrite !size_concat_cons, size_be_bytes.
  pose proof (max_vbkpoptx _ Ht). pose proof (max_vbkpath _ Hm). pose proof (max_vbkblock _ Hb).
  change (size_of (concat [])) with 0. lia.
Qed.

#[global] Instance ATV_laws : CodecLaws ATV.
Proof.
  split; unfold_pop.
  - intros a (Hv & Ht & Hm & Hb). by repeat (split; [first [done | by apply codec_valid]|]); apply codec_valid.
  - intros a (Hv & Ht & Hm & Hb). unfold ATV_toVbkEncoding, atv_parts. rewrite Hv, Z.eqb_refl. cbn [concat].
    rewrite app_nil_r. writes_parts; first [by apply codec_writes | apply writes_BE; simpl; lia].
  - intros a Ha. pose proof (atv_size a Ha). destruct Ha as (Hv & Ht & Hm & Hb). unfold ATV_estimateSize.
    rewrite Hv, Z.eqb_refl. apply accumulate_ok; [|lia]. repeat constructor; by apply codec_size.
  - apply atv_size.
  - intros a (Hv & Ht & Hm & Hb). unfold ATV_fromVbkEncoding, atv_parts. cbn [concat].
    eapply reads_bind; [apply reads_fails, reads_version|].
    rewrite <- (app_nil_l (encoding (atv_transaction a) ++ _)). eapply reads_bind; [by apply reads_guard|].
    do 3 (eapply reads_bind; [by apply reads_fails, codec_reads|]).
    eapply reads_value; [apply reads_ret|]. destruct a. cbn in Hv. by rewrite Hv.
  - unfold ATV_fromVbkEncoding. eapply safe_bind; [apply safe_fails, safe_readBE; simpl; lia|]. intros n _.
    destruct (Z.eqb_spec n 1) as [->|]; [|by intros s Hs].
    eapply safe_bind; [by apply safe_guard|]. intros _ _.
    do 3 (eapply safe_bind; [apply safe_fails, codec_safe|]; intros ? ?).
    apply safe_ret_with. unfold ATV_valid. cbn [atv_version atv_transaction atv_merklePath atv_blockOfProof].
    conjs ltac:(first [assumption | reflexivity]).
Qed.

#[global] Instance VTB_laws : CodecLaws VTB.
Proof.
  split; unfold_pop.
  - intros a (Hv & Ht & Hm & Hb). by repeat (split; [first [done | by apply codec_valid]|]); apply codec_valid.
  - intros a (Hv & Ht & Hm & Hb). unfold VTB_toVbkEncoding, vtb_parts. rewrite Hv, Z.eqb_refl. cbn [concat].
    rewrite app_nil_r. writes_parts; first [by apply codec_writes | apply writes_BE; simpl; lia].
  - intros a Ha. pose proof (vtb_size a Ha). destruct Ha as (Hv & Ht & Hm & Hb). unfold VTB_estimateSize.
    rewrite Hv, Z.eqb_refl. apply accumulate_ok; [|lia]. repeat constructor; by apply codec_size.
  - apply vtb_size.
  - intros a (Hv & Ht & Hm & Hb). unfold VTB_fromVbkEncoding, vtb_parts. cbn [concat].
    eapply reads_bind; [apply reads_fails, reads_version|].
    rewrite <- (app_nil_l (encoding (vtb_transaction a) ++ _)). eapply reads_bind; [by apply reads_guard|].
    do 3 (eapply reads_bind; [by apply reads_fails, codec_reads|]).
    eapply reads_value; [apply reads_ret|]. destruct a. cbn in Hv. by rewrite Hv.
  - unfold VTB_fromVbkEncoding. eapply safe_bind; [apply safe_fails, safe_readBE; simpl; lia|]. intros n _.
    destruct (Z.eqb_spec n 1) as [->|]; [|by intros s Hs].
    eapply safe_bind; [by apply safe_guard|]. intros _ _.
    do 3 (eapply safe_bind; [apply safe_fails, codec_safe|]; intros ? ?).
    apply safe_ret_with. unfold VTB_valid. cbn [vtb_version vtb_transaction vtb_merklePath containingBlock].
    conjs ltac:(first [assumption | reflexivity]).
Qed.

(** ** [PopData] *)
Record PopData := mkPopData {
  pop_version : Z; context : list VbkBlock; vtbs : list VTB; atvs : list ATV }.

Definition PopData_toVbkEncoding (p : PopData) : writer :=
  writeBE uint32_t (pop_version p) 4 +++
  (λ w, vassert (pop_version p =? 1) "PopData serialization version is not implemented";; Ok w) +++
  writeContainer (context p) toVbkEncoding +++
  writeContainer (vtbs p) toVbkEncoding +++
  writeContainer (atvs p) toVbkEncoding.
Definition PopData_estimateSize (p : PopData) : result Z :=
  vassert (pop_version p =? 1) "PopData estimate size version is not implemented";;
  accumulate [Ok 4; estimateContainerSize (context p) estimateSize;
              estimateContainerSize (vtbs p) estimateSize; estimateContainerSize (atvs p) estimateSize].

(** An array whose error gets the number of items that were started. *)
Definition readCounted {A} `{Codec A} (max : Z) (reason : string) : reader (list A) := λ s,
  or_invalid_at (readArrayOf 0 max fromVbkEncoding s) reason (array_calls 0 max (fromVbkEncoding (A := A)) s).

Definition PopData_fromVbkEncoding : reader PopData :=
  version <- fails (readBE uint32_t 4) "pop-version";;
  _ <- guard (if version =? 1 then Ok tt else invalid "pop-bad-version");;
  context <- readCounted MAX_POPDATA_VBK "popdata-vbk";;
  vtbs <- readCounted MAX_POPDATA_VTB "popdata-vtb";;
  atvs <- readCounted MAX_POPDATA_ATV "popdata-atv";;
  ret (mkPopData version context vtbs atvs).

Definition PopData_valid (p : PopData) : Prop :=
  pop_version p = 1 ∧
  (Forall valid (context p) ∧ Z.of_nat (length (context p)) <= MAX_POPDATA_VBK) ∧
  (Forall valid (vtbs p) ∧ Z.of_nat (length (vtbs p)) <= MAX_POPDATA_VTB) ∧
  (Forall valid (atvs p) ∧ Z.of_nat (length (atvs p)) <= MAX_POPDATA_ATV).
Definition PopData_encodable (p : PopData) : Prop :=
  PopData_valid p ∧ Forall encodable (context p) ∧ Forall encodable (vtbs p) ∧ Forall encodable (atvs p).
Definition popdata_parts (p : PopData) : list (list Z) :=
  [be_bytes 1 4; enc_list (context p); enc_list (vtbs p); enc_list (atvs p)].
#[global] Instance PopData_codec : Codec PopData := {
  toVbkEncoding := PopData_toVbkEncoding; fromVbkEncoding := PopData_fromVbkEncoding;
  estimateSize := PopData_estimateSize; encoding p := concat (popdata_parts p);
  valid := PopData_valid; encodable := PopData_encodable; max_size := 500000000000 }.

Lemma reads_counted {A} `{CodecLaws A} (l : list A) max reason : Forall encodable l →
  Z.of_nat (length l) <= max < 2 ^ 31 → reads (readCounted max reason) (enc_list l) l.
Proof. intros Hl Hm s rest Hs. unfold readCounted. by rewrite (reads_list l max Hl Hm s rest Hs). Qed.

Lemma safe_counted {A} `{CodecLaws A} max reason :
  safe_reading (λ l : list A, Forall valid l ∧ Z.of_nat (length l) <= max) (readCounted max reason).
Proof.
  intros s Hs. unfold readCounted. pose proof (safe_readArrayOf valid 0 max _ codec_safe s Hs) as Hr.
  destruct (readArrayOf _ _ _ _); try done. cbn [or_invalid_at]. naive_solver.
Qed.

Lemma popdata_sizes p : PopData_valid p → size_of (enc_list (context p)) <= 3300009 ∧
  size_of (enc_list (vtbs p)) <= 475000000009 ∧ size_of (enc_list (atvs p)) <= 1665000009.
Proof.
  unfold PopData_valid, MAX_POPDATA_VBK, MAX_POPDATA_VTB, MAX_POPDATA_ATV. intros (_ & [V1 N1] & [V2 N2] & [V3 N3]).
  split_and!.
  - exact (size_enc_list _ _ V1 N1 ltac:(done)).
  - exact (size_enc_list _ _ V2 N2 ltac:(done)).
  - exact (size_enc_list _ _ V3 N3 ltac:(done)).
Qed.

Lemma popdata_size p : PopData_valid p → size_of (concat (popdata_parts p)) <= 500000000000.
Proof.
  intros Hp. destruct (popdata_sizes p Hp) as (V1 & V2 & V3). unfold popdata_parts.
  rewrite !size_concat_cons, size_be_bytes. change (size_of (concat [])) with 0. lia.
Qed.

#[global] Instance PopData_laws : CodecLaws PopData.
Proof.
  split; cbn [toVbkEncoding fromVbkEncoding estimateSize encoding valid encodable max_size PopData_codec].
  - by intros p [Hp _].
  - intros p (Hv & [V1 N1] & [V2 N2] & [V3 N3]). unfold MAX_POPDATA_VBK, MAX_POPDATA_VTB, MAX_POPDATA_ATV in *.
    unfold PopData_toVbkEncoding, popdata_parts. cbn [concat]. rewrite app_nil_r, Hv.
    apply writes_seq; [apply writes_BE; simpl; lia|].
    rewrite <- (app_nil_l (enc_list (context p) ++ _)). apply writes_seq; [intros w; by rewrite app_nil_r|].
    writes_parts; apply writes_list; (done || lia).
  - intros p Hp. pose proof (popdata_size p Hp). destruct (popdata_sizes p Hp) as (S1 & S2 & S3).
    destruct Hp as (Hv & [V1 N1] & [V2 N2] & [V3 N3]). unfold MAX_POPDATA_VBK, MAX_POPDATA_VTB, MAX_POPDATA_ATV in *.
    unfold PopData_estimateSize. rewrite Hv. cbn [Z.eqb Pos.eqb vassert mbind result_bind].
    apply accumulate_ok; [|lia]. repeat constructor; apply estimate_list; (done || lia).
  - apply popdata_size.
  - intros p ((Hv & [_ N1] & [_ N2] & [_ N3]) & V1 & V2 & V3). unfold PopData_fromVbkEncoding, popdata_parts.
    cbn [concat]. unfold MAX_POPDATA_VBK, MAX_POPDATA_VTB, MAX_POPDATA_ATV in *.
    eapply reads_bind; [apply reads_fails, reads_version|].
    rewrite <- (app_nil_l (enc_list (context p) ++ _)). eapply reads_bind; [by apply reads_guard|].
    do 3 (eapply reads_bind; [apply reads_counted; (done || lia)|]).
    eapply reads_value; [apply reads_ret|]. destruct p. cbn in Hv. by rewrite Hv.
  - unfold PopData_fromVbkEncoding. eapply safe_bind; [apply safe_fails, safe_readBE; simpl; lia|]. intros n _.
    destruct (Z.eqb_spec n 1) as [->|]; [|by intros s Hs].
    eapply safe_bind; [by apply safe_guard|]. intros _ _.
    do 3 (eapply safe_bind; [apply safe_counted|]; intros ? [? ?]).
    apply safe_ret_with. unfold PopData_valid. cbn [pop_version context vtbs atvs]. conjs ltac:(first [reflexivity | assumption]).
Qed.

(** ** The conditions are decidable *)
#[global] Instance bytes_upto_dec n v : Decision (bytes_upto n v).
Proof. unfold bytes_upto. apply _. Defined.
#[global] Instance blob_ok_dec n v : Decision (blob_ok n v).
Proof. unfold blob_ok. apply _. Defined.
#[global] Instance network_ok_dec t n : Decision (network_ok t n).
Proof. unfold network_ok. destruct (networkType n); apply _. Defined.
#[global] Instance Address_valid_dec (a : Address) : Decision (valid a).
Proof. unfold valid; cbn; unfold Address_valid. apply _. Defined.
#[global] Instance Coin_valid_dec (c : Coin) : Decision (valid c).
Proof. unfold valid; cbn; unfold Coin_valid. apply _. Defined.
#[global] Instance PublicationData_valid_dec (p : PublicationData) : Decision (valid p).
Proof. unfold valid; cbn; unfold PublicationData_valid. apply _. Defined.
#[global] Instance BtcTx_valid_dec (t : BtcTx) : Decision (valid t).
Proof. unfold valid; cbn; unfold BtcTx_valid. apply _. Defined.
#[global] Instance Output_valid_dec (o : Output) : Decision (valid o).
Proof. unfold valid; cbn -[valid]; unfold Output_valid. apply _. Defined.
#[global] Instance Btc_valid_dec (b : BtcBlock) : Decision (valid b).
Proof. exact (Btc.btc_valid_dec b). Defined.
#[global] Instance Vbk_valid_dec (b : VbkBlock) : Decision (valid b).
Proof. exact (Vbk.vbk_valid_dec b). Defined.
#[global] Instance Vbk_encodable_dec (b : VbkBlock) : Decision (encodable b).
Proof. exact (Vbk.vbk_encodable_dec b). Defined.
#[global] Instance VbkPath_valid_dec (p : VbkMerklePath) : Decision (valid p).
Proof. unfold valid; cbn; unfold VbkPath.path_valid. apply _. Defined.
#[global] Instance MerklePath_valid_dec p : Decision (MerklePath_valid p).
Proof. unfold MerklePath_valid. apply _. Defined.
#[global] Instance VbkTx_encodable_dec (t : VbkTx) : Decision (encodable t).
Proof. unfold encodable; cbn -[valid]; unfold VbkTx_encodable, VbkTx_valid, signature_ok. apply _. Defined.
#[global] Instance VbkPopTx_encodable_dec (t : VbkPopTx) : Decision (encodable t).
Proof. unfold encodable; cbn -[valid]; unfold VbkPopTx_encodable, VbkPopTx_valid, signature_ok. apply _. Defined.
#[global] Instance ATV_encodable_dec (a : ATV) : Decision (encodable a).
Proof.
  unfold encodable; cbn -[valid]; unfold ATV_encodable.
  pose proof (VbkPath_valid_dec (atv_merklePath a) : Decision (encodable (atv_merklePath a))). apply _.
Defined.
#[global] Instance VTB_encodable_dec (v : VTB) : Decision (encodable v).
Proof.
  unfold encodable; cbn -[valid]; unfold VTB_encodable.
  pose proof (VbkPath_valid_dec (vtb_merklePath v) : Decision (encodable (vtb_merklePath v))). apply _.
Defined.

(** ** The theorems on [PopData] *)

(** C19: serializing and then reading a [PopData] gives it back, and
    [estimateSize] is the number of bytes written. *)
Theorem PopData_roundtrip (p : PopData) : encodable p →
  SerializeToVbkEncoding p = Ok (encoding p) ∧ DeserializeFromVbkEncoding (encoding p) = Ok p ∧
  estimateSize p = Ok (size_of (encoding p)).
Proof.
  intros Hp. pose proof (codec_valid p Hp). split_and!; [by apply serialize_valid|by apply roundtrip|by apply codec_size].
Qed.

(** C20: any bytes are read as a [PopData] or rejected with an error; no
    assertion, exception or read outside of the buffer is possible.  What is
    read is well-formed: its version is 1, it has at most as many headers, VTBs and ATVs
    as the limits say, all their fields have their widths, sizes and limits
    ([PopData_valid]), and it can be serialized again, with the estimated size. *)
Theorem PopData_decode_safe data : bytes_ok data →
  match DeserializeFromVbkEncoding (A := PopData) data with
  | Ok p => PopData_valid p ∧ SerializeToVbkEncoding p = Ok (encoding p) ∧ estimateSize p = Ok (size_of (encoding p))
  | Invalid _ => True
  | _ => False
  end.
Proof.
  intros Hd. pose proof (deserialize_safe (A := PopData) data Hd) as Hs.
  destruct (DeserializeFromVbkEncoding data) as [p| | | | |]; try done.
  split; [exact Hs|]. split; [by apply serialize_valid|by apply codec_size].
Qed.

(** different [PopData] have different encodings. *)
Theorem PopData_encoding_inj (p q : PopData) : encodable p → encodable q →
  SerializeToVbkEncoding p = SerializeToVbkEncoding q → p = q.
Proof.
  intros Hp Hq E. rewrite (serialize_valid p (codec_valid p Hp)), (serialize_valid q (codec_valid q Hq)) in E.
  exact (encoding_inj p q Hp Hq (Ok_inj _ _ E)).
Qed.
End payloads.

(** ** A concrete [PopData] *)
Module Example_popdata.
#[local] Existing Instance toy_hashes.

Definition zeros (n : nat) : list Z := replicate n 0.
Definition vbk : VbkBlock := Vbk.mkVbkBlock 4917 2 (zeros 12) (zeros 9) (zeros 9) (zeros 16) 1553699059 67862701 12345.
Definition btc : BtcBlock := Btc.mkBtcBlock (-536870912) (zeros 32) (zeros 32) 1555501858 436279940 3.
Definition vtx : VbkTx :=
  mkVbkTx (mkNetwork None 1) toy_address (mkCoin 1000) [mkOutput toy_address (mkCoin 7)] 7
    (mkPublicationData (-1) [1; 2] [3] [4; 5]) [1] [2].
Definition path : VbkMerklePath := VbkPath.mkVbkMerklePath 1 0 (zeros 32) [zeros 32; zeros 32].
Definition ptx : VbkPopTx :=
  mkVbkPopTx (mkNetwork (Some 170) 2) toy_address vbk (mkBtcTx [1; 2; 3])
    (mkMerklePath 5 (sha256twice [1; 2; 3]) [zeros 32]) btc [btc; btc] [1] [2].
Definition pd : PopData := mkPopData 1 [vbk; vbk] [mkVTB 1 ptx path vbk] [mkATV 1 vtx path vbk].
Definition empty_pd : PopData := mkPopData 1 [] [] [].

Lemma pd_encodable : PopData_encodable pd.
Proof.
  assert (Forall encodable (context pd)) as E1 by (apply (bool_decide_unpack _); vm_compute; exact I).
  assert (Forall encodable (vtbs pd)) as E2 by (apply (bool_decide_unpack _); vm_compute; exact I).
  assert (Forall encodable (atvs pd)) as E3 by (apply (bool_decide_unpack _); vm_compute; exact I).
  split; [split; [reflexivity|]|exact (conj E1 (conj E2 E3))].
  split; [|split].
  - split; [|by vm_compute]. eapply Forall_impl; [exact E1|]. intros x. apply codec_valid.
  - split; [|by vm_compute]. eapply Forall_impl; [exact E2|]. intros x. apply codec_valid.
  - split; [|by vm_compute]. eapply Forall_impl; [exact E3|]. intros x. apply codec_valid.
Defined.

Lemma empty_encodable : PopData_encodable empty_pd.
Proof. by repeat (constructor || done). Defined.

Lemma PopData_roundtrip_witness : encodable pd ∧ DeserializeFromVbkEncoding (encoding pd) = Ok pd.
Proof.
  split; [apply pd_encodable|]. exact (proj1 (proj2 (PopData_roundtrip pd pd_encodable))).
Defined.

Lemma PopData_encoding_inj_witness : encodable pd ∧ (SerializeToVbkEncoding pd = SerializeToVbkEncoding pd → pd = pd).
Proof. split; [apply pd_encodable|]. exact (PopData_encoding_inj pd pd pd_encodable pd_encodable). Defined.

Lemma PopData_decode_safe_witness : bytes_ok [0; 0; 0; 1; 1; 0; 1; 0; 1; 0] ∧
  DeserializeFromVbkEncoding (A := PopData) [0; 0; 0; 1; 1; 0; 1; 0; 1; 0] = Ok empty_pd ∧
  PopData_valid empty_pd ∧ estimateSize empty_pd = Ok 10.
Proof.
  assert (bytes_ok [0; 0; 0; 1; 1; 0; 1; 0; 1; 0]) as Hb by (apply (bool_decide_unpack _); vm_compute; exact I).
  assert (DeserializeFromVbkEncoding (A := PopData) [0; 0; 0; 1; 1; 0; 1; 0; 1; 0] = Ok empty_pd) as E
    by (vm_compute; reflexivity).
  pose proof (PopData_decode_safe _ Hb) as Hs. rewrite E in Hs.
  split; [exact Hb|]. split; [reflexivity|]. split; [exact (proj1 Hs)|exact (proj2 (proj2 Hs))].
Defined.

(** A publication with fields of maximal length does not fit the limit of its
    own encoding, so its transaction cannot be read back. *)
Definition max_publication : PublicationData :=
  mkPublicationData (2 ^ 62) (replicate 1024 1) (replicate 10000 1) (replicate 10000 1).
Lemma max_publication_too_big : valid max_publication ∧
  MAX_PUBLICATIONDATA_SIZE < size_of (encoding max_publication).
Proof. split; [apply (bool_decide_unpack _); vm_compute; exact I|]. by vm_compute. Qed.
End Example_popdata.
