(* ===== verification/Endorsements.v ===== *)
(** * Endorsements and context info ([endorsement.hpp], [endorsements.cpp],
    [keystone_container.cpp], [context_info_container.cpp])

    The identifiers that connect a publication with the chain it endorses, and
    the container of previous keystones, which is computed from the block tree. *)
From Stdlib Require Import String.
From S2P Require Import Prelude Keystone BlockIndex Serde Base58 Address Blocks Payloads.

Definition MIN_ALT_HASH_SIZE : Z := 0.
Definition MAX_ALT_HASH_SIZE : Z := 1024.
Definition ATV_ID_SIZE : nat := 32.
Definition VTB_ID_SIZE : nat := 32.

(** A hash of the altchain: its length is written in one byte. *)
Definition alt_hash_ok (v : list Z) : Prop := bytes_ok v ∧ (length v <= 255)%nat.
#[export] Instance alt_hash_ok_dec v : Decision (alt_hash_ok v).
Proof. unfold alt_hash_ok. apply _. Defined.

Lemma safe_alt_hash : safe_reading alt_hash_ok (readSingleByteLenVector MIN_ALT_HASH_SIZE MAX_ALT_HASH_SIZE).
Proof. eapply safe_weaken; [apply safe_sbl_short|]. by intros v [[Hv _] Hl]. Qed.

Lemma reads_alt_hash v : alt_hash_ok v →
  reads (readSingleByteLenVector MIN_ALT_HASH_SIZE MAX_ALT_HASH_SIZE) (enc_sbl v) v.
Proof. intros [_ Hl]. apply reads_sbl_vector; unfold MIN_ALT_HASH_SIZE, MAX_ALT_HASH_SIZE; lia. Qed.

(** ** [Endorsement] *)
Record Endorsement := mkEndorsement {
  id : list Z; endorsedHash : list Z; containingHash : list Z; blockOfProof : list Z }.
#[export] Instance Endorsement_eq_dec : EqDecision Endorsement.
Proof. solve_decision. Defined.

Definition Endorsement_toVbkEncoding (e : Endorsement) : writer :=
  writeSingleByteLenValue (id e) +++
  writeSingleByteLenValue (endorsedHash e) +++
  writeSingleByteLenValue (containingHash e) +++
  writeSingleByteLenValue (blockOfProof e).

(** [operator==] compares identifiers. *)
Definition endorsement_eqb (a b : Endorsement) : bool := bool_decide (id a = id b).

Definition AltEndorsement_fromVbkEncoding : reader Endorsement :=
  id <- fails (readSingleByteLenBlob ATV_ID_SIZE (Z.of_nat ATV_ID_SIZE) (Z.of_nat ATV_ID_SIZE)) "bad-altendorsement-id";;
  endorsedHash <- fails (readSingleByteLenVector MIN_ALT_HASH_SIZE MAX_ALT_HASH_SIZE) "bad-altendorsement-endorsed-hash";;
  containingHash <- fails (readSingleByteLenVector MIN_ALT_HASH_SIZE MAX_ALT_HASH_SIZE) "bad-altendorsement-containing-hash";;
  blockOfProof <- fails (readSingleByteLenBlob VBK_BLOCK_HASH_SIZE (Z.of_nat VBK_BLOCK_HASH_SIZE)
                           (Z.of_nat VBK_BLOCK_HASH_SIZE)) "bad-altendorsement-block-of-proof";;
  ret (mkEndorsement id endorsedHash containingHash blockOfProof).

Definition VbkEndorsement_fromVbkEncoding : reader Endorsement :=
  id <- fails (readSingleByteLenBlob VTB_ID_SIZE (Z.of_nat VTB_ID_SIZE) (Z.of_nat VTB_ID_SIZE)) "bad-vbkendorsement-id";;
  endorsedHash <- fails (readSingleByteLenBlob VBK_BLOCK_HASH_SIZE (Z.of_nat VBK_BLOCK_HASH_SIZE)
                           (Z.of_nat VBK_BLOCK_HASH_SIZE)) "bad-vbkendorsement-endorsed-hash";;
  containingHash <- fails (readSingleByteLenBlob VBK_BLOCK_HASH_SIZE (Z.of_nat VBK_BLOCK_HASH_SIZE)
                             (Z.of_nat VBK_BLOCK_HASH_SIZE)) "bad-vbkendorsement-containing-hash";;
  blockOfProof <- fails (readSingleByteLenBlob BTC_BLOCK_HASH_SIZE (Z.of_nat BTC_BLOCK_HASH_SIZE)
                           (Z.of_nat BTC_BLOCK_HASH_SIZE)) "bad-vbkendorsement-block-of-proof";;
  ret (mkEndorsement id endorsedHash containingHash blockOfProof).

Section from_container.
Context `{Hashes} `{ProgPow}.

(** [VbkEndorsement::fromContainer], on headers without a cached hash *)
Definition VbkEndorsement_fromContainer (c : VTB) : result Endorsement :=
  containingHash ← Vbk.computeHash (containingBlock c);
  endorsedHash ← Vbk.computeHash (publishedBlock (vtb_transaction c));
  Ok (mkEndorsement (VTB_getId c) endorsedHash containingHash (Btc.calculateHash (pop_blockOfProof (vtb_transaction c)))).

Definition AltEndorsement_fromContainer (c : ATV) (containingHash endorsedHash : list Z) : result Endorsement :=
  i ← ATV_getId c;
  Ok (mkEndorsement i endorsedHash containingHash (Vbk.calculateHash (atv_blockOfProof c))).
End from_container.

Definition endorsement_encoding (e : Endorsement) : list Z :=
  concat [enc_sbl (id e); enc_sbl (endorsedHash e); enc_sbl (containingHash e); enc_sbl (blockOfProof e)].
Definition AltEndorsement_valid (e : Endorsement) : Prop :=
  blob_ok ATV_ID_SIZE (id e) ∧ alt_hash_ok (endorsedHash e) ∧ alt_hash_ok (containingHash e) ∧
  blob_ok VBK_BLOCK_HASH_SIZE (blockOfProof e).
Definition VbkEndorsement_valid (e : Endorsement) : Prop :=
  blob_ok VTB_ID_SIZE (id e) ∧ blob_ok VBK_BLOCK_HASH_SIZE (endorsedHash e) ∧
  blob_ok VBK_BLOCK_HASH_SIZE (containingHash e) ∧ blob_ok BTC_BLOCK_HASH_SIZE (blockOfProof e).

Lemma blob_short N v : (N <= 255)%nat → blob_ok N v → (length v <= 255)%nat.
Proof. by intros ? [_ ->]. Qed.

Lemma writes_endorsement e : (length (id e) <= 255)%nat → (length (endorsedHash e) <= 255)%nat →
  (length (containingHash e) <= 255)%nat → (length (blockOfProof e) <= 255)%nat →
  writes (Endorsement_toVbkEncoding e) (endorsement_encoding e).
Proof.
  intros. unfold Endorsement_toVbkEncoding, endorsement_encoding. cbn [concat]. rewrite app_nil_r.
  writes_parts; by apply writes_sbl.
Qed.

Ltac short := first [assumption | eapply blob_short; [|eassumption];
  unfold ATV_ID_SIZE, VTB_ID_SIZE, VBK_BLOCK_HASH_SIZE, BTC_BLOCK_HASH_SIZE; lia].

Lemma reads_blob N v : (N <= 255)%nat → blob_ok N v →
  reads (readSingleByteLenBlob N (Z.of_nat N) (Z.of_nat N)) (enc_sbl v) v.
Proof. intros HN [_ Hl]. by apply reads_sbl_blob. Qed.

(** Both kinds of endorsement are read back as they were written. *)
Lemma endorsement_codecs e :
  (AltEndorsement_valid e → writes (Endorsement_toVbkEncoding e) (endorsement_encoding e) ∧
     reads AltEndorsement_fromVbkEncoding (endorsement_encoding e) e) ∧
  (VbkEndorsement_valid e → writes (Endorsement_toVbkEncoding e) (endorsement_encoding e) ∧
     reads VbkEndorsement_fromVbkEncoding (endorsement_encoding e) e).
Proof.
  split; intros (Hi & He & Hc & Hb); (split; [apply writes_endorsement; first [short | apply He | apply Hc]|]);
    unfold endorsement_encoding; cbn [concat].
  - unfold AltEndorsement_fromVbkEncoding.
    eapply reads_bind; [apply reads_fails, reads_blob; [unfold ATV_ID_SIZE; lia|done]|].
    do 2 (eapply reads_bind; [by apply reads_fails, reads_alt_hash|]).
    eapply reads_bind; [apply reads_fails, reads_blob; [unfold VBK_BLOCK_HASH_SIZE; lia|done]|].
    destruct e. apply reads_ret.
  - unfold VbkEndorsement_fromVbkEncoding.
    do 4 (eapply reads_bind; [apply reads_fails, reads_blob;
      [unfold VTB_ID_SIZE, VBK_BLOCK_HASH_SIZE, BTC_BLOCK_HASH_SIZE; lia|done]|]).
    destruct e. apply reads_ret.
Qed.

Lemma endorsement_safe :
  safe_reading AltEndorsement_valid AltEndorsement_fromVbkEncoding ∧
  safe_reading VbkEndorsement_valid VbkEndorsement_fromVbkEncoding.
Proof.
  split; unfold AltEndorsement_fromVbkEncoding, VbkEndorsement_fromVbkEncoding;
    repeat (eapply safe_bind; [apply safe_fails; first [apply safe_sbl_N | apply safe_alt_hash]|]; intros ? ?);
    apply safe_ret_with; unfold AltEndorsement_valid, VbkEndorsement_valid; cbn [id endorsedHash containingHash blockOfProof];
    by split_and!.
Qed.

(** ** [KeystoneContainer] *)
Record KeystoneContainer := mkKeystoneContainer {
  firstPreviousKeystone : list Z; secondPreviousKeystone : list Z }.

Definition KeystoneContainer_toVbkEncoding (c : KeystoneContainer) : writer :=
  writeSingleByteLenValue (firstPreviousKeystone c) +++ writeSingleByteLenValue (secondPreviousKeystone c).
Definition KeystoneContainer_estimateSize (c : KeystoneContainer) : result Z :=
  a ← singleByteLenValueSize (Z.of_nat (length (firstPreviousKeystone c)));
  b ← singleByteLenValueSize (Z.of_nat (length (secondPreviousKeystone c)));
  Ok (addsize a b).
Definition KeystoneContainer_fromVbkEncoding : reader KeystoneContainer :=
  first <- fails (readSingleByteLenVector MIN_ALT_HASH_SIZE MAX_ALT_HASH_SIZE) "bad-keystone1";;
  second <- fails (readSingleByteLenVector MIN_ALT_HASH_SIZE MAX_ALT_HASH_SIZE) "bad-keystone2";;
  ret (mkKeystoneContainer first second).
Definition KeystoneContainer_valid (c : KeystoneContainer) : Prop :=
  alt_hash_ok (firstPreviousKeystone c) ∧ alt_hash_ok (secondPreviousKeystone c).
#[global] Instance KeystoneContainer_codec : Codec KeystoneContainer := {
  toVbkEncoding := KeystoneContainer_toVbkEncoding; fromVbkEncoding := KeystoneContainer_fromVbkEncoding;
  estimateSize := KeystoneContainer_estimateSize;
  encoding c := concat [enc_sbl (firstPreviousKeystone c); enc_sbl (secondPreviousKeystone c)];
  valid := KeystoneContainer_valid; encodable := KeystoneContainer_valid; max_size := 512 }.

(** ** [ContextInfoContainer] *)
Record ContextInfoContainer := mkContextInfo { ctx_height : Z; keystones : KeystoneContainer }.
Definition ContextInfo_toVbkEncoding (c : ContextInfoContainer) : writer :=
  writeBE int32_t (ctx_height c) 4 +++ toVbkEncoding (keystones c).
Definition ContextInfo_estimateSize (c : ContextInfoContainer) : result Z :=
  n ← estimateSize (keystones c); Ok (addsize 4 n).
Definition ContextInfo_fromVbkEncoding : reader ContextInfoContainer :=
  height <- fails (readBE int32_t 4) "bad-height";;
  keystones <- fails fromVbkEncoding "bad-keystones";;
  ret (mkContextInfo height keystones).
Definition ContextInfo_valid (c : ContextInfoContainer) : Prop :=
  in_range int32_t (ctx_height c) ∧ valid (keystones c).
#[global] Instance ContextInfo_codec : Codec ContextInfoContainer := {
  toVbkEncoding := ContextInfo_toVbkEncoding; fromVbkEncoding := ContextInfo_fromVbkEncoding;
  estimateSize := ContextInfo_estimateSize;
  encoding c := concat [be_bytes (ctx_height c) 4; encoding (keystones c)];
  valid := ContextInfo_valid; encodable := ContextInfo_valid; max_size := 516 }.

(** ** [AuthenticatedContextInfoContainer] *)
Record AuthenticatedContextInfo := mkAuthenticated { ctx : ContextInfoContainer; stateRoot : list Z }.
Definition Authenticated_toVbkEncoding (c : AuthenticatedContextInfo) : writer :=
  toVbkEncoding (ctx c) +++ write (stateRoot c).
Definition Authenticated_estimateSize (c : AuthenticatedContextInfo) : result Z :=
  n ← estimateSize (ctx c); Ok (addsize n (Z.of_nat (length (stateRoot c)))).
Definition Authenticated_fromVbkEncoding : reader AuthenticatedContextInfo :=
  ctx <- fails fromVbkEncoding "bad-ctx";;
  stateRoot <- fails (read 32) "bad-stateroot";;
  ret (mkAuthenticated ctx stateRoot).
Definition Authenticated_valid (c : AuthenticatedContextInfo) : Prop := valid (ctx c) ∧ blob_ok 32 (stateRoot c).
#[global] Instance Authenticated_codec : Codec AuthenticatedContextInfo := {
  toVbkEncoding := Authenticated_toVbkEncoding; fromVbkEncoding := Authenticated_fromVbkEncoding;
  estimateSize := Authenticated_estimateSize; encoding c := concat [encoding (ctx c); stateRoot c];
  valid := Authenticated_valid; encodable := Authenticated_valid; max_size := 548 }.

Definition ContextInfo_getHash `{Hashes} (c : ContextInfoContainer) : result (list Z) :=
  w ← written (toVbkEncoding c); Ok (sha256twice w).
Definition getTopLevelMerkleRoot `{Hashes} (c : AuthenticatedContextInfo) : result (list Z) :=
  ctxHash ← ContextInfo_getHash (ctx c); Ok (sha256twice_pair (stateRoot c) ctxHash).

Ltac unfold_ctx := cbn [toVbkEncoding fromVbkEncoding estimateSize encoding valid encodable max_size
  KeystoneContainer_codec ContextInfo_codec Authenticated_codec concat]; rewrite ?app_nil_r.

#[global] Instance KeystoneContainer_laws : CodecLaws KeystoneContainer.
Proof.
  split; unfold_ctx.
  - done.
  - intros c [[_ L1] [_ L2]]. rewrite app_nil_r. unfold KeystoneContainer_toVbkEncoding. writes_parts; by apply writes_sbl.
  - intros c [[_ L1] [_ L2]]. rewrite app_nil_r. unfold KeystoneContainer_estimateSize. rewrite !size_sbl by done.
    cbn [mbind result_bind]. rewrite size_app, !size_enc_sbl. rewrite !length_enc_sbl. unfold size_of.
    rewrite addsize_ok by lia. f_equal. lia.
  - intros c [[_ L1] [_ L2]]. rewrite app_nil_r, size_app, !size_enc_sbl. unfold size_of. lia.
  - intros c [L1 L2]. unfold KeystoneContainer_fromVbkEncoding.
    do 2 (eapply reads_bind; [by apply reads_fails, reads_alt_hash|]). destruct c. apply reads_ret.
  - unfold KeystoneContainer_fromVbkEncoding.
    do 2 (eapply safe_bind; [apply safe_fails, safe_alt_hash|]; intros ? ?). by apply safe_ret_with.
Qed.

Lemma max_keystones (c : KeystoneContainer) : valid c → size_of (encoding c) <= 512.
Proof. exact (codec_max c). Qed.

#[global] Instance ContextInfo_laws : CodecLaws ContextInfoContainer.
Proof.
  split; cbn [toVbkEncoding fromVbkEncoding estimateSize encoding valid encodable max_size ContextInfo_codec concat].
  - done.
  - intros c [Hh Hk]. rewrite app_nil_r. apply writes_seq; [apply writes_BE; simpl; lia|by apply codec_writes].
  - intros c [Hh Hk]. rewrite app_nil_r. unfold ContextInfo_estimateSize. rewrite (codec_size _ Hk).
    cbn [mbind result_bind]. rewrite size_app, size_be_bytes. pose proof (max_keystones _ Hk).
    pose proof (size_nonneg (encoding (keystones c))). rewrite addsize_ok by lia. done.
  - intros c [Hh Hk]. rewrite app_nil_r, size_app, size_be_bytes. pose proof (max_keystones _ Hk). lia.
  - intros c [Hh Hk]. unfold ContextInfo_fromVbkEncoding.
    eapply reads_bind; [apply reads_fails, (reads_BE int32_t); simpl; lia|].
    eapply reads_bind; [by apply reads_fails, codec_reads|].
    eapply reads_value; [apply reads_ret|]. rewrite conv_id by (done || simpl; lia). by destruct c.
  - unfold ContextInfo_fromVbkEncoding. eapply safe_bind; [apply safe_fails, safe_readBE; simpl; lia|]; intros ? ?.
    eapply safe_bind; [apply safe_fails, codec_safe|]; intros ? ?. by apply safe_ret_with.
Qed.

Lemma max_context (c : ContextInfoContainer) : valid c → size_of (encoding c) <= 516.
Proof. exact (codec_max c). Qed.

#[global] Instance Authenticated_laws : CodecLaws AuthenticatedContextInfo.
Proof.
  split; cbn [toVbkEncoding fromVbkEncoding estimateSize encoding valid encodable max_size Authenticated_codec concat].
  - done.
  - intros c [Hc Hs]. rewrite app_nil_r. apply writes_seq; [by apply codec_writes|done].
  - intros c [Hc Hs]. rewrite app_nil_r. unfold Authenticated_estimateSize. rewrite (codec_size _ Hc).
    cbn [mbind result_bind]. rewrite size_app. pose proof (max_context _ Hc). pose proof (blob_size _ _ Hs).
    pose proof (size_nonneg (encoding (ctx c))). change (Z.of_nat (length (stateRoot c))) with (size_of (stateRoot c)).
    rewrite addsize_ok by lia. done.
  - intros c [Hc Hs]. rewrite app_nil_r, size_app. pose proof (max_context _ Hc). pose proof (blob_size _ _ Hs). lia.
  - intros c [Hc [_ Hs]]. unfold Authenticated_fromVbkEncoding.
    eapply reads_bind; [by apply reads_fails, codec_reads|].
    eapply reads_bind; [by apply reads_fails, reads_read|]. destruct c. apply reads_ret.
  - unfold Authenticated_fromVbkEncoding. eapply safe_bind; [apply safe_fails, codec_safe|]; intros ? ?.
    eapply safe_bind; [apply safe_fails, safe_read|]; intros v Hv%blob_of_length. by apply safe_ret_with.
Qed.
