(* ===== verification/PopState.v ===== *)
(** * Endorsements kept by a block ([pop_state.hpp], [pop_state.cpp],
    [algorithm.hpp])

    A [PopState] owns the endorsements contained in its block (shared pointers
    in a [std::multimap] ordered by endorsement id) and lists pointers to the
    endorsements of its block.  A pointer to an endorsement is an address with
    the (immutable) endorsement stored there; pointers are compared by address.
    An iterator of the multimap is a position, its end is the length. *)
From Stdlib Require Import Sorted.
From S2P Require Import Prelude Serde ArithUint256 Address Blocks Payloads Endorsements.

(** [std::shared_ptr<endorsement_t>], [const endorsement_t*] *)
Record endorsement_ptr := mkPtr { address : Z; target : Endorsement }.
#[export] Instance endorsement_ptr_eq_dec : EqDecision endorsement_ptr.
Proof. solve_decision. Defined.
Definition ptr_eqb (a b : endorsement_ptr) : bool := address a =? address b.

(** ** [erase_last_item_if] *)
Section erase.
Context {T : Type} (locator : T → bool).

(** The loop [for (i = v.size(); i-- > 0;)]. *)
Fixpoint last_item_if (v : list T) (i : nat) : nat :=
  match i with
  | O => length v
  | S i =>
    match v !! i with
    | Some el => if locator el then i else last_item_if v i
    | None => length v
    end
  end.

Definition erase_last_item_if (v : list T) : list T * bool :=
  let last := last_item_if v (length v) in
  if (length v <=? last)%nat then (v, false) else (delete last v, true).

Lemma last_item_if_prefix v w i : (i <= length v)%nat →
  (∀ j x, (j < i)%nat → v !! j = Some x → locator x = false) → last_item_if (v ++ w) i = length (v ++ w).
Proof.
  induction i as [|i IH]; intros Hi Hv; [done|]. cbn [last_item_if].
  destruct (lookup_lt_is_Some_2 v i) as [x Hx]; [lia|]. rewrite lookup_app_l, Hx by lia.
  rewrite (Hv i x) by (done || lia). apply IH; [lia|]. intros j y Hj. apply Hv. lia.
Qed.

Lemma last_item_if_found v1 x v2 i : locator x = true → Forall (λ y, locator y = false) v2 →
  (length v1 < i <= length (v1 ++ x :: v2))%nat → last_item_if (v1 ++ x :: v2) i = length v1.
Proof.
  intros Hx Hv2. induction i as [|i IH]; intros Hi; [lia|]. cbn [last_item_if].
  destruct (lookup_lt_is_Some_2 (v1 ++ x :: v2) i) as [y Hy]; [lia|]. rewrite Hy.
  destruct (decide (i = length v1)) as [->|Hne].
  - rewrite list_lookup_middle in Hy by done. injection Hy as <-. by rewrite Hx.
  - rewrite lookup_app_r in Hy by lia. destruct (i - length v1)%nat as [|n] eqn:En; [lia|].
    rewrite (proj1 (Forall_lookup _ _) Hv2 n y Hy). apply IH. lia.
Qed.

(** The last element that satisfies the predicate is erased. *)
Lemma erase_last_found v1 x v2 : locator x = true → Forall (λ y, locator y = false) v2 →
  erase_last_item_if (v1 ++ x :: v2) = (v1 ++ v2, true).
Proof.
  intros Hx Hv2. unfold erase_last_item_if. rewrite last_item_if_found; [|done|done|rewrite length_app; simpl; lia].
  destruct (Nat.leb_spec (length (v1 ++ x :: v2)) (length v1)) as [Hle|_]; [rewrite length_app in Hle; simpl in Hle; lia|].
  by rewrite delete_middle.
Qed.

Lemma erase_last_none v : Forall (λ y, locator y = false) v → erase_last_item_if v = (v, false).
Proof.
  intros Hv. unfold erase_last_item_if.
  pose proof (last_item_if_prefix v [] (length v)) as E. rewrite app_nil_r in E. rewrite E; [|done|].
  - by rewrite Nat.leb_refl.
  - intros j x _ Hj. exact (proj1 (Forall_lookup _ _) Hv j x Hj).
Qed.

Lemma split_last v : Forall (λ y, locator y = false) v ∨
  ∃ v1 x v2, v = v1 ++ x :: v2 ∧ locator x = true ∧ Forall (λ y, locator y = false) v2.
Proof.
  induction v as [|y v [IH|(v1 & x & v2 & -> & Hx & Hv2)]]; [by left| |].
  - destruct (locator y) eqn:Ey; [right; by exists [], y, v|left; by constructor].
  - right. by exists (y :: v1), x, v2.
Qed.
End erase.

(** ** The multimap *)
Notation multimap := (list (list Z * endorsement_ptr)) (only parsing).
Implicit Types (m : list (list Z * endorsement_ptr)) (k : list Z) (p : endorsement_ptr).

(** [operator<] of [Blob] *)
Definition blob_lt (a b : list Z) : bool := U256.compareTo a b <? 0.

(** [emplace]: at the upper bound of the key. *)
Fixpoint emplace (k : list Z) (p : endorsement_ptr) (m : multimap) : multimap :=
  match m with
  | [] => [(k, p)]
  | x :: m => if blob_lt k x.1 then (k, p) :: x :: m else x :: emplace k p m
  end.

(** [lower_bound]: the first element whose key is not less. *)
Fixpoint lower_bound (k : list Z) (m : multimap) : nat :=
  match m with
  | [] => 0
  | x :: m => if blob_lt x.1 k then S (lower_bound k m) else 0
  end.

(** ** [PopState] *)
Record PopState := mkPopState {
  containingEndorsements : list (list Z * endorsement_ptr);
  endorsedBy : list endorsement_ptr
}.
Implicit Types s : PopState.

Definition insertEndorsedBy p s : PopState :=
  mkPopState (containingEndorsements s) (endorsedBy s ++ [p]).

Definition eraseLastFromEndorsedBy p s : PopState * bool :=
  let r := erase_last_item_if (λ e, ptr_eqb e p) (endorsedBy s) in
  (mkPopState (containingEndorsements s) r.1, r.2).

Definition insertContainingEndorsement p s : PopState :=
  mkPopState (emplace (id (target p)) p (containingEndorsements s)) (endorsedBy s).

Definition findContainingEndorsement k s : nat := lower_bound k (containingEndorsements s).

(** [it->second]; the end iterator must not be dereferenced or erased. *)
Definition containing_at (it : nat) s : result endorsement_ptr :=
  match containingEndorsements s !! it with
  | Some x => Ok x.2
  | None => Undef "end iterator"
  end.

Definition removeContainingEndorsement (it : nat) s : result PopState :=
  match containingEndorsements s !! it with
  | Some _ => Ok (mkPopState (delete it (containingEndorsements s)) (endorsedBy s))
  | None => Undef "end iterator"
  end.

Definition pop_setNull s : PopState := mkPopState [] [].

(** ** Serialization: the endorsements in the order of their ids *)
Definition PopState_toVbkEncoding s : writer :=
  writeContainer (containingEndorsements s) (λ x, Endorsement_toVbkEncoding (target x.2)).

(** [std::make_shared] of each endorsement, at consecutive addresses. *)
Definition allocate (a : Z) (es : list Endorsement) : list endorsement_ptr :=
  imap (λ i e, mkPtr (a + Z.of_nat i) e) es.

Definition MAX_ENDORSEMENTS : Z := Z.max MAX_POPDATA_ATV MAX_POPDATA_VTB.

Definition PopState_fromVbkEncoding (decode : reader Endorsement) (a : Z) : reader PopState :=
  endorsements <- fails (readArrayOf 0 MAX_ENDORSEMENTS decode) "popstate-bad-endorsement";;
  ret (mkPopState (foldl (λ m p, emplace (id (target p)) p m) [] (allocate a endorsements)) []).

(** ** The order of keys *)
Definition key_ok k : Prop := blob_ok 32 k.
Definition keys_ok m : Prop := Forall (λ x, key_ok x.1) m.
Definition le_key (x y : list Z * endorsement_ptr) : Prop := le_Z x.1 <= le_Z y.1.

(** What the multimap maintains: keys are the ids of the endorsements, and
    are sorted. *)
Record pop_ok s : Prop := {
  pop_sorted : StronglySorted le_key (containingEndorsements s);
  pop_keys : keys_ok (containingEndorsements s);
  pop_ids : Forall (λ x, x.1 = id (target x.2)) (containingEndorsements s)
}.

Lemma blob_lt_ok a b : key_ok a → key_ok b → blob_lt a b = (le_Z a <? le_Z b).
Proof.
  intros [Ha La] [Hb Lb]. unfold blob_lt. rewrite U256.compareTo_ok by (done || lia).
  destruct (Z.ltb_spec (le_Z a) (le_Z b)); [done|]. by destruct (le_Z b <? le_Z a).
Qed.

Lemma key_eq a b : key_ok a → key_ok b → le_Z a = le_Z b → a = b.
Proof. intros [Ha La] [Hb Lb]. apply U256.le_Z_inj; [done|done|lia]. Qed.

Lemma emplace_perm k p m : emplace k p m ≡ₚ (k, p) :: m.
Proof. induction m as [|x m IH]; [done|]. cbn [emplace]. destruct (blob_lt k x.1); [done|]. rewrite IH. apply perm_swap. Qed.

Lemma emplace_keys k p m : key_ok k → keys_ok m → keys_ok (emplace k p m).
Proof. intros Hk Hm. unfold keys_ok. rewrite emplace_perm. by constructor. Qed.

Lemma emplace_sorted k p m : key_ok k → keys_ok m → StronglySorted le_key m → StronglySorted le_key (emplace k p m).
Proof.
  intros Hk Hm Hs. induction Hs as [|x m Hs IH Hx]; [by repeat constructor|].
  apply Forall_cons in Hm as [Hx1 Hm]. cbn [emplace]. rewrite blob_lt_ok by done. destruct (Z.ltb_spec (le_Z k) (le_Z x.1)).
  - constructor; [by constructor|]. constructor; [unfold le_key; cbn; lia|].
    eapply Forall_impl; [exact Hx|]. intros y. unfold le_key. cbn. lia.
  - constructor; [by apply IH|]. rewrite emplace_perm. constructor; [unfold le_key; cbn; lia|done].
Qed.

(** Elements before the lower bound are less, the others are not. *)
Lemma lower_bound_split k m : key_ok k → keys_ok m → StronglySorted le_key m →
  Forall (λ x, le_Z x.1 < le_Z k) (take (lower_bound k m) m) ∧ Forall (λ x, le_Z k <= le_Z x.1) (drop (lower_bound k m) m).
Proof.
  intros Hk Hm Hs. induction Hs as [|x m Hs IH Hx]; [by split|]. apply Forall_cons in Hm as [Hx1 Hm].
  cbn [lower_bound]. rewrite blob_lt_ok by done. destruct (Z.ltb_spec (le_Z x.1) (le_Z k)); cbn [take drop].
  - destruct (IH Hm) as [IH1 IH2]. split; [by constructor|done].
  - split; [constructor|]. constructor; [done|]. eapply Forall_impl; [exact Hx|]. intros y. unfold le_key. lia.
Qed.

Lemma lower_bound_le k m : (lower_bound k m <= length m)%nat.
Proof. induction m as [|x m IH]; [done|]. cbn. destruct (blob_lt x.1 k); lia. Qed.

(** The lower bound of a key that is present is its first occurrence. *)
Lemma lower_bound_present k m : key_ok k → keys_ok m → StronglySorted le_key m → k ∈ m.*1 →
  ∃ p, m !! lower_bound k m = Some (k, p) ∧ Forall (λ x, x.1 ≠ k) (take (lower_bound k m) m).
Proof.
  intros Hk Hm Hs. induction Hs as [|x m Hs IH Hx]; intros Hin; [by apply not_elem_of_nil in Hin|].
  apply Forall_cons in Hm as [Hx1 Hm]. cbn [lower_bound]. rewrite blob_lt_ok by done.
  destruct (Z.ltb_spec (le_Z x.1) (le_Z k)) as [Hlt|Hge]; cbn [take lookup].
  - rewrite fmap_cons in Hin. apply elem_of_cons in Hin as [->|Hin]; [lia|].
    destruct (IH Hm Hin) as (p & Hp & Hb). exists p. split; [done|]. constructor; [intros E; rewrite E in Hlt; lia|done].
  - exists x.2. split; [|constructor]. cbn. rewrite (key_eq k x.1); [by destruct x|done|done|].
    rewrite fmap_cons in Hin. apply elem_of_cons in Hin as [->|Hin]; [done|].
    apply list_elem_of_fmap in Hin as (y & -> & Hy). rewrite Forall_forall in Hx. specialize (Hx y Hy).
    unfold le_key in Hx. lia.
Qed.

(** Without the key, the lower bound is the end or an element with a greater key. *)
Lemma lower_bound_absent k m : key_ok k → keys_ok m → StronglySorted le_key m → k ∉ m.*1 →
  match m !! lower_bound k m with Some x => le_Z k < le_Z x.1 | None => lower_bound k m = length m end.
Proof.
  intros Hk Hm Hs Hn. destruct (m !! lower_bound k m) as [x|] eqn:Ex.
  - destruct (lower_bound_split k m Hk Hm Hs) as [_ Hd].
    assert (le_Z k <= le_Z x.1) as Hle.
    { rewrite Forall_lookup in Hd. apply (Hd 0%nat). by rewrite lookup_drop, Nat.add_0_r. }
    assert (le_Z k ≠ le_Z x.1); [|lia]. intros E. apply Hn.
    apply list_elem_of_lookup_2 in Ex. apply key_eq in E; [subst; by apply list_elem_of_fmap_2|done|].
    unfold keys_ok in Hm. rewrite Forall_forall in Hm. by apply Hm.
  - apply lookup_ge_None in Ex. pose proof (lower_bound_le k m). lia.
Qed.

Lemma emplace_last k p m : key_ok k → keys_ok m → Forall (λ x, le_Z x.1 <= le_Z k) m → emplace k p m = m ++ [(k, p)].
Proof.
  intros Hk Hm Hle. induction m as [|x m IH]; [done|].
  apply Forall_cons in Hm as [Hx Hm]. apply Forall_cons in Hle as [Hle1 Hle]. cbn [emplace].
  rewrite blob_lt_ok by done. destruct (Z.ltb_spec (le_Z k) (le_Z x.1)); [lia|]. by rewrite IH.
Qed.

(** ** Contents: the endorsements without their addresses *)
Definition contents m : list (list Z * Endorsement) := map (λ x, (x.1, target x.2)) m.

(** The endorsements with a key are one endorsement, possibly repeated. *)
Definition one_endorsement k (e : Endorsement) m : Prop := Forall (λ x, x.1 = k → target x.2 = e) m.

Lemma contents_emplace_head k p m : key_ok k → keys_ok m → StronglySorted le_key m → Forall (λ x, le_Z k <= le_Z x.1) m →
  one_endorsement k (target p) m → contents (emplace k p m) = (k, target p) :: contents m.
Proof.
  intros Hk Hm Hs Hge He. induction Hs as [|x m Hs IH Hx]; [done|].
  apply Forall_cons in Hm as [Hx1 Hm]. apply Forall_cons in Hge as [Hge1 Hge]. apply Forall_cons in He as [He1 He].
  cbn [emplace]. rewrite blob_lt_ok by done. destruct (Z.ltb_spec (le_Z k) (le_Z x.1)); [done|].
  assert (x.1 = k) as E by (apply key_eq; [done|done|lia]). cbn [contents map].
  unfold contents in IH. by rewrite IH, (He1 E), E.
Qed.

(** Inserting an endorsement and erasing the first one with its key restores
    the contents. *)
Lemma contents_emplace_delete k p m : key_ok k → keys_ok m → StronglySorted le_key m → one_endorsement k (target p) m →
  contents (delete (lower_bound k (emplace k p m)) (emplace k p m)) = contents m.
Proof.
  intros Hk Hm Hs He. induction Hs as [|x m Hs IH Hx].
  { cbn. by rewrite blob_lt_ok, Z.ltb_irrefl. }
  apply Forall_cons in Hm as [Hx1 Hm]. apply Forall_cons in He as [He1 He]. cbn [emplace].
  rewrite (blob_lt_ok k x.1) by done. destruct (Z.ltb_spec (le_Z k) (le_Z x.1)).
  - cbn [lower_bound fst]. by rewrite blob_lt_ok, Z.ltb_irrefl by done.
  - cbn [lower_bound]. rewrite blob_lt_ok by done. destruct (Z.ltb_spec (le_Z x.1) (le_Z k)).
    + cbn [delete list_delete contents map]. f_equal. by apply IH.
    + cbn [delete list_delete]. assert (x.1 = k) as E by (apply key_eq; [done|done|lia]).
      rewrite contents_emplace_head; [|done..| |done].
      * unfold contents. cbn [map]. by rewrite (He1 E), E.
      * eapply Forall_impl; [exact Hx|]. intros y. unfold le_key. lia.
Qed.

Lemma sorted_contents m m' : contents m = contents m' → StronglySorted le_key m → StronglySorted le_key m'.
Proof.
  revert m'. induction m as [|x m IH]; intros [|y m'] E Hs; try discriminate; [constructor|].
  injection E as E1 E2 E. inversion Hs as [|? ? Hs' Hx]; subst. constructor; [by apply IH|].
  assert (map fst m = map fst m') as Ek.
  { apply (f_equal (map fst)) in E. unfold contents in E. rewrite !map_map in E. exact E. }
  apply Forall_forall. intros z Hz. unfold le_key. rewrite <- E1.
  assert (z.1 ∈ map fst m) as Hin by (rewrite Ek; by apply list_elem_of_fmap_2).
  apply list_elem_of_fmap in Hin as (z' & -> & Hz'). rewrite Forall_forall in Hx. by apply Hx.
Qed.

Lemma delete_sorted {A} (R : A → A → Prop) i (l : list A) : StronglySorted R l → StronglySorted R (delete i l).
Proof.
  intros Hs. revert i. induction Hs as [|x l Hs IH Hx]; intros [|i]; cbn; [constructor|constructor|done|].
  constructor; [apply IH|]. by apply Forall_delete.
Qed.

(** The operations keep the order of the multimap. *)
Lemma insert_pop_ok p s : pop_ok s → key_ok (id (target p)) → pop_ok (insertContainingEndorsement p s).
Proof.
  intros [Hs Hk Hi] Hp. split; cbn [insertContainingEndorsement containingEndorsements].
  - by apply emplace_sorted.
  - by apply emplace_keys.
  - rewrite emplace_perm. by constructor.
Qed.

Lemma remove_pop_ok it s s' : pop_ok s → removeContainingEndorsement it s = Ok s' → pop_ok s'.
Proof.
  intros [Hs Hk Hi]. unfold removeContainingEndorsement. destruct (containingEndorsements s !! it); [|done].
  intros [= <-]. split; cbn [containingEndorsements]; [by apply delete_sorted|by apply Forall_delete..].
Qed.

(** ** Serialization *)
Definition enc_endorsements (es : list Endorsement) : list Z :=
  enc_be (Z.of_nat (length es)) ++ concat (map endorsement_encoding es).

(** What a decoder of endorsements has to provide. *)
Class EndorsementCodec (decode : reader Endorsement) := {
  endorsement_valid : Endorsement → Prop;
  endorsement_key e : endorsement_valid e → key_ok (id e);
  endorsement_writes e : endorsement_valid e → writes (Endorsement_toVbkEncoding e) (endorsement_encoding e);
  endorsement_reads e : endorsement_valid e → reads decode (endorsement_encoding e) e;
  endorsement_decodes : safe_reading endorsement_valid decode
}.

Section codec.
Context (decode : reader Endorsement) `{HC : !EndorsementCodec decode}.

Definition pop_valid s : Prop :=
  pop_ok s ∧ Forall (λ x, endorsement_valid (target x.2)) (containingEndorsements s) ∧
  Z.of_nat (length (containingEndorsements s)) <= MAX_ENDORSEMENTS.

Definition endorsements_of s : list Endorsement := map (λ x, target x.2) (containingEndorsements s).

(** The state that is read back: new objects, and no [endorsedBy]. *)
Definition reloaded (a : Z) s : PopState :=
  mkPopState (imap (λ i x, (x.1, mkPtr (a + Z.of_nat i) (target x.2))) (containingEndorsements s)) [].

Lemma emplace_all es acc a : StronglySorted (λ x y, le_Z (id x) <= le_Z (id y)) es → Forall (λ e, key_ok (id e)) es →
  keys_ok acc → Forall (λ x, Forall (λ e, le_Z x.1 <= le_Z (id e)) es) acc →
  foldl (λ m p, emplace (id (target p)) p m) acc (allocate a es) =
  acc ++ imap (λ i e, (id e, mkPtr (a + Z.of_nat i) e)) es.
Proof.
  unfold allocate. intros Hs Hk. revert acc a. induction Hs as [|e es Hs IH He]; intros acc a Hacc Hle.
  { cbn. by rewrite app_nil_r. }
  apply Forall_cons in Hk as [Hk1 Hk]. rewrite !imap_cons. cbn [foldl target].
  rewrite emplace_last; [|done|done|eapply Forall_impl; [exact Hle|]; by intros x Hx%Forall_inv].
  assert (∀ i, a + Z.of_nat (S i) = (a + 1) + Z.of_nat i) as Ei by lia.
  rewrite (imap_ext _ (λ i e, mkPtr ((a + 1) + Z.of_nat i) e)) by (intros; cbn; by rewrite Ei).
  rewrite IH.
  - rewrite <- app_assoc. cbn [app]. do 2 f_equal. apply imap_ext. intros. cbn. by rewrite Ei.
  - done.
  - apply Forall_app. split; [done|by constructor].
  - apply Forall_app. split.
    + eapply Forall_impl; [exact Hle|]. by intros x Hx%Forall_inv_tail.
    + constructor; [|constructor]. exact He.
Qed.

Lemma pop_reads a s : pop_valid s →
  reads (PopState_fromVbkEncoding decode a) (enc_endorsements (endorsements_of s)) (reloaded a s).
Proof.
  intros ([Hs Hk Hi] & Hv & Hn). unfold PopState_fromVbkEncoding. rewrite <- (app_nil_r (enc_endorsements _)).
  eapply reads_bind.
  { apply reads_fails, reads_arrayOf.
    - unfold endorsements_of. rewrite map_map. apply Forall2_map_map.
      eapply Forall_impl; [exact Hv|]. intros x Hx. by apply endorsement_reads.
    - apply reads_be. unfold be_readable, in_range, bits_of, endorsements_of. rewrite length_map. simpl.
      unfold MAX_ENDORSEMENTS, MAX_POPDATA_ATV, MAX_POPDATA_VTB in Hn. lia.
    - unfold endorsements_of. rewrite length_map. split; [done|]. by vm_compute. }
  eapply reads_value; [apply reads_ret|]. unfold reloaded. f_equal.
  rewrite emplace_all; [|..|constructor|constructor].
  - unfold endorsements_of. cbn [app]. rewrite imap_fmap. apply imap_ext. intros i x Hx. cbn.
    rewrite Forall_lookup in Hi. by rewrite (Hi i x Hx).
  - unfold endorsements_of. clear Hv Hn Hk. induction Hs as [|x m Hs IH Hx]; [constructor|].
    apply Forall_cons in Hi as [Hi1 Hi]. cbn [map]. constructor; [by apply IH|]. apply Forall_fmap.
    apply Forall_forall. intros y Hy. rewrite Forall_forall in Hx. specialize (Hx y Hy). rewrite Forall_forall in Hi.
    unfold le_key in Hx. cbn. by rewrite <- (Hi y Hy), <- Hi1.
  - unfold endorsements_of. apply Forall_fmap. apply Forall_forall. intros y Hy. cbn.
    rewrite Forall_forall in Hi. rewrite <- (Hi y Hy). unfold keys_ok in Hk. rewrite Forall_forall in Hk. by apply Hk.
Qed.

Lemma pop_writes s : pop_valid s → writes (PopState_toVbkEncoding s) (enc_endorsements (endorsements_of s)).
Proof.
  intros (_ & Hv & Hn). unfold PopState_toVbkEncoding, enc_endorsements, endorsements_of, writeContainer.
  rewrite length_map. apply writes_seq.
  - apply writes_be. unfold in_range, bits_of. simpl. unfold MAX_ENDORSEMENTS, MAX_POPDATA_ATV, MAX_POPDATA_VTB in Hn. lia.
  - apply writes_items. rewrite map_map, <- (map_id (containingEndorsements s)) at 1. apply Forall2_map_map.
    eapply Forall_impl; [exact Hv|]. intros x Hx. by apply endorsement_writes.
Qed.

(** What is read is a valid state, whatever the bytes. *)
Lemma emplace_all_ok es acc a : Forall endorsement_valid es → pop_ok (mkPopState acc []) →
  Forall (λ x, endorsement_valid (target x.2)) acc →
  let m := foldl (λ m p, emplace (id (target p)) p m) acc (allocate a es) in
  pop_ok (mkPopState m []) ∧ Forall (λ x, endorsement_valid (target x.2)) m ∧ length m = (length acc + length es)%nat.
Proof.
  unfold allocate. intros Hes. revert acc a. induction Hes as [|e es He Hes IH]; intros acc a Hacc Hv.
  { cbn. split_and!; [done|done|lia]. }
  rewrite imap_cons. cbn [foldl target].
  assert (∀ i, a + Z.of_nat (S i) = (a + 1) + Z.of_nat i) as Ei by lia.
  rewrite (imap_ext _ (λ i e, mkPtr ((a + 1) + Z.of_nat i) e)) by (intros; cbn; by rewrite Ei).
  destruct (IH (emplace (id e) (mkPtr (a + Z.of_nat 0) e) acc) (a + 1)) as (Hok & Hv' & Hl).
  - apply (insert_pop_ok (mkPtr (a + Z.of_nat 0) e) (mkPopState acc [])); [done|]. by apply endorsement_key.
  - rewrite emplace_perm. by constructor.
  - split_and!; [done|done|]. rewrite Hl, emplace_perm. cbn. lia.
Qed.

Lemma pop_safe a : safe_reading pop_valid (PopState_fromVbkEncoding decode a).
Proof.
  unfold PopState_fromVbkEncoding. eapply safe_bind; [apply safe_fails, safe_readArrayOf, endorsement_decodes|].
  intros es [Hes Hn]. apply safe_ret_with. destruct (emplace_all_ok es [] a Hes) as (Hok & Hv & Hl).
  - split; constructor.
  - constructor.
  - split; [|split]; [done|done|]. cbn [containingEndorsements]. rewrite Hl. cbn. lia.
Qed.
End codec.

#[export] Instance AltEndorsement_codec : EndorsementCodec AltEndorsement_fromVbkEncoding.
Proof.
  refine {| endorsement_valid := AltEndorsement_valid |}.
  - by intros e (? & _).
  - intros e He. by destruct (proj1 (endorsement_codecs e) He).
  - intros e He. by destruct (proj1 (endorsement_codecs e) He).
  - apply endorsement_safe.
Defined.
#[export] Instance VbkEndorsement_codec : EndorsementCodec VbkEndorsement_fromVbkEncoding.
Proof.
  refine {| endorsement_valid := VbkEndorsement_valid |}.
  - by intros e (? & _).
  - intros e He. by destruct (proj2 (endorsement_codecs e) He).
  - intros e He. by destruct (proj2 (endorsement_codecs e) He).
  - apply endorsement_safe.
Defined.
