(* ===== verification/BlockAddons.v ===== *)
(** * The addons of the three block trees ([btc_block_addon.cpp],
    [vbk_block_addon.cpp], [alt_block_addon.cpp], [stored_*_block_addon.cpp])

    [BtcBlockAddon], [VbkBlockAddon] and [AltBlockAddon] are what a [BlockIndex]
    inherits from; the [Stored*] records are their form on disk.  The member
    functions that call [setDirty] are functions on nodes (section [on_node]).
    The member [minContainingVbkBlockHeight] of [AltBlockAddon] is never used
    and left out. *)
From Stdlib Require Import Sorted.
From S2P Require Import Prelude BlockIndex PayloadsIndex BaseTree BlockTree Serde Address Blocks Payloads Endorsements PopState.

Definition MAX_BTCADDON_REFS : Z := 65536.
Definition MAX_VBKPOPTX_PER_VBK_BLOCK : Z := 1024.

(** ** What the commands use of an addon *)
Class PopAddon (A : Type) := { pop_state : A → PopState; set_pop_state : PopState → A → A }.
Class PopAddonLaws (A : Type) `{PopAddon A} := {
  pop_set s a : pop_state (set_pop_state s a) = s;
  set_pop_set s s' a : set_pop_state s (set_pop_state s' a) = set_pop_state s a;
  set_pop a : set_pop_state (pop_state a) a = a
}.
Class ProofAddon (A : Type) := {
  blockOfProofEndorsements : A → list endorsement_ptr;
  set_blockOfProofEndorsements : list endorsement_ptr → A → A
}.
Class ProofAddonLaws (A : Type) `{ProofAddon A} := {
  bop_set l a : blockOfProofEndorsements (set_blockOfProofEndorsements l a) = l;
  set_bop_set l l' a : set_blockOfProofEndorsements l (set_blockOfProofEndorsements l' a) = set_blockOfProofEndorsements l a;
  set_bop a : set_blockOfProofEndorsements (blockOfProofEndorsements a) a = a
}.
Class RefAddon (A : Type) := { addRef : Z → A → A; removeRef : Z → A → result A; refCount : A → Z }.

(** [std::find] and [erase] of the first occurrence. *)
Fixpoint erase_first {T} `{EqDecision T} (x : T) (l : list T) : option (list T) :=
  match l with
  | [] => None
  | y :: l => if decide (y = x) then Some l else (y ::.) <$> erase_first x l
  end.

Lemma erase_first_perm {T} `{EqDecision T} (x : T) l l' : erase_first x l = Some l' → l ≡ₚ x :: l'.
Proof.
  revert l'. induction l as [|y l IH]; intros l'; cbn; [done|]. case_decide as E.
  - intros [= <-]. by rewrite E.
  - intros (l2 & E2 & ->)%fmap_Some. rewrite (IH l2 E2). apply perm_swap.
Qed.

Lemma erase_first_none {T} `{EqDecision T} (x : T) l : erase_first x l = None ↔ x ∉ l.
Proof.
  induction l as [|y l IH]; cbn; [split; [intros _ ?%not_elem_of_nil; done|done]|].
  case_decide as E; [subst; split; [done|]; intros Hn; exfalso; apply Hn; left|].
  rewrite fmap_None, IH, not_elem_of_cons. naive_solver.
Qed.

Lemma erase_first_last {T} `{EqDecision T} (x : T) l : x ∉ l → erase_first x (l ++ [x]) = Some l.
Proof.
  induction l as [|y l IH]; cbn; [by rewrite decide_True|]. rewrite not_elem_of_cons. intros [Hne Hn].
  rewrite decide_False by done. by rewrite IH.
Qed.

(** ** [BtcBlockAddon] *)
Record BtcBlockAddon := mkBtcAddon {
  btc_chainWork : Z;
  refs : list Z;
  btc_blockOfProofEndorsements : list endorsement_ptr
}.
Definition newBtcAddon : BtcBlockAddon := mkBtcAddon 0 [] [].

#[export] Instance btc_proof : ProofAddon BtcBlockAddon := {
  blockOfProofEndorsements := btc_blockOfProofEndorsements;
  set_blockOfProofEndorsements l a := mkBtcAddon (btc_chainWork a) (refs a) l }.
#[export] Instance btc_proof_laws : ProofAddonLaws BtcBlockAddon.
Proof. split; by intros; repeat match goal with a : BtcBlockAddon |- _ => destruct a end. Qed.

Definition btc_addRef (referencedAtHeight : Z) (a : BtcBlockAddon) : BtcBlockAddon :=
  mkBtcAddon (btc_chainWork a) (refs a ++ [referencedAtHeight]) (btc_blockOfProofEndorsements a).
Definition btc_removeRef (referencedAtHeight : Z) (a : BtcBlockAddon) : result BtcBlockAddon :=
  match erase_first referencedAtHeight (refs a) with
  | None => Assert "state corruption: tried removing a nonexistent reference to a BTC block"
  | Some l => Ok (mkBtcAddon (btc_chainWork a) l (btc_blockOfProofEndorsements a))
  end.
(** [(uint32_t)refs.size()] *)
Definition btc_refCount (a : BtcBlockAddon) : Z := u32 (Z.of_nat (length (refs a))).
Definition clearRefs (a : BtcBlockAddon) : BtcBlockAddon :=
  mkBtcAddon (btc_chainWork a) [] (btc_blockOfProofEndorsements a).
#[export] Instance btc_ref : RefAddon BtcBlockAddon :=
  { addRef := btc_addRef; removeRef := btc_removeRef; refCount := btc_refCount }.

(** [setNull] keeps [_blockOfProofEndorsements]. *)
Definition btc_setNull (a : BtcBlockAddon) : BtcBlockAddon := mkBtcAddon 0 [] (btc_blockOfProofEndorsements a).
Definition btc_setNullInmemFields (a : BtcBlockAddon) : BtcBlockAddon := mkBtcAddon 0 (refs a) [].
#[export] Instance btc_addon : BlockAddon BtcBlockAddon :=
  { validTipLevel := BLOCK_VALID_TREE; addon_setNull := btc_setNull }.
#[export] Instance btc_work : WorkAddon BtcBlockAddon := {
  chainWork := btc_chainWork;
  set_chainWork w a := mkBtcAddon w (refs a) (btc_blockOfProofEndorsements a);
  setIsBootstrap := btc_addRef 0;
  clearBlockOfProofEndorsement a := mkBtcAddon (btc_chainWork a) (refs a) [] }.
#[export] Instance btc_work_laws : WorkAddonLaws BtcBlockAddon.
Proof. by split. Qed.
#[export] Instance btc_payloads : PayloadIds BtcBlockAddon (list Z) := λ _, [].

(** ** [VbkBlockAddon] *)
Record VbkBlockAddon := mkVbkAddon {
  vbk_pop : PopState;
  vbk_chainWork : Z;
  vbk_refCount : Z;
  vbk_vtbids : list (list Z);
  vbk_blockOfProofEndorsements : list endorsement_ptr
}.
Definition newVbkAddon : VbkBlockAddon := mkVbkAddon (mkPopState [] []) 0 0 [] [].
Definition with_vtbids (l : list (list Z)) (a : VbkBlockAddon) : VbkBlockAddon :=
  mkVbkAddon (vbk_pop a) (vbk_chainWork a) (vbk_refCount a) l (vbk_blockOfProofEndorsements a).
Definition setRef (count : Z) (a : VbkBlockAddon) : VbkBlockAddon :=
  mkVbkAddon (vbk_pop a) (vbk_chainWork a) count (vbk_vtbids a) (vbk_blockOfProofEndorsements a).

#[export] Instance vbk_pop_addon : PopAddon VbkBlockAddon := {
  pop_state := vbk_pop;
  set_pop_state s a := mkVbkAddon s (vbk_chainWork a) (vbk_refCount a) (vbk_vtbids a) (vbk_blockOfProofEndorsements a) }.
#[export] Instance vbk_pop_laws : PopAddonLaws VbkBlockAddon.
Proof. split; by intros; repeat match goal with a : VbkBlockAddon |- _ => destruct a end. Qed.
#[export] Instance vbk_proof : ProofAddon VbkBlockAddon := {
  blockOfProofEndorsements := vbk_blockOfProofEndorsements;
  set_blockOfProofEndorsements l a := mkVbkAddon (vbk_pop a) (vbk_chainWork a) (vbk_refCount a) (vbk_vtbids a) l }.
#[export] Instance vbk_proof_laws : ProofAddonLaws VbkBlockAddon.
Proof. split; by intros; repeat match goal with a : VbkBlockAddon |- _ => destruct a end. Qed.

(** [addRef], [removeRef]: the height is ignored. *)
Definition vbk_addRef (_ : Z) (a : VbkBlockAddon) : VbkBlockAddon := setRef (u32 (vbk_refCount a + 1)) a.
Definition vbk_removeRef (_ : Z) (a : VbkBlockAddon) : result VbkBlockAddon :=
  vassert (0 <? vbk_refCount a) "state corruption: attempted to remove a nonexitent reference to a VBK block";;
  Ok (setRef (vbk_refCount a - 1) a).
#[export] Instance vbk_ref : RefAddon VbkBlockAddon :=
  { addRef := vbk_addRef; removeRef := vbk_removeRef; refCount := vbk_refCount }.

Definition vbk_hasPayloads (a : VbkBlockAddon) : bool := negb (bool_decide (vbk_vtbids a = [])).
Definition vbk_removePayloadId (pid : list Z) (a : VbkBlockAddon) : result VbkBlockAddon :=
  match erase_first pid (vbk_vtbids a) with
  | None => Assert "it != _vtbids.end()"
  | Some l => Ok (with_vtbids l a)
  end.
Definition vbk_insertPayloadId (pid : list Z) (a : VbkBlockAddon) : VbkBlockAddon := with_vtbids (vbk_vtbids a ++ [pid]) a.
Definition vbk_insertPayloadIds (pids : list (list Z)) (a : VbkBlockAddon) : VbkBlockAddon :=
  with_vtbids (vbk_vtbids a ++ pids) a.

Definition vbk_setNull (a : VbkBlockAddon) : VbkBlockAddon :=
  mkVbkAddon (pop_setNull (vbk_pop a)) 0 0 [] (vbk_blockOfProofEndorsements a).
Definition vbk_setNullInmemFields (a : VbkBlockAddon) : VbkBlockAddon :=
  mkVbkAddon (mkPopState (containingEndorsements (vbk_pop a)) []) 0 (vbk_refCount a) (vbk_vtbids a) [].
#[export] Instance vbk_addon : BlockAddon VbkBlockAddon :=
  { validTipLevel := BLOCK_VALID_TREE; addon_setNull := vbk_setNull }.
#[export] Instance vbk_work : WorkAddon VbkBlockAddon := {
  chainWork := vbk_chainWork;
  set_chainWork w a := mkVbkAddon (vbk_pop a) w (vbk_refCount a) (vbk_vtbids a) (vbk_blockOfProofEndorsements a);
  setIsBootstrap := vbk_addRef 0;
  clearBlockOfProofEndorsement a := mkVbkAddon (vbk_pop a) (vbk_chainWork a) (vbk_refCount a) (vbk_vtbids a) [] }.
#[export] Instance vbk_work_laws : WorkAddonLaws VbkBlockAddon.
Proof. by split. Qed.
#[export] Instance vbk_payloads : PayloadIds VbkBlockAddon (list Z) := vbk_vtbids.

(** ** [AltBlockAddon] *)
Record AltBlockAddon := mkAltAddon {
  alt_pop : PopState;
  atvids : list (list Z);
  alt_vtbids : list (list Z);
  vbkblockids : list (list Z)
}.
Definition newAltAddon : AltBlockAddon := mkAltAddon (mkPopState [] []) [] [] [].

#[export] Instance alt_pop_addon : PopAddon AltBlockAddon := {
  pop_state := alt_pop; set_pop_state s a := mkAltAddon s (atvids a) (alt_vtbids a) (vbkblockids a) }.
#[export] Instance alt_pop_laws : PopAddonLaws AltBlockAddon.
Proof. split; by intros; repeat match goal with a : AltBlockAddon |- _ => destruct a end. Qed.

(** The payload types of [PopData]: the template parameter of the accessors. *)
Inductive pop_type := AtvType | VtbType | VbkType.
Definition getPayloadIds (t : pop_type) (a : AltBlockAddon) : list (list Z) :=
  match t with AtvType => atvids a | VtbType => alt_vtbids a | VbkType => vbkblockids a end.
Definition setPayloads (t : pop_type) (pids : list (list Z)) (a : AltBlockAddon) : AltBlockAddon :=
  match t with
  | AtvType => mkAltAddon (alt_pop a) pids (alt_vtbids a) (vbkblockids a)
  | VtbType => mkAltAddon (alt_pop a) (atvids a) pids (vbkblockids a)
  | VbkType => mkAltAddon (alt_pop a) (atvids a) (alt_vtbids a) pids
  end.
Definition alt_removePayloadId (t : pop_type) (pid : list Z) (a : AltBlockAddon) : result AltBlockAddon :=
  match erase_first pid (getPayloadIds t a) with
  | None => Assert "it != payloads.end()"
  | Some l => Ok (setPayloads t l a)
  end.
Definition alt_insertPayloadIds (t : pop_type) (pids : list (list Z)) (a : AltBlockAddon) : AltBlockAddon :=
  setPayloads t (getPayloadIds t a ++ pids) a.
Definition alt_hasPayloads (a : AltBlockAddon) : bool :=
  negb (bool_decide (atvids a = [])) || negb (bool_decide (alt_vtbids a = [])) || negb (bool_decide (vbkblockids a = [])).
Definition clearPayloads (a : AltBlockAddon) : AltBlockAddon := mkAltAddon (alt_pop a) [] [] [].
Definition alt_setNull (a : AltBlockAddon) : AltBlockAddon := mkAltAddon (pop_setNull (alt_pop a)) [] [] [].
Definition alt_setNullInmemFields (a : AltBlockAddon) : AltBlockAddon :=
  mkAltAddon (mkPopState (containingEndorsements (alt_pop a)) []) (atvids a) (alt_vtbids a) (vbkblockids a).
#[export] Instance alt_addon : BlockAddon AltBlockAddon :=
  { validTipLevel := BLOCK_CONNECTED; addon_setNull := alt_setNull }.
#[export] Instance alt_payloads : PayloadIds AltBlockAddon (list Z) := λ a, atvids a ++ alt_vtbids a ++ vbkblockids a.

(** ** Member functions that mark the node as dirty *)
Section on_node.
Context {K B A : Type} `{Countable K}.
Notation index_t := (BlockIndex K B A).

Definition touch (f : A → A) (i : index_t) : index_t := setDirty (with_addon (f (addon i)) i).
Definition touch_result (f : A → result A) (i : index_t) : result index_t :=
  a ← f (addon i); Ok (setDirty (with_addon a i)).

Definition node_insertContainingEndorsement `{PopAddon A} (p : endorsement_ptr) : index_t → index_t :=
  touch (λ a, set_pop_state (insertContainingEndorsement p (pop_state a)) a).
Definition node_removeContainingEndorsement `{PopAddon A} (it : nat) : index_t → result index_t :=
  touch_result (λ a, s ← removeContainingEndorsement it (pop_state a); Ok (set_pop_state s a)).
Definition node_insertEndorsedBy `{PopAddon A} (p : endorsement_ptr) : index_t → index_t :=
  touch (λ a, set_pop_state (insertEndorsedBy p (pop_state a)) a).
Definition node_eraseLastFromEndorsedBy `{PopAddon A} (p : endorsement_ptr) (i : index_t) : index_t * bool :=
  let r := eraseLastFromEndorsedBy p (pop_state (addon i)) in
  if (r.2 : bool) then (touch (set_pop_state r.1) i, true) else (i, false).
Definition node_insertBlockOfProofEndorsement `{ProofAddon A} (p : endorsement_ptr) : index_t → index_t :=
  touch (λ a, set_blockOfProofEndorsements (blockOfProofEndorsements a ++ [p]) a).
Definition node_eraseLastFromBlockOfProofEndorsement `{ProofAddon A} (p : endorsement_ptr) (i : index_t) : index_t * bool :=
  let r := erase_last_item_if (λ e, ptr_eqb e p) (blockOfProofEndorsements (addon i)) in
  if (r.2 : bool) then (touch (set_blockOfProofEndorsements r.1) i, true) else (i, false).
Definition node_addRef `{RefAddon A} (referencedAtHeight : Z) : index_t → index_t := touch (addRef referencedAtHeight).
Definition node_removeRef `{RefAddon A} (referencedAtHeight : Z) : index_t → result index_t :=
  touch_result (removeRef referencedAtHeight).
End on_node.
