(* ===== verification/StoredAddons.v ===== *)
(** * Addons on disk ([stored_*_block_addon.cpp], [stored_block_index.hpp],
    [btc_block_addon.cpp], [vbk_block_addon.cpp], [alt_block_addon.cpp])

    A node is saved as a [StoredBlockIndex]: its height, the raw header, the
    status and the stored addon.  Each kind of block provides the class
    [NodeStorage]; the round trip of a node is proved once, against the class. *)
From Stdlib Require Import String Sorted.
From S2P Require Import Prelude Serde Base58 Address Blocks Payloads Endorsements PopState BlockIndex PayloadsIndex BaseTree TreeStorage BlockTree BlockAddons.

(** ** Arrays of identifiers and of heights *)
Definition writeIds (l : list (list Z)) : writer := writeContainer l writeSingleByteLenValue.
Definition readIds (N : nat) (max : Z) : reader (list (list Z)) :=
  readArrayOf 0 max (readSingleByteLenBlob N (Z.of_nat N) (Z.of_nat N)).
Definition writeHeights (l : list Z) : writer := writeContainer l (λ v, writeBE int32_t v 4).
Definition readHeights : reader (list Z) := readArrayOf 0 MAX_BTCADDON_REFS (readBE int32_t 4).

Definition enc_ids (l : list (list Z)) : list Z := enc_be (Z.of_nat (length l)) ++ concat (map enc_sbl l).
Definition enc_heights (l : list Z) : list Z := enc_be (Z.of_nat (length l)) ++ concat (map (λ v, be_bytes v 4) l).
Definition ids_ok (N : nat) (max : Z) (l : list (list Z)) : Prop :=
  Forall (blob_ok N) l ∧ Z.of_nat (length l) <= max.
Definition heights_ok (l : list Z) : Prop := Forall (in_range int32_t) l ∧ Z.of_nat (length l) <= MAX_BTCADDON_REFS.

Lemma enc_be_length {A} (l : list A) max : Z.of_nat (length l) <= max < 2 ^ 31 →
  writes (writeSingleBEValue (Z.of_nat (length l))) (enc_be (Z.of_nat (length l))) ∧
  reads (readSingleBEValue int32_t) (enc_be (Z.of_nat (length l))) (Z.of_nat (length l)).
Proof.
  intros Hl. split; [apply writes_be|apply reads_be]; unfold be_readable, in_range, bits_of; simpl; lia.
Qed.

Lemma writes_ids N max l : (N <= 255)%nat → max < 2 ^ 31 → ids_ok N max l → writes (writeIds l) (enc_ids l).
Proof.
  intros HN Hm [Hl Hn]. apply writes_seq; [by eapply enc_be_length|].
  apply writes_items. rewrite <- (map_id l) at 1. apply Forall2_map_map.
  eapply Forall_impl; [exact Hl|]. intros v Hv. apply writes_sbl. by eapply blob_short.
Qed.

Lemma reads_ids N max l : (N <= 255)%nat → max < 2 ^ 31 → ids_ok N max l → reads (readIds N max) (enc_ids l) l.
Proof.
  intros HN Hm [Hl Hn]. apply reads_arrayOf; [|by eapply enc_be_length|done].
  rewrite <- (map_id l) at 1. apply Forall2_map_map.
  eapply Forall_impl; [exact Hl|]. intros v Hv. by apply reads_blob.
Qed.

Lemma safe_ids N max : safe_reading (ids_ok N max) (readIds N max).
Proof. eapply safe_weaken; [apply safe_readArrayOf, safe_sbl_N|]. intros l [Hl Hn]. split; [done|lia]. Qed.

Lemma writes_heights l : heights_ok l → writes (writeHeights l) (enc_heights l).
Proof.
  intros [Hl Hn]. unfold MAX_BTCADDON_REFS in Hn. apply writes_seq; [eapply (enc_be_length l 65536); lia|].
  apply writes_items. rewrite <- (map_id l) at 1. apply Forall2_map_map.
  eapply Forall_impl; [exact Hl|]. intros v Hv. apply writes_BE; simpl; lia.
Qed.

Lemma reads_heights l : heights_ok l → reads readHeights (enc_heights l) l.
Proof.
  intros [Hl Hn]. unfold MAX_BTCADDON_REFS in Hn. apply reads_arrayOf; [|eapply (enc_be_length l 65536); lia|done].
  rewrite <- (map_id l) at 1. apply Forall2_map_map.
  eapply Forall_impl; [exact Hl|]. intros v Hv. eapply reads_value; [apply (reads_BE int32_t); simpl; lia|].
  apply conv_id; [simpl; lia|done].
Qed.

Lemma safe_heights : safe_reading heights_ok readHeights.
Proof.
  eapply safe_weaken; [apply safe_readArrayOf, safe_readBE; simpl; lia|]. intros l [Hl Hn]. split; [done|lia].
Qed.

(** ** The stored forms *)
Record StoredBtcBlockAddon := mkStoredBtc { sb_refs : list Z; sb_blockOfProofEndorsementIds : list (list Z) }.
Record StoredVbkBlockAddon := mkStoredVbk {
  sv_refCount : Z; sv_vtbids : list (list Z); sv_blockOfProofEndorsementIds : list (list Z);
  sv_endorsedByIds : list (list Z); sv_popState : PopState }.
Record StoredAltBlockAddon := mkStoredAlt {
  sa_atvids : list (list Z); sa_vtbids : list (list Z); sa_vbkblockids : list (list Z);
  sa_endorsedByIds : list (list Z); sa_popState : PopState }.

(** [map_get_id_from_pointers] *)
Definition ids_of (l : list endorsement_ptr) : list (list Z) := map (λ p, id (target p)) l.

(** The constructors from an addon; [popState] shares its endorsements. *)
Definition storeBtc (a : BtcBlockAddon) : StoredBtcBlockAddon :=
  mkStoredBtc (refs a) (ids_of (btc_blockOfProofEndorsements a)).
Definition storeVbk (a : VbkBlockAddon) : StoredVbkBlockAddon :=
  mkStoredVbk (vbk_refCount a) (vbk_vtbids a) (ids_of (vbk_blockOfProofEndorsements a))
    (ids_of (endorsedBy (vbk_pop a))) (vbk_pop a).
Definition storeAlt (a : AltBlockAddon) : StoredAltBlockAddon :=
  mkStoredAlt (atvids a) (alt_vtbids a) (vbkblockids a) (ids_of (endorsedBy (alt_pop a))) (alt_pop a).

Definition StoredBtc_toVbkEncoding (s : StoredBtcBlockAddon) : writer :=
  writeIds (sb_blockOfProofEndorsementIds s) +++ writeHeights (sb_refs s).
Definition StoredVbk_toVbkEncoding (s : StoredVbkBlockAddon) : writer :=
  writeIds (sv_endorsedByIds s) +++ writeIds (sv_blockOfProofEndorsementIds s) +++
  writeBE uint32_t (sv_refCount s) 4 +++ writeIds (sv_vtbids s) +++ PopState_toVbkEncoding (sv_popState s).
Definition StoredAlt_toVbkEncoding (s : StoredAltBlockAddon) : writer :=
  writeIds (sa_endorsedByIds s) +++ writeIds (sa_atvids s) +++ writeIds (sa_vtbids s) +++
  writeIds (sa_vbkblockids s) +++ PopState_toVbkEncoding (sa_popState s).

(** [alloc] is the address of the first endorsement that is created. *)
Definition StoredBtc_fromVbkEncoding : reader StoredBtcBlockAddon :=
  bop <- fails (readIds VTB_ID_SIZE MAX_POPDATA_VBK) "stored-btc-block-addon-bad-block-of-proof-hash";;
  refs <- fails readHeights "bad-refs";;
  ret (mkStoredBtc refs bop).
Definition StoredVbk_fromVbkEncoding (alloc : Z) : reader StoredVbkBlockAddon :=
  endorsedBy <- fails (readIds VTB_ID_SIZE MAX_POPDATA_VBK) "stored-vbk-block-addon-bad-endorsedby-hash";;
  bop <- fails (readIds ATV_ID_SIZE MAX_POPDATA_VBK) "stored-vbk-block-addon-bad-block-of-proof-hash";;
  refCount <- fails (readBE uint32_t 4) "stored-vbk-addon-bad-ref-count";;
  vtbids <- fails (readIds VTB_ID_SIZE MAX_VBKPOPTX_PER_VBK_BLOCK) "stored-vbk-addon-bad-vtbid";;
  popState <- fails (PopState_fromVbkEncoding VbkEndorsement_fromVbkEncoding alloc) "stored-vbk-block-addon-bad-popstate";;
  ret (mkStoredVbk refCount vtbids bop endorsedBy popState).
Definition StoredAlt_fromVbkEncoding (alloc : Z) : reader StoredAltBlockAddon :=
  endorsedBy <- fails (readIds ATV_ID_SIZE MAX_POPDATA_VBK) "stored-alt-block-addon-bad-endorsedby-hash";;
  atvids <- fails (readIds ATV_ID_SIZE MAX_POPDATA_ATV) "stored-alt-block-addon-bad-atvid";;
  vtbids <- fails (readIds VTB_ID_SIZE MAX_POPDATA_VTB) "stored-alt-block-addon-bad-vtbid";;
  vbkblockids <- fails (readIds VBK_PREVIOUS_BLOCK_HASH_SIZE MAX_POPDATA_VBK) "stored-alt-block-addon-bad-vbkids";;
  popState <- fails (PopState_fromVbkEncoding AltEndorsement_fromVbkEncoding alloc) "stored-alt-block-addon-bad-popstate";;
  ret (mkStoredAlt atvids vtbids vbkblockids endorsedBy popState).

(** [toInmem] *)
Definition btc_toInmem (s : StoredBtcBlockAddon) (to : BtcBlockAddon) : BtcBlockAddon :=
  foldl (λ a r, btc_addRef r a) (clearRefs to) (sb_refs s).
Definition vbk_toInmem (s : StoredVbkBlockAddon) (to : VbkBlockAddon) : VbkBlockAddon :=
  set_pop_state (sv_popState s) (vbk_insertPayloadIds (sv_vtbids s) (setRef (sv_refCount s) to)).
Definition alt_toInmem (s : StoredAltBlockAddon) (to : AltBlockAddon) : AltBlockAddon :=
  set_pop_state (sa_popState s)
    (setPayloads VbkType (sa_vbkblockids s) (setPayloads VtbType (sa_vtbids s) (setPayloads AtvType (sa_atvids s) to))).

#[export] Instance btc_stored : StoredAddon BtcBlockAddon StoredBtcBlockAddon :=
  { toInmem := btc_toInmem; setNullInmemFields := btc_setNullInmemFields }.
#[export] Instance vbk_stored : StoredAddon VbkBlockAddon StoredVbkBlockAddon :=
  { toInmem := vbk_toInmem; setNullInmemFields := vbk_setNullInmemFields }.
#[export] Instance alt_stored : StoredAddon AltBlockAddon StoredAltBlockAddon :=
  { toInmem := alt_toInmem; setNullInmemFields := alt_setNullInmemFields }.

(** ** The encodings of the in-memory addons *)
Definition BtcAddon_toVbkEncoding (a : BtcBlockAddon) : writer := writeHeights (refs a).
Definition BtcAddon_fromVbkEncoding : reader BtcBlockAddon :=
  refs <- fails readHeights "bad-refs";; ret (mkBtcAddon 0 refs []).
Definition VbkAddon_toVbkEncoding (a : VbkBlockAddon) : writer :=
  writeBE uint32_t (vbk_refCount a) 4 +++ PopState_toVbkEncoding (vbk_pop a) +++ writeIds (vbk_vtbids a).
Definition VbkAddon_fromVbkEncoding (alloc : Z) : reader VbkBlockAddon :=
  refCount <- fails (readBE uint32_t 4) "vbk-addon-bad-ref-count";;
  pop <- fails (PopState_fromVbkEncoding VbkEndorsement_fromVbkEncoding alloc) "vbk-addon-bad-popstate";;
  vtbids <- fails (readIds 32 MAX_VBKPOPTX_PER_VBK_BLOCK) "vbk-addon-bad-vtbid";;
  ret (mkVbkAddon pop 0 refCount vtbids []).
Definition AltAddon_toVbkEncoding (a : AltBlockAddon) : writer :=
  PopState_toVbkEncoding (alt_pop a) +++ writeIds (atvids a) +++ writeIds (alt_vtbids a) +++ writeIds (vbkblockids a).
Definition AltAddon_fromVbkEncoding (alloc : Z) : reader AltBlockAddon :=
  pop <- fails (PopState_fromVbkEncoding AltEndorsement_fromVbkEncoding alloc) "alt-block-addon-bad-popstate";;
  atvids <- fails (readIds 32 MAX_POPDATA_ATV) "alt-block-addon-bad-atvid";;
  vtbids <- fails (readIds 32 MAX_POPDATA_VTB) "alt-block-addon-bad-vtbid";;
  vbkblockids <- fails (readIds 12 MAX_POPDATA_VBK) "alt-block-addon-bad-vbkids";;
  ret (mkAltAddon pop atvids vtbids vbkblockids).

(** ** What a kind of block provides *)
Class NodeStorage (B A SA : Type) := {
  node_name : string;
  header_toRaw : B → writer;
  header_fromRaw : reader B;
  store_addon : A → SA;
  addon_toVbkEncoding : SA → writer;
  addon_fromVbkEncoding : Z → reader SA
}.

(** [persisted a x]: what is left of the addon [x] when it is loaded and its
    endorsements are created from address [a]. *)
Class NodeStorageLaws (B A SA : Type) `{!NodeStorage B A SA, !StoredAddon A SA} (newAddon : A) := {
  header_ok : B → Prop;
  header_bytes : B → list Z;
  addon_ok : A → Prop;
  addon_bytes : A → list Z;
  persisted : Z → A → A;
  header_writes b : header_ok b → writes (header_toRaw b) (header_bytes b);
  header_reads b : header_ok b → reads header_fromRaw (header_bytes b) b;
  addon_writes x : addon_ok x → writes (addon_toVbkEncoding (store_addon x)) (addon_bytes x);
  addon_reads a x : addon_ok x → ∃ s, reads (addon_fromVbkEncoding a) (addon_bytes x) s ∧
    setNullInmemFields (toInmem s newAddon) = persisted a x
}.

Section node.
Context {K B A SA : Type} `{Countable K, !NodeStorage B A SA, !StoredAddon A SA}.
Notation index_t := (BlockIndex K B A).

(** [BlockIndex::toStoredBlockIndex] *)
Definition toStoredBlockIndex (i : index_t) : StoredBlockIndex B SA :=
  mkStored (height i) (header i) (status i) (store_addon (addon i)).

Definition StoredBlockIndex_toVbkEncoding (s : StoredBlockIndex B SA) : writer :=
  writeBE int32_t (stored_height s) 4 +++ header_toRaw (stored_header s) +++
  writeBE uint32_t (stored_status s) 4 +++ addon_toVbkEncoding (stored_addon s).

Definition StoredBlockIndex_fromVbkEncoding (alloc : Z) : reader (StoredBlockIndex B SA) :=
  height <- fails (readBE int32_t 4) (node_name +:+ "-stored-block-index-height");;
  header <- fails header_fromRaw (node_name +:+ "-stored-block-index-header");;
  status <- fails (readBE uint32_t 4) (node_name +:+ "-stored-block-index-status");;
  addon <- fails (addon_fromVbkEncoding alloc) (node_name +:+ "-stored-block-index-addon");;
  ret (mkStored height header status addon).

Context (newAddon : A) `{HL : !NodeStorageLaws B A SA newAddon}.

Definition node_ok (i : index_t) : Prop :=
  in_range int32_t (height i) ∧ header_ok (header i) ∧ in_range uint32_t (status i) ∧ addon_ok (addon i).
Definition node_bytes (i : index_t) : list Z :=
  be_bytes (height i) 4 ++ header_bytes (header i) ++ be_bytes (status i) 4 ++ addon_bytes (addon i).

Lemma node_storage i a : node_ok i →
  writes (StoredBlockIndex_toVbkEncoding (toStoredBlockIndex i)) (node_bytes i) ∧
  ∃ s, reads (StoredBlockIndex_fromVbkEncoding a) (node_bytes i) s ∧
    ∀ j : index_t, addon j = newAddon → let i' := loadFields s j in
    height i' = height i ∧ header i' = header i ∧ status i' = status i ∧ addon i' = persisted a (addon i) ∧
    pprev i' = pprev j ∧ pnext i' = pnext j.
Proof.
  intros (Hh & Hb & Hs & Ha). split.
  - unfold StoredBlockIndex_toVbkEncoding, node_bytes. cbn [toStoredBlockIndex stored_height stored_header stored_status stored_addon].
    writes_parts; [apply writes_BE; simpl; lia|by apply header_writes|apply writes_BE; simpl; lia|by apply addon_writes].
  - destruct (addon_reads a (addon i) Ha) as (sa & Hr & Hin).
    exists (mkStored (height i) (header i) (status i) sa). split.
    + unfold StoredBlockIndex_fromVbkEncoding, node_bytes.
      eapply reads_bind; [apply reads_fails, (reads_BE int32_t); simpl; lia|].
      eapply reads_bind; [by apply reads_fails, header_reads|].
      eapply reads_bind; [apply reads_fails, (reads_BE uint32_t); simpl; lia|].
      rewrite <- (app_nil_r (addon_bytes (addon i))). eapply reads_bind; [by apply reads_fails|].
      eapply reads_value; [apply reads_ret|]. by rewrite !conv_id by (done || simpl; lia).
    + intros j Hj. unfold loadFields, mergeFrom.
      cbn [stored_height stored_header stored_status stored_addon height header status addon with_links with_addon
           setHeader setHeight pprev pnext].
      unfold setStatus. cbn [stored_status status setHeader setHeight].
      destruct (Z.eqb_spec (status i) (status j)) as [E|_];
        cbn [height header status addon with_status with_links with_addon setHeader setHeight pprev pnext];
        rewrite Hj, Hin; by split_and!.
Qed.
End node.

(** ** The three kinds of blocks *)
#[export] Instance btc_storage : NodeStorage Btc.BtcBlock BtcBlockAddon StoredBtcBlockAddon := {
  node_name := "BTC";
  header_toRaw := Btc.toRaw;
  header_fromRaw := c <- Btc.DeserializeFromRaw (empty_hash SHA256_HASH_SIZE);; ret (cached_block c);
  store_addon := storeBtc;
  addon_toVbkEncoding := StoredBtc_toVbkEncoding;
  addon_fromVbkEncoding _ := StoredBtc_fromVbkEncoding
}.
#[export] Instance vbk_storage : NodeStorage Vbk.VbkBlock VbkBlockAddon StoredVbkBlockAddon := {
  node_name := "VBK";
  header_toRaw := Vbk.toRaw;
  header_fromRaw := c <- Vbk.DeserializeFromRaw (empty_hash VBK_BLOCK_HASH_SIZE);; ret (cached_block c);
  store_addon := storeVbk;
  addon_toVbkEncoding := StoredVbk_toVbkEncoding;
  addon_fromVbkEncoding := StoredVbk_fromVbkEncoding
}.
#[export] Instance alt_storage `{CtParams} : NodeStorage Alt.AltBlock AltBlockAddon StoredAltBlockAddon := {
  node_name := "ALT";
  header_toRaw := Alt.toRaw;
  header_fromRaw := Alt.DeserializeFromRaw;
  store_addon := storeAlt;
  addon_toVbkEncoding := StoredAlt_toVbkEncoding;
  addon_fromVbkEncoding := StoredAlt_fromVbkEncoding
}.

Definition btc_addon_ok (a : BtcBlockAddon) : Prop :=
  heights_ok (refs a) ∧ ids_ok VTB_ID_SIZE MAX_POPDATA_VBK (ids_of (btc_blockOfProofEndorsements a)).
Definition vbk_addon_ok (a : VbkBlockAddon) : Prop :=
  in_range uint32_t (vbk_refCount a) ∧ ids_ok VTB_ID_SIZE MAX_VBKPOPTX_PER_VBK_BLOCK (vbk_vtbids a) ∧
  ids_ok ATV_ID_SIZE MAX_POPDATA_VBK (ids_of (vbk_blockOfProofEndorsements a)) ∧
  ids_ok VTB_ID_SIZE MAX_POPDATA_VBK (ids_of (endorsedBy (vbk_pop a))) ∧
  pop_valid VbkEndorsement_fromVbkEncoding (vbk_pop a).
Definition alt_addon_ok (a : AltBlockAddon) : Prop :=
  ids_ok ATV_ID_SIZE MAX_POPDATA_ATV (atvids a) ∧ ids_ok VTB_ID_SIZE MAX_POPDATA_VTB (alt_vtbids a) ∧
  ids_ok VBK_PREVIOUS_BLOCK_HASH_SIZE MAX_POPDATA_VBK (vbkblockids a) ∧
  ids_ok ATV_ID_SIZE MAX_POPDATA_VBK (ids_of (endorsedBy (alt_pop a))) ∧
  pop_valid AltEndorsement_fromVbkEncoding (alt_pop a).

Definition btc_persisted (_ : Z) (a : BtcBlockAddon) : BtcBlockAddon := mkBtcAddon 0 (refs a) [].
Definition vbk_persisted (alloc : Z) (a : VbkBlockAddon) : VbkBlockAddon :=
  mkVbkAddon (reloaded alloc (vbk_pop a)) 0 (vbk_refCount a) (vbk_vtbids a) [].
Definition alt_persisted (alloc : Z) (a : AltBlockAddon) : AltBlockAddon :=
  mkAltAddon (reloaded alloc (alt_pop a)) (atvids a) (alt_vtbids a) (vbkblockids a).

Lemma btc_refs_added l a : foldl (λ a r, btc_addRef r a) a l =
  mkBtcAddon (btc_chainWork a) (refs a ++ l) (btc_blockOfProofEndorsements a).
Proof.
  revert a. induction l as [|r l IH]; intros a; cbn [foldl]; [rewrite app_nil_r; by destruct a|].
  rewrite IH. cbn. by rewrite <- app_assoc.
Qed.

Ltac small := unfold ATV_ID_SIZE, VTB_ID_SIZE, VBK_PREVIOUS_BLOCK_HASH_SIZE, MAX_POPDATA_VBK, MAX_POPDATA_VTB,
  MAX_POPDATA_ATV, MAX_VBKPOPTX_PER_VBK_BLOCK; lia.
Ltac ids := first [eapply writes_ids | eapply reads_ids]; [| |eassumption]; small.

#[export] Instance btc_storage_laws : NodeStorageLaws Btc.BtcBlock BtcBlockAddon StoredBtcBlockAddon newBtcAddon.
Proof.
  refine {|
    header_ok := Btc.btc_valid; header_bytes b := concat (Btc.raw_parts b); addon_ok := btc_addon_ok;
    addon_bytes a := enc_ids (ids_of (btc_blockOfProofEndorsements a)) ++ enc_heights (refs a);
    persisted := btc_persisted |}.
  - intros b _. apply Btc.btc_writes_raw.
  - intros b Hb. cbn [header_fromRaw btc_storage]. rewrite <- (app_nil_r (concat _)).
    eapply reads_bind; [by apply Btc.btc_reads_raw|apply reads_ret].
  - intros a [Hr Hi]. apply writes_seq; [ids|by apply writes_heights].
  - intros al a [Hr Hi]. exists (storeBtc a). split.
    + cbn [addon_fromVbkEncoding btc_storage]. unfold StoredBtc_fromVbkEncoding.
      eapply reads_bind; [apply reads_fails; ids|].
      rewrite <- (app_nil_r (enc_heights _)). eapply reads_bind; [by apply reads_fails, reads_heights|apply reads_ret].
    + cbn [toInmem setNullInmemFields btc_stored]. unfold btc_toInmem. by rewrite btc_refs_added.
Defined.

#[export] Instance vbk_storage_laws : NodeStorageLaws Vbk.VbkBlock VbkBlockAddon StoredVbkBlockAddon newVbkAddon.
Proof.
  refine {|
    header_ok := Vbk.vbk_encodable; header_bytes b := concat (Vbk.raw_parts b); addon_ok := vbk_addon_ok;
    addon_bytes a := enc_ids (ids_of (endorsedBy (vbk_pop a))) ++ enc_ids (ids_of (vbk_blockOfProofEndorsements a)) ++
      be_bytes (vbk_refCount a) 4 ++ enc_ids (vbk_vtbids a) ++ enc_endorsements (endorsements_of (vbk_pop a));
    persisted := vbk_persisted |}.
  - intros b _. apply Vbk.vbk_writes_raw.
  - intros b Hb. cbn [header_fromRaw vbk_storage]. rewrite <- (app_nil_r (concat _)).
    eapply reads_bind; [by apply Vbk.vbk_reads_raw|apply reads_ret].
  - intros a (Hr & Hv & Hb & He & Hp). cbn [addon_toVbkEncoding store_addon vbk_storage].
    unfold StoredVbk_toVbkEncoding. cbn [storeVbk sv_refCount sv_vtbids sv_blockOfProofEndorsementIds sv_endorsedByIds sv_popState].
    writes_parts; [ids|ids|apply writes_BE; simpl; lia|ids|by apply (pop_writes VbkEndorsement_fromVbkEncoding)].
  - intros al a (Hr & Hv & Hb & He & Hp).
    exists (mkStoredVbk (vbk_refCount a) (vbk_vtbids a) (ids_of (vbk_blockOfProofEndorsements a))
              (ids_of (endorsedBy (vbk_pop a))) (reloaded al (vbk_pop a))). split; [|done].
    cbn [addon_fromVbkEncoding vbk_storage]. unfold StoredVbk_fromVbkEncoding.
    eapply reads_bind; [apply reads_fails; ids|].
    eapply reads_bind; [apply reads_fails; ids|].
    eapply reads_bind; [apply reads_fails, (reads_BE uint32_t); simpl; lia|].
    eapply reads_bind; [apply reads_fails; ids|].
    rewrite <- (app_nil_r (enc_endorsements _)). eapply reads_bind; [by apply reads_fails, (pop_reads _)|].
    eapply reads_value; [apply reads_ret|]. by rewrite conv_id by (done || simpl; lia).
Defined.

#[export] Instance alt_storage_laws `{CtParams} :
  NodeStorageLaws Alt.AltBlock AltBlockAddon StoredAltBlockAddon newAltAddon.
Proof.
  refine {|
    header_ok := Alt.alt_valid; header_bytes := Alt.alt_encoding; addon_ok := alt_addon_ok;
    addon_bytes a := enc_ids (ids_of (endorsedBy (alt_pop a))) ++ enc_ids (atvids a) ++ enc_ids (alt_vtbids a) ++
      enc_ids (vbkblockids a) ++ enc_endorsements (endorsements_of (alt_pop a));
    persisted := alt_persisted |}.
  - intros b Hb. exact (codec_writes (A := Alt.AltBlock) b Hb).
  - intros b Hb. exact (codec_reads (A := Alt.AltBlock) b Hb).
  - intros a (Ha & Ht & Hv & He & Hp). cbn [addon_toVbkEncoding store_addon alt_storage].
    unfold StoredAlt_toVbkEncoding. cbn [storeAlt sa_atvids sa_vtbids sa_vbkblockids sa_endorsedByIds sa_popState].
    writes_parts; [ids|ids|ids|ids|by apply (pop_writes AltEndorsement_fromVbkEncoding)].
  - intros al a (Ha & Ht & Hv & He & Hp).
    exists (mkStoredAlt (atvids a) (alt_vtbids a) (vbkblockids a) (ids_of (endorsedBy (alt_pop a)))
              (reloaded al (alt_pop a))). split; [|done].
    cbn [addon_fromVbkEncoding alt_storage]. unfold StoredAlt_fromVbkEncoding.
    do 4 (eapply reads_bind; [apply reads_fails; ids|]).
    rewrite <- (app_nil_r (enc_endorsements _)). eapply reads_bind; [by apply reads_fails, (pop_reads _)|apply reads_ret].
Defined.

(** Whatever the bytes, the decoders return a value within the limits of the
    encoders, or a validation error. *)
Lemma stored_addons_safe alloc :
  safe_reading (λ s, heights_ok (sb_refs s)) StoredBtc_fromVbkEncoding ∧
  safe_reading (λ s, ids_ok VTB_ID_SIZE MAX_VBKPOPTX_PER_VBK_BLOCK (sv_vtbids s) ∧
    in_range uint32_t (sv_refCount s) ∧ pop_valid VbkEndorsement_fromVbkEncoding (sv_popState s))
    (StoredVbk_fromVbkEncoding alloc) ∧
  safe_reading (λ s, ids_ok ATV_ID_SIZE MAX_POPDATA_ATV (sa_atvids s) ∧ ids_ok VTB_ID_SIZE MAX_POPDATA_VTB (sa_vtbids s) ∧
    ids_ok VBK_PREVIOUS_BLOCK_HASH_SIZE MAX_POPDATA_VBK (sa_vbkblockids s) ∧
    pop_valid AltEndorsement_fromVbkEncoding (sa_popState s)) (StoredAlt_fromVbkEncoding alloc).
Proof.
  unfold StoredBtc_fromVbkEncoding, StoredVbk_fromVbkEncoding, StoredAlt_fromVbkEncoding. split_and!;
    repeat (eapply safe_bind; [apply safe_fails;
      first [apply safe_ids | apply safe_heights | apply (pop_safe _) | apply safe_readBE; simpl; lia]|]; intros ? ?);
    apply safe_ret_with; by split_and?.
Qed.

(** References are not bounded when they are added: what was written with more
    of them is refused. *)
Lemma too_many_refs l rest : MAX_BTCADDON_REFS < Z.of_nat (length l) < 2 ^ 31 →
  (∃ e, writes (writeHeights l) e ∧ e = enc_heights l) ∧
  readHeights (newStream (enc_heights l ++ rest)) = Invalid ["range-above"; "readarray-bad-range"].
Proof.
  intros [Hl Hl2]. destruct (enc_be_length l (2 ^ 31 - 1)) as [Hw Hr]; [lia|]. split.
  - eexists. split; [|done]. apply writes_seq; [done|]. apply writes_items. rewrite <- (map_id l) at 1.
    apply Forall2_map_map, Forall_forall. intros v _. apply writes_BE; simpl; lia.
  - unfold readHeights, readArrayOf, enc_heights. rewrite <- app_assoc. unfold rbind, fails, guard. cbv beta.
    rewrite (Hr _ (concat (map (λ v, be_bytes v 4) l) ++ rest)) by done.
    cbn [or_invalid mbind result_bind fst snd]. rewrite u64_small by lia. unfold checkRange. destruct (Z.ltb_spec (Z.of_nat (length l)) 0); [lia|].
    by destruct (Z.ltb_spec MAX_BTCADDON_REFS (Z.of_nat (length l))); [|lia].
Qed.

(** ** A saved node *)
Section saved.
Context {K B A SA : Type} `{Countable K, !NodeStorage B A SA, !StoredAddon A SA}.
(** The node [i] can be written, and the bytes are loaded into a new node as
    the same height, header and status with the addon [a]. *)
Definition loads_as (newAddon : A) (alloc : Z) (i : BlockIndex K B A) (a : A) : Prop := ∃ bytes s,
  writes (StoredBlockIndex_toVbkEncoding (toStoredBlockIndex i)) bytes ∧
  reads (StoredBlockIndex_fromVbkEncoding alloc) bytes s ∧
  ∀ j : BlockIndex K B A, addon j = newAddon → let i' := loadFields s j in
    height i' = height i ∧ header i' = header i ∧ status i' = status i ∧ addon i' = a ∧
    pprev i' = pprev j ∧ pnext i' = pnext j.

Lemma node_loads newAddon `{HL : !NodeStorageLaws B A SA newAddon} alloc i : node_ok newAddon i →
  loads_as newAddon alloc i (persisted alloc (addon i)).
Proof. intros Hi. destruct (node_storage newAddon i alloc Hi) as (? & s & ? & ?). by eexists _, s. Qed.
End saved.

(** C33: a saved BTC, VBK or ALT node is loaded as it was, except for what is
    only kept in memory: a BTC node keeps the heights that refer to it, a VBK
    node its reference count and VTB ids, an ALT node its payload ids, and both
    the contained endorsements in their order; cumulative work, [endorsedBy] and
    the endorsements by the block are left empty. *)
Theorem saved_node_roundtrip `{CtParams} {K} `{Countable K} alloc :
  (∀ i : BlockIndex K Btc.BtcBlock BtcBlockAddon,
     in_range int32_t (height i) → Btc.btc_valid (header i) → in_range uint32_t (status i) → btc_addon_ok (addon i) →
     loads_as newBtcAddon alloc i (btc_persisted alloc (addon i))) ∧
  (∀ i : BlockIndex K Vbk.VbkBlock VbkBlockAddon,
     in_range int32_t (height i) → Vbk.vbk_encodable (header i) → in_range uint32_t (status i) → vbk_addon_ok (addon i) →
     loads_as newVbkAddon alloc i (vbk_persisted alloc (addon i))) ∧
  (∀ i : BlockIndex K Alt.AltBlock AltBlockAddon,
     in_range int32_t (height i) → Alt.alt_valid (header i) → in_range uint32_t (status i) → alt_addon_ok (addon i) →
     loads_as newAltAddon alloc i (alt_persisted alloc (addon i))).
Proof.
  split_and!; intros i Hh Hb Hs Ha;
    [apply (node_loads newBtcAddon (HL := btc_storage_laws))|apply (node_loads newVbkAddon (HL := vbk_storage_laws))
    |apply (node_loads newAltAddon (HL := alt_storage_laws))];
    by split_and!.
Qed.

Module Example_saved.
Definition e1 : Endorsement := mkEndorsement (replicate 32 1) (replicate 24 2) (replicate 24 3) (replicate 32 4).
Definition e2 : Endorsement := mkEndorsement (replicate 32 5) (replicate 24 2) (replicate 24 3) (replicate 32 4).
Definition pop : PopState := insertContainingEndorsement (mkPtr 7 e1) (insertContainingEndorsement (mkPtr 8 e2) (mkPopState [] [])).
Definition a : VbkBlockAddon := mkVbkAddon pop 1000 3 [replicate 32 1; replicate 32 5] [mkPtr 9 e1].
Definition header : Vbk.VbkBlock := Vbk.mkVbkBlock 10 2 (replicate 12 1) (replicate 9 2) (replicate 9 3) (replicate 16 4) 5 6 7.
Definition node : BlockIndex Z Vbk.VbkBlock VbkBlockAddon := mkBlockIndex 10 header 2 true (Some 9) ∅ false a.

Lemma pop_ok_ex : pop_valid VbkEndorsement_fromVbkEncoding (vbk_pop (addon node)).
Proof.
  assert (VbkEndorsement_valid e1 ∧ VbkEndorsement_valid e2) as [H1 H2]
    by (unfold VbkEndorsement_valid, blob_ok; split; apply (bool_decide_unpack _); vm_compute; exact I).
  assert (∀ s p, pop_ok s → VbkEndorsement_valid (target p) → pop_ok (insertContainingEndorsement p s)) as Hins
    by (intros s p Hs [Hp _]; by apply insert_pop_ok).
  split; [|split].
  - apply Hins; [apply Hins; [|done]|done]. split; constructor.
  - constructor; [exact H1|]. constructor; [exact H2|]. constructor.
  - by vm_compute.
Qed.
End Example_saved.

Lemma saved_node_roundtrip_witness :
  loads_as newVbkAddon 100 Example_saved.node (vbk_persisted 100 Example_saved.a).
Proof.
  apply (proj1 (proj2 (@saved_node_roundtrip {| ALT_HASH_SIZE := 32; ALT_HASH_SIZE_range := conj eq_refl eq_refl |} Z _ _ 100))).
  - split; by vm_compute.
  - apply (bool_decide_unpack _). by vm_compute.
  - split; by vm_compute.
  - split; [split; by vm_compute|]. split; [|split; [|split; [|apply Example_saved.pop_ok_ex]]];
      unfold ids_ok, blob_ok; apply (bool_decide_unpack _); vm_compute; exact I.
Defined.
