(* ===== verification/Merkle.v ===== *)
(** * Merkle trees and Merkle paths ([merkle_tree.hpp], [merkle_path.cpp],
    [vbk_merkle_path.cpp], [PopData::getMerkleRoot])

    [MerkleTree] is a template over the combining function; it is the section
    [tree].  Its reference definition is [merkle_levels]: every level of the
    tree holds the parents of the level below, an odd level repeats its last
    node.  [VbkMerkleTree], [BtcMerkleTree] and [PayloadsMerkleTree] are its
    instances for the three hash functions of the program. *)
From Stdlib Require Import String ZifyNat.
From S2P Require Import Prelude Serde Base58 Address Blocks Payloads.

#[local] Ltac Zify.zify_post_hook ::= Z.to_euclidean_division_equations.

(** [v[i]] of a [std::vector]. *)
Definition at_index {A} (v : list A) (i : nat) : result A :=
  match v !! i with
  | Some a => Ok a
  | None => Undef "vector index out of range"
  end.
Definition set_index {A} (v : list A) (i : nat) (a : A) : result (list A) :=
  if (i <? length v)%nat then Ok (<[i:=a]> v) else Undef "vector index out of range".

Lemma at_index_Ok {A} (v : list A) i a : v !! i = Some a → at_index v i = Ok a.
Proof. by unfold at_index; intros ->. Qed.

(** Two different members of given lists with the same image: a collision among
    the values that were hashed, not just anywhere. *)
Definition clash {A B} (f : A → B) (l1 l2 : list A) : Prop := ∃ x y, x ∈ l1 ∧ y ∈ l2 ∧ x ≠ y ∧ f x = f y.

Lemma clash_mono {A B} (f : A → B) l1 l2 l1' l2' : l1 ⊆ l1' → l2 ⊆ l2' → clash f l1 l2 → clash f l1' l2'.
Proof. intros H1 H2 (x & y & ? & ? & ? & ?). exists x, y. split_and!; auto. Qed.

Lemma clash_map {A B C D} (g : A → C) (f : A → B) (h : C → D) l1 l2 :
  (∀ x y, x ∈ l1 → y ∈ l2 → x ≠ y → f x = f y → g x ≠ g y ∧ h (g x) = h (g y)) →
  clash f l1 l2 → clash h (map g l1) (map g l2).
Proof.
  intros Hg (x & y & Hx & Hy & Hne & E). exists (g x), (g y). destruct (Hg x y Hx Hy Hne E) as [? ?].
  split_and!; [by apply list_elem_of_fmap_2|by apply list_elem_of_fmap_2|done|done].
Qed.

(** ** The indices of the leaves ([hash_indices]) *)
Section indices.
Context {A : Type} `{Countable A}.

(** The indices of the hashes; a later duplicate overwrites an earlier one. *)
Definition index_hashes (hashes : list A) : gmap A nat :=
  foldl (λ m ih, <[ih.2 := ih.1]> m) ∅
    (imap pair (take (Z.to_nat (i32 (Z.of_nat (length hashes)))) hashes)).

(** The indices are positions of the hashes. *)
Lemma index_hashes_Some hashes h i : index_hashes hashes !! h = Some i → hashes !! i = Some h.
Proof.
  unfold index_hashes. set (n := Z.to_nat _). clearbody n.
  assert (∀ l k m, (∀ h i, (m : gmap A nat) !! h = Some i → hashes !! i = Some h) →
    (∀ j x, l !! j = Some x → hashes !! (k + j)%nat = Some x) →
    ∀ h i, foldl (λ m ih, <[ih.2 := ih.1]> m) m (imap (λ j x, (k + j, x)%nat) l) !! h = Some i → hashes !! i = Some h) as Hgen.
  { intros l. induction l as [|y l IH]; intros k m Hm Hl h' i' E; [by apply Hm|].
    cbn [imap foldl fst snd] in E. rewrite Nat.add_0_r in E.
    rewrite (imap_ext _ (λ j x, (S k + j, x)%nat)) in E by (intros; simpl; f_equal; lia).
    eapply IH; [| |exact E].
    - intros h0 i0 [[-> <-]|[_ ?]]%lookup_insert_Some; [|by apply Hm]. rewrite <- (Nat.add_0_r k). by apply Hl.
    - intros j x Ej. replace (S k + j)%nat with (k + S j)%nat by lia. by apply Hl. }
  intros E. eapply (Hgen (take n hashes) 0%nat ∅); [done| |exact E].
  intros j x Ej. by apply lookup_take_Some in Ej as [? _].
Qed.

Lemma index_hashes_is_Some hashes h : Z.of_nat (length hashes) < 2 ^ 31 → h ∈ hashes →
  is_Some (index_hashes hashes !! h).
Proof.
  intros Hlen Hh. unfold index_hashes. rewrite wrapS_small by lia. rewrite Nat2Z.id, firstn_all.
  assert (∀ l k m, h ∈ l ∨ is_Some ((m : gmap A nat) !! h) →
    is_Some (foldl (λ m ih, <[ih.2 := ih.1]> m) m (imap (λ j x, (k + j, x)%nat) l) !! h)) as Hgen.
  { intros l. induction l as [|y l IH]; intros k m [Hin|Hin]; [by apply elem_of_nil in Hin|done| |];
      cbn [imap foldl fst snd]; rewrite (imap_ext _ (λ j x, (S k + j, x)%nat)) by (intros; simpl; f_equal; lia); apply IH.
    - destruct (decide (h = y)) as [->|]; [right; rewrite lookup_insert_eq; eauto|].
      left. set_solver.
    - right. destruct (decide (h = y)) as [->|]; [rewrite lookup_insert_eq; eauto|by rewrite lookup_insert_ne]. }
  apply (Hgen hashes 0%nat). by left.
Qed.
End indices.

Section tree.
Context {A : Type} `{Countable A} (hash : A → A → A) (zero : A).

Record MerkleTree := mkMerkleTree { layers : list (list A); hash_indices : gmap A nat }.

(** ** Building the tree *)

(** [for (size_t i = 0; i < n; i++) layer[i] = hash(layer[2 * i], layer[2 * i + 1]);]
    in place, with [k] iterations left. *)
Fixpoint hash_loop (k i : nat) (layer : list A) : result (list A) :=
  match k with
  | O => Ok layer
  | S k =>
    a ← at_index layer (2 * i);
    b ← at_index layer (2 * i + 1);
    layer ← set_index layer i (hash a b);
    hash_loop k (S i) layer
  end.

(** [if (n % 2 != 0) { layer[n] = layer[n - 1]; ++n; }] *)
Definition pad_odd (layer : list A) (n : nat) : result (list A * nat) :=
  if Nat.odd n then
    a ← at_index layer (n - 1);
    layer ← set_index layer n a;
    Ok (layer, S n)
  else Ok (layer, n).

(** [while (n > 1)] *)
Fixpoint build_loop (fuel n : nat) (layer : list A) (layers : list (list A)) : result (list (list A)) :=
  if (n <=? 1)%nat then Ok layers
  else match fuel with
  | O => OutOfFuel
  | S fuel =>
    ln ← pad_odd layer n;
    let n := (ln.2 / 2)%nat in
    layer ← hash_loop n 0 ln.1;
    build_loop fuel n layer (layers ++ [take n layer])
  end.

Definition buildTree (layer : list A) : result (list (list A)) :=
  match length layer with
  | 0%nat => Ok []
  | 1%nat => Ok [layer]
  | n => build_loop n n (if Nat.even n then layer else layer ++ [zero]) [layer]
  end.

Definition newMerkleTree (hashes : list A) : result MerkleTree :=
  ls ← buildTree hashes;
  Ok (mkMerkleTree ls (index_hashes hashes)).

(** ** Paths and roots *)
Fixpoint path_loop (ls : list (list A)) (index : nat) : result (list A) :=
  match ls with
  | [] => Ok []
  | layer :: rest =>
    match rest with
    | [] => Ok []
    | _ =>
      sibling ← (if Nat.even index then
                   if (length layer =? index + 1)%nat then at_index layer index else at_index layer (index + 1)
                 else at_index layer (index - 1));
      merklePath ← path_loop rest (index / 2);
      Ok (sibling :: merklePath)
    end
  end.

Definition getMerklePathLayers (t : MerkleTree) (index : nat) : result (list A) :=
  vassert (negb (bool_decide (layers t = []))) "!layers.empty()";;
  leafs ← at_index (layers t) 0;
  if (length leafs =? 1)%nat then
    vassert (length (layers t) =? 1)%nat "layers.size() == 1";; Ok []
  else
    vassert (index <? length leafs)%nat "index < leafs.size()";;
    path_loop (layers t) index.

Definition getMerklePathLayers_hash (t : MerkleTree) (h : A) : result (list A) :=
  match hash_indices t !! h with
  | Some index => getMerklePathLayers t index
  | None => Assert "it != hash_indices.end()"
  end.

Definition getMerkleRoot (t : MerkleTree) : result A :=
  match last (layers t) with
  | None => Ok zero
  | Some root => vassert (length root =? 1)%nat "root.size() == 1";; at_index root 0
  end.

(** ** The reference: levels of parents *)
Fixpoint parents (l : list A) : list A :=
  match l with
  | a :: l' => match l' with b :: l'' => hash a b :: parents l'' | [] => [hash a a] end
  | [] => []
  end.

Inductive merkle_levels : list A → list (list A) → A → Prop :=
| levels_root a : merkle_levels [a] [[a]] a
| levels_step l ls root : (1 < length l)%nat → merkle_levels (parents l) ls root →
    merkle_levels l (l :: ls) root.

(** What a path computes: at each level the next bit of [index] says on which
    side the sibling is. *)
Fixpoint fold_path (cursor : A) (index : Z) (path : list A) : A :=
  match path with
  | [] => cursor
  | layer :: path =>
    fold_path (if Z.testbit index 0 then hash layer cursor else hash cursor layer) (Z.shiftr index 1) path
  end.

(** ** The levels built by the code *)
Lemma parents_ind (P : list A → Prop) :
  P [] → (∀ a, P [a]) → (∀ a b l, P l → P (a :: b :: l)) → ∀ l, P l.
Proof.
  intros P0 P1 P2. fix IH 1. intros [|a [|b l]]; [done|apply P1|apply P2, IH].
Qed.

Lemma parents_length l : length (parents l) = (S (length l) / 2)%nat.
Proof.
  induction l as [| |a b l IH] using parents_ind; [done|done|].
  cbn [parents length]. rewrite IH. lia.
Qed.

Lemma parents_lookup l k : parents l !! k =
  match l !! (2 * k)%nat, l !! (2 * k + 1)%nat with
  | Some a, Some b => Some (hash a b)
  | Some a, None => Some (hash a a)
  | None, _ => None
  end.
Proof.
  revert k. induction l as [|a|a b l IH] using parents_ind; intros k.
  - done.
  - destruct k; [done|]. cbn [parents]. by rewrite (lookup_ge_None_2 [hash a a]), (lookup_ge_None_2 [a]) by (simpl; lia).
  - destruct k as [|k]; [done|]. cbn [parents]. change ((?x :: ?l') !! S k) with (l' !! k). rewrite IH.
    replace (2 * S k)%nat with (S (S (2 * k))) by lia. done.
Qed.

Lemma hash_loop_spec k i layer : (2 * (i + k) <= length layer)%nat →
  ∃ layer', hash_loop k i layer = Ok layer' ∧ length layer' = length layer ∧
    ∀ j, layer' !! j =
      (if bool_decide (i ≤ j ∧ j < i + k)%nat then
         match layer !! (2 * j)%nat, layer !! (2 * j + 1)%nat with
         | Some a, Some b => Some (hash a b) | _, _ => None end
       else layer !! j).
Proof.
  revert i layer. induction k as [|k IH]; intros i layer Hk.
  { exists layer. split_and!; [done|done|]. intros j. case_bool_decide; [lia|done]. }
  cbn [hash_loop].
  destruct (lookup_lt_is_Some_2 layer (2 * i)) as [a Ea]; [lia|].
  destruct (lookup_lt_is_Some_2 layer (2 * i + 1)) as [b Eb]; [lia|].
  rewrite (at_index_Ok _ _ _ Ea), (at_index_Ok _ _ _ Eb). cbn [mbind result_bind].
  unfold set_index. destruct (Nat.ltb_spec i (length layer)) as [Hi|]; [|lia]. cbn [mbind result_bind].
  destruct (IH (S i) (<[i:=hash a b]> layer)) as (layer' & E & Hl & Hj); [rewrite length_insert; lia|].
  exists layer'. rewrite length_insert in Hl. split_and!; [done|done|]. intros j. rewrite Hj.
  destruct (decide (j = i)) as [->|Hne].
  - rewrite bool_decide_eq_false_2 by lia. rewrite bool_decide_eq_true_2 by lia.
    by rewrite list_lookup_insert_eq, Ea, Eb by lia.
  - destruct (decide (S i ≤ j ∧ j < S i + k)%nat).
    + rewrite bool_decide_eq_true_2 by lia. rewrite bool_decide_eq_true_2 by lia.
      by rewrite !list_lookup_insert_ne by lia.
    + rewrite bool_decide_eq_false_2 by lia. rewrite bool_decide_eq_false_2 by lia.
      by rewrite list_lookup_insert_ne.
Qed.

(** The padded buffer holds the level, and its last node twice if it is odd. *)
Lemma pad_odd_spec l rest : l ≠ [] → (Nat.odd (length l) = true → rest ≠ []) →
  ∃ layer n, pad_odd (l ++ rest) (length l) = Ok (layer, n) ∧
    (n / 2 = S (length l) / 2 ∧ 2 * (n / 2) = n ∧ n <= length layer)%nat ∧
    length layer = length (l ++ rest) ∧
    ∀ j, (2 * j < n)%nat → layer !! (2 * j)%nat = l !! (2 * j)%nat ∧
      layer !! (2 * j + 1)%nat = match l !! (2 * j + 1)%nat with Some b => Some b | None => l !! (2 * j)%nat end.
Proof.
  intros Hl Hr. unfold pad_odd. destruct (Nat.odd (length l)) eqn:Eodd.
  - destruct rest as [|r rest]; [by destruct (Hr eq_refl)|].
    apply Nat.odd_spec in Eodd as [m Em].
    destruct (lookup_lt_is_Some_2 l (length l - 1)) as [x Ex]; [lia|].
    rewrite (at_index_Ok _ _ x) by by rewrite lookup_app_l by lia.
    cbn [mbind result_bind]. unfold set_index. rewrite length_app.
    destruct (Nat.ltb_spec (length l) (length l + length (r :: rest))) as [_|]; [|simpl in *; lia].
    cbn [mbind result_bind]. eexists _, _. split; [done|].
    rewrite length_insert, length_app. cbn [length]. split_and!; [lia|lia|lia|done|].
    intros j Hj. rewrite list_lookup_insert_ne by lia. rewrite lookup_app_l by lia. split; [done|].
    destruct (decide (j = m)) as [->|].
    + replace (2 * m + 1)%nat with (length l) by lia.
      rewrite list_lookup_insert_eq by (rewrite length_app; simpl; lia).
      rewrite (lookup_ge_None_2 l) by lia. rewrite <- Ex. f_equal. lia.
    + rewrite list_lookup_insert_ne by lia. rewrite lookup_app_l by lia.
      destruct (lookup_lt_is_Some_2 l (2 * j + 1)) as [y ->]; [lia|done].
  - rewrite <- Nat.negb_even in Eodd. apply negb_false_iff, Nat.even_spec in Eodd as [m Em].
    eexists _, _. split; [done|]. rewrite length_app. split_and!; [lia|lia|lia|done|].
    intros j Hj. rewrite !lookup_app_l by lia. split; [done|].
    destruct (lookup_lt_is_Some_2 l (2 * j + 1)) as [y ->]; [lia|done].
Qed.

(** One round of the loop: the buffer holds the level [l] and room for the
    padding; afterwards it holds the parents. *)
Lemma build_round l rest : l ≠ [] → (Nat.odd (length l) = true → rest ≠ []) →
  ∃ layer n rest', pad_odd (l ++ rest) (length l) = Ok (layer, n) ∧
    (n / 2 = length (parents l))%nat ∧ hash_loop (n / 2) 0 layer = Ok (parents l ++ rest') ∧
    length (parents l ++ rest') = length (l ++ rest).
Proof.
  intros Hl Hr. destruct (pad_odd_spec l rest Hl Hr) as (layer & n & E & (Hn & H2 & Hlen) & Hlen' & Hlook).
  destruct (hash_loop_spec (n / 2) 0 layer) as (layer' & E' & Hl' & Hj); [lia|].
  exists layer, n, (drop (length (parents l)) layer'). rewrite parents_length, <- Hn.
  assert (layer' = parents l ++ drop (n / 2) layer') as Happ.
  { rewrite <- (take_drop (n / 2) layer') at 1. f_equal. apply list_eq. intros j.
    destruct (decide (j < n / 2)%nat).
    - rewrite lookup_take_lt, Hj, parents_lookup by done. rewrite bool_decide_eq_true_2 by lia.
      destruct (Hlook j) as [-> ->]; [lia|].
      destruct (l !! (2 * j)%nat), (l !! (2 * j + 1)%nat); done.
    - rewrite lookup_take_ge, (lookup_ge_None_2 (parents l)); [done| |lia]. rewrite parents_length. lia. }
  split_and!; [done|done|by rewrite E', <- Happ|]. by rewrite <- Happ, Hl'.
Qed.

Lemma build_loop_levels fuel l rest acc :
  l ≠ [] → (length l <= S fuel)%nat → ((1 < length l)%nat → Nat.odd (length l) = true → rest ≠ []) →
  ∃ ls root, build_loop fuel (length l) (l ++ rest) acc = Ok (acc ++ ls) ∧ merkle_levels l (l :: ls) root.
Proof.
  revert l rest acc. induction fuel as [|fuel IH]; intros l rest acc Hl Hf Hr.
  { destruct l as [|a [|b l]]; [done| |simpl in Hf; lia].
    exists [], a. split; [|constructor]. by rewrite app_nil_r. }
  destruct (Nat.leb_spec (length l) 1) as [H1|H1].
  { destruct l as [|a [|b l]]; [done| |simpl in H1; lia].
    exists [], a. split; [|constructor]. by rewrite app_nil_r. }
  cbn [build_loop]. destruct (Nat.leb_spec (length l) 1); [lia|].
  destruct (build_round l rest Hl (Hr H1)) as (layer & n & rest' & E & Hn & Eh & Hlen).
  rewrite E. cbn [mbind result_bind fst snd]. rewrite Eh. cbn [mbind result_bind].
  pose proof (parents_length l) as Hp. rewrite !length_app in Hlen.
  assert (parents l ≠ []) as Hne by (intros E0; rewrite E0 in Hp; cbn [length] in Hp; lia).
  destruct (IH (parents l) rest' (acc ++ [parents l])) as (ls & root & E' & Hls); [done|lia| |].
  { intros _ _ ->. cbn [length] in Hlen. lia. }
  exists (parents l :: ls), root. rewrite Hn, take_app_length, E', <- app_assoc. split; [done|].
  by constructor.
Qed.

(** [buildTree] terminates and its layers are the levels of the reference. *)
Lemma buildTree_levels hashes : hashes ≠ [] →
  ∃ ls root, buildTree hashes = Ok ls ∧ merkle_levels hashes ls root.
Proof.
  intros Hh. unfold buildTree.
  destruct hashes as [|a [|b l]]; [done|by exists [[a]], a; split; [|constructor]|].
  set (hashes := a :: b :: l) in *. change (length hashes) with (S (S (length l))). cbv iota.
  change (S (S (length l))) with (length hashes).
  destruct (build_loop_levels (length hashes) hashes (if Nat.even (length hashes) then [] else [zero]) [hashes])
    as (ls & root & E & Hls); [done|lia|by rewrite <- Nat.negb_even; destruct Nat.even|].
  exists (hashes :: ls), root. split; [|done]. etransitivity; [|exact E]. destruct Nat.even; [by rewrite app_nil_r|done].
Qed.

Lemma levels_fun l ls1 ls2 r1 r2 : merkle_levels l ls1 r1 → merkle_levels l ls2 r2 → ls1 = ls2 ∧ r1 = r2.
Proof.
  intros H1. revert ls2 r2. induction H1 as [a|l ls root Hl H1 IH]; inversion 1; subst; simpl in *; try lia; [done|].
  edestruct IH as [-> ->]; [done|]. done.
Qed.

Lemma levels_head l ls root : merkle_levels l ls root → ls !! 0%nat = Some l.
Proof. by destruct 1. Qed.

Lemma levels_nonempty l ls root : merkle_levels l ls root → l ≠ [].
Proof. destruct 1; [done|]. intros ->. simpl in *. lia. Qed.

Lemma levels_last l ls root : merkle_levels l ls root → last ls = Some [root].
Proof.
  induction 1 as [|l ls root Hl Hls IH]; [done|].
  rewrite last_cons, IH. done.
Qed.

Lemma newMerkleTree_levels hashes : hashes ≠ [] →
  ∃ ls root, newMerkleTree hashes = Ok (mkMerkleTree ls (index_hashes hashes)) ∧ merkle_levels hashes ls root ∧
    getMerkleRoot (mkMerkleTree ls (index_hashes hashes)) = Ok root.
Proof.
  intros Hh. destruct (buildTree_levels hashes Hh) as (ls & root & E & Hls).
  exists ls, root. unfold newMerkleTree. rewrite E. split_and!; [done|done|].
  unfold getMerkleRoot. cbn [layers]. by rewrite (levels_last _ _ _ Hls).
Qed.

(** ** Paths of leaves recompute the root *)
Lemma path_loop_cons l ls root index : merkle_levels (parents l) ls root →
  path_loop (l :: ls) index =
    (sibling ← (if Nat.even index then
                   if (length l =? index + 1)%nat then at_index l index else at_index l (index + 1)
                 else at_index l (index - 1));
     merklePath ← path_loop ls (index / 2); Ok (sibling :: merklePath)).
Proof. by destruct 1. Qed.

Lemma path_loop_root l ls root i x : merkle_levels l ls root → l !! i = Some x →
  ∃ p, path_loop ls i = Ok p ∧ fold_path x (Z.of_nat i) p = root ∧ S (length p) = length ls.
Proof.
  intros Hls. revert i x. induction Hls as [a|l ls root Hl Hls IH]; intros i x Hx.
  { exists []. apply list_lookup_singleton_Some in Hx as [-> <-]. done. }
  rewrite (path_loop_cons _ _ _ _ Hls).
  pose proof (lookup_lt_Some _ _ _ Hx) as Hi. pose proof (parents_lookup l (i / 2)) as Hp.
  assert (Z.shiftr (Z.of_nat i) 1 = Z.of_nat (i / 2)) as Hshift.
  { rewrite Z.shiftr_div_pow2 by lia. change (2 ^ 1) with 2. lia. }
  destruct (Nat.even i) eqn:Eeven.
  - pose proof Eeven as [m Em]%Nat.even_spec. replace (2 * (i / 2))%nat with i in Hp by lia. rewrite Hx in Hp.
    destruct (Nat.eqb_spec (length l) (i + 1)) as [Elast|Elast].
    + rewrite (lookup_ge_None_2 l (i + 1)) in Hp by lia. destruct (IH _ _ Hp) as (p & E & Er & El).
      exists (x :: p). rewrite (at_index_Ok _ _ _ Hx), E. cbn [mbind result_bind fold_path length].
      rewrite Hshift, <- El. split_and!; [done| |done]. by destruct (Z.testbit _ 0).
    + destruct (lookup_lt_is_Some_2 l (i + 1)) as [y Ey]; [lia|]. rewrite Ey in Hp.
      destruct (IH _ _ Hp) as (p & E & Er & El).
      exists (y :: p). rewrite (at_index_Ok _ _ _ Ey), E. cbn [mbind result_bind fold_path length].
      rewrite Hshift, <- El, Z.bit0_odd. split_and!; [done| |done].
      replace (Z.odd (Z.of_nat i)) with false; [done|]. symmetry. rewrite <- Z.negb_even. subst i.
      by rewrite Nat2Z.inj_mul, Z.even_mul.
  - rewrite <- Nat.negb_odd in Eeven. apply negb_false_iff in Eeven. pose proof Eeven as [m Em]%Nat.odd_spec.
    replace (2 * (i / 2))%nat with (i - 1)%nat in Hp by lia. replace (i - 1 + 1)%nat with i in Hp by lia.
    destruct (lookup_lt_is_Some_2 l (i - 1)) as [y Ey]; [lia|]. rewrite Ey, Hx in Hp.
    destruct (IH _ _ Hp) as (p & E & Er & El).
    exists (y :: p). rewrite (at_index_Ok _ _ _ Ey), E. cbn [mbind result_bind fold_path length].
    rewrite Hshift, <- El, Z.bit0_odd. split_and!; [done| |done].
    replace (Z.odd (Z.of_nat i)) with true; [done|]. symmetry. subst i. apply Z.odd_spec. exists (Z.of_nat m). lia.
Qed.

Lemma getMerklePathLayers_eq hashes ls root m i x : merkle_levels hashes ls root → hashes !! i = Some x →
  getMerklePathLayers (mkMerkleTree ls m) i = path_loop ls i.
Proof.
  intros Hls Hx. unfold getMerklePathLayers. cbn [layers]. rewrite bool_decide_eq_false_2 by (by destruct Hls).
  rewrite (at_index_Ok _ _ _ (levels_head _ _ _ Hls)). cbn [negb vassert mbind result_bind].
  pose proof (lookup_lt_Some _ _ _ Hx). destruct Hls as [a|l ls root Hl Hls]; [done|].
  destruct (Nat.eqb_spec (length l) 1); [lia|]. destruct (Nat.ltb_spec i (length l)); [|lia]. done.
Qed.

Lemma getMerklePathLayers_root hashes ls root m i x : merkle_levels hashes ls root → hashes !! i = Some x →
  ∃ p, getMerklePathLayers (mkMerkleTree ls m) i = Ok p ∧ fold_path x (Z.of_nat i) p = root ∧
    S (length p) = length ls.
Proof. intros Hls Hx. rewrite (getMerklePathLayers_eq _ _ _ _ _ _ Hls Hx). by eapply path_loop_root. Qed.

(** ** The path of the last leaf tells the number of leaves

    At each level of the path of the last leaf, the sibling is the node itself
    exactly when the level is odd. *)
Fixpoint path_flags (cursor : A) (index : Z) (path : list A) : list bool :=
  match path with
  | [] => []
  | layer :: path =>
    bool_decide (cursor = layer) ::
    path_flags (if Z.testbit index 0 then hash layer cursor else hash cursor layer) (Z.shiftr index 1) path
  end.

Fixpoint missing (flags : list bool) : Z :=
  match flags with
  | [] => 0
  | b :: flags => (if b then 1 else 0) + 2 * missing flags
  end.

Lemma last_leaf_count l ls root x : merkle_levels l ls root → Forall NoDup ls → l !! (length l - 1)%nat = Some x →
  ∃ p, path_loop ls (length l - 1) = Ok p ∧
    Z.of_nat (length l) = 2 ^ Z.of_nat (length p) - missing (path_flags x (Z.of_nat (length l - 1)) p) ∧
    (p ≠ [] → 2 ^ (Z.of_nat (length p) - 1) < Z.of_nat (length l)).
Proof.
  intros Hls. revert x. induction Hls as [a|l ls root Hl Hls IH]; intros x Hn Hx.
  { exists []. split_and!; done. }
  inversion Hn as [|? ? Hnl Hn']; subst. rewrite (path_loop_cons _ _ _ _ Hls).
  pose proof (parents_length l) as Hp. pose proof (parents_lookup l (length (parents l) - 1)) as Hlook.
  assert (Z.shiftr (Z.of_nat (length l - 1)) 1 = Z.of_nat (length (parents l) - 1)) as Hshift.
  { rewrite Z.shiftr_div_pow2 by lia. change (2 ^ 1) with 2. lia. }
  assert (((length l - 1) / 2)%nat = (length (parents l) - 1)%nat) as Hdiv by lia.
  rewrite Hdiv. destruct (Nat.even (length l - 1)) eqn:Eeven.
  - pose proof Eeven as [m Em]%Nat.even_spec. destruct (Nat.eqb_spec (length l) (length l - 1 + 1)); [|lia].
    replace (2 * (length (parents l) - 1))%nat with (length l - 1)%nat in Hlook by lia.
    rewrite Hx, (lookup_ge_None_2 l) in Hlook by lia. destruct (IH _ Hn' Hlook) as (p & E & Ec & Eh).
    exists (x :: p). rewrite (at_index_Ok _ _ _ Hx), E. cbn [mbind result_bind path_flags missing length].
    rewrite bool_decide_eq_true_2, Hshift by done. rewrite Nat2Z.inj_succ, Z.pow_succ_r by lia.
    split; [done|]. replace (if Z.testbit _ 0 then hash x x else hash x x) with (hash x x) by (by destruct (Z.testbit _ 0)).
    split; [lia|]. intros _. destruct p as [|y p]; [simpl; lia|]. specialize (Eh ltac:(done)).
    replace (Z.succ (Z.of_nat (length (y :: p))) - 1) with (Z.succ (Z.of_nat (length (y :: p)) - 1)) by lia.
    rewrite Z.pow_succ_r by (simpl; lia). lia.
  - rewrite <- Nat.negb_odd in Eeven. apply negb_false_iff in Eeven. pose proof Eeven as [m Em]%Nat.odd_spec.
    replace (2 * (length (parents l) - 1))%nat with (length l - 1 - 1)%nat in Hlook by lia.
    replace (length l - 1 - 1 + 1)%nat with (length l - 1)%nat in Hlook by lia.
    destruct (lookup_lt_is_Some_2 l (length l - 1 - 1)) as [y Ey]; [lia|]. rewrite Ey, Hx in Hlook.
    destruct (IH _ Hn' Hlook) as (p & E & Ec & Eh).
    exists (y :: p). rewrite (at_index_Ok _ _ _ Ey), E. cbn [mbind result_bind path_flags missing length].
    rewrite bool_decide_eq_false_2, Hshift by (intros ->; eapply (NoDup_lookup l) in Hnl; [|exact Hx|exact Ey]; lia).
    rewrite Nat2Z.inj_succ, Z.pow_succ_r by lia. split; [done|].
    replace (Z.testbit (Z.of_nat (length l - 1)) 0) with true.
    2: { rewrite Z.bit0_odd, Em. symmetry. apply Z.odd_spec. exists (Z.of_nat m). lia. }
    split; [lia|]. intros _. destruct p as [|z p]; [simpl; lia|]. specialize (Eh ltac:(done)).
    replace (Z.succ (Z.of_nat (length (z :: p))) - 1) with (Z.succ (Z.of_nat (length (z :: p)) - 1)) by lia.
    rewrite Z.pow_succ_r by (simpl; lia). lia.
Qed.

(** ** Binding: equal roots come from equal leaves, or two pairs that were hashed
    on the way to the roots collide *)
Definition pair_hash (p : A * A) : A := hash p.1 p.2.

(** The pairs hashed to compute the next level, and those of a whole tree: all
    levels but the root. *)
Fixpoint pairs (l : list A) : list (A * A) :=
  match l with
  | a :: l' => match l' with b :: l'' => (a, b) :: pairs l'' | [] => [(a, a)] end
  | [] => []
  end.
Definition tree_pairs (ls : list (list A)) : list (A * A) := concat (map pairs (removelast ls)).

Lemma tree_pairs_step l ls root : merkle_levels (parents l) ls root → tree_pairs (l :: ls) = pairs l ++ tree_pairs ls.
Proof. intros Hls. unfold tree_pairs. by destruct Hls. Qed.

Lemma hash_pair_binding a b c d : hash a b = hash c d → (a = c ∧ b = d) ∨ clash pair_hash [(a, b)] [(c, d)].
Proof.
  intros E. destruct (decide ((a, b) = (c, d))) as [Heq|Hne]; [left; by simplify_eq|].
  right. exists (a, b), (c, d). split_and!; [by apply list_elem_of_singleton|by apply list_elem_of_singleton|done|done].
Qed.

Lemma parents_binding l1 l2 : length l1 = length l2 → parents l1 = parents l2 →
  l1 = l2 ∨ clash pair_hash (pairs l1) (pairs l2).
Proof.
  revert l2. induction l1 as [|a|a b l1 IH] using parents_ind; intros l2 Hl E.
  - left. by destruct l2.
  - destruct l2 as [|c [|d l2]]; try done. injection E as E.
    apply hash_pair_binding in E as [[-> _]|?]; [by left|by right].
  - destruct l2 as [|c [|d l2]]; try done. injection E as E E'. injection Hl as Hl. cbn [pairs].
    apply hash_pair_binding in E as [[-> ->]|Hc]; [|right; eapply clash_mono; [| |exact Hc]; set_solver].
    destruct (IH l2 Hl E') as [->|Hc]; [by left|]. right. eapply clash_mono; [| |exact Hc]; set_solver.
Qed.

Lemma levels_binding l1 l2 ls1 ls2 root : merkle_levels l1 ls1 root → merkle_levels l2 ls2 root →
  length l1 = length l2 → l1 = l2 ∨ clash pair_hash (tree_pairs ls1) (tree_pairs ls2).
Proof.
  intros Hls1. revert l2 ls2. induction Hls1 as [a|l1 ls1 root Hl1 Hls1 IH]; intros l2 ls2 Hls2 Hl.
  - destruct Hls2; simpl in *; [by left|lia].
  - destruct Hls2 as [b|l2 ls2 root' Hl2 Hls2]; simpl in *; [lia|].
    rewrite (tree_pairs_step _ _ _ Hls1), (tree_pairs_step _ _ _ Hls2).
    destruct (IH _ _ Hls2) as [Ep|Hc]; [rewrite !parents_length; congruence| |].
    + destruct (parents_binding l1 l2 Hl Ep) as [->|Hc]; [by left|right]. eapply clash_mono; [| |exact Hc]; set_solver.
    + right. eapply clash_mono; [| |exact Hc]; set_solver.
Qed.

(** [P] is a property of hashes (their size) that the hash function keeps. *)
Lemma pairs_P (P : A → Prop) l p : Forall P l → p ∈ pairs l → P p.1 ∧ P p.2.
Proof.
  intros HP. induction l as [|a|a b l IH] using parents_ind; cbn [pairs].
  - by intros ?%elem_of_nil.
  - intros ->%list_elem_of_singleton. by inversion HP.
  - inversion HP as [|? ? Ha HP']; inversion HP' as [|? ? Hb HP'']; subst. intros [->|Hp]%elem_of_cons; [by split|by auto].
Qed.

Lemma parents_P (P : A → Prop) l : (∀ a b, P (hash a b)) → Forall P (parents l).
Proof. intros HP. induction l as [| |a b l IH] using parents_ind; constructor; auto; done. Qed.

Lemma tree_pairs_P (P : A → Prop) l ls root p : (∀ a b, P (hash a b)) → merkle_levels l ls root → Forall P l →
  p ∈ tree_pairs ls → P p.1 ∧ P p.2.
Proof.
  intros HP Hls. induction Hls as [a|l ls root Hl Hls IH]; intros Hf.
  - by intros ?%elem_of_nil.
  - rewrite (tree_pairs_step _ _ _ Hls). intros [Hp|Hp]%elem_of_app; [by eapply pairs_P|]. apply IH; [|done]. by apply parents_P.
Qed.

Lemma parents_elem l h : h ∈ parents l → ∃ a b, a ∈ l ∧ b ∈ l ∧ (a, b) ∈ pairs l ∧ h = hash a b.
Proof.
  induction l as [|a|a b l IH] using parents_ind; cbn [parents pairs].
  - by intros ?%elem_of_nil.
  - intros ->%list_elem_of_singleton. exists a, a. set_solver.
  - intros [->|(c & d & ? & ? & ? & ->)%IH]%elem_of_cons; [exists a, b|exists c, d]; set_solver.
Qed.

Lemma parents_NoDup l : NoDup l → NoDup (parents l) ∨ clash pair_hash (pairs l) (pairs l).
Proof.
  induction l as [|a|a b l IH] using parents_ind; intros Hl; cbn [parents pairs].
  - left. constructor.
  - left. by apply NoDup_singleton.
  - apply NoDup_cons in Hl as [Ha [Hb Hl]%NoDup_cons].
    destruct (IH Hl) as [Hp|Hc]; [|right; eapply clash_mono; [| |exact Hc]; set_solver].
    destruct (decide (hash a b ∈ parents l)) as [(c & d & Hc & Hd & Hcd & E)%parents_elem|Hn]; [|left; by constructor].
    apply hash_pair_binding in E as [[-> ->]|Hcl]; [set_solver|]. right. eapply clash_mono; [| |exact Hcl]; set_solver.
Qed.

Lemma levels_NoDup l ls root : merkle_levels l ls root → NoDup l →
  Forall NoDup ls ∨ clash pair_hash (tree_pairs ls) (tree_pairs ls).
Proof.
  induction 1 as [a|l ls root Hl Hls IH]; intros Hn.
  - left. constructor; [by apply NoDup_singleton|constructor].
  - rewrite (tree_pairs_step _ _ _ Hls).
    destruct (parents_NoDup l Hn) as [Hp|Hc]; [|right; eapply clash_mono; [| |exact Hc]; set_solver].
    destruct (IH Hp) as [|Hc]; [left; by constructor|right]. eapply clash_mono; [| |exact Hc]; set_solver.
Qed.

(** ** Repeating the last leaf of an odd level keeps the root *)
Lemma parents_repeat l x : Nat.odd (length (l ++ [x])) = true → parents (l ++ [x] ++ [x]) = parents (l ++ [x]).
Proof.
  induction l as [|a|a b l IH] using parents_ind; intros Hodd; [done|done|].
  cbn [app parents]. f_equal. by apply IH.
Qed.

Lemma levels_repeat l x ls root : Nat.odd (length (l ++ [x])) = true → l ≠ [] →
  merkle_levels (l ++ [x]) ls root → ∃ ls', merkle_levels (l ++ [x] ++ [x]) ls' root.
Proof.
  intros Hodd Hl Hls. destruct l as [|y l]; [done|]. inversion Hls as [? Ex|? ? ? Hlen Hls']; subst.
  { by destruct l. }
  rewrite <- parents_repeat in Hls' by done. eexists. constructor; [|exact Hls'].
  rewrite !length_app. simpl. lia.
Qed.
End tree.
