(* ===== verification/MerklePaths.v ===== *)
(** * The Merkle trees of the three chains

    [MerklePath::calculateMerkleRoot], [VbkMerklePath::calculateMerkleRoot] and
    [equalLayerIndexes], the trees that make the paths, the count of POP
    transactions that the VBK tree estimates from paths, and
    [PopData::getMerkleRoot]. *)
From Stdlib Require Import String ZifyNat.
From S2P Require Import Prelude Serde Base58 Address Blocks Payloads Merkle.

#[local] Ltac Zify.zify_post_hook ::= Z.to_euclidean_division_equations.

Definition zero_hash : list Z := replicate 32 0.

Section paths.
Context `{HH : Hashes}.

(** ** Roots from paths *)
Definition MerklePath_calculateMerkleRoot (p : MerklePath) : list Z :=
  match Payloads.layers p with
  | [] => Payloads.subject p
  | ls => fold_path sha256twice_pair (Payloads.subject p) (Payloads.index p) ls
  end.

(** [if (i == size - 1) layerIndex = 1; else if (i == size - 2) layerIndex = treeIndex;] *)
Definition layer_index (size i : nat) (treeIndex layerIndex : Z) : Z :=
  if (i =? size - 1)%nat then 1 else if (i =? size - 2)%nat then treeIndex else layerIndex.

Definition layer_left (layerIndex : Z) (layer cursor : list Z) : list Z :=
  if Z.testbit layerIndex 0 then layer else cursor.
Definition layer_right (layerIndex : Z) (layer cursor : list Z) : list Z :=
  if Z.testbit layerIndex 0 then cursor else layer.

Fixpoint vbk_loop (size i : nat) (treeIndex layerIndex : Z) (cursor : list Z) (ls : list (list Z)) : list Z :=
  match ls with
  | [] => cursor
  | layer :: ls =>
    let layerIndex := layer_index size i treeIndex layerIndex in
    let cursor := sha256_pair (layer_left layerIndex layer cursor) (layer_right layerIndex layer cursor) in
    vbk_loop size (S i) treeIndex (Z.shiftr layerIndex 1) cursor ls
  end.

Definition VbkMerklePath_calculateMerkleRoot (p : VbkPath.VbkMerklePath) : list Z :=
  match VbkPath.layers p with
  | [] => trim VBK_MERKLE_ROOT_HASH_SIZE (VbkPath.subject p)
  | ls => trim VBK_MERKLE_ROOT_HASH_SIZE
            (vbk_loop (length ls) 0 (VbkPath.treeIndex p) (VbkPath.index p) (VbkPath.subject p) ls)
  end.

Fixpoint equal_loop (size i : nat) (treeIndex layerIndex : Z) (cursor : list Z) (ls : list (list Z)) : list nat :=
  match ls with
  | [] => []
  | layer :: ls =>
    let layerIndex := layer_index size i treeIndex layerIndex in
    let left := layer_left layerIndex layer cursor in
    let right := layer_right layerIndex layer cursor in
    let res := equal_loop size (S i) treeIndex (Z.shiftr layerIndex 1) (sha256_pair left right) ls in
    if bool_decide (right = left) then i :: res else res
  end.
Definition equalLayerIndexes (p : VbkPath.VbkMerklePath) : list nat :=
  let ls := VbkPath.layers p in
  equal_loop (length ls) 0 (VbkPath.treeIndex p) (VbkPath.index p) (VbkPath.subject p) ls.

(** ** The number of POP transactions

    [1 << n] of an [int]: defined up to the sign bit of the [uint32_t] that
    holds the result. *)
Definition shift_one (n : Z) : result Z := if (0 <=? n) && (n <=? 31) then Ok (2 ^ n) else Undef "1 << n".

(** [aproximate_leaves_number -= (1 << i)] *)
Definition subtract_bit (n : Z) (i : nat) : result Z := b ← shift_one (Z.of_nat i); Ok (u32 (n - b)).

Definition count_from_path (p : VbkPath.VbkMerklePath) : result Z :=
  match VbkPath.layers p with
  | [] => Ok 1
  | ls =>
    match equalLayerIndexes p with
    | [] => shift_one (u64 (Z.of_nat (length ls) - 2))
    | O :: _ => n ← cki32 (VbkPath.index p + 1); Ok (u32 n)
    | vec =>
      n ← shift_one (u64 (Z.of_nat (length ls) - 2));
      foldM subtract_bit vec n
    end
  end.

Definition is_pop (p : VbkPath.VbkMerklePath) : bool := VbkPath.treeIndex p =? 0.
Definition max_pop_index (paths : list VbkPath.VbkMerklePath) : Z :=
  foldl (λ m p, if is_pop p && (m <? VbkPath.index p) then VbkPath.index p else m) (-1) paths.

Definition estimateNumberOfPopTxs (paths : list VbkPath.VbkMerklePath) : result Z :=
  let maxIndex := max_pop_index paths in
  match list_find (λ p, is_pop p && (maxIndex =? VbkPath.index p)) paths with
  | None => Ok 0
  | Some (_, p) => count_from_path p
  end.

Definition isPopSubTreeFull (paths : list VbkPath.VbkMerklePath) : result bool :=
  n ← estimateNumberOfPopTxs paths; Ok (u32 (Z.of_nat (length paths)) =? n).

(** ** [VbkMerkleTree] *)
Inductive TreeIndex := POP | NORMAL.
Definition tree_code (t : TreeIndex) : Z := match t with POP => 0 | NORMAL => 1 end.

Record VbkMerkleTree := mkVbkMerkleTree {
  pop_tree : MerkleTree (A:=list Z); normal_tree : MerkleTree (A:=list Z) }.

Definition newVbkMerkleTree (normal_hashes pop_hashes : list (list Z)) : result VbkMerkleTree :=
  p ← newMerkleTree sha256_pair zero_hash pop_hashes;
  n ← newMerkleTree sha256_pair zero_hash normal_hashes;
  Ok (mkVbkMerkleTree p n).

Definition tree_of (t : VbkMerkleTree) (ti : TreeIndex) : MerkleTree :=
  match ti with POP => pop_tree t | NORMAL => normal_tree t end.
Definition opposite_of (t : VbkMerkleTree) (ti : TreeIndex) : MerkleTree :=
  match ti with POP => normal_tree t | NORMAL => pop_tree t end.

Definition finalizePath (t : VbkMerkleTree) (path : list (list Z)) (ti : TreeIndex) : result (list (list Z)) :=
  let opposite := opposite_of t ti in
  if bool_decide (path = []) && bool_decide (layers opposite = []) then Ok path
  else
    root ← getMerkleRoot zero_hash opposite;
    Ok (path ++ [root] ++ [zero_hash]).

Definition VbkMerkleTree_getMerkleRoot (t : VbkMerkleTree) : result (list Z) :=
  let pl := layers (pop_tree t) in
  let nl := layers (normal_tree t) in
  if bool_decide (pl = []) && bool_decide (nl = []) then Ok zero_hash
  else if (length pl =? 1)%nat && bool_decide (nl = []) then
    l ← at_index pl 0;
    vassert (length l =? 1)%nat "pop_tree.getLayers()[0].size() == 1";;
    getMerkleRoot zero_hash (pop_tree t)
  else if (length nl =? 1)%nat && bool_decide (pl = []) then
    l ← at_index nl 0;
    vassert (length l =? 1)%nat "normal_tree.getLayers()[0].size() == 1";;
    getMerkleRoot zero_hash (normal_tree t)
  else
    pop_hash ← getMerkleRoot zero_hash (pop_tree t);
    normal_hash ← getMerkleRoot zero_hash (normal_tree t);
    Ok (sha256_pair zero_hash (sha256_pair pop_hash normal_hash)).

Definition VbkMerkleTree_getMerklePathLayers (t : VbkMerkleTree) (index : nat) (ti : TreeIndex) :
  result (list (list Z)) :=
  path ← getMerklePathLayers (tree_of t ti) index;
  finalizePath t path ti.

Definition VbkMerkleTree_getMerklePath (t : VbkMerkleTree) (hash : list Z) (ti : TreeIndex) :
  result VbkPath.VbkMerklePath :=
  match hash_indices (tree_of t ti) !! hash with
  | None => Assert "it != getHashIndices().end()"
  | Some index =>
    path ← getMerklePathLayers (tree_of t ti) index;
    ls ← finalizePath t path ti;
    Ok (VbkPath.mkVbkMerklePath (tree_code ti) (Z.of_nat index) hash ls)
  end.

(** ** [BtcMerkleTree], [PayloadsMerkleTree] *)
Definition BtcMerkleTree_getMerklePath (t : MerkleTree (A:=list Z)) (hash : list Z) : result MerklePath :=
  match hash_indices t !! hash with
  | None => Assert "it != hash_indices.end()"
  | Some index =>
    ls ← getMerklePathLayers t index;
    Ok (mkMerklePath (Z.of_nat index) hash ls)
  end.
Definition BtcMerkleTree_getMerkleRoot (t : MerkleTree (A:=list Z)) : result (list Z) :=
  root ← getMerkleRoot zero_hash t; Ok (rev root).

(** [hash_t::size()] is 32 for ATVs and VTBs and 12 for VBK blocks. *)
Definition payloads_hash (size : nat) (a b : list Z) : list Z := trimLE size (sha256twice_pair a b).
Definition PayloadsMerkleTree_getMerkleRoot (size : nat) (ids : list (list Z)) : result (list Z) :=
  t ← newMerkleTree (payloads_hash size) (replicate size 0) ids;
  root ← getMerkleRoot (replicate size 0) t;
  Ok (rev root).

(** ** [PopData::getMerkleRoot] *)
Definition getMerkleRoot_ids (version : Z) (atvs vtbs vbks : list (list Z)) : result (list Z) :=
  data ← written (writeBE uint32_t version 4);
  let vbytes := sha256twice data in
  atvMerkleRoot ← PayloadsMerkleTree_getMerkleRoot 32 atvs;
  vtbMerkleRoot ← PayloadsMerkleTree_getMerkleRoot 32 vtbs;
  vbkMerkleRoot ← PayloadsMerkleTree_getMerkleRoot 12 vbks;
  let left := sha256twice_pair vbkMerkleRoot vtbMerkleRoot in
  let right := sha256twice_pair atvMerkleRoot vbytes in
  Ok (sha256twice_pair left right).

(** ** Paths made by the trees recompute their roots *)
Lemma layer_index_low size i ti li : (i + 2 < size)%nat → layer_index size i ti li = li.
Proof.
  intros Hi. unfold layer_index. destruct (Nat.eqb_spec i (size - 1)); [lia|].
  destruct (Nat.eqb_spec i (size - 2)); [lia|done].
Qed.
Lemma layer_index_tree i ti li : layer_index (i + 2) i ti li = ti.
Proof.
  unfold layer_index. destruct (Nat.eqb_spec i (i + 2 - 1)); [lia|].
  destruct (Nat.eqb_spec i (i + 2 - 2)); [done|lia].
Qed.
Lemma layer_index_meta i ti li : layer_index (i + 1) i ti li = 1.
Proof. unfold layer_index. destruct (Nat.eqb_spec i (i + 1 - 1)); [done|lia]. Qed.

Lemma layer_pair li (layer c : list Z) : sha256_pair (layer_left li layer c) (layer_right li layer c) =
  if Z.testbit li 0 then sha256_pair layer c else sha256_pair c layer.
Proof. unfold layer_left, layer_right. by destruct (Z.testbit li 0). Qed.

Lemma vbk_loop_path path o m size i ti li c : size = (i + length path + 2)%nat →
  vbk_loop size i ti li c (path ++ [o; m]) =
    sha256_pair m (let r := fold_path sha256_pair c li path in
                   sha256_pair (layer_left ti o r) (layer_right ti o r)).
Proof.
  revert i li c. induction path as [|s path IH]; intros i li c ->.
  - cbn [app vbk_loop length fold_path]. rewrite Nat.add_0_r, layer_index_tree.
    replace (i + 2)%nat with (S i + 1)%nat by lia. by rewrite layer_index_meta.
  - cbn [app vbk_loop fold_path length]. rewrite layer_index_low by lia. rewrite IH by (cbn [length]; lia).
    by rewrite (layer_pair li).
Qed.

(** What a tree of the two subtrees is: its state when a list is empty, and
    when it has levels. *)
Definition tree_built (hashes : list (list Z)) (t : MerkleTree (A:=list Z)) (root : list Z) : Prop :=
  hash_indices t = index_hashes hashes ∧ getMerkleRoot zero_hash t = Ok root ∧
  (hashes = [] ∧ layers t = [] ∧ root = zero_hash ∨ merkle_levels sha256_pair hashes (layers t) root).

Lemma newMerkleTree_built hashes : ∃ t root,
  newMerkleTree sha256_pair zero_hash hashes = Ok t ∧ tree_built hashes t root.
Proof.
  destruct (decide (hashes = [])) as [->|Hh].
  - eexists _, zero_hash. split; [done|]. split_and!; [done|done|by left].
  - destruct (newMerkleTree_levels sha256_pair zero_hash hashes Hh) as (ls & root & E & Hls & Er).
    eexists _, root. split; [exact E|]. split_and!; [done|done|by right].
Qed.

Lemma tree_built_layers hashes t root : tree_built hashes t root → (layers t = [] ↔ hashes = []).
Proof.
  intros (_ & _ & [(-> & -> & _)|Hls]); [done|].
  split; intros E; [rewrite E in Hls; inversion Hls|by apply levels_nonempty in Hls].
Qed.

Lemma levels_shape {A} (hash : A → A → A) l ls root : merkle_levels hash l ls root →
  (∃ x, l = [x] ∧ ls = [[x]] ∧ root = x) ∨ (∃ a b l' l1 l2 ls', l = a :: b :: l' ∧ ls = l1 :: l2 :: ls').
Proof.
  destruct 1 as [x|l ls root Hl Hls]; [left; by exists x|]. right.
  destruct l as [|a [|b l]]; [simpl in Hl; lia|simpl in Hl; lia|].
  destruct Hls; by eexists _, _, _, _, _, _.
Qed.

(** The root of the whole tree: a single leaf alone, or the combination. *)
Lemma vbk_root pops normals p n pr nr : tree_built pops p pr → tree_built normals n nr →
  let t := mkVbkMerkleTree p n in
  VbkMerkleTree_getMerkleRoot t = Ok
    (match pops, normals with
     | [], [] => zero_hash
     | [x], [] | [], [x] => x
     | _, _ => sha256_pair zero_hash (sha256_pair pr nr)
     end).
Proof.
  intros Hp Hn t. unfold VbkMerkleTree_getMerkleRoot, t. cbn [pop_tree normal_tree].
  pose proof (tree_built_layers _ _ _ Hp) as Ep. pose proof (tree_built_layers _ _ _ Hn) as En.
  destruct Hp as (_ & Erp & Hp), Hn as (_ & Ern & Hn). rewrite Erp, Ern.
  destruct Hp as [(-> & -> & ->)|Hp], Hn as [(-> & -> & ->)|Hn]; [done| | |];
    [destruct (levels_shape _ _ _ _ Hn) as [(x & -> & -> & ->)|(a & b & l & l1 & l2 & ls & -> & ->)]; done
    |destruct (levels_shape _ _ _ _ Hp) as [(x & -> & -> & ->)|(a & b & l & l1 & l2 & ls & -> & ->)]; done|].
  destruct (levels_shape _ _ _ _ Hp) as [(x & -> & -> & ->)|(a & b & l & l1 & l2 & ls & -> & ->)],
    (levels_shape _ _ _ _ Hn) as [(y & -> & -> & ->)|(a' & b' & l' & l1' & l2' & ls' & -> & ->)]; done.
Qed.

Lemma finalizePath_eq t path ti root : getMerkleRoot zero_hash (opposite_of t ti) = Ok root →
  finalizePath t path ti =
    Ok (if bool_decide (path = []) && bool_decide (layers (opposite_of t ti) = []) then path
        else path ++ [root; zero_hash]).
Proof. intros E. unfold finalizePath. rewrite E. by destruct (_ && _). Qed.

(** The path of the leaf at [i]. *)
Lemma built_path hashes t root i h : tree_built hashes t root → hashes !! i = Some h →
  ∃ path, getMerklePathLayers t i = Ok path ∧ fold_path sha256_pair h (Z.of_nat i) path = root ∧
    S (length path) = length (layers t).
Proof.
  intros (_ & _ & [(-> & _)|Hls]) Hi; [done|].
  destruct t as [ls m]. by apply getMerklePathLayers_root with hashes.
Qed.

Definition leaves_of (normals pops : list (list Z)) (ti : TreeIndex) : list (list Z) :=
  match ti with POP => pops | NORMAL => normals end.

Lemma vbk_path_value normals pops p n pr nr ti i h :
  tree_built pops p pr → tree_built normals n nr → leaves_of normals pops ti !! i = Some h →
  let t := mkVbkMerkleTree p n in
  ∃ path ls, getMerklePathLayers (tree_of t ti) i = Ok path ∧ finalizePath t path ti = Ok ls ∧
    VbkMerkleTree_getMerkleRoot t =
      Ok (match ls with
          | [] => h
          | _ => vbk_loop (length ls) 0 (tree_code ti) (Z.of_nat i) h ls
          end).
Proof.
  intros Hp Hn Hi t.
  assert (∃ hs hs' root root', leaves_of normals pops ti = hs ∧ tree_built hs (tree_of t ti) root ∧
    tree_built hs' (opposite_of t ti) root' ∧ (hs' = [] → hs = [h] → VbkMerkleTree_getMerkleRoot t = Ok h) ∧
    ((hs' = [] → hs ≠ [h]) → VbkMerkleTree_getMerkleRoot t =
      Ok (sha256_pair zero_hash (sha256_pair (layer_left (tree_code ti) root' root) (layer_right (tree_code ti) root' root)))))
    as (hs & hs' & root & root' & El & Ht & Ho & Hone & Htwo).
  { pose proof (vbk_root _ _ _ _ _ _ Hp Hn) as Hroot. cbn zeta in Hroot. fold t in Hroot. rewrite Hroot.
    destruct ti; [exists pops, normals, pr, nr|exists normals, pops, nr, pr]; (split_and!; [done|done|done| |]).
    all: cbn [leaves_of] in Hi; try (intros -> ->; done); intros Hne.
    - destruct pops as [|x [|y l]], normals as [|z [|z' l']]; try done. destruct i; [|done]. injection Hi as ->. by destruct Hne.
    - destruct pops as [|x [|y l]], normals as [|z [|z' l']]; try done. destruct i; [|done]. injection Hi as ->. by destruct Hne. }
  rewrite El in Hi. destruct (built_path _ _ _ _ _ Ht Hi) as (path & Ep & Er & Hlen).
  exists path. rewrite (finalizePath_eq t path ti root') by apply Ho. eexists. split; [done|split; [done|]].
  destruct (bool_decide (path = []) && bool_decide (layers (opposite_of t ti) = [])) eqn:E.
  - apply andb_prop in E as [->%bool_decide_eq_true E%bool_decide_eq_true]. apply (tree_built_layers _ _ _ Ho) in E.
    apply Hone; [done|]. destruct Ht as (_ & _ & [(_ & E' & _)|Hls]); [by rewrite E' in Hlen|].
    destruct Hls as [x|l ls root Hl Hls]; [|by destruct Hls]. destruct i; [|done]. by injection Hi as ->.
  - rewrite Htwo.
    + f_equal. destruct (path ++ [root'; zero_hash]) as [|l0 ls0] eqn:Eapp; [by destruct path|]. rewrite <- Eapp.
      rewrite (vbk_loop_path path root' zero_hash) by (rewrite length_app; simpl; lia). cbn zeta. by rewrite Er.
    + intros -> ->. apply andb_false_iff in E as [E%bool_decide_eq_false|E%bool_decide_eq_false]; apply E.
      * destruct Ht as (_ & _ & [(? & _)|Hls]); [done|]. inversion Hls as [? E1 E2|? ? ? Hl]; [|simpl in Hl; lia].
        rewrite <- E2 in Hlen. by destruct path.
      * by apply (tree_built_layers _ _ _ Ho).
Qed.

(** C21: for both subtrees of a VBK block, the path that the tree gives for a
    transaction recomputes the Merkle root of the block header. *)
Theorem VbkMerkleTree_path_root normals pops ti h :
  Z.of_nat (length normals) < 2 ^ 31 → Z.of_nat (length pops) < 2 ^ 31 → h ∈ leaves_of normals pops ti →
  ∃ t p root, newVbkMerkleTree normals pops = Ok t ∧ VbkMerkleTree_getMerklePath t h ti = Ok p ∧
    VbkMerkleTree_getMerkleRoot t = Ok root ∧ VbkPath.subject p = h ∧
    VbkMerklePath_calculateMerkleRoot p = trim VBK_MERKLE_ROOT_HASH_SIZE root.
Proof.
  intros Hnl Hpl Hh.
  destruct (newMerkleTree_built pops) as (p & pr & Ep & Hp), (newMerkleTree_built normals) as (n & nr & En & Hn).
  set (t := mkVbkMerkleTree p n).
  assert (∃ i, hash_indices (tree_of t ti) !! h = Some i ∧ leaves_of normals pops ti !! i = Some h) as (i & Ei & Hi).
  { destruct ti; cbn [leaves_of] in *; unfold t; cbn [tree_of pop_tree normal_tree].
    - destruct (index_hashes_is_Some _ h Hpl Hh) as [i Ei], Hp as [-> _]. exists i. by split; [|apply index_hashes_Some].
    - destruct (index_hashes_is_Some _ h Hnl Hh) as [i Ei], Hn as [-> _]. exists i. by split; [|apply index_hashes_Some]. }
  destruct (vbk_path_value _ _ _ _ _ _ _ _ _ Hp Hn Hi) as (path & ls & E1 & E2 & E3).
  exists t, (VbkPath.mkVbkMerklePath (tree_code ti) (Z.of_nat i) h ls). eexists.
  split; [unfold newVbkMerkleTree; rewrite Ep; cbn [mbind result_bind]; by rewrite En|].
  split; [unfold VbkMerkleTree_getMerklePath; rewrite Ei; fold t in E1, E2; rewrite E1; cbn [mbind result_bind]; by rewrite E2|].
  split; [exact E3|]. split; [done|]. by destruct ls.
Qed.

(** The path of a BTC transaction recomputes the Merkle root, which the
    tree gives in the byte order of the block header. *)
Lemma BtcMerkleTree_path_root txes h : Z.of_nat (length txes) < 2 ^ 31 → h ∈ txes →
  ∃ t p root, newMerkleTree sha256twice_pair zero_hash txes = Ok t ∧
    BtcMerkleTree_getMerklePath t h = Ok p ∧ Payloads.subject p = h ∧
    BtcMerkleTree_getMerkleRoot t = Ok root ∧ rev (MerklePath_calculateMerkleRoot p) = root.
Proof.
  intros Hl Hh. destruct (index_hashes_is_Some _ h Hl Hh) as [i Ei].
  destruct (newMerkleTree_levels sha256twice_pair zero_hash txes) as (ls & root & Et & Hls & Er); [by intros ->; inversion Hh|].
  destruct (getMerklePathLayers_root _ _ _ _ (index_hashes txes) i h Hls (index_hashes_Some _ _ _ Ei)) as (path & Ep & Efold & _).
  exists (mkMerkleTree ls (index_hashes txes)), (mkMerklePath (Z.of_nat i) h path), (rev root).
  split; [exact Et|]. split; [unfold BtcMerkleTree_getMerklePath; cbn [hash_indices]; by rewrite Ei, Ep|].
  split; [done|]. split; [unfold BtcMerkleTree_getMerkleRoot; by rewrite Er|].
  unfold MerklePath_calculateMerkleRoot. cbn [Payloads.layers Payloads.subject Payloads.index]. rewrite <- Efold. by destruct path.
Qed.

(** ** Binding: a root fixes the leaves, or two of the strings that were hashed on
    the way to it collide *)
Definition joined (p : list Z * list Z) : list Z := p.1 ++ p.2.

Lemma joined_inj (n : nat) (p q : list Z * list Z) : length p.1 = n → length q.1 = n → p ≠ q → joined p ≠ joined q.
Proof.
  destruct p as [a b], q as [c d]. unfold joined. cbn. intros Ha Hc Hne E. apply app_inj_1 in E as [-> ->]; [done|congruence].
Qed.

Lemma sha256_pair_length a b : length (sha256_pair a b) = 32%nat.
Proof. apply sha256_length. Qed.

Definition hash32 (v : list Z) : Prop := length v = 32%nat.

(** The strings that [calculateMerkleRoot] hashes, from the leaf to the root. *)
Fixpoint vbk_inputs (size i : nat) (treeIndex layerIndex : Z) (cursor : list Z) (ls : list (list Z)) : list (list Z) :=
  match ls with
  | [] => []
  | layer :: ls =>
    let layerIndex := layer_index size i treeIndex layerIndex in
    let left := layer_left layerIndex layer cursor in
    let right := layer_right layerIndex layer cursor in
    (left ++ right) :: vbk_inputs size (S i) treeIndex (Z.shiftr layerIndex 1) (sha256_pair left right) ls
  end.
Definition path_inputs (p : VbkPath.VbkMerklePath) : list (list Z) :=
  vbk_inputs (length (VbkPath.layers p)) 0 (VbkPath.treeIndex p) (VbkPath.index p) (VbkPath.subject p) (VbkPath.layers p).

Lemma layer_join_inj li (a b x y : list Z) : hash32 a → hash32 b → hash32 x → hash32 y →
  layer_left li a x ++ layer_right li a x = layer_left li b y ++ layer_right li b y → x = y ∧ a = b.
Proof.
  unfold hash32. intros Ha Hb Hx Hy. unfold layer_left, layer_right.
  destruct (Z.testbit li 0); (intros [-> ->]%app_inj_1; [done|congruence]).
Qed.

Lemma vbk_loop_binding size ls1 ls2 i ti li x y : hash32 x → hash32 y → Forall hash32 ls1 → Forall hash32 ls2 →
  length ls1 = length ls2 → vbk_loop size i ti li x ls1 = vbk_loop size i ti li y ls2 →
  (x = y ∧ ls1 = ls2) ∨ clash sha256 (vbk_inputs size i ti li x ls1) (vbk_inputs size i ti li y ls2).
Proof.
  intros Hx Hy Hl1. revert ls2 i li x y Hx Hy. induction Hl1 as [|a ls1 Ha Hl1 IH];
    intros [|b ls2] i li x y Hx Hy Hl2 Hl E; try done; [by left|].
  inversion Hl2 as [|? ? Hb Hl2']; subst. injection Hl as Hl. cbn [vbk_loop vbk_inputs] in *.
  set (li' := layer_index size i ti li) in *.
  apply IH in E as [[Eh ->]|Hc]; [|right; eapply clash_mono; [| |exact Hc]; set_solver|apply sha256_length|apply sha256_length|done|done].
  destruct (decide (layer_left li' a x ++ layer_right li' a x = layer_left li' b y ++ layer_right li' b y)) as [E|Hne].
  - left. by destruct (layer_join_inj li' a b x y Ha Hb Hx Hy E) as [-> ->].
  - right. eexists _, _. split_and!; [apply list_elem_of_here|apply list_elem_of_here|exact Hne|exact Eh].
Qed.

Lemma vbk_loop_top size i ti li c ls : ls ≠ [] →
  ∃ u, last (vbk_inputs size i ti li c ls) = Some u ∧ vbk_loop size i ti li c ls = sha256 u.
Proof.
  revert i li c. induction ls as [|a ls IH]; intros i li c Hne; [done|]. cbn [vbk_loop vbk_inputs].
  destruct ls as [|b ls]; [by eexists|]. destruct (IH (S i) (Z.shiftr (layer_index size i ti li) 1)
    (sha256_pair (layer_left (layer_index size i ti li) a c) (layer_right (layer_index size i ti li) a c))) as (u & Hu & Eu); [done|].
  exists u. split; [|exact Eu]. rewrite last_cons. by rewrite Hu.
Qed.

(** C22: a VBK Merkle root of 16 bytes fixes the transaction at a position and
    its path: two different paths of the same shape with the same root hash two
    different strings to the same SHA-256, or their last strings differ and have
    hashes with the same first 16 bytes.  The strings are those that
    [calculateMerkleRoot] hashes for these two paths. *)
Theorem VbkMerklePath_binding (p q : VbkPath.VbkMerklePath) :
  hash32 (VbkPath.subject p) → hash32 (VbkPath.subject q) →
  Forall hash32 (VbkPath.layers p) → Forall hash32 (VbkPath.layers q) →
  VbkPath.treeIndex p = VbkPath.treeIndex q → VbkPath.index p = VbkPath.index q →
  length (VbkPath.layers p) = length (VbkPath.layers q) → VbkPath.layers p ≠ [] →
  VbkMerklePath_calculateMerkleRoot p = VbkMerklePath_calculateMerkleRoot q →
  p = q ∨ clash sha256 (path_inputs p) (path_inputs q) ∨
  ∃ u v, last (path_inputs p) = Some u ∧ last (path_inputs q) = Some v ∧ u ≠ v ∧
    trim VBK_MERKLE_ROOT_HASH_SIZE (sha256 u) = trim VBK_MERKLE_ROOT_HASH_SIZE (sha256 v).
Proof.
  destruct p as [ti i x ls1], q as [ti' i' y ls2]. unfold path_inputs.
  cbn [VbkPath.subject VbkPath.layers VbkPath.treeIndex VbkPath.index].
  intros Hx Hy H1 H2 <- <- Hl Hne E. unfold VbkMerklePath_calculateMerkleRoot in E.
  cbn [VbkPath.subject VbkPath.layers VbkPath.treeIndex VbkPath.index] in E. rewrite <- Hl.
  assert (trim VBK_MERKLE_ROOT_HASH_SIZE (vbk_loop (length ls1) 0 ti i x ls1) =
          trim VBK_MERKLE_ROOT_HASH_SIZE (vbk_loop (length ls1) 0 ti i y ls2)) as E'.
  { rewrite Hl at 2. destruct ls1, ls2; try done. }
  destruct (vbk_loop_top (length ls1) 0 ti i x ls1 Hne) as (u & Hu & Eu).
  destruct (vbk_loop_top (length ls1) 0 ti i y ls2) as (v & Hv & Ev); [by destruct ls1, ls2|].
  destruct (decide (u = v)) as [->|Huv]; [|right; right; exists u, v; split_and!; [done..|congruence]].
  destruct (vbk_loop_binding _ _ _ _ _ _ _ _ Hx Hy H1 H2 Hl (eq_trans Eu (eq_sym Ev))) as [[-> ->]|?]; [by left|by right; left].
Qed.

(** ** Roots of payload lists *)
Lemma trimLE_length n v : (n <= length v)%nat → length (trimLE n v) = n.
Proof. intros. unfold trimLE. rewrite length_drop. lia. Qed.

Lemma payloads_hash_length n a b : (n <= 32)%nat → length (payloads_hash n a b) = n.
Proof. intros. apply trimLE_length. unfold sha256twice_pair. by rewrite sha256_length. Qed.

(** The strings that a tree of ids hashes. *)
Definition tree_inputs (size : nat) (ids : list (list Z)) : list (list Z) :=
  match newMerkleTree (payloads_hash size) (replicate size 0) ids with
  | Ok t => map joined (tree_pairs (layers t))
  | _ => []
  end.

(** The root of a list of ids, as a relation. *)
Inductive payloads_root (n : nat) : list (list Z) → list Z → Prop :=
| root_empty : payloads_root n [] (replicate n 0)
| root_levels l ls root : merkle_levels (payloads_hash n) l ls root → payloads_root n l root.

Lemma PayloadsMerkleTree_root n ids : ∃ root,
  PayloadsMerkleTree_getMerkleRoot n ids = Ok (rev root) ∧ payloads_root n ids root.
Proof.
  destruct (decide (ids = [])) as [->|Hne].
  - exists (replicate n 0). split; [done|constructor].
  - destruct (newMerkleTree_levels (payloads_hash n) (replicate n 0) ids Hne) as (ls & root & E & Hls & Er).
    exists root. unfold PayloadsMerkleTree_getMerkleRoot. rewrite E. cbn [mbind result_bind]. rewrite Er.
    split; [done|]. by econstructor.
Qed.

Lemma payloads_root_length n l root : (n <= 32)%nat → Forall (λ v, length v = n) l → payloads_root n l root →
  length root = n.
Proof.
  intros Hn Hl HR. revert Hl. destruct HR as [|l ls root Hls]; [by rewrite length_replicate|].
  induction Hls as [a|l ls r Hlen Hls IH]; intros Hl; [exact (Forall_inv Hl)|].
  apply IH, parents_P. intros. by apply payloads_hash_length.
Qed.

Lemma payloads_root_binding n l1 l2 root : (n <= 32)%nat →
  Forall (λ v, length v = n) l1 → Forall (λ v, length v = n) l2 → length l1 = length l2 →
  payloads_root n l1 root → payloads_root n l2 root →
  l1 = l2 ∨ clash (λ v, trimLE n (sha256twice v)) (tree_inputs n l1) (tree_inputs n l2).
Proof.
  intros Hn H1 H2 Hl R1 R2. destruct R1 as [|l1 ls1 root L1]; [left; by destruct l2|].
  inversion R2 as [E|? ls2 ? L2]; subst; [left; destruct l1; [done|simpl in Hl; lia]|].
  destruct (levels_binding _ _ _ _ _ _ L1 L2 Hl) as [|Hc]; [by left|right].
  assert (∀ l ls r, merkle_levels (payloads_hash n) l ls r → tree_inputs n l = map joined (tree_pairs ls)) as Hin.
  { intros l ls' r L. destruct (newMerkleTree_levels (payloads_hash n) (replicate n 0) l) as (ls'' & r' & E & L' & _).
    { by eapply levels_nonempty. }
    unfold tree_inputs. rewrite E. cbn [layers]. by destruct (levels_fun _ _ _ _ _ _ L L') as [-> _]. }
  rewrite (Hin _ _ _ L1), (Hin _ _ _ L2). eapply clash_map; [|exact Hc]. intros p q Hp Hq Hne E. split; [|exact E].
  destruct (tree_pairs_P _ (λ v, length v = n) _ _ _ _ (λ a b, payloads_hash_length n a b Hn) L1 H1 Hp) as [Hp' _].
  destruct (tree_pairs_P _ (λ v, length v = n) _ _ _ _ (λ a b, payloads_hash_length n a b Hn) L2 H2 Hq) as [Hq' _].
  by eapply joined_inj.
Qed.

Lemma payloads_root_repeat n l x root : Nat.odd (length (l ++ [x])) = true → l ≠ [] →
  payloads_root n (l ++ [x]) root → payloads_root n (l ++ [x] ++ [x]) root.
Proof.
  intros Hodd Hl HR. inversion HR as [E|? ls ? Hls]; subst; [by destruct l|].
  destruct (levels_repeat _ _ _ _ _ Hodd Hl Hls) as [ls' Hls']. by econstructor.
Qed.

Lemma payloads_root_fun n l r1 r2 : payloads_root n l r1 → payloads_root n l r2 → r1 = r2.
Proof.
  intros R1 R2. destruct R1 as [|l1 ls1 root1 L1]; inversion R2 as [E|? ? ? L2]; subst; try done.
  - by apply levels_nonempty in L2.
  - by apply levels_nonempty in L1.
  - by destruct (levels_fun _ _ _ _ _ _ L1 L2).
Qed.

(** What [PopData::getMerkleRoot] hashes. *)
Lemma getMerkleRoot_ids_eq version atvs vtbs vbks : ∃ ra rt rb,
  payloads_root 32 atvs ra ∧ payloads_root 32 vtbs rt ∧ payloads_root 12 vbks rb ∧
  getMerkleRoot_ids version atvs vtbs vbks =
    Ok (sha256twice_pair (sha256twice_pair (rev rb) (rev rt))
                         (sha256twice_pair (rev ra) (sha256twice (be_bytes version 4)))).
Proof.
  destruct (PayloadsMerkleTree_root 32 atvs) as (ra & Ea & Ra), (PayloadsMerkleTree_root 32 vtbs) as (rt & Et & Rt),
    (PayloadsMerkleTree_root 12 vbks) as (rb & Eb & Rb).
  exists ra, rt, rb. split_and!; [done..|]. unfold getMerkleRoot_ids.
  rewrite (written_writes _ (be_bytes version 4)) by (apply writes_BE; simpl; lia). cbn [mbind result_bind].
  rewrite Ea. cbn [mbind result_bind]. rewrite Et. cbn [mbind result_bind]. by rewrite Eb.
Qed.

Lemma twice_pair_binding n a b c d : length a = n → length c = n →
  sha256twice_pair a b = sha256twice_pair c d → (a = c ∧ b = d) ∨ clash sha256twice [a ++ b] [c ++ d].
Proof.
  intros Ha Hc E. destruct (decide ((a, b) = (c, d))) as [Heq|Hne]; [left; by simplify_eq|].
  right. exists (a ++ b), (c ++ d). split_and!; [by apply list_elem_of_singleton|by apply list_elem_of_singleton| |exact E].
  by apply (joined_inj n (a, b) (c, d)).
Qed.

Definition ids_ok (n : nat) (l : list (list Z)) : Prop := Forall (λ v, length v = n) l.

(** The strings that are hashed in full on the way to the root of a [PopData]: those of the
    trees of ATVs and VTBs, the version, and the three pairs of roots above them. *)
Definition root_of (size : nat) (ids : list (list Z)) : list Z :=
  match PayloadsMerkleTree_getMerkleRoot size ids with Ok root => root | _ => [] end.
Definition popdata_inputs (version : Z) (atvs vtbs vbks : list (list Z)) : list (list Z) :=
  let vbytes := be_bytes version 4 in
  let low := root_of 12 vbks ++ root_of 32 vtbs in
  let high := root_of 32 atvs ++ sha256twice vbytes in
  [vbytes; low; high; sha256twice low ++ sha256twice high] ++ tree_inputs 32 atvs ++ tree_inputs 32 vtbs.

Lemma root_of_eq n ids root : payloads_root n ids root → root_of n ids = rev root.
Proof.
  intros HR. unfold root_of. destruct (PayloadsMerkleTree_root n ids) as (root' & -> & HR'). by rewrite (payloads_root_fun _ _ _ _ HR HR').
Qed.

(** [trimLE 32] keeps a whole hash. *)
Lemma clash_full l1 l2 : clash (λ v, trimLE 32 (sha256twice v)) l1 l2 → clash sha256twice l1 l2.
Proof.
  intros (x & y & ? & ? & ? & E). exists x, y. split_and!; [done..|]. unfold trimLE, sha256twice in *.
  by rewrite !sha256_length, !drop_0 in E.
Qed.

(** C23: the Merkle root of a [PopData] is computed for all lists of ids, and
    fixes the version and the ids of lists of given lengths, unless two different
    strings among those that are hashed on the way to the two roots collide: under
    the double SHA-256, or, in the trees of VeriBlock headers, under its last 12
    bytes. *)
Theorem PopData_root_binding version1 version2 atvs1 atvs2 vtbs1 vtbs2 vbks1 vbks2 :
  0 <= version1 < 2 ^ 32 → 0 <= version2 < 2 ^ 32 →
  ids_ok 32 atvs1 → ids_ok 32 atvs2 → ids_ok 32 vtbs1 → ids_ok 32 vtbs2 → ids_ok 12 vbks1 → ids_ok 12 vbks2 →
  length atvs1 = length atvs2 → length vtbs1 = length vtbs2 → length vbks1 = length vbks2 →
  ∃ root1 root2, getMerkleRoot_ids version1 atvs1 vtbs1 vbks1 = Ok root1 ∧
    getMerkleRoot_ids version2 atvs2 vtbs2 vbks2 = Ok root2 ∧
    (root1 = root2 →
     (version1 = version2 ∧ atvs1 = atvs2 ∧ vtbs1 = vtbs2 ∧ vbks1 = vbks2) ∨
     clash sha256twice (popdata_inputs version1 atvs1 vtbs1 vbks1) (popdata_inputs version2 atvs2 vtbs2 vbks2) ∨
     clash (λ v, trimLE 12 (sha256twice v)) (tree_inputs 12 vbks1) (tree_inputs 12 vbks2)).
Proof.
  intros V1 V2 A1 A2 T1 T2 B1 B2 La Lt Lb.
  destruct (getMerkleRoot_ids_eq version1 atvs1 vtbs1 vbks1) as (ra1 & rt1 & rb1 & Ra1 & Rt1 & Rb1 & ->).
  destruct (getMerkleRoot_ids_eq version2 atvs2 vtbs2 vbks2) as (ra2 & rt2 & rb2 & Ra2 & Rt2 & Rb2 & ->).
  eexists _, _. split; [done|split; [done|]]. intros E.
  pose proof (payloads_root_length 32 _ _ ltac:(lia) A1 Ra1) as Lra1. pose proof (payloads_root_length 32 _ _ ltac:(lia) A2 Ra2) as Lra2.
  pose proof (payloads_root_length 12 _ _ ltac:(lia) B1 Rb1) as Lrb1. pose proof (payloads_root_length 12 _ _ ltac:(lia) B2 Rb2) as Lrb2.
  unfold popdata_inputs. rewrite (root_of_eq _ _ _ Ra1), (root_of_eq _ _ _ Rt1), (root_of_eq _ _ _ Rb1),
    (root_of_eq _ _ _ Ra2), (root_of_eq _ _ _ Rt2), (root_of_eq _ _ _ Rb2).
  match goal with |- _ ∨ clash sha256twice ?x ?y ∨ _ => set (X := x); set (Y := y) end.
  assert (∀ l1 l2, l1 ⊆ X → l2 ⊆ Y → clash sha256twice l1 l2 → clash sha256twice X Y) as Hmono by (intros; by eapply clash_mono).
  apply (twice_pair_binding 32) in E as [[Elow Ehigh]|Hc]; [|right; left; eapply Hmono, Hc; unfold X, Y; set_solver|apply sha256_length|apply sha256_length].
  apply (twice_pair_binding 12) in Elow as [[Eb%rev_inj Et%rev_inj]|Hc];
    [|right; left; eapply Hmono, Hc; unfold X, Y; set_solver|by rewrite length_rev|by rewrite length_rev].
  apply (twice_pair_binding 32) in Ehigh as [[Ea%rev_inj Ev]|Hc];
    [|right; left; eapply Hmono, Hc; unfold X, Y; set_solver|by rewrite length_rev|by rewrite length_rev].
  subst ra2 rt2 rb2.
  destruct (payloads_root_binding 32 _ _ _ ltac:(lia) A1 A2 La Ra1 Ra2) as [->|Hc%clash_full];
    [|right; left; eapply Hmono, Hc; unfold X, Y; set_solver].
  destruct (payloads_root_binding 32 _ _ _ ltac:(lia) T1 T2 Lt Rt1 Rt2) as [->|Hc%clash_full];
    [|right; left; eapply Hmono, Hc; unfold X, Y; set_solver].
  destruct (payloads_root_binding 12 _ _ _ ltac:(lia) B1 B2 Lb Rb1 Rb2) as [->|Hc]; [|by right; right].
  destruct (decide (be_bytes version1 4 = be_bytes version2 4)) as [Ebytes|Hne].
  - left. split_and!; [|done..]. apply (f_equal be_Z) in Ebytes. rewrite !be_Z_bytes in Ebytes.
    change (256 ^ Z.of_nat 4) with (2 ^ 32) in Ebytes. by rewrite !Z.mod_small in Ebytes.
  - right; left. exists (be_bytes version1 4), (be_bytes version2 4). split_and!; [unfold X; set_solver|unfold Y; set_solver|done|done].
Qed.

(** The Merkle root of a [PopData] does not fix the number of payloads: a
    list of odd length and the same list with its last payload twice have the
    same root. *)
Lemma PopData_root_repeat version l x vtbs vbks : Nat.odd (length (l ++ [x])) = true → l ≠ [] →
  getMerkleRoot_ids version (l ++ [x] ++ [x]) vtbs vbks = getMerkleRoot_ids version (l ++ [x]) vtbs vbks.
Proof.
  intros Hodd Hl.
  destruct (getMerkleRoot_ids_eq version (l ++ [x] ++ [x]) vtbs vbks) as (ra1 & rt1 & rb1 & Ra1 & Rt1 & Rb1 & ->).
  destruct (getMerkleRoot_ids_eq version (l ++ [x]) vtbs vbks) as (ra2 & rt2 & rb2 & Ra2 & Rt2 & Rb2 & ->).
  apply (payloads_root_repeat _ _ _ _ Hodd Hl) in Ra2.
  by rewrite (payloads_root_fun _ _ _ _ Ra1 Ra2), (payloads_root_fun _ _ _ _ Rt1 Rt2), (payloads_root_fun _ _ _ _ Rb1 Rb2).
Qed.

(** ** The estimate of the number of POP transactions *)
Fixpoint positions (i : nat) (flags : list bool) : list nat :=
  match flags with
  | [] => []
  | b :: flags => if (b : bool) then i :: positions (S i) flags else positions (S i) flags
  end.

Lemma equal_loop_path path o m size i ti li c : size = (i + length path + 2)%nat →
  let r := fold_path sha256_pair c li path in
  o ≠ r → m ≠ sha256_pair (layer_left ti o r) (layer_right ti o r) →
  equal_loop size i ti li c (path ++ [o; m]) = positions i (path_flags sha256_pair c li path).
Proof.
  revert i li c. induction path as [|s path IH]; intros i li c ->; cbn zeta; intros Ho Hm.
  - cbn [app equal_loop length fold_path path_flags positions] in *. rewrite Nat.add_0_r, layer_index_tree.
    replace (i + 2)%nat with (S i + 1)%nat by lia. rewrite layer_index_meta.
    rewrite (bool_decide_eq_false_2 (layer_right ti o c = layer_left ti o c)).
    2: { unfold layer_left, layer_right. destruct (Z.testbit ti 0); congruence. }
    rewrite bool_decide_eq_false_2; [done|]. cbn. congruence.
  - cbn [app equal_loop fold_path length path_flags positions] in *. rewrite layer_index_low by lia.
    rewrite IH; [|lia|by rewrite (layer_pair li)|by rewrite (layer_pair li)].
    rewrite (layer_pair li). replace (bool_decide (layer_right li s c = layer_left li s c)) with (bool_decide (c = s)); [done|].
    apply bool_decide_ext. unfold layer_left, layer_right. destruct (Z.testbit li 0); split; congruence.
Qed.

Lemma subtract_bit_eq acc i : (i < 32)%nat → subtract_bit (u32 acc) i = Ok (u32 (acc - 2 ^ Z.of_nat i)).
Proof.
  intros Hi. unfold subtract_bit, shift_one. destruct (Z.leb_spec 0 (Z.of_nat i)); [|lia].
  destruct (Z.leb_spec (Z.of_nat i) 31); [|lia]. cbn [andb mbind result_bind]. f_equal.
  unfold wrapU. by rewrite Zminus_mod_idemp_l.
Qed.

Lemma subtract_positions flags i acc : (i + length flags <= 32)%nat →
  foldM subtract_bit (positions i flags) (u32 acc) =
    Ok (u32 (acc - 2 ^ Z.of_nat i * missing flags)).
Proof.
  revert i acc. induction flags as [|b flags IH]; intros i acc Hi; cbn [positions missing foldM length] in *.
  - do 2 f_equal. lia.
  - assert (2 ^ Z.of_nat (S i) = 2 * 2 ^ Z.of_nat i) as Hpow by (rewrite Nat2Z.inj_succ, Z.pow_succ_r; lia).
    destruct b; [|rewrite IH by lia; do 2 f_equal; lia].
    cbn [foldM]. rewrite subtract_bit_eq by lia. cbn [mbind result_bind].
    rewrite IH by lia. do 2 f_equal. lia.
Qed.

Lemma positions_head i flags rest j : positions i flags = j :: rest → (i <= j)%nat ∧ (j = i → ∃ fs, flags = true :: fs).
Proof.
  revert i. induction flags as [|[] flags IH]; intros i E; cbn [positions] in E; [done| |].
  - injection E as <- _. split; [done|by eexists].
  - apply IH in E as [? _]. split; [lia|lia].
Qed.

Lemma positions_nil i flags : positions i flags = [] → missing flags = 0.
Proof. revert i. induction flags as [|[] flags IH]; intros i E; cbn [positions missing] in *; [done|done|]. by rewrite (IH _ E). Qed.

(** The count from the path of the last POP leaf. *)
Lemma count_last_leaf n x path ls o flags : ls = path ++ [o; zero_hash] ∨ (path = [] ∧ ls = [] ∧ n = 1) →
  0 < n < 2 ^ 31 → n = 2 ^ Z.of_nat (length path) - missing flags → length flags = length path →
  (path ≠ [] → 2 ^ (Z.of_nat (length path) - 1) < n) →
  (ls ≠ [] → equalLayerIndexes (VbkPath.mkVbkMerklePath 0 (n - 1) x ls) = positions 0 flags) →
  count_from_path (VbkPath.mkVbkMerklePath 0 (n - 1) x ls) = Ok n.
Proof.
  intros Hls Hn Hc Hf Hpow Heq. unfold count_from_path. cbn [VbkPath.layers VbkPath.index].
  destruct Hls as [->|(-> & -> & ->)]; [|done].
  destruct (path ++ [o; zero_hash]) as [|l0 ls0] eqn:Eapp; [by destruct path|]. rewrite <- Eapp in *.
  rewrite Heq by (by destruct path). rewrite length_app. cbn [length].
  assert (Z.of_nat (length path) <= 31) as H31.
  { destruct path as [|y path]; [simpl; lia|]. specialize (Hpow ltac:(done)).
    destruct (Z.le_gt_cases (Z.of_nat (length (y :: path))) 31); [done|].
    assert (2 ^ 31 <= 2 ^ (Z.of_nat (length (y :: path)) - 1)) by (apply Z.pow_le_mono_r; lia). lia. }
  replace (shift_one (u64 (Z.of_nat (length path + 2) - 2))) with (Ok (u32 (2 ^ Z.of_nat (length path)))).
  2: { rewrite (wrapU_small 64) by lia. unfold shift_one. destruct (Z.leb_spec 0 (Z.of_nat (length path + 2) - 2)); [|lia].
       destruct (Z.leb_spec (Z.of_nat (length path + 2) - 2) 31); [|lia]. cbn [andb].
       rewrite wrapU_small; [do 2 f_equal; lia|]. split; [lia|]. apply Z.pow_lt_mono_r; lia. }
  destruct (positions 0 flags) as [|[|j] rest] eqn:Epos.
  - rewrite (positions_nil _ _ Epos) in Hc. rewrite wrapU_small by lia. f_equal. lia.
  - rewrite ckS_ok by lia. cbn [mbind result_bind]. rewrite wrapU_small by lia. f_equal. lia.
  - rewrite <- Epos. cbn [mbind result_bind]. rewrite subtract_positions by lia.
    change (2 ^ Z.of_nat 0) with 1. rewrite wrapU_small by lia. f_equal. lia.
Qed.

Lemma path_flags_length {A} `{Countable A} (hash : A → A → A) c i path : length (path_flags hash c i path) = length path.
Proof. revert c i. induction path as [|s path IH]; intros c i; cbn [path_flags length]; [done|by rewrite IH]. Qed.

(** The maximum is reached by the path that is found. *)
Lemma max_pop_index_spec paths m :
  let r := foldl (λ m p, if is_pop p && (m <? VbkPath.index p) then VbkPath.index p else m) m paths in
  m <= r ∧ (∀ p, p ∈ paths → is_pop p = true → VbkPath.index p <= r) ∧
  (r = m ∨ ∃ p, p ∈ paths ∧ is_pop p = true ∧ VbkPath.index p = r).
Proof.
  revert m. induction paths as [|q paths IH]; intros m; cbn zeta; cbn [foldl].
  { split_and!; [lia|by intros p ?%elem_of_nil|by left]. }
  destruct (IH (if is_pop q && (m <? VbkPath.index q) then VbkPath.index q else m)) as (Hm & Hall & Hex).
  destruct (is_pop q) eqn:Eq; cbn [andb] in *; [destruct (Z.ltb_spec m (VbkPath.index q))|].
  all: split_and!; [lia| |].
  all: try (intros p [->|Hp]%elem_of_cons Hpop; [by (congruence || lia)|by apply Hall]).
  all: destruct Hex as [E|(p & Hp & ? & E)]; [|right; exists p; set_solver].
  - right. exists q. rewrite E. set_solver.
  - by left.
  - by left.
Qed.

Lemma estimate_of_max paths n p : 0 <= n → p ∈ paths → is_pop p = true → VbkPath.index p = n →
  (∀ q, q ∈ paths → is_pop q = true → VbkPath.index q <= n) →
  (∀ q, q ∈ paths → is_pop q = true → VbkPath.index q = n → q = p) →
  estimateNumberOfPopTxs paths = count_from_path p.
Proof.
  intros Hn Hp Hpop Hi Hmax Huniq. unfold estimateNumberOfPopTxs, max_pop_index.
  destruct (max_pop_index_spec paths (-1)) as (_ & Hall & Hex). set (r := foldl _ _ _) in *.
  assert (r = n) as ->.
  { pose proof (Hall _ Hp Hpop). destruct Hex as [->|(q & Hq & Hqp & <-)]; [lia|]. pose proof (Hmax _ Hq Hqp). lia. }
  destruct (list_find _ paths) as [[k q]|] eqn:E.
  - apply list_find_Some in E as (Hq & Hb & _). apply Is_true_true, andb_prop in Hb as [Hb ?%Z.eqb_eq].
    rewrite (Huniq q); [done|by eapply list_elem_of_lookup_2|done|done].
  - apply list_find_None in E. rewrite Forall_forall in E. destruct (E p Hp). rewrite Hpop, Hi, Z.eqb_refl. done.
Qed.

Lemma last_path_count pops normals p n pr nr x : tree_built pops p pr → tree_built normals n nr →
  pops ≠ [] → Z.of_nat (length pops) < 2 ^ 31 → Forall NoDup (layers p) → pr ≠ nr → sha256_pair pr nr ≠ zero_hash →
  pops !! (length pops - 1)%nat = Some x →
  ∃ path ls, getMerklePathLayers p (length pops - 1) = Ok path ∧ finalizePath (mkVbkMerkleTree p n) path POP = Ok ls ∧
    count_from_path (VbkPath.mkVbkMerklePath 0 (Z.of_nat (length pops) - 1) x ls) = Ok (Z.of_nat (length pops)).
Proof.
  intros Hp Hn Hne Hlen Hnd Hneq Hz Hx. destruct (built_path _ _ _ _ _ Hp Hx) as (path & Epath & Efold & _).
  destruct Hp as (Hidx & Epr & [(-> & _)|Hls]); [done|]. destruct p as [ls m]. cbn [layers hash_indices] in *.
  rewrite (getMerklePathLayers_eq _ _ _ _ _ _ _ Hls Hx) in Epath.
  destruct (last_leaf_count _ _ _ _ _ Hls Hnd Hx) as (path' & Epath' & Ecount & Epow).
  rewrite Epath in Epath'. injection Epath' as <-.
  exists path. eexists. split; [by rewrite (getMerklePathLayers_eq _ _ _ _ _ _ _ Hls Hx)|].
  rewrite (finalizePath_eq _ _ POP nr) by apply Hn. split; [done|].
  assert (Z.of_nat (length pops - 1) = Z.of_nat (length pops) - 1) as Elast by (apply lookup_lt_Some in Hx; lia).
  rewrite Elast in Ecount, Efold.
  eapply (count_last_leaf _ _ path _ nr); [|apply lookup_lt_Some in Hx; lia|exact Ecount|apply path_flags_length|exact Epow|].
  - destruct (_ && _) eqn:E; [right|by left]. apply andb_prop in E as [->%bool_decide_eq_true _].
    split_and!; [done|done|]. by rewrite Ecount.
  - intros Hls0. unfold equalLayerIndexes. cbn [VbkPath.layers VbkPath.treeIndex VbkPath.index VbkPath.subject].
    destruct (_ && _) eqn:E; [by apply andb_prop in E as [->%bool_decide_eq_true _]|].
    apply equal_loop_path; [rewrite length_app; simpl; lia|by rewrite Efold|]. rewrite Efold. by intros E0; destruct Hz.
Qed.

(** A path given by the tree is the path of a leaf. *)
Lemma vbk_path_inv pops pt nt pr q : tree_built pops pt pr →
  (∃ h, VbkMerkleTree_getMerklePath (mkVbkMerkleTree pt nt) h POP = Ok q) →
  ∃ i h path, pops !! i = Some h ∧ getMerklePathLayers pt i = Ok path ∧
    VbkPath.treeIndex q = 0 ∧ VbkPath.index q = Z.of_nat i ∧ VbkPath.subject q = h ∧
    finalizePath (mkVbkMerkleTree pt nt) path POP = Ok (VbkPath.layers q).
Proof.
  intros (Hidx & _) [h Eh]. unfold VbkMerkleTree_getMerklePath in Eh. cbn [tree_of pop_tree] in Eh. rewrite Hidx in Eh.
  destruct (index_hashes pops !! h) as [i|] eqn:Ei; [|done]. inv_ok. apply index_hashes_Some in Ei.
  by eexists _, _, _.
Qed.

(** The number of POP transactions of a VBK block is estimated exactly from
    any set of paths of its transactions that includes the last one, when the
    transactions are distinct, or two of the pairs that the tree hashes collide. *)
Lemma estimateNumberOfPopTxs_correct normals pops t pr nr paths :
  newVbkMerkleTree normals pops = Ok t → Z.of_nat (length pops) < 2 ^ 31 → NoDup pops → Forall hash32 pops →
  getMerkleRoot zero_hash (pop_tree t) = Ok pr → getMerkleRoot zero_hash (normal_tree t) = Ok nr →
  pr ≠ nr → sha256_pair pr nr ≠ zero_hash →
  Forall (λ p, ∃ h, VbkMerkleTree_getMerklePath t h POP = Ok p) paths →
  Exists (λ p, VbkPath.index p = Z.of_nat (length pops) - 1) paths →
  estimateNumberOfPopTxs paths = Ok (Z.of_nat (length pops)) ∨
  clash (pair_hash sha256_pair) (tree_pairs (layers (pop_tree t))) (tree_pairs (layers (pop_tree t))).
Proof.
  intros Et Hlen31 Hnd H32 Epr Enr Hneq Hz Hpaths Hlast.
  destruct (newMerkleTree_built pops) as (pt & pr' & Ep & Hp), (newMerkleTree_built normals) as (nt & nr' & En & Hn).
  unfold newVbkMerkleTree in Et. rewrite Ep in Et. cbn [mbind result_bind] in Et. rewrite En in Et.
  cbn [mbind result_bind] in Et. injection Et as <-. cbn [pop_tree normal_tree] in Epr, Enr.
  pose proof Hp as (Hidx & Epr' & Hcase). pose proof Hn as (_ & Enr' & _).
  rewrite Epr in Epr'. injection Epr' as <-. rewrite Enr in Enr'. injection Enr' as <-.
  pose proof (λ q Hin, vbk_path_inv pops pt nt pr q Hp (proj1 (Forall_forall _ _) Hpaths q Hin)) as Hq. cbn beta in Hq.
  apply Exists_exists in Hlast as (p & Hpin & Hpi).
  destruct (Hq p Hpin) as (i & x & path & Hx & Epath & Eti & Ei & Esub & Els).
  pose proof (lookup_lt_Some _ _ _ Hx). assert (i = length pops - 1)%nat as -> by lia.
  destruct Hcase as [(-> & _)|Hls]; [done|].
  destruct (levels_NoDup _ _ _ _ Hls Hnd) as [Hndl|?]; [left|by right].
  destruct (last_path_count pops normals pt nt pr nr x) as (path' & ls & E1 & E2 & Ecount); try done.
  { by intros ->. }
  rewrite Epath in E1. injection E1 as <-. rewrite Els in E2. injection E2 as <-.
  rewrite (estimate_of_max _ (Z.of_nat (length pops) - 1) p); [| |done|unfold is_pop; by rewrite Eti|done| |].
  - rewrite <- Ecount. f_equal. destruct p; cbn in *. congruence.
  - lia.
  - intros q (j & h & path' & Hj & _ & _ & -> & _)%Hq _. apply lookup_lt_Some in Hj. lia.
  - intros q (j & h & path' & Hj & E1 & E3 & E4 & E5 & E6)%Hq _ Eq.
    assert (j = length pops - 1)%nat as -> by lia. rewrite Hx in Hj. rewrite Epath in E1. simplify_eq.
    rewrite E6 in Els. destruct p, q; cbn in *. congruence.
Qed.
End paths.

Section popdata.
Context `{HH : Hashes} `{PP : ProgPow} `{CP : CtParams}.

Definition PopData_getMerkleRoot (p : PopData) : result (list Z) :=
  atv_ids ← mapM ATV_getId (atvs p);
  getMerkleRoot_ids (pop_version p) atv_ids (map VTB_getId (vtbs p))
    (map (λ b, trimLE 12 (Vbk.calculateHash b)) (context p)).
End popdata.

(** ** Concrete trees *)
Module Example_merkle.
#[local] Existing Instance toy_hashes.
Definition leaf (n : Z) : list Z := replicate 32 n.
Definition pops := [leaf 1; leaf 2; leaf 3].
Definition normals := [leaf 9].
Definition tree : VbkMerkleTree :=
  match newVbkMerkleTree normals pops with
  | Ok t => t | _ => mkVbkMerkleTree (mkMerkleTree [] ∅) (mkMerkleTree [] ∅) end.
Definition path : VbkPath.VbkMerklePath :=
  match VbkMerkleTree_getMerklePath tree (leaf 3) POP with
  | Ok p => p | _ => VbkPath.mkVbkMerklePath 0 0 [] [] end.

Lemma VbkMerkleTree_path_root_witness : leaf 3 ∈ leaves_of normals pops POP ∧
  ∃ t p root, newVbkMerkleTree normals pops = Ok t ∧ VbkMerkleTree_getMerklePath t (leaf 3) POP = Ok p ∧
    VbkMerkleTree_getMerkleRoot t = Ok root ∧ VbkPath.subject p = leaf 3 ∧
    VbkMerklePath_calculateMerkleRoot p = trim VBK_MERKLE_ROOT_HASH_SIZE root.
Proof.
  assert (leaf 3 ∈ leaves_of normals pops POP) as Hin by (apply (bool_decide_unpack _); vm_compute; exact I).
  split; [exact Hin|]. apply (VbkMerkleTree_path_root normals pops POP (leaf 3)); [done|done|exact Hin].
Defined.

Lemma BtcMerkleTree_path_root_witness : leaf 2 ∈ pops ∧
  ∃ t p root, newMerkleTree sha256twice_pair zero_hash pops = Ok t ∧
    BtcMerkleTree_getMerklePath t (leaf 2) = Ok p ∧ Payloads.subject p = leaf 2 ∧
    BtcMerkleTree_getMerkleRoot t = Ok root ∧ rev (MerklePath_calculateMerkleRoot p) = root.
Proof.
  assert (leaf 2 ∈ pops) as Hin by (apply (bool_decide_unpack _); vm_compute; exact I).
  split; [exact Hin|]. apply (BtcMerkleTree_path_root pops (leaf 2)); [done|exact Hin].
Defined.

Lemma VbkMerklePath_binding_witness : VbkPath.layers path ≠ [] ∧
  (path = path ∨ clash sha256 (path_inputs path) (path_inputs path) ∨
    ∃ u v, last (path_inputs path) = Some u ∧ last (path_inputs path) = Some v ∧ u ≠ v ∧
      trim VBK_MERKLE_ROOT_HASH_SIZE (sha256 u) = trim VBK_MERKLE_ROOT_HASH_SIZE (sha256 v)).
Proof.
  split; [done|].
  apply (VbkMerklePath_binding path path); try reflexivity; try (apply (bool_decide_unpack _); vm_compute; exact I).
Defined.

Lemma PopData_root_binding_witness : ∃ root1 root2, getMerkleRoot_ids 1 pops [] [] = Ok root1 ∧
  getMerkleRoot_ids 1 [leaf 1; leaf 2; leaf 4] [] [] = Ok root2 ∧
  (root1 = root2 → (1 = 1 ∧ pops = [leaf 1; leaf 2; leaf 4] ∧ @nil (list Z) = [] ∧ @nil (list Z) = []) ∨
     clash sha256twice (popdata_inputs 1 pops [] []) (popdata_inputs 1 [leaf 1; leaf 2; leaf 4] [] []) ∨
     clash (λ v, trimLE 12 (sha256twice v)) (tree_inputs 12 []) (tree_inputs 12 [])).
Proof.
  apply (PopData_root_binding 1 1 pops [leaf 1; leaf 2; leaf 4] [] [] [] []); try done;
    apply (bool_decide_unpack _); vm_compute; exact I.
Defined.

Lemma PopData_root_repeat_witness : Nat.odd (length ([leaf 1; leaf 2] ++ [leaf 3])) = true ∧
  getMerkleRoot_ids 1 ([leaf 1; leaf 2] ++ [leaf 3] ++ [leaf 3]) [] [] = getMerkleRoot_ids 1 ([leaf 1; leaf 2] ++ [leaf 3]) [] [].
Proof. split; [done|]. by apply (PopData_root_repeat 1 [leaf 1; leaf 2] (leaf 3) [] []). Defined.

Lemma estimateNumberOfPopTxs_correct_witness : NoDup pops ∧
  (estimateNumberOfPopTxs [path] = Ok 3 ∨
   clash (pair_hash sha256_pair) (tree_pairs (layers (pop_tree tree))) (tree_pairs (layers (pop_tree tree)))).
Proof.
  assert (NoDup pops) as Hnd by (apply (bool_decide_unpack _); vm_compute; exact I).
  split; [exact Hnd|].
  apply (estimateNumberOfPopTxs_correct normals pops tree (leaf 0) (leaf 9) [path]).
  - by vm_compute.
  - done.
  - exact Hnd.
  - apply (bool_decide_unpack _); vm_compute; exact I.
  - by vm_compute.
  - by vm_compute.
  - done.
  - done.
  - constructor; [|constructor]. exists (leaf 3). by vm_compute.
  - left. by vm_compute.
Defined.

Example estimate_is_3 : estimateNumberOfPopTxs [path] = Ok 3.
Proof. by vm_compute. Qed.
End Example_merkle.
