(* ===== verification/PopSearch.v ===== *)
(** * The publication data in a Bitcoin transaction
      ([containsSplit], [checkBitcoinTransactionForPoPData] of
      [stateless_validation.cpp])

    The data can be in the transaction in one piece, or in chunks that a
    descriptor after the bytes [92 7a 59] lists.  The theorem at the end says
    which transactions the check accepts. *)
From Stdlib Require Import String ZifyNat.
From S2P Require Import Prelude Serde Base58 Address Blocks Payloads Merkle.

#[local] Ltac Zify.zify_post_hook ::= Z.to_euclidean_division_equations.

(** ** Bits *)
Definition VBK_PUBLICATIONDATA_SIZE : Z := 80.

(** [std::bitset<8>]: the lowest bit first. *)
Definition bitset8 (b : Z) : list bool := map (Z.testbit b) [0; 1; 2; 3; 4; 5; 6; 7].

(** [chunkDescriptor.push_back(bit)], with [chunkDescriptorLength]. *)
Definition push_bit (acc : list bool * Z) (bit : bool) : list bool * Z :=
  let chunkDescriptor := acc.1 ++ [bit] in
  (chunkDescriptor, if bit then u32 (Z.of_nat (length chunkDescriptor)) else acc.2).
Definition read_bits (bytes : list Z) : list bool * Z :=
  foldl push_bit ([], 0) (concat (map bitset8 bytes)).

Definition bit_at (bits : list bool) (j : Z) : result bool := at_index bits (Z.to_nat j).
Definition int_step (bits : list bool) (fromIndex value j : Z) : result Z :=
  b ← bit_at bits j;
  if (b : bool) then cki32 (value + 2 ^ (j - fromIndex)) else Ok value.
Definition getIntFromBits (bits : list bool) (fromIndex toIndex : Z) : result Z :=
  foldM (int_step bits fromIndex) (seqZ fromIndex (toIndex - fromIndex)) 0.

(** ** The first byte of the descriptor *)
Record ChunkSizes := mkChunkSizes { chunks : Z; offsetLength : Z; sectionLength : Z }.
Definition size_step (descriptor : Z) (c : ChunkSizes) (i : Z) : ChunkSizes :=
  if negb (Z.land (Z.shiftr descriptor i) 1 =? 0) then
    if i <? 2 then mkChunkSizes (chunks c) (offsetLength c) (sectionLength c + 2 ^ i)
    else if i <? 4 then mkChunkSizes (chunks c) (offsetLength c + 2 ^ i) (sectionLength c)
    else mkChunkSizes (chunks c + 2 ^ (i - 4)) (offsetLength c) (sectionLength c)
  else c.
Definition readSizes (descriptor : Z) : ChunkSizes :=
  foldl (size_step descriptor) (mkChunkSizes 0 4 4) (seqZ 0 8).

(** ** The chunks

    [setPosition] accepts every position; [remaining] is then a difference of
    [size_t] that wraps around, and [readSlice] succeeds with a slice that is
    not in the buffer. *)
Definition remaining_size (s : ReadStream) : Z :=
  u64 (Z.of_nat (length (m_Buffer s)) - Z.of_nat (m_Pos s)).
Definition setPosition (pos : nat) (s : ReadStream) : ReadStream := mkStream (m_Buffer s) pos.
Definition readSlice_at (size : Z) : reader (list Z) := λ s,
  if size <=? remaining_size s then
    if Z.of_nat (m_Pos s) + size <=? Z.of_nat (length (m_Buffer s)) then
      Ok (take (Z.to_nat size) (remainingBytes s), advance (Z.to_nat size) s)
    else Undef "slice out of the buffer"
  else invalid "readslice-underflow".

Section split.
Context (pop_data : list Z).

Section chunks.
Context (c : ChunkSizes) (waste : Z) (chunkDescriptor : list bool) (chunkDescriptorLength : Z).

(** One iteration, for the chunk [i]: the bytes and the new stream. *)
Definition read_chunk (i totalBytesRead : Z) (s : ReadStream) : result (list Z * Z * ReadStream) :=
  let chunkOffset := u32 (waste + u32 (i * u32 (offsetLength c + sectionLength c))) in
  let limit := Z.min chunkDescriptorLength (u32 (chunkOffset + offsetLength c)) in
  sectionOffsetValue ← getIntFromBits chunkDescriptor chunkOffset limit;
  sectionLengthValue ←
    (if i =? 0 then Ok (u32 (u32 (Z.of_nat (length pop_data)) - totalBytesRead))
     else v ← getIntFromBits chunkDescriptor (u32 (chunkOffset - sectionLength c)) chunkOffset; Ok (u32 v));
  let s := setPosition (Z.to_nat (u64 (Z.of_nat (m_Pos s) + sectionOffsetValue))) s in
  r ← or_invalid_at (readSlice_at sectionLengthValue s) "bad-section-length" i;
  Ok (r.1, i32 (u32 (totalBytesRead + sectionLengthValue)), r.2).

(** [for (int i = chunks - 1; i >= 0; --i)] *)
Fixpoint chunk_loop (n : nat) (totalBytesRead : Z) (extracted : list Z) (s : ReadStream) : result (list Z) :=
  match n with
  | O => Ok extracted
  | S n =>
    '(bytes, totalBytesRead, s) ← read_chunk (Z.of_nat n) totalBytesRead s;
    chunk_loop n totalBytesRead (extracted ++ bytes) s
  end.
End chunks.

(** The descriptor at the position of [s]: whether its chunks are the data. *)
Definition try_descriptor (s : ReadStream) : result bool :=
  '(descriptor, s) ← readBE uint8_t 1 s ?! "bad-descriptor";
  let c := readSizes descriptor in
  let chunkDescriptorBitLength :=
    u32 (u32 (chunks c * offsetLength c) + u32 (sectionLength c * u32 (chunks c - 1))) in
  let chunkDescriptorBytesLength := u32 (chunkDescriptorBitLength + 8 - chunkDescriptorBitLength mod 8) / 8 in
  let waste := u32 (u32 (chunkDescriptorBytesLength * 8) - chunkDescriptorBitLength) in
  '(out, s) ← readSlice (Z.to_nat chunkDescriptorBytesLength) s ?! "bad-descriptor-bytes";
  let '(chunkDescriptor, chunkDescriptorLength) := read_bits (rev out) in
  extracted ← chunk_loop c waste chunkDescriptor chunkDescriptorLength
                (Z.to_nat (i32 (u32 (chunks c - 1)) + 1)) 0 [] (setPosition 0 s);
  Ok (bool_decide (pop_data = extracted)).

Definition compare_magic (i magic : Z) (s : ReadStream) : result (bool * ReadStream) :=
  '(byte, s) ← or_invalid_at (readBE uint8_t 1 s) "bad-magic" i;
  Ok (bool_decide (byte = magic), s).

Fixpoint split_loop (fuel : nat) (s : ReadStream) : result bool :=
  if (5 <? remaining s)%nat then
    match fuel with
    | O => OutOfFuel
    | S fuel =>
      '(b, s) ← compare_magic 0 0x92 s;
      if negb b then split_loop fuel s else
      '(b, s) ← compare_magic 1 0x7a s;
      if negb b then split_loop fuel s else
      '(b, s) ← compare_magic 2 0x59 s;
      if negb b then split_loop fuel s else
      found ← try_descriptor s;
      if (found : bool) then Ok true else split_loop fuel s
    end
  else Ok false.

Definition containsSplit (btcTx_data : list Z) : result bool :=
  split_loop (length btcTx_data) (newStream btcTx_data).
End split.

(** ** The search for the data in one piece

    [j] is declared by the outer loop: a mismatch at [j] does not reset it. *)
Fixpoint match_from (fuel : nat) (tx data : list Z) (i j : nat) : result (bool * nat) :=
  match fuel with
  | O => Ok (true, j)
  | S fuel =>
    x ← at_index tx (i + j); y ← at_index data j;
    if bool_decide (x ≠ y) then Ok (false, j) else match_from fuel tx data i (S j)
  end.
Fixpoint find_loop (fuel : nat) (tx data : list Z) (i j : nat) : result bool :=
  match fuel with
  | O => Ok false
  | S fuel =>
    '(found, j) ← match_from (length data - j) tx data i j;
    if (found : bool) then Ok true else find_loop fuel tx data (S i) j
  end.
Definition findData (tx data : list Z) : result bool :=
  if (length data <=? length tx)%nat then find_loop (length tx - length data + 1) tx data 0 0 else Ok false.

Section check.
Context `{Hashes} `{ProgPow}.

Definition checkBitcoinTransactionForPoPData (t : VbkPopTx) : result unit :=
  stream ← written (Vbk.toRaw (publishedBlock t) +++ getPopBytes (pop_address t));
  if negb (Z.of_nat (length stream) =? VBK_PUBLICATIONDATA_SIZE) then invalid "bad-pubdata"
  else
    found ← findData (tx (bitcoinTransaction t)) stream;
    if (found : bool) then Ok tt
    else
      found ← containsSplit stream (tx (bitcoinTransaction t)) ?! "invalid-vbk-pop-tx";
      if (found : bool) then Ok tt else invalid "invalid-vbk-pop-tx".
End check.

(** ** The search in one piece finds a subsequence *)
Section search.
Context (tx data : list Z).

Lemma sublist_head (x : Z) k l : x :: k `sublist_of` x :: l ↔ k `sublist_of` l.
Proof.
  split; [|by apply sublist_skip].
  intros Hs. inversion Hs as [|? ? ? Hk|? ? ? Hk]; subst; [done|].
  trans (x :: k); [by apply sublist_cons|done].
Qed.

Lemma sublist_mismatch (x y : Z) k l : x ≠ y → x :: k `sublist_of` y :: l ↔ x :: k `sublist_of` l.
Proof. intros Hn. split; [|by apply sublist_cons]. intros Hs. by inversion Hs. Qed.

Lemma drop_at (l : list Z) i x : l !! i = Some x → drop i l = x :: drop (S i) l.
Proof. intros Hx. by apply drop_S. Qed.

Lemma match_from_spec i n j : (j + n)%nat = length data → (i + length data <= length tx)%nat →
  ∃ b j', match_from n tx data i j = Ok (b, j') ∧ (j <= j' <= length data)%nat ∧
    (drop j data `sublist_of` drop (i + j) tx ↔ drop j' data `sublist_of` drop (i + j') tx) ∧
    (if b then j' = length data
     else (j' < length data)%nat ∧
       (drop j' data `sublist_of` drop (i + j') tx ↔ drop j' data `sublist_of` drop (S i + j') tx)).
Proof.
  revert j. induction n as [|n IH]; intros j Hj Hi; cbn [match_from].
  { exists true, j. split; [done|]. split; [lia|]. split; [done|lia]. }
  destruct (lookup_lt_is_Some_2 tx (i + j)) as [x Hx]; [lia|].
  destruct (lookup_lt_is_Some_2 data j) as [y Hy]; [lia|].
  unfold at_index. rewrite Hx, Hy. cbn [mbind result_bind].
  pose proof (drop_at _ _ _ Hx) as Ex. pose proof (drop_at _ _ _ Hy) as Ey.
  case_bool_decide as Hxy.
  - exists false, j. split; [done|]. split; [lia|]. split; [done|]. split; [lia|].
    rewrite Ex, Ey. replace (S i + j)%nat with (S (i + j)) by lia. by apply sublist_mismatch.
  - subst y. destruct (IH (S j)) as (b & j' & E & Hr & Hs & Hb); [lia|done|].
    exists b, j'. split; [exact E|]. split; [lia|]. split; [|exact Hb]. rewrite <- Hs, Ex, Ey.
    replace (i + S j)%nat with (S (i + j)) by lia. apply sublist_head.
Qed.

Lemma find_loop_spec n i j : data ≠ [] → (j < length data)%nat → (i + length data + n = length tx + 1)%nat →
  ∃ b, find_loop n tx data i j = Ok b ∧ (b = true ↔ drop j data `sublist_of` drop (i + j) tx).
Proof.
  intros Hd. revert i j. induction n as [|n IH]; intros i j Hj Hn; cbn [find_loop].
  { exists false. split; [done|]. split; [done|]. intros Hs%sublist_length. rewrite !length_drop in Hs. lia. }
  destruct (match_from_spec i (length data - j) j) as (b & j' & E & Hr & Hs & Hb); [lia|lia|].
  rewrite E. cbn [mbind result_bind]. destruct b.
  - exists true. split; [done|]. split; [|done]. intros _. apply Hs. subst j'. rewrite drop_ge by lia. apply sublist_nil_l.
  - destruct Hb as [Hlt Hb]. destruct (IH (S i) j') as (b & E' & Hb'); [done|lia|].
    exists b. split; [exact E'|]. by rewrite Hb', <- Hb, <- Hs.
Qed.

Lemma findData_spec : data ≠ [] → ∃ b, findData tx data = Ok b ∧ (b = true ↔ data `sublist_of` tx).
Proof.
  intros Hd. unfold findData. destruct (Nat.leb_spec (length data) (length tx)) as [Hl|Hl].
  - assert (0 < length data)%nat as H0 by (destruct data; [done|cbn; lia]).
    destruct (find_loop_spec (length tx - length data + 1) 0 0 Hd H0) as (b & E & Hb); [lia|].
    exists b. split; [exact E|]. exact Hb.
  - exists false. split; [done|]. split; [done|]. intros Hs%sublist_length. lia.
Qed.
End search.

(** ** The chunks are a subsequence *)
Lemma int_steps_range bits from l acc v : Forall (λ j, from <= j) l → 0 <= acc < 2 ^ 31 →
  foldM (int_step bits from) l acc = Ok v → 0 <= v < 2 ^ 31.
Proof.
  intros Hl. revert acc. induction Hl as [|j l Hj Hl IH]; intros acc Hacc; cbn [foldM]; [by intros [= <-]|].
  intros (acc' & Hs & Hf)%bind_Ok. apply (IH acc'); [|done].
  unfold int_step in Hs. apply bind_Ok in Hs as (b & _ & Hs). destruct b; [|by injection Hs as <-].
  assert (0 < 2 ^ (j - from)) by (apply Z.pow_pos_nonneg; lia).
  unfold ckS in Hs. destruct (_ && _) eqn:E; [|done]. injection Hs as <-. lia.
Qed.

Lemma getIntFromBits_range bits from to v : getIntFromBits bits from to = Ok v → 0 <= v < 2 ^ 31.
Proof.
  apply int_steps_range; [|lia]. apply Forall_forall. intros j Hj%elem_of_seqZ. lia.
Qed.

Lemma readSlice_at_inv size s r : 0 <= size →
  readSlice_at size s = Ok r → r.1 = take (Z.to_nat size) (drop (m_Pos s) (m_Buffer s)) ∧
    r.2 = advance (Z.to_nat size) s ∧ (m_Pos s + Z.to_nat size <= length (m_Buffer s))%nat.
Proof.
  intros Hs. unfold readSlice_at. destruct (_ <=? _); [|done].
  destruct (Z.leb_spec (Z.of_nat (m_Pos s) + size) (Z.of_nat (length (m_Buffer s)))); [|done].
  intros [= <-]. split; [done|]. split; [done|lia].
Qed.

Section sound.
Context (pop_data tx : list Z) (Htx : Z.of_nat (length tx) < 2 ^ 63).

Lemma read_chunk_inv c waste cd cl i t s r : m_Buffer s = tx → (m_Pos s <= length tx)%nat →
  read_chunk pop_data c waste cd cl i t s = Ok r →
  m_Buffer r.2 = tx ∧ (m_Pos r.2 <= length tx)%nat ∧
  (∀ e, e `sublist_of` take (m_Pos s) tx → e ++ r.1.1 `sublist_of` take (m_Pos r.2) tx).
Proof.
  intros Hb Hp Hr. unfold read_chunk in Hr. apply bind_Ok in Hr as (off & Ho%getIntFromBits_range & Hr).
  apply bind_Ok in Hr as (sz & Hsz & Hr). apply bind_Ok in Hr as ([bytes s'] & Hr & E). injection E as <-. cbn [fst snd].
  assert (0 <= sz) as Hsz0.
  { destruct (i =? 0); [injection Hsz as <-|apply bind_Ok in Hsz as (v & _ & [= <-])]; apply wrapU_range; lia. }
  unfold or_invalid_at in Hr. destruct (readSlice_at sz _) as [r| | | | |] eqn:E; [|done..]. injection Hr as ->.
  apply readSlice_at_inv in E as (E1 & E2 & Hle); cbn [m_Buffer m_Pos setPosition] in *; [|done].
  cbn [fst snd] in E1, E2. rewrite Hb in E1, Hle. rewrite u64_small in E1, E2, Hle by lia.
  subst bytes s'. cbn [advance m_Buffer m_Pos setPosition].
  split; [done|]. split; [lia|]. intros e He.
  set (q := Z.to_nat (Z.of_nat (m_Pos s) + off)) in *.
  rewrite <- (take_drop q (take (q + Z.to_nat sz) tx)), take_take, Nat.min_l by lia.
  apply sublist_app; [|by rewrite take_drop_commute].
  trans (take (m_Pos s) tx); [done|]. rewrite <- (take_drop (m_Pos s) (take q tx)), take_take, Nat.min_l by lia.
  by apply sublist_inserts_r.
Qed.

Lemma chunk_loop_sublist c waste cd cl n t e s r : m_Buffer s = tx → (m_Pos s <= length tx)%nat →
  e `sublist_of` take (m_Pos s) tx → chunk_loop pop_data c waste cd cl n t e s = Ok r → r `sublist_of` tx.
Proof.
  revert t e s. induction n as [|n IH]; intros t e s Hb Hp He; cbn [chunk_loop].
  { intros [= <-]. trans (take (m_Pos s) tx); [done|]. apply sublist_take. }
  intros ([[bytes t'] s'] & Hr & Hl)%bind_Ok. apply read_chunk_inv in Hr as (Hb' & Hp' & He'); [|done..].
  cbn [fst snd] in *. by apply (IH t' (e ++ bytes) s'); auto.
Qed.

Lemma readSlice_pos n s v s' : readSlice n s = Ok (v, s') → m_Buffer s' = m_Buffer s.
Proof. unfold readSlice. destruct (hasMore n s); [|done]. by intros [= <- <-]. Qed.

Lemma try_descriptor_sublist s : m_Buffer s = tx → try_descriptor pop_data s = Ok true → pop_data `sublist_of` tx.
Proof.
  intros Hb. unfold try_descriptor. intros ([d s1] & H1 & Hr)%bind_Ok.
  unfold readBE, or_invalid in H1. destruct (hasMore 1 s); [|done]. injection H1 as <- <-.
  apply bind_Ok in Hr as ([out s2] & H2 & Hr).
  destruct (readSlice _ _) as [r2| | | | |] eqn:E2 in H2; [|done..]. injection H2 as ->. apply readSlice_pos in E2.
  destruct (read_bits (rev out)) as [cd cl]. apply bind_Ok in Hr as (e & Hc & He). injection He as He%bool_decide_eq_true.
  subst e. eapply chunk_loop_sublist; [| | |exact Hc]; cbn [setPosition m_Buffer m_Pos]; [by rewrite E2|lia|].
  apply sublist_nil_l.
Qed.

Lemma compare_magic_buffer i magic s b s' : compare_magic i magic s = Ok (b, s') → m_Buffer s' = m_Buffer s.
Proof. unfold compare_magic, readBE. destruct (hasMore 1 s); [|done]. by intros [= <- <-]. Qed.

Lemma split_loop_sublist n s : m_Buffer s = tx → split_loop pop_data n s = Ok true → pop_data `sublist_of` tx.
Proof.
  revert s. induction n as [|n IH]; intros s Hb; cbn [split_loop]; (destruct (5 <? remaining s)%nat; [|done]); [done|].
  do 3 (let b := fresh "b" in let s' := fresh "s" in let E := fresh in
    intros ([b s'] & E%compare_magic_buffer & Hr)%bind_Ok; revert Hr; destruct b;
    cbn [negb]; [|apply IH; congruence]).
  intros (found & Hf & Hr)%bind_Ok. destruct found; [|revert Hr; apply IH; congruence].
  eapply try_descriptor_sublist; [|exact Hf]. congruence.
Qed.
End sound.

Lemma containsSplit_sublist pop_data tx : Z.of_nat (length tx) < 2 ^ 63 →
  containsSplit pop_data tx = Ok true → pop_data `sublist_of` tx.
Proof. intros Htx. unfold containsSplit. by apply split_loop_sublist. Qed.

(** ** The outcomes of [containsSplit]

    Its loops end, it reads every bit of the descriptor inside the vector and
    its integers do not overflow; the only step that can go wrong is a slice
    that ends behind the buffer. *)
Definition overread : string := "slice out of the buffer".
Definition split_outcome {A} (m : result A) : Prop :=
  match m with Ok _ | Invalid _ => True | Undef w => w = overread | _ => False end.

Lemma outcome_bind {A B} (m : result A) (f : A → result B) :
  split_outcome m → (∀ a, m = Ok a → split_outcome (f a)) → split_outcome (a ← m; f a).
Proof. destruct m; simpl; naive_solver. Qed.
Lemma outcome_invalid {A} (m : result A) r : split_outcome m → split_outcome (m ?! r).
Proof. by destruct m. Qed.
Lemma outcome_invalid_at {A} (m : result A) r i : split_outcome m → split_outcome (or_invalid_at m r i).
Proof. by destruct m. Qed.

Lemma int_step_eq bits from acc j b : bits !! Z.to_nat j = Some b →
  int_step bits from acc j = if (b : bool) then cki32 (acc + 2 ^ (j - from)) else Ok acc.
Proof. intros E. unfold int_step, bit_at, at_index. by rewrite E. Qed.

Lemma int_steps_ok bits from n k acc : 0 <= from → 0 <= k → k + Z.of_nat n <= 31 →
  from + k + Z.of_nat n <= Z.of_nat (length bits) → 0 <= acc < 2 ^ k →
  ∃ v, foldM (int_step bits from) (seqZ (from + k) (Z.of_nat n)) acc = Ok v.
Proof.
  intros Hf. revert k acc. induction n as [|n IH]; intros k acc Hk Hn Hl Hacc; [by eexists|].
  rewrite seqZ_cons by lia. cbn [foldM].
  destruct (lookup_lt_is_Some_2 bits (Z.to_nat (from + k))) as [b Eb]; [lia|]. rewrite (int_step_eq _ _ _ _ _ Eb).
  assert (2 ^ (k + 1) = 2 * 2 ^ k) as E by (rewrite Z.pow_add_r by lia; lia).
  replace (Z.succ (from + k)) with (from + (k + 1)) by lia. replace (Z.pred (Z.of_nat (S n))) with (Z.of_nat n) by lia.
  replace (from + k - from) with k by lia. destruct b; cbn [mbind result_bind].
  - assert (2 ^ (k + 1) <= 2 ^ 31) by (apply Z.pow_le_mono_r; lia). rewrite ckS_ok by lia. cbn [mbind result_bind].
    apply IH; lia.
  - apply IH; lia.
Qed.

Lemma getIntFromBits_ok bits from to : 0 <= from → to <= Z.of_nat (length bits) → to - from <= 31 →
  ∃ v, getIntFromBits bits from to = Ok v.
Proof.
  intros Hf Ht Hd. unfold getIntFromBits. destruct (Z.le_gt_cases to from).
  - rewrite (seqZ_nil from) by lia. by eexists.
  - destruct (int_steps_ok bits from (Z.to_nat (to - from)) 0 0) as [v E]; [lia..|].
    rewrite Z.add_0_r, Z2Nat.id in E by lia. by exists v.
Qed.

Lemma push_bits l acc : Z.of_nat (length acc.1 + length l) < 2 ^ 32 → 0 <= acc.2 <= Z.of_nat (length acc.1) →
  length (foldl push_bit acc l).1 = (length acc.1 + length l)%nat ∧
  0 <= (foldl push_bit acc l).2 <= Z.of_nat (length acc.1 + length l).
Proof.
  revert acc. induction l as [|b l IH]; intros acc Hl Hacc; cbn [foldl length]; [lia|]. cbn [length] in Hl.
  destruct (IH (push_bit acc b)) as [E1 E2]; unfold push_bit in *; cbn [fst snd] in *; rewrite length_app in *;
    cbn [length] in *.
  - lia.
  - destruct b; [rewrite wrapU_small; lia|lia].
  - split; [rewrite E1; lia|]. replace (length acc.1 + S (length l))%nat with (length acc.1 + 1 + length l)%nat by lia. done.
Qed.

Lemma read_bits_length bytes : Z.of_nat (length bytes) < 2 ^ 28 →
  length (read_bits bytes).1 = (8 * length bytes)%nat ∧ 0 <= (read_bits bytes).2 <= 8 * Z.of_nat (length bytes).
Proof.
  intros Hl. unfold read_bits. assert (length (concat (map bitset8 bytes)) = 8 * length bytes)%nat as E.
  { clear Hl. induction bytes as [|b bytes IH]; [done|]. cbn [map concat length]. rewrite length_app, IH. unfold bitset8. rewrite length_map. cbn. lia. }
  pose proof (push_bits (concat (map bitset8 bytes)) ([], 0)) as HP. cbn [fst snd length] in HP. rewrite E in HP.
  destruct HP as [E1 E2]; lia.
Qed.

Lemma readSizes_range d : byte_ok d →
  0 <= chunks (readSizes d) <= 15 ∧ 4 <= offsetLength (readSizes d) <= 16 ∧ 4 <= sectionLength (readSizes d) <= 7.
Proof.
  intros Hd. assert (Forall (λ d, 0 <= chunks (readSizes d) <= 15 ∧
    4 <= offsetLength (readSizes d) <= 16 ∧ 4 <= sectionLength (readSizes d) <= 7) (seqZ 0 256)) as HF.
  { apply (bool_decide_unpack _). vm_compute. done. }
  rewrite Forall_forall in HF. apply (HF d). apply elem_of_seqZ. unfold byte_ok in Hd. lia.
Qed.

Lemma readSlice_at_outcome size s : split_outcome (readSlice_at size s).
Proof. unfold readSlice_at. destruct (_ <=? _); [destruct (_ <=? _)|]; done. Qed.

Section outcomes.
Context (pop_data : list Z).

(** The chunks of a descriptor of [8 * L] bits, [waste] of them unused. *)
Section chunks.
Context (c : ChunkSizes) (waste : Z) (cd : list bool) (cl : Z).
Context (Hc : 1 <= chunks c <= 15) (Ho : 4 <= offsetLength c <= 16) (Hs : 4 <= sectionLength c <= 7).
Context (Hw : 1 <= waste <= 8) (Hcl : 0 <= cl <= Z.of_nat (length cd)).
Context (Hcd : Z.of_nat (length cd) = waste + chunks c * offsetLength c + sectionLength c * (chunks c - 1)).

Lemma read_chunk_outcome i t s : 0 <= i < chunks c → split_outcome (read_chunk pop_data c waste cd cl i t s).
Proof.
  intros Hi. unfold read_chunk.
  assert (0 <= i * (offsetLength c + sectionLength c) <= (chunks c - 1) * (offsetLength c + sectionLength c)) as Hm by nia.
  assert ((chunks c - 1) * (offsetLength c + sectionLength c) <= 14 * 23) as Hm2 by nia.
  change (u32 (offsetLength c + sectionLength c)) with (wrapU 32 (offsetLength c + sectionLength c)).
  rewrite (wrapU_small 32 (offsetLength c + sectionLength c)) by lia.
  rewrite (wrapU_small 32 (i * _)) by lia. rewrite (wrapU_small 32 (waste + _)) by lia.
  set (off := waste + i * (offsetLength c + sectionLength c)) in *. rewrite (wrapU_small 32 (off + _)) by lia.
  destruct (getIntFromBits_ok cd off (Z.min cl (off + offsetLength c))) as [v ->]; [lia..|]. cbn [mbind result_bind].
  apply outcome_bind; [|intros sz _; apply outcome_bind; [apply outcome_invalid_at, readSlice_at_outcome|done]].
  destruct (Z.eqb_spec i 0) as [|Hn]; [done|].
  assert (offsetLength c + sectionLength c <= i * (offsetLength c + sectionLength c)) by nia.
  assert (off + offsetLength c <= Z.of_nat (length cd)) by nia. rewrite (wrapU_small 32 (off - _)) by lia.
  destruct (getIntFromBits_ok cd (off - sectionLength c) off) as [u ->]; [lia..|]. done.
Qed.

Lemma chunk_loop_outcome n t e s : Z.of_nat n <= chunks c → split_outcome (chunk_loop pop_data c waste cd cl n t e s).
Proof.
  revert t e s. induction n as [|n IH]; intros t e s Hn; cbn [chunk_loop]; [done|].
  apply outcome_bind; [apply read_chunk_outcome; lia|]. intros [[bytes t'] s'] _. apply IH. lia.
Qed.
End chunks.

(** The sizes that follow from the first byte, when there are chunks. *)
Lemma descriptor_sizes c : 1 <= chunks c <= 15 → 4 <= offsetLength c <= 16 → 4 <= sectionLength c <= 7 →
  let B := u32 (u32 (chunks c * offsetLength c) + u32 (sectionLength c * u32 (chunks c - 1))) in
  let L := u32 (B + 8 - B mod 8) / 8 in
  let waste := u32 (u32 (L * 8) - B) in
  1 <= waste <= 8 ∧ 0 <= L < 2 ^ 28 ∧ 8 * L = waste + chunks c * offsetLength c + sectionLength c * (chunks c - 1) ∧
  i32 (u32 (chunks c - 1)) + 1 = chunks c.
Proof.
  intros Hc Ho Hs. cbv zeta.
  assert (0 <= chunks c * offsetLength c <= 15 * 16) by nia.
  assert (0 <= sectionLength c * (chunks c - 1) <= 7 * 14) by nia.
  rewrite (wrapU_small 32 (chunks c - 1)) by lia. rewrite (wrapS_small 32) by lia.
  rewrite (wrapU_small 32 (sectionLength c * _)), (wrapU_small 32 (chunks c * _)) by lia.
  rewrite (wrapU_small 32 (_ + sectionLength c * _)) by lia.
  set (B := chunks c * offsetLength c + sectionLength c * (chunks c - 1)).
  assert (0 <= B <= 338) as HB by (unfold B; lia). rewrite <- Z.add_assoc. fold B. clearbody B.
  rewrite (wrapU_small 32 (B + 8 - _)) by lia.
  assert ((B + 8 - B mod 8) / 8 * 8 = B + 8 - B mod 8) as E by lia. rewrite E.
  rewrite (wrapU_small 32 (B + 8 - _)), (wrapU_small 32 (B + 8 - _ - B)) by lia. lia.
Qed.

Lemma no_chunks c waste cd cl n t e s : chunks c = 0 → n = Z.to_nat (i32 (u32 (chunks c - 1)) + 1) →
  chunk_loop pop_data c waste cd cl n t e s = Ok e.
Proof. intros E ->. rewrite E. assert (Z.to_nat (i32 (u32 (0 - 1)) + 1) = 0%nat) as -> by (vm_compute; done). done. Qed.

Lemma try_descriptor_outcome s : stream_ok s → split_outcome (try_descriptor pop_data s).
Proof.
  intros Hok. unfold try_descriptor. apply outcome_bind.
  { apply outcome_invalid. pose proof (safe_byte s Hok) as Hb. by destruct (readBE uint8_t 1 s). }
  intros [d s1] Ed. assert (byte_ok d) as Hb.
  { pose proof (safe_byte s Hok) as Hb. destruct (readBE uint8_t 1 s); [|done..]. injection Ed as ->. apply Hb. }
  destruct (readSizes_range d Hb) as (Hc & Ho & Hs). set (c := readSizes d) in *. clearbody c. cbv zeta.
  apply outcome_bind; [apply outcome_invalid; unfold readSlice; by destruct (hasMore _ _)|].
  intros [out s2] E. destruct (read_bits (rev out)) as [cd cl] eqn:Er.
  apply outcome_bind; [|done].
  destruct (Z.eq_dec (chunks c) 0) as [E0|E0]; [by rewrite (no_chunks _ _ _ _ _ _ _ _ E0 eq_refl)|].
  destruct (descriptor_sizes c) as (Hw & HL & Hsum & Hn); [lia..|].
  revert E Hw HL Hsum. generalize (u32 (u32 (chunks c * offsetLength c) + u32 (sectionLength c * u32 (chunks c - 1)))).
  intros B. generalize (u32 (B + 8 - B mod 8) / 8). intros L. generalize (u32 (u32 (L * 8) - B)). intros waste E Hw HL Hsum.
  assert (length out = Z.to_nat L) as Hout.
  { unfold or_invalid, readSlice in E. destruct (hasMore _ s1) eqn:Eh; [|done]. injection E as <- <-. by apply length_take_remaining. }
  pose proof (read_bits_length (rev out)) as Hbits. rewrite Er, length_rev, Hout in Hbits. cbn [fst snd] in Hbits.
  destruct Hbits as [E1 E2]; [lia|]. rewrite Hn. apply chunk_loop_outcome; lia.
Qed.

Lemma compare_magic_ok i magic s : stream_ok s → (0 < remaining s)%nat →
  ∃ b, compare_magic i magic s = Ok (b, advance 1 s) ∧ stream_ok (advance 1 s).
Proof.
  intros Hok Hr. assert (hasMore 1 s = true) as Hm by (apply Nat.leb_le; lia).
  unfold compare_magic, readBE. rewrite Hm. eexists. split; [done|]. by apply stream_advance.
Qed.

Lemma remaining_advance_sub n s : remaining (advance n s) = (remaining s - n)%nat.
Proof. unfold remaining, advance. cbn. lia. Qed.

Lemma split_loop_outcome n s : stream_ok s → (remaining s <= n)%nat → split_outcome (split_loop pop_data n s).
Proof.
  revert s. induction n as [|n IH]; intros s Hok Hn; cbn [split_loop];
    (destruct (Nat.ltb_spec 5 (remaining s)) as [H5|H5]; [|done]); [lia|].
  assert (∀ m, stream_ok (advance m s) → (1 <= m)%nat → split_outcome (split_loop pop_data n (advance m s))) as Hgo.
  { intros m Hm H1. apply IH; [done|]. rewrite remaining_advance_sub. lia. }
  destruct (compare_magic_ok 0 0x92 s Hok) as (b & -> & Hok1); [lia|]. cbn [mbind result_bind].
  destruct b; cbn [negb]; [|apply Hgo; [done|lia]].
  destruct (compare_magic_ok 1 0x7a _ Hok1) as (b & -> & Hok2); [rewrite remaining_advance_sub; lia|]. cbn [mbind result_bind].
  rewrite advance_add in *. destruct b; cbn [negb]; [|apply Hgo; [done|lia]].
  destruct (compare_magic_ok 2 0x59 _ Hok2) as (b & -> & Hok3); [rewrite remaining_advance_sub; lia|]. cbn [mbind result_bind].
  rewrite advance_add in *. destruct b; cbn [negb]; [|apply Hgo; [done|lia]].
  apply outcome_bind; [by apply try_descriptor_outcome|]. intros [] _; [done|]. apply Hgo; [done|lia].
Qed.

Lemma containsSplit_outcome tx : bytes_ok tx → split_outcome (containsSplit pop_data tx).
Proof.
  intros Htx. unfold containsSplit. apply split_loop_outcome; [|unfold remaining; cbn; lia].
  split; [done|cbn; lia].
Qed.
End outcomes.

(** ** What the check accepts *)
Section accepts.
Context `{Hashes} `{ProgPow}.

Lemma publication_written t : valid (publishedBlock t) → valid (pop_address t) → ∃ e,
  written (Vbk.toRaw (publishedBlock t) +++ getPopBytes (pop_address t)) = Ok e ∧
  Z.of_nat (length e) = VBK_PUBLICATIONDATA_SIZE.
Proof.
  intros Hb Ha. destruct (getPopBytes_total (pop_address t) Ha) as (e & He & Hl).
  exists (concat (Vbk.raw_parts (publishedBlock t)) ++ e). split.
  - apply written_writes, writes_seq; [apply Vbk.vbk_writes_raw|exact He].
  - pose proof (Vbk.vbk_size_raw (publishedBlock t) Hb) as Hs. unfold size_of in Hs.
    rewrite length_app, Hl. unfold ADDRESS_POP_DATA_SIZE_PROGPOW, VBK_PUBLICATIONDATA_SIZE in *. lia.
Qed.

Lemma check_written t e : written (Vbk.toRaw (publishedBlock t) +++ getPopBytes (pop_address t)) = Ok e →
  Z.of_nat (length e) = VBK_PUBLICATIONDATA_SIZE → Z.of_nat (length (tx (bitcoinTransaction t))) < 2 ^ 63 →
  (checkBitcoinTransactionForPoPData t = Ok tt ↔ e `sublist_of` tx (bitcoinTransaction t)).
Proof.
  intros E He Htx. unfold checkBitcoinTransactionForPoPData. rewrite E. cbn [mbind result_bind].
  rewrite He, Z.eqb_refl. cbn [negb].
  destruct (findData_spec (tx (bitcoinTransaction t)) e) as (b & -> & Hb); [intros ->; cbn in He; done|].
  cbn [mbind result_bind]. destruct b; [naive_solver|]. split; [|naive_solver].
  intros (found & Hf & Hr)%bind_Ok. destruct found; [|done]. apply or_invalid_Ok in Hf.
  by apply containsSplit_sublist in Hf.
Qed.

(** C5: for a VeriBlock POP transaction with a valid header and address, the check
    of the Bitcoin transaction succeeds exactly if the 80 bytes of the publication
    occur in the transaction in order, not necessarily next to each other: the
    search in one piece, whose inner index survives a mismatch, accepts every
    subsequence, and the search for chunks accepts nothing more. *)
Theorem checkBitcoinTransactionForPoPData_accepts t : valid (publishedBlock t) → valid (pop_address t) →
  Z.of_nat (length (tx (bitcoinTransaction t))) < 2 ^ 63 → ∃ e,
  written (Vbk.toRaw (publishedBlock t) +++ getPopBytes (pop_address t)) = Ok e ∧
  Z.of_nat (length e) = VBK_PUBLICATIONDATA_SIZE ∧
  (checkBitcoinTransactionForPoPData t = Ok tt ↔ e `sublist_of` tx (bitcoinTransaction t)).
Proof.
  intros Hb Ha Htx. destruct (publication_written t Hb Ha) as (e & E & He).
  exists e. split; [exact E|]. split; [exact He|]. by apply check_written.
Qed.

(** C30: on a transaction of bytes the check ends with success or a validation
    error, except that a descriptor can make [containsSplit] read behind the end of
    the transaction: its loops end, and it reads every bit inside the descriptor. *)
Theorem checkBitcoinTransactionForPoPData_outcome t : valid (publishedBlock t) → valid (pop_address t) →
  bytes_ok (tx (bitcoinTransaction t)) → split_outcome (checkBitcoinTransactionForPoPData t).
Proof.
  intros Hb Ha Htx. unfold checkBitcoinTransactionForPoPData.
  destruct (publication_written t Hb Ha) as (e & -> & He). cbn [mbind result_bind]. rewrite He. cbn [Z.eqb negb].
  destruct (findData_spec (tx (bitcoinTransaction t)) e) as (b & -> & _); [intros ->; cbn in He; done|].
  cbn [mbind result_bind]. destruct b; [done|].
  apply outcome_bind; [by apply outcome_invalid, containsSplit_outcome|]. by intros [].
Qed.
End accepts.

(** ** Examples *)
Module Example_search.
#[local] Existing Instance toy_hashes.

Definition vbk : Vbk.VbkBlock :=
  Vbk.mkVbkBlock 4917 2 (replicate 12 0) (replicate 9 0) (replicate 9 0) (replicate 16 0) 1553699059 67862701 12345.
Definition btc : Btc.BtcBlock :=
  Btc.mkBtcBlock 1 (replicate 32 0) (replicate 32 0) 1555501858 436279940 3.
Definition pop_tx (a : Address) (bytes : list Z) : VbkPopTx :=
  mkVbkPopTx (mkNetwork None 2) a vbk (mkBtcTx bytes) (mkMerklePath 0 [] []) btc [] [] [].
Definition publication : list Z :=
  match written (Vbk.toRaw vbk +++ getPopBytes toy_address) with Ok e => e | _ => [] end.

(** The publication with a foreign byte after each of its bytes. *)
Definition scattered : list Z := concat (map (λ b, [b; 0xee]) publication).

Lemma vbk_is_valid : valid vbk.
Proof. apply (bool_decide_unpack (Vbk.vbk_valid vbk)). vm_compute. done. Defined.

Lemma pop_tx_fields a bytes : publishedBlock (pop_tx a bytes) = vbk ∧ pop_address (pop_tx a bytes) = a ∧
  tx (bitcoinTransaction (pop_tx a bytes)) = bytes.
Proof. done. Defined.

Lemma written_publication : ∃ e, written (Vbk.toRaw vbk +++ getPopBytes toy_address) = Ok e ∧ e = publication.
Proof. exists publication. split; [vm_compute; reflexivity|reflexivity]. Qed.

Lemma accepts_witness : checkBitcoinTransactionForPoPData (pop_tx toy_address scattered) = Ok tt.
Proof.
  destruct (pop_tx_fields toy_address scattered) as (E1 & E2 & E3).
  destruct (checkBitcoinTransactionForPoPData_accepts (pop_tx toy_address scattered)) as (e & E & _ & Hs).
  - rewrite E1. exact vbk_is_valid.
  - rewrite E2. exact toy_address_valid.
  - rewrite E3. apply Z.ltb_lt. vm_compute. reflexivity.
  - rewrite E1, E2 in E. rewrite E3 in Hs. apply Hs.
    destruct written_publication as (p & Ep & E'). assert (e = p) as -> by congruence. subst p.
    unfold scattered. generalize publication. intros l.
    induction l as [|b l IH]; [apply sublist_nil_l|]. by apply sublist_skip, sublist_cons.
Defined.

(** A descriptor of one chunk at offset 15 of a transaction of 6 bytes. *)
Definition short_tx : list Z := [0x92; 0x7a; 0x59; 0x20; 0xf1; 0].

Lemma outcome_witness : split_outcome (checkBitcoinTransactionForPoPData (pop_tx toy_address short_tx)).
Proof.
  destruct (pop_tx_fields toy_address short_tx) as (E1 & E2 & E3).
  apply checkBitcoinTransactionForPoPData_outcome.
  - rewrite E1. exact vbk_is_valid.
  - rewrite E2. exact toy_address_valid.
  - rewrite E3. apply (bool_decide_unpack _). vm_compute. done.
Defined.

(** The read behind the end of the transaction. *)
Lemma short_tx_overread : checkBitcoinTransactionForPoPData (pop_tx toy_address short_tx) = Undef overread.
Proof. vm_compute. reflexivity. Qed.

(** The magic after a first byte of itself is not found. *)
Lemma repeated_magic : containsSplit [1; 2] [0x92; 0x7a; 0x59; 0x10; 0x50; 1; 2] = Ok true ∧
  containsSplit [1; 2] [0x92; 0x92; 0x7a; 0x59; 0x10; 0x60; 1; 2] = Ok false.
Proof. split; vm_compute; reflexivity. Qed.
End Example_search.
