(* ===== verification/Secp256k1.v ===== *)
(** * Keys and signatures ([secp256k1.cpp])

    The encodings of keys are modelled; the operations of libsecp256k1 are a
    class, [EcLibrary]. *)
From Stdlib Require Import String.
From S2P Require Import Prelude Serde Base58 StrUtil Address Payloads Merkle.

(** What the code calls of libsecp256k1: parsing a public key and writing it
    uncompressed, and the verification of a DER signature of a hash. *)
Class EcLibrary := {
  ec_pubkey : Type;
  ec_pubkey_parse : list Z → option ec_pubkey;
  ec_pubkey_serialize : ec_pubkey → option (list Z);
  ec_verify_der : list Z → list Z → ec_pubkey → bool;
  ec_serialize_ok : ∀ k v, ec_pubkey_serialize k = Some v → bytes_ok v ∧ length v = 65%nat
}.

Definition PRIVATE_KEY_SIZE : nat := 32.
Definition PUBLIC_KEY_COMPRESSED_SIZE : nat := 33.
Definition PUBLIC_KEY_UNCOMPRESSED_SIZE : nat := 65.
Definition ASN1_PREFIX_PRIVKEY_BYTES : list Z :=
  ParseHex (chars "303E020100301006072A8648CE3D020106052B8104000A042730250201010420").
Definition ASN1_PREFIX_PUBKEY_BYTES : list Z := ParseHex (chars "3056301006072A8648CE3D020106052B8104000A034200").
Definition PRIVATE_KEY_ASN1_SIZE : nat := length ASN1_PREFIX_PRIVKEY_BYTES + PRIVATE_KEY_SIZE.
Definition PUBLIC_KEY_ASN1_SIZE : nat := length ASN1_PREFIX_PUBKEY_BYTES + PUBLIC_KEY_UNCOMPRESSED_SIZE.

Definition checkLength (num expected : nat) (message : string) : result unit :=
  if (num =? expected)%nat then Ok tt else Throw message.

Definition privateKeyFromVbk (key : list Z) : result (list Z) :=
  checkLength (length key) PRIVATE_KEY_ASN1_SIZE "privateKeyFromVbk(): invalid private key";;
  Ok (drop (length ASN1_PREFIX_PRIVKEY_BYTES) key).

Definition publicKeyAsn1ToUncompressed (publicKey : list Z) : result (list Z) :=
  vassert (length publicKey =? PUBLIC_KEY_ASN1_SIZE)%nat "publicKey.size() == PUBLIC_KEY_ASN1_SIZE";;
  Ok (drop (length publicKey - PUBLIC_KEY_UNCOMPRESSED_SIZE) publicKey).
Definition publicKeyUncompressedToAsn1 (publicKey : list Z) : result (list Z) :=
  vassert (length publicKey =? PUBLIC_KEY_UNCOMPRESSED_SIZE)%nat "publicKey.size() == PUBLIC_KEY_UNCOMPRESSED_SIZE";;
  Ok (ASN1_PREFIX_PUBKEY_BYTES ++ publicKey).
Definition publicKeyToVbk : list Z → result (list Z) := publicKeyUncompressedToAsn1.

Section keys.
Context `{Hashes} `{EcLibrary}.

Definition publicKeyUncompress (publicKey : list Z) : result (list Z) :=
  vassert (length publicKey =? PUBLIC_KEY_COMPRESSED_SIZE)%nat "publicKey.size() == PUBLIC_KEY_COMPRESSED_SIZE";;
  match ec_pubkey_parse publicKey with
  | None => Throw "publicKeyUncompress(): invalid public key"
  | Some pubkey =>
    match ec_pubkey_serialize pubkey with
    | None => Throw "publicKeyUncompress(): public key serialize failed"
    | Some output => Ok output
    end
  end.

Definition publicKeyFromVbk (key : list Z) : result (list Z) :=
  if (length key =? PUBLIC_KEY_ASN1_SIZE)%nat then
    c ← at_index key 23;
    if negb (c =? 0x04) then Throw "publicKeyFromVbk(): unknown public key format"
    else publicKeyAsn1ToUncompressed key
  else if (length key =? PUBLIC_KEY_UNCOMPRESSED_SIZE)%nat then
    c ← at_index key 0;
    if negb (c =? 0x04) then Throw "publicKeyFromVbk(): unknown public key format" else Ok key
  else if (length key =? PUBLIC_KEY_COMPRESSED_SIZE)%nat then
    c ← at_index key 0;
    if negb (c =? 0x02) && negb (c =? 0x03) then
      Throw "publicKeyFromVbk(): invalid key format, expected 0x02 or 0x03 as first byte"
    else publicKeyUncompress key
  else Throw "publicKeyFromVbk(): invalid public key".

Definition verify (message signature publicKey : list Z) : bool :=
  match ec_pubkey_parse publicKey with
  | None => false
  | Some pubkey => ec_verify_der (sha256 message) signature pubkey
  end.

(** A key is read as 65 bytes, or an exception is thrown. *)
Lemma publicKeyFromVbk_cases key : bytes_ok key →
  match publicKeyFromVbk key with
  | Ok v => bytes_ok v ∧ length v = PUBLIC_KEY_UNCOMPRESSED_SIZE
  | Throw _ => True
  | _ => False
  end.
Proof.
  intros Hk. unfold publicKeyFromVbk.
  assert (∀ i, (i < length key)%nat → ∃ c, at_index key i = Ok c) as Hat.
  { intros i Hi. unfold at_index. destruct (lookup_lt_is_Some_2 key i Hi) as [c ->]. by exists c. }
  destruct (Nat.eqb_spec (length key) PUBLIC_KEY_ASN1_SIZE) as [E|_].
  { destruct (Hat 23%nat) as [c ->]; [rewrite E; vm_compute; lia|]. cbn [mbind result_bind].
    destruct (negb _); [done|]. unfold publicKeyAsn1ToUncompressed. rewrite E, Nat.eqb_refl. cbn [vassert mbind result_bind].
    split; [by apply Forall_drop|]. rewrite length_drop, E. done. }
  destruct (Nat.eqb_spec (length key) PUBLIC_KEY_UNCOMPRESSED_SIZE) as [E|_].
  { destruct (Hat 0%nat) as [c ->]; [rewrite E; vm_compute; lia|]. cbn [mbind result_bind]. by destruct (negb _). }
  destruct (Nat.eqb_spec (length key) PUBLIC_KEY_COMPRESSED_SIZE) as [E|_]; [|done].
  destruct (Hat 0%nat) as [c ->]; [rewrite E; vm_compute; lia|]. cbn [mbind result_bind]. destruct (_ && _); [done|].
  unfold publicKeyUncompress. rewrite E, Nat.eqb_refl. cbn [vassert mbind result_bind].
  destruct (ec_pubkey_parse key) as [k|]; [|done]. destruct (ec_pubkey_serialize k) as [v|] eqn:Ev; [|done].
  by apply (ec_serialize_ok k).
Qed.

(** A key written for VeriBlock is read back, if it is an uncompressed key. *)
Lemma publicKey_roundtrip key e : length key = PUBLIC_KEY_UNCOMPRESSED_SIZE → key !! 0%nat = Some 0x04 →
  publicKeyToVbk key = Ok e → publicKeyFromVbk e = Ok key ∧ Z.of_nat (length e) = MAX_PUBLIC_KEY_SIZE.
Proof.
  intros Hl Hz. unfold publicKeyToVbk, publicKeyUncompressedToAsn1. rewrite Hl, Nat.eqb_refl. cbn [vassert mbind result_bind].
  intros <-%Ok_inj. assert (length ASN1_PREFIX_PUBKEY_BYTES = 23%nat) as Hp by (vm_compute; done).
  assert (PUBLIC_KEY_ASN1_SIZE = 88%nat) as Ha by (vm_compute; done).
  unfold PUBLIC_KEY_UNCOMPRESSED_SIZE in *.
  split; [|rewrite length_app, Hl, Hp; done]. unfold publicKeyFromVbk, publicKeyAsn1ToUncompressed.
  rewrite Ha, length_app, Hl, Hp. cbn [Nat.add Nat.eqb vassert mbind result_bind].
  unfold at_index. rewrite lookup_app_r by lia. rewrite Hp. cbn [Nat.sub]. rewrite Hz. cbn [mbind result_bind negb Z.eqb Pos.eqb].
  by rewrite drop_app_length' by (rewrite Hp; done).
Qed.
End keys.
