(* ===== verification/AltParams.v ===== *)
(** * Parameters of an altchain ([alt_chain_params.hpp])

    The virtual functions of the altchain are fields of the record. *)
From Stdlib Require Import String.
From S2P Require Import Prelude Serde Address Blocks Payloads.

Record AltChainParams := mkAltChainParams {
  getIdentifier : Z;
  bootstrapBlock : Alt.AltBlock;
  alt_getHash : list Z → result (list Z);
  checkBlockHeader : list Z → list Z → result unit;
  mMaxReorgBlocks : Z;
  mMaxAltchainFutureBlockTime : Z;
  mKeystoneInterval : Z;
  mFinalityDelay : Z;
  mEndorsementSettlementInterval : Z;
  mPreserveBlocksBehindFinal : Z;
  mMaxPopDataSize : Z;
  mMaxVbkBlocksInAltBlock : Z;
  mMaxVTBsInAltBlock : Z;
  mMaxATVsInAltBlock : Z
}.

Definition ALT_MAX_REORG_BLOCKS_MIN_VALUE : Z := 10000.

Section getters.
Context (p : AltChainParams).

Definition getMaxVbkBlocksInAltBlock : result Z :=
  vassert (mMaxVbkBlocksInAltBlock p <=? MAX_POPDATA_VBK) "mMaxVbkBlocksInAltBlock <= MAX_POPDATA_VBK";;
  Ok (mMaxVbkBlocksInAltBlock p).
Definition getMaxVTBsInAltBlock : result Z :=
  vassert (mMaxVTBsInAltBlock p <=? MAX_POPDATA_VTB) "mMaxVTBsInAltBlock <= MAX_POPDATA_VTB";;
  Ok (mMaxVTBsInAltBlock p).
Definition getMaxATVsInAltBlock : result Z :=
  vassert (mMaxATVsInAltBlock p <=? MAX_POPDATA_ATV) "mMaxATVsInAltBlock <= MAX_POPDATA_ATV";;
  Ok (mMaxATVsInAltBlock p).
Definition maxWorkerQueueSize : result Z :=
  a ← getMaxATVsInAltBlock; v ← getMaxVTBsInAltBlock; b ← getMaxVbkBlocksInAltBlock;
  let ret := u64 (u64 (a + v) + b) in
  vassert (ret <? 400000) "Worker size queue";; Ok ret.
Definition getMaxReorgBlocks : result Z :=
  vassert (mEndorsementSettlementInterval p <? mMaxReorgBlocks p) "mMaxReorgBlocks > mEndorsementSettlementInterval";;
  Ok (mMaxReorgBlocks p).
Definition preserveBlocksBehindFinal : result Z :=
  vassert (mEndorsementSettlementInterval p <=? mPreserveBlocksBehindFinal p)
    "mPreserveBlocksBehindFinal >= mEndorsementSettlementInterval";;
  Ok (mPreserveBlocksBehindFinal p).
End getters.

(** The limits that the getters assert. *)
Definition params_ok (p : AltChainParams) : Prop :=
  0 <= mMaxVbkBlocksInAltBlock p <= MAX_POPDATA_VBK ∧ 0 <= mMaxVTBsInAltBlock p <= MAX_POPDATA_VTB ∧
  0 <= mMaxATVsInAltBlock p <= MAX_POPDATA_ATV.

Lemma getters_ok p : params_ok p → getMaxVbkBlocksInAltBlock p = Ok (mMaxVbkBlocksInAltBlock p) ∧
  getMaxVTBsInAltBlock p = Ok (mMaxVTBsInAltBlock p) ∧ getMaxATVsInAltBlock p = Ok (mMaxATVsInAltBlock p).
Proof.
  intros (H1 & H2 & H3). unfold getMaxVbkBlocksInAltBlock, getMaxVTBsInAltBlock, getMaxATVsInAltBlock, vassert.
  rewrite !(proj2 (Z.leb_le _ _)) by lia. done.
Qed.

Section regtest.
Context `{CtParams}.

Definition getBootstrapBlock : Alt.AltBlock :=
  Alt.mkAltBlock (replicate SHA256_HASH_SIZE 1) (replicate SHA256_HASH_SIZE 0) 0 0.

Definition AltChainParamsRegTest (id : Z) : AltChainParams := {|
  getIdentifier := id;
  bootstrapBlock := getBootstrapBlock;
  alt_getHash bytes :=
    match Alt.DeserializeFromRaw (newStream bytes) with
    | Ok (b, _) => Ok (Alt.hash b)
    | Invalid _ => Assert "Can't deserialize"
    | Assert w => Assert w
    | Throw w => Throw w
    | Undef w => Undef w
    | OutOfFuel => OutOfFuel
    end;
  checkBlockHeader bytes _ := _ ← Alt.DeserializeFromRaw (newStream bytes); Ok tt;
  mMaxReorgBlocks := ALT_MAX_REORG_BLOCKS_MIN_VALUE; mMaxAltchainFutureBlockTime := 10 * 60;
  mKeystoneInterval := 5; mFinalityDelay := 100; mEndorsementSettlementInterval := 50;
  mPreserveBlocksBehindFinal := 50; mMaxPopDataSize := MAX_POPDATA_SIZE;
  mMaxVbkBlocksInAltBlock := 200; mMaxVTBsInAltBlock := 200; mMaxATVsInAltBlock := 1000 |}.
End regtest.
