(* ===== verification/StatelessValidation.v ===== *)
(** * Stateless validation ([stateless_validation.cpp], [pop_stateless_validator.cpp])

    The checks of blocks, transactions, payloads and POP data that need no chain
    state.  The headers are those without a cached hash: taking the hash of a
    VeriBlock header aborts when its height is beyond the ethash tables ([computeHash]); [checked], the mutable
    member of ATVs, VTBs and POP data, is kept next to them.  The validator is the
    one of a build with [VBK_NO_THREADS]: [addCheck] runs the check. *)
From Stdlib Require Import String.
From S2P Require Import Prelude Serde Base58 StrUtil ArithUint256 Address Blocks BtcContext VbkContext Payloads Endorsements Merkle MerklePaths PopSearch Secp256k1 AltParams.
Import U256.

#[local] Abbreviation BtcBlock := Btc.BtcBlock.
#[local] Abbreviation VbkBlock := Vbk.VbkBlock.
#[local] Abbreviation VbkMerklePath := VbkPath.VbkMerklePath.
#[local] Abbreviation BtcParams := BtcContext.BtcChainParams.
#[local] Abbreviation VbkParams := VbkContext.VbkChainParams.

Definition VBK_ETHASH_EPOCH_OFFSET : Z := 323.
Definition VBK_MAXIMUM_DIFFICULTY : string := "FFFFFFFFFFFFFFFFFFFFFFFFFFFFFFFFFFFFFFFFFFFFFFFF".

Definition ethashGetEpoch (height : Z) : Z := u32 (ethashGetEpochWithoutOffset height + VBK_ETHASH_EPOCH_OFFSET).

Definition checkMerklePath (subject root transactionHash merkleRoot : list Z) : result unit :=
  if bool_decide (subject ≠ transactionHash) then invalid "invalid-merklepath"
  else if bool_decide (root ≠ merkleRoot) then invalid "invalid-merklepath"
  else Ok tt.

Section validation.
Context `{Hashes} `{ProgPow} `{EcLibrary}.

(** ** Proof of work *)
Definition checkProofOfWork_btc (block : BtcBlock) (param : BtcParams) : result bool :=
  blockHash ← fromLEBytes (Btc.calculateHash block);
  powLimit ← of_blob (getPowLimit param);
  let '(target, negative, overflow) := fromBits (Btc.bits block) in
  if negative || overflow || (compareTo target (of_u64 0) =? 0) || (0 <? compareTo target powLimit) then Ok false
  else Ok (negb (0 <? compareTo blockHash target)).

Definition checkProofOfWork_vbk (block : VbkBlock) (param : VbkParams) : result bool :=
  max ← fromHex (chars VBK_MAXIMUM_DIFFICULTY);
  hash ← Vbk.computeHash block;
  blockHash ← fromLEBytes hash;
  minDiff ← of_blob (getMinimumDifficulty param);
  let '(target, negative, overflow) := fromBits (u32 (Vbk.difficulty block)) in
  if negative || overflow || (compareTo target (of_u64 0) =? 0) || (compareTo target minDiff <? 0) then Ok false
  else
    target ← U256.div max target;
    Ok (negb (0 <? compareTo blockHash target)).

Definition checkBlock_btc (block : BtcBlock) (params : BtcParams) : result unit :=
  b ← checkProofOfWork_btc block params;
  if (b : bool) then Ok tt else invalid "btc-bad-pow".

Definition secondsInDay : Z := 24 * 60 * 60.
Definition gracePeriodDays : Z := 5.

Definition checkVbkBlockPlausibility (block : VbkBlock) (params : VbkParams) : result unit :=
  let progPowForkHeight := getProgPowForkHeight params in
  if Vbk.height block <? progPowForkHeight then invalid "height-too-low"
  else
    let epoch := ethashGetEpochWithoutOffset (Vbk.height block) in
    if VBK_MAX_CALCULATED_EPOCHS_SIZE <? epoch then invalid "height-too-high"
    else if negb (isProgPowStartTimeEpochEnabled params) then Ok tt
    else
      let height := Vbk.height block in
      let blocktimeSeconds := getTargetBlockTime params in
      let startTimeEpoch := getProgPowStartTimeEpoch params in
      let timestamp := Vbk.timestamp block in
      if timestamp <? startTimeEpoch then invalid "timestamp-too-low"
      else
        n ← cki32 (height - progPowForkHeight);
        let blocks := u64 (blocktimeSeconds * u64 n) in
        let upperBound := u32 (u64 (startTimeEpoch + u64 (blocks * 12) / 10 + secondsInDay * gracePeriodDays)) in
        let lowerBound := u32 (u64 (startTimeEpoch + u64 (blocks * 10) / 12 - secondsInDay * gracePeriodDays)) in
        let lowerBound := Z.max lowerBound startTimeEpoch in
        if upperBound <? timestamp then invalid "timestamp-upper-bound"
        else if timestamp <? lowerBound then invalid "timestamp-lower-bound"
        else Ok tt.

Definition checkBlock_vbk (block : VbkBlock) (params : VbkParams) : result unit :=
  checkVbkBlockPlausibility block params ?! "vbk-bad-block";;
  b ← checkProofOfWork_vbk block params;
  if (b : bool) then Ok tt else invalid "vbk-bad-pow".

(** ** Chains of headers *)
Fixpoint btc_blocks_loop (lastHash : list Z) (l : list BtcBlock) (params : BtcParams) : result unit :=
  match l with
  | [] => Ok tt
  | b :: l =>
    checkBlock_btc b params ?! "btc-check-block";;
    if bool_decide (Btc.previousBlock b ≠ lastHash) then invalid "invalid-btc-block"
    else btc_blocks_loop (Btc.calculateHash b) l params
  end.
Definition checkBtcBlocks (btcBlock : list BtcBlock) (params : BtcParams) : result unit :=
  match btcBlock with
  | [] => Ok tt
  | b :: l => checkBlock_btc b params ?! "vbk-check-block";; btc_blocks_loop (Btc.calculateHash b) l params
  end.

Fixpoint vbk_blocks_loop (lastHeight : Z) (lastHash : list Z) (l : list VbkBlock) (params : VbkParams) : result unit :=
  match l with
  | [] => Ok tt
  | b :: l =>
    checkBlock_vbk b params ?! "vbk-check-block";;
    next ← cki32 (lastHeight + 1);
    if negb (Vbk.height b =? next) || bool_decide (Vbk.previousBlock b ≠ trimLE VBK_PREVIOUS_BLOCK_HASH_SIZE lastHash)
    then invalid "invalid-vbk-block"
    else vbk_blocks_loop (Vbk.height b) (Vbk.calculateHash b) l params
  end.
Definition checkVbkBlocks (vbkBlocks : list VbkBlock) (params : VbkParams) : result unit :=
  match vbkBlocks with
  | [] => Ok tt
  | b :: l =>
    checkBlock_vbk b params ?! "vbk-check-block";;
    vbk_blocks_loop (Vbk.height b) (Vbk.calculateHash b) l params
  end.

(** ** Signatures *)
Definition checkSignature_with (reason : string) (address : Address) (hash : result (list Z))
    (signature publicKey : list Z) : result unit :=
  d ← isDerivedFromPublicKey address publicKey;
  if negb d then invalid reason
  else
    hash ← hash;
    key ← publicKeyFromVbk publicKey;
    if verify hash signature key then Ok tt else invalid reason.
Definition checkSignature_vbktx (t : VbkTx) : result unit :=
  checkSignature_with "invalid-vbk-tx" (sourceAddress t) (VbkTx_getHash t) (signature t) (publicKey t).
Definition checkSignature_vbkpoptx (t : VbkPopTx) : result unit :=
  checkSignature_with "invalid-vbk-pop-tx" (pop_address t) (VbkPopTx_getHash t) (pop_signature t) (pop_publicKey t).

(** ** Transactions *)
Definition checkVbkPopTx (t : VbkPopTx) (btc : BtcParams) (vbk : VbkParams) : result unit :=
  if MAX_BTC_BLOCKS_IN_VBKPOPTX <? Z.of_nat (length (blockOfProofContext t)) then invalid "vbk-btc-context-too-many"
  else if bool_decide (networkType (pop_networkOrType t) ≠ getTransactionMagicByte vbk) then invalid "vbkpoptx-bad-tx-byte"
  else
    checkBitcoinTransactionForPoPData t ?! "vbk-check-btc-tx-for-pop";;
    checkMerklePath (Payloads.subject (pop_merklePath t)) (MerklePath_calculateMerkleRoot (pop_merklePath t))
      (BtcTx_getHash (bitcoinTransaction t)) (rev (Btc.merkleRoot (pop_blockOfProof t))) ?! "vbk-check-merkle-path";;
    checkBtcBlocks (blockOfProofContext t) btc ?! "vbk-check-btc-blocks";;
    checkSignature_vbkpoptx t ?! "vbk-check-signature".

Definition checkPublicationData (pub : PublicationData) (params : AltChainParams) : result unit :=
  if negb (identifier pub =? getIdentifier params) then invalid "bad-altchain-id"
  else
    r ← Authenticated_fromVbkEncoding (newStream (contextInfo pub)) ?! "bad-contextinfo";
    root ← getTopLevelMerkleRoot r.1;
    checkBlockHeader params (Payloads.header pub) root ?! "bad-endorsed-header".

Definition checkVbkTx (t : VbkTx) (params : AltChainParams) (vbkparams : VbkParams) : result unit :=
  if MAX_OUTPUTS_COUNT <? Z.of_nat (length (outputs t)) then invalid "vbktx-too-many-outputs"
  else if bool_decide (networkType (networkOrType t) ≠ getTransactionMagicByte vbkparams) then invalid "vbktx-bad-tx-byte"
  else
    fee ← calculateTxFee t;
    if units fee <? 0 then invalid "vbktx-overspending"
    else
      checkPublicationData (publicationData t) params ?! "vbktx-bad-publicationdata";;
      checkSignature_vbktx t ?! "vbktx-check-signature".

(** ** Payloads, with their flags *)
Record Flagged (A : Type) := mkFlagged { item : A; checked : bool }.
#[global] Arguments mkFlagged {A}.
#[global] Arguments item {A}.
#[global] Arguments checked {A}.

(** The checks without the flag. *)
Definition atv_checks (a : ATV) (altp : AltChainParams) (vbkp : VbkParams) : result unit :=
  checkVbkTx (atv_transaction a) altp vbkp ?! "vbk-check-tx";;
  hash ← VbkTx_getHash (atv_transaction a);
  checkMerklePath (VbkPath.subject (atv_merklePath a)) (VbkMerklePath_calculateMerkleRoot (atv_merklePath a))
    hash (Vbk.merkleRoot (atv_blockOfProof a)) ?! "vbk-check-merkle-path".
Definition vtb_checks (v : VTB) (btc : BtcParams) (vbk : VbkParams) : result unit :=
  checkVbkPopTx (vtb_transaction v) btc vbk ?! "vbk-check-pop-tx";;
  hash ← VbkPopTx_getHash (vtb_transaction v);
  checkMerklePath (VbkPath.subject (vtb_merklePath v)) (VbkMerklePath_calculateMerkleRoot (vtb_merklePath v))
    hash (Vbk.merkleRoot (containingBlock v)) ?! "vbk-check-merkle-path".

(** [if (x.checked) return true; ... x.checked = true;] *)
Definition with_flag {A} (checks : A → result unit) (x : Flagged A) : result (Flagged A) :=
  if checked x then Ok x else checks (item x);; Ok (mkFlagged (item x) true).
Definition checkATV (altp : AltChainParams) (vbkp : VbkParams) : Flagged ATV → result (Flagged ATV) :=
  with_flag (λ a, atv_checks a altp vbkp).
Definition checkVTB (btc : BtcParams) (vbk : VbkParams) : Flagged VTB → result (Flagged VTB) :=
  with_flag (λ v, vtb_checks v btc vbk).

(** ** POP data *)
Record CheckedPopData := mkCheckedPopData {
  cp_version : Z; cp_context : list VbkBlock; cp_vtbs : list (Flagged VTB); cp_atvs : list (Flagged ATV);
  cp_checked : bool }.
Definition popdata_of (p : CheckedPopData) : PopData :=
  mkPopData (cp_version p) (cp_context p) (map item (cp_vtbs p)) (map item (cp_atvs p)).

Fixpoint hasDuplicateIdsOf (ids : gset (list Z)) (payloadIds : list (list Z)) : bool :=
  match payloadIds with
  | [] => false
  | i :: payloadIds => if bool_decide (i ∈ ids) then true else hasDuplicateIdsOf ({[i]} ∪ ids) payloadIds
  end.
Definition VbkBlock_getId (b : VbkBlock) : list Z := trimLE 12 (Vbk.calculateHash b).

(** The ids of VeriBlock headers and VTBs take the hashes of these headers. *)
Definition computeHashes (l : list VbkBlock) : result unit := mapM Vbk.computeHash l;; Ok tt.

Definition checkPopDataForDuplicates (p : PopData) : result unit :=
  computeHashes (context p);;
  if hasDuplicateIdsOf ∅ (map VbkBlock_getId (context p)) then invalid "duplicate-vbk"
  else
  computeHashes (map containingBlock (vtbs p));;
  if hasDuplicateIdsOf ∅ (map VTB_getId (vtbs p)) then invalid "duplicate-vtb"
  else
    ids ← foldM (λ l a, i ← ATV_getId a; Ok (l ++ [i])) (atvs p) [];
    if hasDuplicateIdsOf ∅ ids then invalid "duplicate-atv" else Ok tt.

(** [addCheck]: the [ValidationState] of the check, [None] if it is valid, and
    the payload after it. *)
Definition addCheck {A} (check : A → result A) (x : A) : result (option (list string) * A) :=
  match check x with
  | Ok y => Ok (None, y)
  | Invalid t => Ok (Some t, x)
  | Assert w => Assert w
  | Throw w => Throw w
  | Undef w => Undef w
  | OutOfFuel => OutOfFuel
  end.
Fixpoint addChecks {A} (check : A → result A) (l : list A) : result (list (option (list string)) * list A) :=
  match l with
  | [] => Ok ([], [])
  | x :: l => r ← addCheck check x; rs ← addChecks check l; Ok (r.1 :: rs.1, r.2 :: rs.2)
  end.

(** The first result that is not valid. *)
Fixpoint first_error (results : list (option (list string))) : option (list string) :=
  match results with
  | [] => None
  | Some t :: _ => Some t
  | None :: results => first_error results
  end.

Record Validator := mkValidator { getAltParams : AltChainParams; vbk_ : VbkParams; btc_ : BtcParams }.

(** The result, and the POP data after the call. *)
Definition checkPopData (v : Validator) (p : CheckedPopData) : result (result unit * CheckedPopData) :=
  if cp_checked p then Ok (Ok tt, p)
  else
    let alt := getAltParams v in
    estimate_size ← PopData_estimateSize (popdata_of p);
    if mMaxPopDataSize alt <? estimate_size then Ok (invalid "pop-sl-oversize", p) else
    maxVbk ← getMaxVbkBlocksInAltBlock alt;
    if maxVbk <? Z.of_nat (length (cp_context p)) then Ok (invalid "pop-sl-context-oversize", p) else
    maxVtb ← getMaxVTBsInAltBlock alt;
    if maxVtb <? Z.of_nat (length (cp_vtbs p)) then Ok (invalid "pop-sl-vtbs-oversize", p) else
    maxAtv ← getMaxATVsInAltBlock alt;
    if maxAtv <? Z.of_nat (length (cp_atvs p)) then Ok (invalid "pop-sl-atvs-oversize", p) else
    rb ← addChecks (λ b, checkBlock_vbk b (vbk_ v);; Ok b) (cp_context p);
    rv ← addChecks (checkVTB (btc_ v) (vbk_ v)) (cp_vtbs p);
    ra ← addChecks (checkATV alt (vbk_ v)) (cp_atvs p);
    let p := mkCheckedPopData (cp_version p) rb.2 rv.2 ra.2 false in
    match first_error (rb.1 ++ rv.1 ++ ra.1) with
    | Some t => Ok (Invalid t ?! "pop-sl-invalid", p)
    | None =>
      match checkPopDataForDuplicates (popdata_of p) ?! "pop-sl-invalid-has-duplicates" with
      | Ok _ => Ok (Ok tt, mkCheckedPopData (cp_version p) (cp_context p) (cp_vtbs p) (cp_atvs p) true)
      | Invalid t => Ok (Invalid t, p)
      | Assert w => Assert w | Throw w => Throw w | Undef w => Undef w | OutOfFuel => OutOfFuel
      end
    end.
End validation.

(** ** Proof of work: what is checked *)
Lemma le_Z_rev v : le_Z (rev v) = be_Z v.
Proof.
  induction v as [|b v IH]; [done|]. cbn [rev be_Z]. rewrite le_Z_app, IH, length_rev. cbn [le_Z]. lia.
Qed.

Lemma drop_zeros n m : drop n (repeat 0 m) = repeat 0 (m - n).
Proof. revert m. induction n as [|n IH]; intros [|m]; [done..|]. apply IH. Qed.

Lemma of_blob_ok b : bytes_ok b → (length b <= 32)%nat → ∃ v, of_blob b = Ok v ∧ valid v ∧ le_Z v = le_Z b.
Proof.
  intros Hb Hl. unfold of_blob. rewrite (proj2 (Nat.leb_le _ _)) by done. cbn [vassert mbind result_bind].
  eexists. split; [done|]. unfold zero. rewrite drop_zeros. split; [split|].
  - apply Forall_app. split; [done|]. apply bytes_repeat_0.
  - rewrite length_app, repeat_length. lia.
  - by rewrite le_Z_app, le_Z_repeat_0, Z.mul_0_r, Z.add_0_r.
Qed.

Lemma fromLEBytes_ok b : bytes_ok b → (length b <= 32)%nat → ∃ v, fromLEBytes b = Ok v ∧ valid v ∧ le_Z v = be_Z b.
Proof.
  intros Hb Hl. destruct (of_blob_ok (rev b)) as (v & E & Hv & Ev); [by apply Forall_rev|by rewrite length_rev|].
  exists v. by rewrite <- le_Z_rev.
Qed.

(** A compact difficulty that is positive and fits 256 bits. *)
Definition target_ok (c : Z) : Prop := 0 < compact_value c < modulus ∧ Z.testbit c 23 = false.

Lemma fromBits_target c : 0 <= c < 2 ^ 32 → ∃ t, valid t ∧
  (if (fromBits c).1.2 || (fromBits c).2 || (compareTo (fromBits c).1.1 (of_u64 0) =? 0) then ¬ target_ok c
   else target_ok c ∧ (fromBits c).1.1 = t ∧ le_Z t = compact_value c).
Proof.
  intros Hc. destruct (fromBits_spec c Hc) as (t & -> & Ht & Vt). cbn [fst snd]. exists t. split; [exact Ht|].
  destruct (of_u64_ok 0) as [Hz Ez]; [lia|]. destruct (compact_value_range c Hc) as [H0 _].
  rewrite compareTo_ok by (apply Ht || apply Hz || (destruct Ht, Hz; lia)). rewrite Ez, Vt. unfold target_ok.
  assert (0 < modulus) as Hmod by (by vm_compute).
  destruct (Z.eqb_spec (compact_value c) 0) as [E|E]; cbn [negb andb].
  { rewrite E. rewrite Z.mod_0_l by lia. rewrite orb_true_r. lia. }
  destruct (Z.testbit c 23) eqn:Eb; cbn [orb]; [intros [_ [=]]|].
  destruct (Z.leb_spec modulus (compact_value c)); cbn [orb]; [lia|]. rewrite Z.mod_small by lia.
  rewrite (proj2 (Z.ltb_ge _ 0)), (proj2 (Z.ltb_lt 0 _)) by lia. cbn [Z.eqb]. split; [split; [lia|done]|done].
Qed.

Section pow.
Context `{Hashes} `{ProgPow}.

(** The hash, read as a number with its first byte the most significant one, is
    not above the target. *)
Definition btc_pow (b : BtcBlock) (params : BtcParams) : Prop :=
  target_ok (Btc.bits b) ∧ compact_value (Btc.bits b) <= le_Z (getPowLimit params) ∧
  be_Z (Btc.calculateHash b) <= compact_value (Btc.bits b).
Definition vbk_pow (b : VbkBlock) (params : VbkParams) : Prop :=
  let d := u32 (Vbk.difficulty b) in
  target_ok d ∧ le_Z (getMinimumDifficulty params) <= compact_value d ∧
  be_Z (Vbk.calculateHash b) * compact_value d <= 2 ^ 192 - 1.

Lemma btc_hash_ok b : blob_ok 32 (Btc.calculateHash b).
Proof.
  unfold Btc.calculateHash. rewrite (written_writes _ _ (Btc.btc_writes_raw b)). unfold sha256twice. split.
  - apply Forall_rev, sha256_bytes.
  - rewrite length_rev. apply sha256_length.
Qed.
Lemma vbk_hash_ok b : blob_ok VBK_BLOCK_HASH_SIZE (Vbk.calculateHash b).
Proof. unfold Vbk.calculateHash. rewrite (written_writes _ _ (Vbk.vbk_writes_raw b)). apply progPowHash_ok. Qed.

Lemma of_blob_valid v : valid v → of_blob v = Ok v.
Proof.
  intros [Hb Hl]. unfold of_blob. rewrite Hl. cbn [Nat.leb vassert mbind result_bind].
  rewrite drop_ge by (unfold zero; rewrite repeat_length; lia). by rewrite app_nil_r.
Qed.

Lemma checkProofOfWork_btc_ok b params : in_range uint32_t (Btc.bits b) → valid (getPowLimit params) →
  ∃ r, checkProofOfWork_btc b params = Ok r ∧ (r = true ↔ btc_pow b params).
Proof.
  intros Hb Hp. unfold checkProofOfWork_btc, btc_pow. destruct (btc_hash_ok b) as [H1 H2].
  destruct (fromLEBytes_ok _ H1) as (h & -> & Hh & <-); [lia|]. rewrite of_blob_valid by done. cbn [mbind result_bind].
  destruct (fromBits_target (Btc.bits b)) as (t & Ht & Hs); [exact Hb|].
  destruct (fromBits (Btc.bits b)) as [[target negative] overflow]. cbn [fst snd] in Hs.
  destruct (negative || overflow || _); cbn [orb]; [exists false; split; [done|naive_solver]|].
  destruct Hs as (Hok & -> & Et). rewrite !compare_gt by done. rewrite Et.
  destruct (Z.ltb_spec (le_Z (getPowLimit params)) (compact_value (Btc.bits b))); [exists false; split; [done|]; split; [done|lia]|].
  destruct (Z.ltb_spec (compact_value (Btc.bits b)) (le_Z h)); eexists; (split; [done|]); split; (done || lia || (intros; split_and!; done || lia)).
Qed.

Lemma max_difficulty : ∃ m, fromHex (chars VBK_MAXIMUM_DIFFICULTY) = Ok m ∧ valid m ∧ le_Z m = 2 ^ 192 - 1.
Proof.
  eexists. split; [vm_compute; reflexivity|]. split; [|vm_compute; reflexivity].
  split; [apply (bool_decide_unpack _); vm_compute; done|done].
Qed.

Lemma checkProofOfWork_vbk_ok b params : Vbk.hashable b = true → valid (getMinimumDifficulty params) →
  ∃ r, checkProofOfWork_vbk b params = Ok r ∧ (r = true ↔ vbk_pow b params).
Proof.
  intros Hh Hp. unfold checkProofOfWork_vbk, vbk_pow, Vbk.computeHash. rewrite Hh. destruct max_difficulty as (m & -> & Hm & Em).
  destruct (vbk_hash_ok b) as [H1 H2]. unfold VBK_BLOCK_HASH_SIZE in H2. cbn [vassert mbind result_bind]. clear Hh.
  destruct (fromLEBytes_ok _ H1) as (h & -> & Hh & <-); [lia|]. rewrite of_blob_valid by done. cbn [mbind result_bind].
  destruct (fromBits_target (u32 (Vbk.difficulty b))) as (t & Ht & Hs); [apply wrapU_range; lia|].
  set (d := u32 (Vbk.difficulty b)) in *. destruct (fromBits d) as [[target negative] overflow]. cbn [fst snd] in Hs.
  destruct (negative || overflow || _); cbn [orb]; [exists false; split; [done|naive_solver]|].
  destruct Hs as (Hok & -> & Et). rewrite compareTo_ok by (apply Ht || apply Hp || (destruct Ht, Hp; lia)). rewrite Et.
  destruct (Z.ltb_spec (compact_value d) (le_Z (getMinimumDifficulty params))) as [Hlt|Hle].
  { exists false. split; [done|]. split; [done|lia]. }
  rewrite (proj2 (Z.ltb_ge (if _ <? _ then _ else _) 0)) by (destruct (_ <? _); lia).
  pose proof (div_ok m t Hm Ht) as Hd. rewrite Et, Em in Hd. destruct Hok as [Hr Hn].
  rewrite (proj2 (Z.eqb_neq _ 0)) in Hd by lia. destruct Hd as (q & -> & Hq & Eq). cbn [mbind result_bind].
  rewrite compare_gt by done. rewrite Eq. eexists. split; [done|]. rewrite negb_true_iff, Z.ltb_ge.
  split; [intros Hdiv; split_and!; [done..|lia|]|intros (_ & _ & Hdiv)].
  - pose proof (Z.mul_div_le (2 ^ 192 - 1) (compact_value d)). nia.
  - apply Z.div_le_lower_bound; lia.
Qed.

Lemma checkProofOfWork_vbk_aborts b params : Vbk.hashable b = false →
  checkProofOfWork_vbk b params = Assert "epoch < VBK_MAX_CALCULATED_EPOCHS_SIZE".
Proof.
  intros Hh. unfold checkProofOfWork_vbk, Vbk.computeHash. rewrite Hh. by destruct max_difficulty as (m & -> & _).
Qed.

End pow.

(** ** What the checks establish *)
Lemma guard_Ok {A} (c : bool) r (m : result A) x : (if c then invalid r else m) = Ok x ↔ c = false ∧ m = Ok x.
Proof. destruct c; naive_solver. Qed.

Section proved.
Context `{Hashes} `{ProgPow} `{EcLibrary}.
Context (alt : AltChainParams) (btc : BtcParams) (vbk : VbkParams).

Definition vbk_block_proved (b : VbkBlock) : Prop :=
  checkVbkBlockPlausibility b vbk = Ok tt ∧ Vbk.hashable b = true ∧ vbk_pow b vbk.

(** Every header names the one before it. *)
Definition contiguous (l : list BtcBlock) : Prop := ∀ i a b,
  l !! i = Some a → l !! S i = Some b → Btc.previousBlock b = Btc.calculateHash a.

Definition signed (address : Address) (hash signature publicKey : list Z) : Prop :=
  fromPublicKey publicKey = Ok address ∧
  ∃ key, publicKeyFromVbk publicKey = Ok key ∧ verify hash signature key = true.

Definition publication_in (t : VbkPopTx) : Prop := ∃ e,
  written (Vbk.toRaw (publishedBlock t) +++ getPopBytes (pop_address t)) = Ok e ∧
  Z.of_nat (length e) = VBK_PUBLICATIONDATA_SIZE ∧ e `sublist_of` tx (bitcoinTransaction t).

Definition included (subject root hash merkleRoot : list Z) : Prop := subject = hash ∧ root = merkleRoot.

Definition poptx_proved (t : VbkPopTx) : Prop :=
  Z.of_nat (length (blockOfProofContext t)) <= MAX_BTC_BLOCKS_IN_VBKPOPTX ∧
  networkType (pop_networkOrType t) = getTransactionMagicByte vbk ∧ publication_in t ∧
  included (Payloads.subject (pop_merklePath t)) (MerklePath_calculateMerkleRoot (pop_merklePath t))
    (BtcTx_getHash (bitcoinTransaction t)) (rev (Btc.merkleRoot (pop_blockOfProof t))) ∧
  (Forall (λ b, btc_pow b btc) (blockOfProofContext t) ∧ contiguous (blockOfProofContext t)) ∧
  ∃ h, VbkPopTx_getHash t = Ok h ∧ signed (pop_address t) h (pop_signature t) (pop_publicKey t).

Definition vtb_proved (v : VTB) : Prop :=
  poptx_proved (vtb_transaction v) ∧ ∃ h, VbkPopTx_getHash (vtb_transaction v) = Ok h ∧
  included (VbkPath.subject (vtb_merklePath v)) (VbkMerklePath_calculateMerkleRoot (vtb_merklePath v))
    h (Vbk.merkleRoot (containingBlock v)).

(** The context information of the publication names the root under which the
    altchain accepts the endorsed header. *)
Definition publication_proved (p : PublicationData) : Prop :=
  identifier p = getIdentifier alt ∧ ∃ c root, Authenticated_fromVbkEncoding (newStream (contextInfo p)) = Ok c ∧
  getTopLevelMerkleRoot c.1 = Ok root ∧ checkBlockHeader alt (Payloads.header p) root = Ok tt.

Definition vbktx_proved (t : VbkTx) : Prop :=
  Z.of_nat (length (outputs t)) <= MAX_OUTPUTS_COUNT ∧ networkType (networkOrType t) = getTransactionMagicByte vbk ∧
  (∃ fee, calculateTxFee t = Ok fee ∧ 0 <= units fee) ∧ publication_proved (publicationData t) ∧
  ∃ h, VbkTx_getHash t = Ok h ∧ signed (sourceAddress t) h (signature t) (publicKey t).

Definition atv_proved (a : ATV) : Prop :=
  vbktx_proved (atv_transaction a) ∧ ∃ h, VbkTx_getHash (atv_transaction a) = Ok h ∧
  included (VbkPath.subject (atv_merklePath a)) (VbkMerklePath_calculateMerkleRoot (atv_merklePath a))
    h (Vbk.merkleRoot (atv_blockOfProof a)).

(** Parameters of the right size. *)
Definition chain_params_ok : Prop := valid (getPowLimit btc) ∧ valid (getMinimumDifficulty vbk).
Context (Hpar : chain_params_ok).

Lemma checkBlock_btc_iff b : in_range uint32_t (Btc.bits b) → checkBlock_btc b btc = Ok tt ↔ btc_pow b btc.
Proof.
  intros Hb. unfold checkBlock_btc. destruct (checkProofOfWork_btc_ok b btc Hb (proj1 Hpar)) as (r & -> & Hr).
  cbn [mbind result_bind]. rewrite <- Hr. by destruct r.
Qed.

Lemma checkBlock_vbk_iff b : checkBlock_vbk b vbk = Ok tt ↔ vbk_block_proved b.
Proof.
  unfold checkBlock_vbk, vbk_block_proved. rewrite bind_Ok. setoid_rewrite or_invalid_Ok.
  destruct (Vbk.hashable b) eqn:Eh.
  - destruct (checkProofOfWork_vbk_ok b vbk Eh (proj2 Hpar)) as (r & -> & Hr). cbn [mbind result_bind]. rewrite <- Hr.
    split; [intros ([] & Hp & Hc); split_and!; [done..|]; by destruct r|]. intros (Hp & _ & ->). by exists tt.
  - rewrite (checkProofOfWork_vbk_aborts b vbk Eh). split; [by intros ([] & _ & [=])|by intros (_ & [=] & _)].
Qed.

Lemma contiguous_cons a b l : contiguous (a :: b :: l) ↔ Btc.previousBlock b = Btc.calculateHash a ∧ contiguous (b :: l).
Proof.
  split.
  - intros Hc. split; [by apply (Hc 0%nat)|]. intros i x y Hx Hy. by apply (Hc (S i)).
  - intros [Hab Hc] [|i] x y Hx Hy; [naive_solver|]. by apply (Hc i).
Qed.

Lemma btc_blocks_loop_iff a l : Forall (λ b, in_range uint32_t (Btc.bits b)) l →
  btc_blocks_loop (Btc.calculateHash a) l btc = Ok tt ↔ Forall (λ b, btc_pow b btc) l ∧ contiguous (a :: l).
Proof.
  intros Hl. revert a. induction Hl as [|b l Hb Hl IH]; intros a; cbn [btc_blocks_loop].
  - split; [|done]. intros _. split; [constructor|]. by intros [|i] x y ?.
  - rewrite bind_Ok. setoid_rewrite or_invalid_Ok. setoid_rewrite guard_Ok. setoid_rewrite IH.
    setoid_rewrite bool_decide_eq_false. rewrite Forall_cons, contiguous_cons, <- (checkBlock_btc_iff b Hb). split.
    + intros (u & Hu & Hn%dec_stable & Hf & Hc). destruct u. done.
    + intros ((Hu & Hf) & Hn & Hc). exists tt. split_and!; [done|by intros Hx; apply Hx|done|done].
Qed.

Lemma checkBtcBlocks_iff l : Forall (λ b, in_range uint32_t (Btc.bits b)) l →
  checkBtcBlocks l btc = Ok tt ↔ Forall (λ b, btc_pow b btc) l ∧ contiguous l.
Proof.
  intros Hl0. destruct l as [|b l]; cbn [checkBtcBlocks].
  - split; [|done]. intros _. split; [constructor|]. by intros i x y ?.
  - apply Forall_cons in Hl0 as [Hb Hl]. rewrite bind_Ok. setoid_rewrite or_invalid_Ok. setoid_rewrite btc_blocks_loop_iff; [|done].
    rewrite Forall_cons, <- (checkBlock_btc_iff b Hb). split; [intros ([] & ?); tauto|]. intros ((? & ?) & ?). by exists tt.
Qed.

Lemma checkSignature_iff reason a h sg key : Address_valid a →
  checkSignature_with reason a (Ok h) sg key = Ok tt ↔ signed a h sg key.
Proof.
  intros Ha. unfold checkSignature_with, signed. destruct (isDerivedFromPublicKey_iff a key Ha) as (d & -> & Hd).
  cbn [mbind result_bind]. rewrite guard_Ok, <- Hd. destruct d; [|naive_solver]. cbn [negb]. rewrite bind_Ok.
  split; [intros (_ & k & Hk & Hv)|intros (_ & k & Hk & Hv)]; (split; [done|exists k; split; [done|]]);
    by destruct (verify h sg k).
Qed.

Lemma publication_iff t : Serde.valid (publishedBlock t) → Serde.valid (pop_address t) → Serde.valid (bitcoinTransaction t) →
  checkBitcoinTransactionForPoPData t = Ok tt ↔ publication_in t.
Proof.
  intros Hb Ha [_ Ht]. unfold BTC_TX_MAX_RAW_SIZE in Ht. destruct (publication_written t Hb Ha) as (e & E & He).
  rewrite (check_written t e E He) by lia. unfold publication_in. rewrite E. naive_solver.
Qed.

Lemma checkMerklePath_iff s r h m : checkMerklePath s r h m = Ok tt ↔ included s r h m.
Proof.
  unfold checkMerklePath, included. rewrite !guard_Ok, !bool_decide_eq_false. split; [intros (?%dec_stable & ?%dec_stable & _); done|].
  intros [-> ->]. split_and!; [by intros Hx; apply Hx|by intros Hx; apply Hx|done].
Qed.
End proved.

Section payloads.
Context `{Hashes} `{ProgPow} `{EcLibrary}.
Context (alt : AltChainParams) (btc : BtcParams) (vbk : VbkParams) (Hpar : chain_params_ok btc vbk).

Lemma poptx_hash t : VbkPopTx_valid t → ∃ h, VbkPopTx_getHash t = Ok h.
Proof.
  intros Ht. unfold VbkPopTx_getHash. destruct (vbkpoptx_raw t Ht) as [Hw _].
  rewrite (written_writes _ _ Hw). by eexists.
Qed.
Lemma vbktx_hash t : VbkTx_valid t → ∃ h, VbkTx_getHash t = Ok h.
Proof.
  intros Ht. unfold VbkTx_getHash. destruct (vbktx_raw t Ht) as [Hw _].
  rewrite (written_writes _ _ Hw). by eexists.
Qed.

Lemma ltb_false_iff a b : (a <? b) = false ↔ b <= a.
Proof. apply Z.ltb_ge. Qed.
Lemma neq_false_iff {A} `{EqDecision A} (x y : A) : bool_decide (x ≠ y) = false ↔ x = y.
Proof. rewrite bool_decide_eq_false. split; [apply dec_stable|]. intros -> Hn. by apply Hn. Qed.
Lemma unit_bind_Ok (m n : result unit) : (m;; n) = Ok tt ↔ m = Ok tt ∧ n = Ok tt.
Proof. rewrite bind_Ok. split; [intros ([] & ?); done|]. intros []. by exists tt. Qed.

Lemma ex_Ok {A} (x : A) (P : A → Prop) : (∃ y, Ok x = Ok y ∧ P y) ↔ P x.
Proof. split; [by intros (y & [= <-] & Hy)|]. intros Hx. by exists x. Qed.

Lemma poptx_iff t : VbkPopTx_valid t → checkVbkPopTx t btc vbk = Ok tt ↔ poptx_proved btc vbk t.
Proof.
  intros Ht. destruct (poptx_hash t Ht) as (h & Eh). destruct Ht as (_ & Ha & Hb & Htx & _ & _ & Hctx & _).
  assert (Forall (λ b, in_range uint32_t (Btc.bits b)) (blockOfProofContext t)) as Hbits.
  { eapply Forall_impl; [exact Hctx|]. intros b Hv. apply Hv. }
  unfold checkVbkPopTx, poptx_proved, checkSignature_vbkpoptx. rewrite Eh.
  rewrite !guard_Ok, ltb_false_iff, neq_false_iff, !unit_bind_Ok, !or_invalid_Ok.
  rewrite (publication_iff t Hb Ha Htx), checkMerklePath_iff, checkBtcBlocks_iff by done.
  rewrite (checkSignature_iff _ _ _ _ _ Ha), ex_Ok. tauto.
Qed.

Lemma vtb_iff v : VTB_valid v → vtb_checks v btc vbk = Ok tt ↔ vtb_proved btc vbk v.
Proof.
  intros (_ & Ht & _). destruct (poptx_hash _ Ht) as (h & Eh). unfold vtb_checks, vtb_proved.
  rewrite Eh, unit_bind_Ok, or_invalid_Ok, (poptx_iff _ Ht). cbn [mbind result_bind].
  rewrite or_invalid_Ok, checkMerklePath_iff, ex_Ok. tauto.
Qed.

Lemma publicationdata_iff p : checkPublicationData p alt = Ok tt ↔ publication_proved alt p.
Proof.
  unfold checkPublicationData, publication_proved. rewrite guard_Ok, negb_false_iff, Z.eqb_eq. split.
  - intros (Hi & (c & Hc%or_invalid_Ok & (root & Hr & Hh%or_invalid_Ok)%bind_Ok)%bind_Ok).
    split; [exact Hi|]. exists c, root. by split_and!.
  - intros (Hi & c & root & Hc & Hr & Hh). split; [exact Hi|]. rewrite Hc. cbn [or_invalid mbind result_bind].
    rewrite Hr. cbn [mbind result_bind]. by apply or_invalid_Ok.
Qed.

Lemma vbktx_iff t : VbkTx_valid t → checkVbkTx t alt vbk = Ok tt ↔ vbktx_proved alt vbk t.
Proof.
  intros Ht. destruct (vbktx_hash t Ht) as (h & Eh). destruct Ht as (_ & Ha & _).
  unfold checkVbkTx, vbktx_proved, checkSignature_vbktx. rewrite Eh.
  rewrite !guard_Ok, ltb_false_iff, neq_false_iff, ex_Ok. split.
  - intros (Hl & Hn & (fee & Hf & Hr)%bind_Ok). rewrite guard_Ok, ltb_false_iff, unit_bind_Ok, !or_invalid_Ok in Hr.
    rewrite publicationdata_iff, (checkSignature_iff _ _ _ _ _ Ha) in Hr. destruct Hr as (H0' & Hp & Hs). eauto 10.
  - intros (Hl & Hn & (fee & Hf & Hpos) & Hp & Hs). split_and!; [done..|]. rewrite Hf. cbn [mbind result_bind].
    rewrite guard_Ok, ltb_false_iff, unit_bind_Ok, !or_invalid_Ok, publicationdata_iff, (checkSignature_iff _ _ _ _ _ Ha). done.
Qed.

Lemma atv_iff a : ATV_valid a → atv_checks a alt vbk = Ok tt ↔ atv_proved alt vbk a.
Proof.
  intros (_ & Ht & _). destruct (vbktx_hash _ Ht) as (h & Eh). unfold atv_checks, atv_proved.
  rewrite Eh, unit_bind_Ok, or_invalid_Ok, (vbktx_iff _ Ht). cbn [mbind result_bind].
  rewrite or_invalid_Ok, checkMerklePath_iff, ex_Ok. tauto.
Qed.
End payloads.

(** ** POP data *)
Lemma hasDuplicate_iff ids l : hasDuplicateIdsOf ids l = false ↔ NoDup l ∧ ∀ x, x ∈ l → x ∉ ids.
Proof.
  revert ids. induction l as [|x l IH]; intros ids; cbn [hasDuplicateIdsOf].
  { split; [intros _; split; [constructor|set_solver]|done]. }
  case_bool_decide as Hx; [split; [done|set_solver]|]. rewrite IH, NoDup_cons. set_solver.
Qed.
Lemma hasDuplicate_none l : hasDuplicateIdsOf ∅ l = false ↔ NoDup l.
Proof. rewrite hasDuplicate_iff. set_solver. Qed.

Lemma first_error_app l1 l2 : first_error (l1 ++ l2) =
  match first_error l1 with Some t => Some t | None => first_error l2 end.
Proof. induction l1 as [|[t|] l1 IH]; [done..|exact IH]. Qed.

Definition trace_of (m : result unit) : option (list string) := match m with Invalid t => Some t | _ => None end.

(** The outcome of a check of a payload, given its flag. *)
Definition flag_check {A} (checks : A → result unit) (x : Flagged A) : result unit :=
  if checked x then Ok tt else checks (item x).

Section flags.
Context {A : Type} (checks : A → result unit) (P : A → Prop).

Definition flag_ok (x : Flagged A) : Prop := checked x = true → P (item x).

Lemma addChecks_flag l r : (∀ x, x ∈ l → checks (item x) = Ok tt → P (item x)) → Forall flag_ok l →
  addChecks (with_flag checks) l = Ok r →
  map item r.2 = map item l ∧ Forall flag_ok r.2 ∧ (first_error r.1 = None → Forall (λ x, P (item x)) l).
Proof.
  intros HP Hl. revert r. induction Hl as [|x l Hx Hl IH]; intros r; cbn [addChecks].
  { intros [= <-]. by repeat constructor. }
  intros (o & Ho & (rs & Hrs & E)%bind_Ok)%bind_Ok. injection E as <-. cbn [fst snd map].
  destruct (IH (λ y Hy, HP y (list_elem_of_further _ _ _ Hy)) rs Hrs) as (I1 & I2 & I3).
  unfold addCheck, with_flag in Ho. unfold flag_ok in Hx. destruct (checked x) eqn:Ec.
  - injection Ho as <-. cbn [fst snd first_error]. rewrite I1. split; [done|].
    split; [constructor; [by intros _; apply Hx|done]|]. intros Hn. constructor; [by apply Hx|by apply I3].
  - pose proof (HP x (list_elem_of_here _ _)) as Hok. destruct (checks (item x)) as [[]|t| | | |]; [..|done|done|done|done];
      injection Ho as <-; cbn [fst snd first_error item]; rewrite I1; (split; [done|]).
    + split; [constructor; [by intros _; apply Hok|done]|]. intros Hn. constructor; [by apply Hok|by apply I3].
    + split; [constructor; [unfold flag_ok; by rewrite Ec|done]|done].
Qed.

(** The flag of a payload after its check. *)
Definition after_check (x : Flagged A) : Flagged A := mkFlagged (item x) (is_ok (flag_check checks x)).

Lemma addChecks_total l : Forall (λ x, safe (flag_check checks x)) l →
  addChecks (with_flag checks) l = Ok (map (λ x, trace_of (flag_check checks x)) l, map after_check l).
Proof.
  induction 1 as [|x l Hx Hl E]; [done|]. cbn [addChecks map]. rewrite E.
  unfold addCheck, with_flag, after_check, flag_check in *. destruct x as [x [|]]; cbn [checked item] in *; [done|].
  by destruct (checks x) as [[]|t| | | |].
Qed.
End flags.

(** Headers have no flag: their check is that of a payload never marked. *)
Lemma addChecks_plain {A} (checks : A → result unit) (P : A → Prop) l r :
  (∀ x, x ∈ l → checks x = Ok tt → P x) → addChecks (λ x, checks x;; Ok x) l = Ok r →
  r.2 = l ∧ (first_error r.1 = None → Forall P l).
Proof.
  intros HP. revert r. induction l as [|x l IH]; intros r; cbn [addChecks]; [by intros [= <-]|].
  intros (o & Ho & (rs & Hrs & E)%bind_Ok)%bind_Ok. injection E as <-. cbn [fst snd].
  destruct (IH (λ y Hy, HP y (list_elem_of_further _ _ _ Hy)) rs Hrs) as (I1 & I2). rewrite I1.
  pose proof (HP x (list_elem_of_here _ _)) as Hok. unfold addCheck in Ho.
  destruct (checks x) as [[]|t| | | |]; [..|done|done|done|done]; injection Ho as <-; cbn [fst snd first_error]; (split; [done|]); [|done].
  intros Hn. constructor; [by apply Hok|by apply I2].
Qed.
Lemma addChecks_plain_total {A} (checks : A → result unit) l : Forall (λ x, safe (checks x)) l →
  addChecks (λ x, checks x;; Ok x) l = Ok (map (λ x, trace_of (checks x)) l, l).
Proof.
  induction 1 as [|x l Hx Hl E]; [done|]. cbn [addChecks map]. rewrite E. unfold addCheck.
  by destruct (checks x) as [[]|t| | | |].
Qed.

Section popdata.
Context `{Hashes} `{ProgPow} `{EcLibrary}.
Implicit Types (v : Validator) (p : CheckedPopData).

(** What valid POP data are, for the parameters of a validator. *)
Definition popdata_proved v (d : PopData) : Prop :=
  (∃ n, PopData_estimateSize d = Ok n ∧ n <= mMaxPopDataSize (getAltParams v)) ∧
  Z.of_nat (length (context d)) <= mMaxVbkBlocksInAltBlock (getAltParams v) ∧
  Z.of_nat (length (vtbs d)) <= mMaxVTBsInAltBlock (getAltParams v) ∧
  Z.of_nat (length (atvs d)) <= mMaxATVsInAltBlock (getAltParams v) ∧
  Forall (vbk_block_proved (vbk_ v)) (context d) ∧ Forall (vtb_proved (btc_ v) (vbk_ v)) (vtbs d) ∧
  Forall (atv_proved (getAltParams v) (vbk_ v)) (atvs d) ∧
  NoDup (map VbkBlock_getId (context d)) ∧ NoDup (map VTB_getId (vtbs d)) ∧
  ∃ ids, Forall2 (λ a i, ATV_getId a = Ok i) (atvs d) ids ∧ NoDup ids.

(** Every flag that is set is on a payload, or POP data, that is proved. *)
Definition flags_ok v p : Prop :=
  Forall (flag_ok (vtb_proved (btc_ v) (vbk_ v))) (cp_vtbs p) ∧
  Forall (flag_ok (atv_proved (getAltParams v) (vbk_ v))) (cp_atvs p) ∧
  (cp_checked p = true → popdata_proved v (popdata_of p)).

Definition validator_ok v : Prop :=
  chain_params_ok (btc_ v) (vbk_ v) ∧ AltParams.params_ok (getAltParams v).

Lemma atv_ids l acc : ∀ r, foldM (λ l a, i ← ATV_getId a; Ok (l ++ [i])) l acc = Ok r →
  ∃ ids, Forall2 (λ a i, ATV_getId a = Ok i) l ids ∧ r = acc ++ ids.
Proof.
  revert acc. induction l as [|a l IH]; intros acc r; cbn [foldM].
  { intros [= <-]. exists []. by rewrite app_nil_r. }
  intros (acc' & (i & Hi & [= <-])%bind_Ok & Hr)%bind_Ok. destruct (IH _ _ Hr) as (ids & Hids & ->).
  exists (i :: ids). split; [by constructor|]. by rewrite <- app_assoc.
Qed.

Lemma duplicates_sound d : checkPopDataForDuplicates d = Ok tt →
  NoDup (map VbkBlock_getId (context d)) ∧ NoDup (map VTB_getId (vtbs d)) ∧
  ∃ ids, Forall2 (λ a i, ATV_getId a = Ok i) (atvs d) ids ∧ NoDup ids.
Proof.
  unfold checkPopDataForDuplicates. intros ([] & _ & Hc)%bind_Ok. rewrite guard_Ok, hasDuplicate_none in Hc.
  destruct Hc as (H1' & ([] & _ & Hc)%bind_Ok). rewrite guard_Ok, hasDuplicate_none in Hc.
  destruct Hc as (H2' & (ids & Hids & Hd)%bind_Ok). split_and!; [done..|].
  destruct (atv_ids _ _ _ Hids) as (ids2 & Hids2 & ->). cbn [app] in Hd. exists ids2. split; [done|].
  rewrite guard_Ok, hasDuplicate_none in Hd. apply Hd.
Qed.

(** The runs of the three kinds of checks, and what remains. *)
Definition run_checks v p : result (list (option (list string)) * CheckedPopData) :=
  rb ← addChecks (λ b, checkBlock_vbk b (vbk_ v);; Ok b) (cp_context p);
  rv ← addChecks (checkVTB (btc_ v) (vbk_ v)) (cp_vtbs p);
  ra ← addChecks (checkATV (getAltParams v) (vbk_ v)) (cp_atvs p);
  Ok (rb.1 ++ rv.1 ++ ra.1, mkCheckedPopData (cp_version p) rb.2 rv.2 ra.2 false).

Definition limits v (d : PopData) : Prop :=
  (∃ n, PopData_estimateSize d = Ok n ∧ n <= mMaxPopDataSize (getAltParams v)) ∧
  Z.of_nat (length (context d)) <= mMaxVbkBlocksInAltBlock (getAltParams v) ∧
  Z.of_nat (length (vtbs d)) <= mMaxVTBsInAltBlock (getAltParams v) ∧
  Z.of_nat (length (atvs d)) <= mMaxATVsInAltBlock (getAltParams v).

Definition finish (r : list (option (list string)) * CheckedPopData) : result (result unit * CheckedPopData) :=
  let p := r.2 in
  match first_error r.1 with
  | Some t => Ok (Invalid t ?! "pop-sl-invalid", p)
  | None =>
    match checkPopDataForDuplicates (popdata_of p) ?! "pop-sl-invalid-has-duplicates" with
    | Ok _ => Ok (Ok tt, mkCheckedPopData (cp_version p) (cp_context p) (cp_vtbs p) (cp_atvs p) true)
    | Invalid t => Ok (Invalid t, p)
    | Assert w => Assert w | Throw w => Throw w | Undef w => Undef w | OutOfFuel => OutOfFuel
    end
  end.

(** Within the limits, the call is the runs followed by the verdict; outside of
    them it is an error that changes nothing. *)
Lemma checkPopData_limits v p : AltParams.params_ok (getAltParams v) → cp_checked p = false →
  (limits v (popdata_of p) → checkPopData v p = r ← run_checks v p; finish r) ∧
  (∀ r, checkPopData v p = Ok r → limits v (popdata_of p) ∨ r.2 = p ∧ r.1 ≠ Ok tt).
Proof.
  intros Hp Hc. destruct (getters_ok _ Hp) as (E1 & E2 & E3). unfold checkPopData, limits. rewrite Hc, E1, E2, E3.
  cbn [popdata_of context vtbs atvs mbind result_bind]. rewrite !length_map. split.
  - intros ((n & -> & Hn) & L1 & L2 & L3). cbn [mbind result_bind]. rewrite !(proj2 (Z.ltb_ge _ _)) by done.
    unfold run_checks. destruct (addChecks _ (cp_context p)); [cbn [mbind result_bind]|done..].
    destruct (addChecks _ (cp_vtbs p)); [cbn [mbind result_bind]|done..].
    by destruct (addChecks _ (cp_atvs p)).
  - intros r. destruct (PopData_estimateSize _) as [n| | | | |]; [cbn [mbind result_bind]|done..].
    repeat (match goal with |- context [if ?a <? ?b then _ else _] => destruct (Z.ltb_spec a b) end;
      [intros [= <-]; by right|]).
    intros _. left. split_and!; [by exists n|done..].
Qed.

Lemma run_checks_inv v p r : validator_ok v → PopData_valid (popdata_of p) → flags_ok v p → run_checks v p = Ok r →
  popdata_of r.2 = popdata_of p ∧ flags_ok v r.2 ∧
  (first_error r.1 = None →
    Forall (vbk_block_proved (vbk_ v)) (context (popdata_of p)) ∧
    Forall (vtb_proved (btc_ v) (vbk_ v)) (vtbs (popdata_of p)) ∧
    Forall (atv_proved (getAltParams v) (vbk_ v)) (atvs (popdata_of p))).
Proof.
  intros [Hpar Halt] (_ & _ & [Hv _] & [Ha _]) (Fv & Fa & _).
  intros (rb & Hb & (rv & Hrv & (ra & Hra & [= <-])%bind_Ok)%bind_Ok)%bind_Ok. cbn [fst snd popdata_of vtbs atvs context] in *.
  rewrite Forall_map, Forall_forall in Hv. rewrite Forall_map, Forall_forall in Ha.
  apply (addChecks_plain _ (vbk_block_proved (vbk_ v))) in Hb as [Eb Pb]; [|intros b _ Hx; by apply (checkBlock_vbk_iff _ _ Hpar)].
  apply (addChecks_flag _ (vtb_proved (btc_ v) (vbk_ v))) in Hrv as (Ev & Fv' & Pv); [| |done].
  2: { intros x Hx. apply vtb_iff; [done|]. by apply Hv. }
  apply (addChecks_flag _ (atv_proved (getAltParams v) (vbk_ v))) in Hra as (Ea & Fa' & Pa); [| |done].
  2: { intros x Hx. apply atv_iff. by apply Ha. }
  unfold popdata_of. cbn [cp_version cp_context cp_vtbs cp_atvs cp_checked]. rewrite Eb, Ev, Ea. split; [done|].
  split; [by split_and!|]. rewrite !first_error_app, !Forall_map.
  destruct (first_error rb.1); [done|]. destruct (first_error rv.1); [done|]. intros Hn. auto.
Qed.

(** C4: the flags of payloads and POP data never lie: if every flag that is set
    before a call of [checkPopData] is on something proved (proof of work,
    publication, signature, Merkle paths, contiguous Bitcoin headers, limits,
    distinct ids), the same holds after it, the data are unchanged, and when the
    call returns success the POP data are proved. *)
Theorem checkPopData_sound v p r p' : validator_ok v → PopData_valid (popdata_of p) → flags_ok v p →
  checkPopData v p = Ok (r, p') →
  flags_ok v p' ∧ popdata_of p' = popdata_of p ∧ (r = Ok tt → popdata_proved v (popdata_of p)).
Proof.
  intros Hv Hd Hf E. destruct (cp_checked p) eqn:Ec.
  { unfold checkPopData in E. rewrite Ec in E. injection E as <- <-. split_and!; [done..|]. intros _. by apply Hf. }
  destruct (checkPopData_limits v p (proj2 Hv) Ec) as [Hrun Hlim]. pose proof (Hlim _ E) as Hl. cbn [fst snd] in Hl.
  destruct Hl as [Hl|[-> Hr]]; [|done]. rewrite (Hrun Hl) in E. apply bind_Ok in E as ([rs q] & Hq & Hfin).
  destruct (run_checks_inv v p _ Hv Hd Hf Hq) as (Eq & Fq & Pq). cbn [fst snd] in *. unfold finish in Hfin. cbn [fst snd] in Hfin.
  destruct (first_error rs) as [t|]; [by injection Hfin as <- <-|]. destruct (Pq eq_refl) as (P1 & P2 & P3).
  destruct (checkPopDataForDuplicates (popdata_of q)) as [[]|t| | | |] eqn:Edup; [|by injection Hfin as <- <-|done..].
  injection Hfin as <- <-. apply duplicates_sound in Edup as (D1 & D2 & D3). rewrite Eq in *.
  destruct Hl as (L1 & L2 & L3 & L4).
  assert (popdata_proved v (popdata_of p)) as HP by (split_and!; done). destruct q as [ver ctx vt at_ ch]. cbn in *.
  split; [|split; [exact Eq|done]]. split; [apply Fq|]. split; [apply Fq|]. intros _. unfold popdata_of in *. cbn in *. by rewrite Eq.
Qed.

(** The checks of all payloads, in the order in which their results are read. *)
Definition payload_checks v p : list (result unit) :=
  map (λ b, checkBlock_vbk b (vbk_ v)) (cp_context p) ++
  map (flag_check (λ x, vtb_checks x (btc_ v) (vbk_ v))) (cp_vtbs p) ++
  map (flag_check (λ x, atv_checks x (getAltParams v) (vbk_ v))) (cp_atvs p).

Definition after_checks v p : CheckedPopData :=
  mkCheckedPopData (cp_version p) (cp_context p)
    (map (after_check (λ x, vtb_checks x (btc_ v) (vbk_ v))) (cp_vtbs p))
    (map (after_check (λ x, atv_checks x (getAltParams v) (vbk_ v))) (cp_atvs p)) false.

Lemma run_checks_total v p : Forall safe (payload_checks v p) →
  run_checks v p = Ok (map trace_of (payload_checks v p), after_checks v p).
Proof.
  unfold payload_checks. rewrite !Forall_app, !Forall_map. intros (Hb & Hv & Ha). unfold run_checks, checkVTB, checkATV.
  rewrite addChecks_plain_total by done. cbn [mbind result_bind].
  rewrite addChecks_total by done. cbn [mbind result_bind]. rewrite addChecks_total by done. cbn [mbind result_bind fst snd].
  by rewrite !map_app, !map_map.
Qed.

Lemma first_error_after pre t post : Forall (λ m, m = Ok tt) pre →
  first_error (map trace_of (pre ++ Invalid t :: post)) = Some t.
Proof. induction 1 as [|m pre -> Hpre IH]; [done|exact IH]. Qed.

(** C31: when POP data within the limits have an invalid payload, the call fails with
    the reasons of the first one, in the order headers, VTBs, ATVs, and marks
    exactly the payloads that pass their check, those behind it included. *)
Theorem checkPopData_first_error v p pre t post : AltParams.params_ok (getAltParams v) → cp_checked p = false →
  limits v (popdata_of p) → payload_checks v p = pre ++ Invalid t :: post →
  Forall (λ m, m = Ok tt) pre → Forall safe post →
  checkPopData v p = Ok (Invalid (t ++ ["pop-sl-invalid"%string]), after_checks v p).
Proof.
  intros Hp Hc Hl E Hpre Hpost. rewrite (proj1 (checkPopData_limits v p Hp Hc) Hl), run_checks_total, E.
  - cbn [mbind result_bind]. unfold finish. cbn [fst snd]. by rewrite first_error_after.
  - rewrite E. apply Forall_app. split; [|by constructor]. eapply Forall_impl; [exact Hpre|]. by intros m ->.
Qed.

(** ** What escapes the checks

    The address of a malformed key makes the check of a signature throw. *)
Lemma checkSignature_malformed_key reason key h sg : length key ≠ PUBLIC_KEY_ASN1_SIZE →
  length key ≠ PUBLIC_KEY_UNCOMPRESSED_SIZE → length key ≠ PUBLIC_KEY_COMPRESSED_SIZE →
  ∃ a, Address_valid a ∧ checkSignature_with reason a (Ok h) sg key = Throw "publicKeyFromVbk(): invalid public key".
Proof.
  intros H1' H2' H3'. destruct (fromPublicKey_valid key) as (a & _ & Ha & _ & Hd). exists a. split; [exact Ha|].
  unfold checkSignature_with, publicKeyFromVbk. rewrite Hd. cbn [mbind result_bind negb].
  by rewrite !(proj2 (Nat.eqb_neq _ _)) by done.
Qed.
End popdata.

(** The first height of epoch 4096 is plausible, although the tables of ethash end
    at epoch 4095. *)
Lemma plausible_epoch : ∃ b, checkVbkBlockPlausibility b VbkChainParamsMain = Ok tt ∧
  ethashGetEpochWithoutOffset (Vbk.height b) = VBK_MAX_CALCULATED_EPOCHS_SIZE.
Proof.
  exists (Vbk.mkVbkBlock 32768000 2 [] [] [] [] 2538396052 0 0). split; vm_compute; reflexivity.
Qed.

(** The checks of VTBs and ATVs do not look at the height of the header they name: the
    search for duplicates takes its hash, and aborts. *)
Lemma duplicates_abort `{Hashes} `{ProgPow} version v l : Vbk.hashable (containingBlock v) = false →
  checkPopDataForDuplicates (mkPopData version [] (v :: l) []) = Assert "epoch < VBK_MAX_CALCULATED_EPOCHS_SIZE".
Proof. intros Hh. unfold checkPopDataForDuplicates, computeHashes. cbn. unfold Vbk.computeHash. by rewrite Hh. Qed.

(** ** POP data that pass: toy hashes, and signatures that are the byte 1 *)
Module Example_stateless.
#[local] Existing Instance toy_hashes.
#[local] Existing Instance VbkContext.Example_vbk.toy_progpow.
#[local] Instance toy_ec : EcLibrary.
Proof.
  refine {| ec_pubkey := list Z; ec_pubkey_parse k := Some k; ec_pubkey_serialize k := Some (repeat 4 65);
    ec_verify_der h s k := bool_decide (s = [1]) |}.
  intros k v [= <-]. split; [|done]. apply (bool_decide_unpack _). by vm_compute.
Defined.
#[local] Instance ct : CtParams := {| ALT_HASH_SIZE := 32; ALT_HASH_SIZE_range := conj eq_refl eq_refl |}.
Definition zeros (n : nat) : list Z := replicate n 0.
Definition key : list Z := 2 :: zeros 32.
Definition addr : Address := match fromPublicKey key with Ok a => a | _ => toy_address end.
Definition header : list Z := match written (Alt.toRaw getBootstrapBlock) with Ok w => w | _ => [] end.
Definition ctxinfo : list Z := encoding (mkAuthenticated (mkContextInfo 7 (mkKeystoneContainer [] [])) (zeros 32)).
Definition vtx : VbkTx :=
  mkVbkTx (mkNetwork (Some 0xBB) 1) addr (mkCoin 10) [mkOutput addr (mkCoin 7)] 0
    (mkPublicationData 3 header ctxinfo []) [1] key.
Definition get {A} (d : A) (m : result A) : A := match m with Ok a => a | _ => d end.
Definition path (h : list Z) : VbkPath.VbkMerklePath := VbkPath.mkVbkMerklePath 1 0 h [zeros 32; zeros 32].
Definition block (root : list Z) : Vbk.VbkBlock :=
  Vbk.mkVbkBlock 10 2 (zeros 12) (zeros 9) (zeros 9) root 1553699059 0x01010000 5.
Definition atv : ATV := let h := get [] (VbkTx_getHash vtx) in
  mkATV 1 vtx (path h) (block (VbkMerklePath_calculateMerkleRoot (path h))).
Definition btc (n : Z) : Btc.BtcBlock := Btc.mkBtcBlock 1 (zeros 32) (zeros 32) 1555501858 0x207fffff n.
Definition published : Vbk.VbkBlock := block (zeros 16).
Definition pubdata : list Z := get [] (written (Vbk.toRaw published +++ getPopBytes addr)).
Definition bpath : MerklePath := mkMerklePath 0 (sha256twice pubdata) [].
Definition ptx : VbkPopTx := 
  let proof := Btc.mkBtcBlock 1 (zeros 32) (rev (sha256twice pubdata)) 1555501858 0x207fffff 7 in
  mkVbkPopTx (mkNetwork (Some 0xBB) 2) addr published (mkBtcTx pubdata) bpath proof [btc 3] [1] key.
Definition vtb : VTB := let h := get [] (VbkPopTx_getHash ptx) in
  mkVTB 1 ptx (path h) (block (VbkMerklePath_calculateMerkleRoot (path h))).
Definition validator : Validator := mkValidator (AltChainParamsRegTest 3) VbkChainParamsRegTest BtcChainParamsRegTest.
Definition pd : CheckedPopData := mkCheckedPopData 1 [published] [mkFlagged vtb false] [mkFlagged atv false] false.
Definition pd_after : CheckedPopData :=
  mkCheckedPopData 1 [published] [mkFlagged vtb true] [mkFlagged atv true] true.

Lemma validator_is_ok : validator_ok validator.
Proof.
  split; [split|].
  - split; [apply (bool_decide_unpack _); vm_compute; done|done].
  - split; [apply (bool_decide_unpack _); vm_compute; done|by vm_compute].
  - repeat split; vm_compute; done.
Defined.

Lemma parts_valid : Serde.valid published ∧ Serde.valid vtb ∧ Serde.valid atv.
Proof.
  assert (Serde.encodable published) as E1 by (apply (bool_decide_unpack _); vm_compute; exact I).
  assert (Serde.encodable vtb) as E2 by (apply (bool_decide_unpack _); vm_compute; exact I).
  assert (Serde.encodable atv) as E3 by (apply (bool_decide_unpack _); vm_compute; exact I).
  split_and!; by apply codec_valid.
Defined.

Lemma pd_is_valid : PopData_valid (popdata_of pd).
Proof.
  destruct parts_valid as (E1 & E2 & E3). unfold PopData_valid, popdata_of, pd.
  cbn [cp_version cp_context cp_vtbs cp_atvs pop_version context vtbs atvs map item length].
  assert (∀ A (P : A → Prop) x, P x → Forall P [x]) as Hone by (intros; by constructor).
  split; [reflexivity|]. split; [|split]; (split; [apply Hone; assumption|by vm_compute]).
Defined.

Lemma fresh_ok {A} (P : A → Prop) (x : A) : Forall (flag_ok P) [mkFlagged x false].
Proof. by repeat constructor. Defined.

Lemma checkPopData_sound_witness : checkPopData validator pd = Ok (Ok tt, pd_after) ∧
  flags_ok validator pd_after ∧ popdata_proved validator (popdata_of pd).
Proof.
  assert (checkPopData validator pd = Ok (Ok tt, pd_after)) as E by (vm_compute; reflexivity).
  assert (flags_ok validator pd) as Hf by (split; [apply fresh_ok|split; [apply fresh_ok|discriminate]]).
  destruct (checkPopData_sound validator pd (Ok tt) pd_after validator_is_ok pd_is_valid Hf E) as (H1 & _ & H2).
  split; [exact E|]. split; [exact H1|]. by apply H2.
Defined.

(** A header without work before a VTB and an ATV that pass. *)
Definition no_work : Vbk.VbkBlock :=
  Vbk.mkVbkBlock 10 2 (zeros 12) (zeros 9) (zeros 9) (zeros 16) 1553699059 0 5.
Definition bad_pd : CheckedPopData :=
  mkCheckedPopData 1 [published; no_work] [mkFlagged vtb false] [mkFlagged atv false] false.

Lemma checkPopData_first_error_witness :
  checkPopData validator bad_pd = Ok (Invalid ["vbk-bad-pow"; "pop-sl-invalid"]%string, after_checks validator bad_pd) ∧
  map checked (cp_vtbs (after_checks validator bad_pd)) = [true].
Proof.
  split; [|vm_compute; reflexivity].
  apply (checkPopData_first_error validator bad_pd [Ok tt] ["vbk-bad-pow"%string] [Ok tt; Ok tt]).
  - apply validator_is_ok.
  - reflexivity.
  - split; [eexists; split; [vm_compute; reflexivity|by vm_compute]|]. by vm_compute.
  - vm_compute. reflexivity.
  - by repeat constructor.
  - by repeat constructor.
Defined.


End Example_stateless.
