(* ===== verification/PowTrees.v ===== *)
(** * The Bitcoin and the VeriBlock proof-of-work trees
    ([blocktree.hpp] with [btc_chain_params.hpp], [vbk_chain_params.hpp])

    [BlockTree<BtcBlock, BtcChainParams>] and [BlockTree<VbkBlock,
    VbkChainParams>]: the keys of the node stores are the 32-byte Bitcoin hash
    and the last 12 bytes of the VeriBlock hash, the rules are the stateless
    checks of [StatelessValidation] and the contextual checks of [BtcContext] and
    [VbkContext].  [btc_acceptBlockHeader_correct] composes them: a Bitcoin tree
    accepts exactly the headers that the rules accept, and never aborts. *)
From Stdlib Require Import String.
From S2P Require Import Prelude BlockIndex Chain TreeAlgo PayloadsIndex BaseTree TreeInv TreeStorage BlockTree BlockTreeInv AcceptHeader Serde ArithUint256 Address Blocks BtcContext VbkContext Payloads Endorsements PopState BlockAddons StoredAddons StatelessValidation.
Import U256.

(** ** What the trees read of their parameters *)
Record TreeParams := mkTreeParams {
  tp_numBlocksForBootstrap : Z;
  tp_getOldBlocksWindow : Z;
  tp_getMaxReorgBlocks : Z;
  tp_preserveBlocksBehindFinal : Z
}.

Definition BTC_MAX_REORG_BLOCKS_MIN_VALUE : Z := 10000.
Definition VBK_MAX_REORG_BLOCKS_MIN_VALUE : Z := 20000.

(** [getMaxReorgBlocks] asserts that it is at least the adjustment interval. *)
Definition btc_tree_params (bootstrap : Z) (p : BtcChainParams) : result TreeParams :=
  interval ← getDifficultyAdjustmentInterval p;
  vassert (interval <=? BTC_MAX_REORG_BLOCKS_MIN_VALUE) "mMaxReorgBlocks";;
  Ok (mkTreeParams bootstrap 1000 BTC_MAX_REORG_BLOCKS_MIN_VALUE 0).

Definition btc_main_tree : result TreeParams :=
  interval ← getDifficultyAdjustmentInterval BtcChainParamsMain; btc_tree_params interval BtcChainParamsMain.
Definition btc_test_tree : result TreeParams :=
  interval ← getDifficultyAdjustmentInterval BtcChainParamsTest; btc_tree_params interval BtcChainParamsTest.
Definition btc_regtest_tree : result TreeParams := btc_tree_params 1 BtcChainParamsRegTest.

Definition vbk_endorsementSettlementInterval : Z := 400.
Definition vbk_finalityDelay : Z := 11.
Definition vbk_forkResolutionLookUpTable : list Z := [100; 100; 95; 89; 80; 69; 56; 40; 21].
Definition vbk_tree_params (bootstrap : Z) : TreeParams :=
  mkTreeParams bootstrap 12000 VBK_MAX_REORG_BLOCKS_MIN_VALUE vbk_endorsementSettlementInterval.
Definition vbk_main_tree : TreeParams := vbk_tree_params (getRetargetPeriod VbkChainParamsMain).
Definition vbk_test_tree : TreeParams := vbk_tree_params (getRetargetPeriod VbkChainParamsTest).
Definition vbk_regtest_tree : TreeParams := vbk_tree_params 0.

(** The interval of Bitcoin, 2016 blocks, passes the assertion. *)
Lemma btc_trees_ok :
  btc_main_tree = Ok (mkTreeParams 2016 1000 10000 0) ∧ btc_test_tree = Ok (mkTreeParams 2016 1000 10000 0) ∧
  btc_regtest_tree = Ok (mkTreeParams 1 1000 10000 0).
Proof. by vm_compute. Qed.

(** ** Headers *)
Section headers.
Context `{Hashes} `{ProgPow}.

#[export] Instance btc_block_hash : BlockHash Btc.BtcBlock (list Z) := Btc.calculateHash.
#[export] Instance btc_block_header : BlockHeader Btc.BtcBlock (list Z) (list Z) := {|
  getPreviousBlock := Btc.previousBlock;
  makePrevHash h := h;
  hashIsPrevious b := bool_decide (Btc.calculateHash b = Btc.previousBlock b);
  sameBlock a b := bool_decide (a = b); sameBlock_refl b := bool_decide_eq_true_2 (b = b) eq_refl
|}.

#[export] Instance vbk_block_hash : BlockHash Vbk.VbkBlock (list Z) := Vbk.calculateHash.
#[export] Instance vbk_block_header : BlockHeader Vbk.VbkBlock (list Z) (list Z) := {|
  getPreviousBlock := Vbk.previousBlock;
  makePrevHash h := trimLE 12 h;
  hashIsPrevious b := bool_decide (trimLE 12 (Vbk.calculateHash b) = Vbk.previousBlock b);
  sameBlock a b := bool_decide (a = b); sameBlock_refl b := bool_decide_eq_true_2 (b = b) eq_refl
|}.

(** ** Rules *)
Definition btc_work (b : Btc.BtcBlock) : Z := match BtcContext.getBlockProof b with Ok w => le_Z w | _ => 0 end.

Definition btc_rules (params : BtcChainParams) (tp : TreeParams) (now : Z)
    : BlockRules (list Z) Btc.BtcBlock BtcBlockAddon := {|
  block_name := "BTC";
  checkBlock b := checkBlock_btc b params;
  BlockTree.contextuallyCheckBlock m p b := BtcContext.contextuallyCheckBlock params now m p b true;
  BlockTree.getBlockProof := btc_work;
  numBlocksForBootstrap := tp_numBlocksForBootstrap tp;
  getOldBlocksWindow := tp_getOldBlocksWindow tp;
  getMaxReorgBlocks := tp_getMaxReorgBlocks tp;
  preserveBlocksBehindFinal := tp_preserveBlocksBehindFinal tp
|}.

Definition vbk_rules (params : VbkChainParams) (tp : TreeParams) (now : Z)
    : BlockRules (list Z) Vbk.VbkBlock VbkBlockAddon := {|
  block_name := "VBK";
  checkBlock b := checkBlock_vbk b params;
  BlockTree.contextuallyCheckBlock m p b := VbkContext.contextuallyCheckBlock params now m p b true;
  BlockTree.getBlockProof b := le_Z (VbkContext.getBlockProof b);
  numBlocksForBootstrap := tp_numBlocksForBootstrap tp;
  getOldBlocksWindow := tp_getOldBlocksWindow tp;
  getMaxReorgBlocks := tp_getMaxReorgBlocks tp;
  preserveBlocksBehindFinal := tp_preserveBlocksBehindFinal tp
|}.
End headers.

(** ** The Bitcoin tree *)
Section btc_tree.
Context `{Hashes} `{ProgPow}.
Context (params : BtcChainParams) (tp : TreeParams) (now : Z).
#[local] Instance rules : BlockRules (list Z) Btc.BtcBlock BtcBlockAddon := btc_rules params tp now.
Notation btc_tree := (BaseBlockTree (list Z) (list Z) Btc.BtcBlock BtcBlockAddon (list Z) unit).
Implicit Types (t : btc_tree) (b : Btc.BtcBlock).
Definition newBtcHeader : Btc.BtcBlock := Btc.mkBtcBlock 0 (repeat 0 32) (repeat 0 32) 0 0 0.

Definition btc_acceptBlockHeader b t : result (btc_tree * (list string + list Z)) :=
  acceptBlockHeader (HK := plain_hooks) newBtcAddon newBtcHeader b t.

(** The block a header refers to allows the contextual check to be computed. *)
Record context_ok t b (j : BlockIndex (list Z) Btc.BtcBlock BtcBlockAddon) : Prop := {
  co_height : height j < INT32_MAX;
  co_interval : BtcContext.interval_stored params (blocks_ t) (Btc.previousBlock b) j;
  co_bits : 0 <= BtcContext.getDifficulty j < 2 ^ 32;
  co_target : BtcContext.getPowNoRetargeting params = false →
    compact_value (BtcContext.getDifficulty j) * (BtcContext.getPowTargetTimespan params * 4) < modulus
}.

Lemma btc_context_safe t b j : BtcContext.params_ok params → wf_store (blocks_ t) → blocks_ t !! Btc.previousBlock b = Some j →
  context_ok t b j → safe (BtcContext.contextuallyCheckBlock params now (blocks_ t) (Btc.previousBlock b) b true).
Proof.
  intros Hpo W Hj [Hh Hi Hb Ht]. unfold BtcContext.contextuallyCheckBlock.
  destruct (BtcContext.getNextWorkRequired_total params _ _ _ Hpo W Hj Hh Hi Hb Ht b) as [c ->]. cbn [mbind result_bind].
  destruct (negb (Btc.bits b =? c)); [done|]. apply or_invalid_safe. unfold BtcContext.checkBlockTime.
  destruct (BtcContext.getMedianTimePast_ok (blocks_ t) _ j W Hj) as (l & m & _ & -> & _). cbn [mbind result_bind].
  destruct (_ <? _); [done|]. by destruct (_ <? _).
Qed.

Definition context_accepts t b : Prop :=
  BtcContext.getNextWorkRequired params (blocks_ t) (Btc.previousBlock b) b = Ok (Btc.bits b) ∧
  ∃ m, BtcContext.getMedianTimePast (blocks_ t) (Btc.previousBlock b) = Ok m ∧
    m <= Btc.timestamp b <= u32 (now + BtcContext.mMaxFutureBlockTime params).

Lemma btc_context_iff t b j : BtcContext.params_ok params → wf_store (blocks_ t) → blocks_ t !! Btc.previousBlock b = Some j →
  context_ok t b j →
  BtcContext.contextuallyCheckBlock params now (blocks_ t) (Btc.previousBlock b) b true = Ok () ↔ context_accepts t b.
Proof.
  intros Hpo W Hj [Hh Hi Hb Ht]. unfold BtcContext.contextuallyCheckBlock, context_accepts.
  destruct (BtcContext.getNextWorkRequired_total params _ _ _ Hpo W Hj Hh Hi Hb Ht b) as [c ->]. cbn [mbind result_bind].
  unfold BtcContext.checkBlockTime. destruct (BtcContext.getMedianTimePast_ok (blocks_ t) _ j W Hj) as (l & m & _ & -> & _).
  cbn [mbind result_bind]. destruct (Z.eqb_spec (Btc.bits b) c) as [<-|Hne]; cbn [negb].
  - destruct (Z.ltb_spec (Btc.timestamp b) m), (Z.ltb_spec (u32 (now + BtcContext.mMaxFutureBlockTime params)) (Btc.timestamp b));
      cbn [or_invalid]; split; try done; try (intros (_ & m' & [= <-] & ? & ?); lia).
    intros _. split; [done|]. by exists m.
  - split; [done|]. intros [[= ->] _]. done.
Qed.
End btc_tree.

(** ** Properties *)
Section props.
Context `{Hashes} `{ProgPow}.
Context (params : BtcChainParams) (tp : TreeParams) (now : Z).
Notation btc_tree := (BaseBlockTree (list Z) (list Z) Btc.BtcBlock BtcBlockAddon (list Z) unit).
Implicit Types (t : btc_tree) (b : Btc.BtcBlock).

(** C37: the Bitcoin tree with its real rules.  For any header of the right sizes
    that does not collide with a stored one, [acceptBlockHeader] returns and keeps
    the invariant of the tree and the choice of the chain with the most work; when
    its previous block is stored and not failed, it is accepted exactly when its
    hash proves the work of its difficulty bits, these are the bits the retargeting
    asks for, and its time is not before the median of the last 11 blocks nor too
    far in the future; a header that is not stored afterwards has left the tree as
    it was. *)
Theorem btc_acceptBlockHeader_correct t b j :
  BtcContext.params_ok params → btree_inv t → best_work t → no_collision t b →
  Btc.calculateHash b ≠ Btc.previousBlock b → in_range uint32_t (Btc.bits b) →
  blocks_ t !! Btc.previousBlock b = Some j → isDeleted j = false → isFailed j = false → context_ok params t b j →
  ∃ t' r, btc_acceptBlockHeader params tp now b t = Ok (t', r) ∧ btree_inv t' ∧ best_work t' ∧
    (r = inr (Btc.calculateHash b) ↔ btc_pow b params ∧ context_accepts params now t b) ∧
    (getBlockIndex t' (Btc.calculateHash b) = None → t' = t).
Proof.
  intros Hpo Hinv Hbest Hcol Hsane Hbits Hj Hd Hf Hctx.
  pose proof (so_wf _ (ti_store _ (bi_inv _ _ Hinv))) as W.
  pose proof (checkProofOfWork_btc_ok b params Hbits (po_limit _ Hpo)) as (pow & Epow & Hpow).
  assert (checkBlock_btc b params = if pow then Ok () else invalid "btc-bad-pow") as Echeck.
  { unfold checkBlock_btc. rewrite Epow. by destruct pow. }
  destruct (accept_ok (g := (0, false)) (BlockRules0 := rules params tp now) newBtcAddon newBtcHeader t b) as (t' & r & Hr & Hi & Hb & Ha & Hacc);
    [done|done|done|by apply bool_decide_eq_false_2| | |].
  { cbn. rewrite Echeck. by destruct pow. }
  { intros jp Hjp. cbn in *. assert (jp = j) as -> by congruence. split; [apply Hctx|]. by apply (btc_context_safe params now t b j). }
  exists t', r. split; [exact Hr|]. split; [done|]. split; [by apply Hb|].
  unfold acceptance, rejects, passes, rules, btc_rules in Hacc.
  cbn [checkBlock BlockTree.contextuallyCheckBlock getPreviousBlock btc_block_header] in Hacc. rewrite Echeck in Hacc.
  pose proof (btc_context_iff params now t b j Hpo W Hj Hctx) as Hiff.
  assert (btc_pow b params ∧ context_accepts params now t b ↔ pow = true ∧
    is_ok (BtcContext.contextuallyCheckBlock params now (blocks_ t) (Btc.previousBlock b) b true) = true) as ->.
  { rewrite Hpow, <- Hiff. destruct (BtcContext.contextuallyCheckBlock _ _ _ _ _ _) as [[]| | | | |]; naive_solver. }
  destruct Hacc as [(Hrej & -> & e & ->)|(jp & (Hc & Hjp & _ & Hx) & Hres & _)].
  - split; [|done]. split; [done|]. intros [-> Hx]. destruct Hrej as [?|[Hg|?]]; [done| |congruence].
    unfold getBlockIndex in Hg. by rewrite Hj, Hd in Hg.
  - assert (jp = j) as -> by congruence. specialize (Hres Hf). subst r. split.
    + split; [|done]. intros _. split; [by destruct pow|done].
    + destruct Ha as (_ & i & Hi' & _ & Hdi & _). unfold getBlockIndex. change (hash_key b) with (Btc.calculateHash b) in Hi'.
      by rewrite Hi', Hdi.
Qed.
End props.

(** A tree with a genesis block and one block on top of it. *)
Module Example_btc.
#[local] Existing Instance toy_hashes.
Definition params : BtcChainParams := BtcChainParamsRegTest.
Definition tp : TreeParams := mkTreeParams 1 1000 10000 0.
#[local] Instance rules : BlockRules (list Z) Btc.BtcBlock BtcBlockAddon := btc_rules params tp 2000.
Notation btc_tree := (BaseBlockTree (list Z) (list Z) Btc.BtcBlock BtcBlockAddon (list Z) unit).
Definition block (prev : list Z) (time nonce : Z) : Btc.BtcBlock := Btc.mkBtcBlock 1 prev (repeat 7 32) time 0x207fffff nonce.
Definition genesis : Btc.BtcBlock := block (repeat 9 32) 1000 1.
Definition t : btc_tree :=
  match bootstrapWithGenesis (HK := plain_hooks) newBtcAddon newBtcHeader genesis (emptyTree ()) with Ok t => t | _ => emptyTree () end.
Definition b : Btc.BtcBlock := block (Btc.calculateHash genesis) 1500 2.
Definition k : list Z := Btc.calculateHash genesis.

Lemma t_inv : btree_inv t.
Proof. refine (btree_check_ok t (bool_decide_unpack (btree_check t) _)). by vm_compute. Qed.
Lemma t_best : best_work t.
Proof. refine (best_check_ok t (@bool_decide_unpack (best_check t) (best_check_dec t) _)). by vm_compute. Qed.
Lemma regtest_valid : BtcContext.params_ok params.
Proof. split; [split; [repeat constructor; lia|done]|by vm_compute|by vm_compute]. Qed.
Definition genesis_node : BlockIndex (list Z) Btc.BtcBlock BtcBlockAddon :=
  default (newRootIndex 0 newBtcHeader newBtcAddon) (blocks_ t !! k).
Lemma genesis_lookup : blocks_ t !! Btc.previousBlock b = Some genesis_node.
Proof. by vm_compute. Qed.
Lemma b_fresh : no_collision t b.
Proof. intros i Hi. exfalso. assert (blocks_ t !! hash_key b = None) as E by (by vm_compute). congruence. Qed.
Lemma b_context : context_ok params t b genesis_node.
Proof. split; [by vm_compute|by vm_compute|by vm_compute|done]. Qed.
(** The general theorem on block trees, for the Bitcoin rules. *)
Lemma acceptBlockHeader_best_chain_witness :
  ∃ t' r, acceptBlockHeader (HK := plain_hooks) newBtcAddon newBtcHeader b t = Ok (t', r) ∧
    btree_inv t' ∧ best_work t' ∧ accepted t b t' r ∧
    (is_ok (checkBlock b) = false ∨ getBlockIndex t (getPreviousBlock b) = None → t' = t) ∧
    (is_ok (checkBlock b) = true → ∀ jp, blocks_ t !! getPreviousBlock b = Some jp →
      isDeleted jp = false → isFailed jp = false →
      is_ok (BlockTree.contextuallyCheckBlock (blocks_ t) (getPreviousBlock b) b) = true →
      r = inr (hash_key b)).
Proof.
  apply (acceptBlockHeader_best_chain newBtcAddon newBtcHeader t b);
    [reflexivity|apply t_inv|apply t_best|apply b_fresh|by vm_compute|by vm_compute|].
  intros jp Hjp. assert (jp = genesis_node) as -> by (pose proof genesis_lookup as E; change (getPreviousBlock b) with (Btc.previousBlock b) in Hjp; congruence).
  split; [apply b_context|]. by vm_compute.
Defined.
End Example_btc.
Import Example_btc.
#[local] Existing Instance toy_hashes.

Lemma btc_acceptBlockHeader_correct_witness :
  ∃ t' r, btc_acceptBlockHeader params tp 2000 b t = Ok (t', r) ∧ btree_inv t' ∧ best_work t' ∧
    (r = inr (Btc.calculateHash b) ↔ btc_pow b params ∧ context_accepts params 2000 t b) ∧
    (getBlockIndex t' (Btc.calculateHash b) = None → t' = t).
Proof.
  apply (btc_acceptBlockHeader_correct params tp 2000 t b genesis_node);
    [apply regtest_valid|apply t_inv|apply t_best|apply b_fresh|..|apply genesis_lookup| | |apply b_context]; by vm_compute.
Defined.
