(* ===== verification/Commands.v ===== *)
(** * Commands and command groups ([command_group.hpp])

    A [Command] changes a world [W] and can be rolled back.  A group executes
    its commands in order and rolls back on the first failure.  What the rest of
    the program relies on is [lawful]: a failed command leaves the world as it
    was, and a rollback restores the world before the command, up to an
    equivalence of worlds.  Groups of lawful commands are lawful. *)
From Stdlib Require Import String.
From S2P Require Import Prelude.

(** [Command]: the [bool] of [Execute] is its result. *)
Record Command (W : Type) := mkCommand {
  Execute : W → result (W * bool);
  UnExecute : W → result W
}.
Arguments mkCommand {W}.
Arguments Execute {W}.
Arguments UnExecute {W}.

Record CommandGroup (W : Type) := mkCommandGroup { id : list Z; commands : list (Command W); valid : bool }.
Arguments mkCommandGroup {W}.
Arguments id {W}.
Arguments commands {W}.
Arguments valid {W}.

Section run.
Context {W : Type}.

(** The rollback loops: [UnExecute] of the commands, last first. *)
Definition rollback (executed : list (Command W)) (w : W) : result W :=
  foldM (λ w c, UnExecute c w) executed w.

(** [executed] holds the executed commands, last first. *)
Fixpoint execute_loop (executed cmds : list (Command W)) (w : W) : result (W * bool) :=
  match cmds with
  | [] => Ok (w, true)
  | cmd :: cmds =>
    r ← Execute cmd w;
    if (r.2 : bool) then execute_loop (cmd :: executed) cmds r.1
    else w ← rollback executed r.1; Ok (w, false)
  end.

Definition execute (g : CommandGroup W) (w : W) : result (W * bool) := execute_loop [] (commands g) w.
Definition unExecute (g : CommandGroup W) (w : W) : result W := rollback (rev (commands g)) w.

(** A group is itself a command. *)
Definition group_command (g : CommandGroup W) : Command W := mkCommand (execute g) (unExecute g).
End run.

(** ** The contract of commands *)
Section laws.
Context {W : Type} `{Equiv W, !Equivalence (≡@{W})}.
Context (ok : W → Prop) (frame : W → W → Prop) `{!PreOrder frame}.

(** In equivalent worlds a command has the same outcome, in equivalent worlds;
    it returns; a failure changes nothing; the rollback restores the world. *)
Record lawful (c : Command W) : Prop := {
  law_execute w1 w2 : ok w1 → ok w2 → w1 ≡ w2 → ∃ b w1' w2',
    Execute c w1 = Ok (w1', b) ∧ Execute c w2 = Ok (w2', b) ∧ w1' ≡ w2' ∧ ok w1' ∧ ok w2' ∧
    frame w1 w1' ∧ frame w2 w2' ∧ (b = false → w1' ≡ w1);
  law_undo w1 w1' w2 : ok w1 → Execute c w1 = Ok (w1', true) → ok w2 → w2 ≡ w1' →
    ∃ w2', UnExecute c w2 = Ok w2' ∧ ok w2' ∧ w2' ≡ w1 ∧ frame w2 w2'
}.

Definition undoable (executed : list (Command W)) (w w0 : W) : Prop := ∀ w', ok w' → w' ≡ w →
  ∃ w'', rollback executed w' = Ok w'' ∧ ok w'' ∧ w'' ≡ w0 ∧ frame w' w''.

Lemma undoable_nil w : undoable [] w w.
Proof. intros w' Hok Hw. by exists w'. Qed.

Lemma undoable_cons c ex w w1 w0 : lawful c → ok w → Execute c w = Ok (w1, true) →
  undoable ex w w0 → undoable (c :: ex) w1 w0.
Proof.
  intros Hc Hok E Hex w' Hok' Hw'.
  destruct (law_undo c Hc w w1 w' Hok E Hok' Hw') as (w'' & E' & Hok'' & Hw'' & Hf).
  destruct (Hex w'' Hok'' Hw'') as (w3 & E3 & Hok3 & Hw3 & Hf3).
  exists w3. unfold rollback. cbn [foldM]. rewrite E'. cbn [mbind result_bind].
  split_and!; [done|done|done|by etrans].
Qed.

Lemma execute_loop_lawful cmds ex w1 w2 w0 : Forall lawful cmds → ok w1 → ok w2 → w1 ≡ w2 → undoable ex w1 w0 →
  ∃ b w1' w2', execute_loop ex cmds w1 = Ok (w1', b) ∧ execute_loop ex cmds w2 = Ok (w2', b) ∧ w1' ≡ w2' ∧
    ok w1' ∧ ok w2' ∧ frame w1 w1' ∧ frame w2 w2' ∧ (b = false → w1' ≡ w0) ∧
    (b = true → undoable (rev cmds ++ ex) w1' w0).
Proof.
  intros Hcmds. revert ex w1 w2. induction Hcmds as [|c cmds Hc Hcmds IH]; intros ex w1 w2 Hok1 Hok2 Hw Hex; cbn [execute_loop].
  { by exists true, w1, w2. }
  destruct (law_execute c Hc w1 w2 Hok1 Hok2 Hw) as (b & w1' & w2' & E1 & E2 & Hw' & Hok1' & Hok2' & Hf1 & Hf2 & Hfail).
  rewrite E1, E2. cbn [mbind result_bind fst snd]. destruct b.
  - destruct (IH (c :: ex) w1' w2') as (b & v1 & v2 & ? & ? & ? & ? & ? & ? & ? & ? & Hun); [done..|by apply (undoable_cons c ex w1)|].
    exists b, v1, v2. cbn [rev]. rewrite <- app_assoc. split_and!; [done..|by etrans|by etrans|done|done].
  - specialize (Hfail eq_refl).
    destruct (Hex w1' Hok1' Hfail) as (v1 & -> & Hokv1 & Hv1 & Hfv1).
    destruct (Hex w2') as (v2 & -> & Hokv2 & Hv2 & Hfv2); [done|by rewrite <- Hw'|].
    cbn [mbind result_bind]. exists false, v1, v2. split_and!; [done|done| |done|done|by etrans|by etrans|done|done].
    by rewrite Hv1, Hv2.
Qed.

(** A group of lawful commands is atomic: it returns, executes all of its
    commands or leaves the world as it was, and its rollback restores the world
    before the group. *)
Lemma group_lawful g : Forall lawful (commands g) → lawful (group_command g).
Proof.
  intros Hg. split.
  - intros w1 w2 Hok1 Hok2 Hw.
    destruct (execute_loop_lawful (commands g) [] w1 w2 w1 Hg Hok1 Hok2 Hw (undoable_nil w1))
      as (b & w1' & w2' & ? & ? & ? & ? & ? & ? & ? & ? & _).
    by exists b, w1', w2'.
  - intros w1 w1' w2 Hok1 E Hok2 Hw.
    destruct (execute_loop_lawful (commands g) [] w1 w1 w1 Hg Hok1 Hok1 (reflexivity _) (undoable_nil w1))
      as (b & u & u' & E1 & _ & _ & _ & _ & _ & _ & _ & Hun).
    cbn [Execute group_command] in E. unfold execute in E. rewrite E1 in E. injection E as -> ->.
    specialize (Hun eq_refl). rewrite app_nil_r in Hun. by apply Hun.
Qed.

(** The commands [cs] succeed one after the other. *)
Inductive runs : list (Command W) → W → W → Prop :=
| runs_nil w : runs [] w w
| runs_cons c cs w w1 w' : Execute c w = Ok (w1, true) → runs cs w1 w' → runs (c :: cs) w w'.

Lemma execute_loop_runs cmds ex w w' b : execute_loop ex cmds w = Ok (w', b) →
  if b then runs cmds w w' else ¬ ∃ v, runs cmds w v.
Proof.
  revert ex w. induction cmds as [|c cmds IH]; intros ex w; cbn [execute_loop].
  { intros [= -> <-]. constructor. }
  intros E. apply bind_Ok in E as ([w1 b1] & E1 & E). cbn [fst snd] in E. destruct b1.
  - apply IH in E. destruct b; [by econstructor|]. intros [v Hv]. apply E. exists v.
    inversion Hv as [|? ? ? w2 ? E2 Hr]; subst. rewrite E1 in E2. by injection E2 as <-.
  - apply bind_Ok in E as (w2 & _ & [= -> <-]). intros [v Hv]. inversion Hv; subst. congruence.
Qed.

(** C10: a group of lawful commands is atomic.  [execute] returns; it succeeds
    exactly when the commands succeed one after the other, in the world they lead
    to, and otherwise leaves the world as it was; [unExecute] then restores the
    world before the group. *)
Theorem execute_atomic g w : Forall lawful (commands g) → ok w →
  ∃ w' b, execute g w = Ok (w', b) ∧ ok w' ∧
    if b then runs (commands g) w w' ∧ ∃ w'', unExecute g w' = Ok w'' ∧ ok w'' ∧ w'' ≡ w
    else (¬ ∃ v, runs (commands g) w v) ∧ w' ≡ w.
Proof.
  intros Hg Hok. destruct (group_lawful g Hg) as [Hex Hun].
  destruct (Hex w w Hok Hok (reflexivity _)) as (b & w' & _ & E & _ & _ & Hok' & _ & _ & _ & Hfail).
  exists w', b. split_and!; [done|done|]. pose proof (execute_loop_runs _ _ _ _ _ E) as Hr. destruct b.
  - split; [done|]. destruct (Hun w w' w' Hok E Hok' (reflexivity _)) as (w'' & ? & ? & ? & _). by exists w''.
  - split; [done|]. by apply Hfail.
Qed.
End laws.

(** A store of distinct payloads: a command adds one, and fails when it is there. *)
Module Example_commands.
Definition push (a : Z) : Command (list Z) :=
  mkCommand (λ w, if bool_decide (a ∈ w) then Ok (w, false) else Ok (a :: w, true))
    (λ w, match w with
          | x :: l => vassert (x =? a) "not the last payload";; Ok l
          | [] => Assert "no payload"
          end).
#[export] Instance list_equiv : Equiv (list Z) := (=).
#[export] Instance list_equivalence : Equivalence (≡@{list Z}).
Proof. split; unfold equiv, list_equiv; repeat intro; congruence. Qed.

Definition any_change (w w' : list Z) : Prop := True.
#[export] Instance any_change_preorder : PreOrder any_change.
Proof. by split. Qed.

Lemma push_lawful a : lawful (λ _, True) any_change (push a).
Proof.
  split; unfold equiv, list_equiv.
  - intros l ? _ _ <-. cbn [Execute push]. case_bool_decide; by eexists _, _, _.
  - intros l w1' ? _ E _ ->. cbn [Execute push] in E. case_bool_decide; [done|]. injection E as <-.
    exists l. cbn [UnExecute push]. by rewrite Z.eqb_refl.
Qed.
Definition group : CommandGroup (list Z) := mkCommandGroup [1] [push 1; push 2; push 3] true.
End Example_commands.
Import Example_commands.

Lemma execute_atomic_witness :
  execute group [3] = Ok ([3], false) ∧
  ∃ w' b, execute group [4] = Ok (w', b) ∧ True ∧
    if b then runs (commands group) [4] w' ∧ ∃ w'', unExecute group w' = Ok w'' ∧ True ∧ w'' ≡ [4]
    else (¬ ∃ v, runs (commands group) [4] v) ∧ w' ≡ [4].
Proof.
  split; [by vm_compute|].
  apply (execute_atomic (λ _, True) any_change group [4]); [|done].
  repeat (constructor; [apply push_lawful|]). constructor.
Defined.
