(* ===== verification/PopStateMachine.v ===== *)
(** * The POP state machine ([pop_state_machine.hpp])

    [PopStateMachine<ProtectingBlockTree, ProtectedTree, ...>] applies and
    unapplies the payloads of the blocks of the protected tree [ed_].  The world
    is the protected tree; what else the commands change is part of it ([ext]: the
    protecting tree, which the comparator of the protected tree owns).  The
    commands of a block come from its payload ids ([commandGroupStore_.getCommands]);
    they are the parameter [getCommands].

    The virtual functions of the protected tree are the class [TreeHooks]; the
    machine reaches them through [invalidateSubtree] only, and only for a block
    of the active chain. *)
From Stdlib Require Import String.
From S2P Require Import Prelude BlockIndex Chain TreeAlgo PayloadsIndex BaseTree Commands.

Section machine.
Context {K H B A P Ext : Type} `{Countable K, Countable H, Countable P, BlockAddon A}.
Context `{HK : !TreeHooks K H B A P Ext}.
Notation tree := (BaseBlockTree K H B A P Ext).
Notation index_t := (BlockIndex K B A).
Notation world := tree.
Context (hasPayloads : A → bool).
Context (getCommands : B → A → result (list (CommandGroup world))).

(** [index.pprev->...]: the root is excluded by an assertion before. *)
Definition deref_prev (m : gmap K index_t) (i : index_t) : result index_t :=
  match pprev i with
  | Some p => deref m p
  | None => Undef "null pprev"
  end.

(** ** [assertBlockCanBeApplied], [assertBlockCanBeUnapplied] *)
Definition assertBlockCanBeApplied (m : gmap K index_t) (index : K) : result unit :=
  i ← deref m index;
  vassert (negb (isRoot i)) "cannot apply the root block";;
  p ← deref_prev m i;
  vassert (hasFlags p BLOCK_ACTIVE) "tried to apply a block that follows an unapplied block";;
  vassert (negb (hasFlags i BLOCK_ACTIVE)) "tried to apply an already applied block";;
  u ← allDescendantsUnapplied m i;
  vassert u "found an unapplied block that has some of its descendants applied";;
  vassert (negb (hasFlags i BLOCK_FAILED_CHILD)) "attempted to apply a block that has an invalid ancestor".

Definition assertBlockCanBeUnapplied (m : gmap K index_t) (index : K) : result unit :=
  i ← deref m index;
  vassert (negb (isRoot i)) "cannot unapply the root block";;
  vassert (negb (finalized i)) "cannot unapply finalized block";;
  vassert (hasFlags i BLOCK_ACTIVE) "tried to unapply an already unapplied block";;
  p ← deref_prev m i;
  vassert (hasFlags p BLOCK_ACTIVE) "tried to unapply a block that follows an unapplied block";;
  u ← allDescendantsUnapplied m i;
  vassert u "tried to unapply a block before unapplying its applied descendants".

(** The command groups of a block are executed like the commands of a group. *)
Definition block_group (groups : list (CommandGroup world)) : CommandGroup world :=
  mkCommandGroup [] (map group_command groups) true.

Definition execute_payloads (index : K) (w : world) : result (world * bool) :=
  i ← deref (blocks_ w) index;
  if hasPayloads (addon i) then
    groups ← getCommands (header i) (addon i); execute (block_group groups) w
  else Ok (w, true).

Definition unexecute_payloads (index : K) (w : world) : result world :=
  i ← deref (blocks_ w) index;
  if hasPayloads (addon i) then
    groups ← getCommands (header i) (addon i); unExecute (block_group groups) w
  else Ok w.

(** The end of [applyBlock]: the block is marked as applied. *)
Definition mark_applied (index : K) (t : tree) : result tree :=
  root ← getRoot t;
  ri ← deref (blocks_ t) root;
  let appliedChainBlockCount := height ri + appliedBlockCount t in
  i ← deref (blocks_ t) index;
  p ← deref_prev (blocks_ t) i;
  v ← isValid BLOCK_CAN_BE_APPLIED p;
  r ← node_raiseValidity index
        (if v && (height i =? appliedChainBlockCount) then BLOCK_CAN_BE_APPLIED
         else BLOCK_CAN_BE_APPLIED_MAYBE_WITH_OTHER_CHAIN) t;
  t ← modify index (setFlag BLOCK_ACTIVE) r.1;
  Ok (with_applied (appliedBlockCount t + 1) t).

Definition applyBlock (index : K) (w : world) : result (world * bool) :=
  assertBlockCanBeApplied (blocks_ w) index;;
  i ← deref (blocks_ w) index;
  valid ← isValid BLOCK_VALID_TREE i;
  if negb valid then Ok (w, false)
  else
    connected ← isValid BLOCK_CONNECTED i;
    vassert connected "attempted to apply an unconnected block";;
    r ← execute_payloads index w;
    if (r.2 : bool) then w ← mark_applied index r.1; Ok (w, true)
    else w ← invalidateSubtree index BLOCK_FAILED_POP false r.1; Ok (w, false).

Definition mark_unapplied (index : K) (t : tree) : result tree :=
  t ← modify index (unsetFlag BLOCK_ACTIVE) t;
  vassert (0 <? blocksCount (activeChain_ t)) "ed_.getBestChain().blocksCount() > 0";;
  vassert (0 <? appliedBlockCount t) "ed_.appliedBlockCount > 0";;
  Ok (with_applied (appliedBlockCount t - 1) t).

Definition unapplyBlock (index : K) (w : world) : result world :=
  assertBlockCanBeUnapplied (blocks_ w) index;;
  w ← unexecute_payloads index w;
  mark_unapplied index w.

(** ** Ranges of blocks *)
Fixpoint unapply_loop (fuel : nat) (current : option K) (to : K) (pred : K → world → bool) (w : world)
    : result (world * K) :=
  match current with
  | None => Assert "reached the genesis or first bootstrap block"
  | Some c =>
    if bool_decide (c = to) then Ok (w, to)
    else
      i ← deref (blocks_ w) c;
      ti ← deref (blocks_ w) to;
      vassert (height ti <? height i) "[from, to) is not a chain";;
      if negb (pred c w) then Ok (w, c)
      else
        match fuel with
        | O => OutOfFuel
        | Datatypes.S fuel =>
          w ← unapplyBlock c w;
          prev ← getPrev (blocks_ w) c;
          unapply_loop fuel prev to pred w
        end
  end.

Definition unapplyWhile (from to : K) (pred : K → world → bool) (w : world) : result (world * K) :=
  if bool_decide (from = to) then Ok (w, to)
  else
    i ← deref (blocks_ w) from;
    unapply_loop (Z.to_nat (height i)) (Some from) to pred w.

Definition unapply (from to : K) (w : world) : result world :=
  r ← unapplyWhile from to (λ _ _, true) w;
  vassert (bool_decide (r.2 = to)) "&firstUnprocessed == &to";;
  Ok r.1.

(** [unapply(Chain&)], [unapply(ChainSlice&)] *)
Definition unapply_chain (c : Chain K) (w : world) : result world :=
  vassert (negb (chain_empty c)) "!chain.empty()";;
  match chain_tip c, chain_first c with
  | Some tip, Some first => unapply tip first w
  | _, _ => Undef "null block in the chain"
  end.

(** [for (auto* index : chain)] *)
Fixpoint apply_loop (from : K) (blocks : list (option K)) (w : world) : result (world * bool) :=
  match blocks with
  | [] => Ok (w, true)
  | None :: _ => Undef "null block in the chain"
  | Some index :: blocks =>
    r ← applyBlock index w;
    if (r.2 : bool) then apply_loop from blocks r.1
    else
      i ← deref (blocks_ r.1) index;
      match pprev i with
      | None => Undef "null pprev"
      | Some prev => w ← unapply prev from r.1; Ok (w, false)
      end
  end.

Definition apply (from to : K) (w : world) : result (world * bool) :=
  if bool_decide (from = to) then Ok (w, true)
  else
    ti ← deref (blocks_ w) to;
    valid ← isValid BLOCK_VALID_TREE ti;
    if negb valid then Ok (w, false)
    else
      fi ← deref (blocks_ w) from;
      vassert (height fi <? height ti) "from.getHeight() < to.getHeight()";;
      c ← newChain (blocks_ w) (height fi + 1) (Some to);
      match chain_first c with
      | None => Assert "chain.first()"
      | Some first =>
        i ← deref (blocks_ w) first;
        vassert (bool_decide (pprev i = Some from)) "chain.first()->pprev == &from";;
        apply_loop from (chain c) w
      end.

Definition apply_chain (c : Chain K) (w : world) : result (world * bool) :=
  match chain_first c, chain_tip c with
  | Some first, Some tip => apply first tip w
  | _, _ => Undef "null block in the chain"
  end.

(** [PopStateMachine::setState] *)
Definition sm_setState (from to : K) (w : world) : result (world * bool) :=
  if bool_decide (from = to) then Ok (w, true)
  else
    forkBlock ← getForkBlock (blocks_ w) from to;
    match forkBlock with
    | None => Assert "Fork Block must exist!"
    | Some fork =>
      w ← unapply from fork w;
      r ← apply fork to w;
      if (r.2 : bool) then Ok r
      else
        r ← apply fork from r.1;
        vassert r.2 "state corruption: failed to rollback the state";;
        Ok (r.1, false)
    end.
End machine.
