(* ===== verification/PopStateMachineInv.v ===== *)
(** * The POP state machine switches between blocks atomically

    The abstract specification: the world is a function of the applied block,
    namely the result of executing the payloads of the blocks from the root to
    it ([reaches]).  [sm_setState_refines] shows that [setState] implements it:
    it never aborts, moves to the target exactly when the target is valid and
    its payloads can be executed, and otherwise restores the world. *)
From Stdlib Require Import String.
From S2P Require Import Prelude BlockIndex Chain TreeAlgo PayloadsIndex BaseTree TreeInv BlockTree BlockTreeInv Commands PopStateMachine.

Section inv.
Context {K H B A P Ext : Type} `{Countable K, Countable H, Countable P, BlockAddon A}.
Context `{HK : !TreeHooks K H B A P Ext}.
Notation tree := (BaseBlockTree K H B A P Ext).
Notation index_t := (BlockIndex K B A).
Notation store := (gmap K index_t).
Notation world := tree.
Context (hasPayloads : A → bool).
Context (getCommands : B → A → result (list (CommandGroup world))).
Implicit Types (m : store) (i j : index_t) (t : tree) (w : world) (k p x : K).

(** ** Nodes that agree on what the machine reads *)
Definition same_payloads i j : Prop :=
  hasPayloads (addon i) = hasPayloads (addon j) ∧
  getCommands (header i) (addon i) = getCommands (header j) (addon j).

(** What commands keep of a node. *)
Definition kept_node i j : Prop :=
  same_links i j ∧ finalized i = finalized j ∧ status i = status j ∧ same_payloads i j.

Definition kept w w' : Prop :=
  store_rel kept_node (blocks_ w) (blocks_ w') ∧ tips_ w = tips_ w' ∧ same_base w w'.

(** What the machine keeps of a node. *)
Definition evolved i j : Prop :=
  same_links i j ∧ finalized i = finalized j ∧ same_payloads i j ∧ level (status i) <= level (status j).

Definition evolves w w' : Prop :=
  store_rel evolved (blocks_ w) (blocks_ w') ∧ activeChain_ w = activeChain_ w'.

(** Worlds that differ in what the machine does to the status of blocks. *)
Definition status_node i j : Prop := same_node i j ∧ isDeleted i = isDeleted j.
Definition status_only w w' : Prop :=
  store_rel status_node (blocks_ w) (blocks_ w') ∧ ext w = ext w'.

#[export] Instance kept_node_equiv : Equivalence kept_node.
Proof.
  unfold kept_node, same_payloads. split.
  - intros i. split_and!; done.
  - intros i j (? & ? & ? & ? & ?). split_and!; by symmetry.
  - intros i j l (? & ? & ? & ? & ?) (? & ? & ? & ? & ?). split_and!; by etrans.
Qed.
#[export] Instance kept_preorder : PreOrder kept.
Proof.
  unfold kept. split.
  - intros w. split_and!; done.
  - intros w1 w2 w3 (? & ? & ?) (? & ? & ?). split_and!; by etrans.
Qed.

Lemma store_rel_preorder (R : index_t → index_t → Prop) : PreOrder R → PreOrder (store_rel R).
Proof.
  intros HR. split.
  - intros m k. destruct (m !! k); constructor. reflexivity.
  - intros m1 m2 m3 E1 E2 k. specialize (E1 k). specialize (E2 k).
    inversion E1 as [? ? R1 F1 F2|F1 F2]; rewrite <- F2 in E2; inversion E2; subst; constructor; by etrans.
Qed.
#[export] Instance evolved_preorder : PreOrder evolved.
Proof.
  unfold evolved, same_payloads. split.
  - intros i. split_and!; done.
  - intros i j l (? & ? & (? & ?) & ?) (? & ? & (? & ?) & ?). split_and!; by etrans.
Qed.
#[export] Instance evolves_preorder : PreOrder evolves.
Proof.
  pose proof (store_rel_preorder evolved _). unfold evolves. split.
  - intros w. by split.
  - intros w1 w2 w3 (? & ?) (? & ?). split; by etrans.
Qed.

(** A change that no invariant of the tree sees. *)
Definition neutral i j : Prop :=
  same_links i j ∧ can_tip i = can_tip j ∧ isFailed i = isFailed j ∧
  Z.testbit (status i) 7 = Z.testbit (status j) 7 ∧ status_ok (status j).

Lemma neutral_tree_inv t t' : store_rel neutral (blocks_ t) (blocks_ t') → tips_ t = tips_ t' → tree_inv t → tree_inv t'.
Proof.
  intros Hrel Etips [[W Hst] Hch Htips].
  assert (∀ k j, blocks_ t' !! k = Some j → ∃ i, blocks_ t !! k = Some i ∧ neutral i j) as Hback.
  { intros k j Hj. specialize (Hrel k). rewrite Hj in Hrel. inversion Hrel; subst. eauto. }
  assert (∀ x, is_valid_tip (blocks_ t) x ↔ is_valid_tip (blocks_ t') x) as Htip.
  { intros x. split.
    - intros (i & Hi & Hc & Hn). destruct (store_rel_lookup _ _ _ _ _ Hrel Hi) as (j & Hj & (_ & _ & En) & Ec & _).
      exists j. split; [done|]. split; [congruence|]. intros c jc Hin Hjc.
      destruct (Hback _ _ Hjc) as (ic & Hic & _ & <- & _). by apply (Hn c); [rewrite En|].
    - intros (j & Hj & Hc & Hn). destruct (Hback _ _ Hj) as (i & Hi & (_ & _ & En) & Ec & _).
      exists i. split; [done|]. split; [congruence|]. intros c ic Hin Hic.
      destruct (store_rel_lookup _ _ _ _ _ Hrel Hic) as (jc & Hjc & _ & -> & _). by apply (Hn c); [rewrite <- En|]. }
  constructor; [constructor| |].
  - eapply same_links_wf; [|exact W]. eapply store_rel_mono; [|exact Hrel]. by intros i j [? _].
  - intros k j Hj. by destruct (Hback _ _ Hj) as (i & _ & _ & _ & _ & _ & ?).
  - intros k j p jp Hj Hp Hjp. destruct (Hback _ _ Hj) as (i & Hi & (_ & Ep & _) & _ & _ & E7 & _).
    destruct (Hback _ _ Hjp) as (ip & Hip & _ & _ & Ef & _). rewrite <- E7, <- Ef.
    eapply (Hch k); [done| |done]. congruence.
  - intros x. by rewrite <- Etips, Htips.
Qed.

(** ** The specification: the world of a block *)
Context `{Equiv world, !Equivalence (≡@{world})}.
Context (ok : world → Prop).
Context (ok_status : ∀ w w', status_only w w' → ok w → ok w' ∧ w ≡ w').
Context (tip_level : validTipLevel <= 2).

(** The payloads of a block as one command. *)
Definition payloads_command i : Command world :=
  mkCommand
    (λ w, if hasPayloads (addon i) then
            groups ← getCommands (header i) (addon i); execute (block_group groups) w
          else Ok (w, true))
    (λ w, if hasPayloads (addon i) then
            groups ← getCommands (header i) (addon i); unExecute (block_group groups) w
          else Ok w).

(** [w] is the world after the payloads of the blocks from the root to [k]. *)
Inductive reaches (w0 : world) m : K → world → Prop :=
| reaches_root k i w : m !! k = Some i → pprev i = None → w ≡ w0 → reaches w0 m k w
| reaches_step k i p w1 w2 w : m !! k = Some i → pprev i = Some p → reaches w0 m p w1 → ok w1 →
    Execute (payloads_command i) w1 = Ok (w2, true) → w ≡ w2 → reaches w0 m k w.

(** The payloads of every block can be loaded, and are lawful. *)
Definition payloads_lawful m : Prop := ∀ k i, m !! k = Some i → hasPayloads (addon i) = true →
  ∃ groups, getCommands (header i) (addon i) = Ok groups ∧
    Forall (λ g, Forall (lawful ok kept) (commands g)) groups.

Lemma payloads_command_lawful m k i : payloads_lawful m → m !! k = Some i → lawful ok kept (payloads_command i).
Proof.
  intros Hm Hk. destruct (hasPayloads (addon i)) eqn:E.
  - destruct (Hm k i Hk E) as (groups & Eg & Hg).
    assert (lawful ok kept (group_command (block_group groups))) as [Hex Hun].
    { apply group_lawful; [apply _|]. cbn [block_group commands]. apply Forall_map.
      eapply Forall_impl; [exact Hg|]. intros g ?. by apply group_lawful; [apply _|]. }
    split; unfold payloads_command; cbn [Execute UnExecute]; rewrite E, Eg; [exact Hex|exact Hun].
  - split; unfold payloads_command; cbn [Execute UnExecute]; rewrite E.
    + intros w1 w2 ???. by exists true, w1, w2.
    + intros w1 w1' w2 ? [= ->] ??. by exists w2.
Qed.

Lemma same_payloads_command i j : same_payloads i j → payloads_command i = payloads_command j.
Proof. intros [E1 E2]. unfold payloads_command. by rewrite E1, E2. Qed.

Lemma execute_payloads_eq k i w : blocks_ w !! k = Some i →
  execute_payloads hasPayloads getCommands k w = Execute (payloads_command i) w.
Proof. intros Hk. unfold execute_payloads. by rewrite (deref_eq _ _ _ Hk). Qed.

Lemma unexecute_payloads_eq k i w : blocks_ w !! k = Some i →
  unexecute_payloads hasPayloads getCommands k w = UnExecute (payloads_command i) w.
Proof. intros Hk. unfold unexecute_payloads. by rewrite (deref_eq _ _ _ Hk). Qed.

Lemma reaches_equiv w0 m k w w' : w ≡ w' → reaches w0 m k w → reaches w0 m k w'.
Proof.
  intros E. destruct 1 as [k i w Hk Hp Hw|k i p w1 w2 w Hk Hp Hr Hok Hex Hw].
  - by eapply reaches_root; [..|rewrite <- E].
  - by eapply reaches_step; [..|rewrite <- E].
Qed.

Lemma reaches_det w0 m k w w' : payloads_lawful m → reaches w0 m k w → reaches w0 m k w' → w ≡ w'.
Proof.
  intros Hm Hr. revert w'. induction Hr as [k i w Hk Hp Hw|k i p w1 w2 w Hk Hp Hr IH Hok Hex Hw];
    intros w' Hr'; inversion Hr' as [? i' ? Hk' Hp' Hw'|? i' p' w1' w2' ? Hk' Hp' Hr1 Hok' Hex' Hw']; subst;
    assert (i' = i) as -> by congruence; try congruence.
  - by rewrite Hw, Hw'.
  - assert (p' = p) as -> by congruence. rewrite Hw, Hw'.
    destruct (law_execute _ _ _ (payloads_command_lawful m k i Hm Hk) w1 w1' Hok Hok' (IH _ Hr1))
      as (b & u & u' & Eu & Eu' & Hu & _).
    rewrite Hex in Eu. rewrite Hex' in Eu'. by simplify_eq.
Qed.

(** The payloads of a block succeed in its predecessor's world exactly when
    the block can be reached. *)
Lemma reaches_execute w0 m k i p w : payloads_lawful m → m !! k = Some i → pprev i = Some p →
  ok w → reaches w0 m p w →
  ∃ b w', Execute (payloads_command i) w = Ok (w', b) ∧ ok w' ∧ kept w w' ∧ (b = false → w' ≡ w) ∧
    (b = true → reaches w0 m k w') ∧ (b = true ↔ ∃ w1, reaches w0 m k w1).
Proof.
  intros Hm Hk Hp Hok Hr. pose proof (payloads_command_lawful m k i Hm Hk) as Hlaw.
  destruct (law_execute _ _ _ Hlaw w w Hok Hok (reflexivity _)) as (b & w' & w'' & E & _ & _ & Hok' & _ & Hkept & _ & Hfail).
  exists b, w'. split_and!; [done|done|done|done| |].
  - intros ->. by eapply reaches_step.
  - split; [intros ->; exists w'; by eapply reaches_step|].
    intros [w1 Hr1]. inversion Hr1 as [? i' ? Hk' Hp' _|? i' p' v1 v2 ? Hk' Hp' Hv Hokv Hexv _]; subst;
      assert (i' = i) as -> by congruence; [congruence|]. assert (p' = p) as -> by congruence.
    destruct (law_execute _ _ _ Hlaw w v1 Hok Hokv (reaches_det _ _ _ _ _ Hm Hr Hv)) as (b' & u & u' & Eu & Eu' & _).
    rewrite Hexv in Eu'. congruence.
Qed.

(** Both notions are about links and payloads only. *)
Definition same_spec i j : Prop := same_links i j ∧ same_payloads i j.

Lemma reaches_rel w0 m m' k w : store_rel same_spec m m' → reaches w0 m k w → reaches w0 m' k w.
Proof.
  intros Hrel. induction 1 as [k i w Hk Hp Hw|k i p w1 w2 w Hk Hp Hr IH Hok Hex Hw];
    destruct (store_rel_lookup _ _ _ _ _ Hrel Hk) as (j & Hj & (_ & Ep & _) & Hpay).
  - eapply reaches_root; [done|congruence|done].
  - eapply reaches_step; [done| |done|done| |done]; [congruence|].
    by rewrite <- (same_payloads_command _ _ Hpay).
Qed.

Lemma payloads_lawful_rel m m' : store_rel same_spec m m' → payloads_lawful m → payloads_lawful m'.
Proof.
  intros Hrel Hm k j Hj Hpay. specialize (Hrel k). rewrite Hj in Hrel.
  inversion Hrel as [i j' [_ [E1 E2]] Hi|]; subst. rewrite <- E2. apply (Hm k i); congruence.
Qed.

Lemma evolved_spec m m' : store_rel evolved m m' → store_rel same_spec m m'.
Proof. apply store_rel_mono. by intros i j (? & ? & ? & ?). Qed.
Lemma evolved_links m m' : store_rel evolved m m' → store_rel same_links m m'.
Proof. apply store_rel_mono. by intros i j (? & ? & ? & ?). Qed.
Lemma same_spec_sym m m' : store_rel same_spec m m' → store_rel same_spec m' m.
Proof.
  intros Hrel k. specialize (Hrel k). inversion Hrel as [i j [? [? ?]]|]; constructor. by split; [|split].
Qed.

(** ** Invariants of the machine

    [tip] is the tip of the active chain, which is fully valid; a block at
    [BLOCK_CAN_BE_APPLIED] can be reached. *)
Record machine_inv (w0 w : world) (tip : K) : Prop := {
  mi_tree : tree_inv w;
  mi_ok : ok w;
  mi_payloads : payloads_lawful (blocks_ w);
  mi_chain : chain_of (blocks_ w) (activeChain_ w) tip;
  mi_root : ∀ x i, blocks_ w !! x = Some i → startHeight_ (activeChain_ w) <= height i;
  mi_tip : ∀ x i, blocks_ w !! x = Some i → ancestor (blocks_ w) x tip → level (status i) = 4;
  mi_applicable : ∀ x i, blocks_ w !! x = Some i → level (status i) = 4 → ∃ w1, reaches w0 (blocks_ w) x w1
}.

(** The applied blocks are those from the root to [k]. *)
Record at_blocks (w : world) (k : K) : Prop := {
  ab_block : ∃ i, blocks_ w !! k = Some i ∧ isFailed i = false ∧
    appliedBlockCount w = height i - startHeight_ (activeChain_ w) + 1;
  ab_active : ∀ x i, blocks_ w !! x = Some i →
    (hasFlags i BLOCK_ACTIVE = true ↔ ancestor (blocks_ w) x k);
  ab_level : ∀ x i, blocks_ w !! x = Some i → ancestor (blocks_ w) x k → level (status i) = 4
}.

(** The machine is at block [k]. *)
Definition at_state (w0 w : world) (k : K) : Prop := at_blocks w k ∧ reaches w0 (blocks_ w) k w.

Lemma mi_wf w0 w tip : machine_inv w0 w tip → wf_store (blocks_ w).
Proof. intros Hi. apply (so_wf _ (ti_store _ (mi_tree _ _ _ Hi))). Qed.
Lemma mi_status w0 w tip k i : machine_inv w0 w tip → blocks_ w !! k = Some i → status_ok (status i).
Proof. intros Hi. apply (so_status _ (ti_store _ (mi_tree _ _ _ Hi))). Qed.

(** A step that raises only levels of blocks that can be reached. *)
Lemma machine_inv_step w0 w w' tip : machine_inv w0 w tip →
  tree_inv w' → store_rel evolved (blocks_ w) (blocks_ w') → activeChain_ w = activeChain_ w' → ok w' →
  (∀ x j, blocks_ w' !! x = Some j → level (status j) = 4 →
    (∃ i, blocks_ w !! x = Some i ∧ level (status i) = 4) ∨ ∃ w1, reaches w0 (blocks_ w) x w1) →
  machine_inv w0 w' tip.
Proof.
  intros Hi Htree Hev Echain Hok Hlvl.
  pose proof (evolved_links _ _ Hev) as Hlinks. pose proof (evolved_spec _ _ Hev) as Hspec.
  assert (∀ x j, blocks_ w' !! x = Some j → ∃ i, blocks_ w !! x = Some i ∧ evolved i j) as Hback.
  { intros x j Hj. specialize (Hev x). rewrite Hj in Hev. inversion Hev; subst. eauto. }
  constructor.
  - done.
  - done.
  - by apply (payloads_lawful_rel (blocks_ w)); [|apply Hi].
  - rewrite <- Echain. by eapply chain_of_links; [|apply Hi].
  - intros x j (i & Hx & (Eh & _) & _)%Hback. rewrite <- Echain, <- Eh. by eapply mi_root.
  - intros x j Hj Hanc. destruct (Hback x j Hj) as (i & Hx & _ & _ & _ & Hle).
    rewrite (ancestor_links _ _ _ _ Hlinks) in Hanc. rewrite (mi_tip _ _ _ Hi x i Hx Hanc) in Hle.
    destruct (so_status _ (ti_store _ Htree) x j Hj) as [Hle' _]. lia.
  - intros x j Hj Hl4. destruct (Hlvl x j Hj Hl4) as [(i & Hx & E4)|[w1 Hr]].
    + destruct (mi_applicable _ _ _ Hi x i Hx E4) as [w1 Hr]. exists w1. by eapply reaches_rel.
    + exists w1. by eapply reaches_rel.
Qed.

Lemma kept_neutral m m' : (∀ k i, m !! k = Some i → status_ok (status i)) →
  store_rel kept_node m m' → store_rel neutral m m'.
Proof.
  intros Hst Hrel k. specialize (Hst k). specialize (Hrel k). inversion Hrel as [i j (Hl & _ & Es & _) Ei|]; constructor.
  unfold neutral, can_tip, isDeleted, hasFlags, isFailed. rewrite <- Es. split_and!; try done. by apply Hst.
Qed.

Lemma kept_evolved m m' : store_rel kept_node m m' → store_rel evolved m m'.
Proof. apply store_rel_mono. intros i j (? & ? & E & ?). unfold evolved. by rewrite E. Qed.

Lemma machine_inv_kept w0 w w' tip : machine_inv w0 w tip → kept w w' → ok w' → machine_inv w0 w' tip.
Proof.
  intros Hi (Hrel & Etips & (Echain & _)) Hok.
  apply (machine_inv_step w0 w); [done| |by apply kept_evolved|done|done|].
  - eapply neutral_tree_inv; [|exact Etips|apply Hi]. apply kept_neutral; [|done]. intros k i. by apply (mi_status w0 w tip).
  - intros x j Hj Hl4. left. specialize (Hrel x). rewrite Hj in Hrel.
    inversion Hrel as [i j' (_ & _ & E & _) Ei|]; subst. exists i. by rewrite E.
Qed.

Lemma at_blocks_kept w w' k : at_blocks w k → kept w w' → at_blocks w' k.
Proof.
  intros [(i & Hk & Hf & Hc) Hact Hlvl] (Hrel & _ & (Echain & Ecount & _)).
  pose proof (evolved_links _ _ (kept_evolved _ _ Hrel)) as Hlinks.
  assert (∀ x j, blocks_ w' !! x = Some j → ∃ i, blocks_ w !! x = Some i ∧ kept_node i j) as Hback.
  { intros x j Hj. specialize (Hrel x). rewrite Hj in Hrel. inversion Hrel; subst. eauto. }
  constructor.
  - destruct (store_rel_lookup _ _ _ _ _ Hrel Hk) as (j & Hj & ((Eh & _) & _ & Es & _)).
    exists j. unfold isFailed. rewrite <- Es, <- Ecount, <- Echain, <- Eh. by split_and!.
  - intros x j (i' & Hx & _ & _ & Es & _)%Hback. rewrite (ancestor_links _ _ _ _ Hlinks), <- (Hact x i' Hx).
    unfold hasFlags. by rewrite Es.
  - intros x j (i' & Hx & _ & _ & Es & _)%Hback. rewrite (ancestor_links _ _ _ _ Hlinks), <- Es. by apply Hlvl.
Qed.

Lemma kept_evolves w w' : kept w w' → evolves w w'.
Proof. intros (Hrel & _ & (Echain & _)). split; [by apply kept_evolved|done]. Qed.

(** ** Status changes of one block *)
Definition applied_node i : index_t := setFlag BLOCK_ACTIVE (raised BLOCK_CAN_BE_APPLIED i).
Definition unapplied_node i : index_t := unsetFlag BLOCK_ACTIVE i.

Lemma hasFlags_active i : hasFlags i BLOCK_ACTIVE = Z.testbit (status i) 9.
Proof. by apply (hasFlags_bit i 9). Qed.

(** The bits other than those of the level and [BLOCK_ACTIVE] stay. *)
Lemma applied_node_bit i n : 3 <= n → Z.testbit (status (applied_node i)) n = Z.testbit (status i) n || (n =? 9).
Proof.
  intros Hn. unfold applied_node. change BLOCK_ACTIVE with (Z.shiftl 1 9). change BLOCK_CAN_BE_APPLIED with 4.
  rewrite setFlag_bit by lia. by rewrite raised_bit by lia.
Qed.

Lemma applied_node_level i : level (status i) <= 4 → level (status (applied_node i)) = 4.
Proof.
  intros Hl. transitivity (level (status (raised 4 i))); [|rewrite raised_level; lia].
  apply level_eq. intros n Hn. unfold applied_node. change BLOCK_ACTIVE with (Z.shiftl 1 9).
  rewrite setFlag_bit by lia. destruct (Z.eqb_spec n 9); [lia|]. by rewrite orb_false_r.
Qed.

Lemma unapplied_node_bit i n : 0 <= n → Z.testbit (status (unapplied_node i)) n = Z.testbit (status i) n && negb (n =? 9).
Proof. intros Hn. unfold unapplied_node. change BLOCK_ACTIVE with (Z.shiftl 1 9). by rewrite unsetFlag_bit by lia. Qed.

Lemma unapplied_node_level i : level (status (unapplied_node i)) = level (status i).
Proof.
  apply level_eq. intros n Hn. rewrite unapplied_node_bit by lia.
  destruct (Z.eqb_spec n 9); [lia|by rewrite andb_true_r].
Qed.

Lemma applied_same_node i : same_node i (applied_node i).
Proof.
  symmetry. unfold applied_node. etrans; [apply same_node_setFlag|apply raised_node].
Qed.
Lemma unapplied_same_node i : same_node i (unapplied_node i).
Proof. symmetry. apply same_node_unsetFlag. Qed.

Lemma same_node_payloads i j : same_node i j → same_payloads i j.
Proof. intros (_ & Eh & _ & _ & _ & Ea). unfold same_payloads. by rewrite Eh, Ea. Qed.

(** A node with the same data and the same failure, deletion and level bits. *)
Lemma status_change i j : same_node i j → (∀ n, 5 <= n <= 7 ∨ n = 10 → Z.testbit (status i) n = Z.testbit (status j) n) →
  level (status i) = level (status j) ∨ (2 <= level (status i) ∧ level (status i) <= level (status j)) →
  status_ok (status j) → neutral i j ∧ evolved i j ∧ status_node i j.
Proof.
  intros Hn Hb Hl Hst.
  assert (isFailed i = isFailed j) as Ef by (rewrite !isFailed_bits, !Hb by lia; done).
  assert (isDeleted i = isDeleted j) as Ed.
  { unfold isDeleted. change BLOCK_DELETED with (Z.shiftl 1 10). rewrite !hasFlags_bit, Hb by lia. done. }
  split; [|split].
  - split_and!; [by apply same_node_links| |done|apply Hb; lia|done].
    unfold can_tip. rewrite Ef, Ed. f_equal.
    destruct Hl as [->|[]]; [done|]. destruct (Z.leb_spec validTipLevel (level (status i))), (Z.leb_spec validTipLevel (level (status j))); lia || done.
  - split_and!; [by apply same_node_links|apply Hn|by apply same_node_payloads|lia].
  - by split.
Qed.

Lemma applied_change i : status_ok (status i) → isFailed i = false → 2 <= level (status i) →
  neutral i (applied_node i) ∧ evolved i (applied_node i) ∧ status_node i (applied_node i).
Proof.
  intros [Hl Hx] Hf Hge2. pose proof (applied_node_level i Hl) as Hal. apply status_change.
  - apply applied_same_node.
  - intros n Hn. rewrite applied_node_bit by lia. destruct (Z.eqb_spec n 9); [lia|by rewrite orb_false_r].
  - right. lia.
  - split; [lia|]. rewrite applied_node_bit by lia. cbn [Z.eqb]. rewrite orb_false_r.
    rewrite isFailed_bits in Hf. intros [_ E]. rewrite E in Hf. by rewrite ?orb_true_r in Hf.
Qed.

Lemma unapplied_change i : status_ok (status i) →
  neutral i (unapplied_node i) ∧ evolved i (unapplied_node i) ∧ status_node i (unapplied_node i).
Proof.
  intros [Hl Hx]. apply status_change.
  - apply unapplied_same_node.
  - intros n Hn. rewrite unapplied_node_bit by lia. destruct (Z.eqb_spec n 9); [lia|by rewrite andb_true_r].
  - left. by rewrite unapplied_node_level.
  - split; rewrite unapplied_node_level; [done|]. rewrite unapplied_node_bit by lia. cbn [Z.eqb negb]. by rewrite andb_true_r.
Qed.

(** Replacing one node of the tree. *)
Definition set_node (k : K) i' (n : Z) t : tree := with_applied n (with_blocks <[k := i']> t).

Lemma store_rel_set (R : index_t → index_t → Prop) m k i i' : (∀ j, R j j) → m !! k = Some i → R i i' → store_rel R m (<[k := i']> m).
Proof.
  intros HR Hk Hi x. destruct (decide (x = k)) as [->|].
  - rewrite lookup_insert_eq, Hk. by constructor.
  - rewrite lookup_insert_ne by done. destruct (m !! x); constructor. apply HR.
Qed.

Lemma neutral_refl_on w0 w tip k i i' : machine_inv w0 w tip → blocks_ w !! k = Some i → neutral i i' →
  store_rel neutral (blocks_ w) (<[k := i']> (blocks_ w)).
Proof.
  intros Hi Hk Hn x. destruct (decide (x = k)) as [->|].
  - rewrite lookup_insert_eq, Hk. by constructor.
  - rewrite lookup_insert_ne by done. destruct (blocks_ w !! x) as [j|] eqn:Hj; constructor.
    split_and!; [done..|]. by apply (mi_status w0 w tip x).
Qed.

Lemma set_node_step w0 w tip k i i' n : machine_inv w0 w tip → blocks_ w !! k = Some i →
  neutral i i' → evolved i i' → status_node i i' →
  (level (status i') = 4 → level (status i) = 4 ∨ ∃ w1, reaches w0 (blocks_ w) k w1) →
  let w' := set_node k i' n w in machine_inv w0 w' tip ∧ evolves w w' ∧ w ≡ w'.
Proof.
  intros Hi Hk Hneu Hev Hst Hl4 w'.
  assert (status_only w w') as Hso by (split; [by apply (store_rel_set _ _ k i); [intros j; by split|..]|done]).
  destruct (ok_status w w' Hso (mi_ok _ _ _ Hi)) as [Hok Heq].
  assert (store_rel evolved (blocks_ w) (blocks_ w')) as Hev' by (by apply (store_rel_set _ _ k i)).
  split; [|by split].
  apply (machine_inv_step w0 w); [done| |done..|].
  { apply (neutral_tree_inv w); [by apply (neutral_refl_on w0 w tip k i)|done|apply Hi]. }
  intros x j Hj E4. cbn in Hj. destruct (decide (x = k)) as [->|].
  - rewrite lookup_insert_eq in Hj. injection Hj as <-. destruct (Hl4 E4); [left; by exists i|by right].
  - rewrite lookup_insert_ne in Hj by done. left. by exists j.
Qed.

(** ** One block *)
Lemma none_of_false m (q : index_t → result bool) l :
  (∀ c, c ∈ l → ∃ j, m !! c = Some j ∧ q j = Ok false) → none_of m q l = Ok true.
Proof.
  induction l as [|c l IH]; intros Hl; [done|]. destruct (Hl c) as (j & Hj & Hq); [left|].
  cbn [none_of]. rewrite (deref_eq _ _ _ Hj). cbn [mbind result_bind]. rewrite Hq. cbn [mbind result_bind].
  apply IH. intros c' Hc'. apply Hl. by right.
Qed.

Lemma parent_ancestor m k i p : m !! k = Some i → pprev i = Some p → ancestor m p k.
Proof. intros Hk Hp. exists 1%nat. cbn. rewrite Hk. cbn. by rewrite Hp. Qed.

Lemma not_below m k i x j : wf_store m → m !! k = Some i → m !! x = Some j → height i < height j → ¬ ancestor m x k.
Proof. intros W Hk Hx Hlt Hanc. destruct (ancestor_lookup _ _ _ _ W Hk Hanc) as (j' & Hj' & Hle). assert (j' = j) by congruence. subst. lia. Qed.

(** [y] is an ancestor of a child of [p] exactly when it is the child or an
    ancestor of [p]. *)
Lemma ancestor_step m k i p x : m !! k = Some i → pprev i = Some p → ancestor m x k ↔ x = k ∨ ancestor m x p.
Proof.
  intros Hk Hp. split.
  - intros [[|n] Hn]; [left; by injection Hn|right]. exists n. by rewrite (back_S _ _ _ _ _ Hk Hp) in Hn.
  - intros [->|[n Hn]]; [apply ancestor_refl|]. exists (Datatypes.S n). by rewrite (back_S _ _ _ _ _ Hk Hp).
Qed.

Lemma children_unapplied w k i : wf_store (blocks_ w) → blocks_ w !! k = Some i →
  (∀ x j, blocks_ w !! x = Some j → height i < height j → hasFlags j BLOCK_ACTIVE = false) →
  allDescendantsUnapplied (blocks_ w) i = Ok true.
Proof.
  intros W Hk Hq. unfold allDescendantsUnapplied. destruct (isTip i); [done|].
  apply none_of_false. unfold children. intros c Hc%elem_of_elements.
  destruct (wf_next _ W k i c Hk Hc) as (j & Hj & Hp). exists j. split; [done|].
  destruct (wf_prev _ W c j k Hj Hp) as (i' & Hi' & Hh & _). assert (i' = i) by congruence. subst.
  f_equal. apply (Hq c j Hj). lia.
Qed.

Lemma above_unapplied w k i x j : wf_store (blocks_ w) → at_blocks w k → blocks_ w !! k = Some i →
  blocks_ w !! x = Some j → height i < height j → hasFlags j BLOCK_ACTIVE = false.
Proof.
  intros W Hab Hk Hx Hlt. destruct (hasFlags j BLOCK_ACTIVE) eqn:E; [|done].
  apply (ab_active _ _ Hab x j Hx) in E. by destruct (not_below _ _ _ _ _ W Hk Hx Hlt).
Qed.

Section block.
Context (w0 : world) (tip k p : K) (i : index_t).

Lemma assertBlockCanBeApplied_ok w : machine_inv w0 w tip → at_blocks w p → blocks_ w !! k = Some i →
  pprev i = Some p → isFailed i = false → assertBlockCanBeApplied (blocks_ w) k = Ok tt.
Proof.
  intros Hi Hab Hk Hp Hf. pose proof (mi_wf _ _ _ Hi) as W. unfold assertBlockCanBeApplied, isRoot, deref_prev.
  rewrite (deref_eq _ _ _ Hk). cbn [mbind result_bind]. rewrite Hp. cbn [mbind result_bind negb bool_decide decide_rel vassert].
  destruct (wf_prev _ W k i p Hk Hp) as (ip & Hip & Hh & _). rewrite (deref_eq _ _ _ Hip). cbn [mbind result_bind].
  rewrite (proj2 (ab_active _ _ Hab p ip Hip) (ancestor_refl _ _)).
  rewrite (above_unapplied w p ip k i W Hab Hip Hk) by lia. cbn [vassert mbind result_bind negb].
  rewrite (children_unapplied w k i W Hk).
  2: { intros x j Hx Hlt. apply (above_unapplied w p ip x j W Hab Hip Hx). lia. }
  cbn [vassert mbind result_bind]. change BLOCK_FAILED_CHILD with (Z.shiftl 1 7). rewrite hasFlags_bit by lia.
  rewrite isFailed_bits in Hf. destruct (Z.testbit (status i) 7); [|done]. by rewrite ?orb_true_r in Hf.
Qed.

Lemma getRoot_ok w : machine_inv w0 w tip → ∃ r ir, getRoot w = Ok r ∧ blocks_ w !! r = Some ir ∧
  height ir = startHeight_ (activeChain_ w).
Proof.
  intros Hi. pose proof (mi_wf _ _ _ Hi) as W. pose proof (mi_chain _ _ _ Hi) as Hc.
  pose proof Hc as (it & Hit & Hle & Hlen & Hall). destruct (Hall 0%nat) as (r & Hr & Hb); [lia|].
  destruct (back_height _ _ _ _ _ W Hit Hb) as (ir & Hir & Hh). exists r, ir. split; [|split; [done|lia]].
  unfold getRoot, isBootstrapped. rewrite bool_decide_eq_false_2 by (intros E; by rewrite E in Hit).
  destruct (chain_of_tip _ _ _ _ Hc Hit) as [-> _]. cbn [mbind result_bind vassert]. unfold chain_first. by rewrite Hr.
Qed.

Lemma mark_applied_ok w : machine_inv w0 w tip → at_blocks w p → blocks_ w !! k = Some i → pprev i = Some p →
  isFailed i = false → 2 <= level (status i) →
  mark_applied k w = Ok (set_node k (applied_node i) (appliedBlockCount w + 1) w).
Proof.
  intros Hi Hab Hk Hp Hf Hl2. pose proof (mi_wf _ _ _ Hi) as W. unfold mark_applied.
  destruct (getRoot_ok w Hi) as (r & ir & -> & Hir & Hhr). cbn [mbind result_bind]. rewrite (deref_eq _ _ _ Hir), (deref_eq _ _ _ Hk).
  cbn [mbind result_bind]. unfold deref_prev. rewrite Hp.
  destruct (wf_prev _ W k i p Hk Hp) as (ip & Hip & Hh & _). rewrite (deref_eq _ _ _ Hip). cbn [mbind result_bind].
  destruct (ab_block _ _ Hab) as (ip' & Hip' & Hfp & Hcount). assert (ip' = ip) by congruence. subst ip'.
  pose proof (ab_level _ _ Hab p ip Hip (ancestor_refl _ _)) as Hlp.
  rewrite isValid_eq by by apply (mi_status w0 w tip p). rewrite Hfp. change BLOCK_CAN_BE_APPLIED with 4.
  rewrite Hlp. cbn [negb andb Z.leb Z.compare Pos.compare Pos.compare_cont mbind result_bind].
  replace (height i =? height ir + appliedBlockCount w) with true by (symmetry; apply Z.eqb_eq; lia).
  assert (Z.testbit (status i) 6 = false) as H6.
  { rewrite isFailed_bits in Hf. destruct (Z.testbit (status i) 6); [|done]. by rewrite ?orb_true_r in Hf. }
  rewrite (raise_ok w k i 4 Hk H6).
  2: { intros p' E. exists ip. assert (p' = p) by congruence. subst p'. split_and!; [done|lia|lia]. }
  cbn [mbind result_bind fst]. unfold modify. cbn [with_blocks blocks_]. unfold deref. rewrite lookup_insert_eq. cbn [mbind result_bind].
  unfold set_node, applied_node, with_applied, with_blocks. cbn. by rewrite insert_insert_eq.
Qed.

Lemma at_blocks_applied w : machine_inv w0 w tip → at_blocks w p → blocks_ w !! k = Some i → pprev i = Some p →
  isFailed i = false → 2 <= level (status i) →
  at_blocks (set_node k (applied_node i) (appliedBlockCount w + 1) w) k.
Proof.
  intros Hi Hab Hk Hp Hf Hl2. pose proof (mi_wf _ _ _ Hi) as W.
  destruct (applied_change i (mi_status w0 w tip k i Hi Hk) Hf Hl2) as (Hneu & Hev & _).
  assert (store_rel same_links (blocks_ w) (<[k := applied_node i]> (blocks_ w))) as Hlinks
    by (apply (store_rel_set _ _ k i); [done|done|apply Hev]).
  destruct (wf_prev _ W k i p Hk Hp) as (ip & Hip & Hh & _).
  destruct (ab_block _ _ Hab) as (ip' & Hip' & Hfp & Hcount). assert (ip' = ip) by congruence. subst ip'.
  constructor; cbn [fst set_node with_applied with_blocks blocks_ appliedBlockCount activeChain_].
  - exists (applied_node i). rewrite lookup_insert_eq. destruct Hneu as ((<- & _) & _ & <- & _). split_and!; [done|done|lia].
  - intros x j Hx. rewrite (ancestor_links _ _ _ _ Hlinks), (ancestor_step _ _ _ _ _ Hk Hp).
    destruct (decide (x = k)) as [->|Hne].
    + rewrite lookup_insert_eq in Hx. injection Hx as <-. rewrite hasFlags_active, applied_node_bit by lia.
      cbn [Z.eqb]. rewrite orb_true_r. naive_solver.
    + rewrite lookup_insert_ne in Hx by done. rewrite (ab_active _ _ Hab x j Hx). naive_solver.
  - intros x j Hx. rewrite (ancestor_links _ _ _ _ Hlinks), (ancestor_step _ _ _ _ _ Hk Hp).
    destruct (decide (x = k)) as [->|Hne].
    + rewrite lookup_insert_eq in Hx. injection Hx as <-. intros _. apply applied_node_level.
      by destruct (mi_status w0 w tip k i Hi Hk).
    + rewrite lookup_insert_ne in Hx by done. intros [?|Hanc]; [done|]. by apply (ab_level _ _ Hab x j Hx).
Qed.

(** *** A failed block *)
Definition flagged j j' : Prop := same_node j j' ∧ ∀ n, n ≠ 6 → n ≠ 7 → Z.testbit (status j) n = Z.testbit (status j') n.

Lemma flagged_rel m m' j : m !! k = Some j →
  store_rel same_own (<[k := setFlag BLOCK_FAILED_POP j]> m) m' → store_rel flagged m m'.
Proof.
  intros Hj Hrel x. specialize (Hrel x). destruct (decide (x = k)) as [->|Hne].
  - rewrite lookup_insert_eq in Hrel. rewrite Hj. inversion Hrel as [? j' (Hn & Hb & _) E1 E2|]; subst. constructor.
    split; [etrans; [symmetry; apply same_node_setFlag|exact Hn]|]. intros n Hn6 Hn7. rewrite <- Hb by done.
    destruct (Z.le_gt_cases 0 n); [|by rewrite !Z.testbit_neg_r by lia].
    change BLOCK_FAILED_POP with (Z.shiftl 1 6). rewrite setFlag_bit by lia.
    destruct (Z.eqb_spec n 6); [done|by rewrite orb_false_r].
  - rewrite lookup_insert_ne in Hrel by done. inversion Hrel as [j1 j2 (Hn & Hb & _)|]; constructor.
    split; [done|]. intros. by apply Hb.
Qed.

Lemma flagged_level j j' : flagged j j' → level (status j) = level (status j').
Proof. intros [_ Hb]. apply level_eq. intros n Hn. apply Hb; lia. Qed.
Lemma flagged_evolved j j' : flagged j j' → evolved j j'.
Proof.
  intros Hf. split_and!; [apply same_node_links, Hf|apply Hf|apply same_node_payloads, Hf|].
  by rewrite (flagged_level _ _ Hf).
Qed.
Lemma flagged_active j j' : flagged j j' → hasFlags j BLOCK_ACTIVE = hasFlags j' BLOCK_ACTIVE.
Proof. intros [_ Hb]. rewrite !hasFlags_active. apply Hb; lia. Qed.
Lemma flagged_status j j' : flagged j j' → status_node j j'.
Proof.
  intros [Hn Hb]. split; [done|]. unfold isDeleted. change BLOCK_DELETED with (Z.shiftl 1 10).
  rewrite !hasFlags_bit by lia. apply Hb; lia.
Qed.

(** Blocks outside the subtree of the failed block do not fail. *)
Lemma unfailed_outside t t' j x jx : tree_inv t → tree_inv t' → blocks_ t !! k = Some j →
  store_rel same_own (<[k := setFlag BLOCK_FAILED_POP j]> (blocks_ t)) (blocks_ t') →
  ¬ ancestor (blocks_ t) k x → blocks_ t !! x = Some jx → isFailed jx = false →
  ∃ jx', blocks_ t' !! x = Some jx' ∧ isFailed jx' = false.
Proof.
  intros Ht Ht' Hj Hrel.
  assert (∀ n x jx, Z.to_nat (height jx) = n → ¬ ancestor (blocks_ t) k x → blocks_ t !! x = Some jx → isFailed jx = false →
    ∃ jx', blocks_ t' !! x = Some jx' ∧ isFailed jx' = false) as Hall; [|by eauto].
  induction n as [n IH] using (well_founded_induction lt_wf). intros y jy Hn Hanc Hy Hf.
  assert (y ≠ k) as Hne by (intros ->; apply Hanc, ancestor_refl).
  destruct (store_rel_lookup _ _ _ y jy Hrel) as (jy' & Hy' & Hsn & Hb & Hroot); [by rewrite lookup_insert_ne|].
  exists jy'. split; [done|]. destruct (pprev jy) as [q|] eqn:Eq.
  2: { unfold isFailed. by rewrite <- (Hroot eq_refl). }
  pose proof (so_wf _ (ti_store _ Ht)) as W. destruct (wf_prev _ W y jy q Hy Eq) as (jq & Hq & Hhq & _).
  pose proof (wf_height _ W _ _ Hq).
  rewrite isFailed_bits in Hf. apply orb_false_iff in Hf as [Hf Hb7]. apply orb_false_iff in Hf as [Hb5 Hb6].
  assert (isFailed jq = false) as Hfq by (by rewrite <- (ti_child _ Ht y jy q jq Hy Eq Hq)).
  destruct (IH (Z.to_nat (height jq))) with q jq as (jq' & Hq' & Hfq'); [lia|done| |done|done|].
  { intros Ha. apply Hanc. eapply ancestor_trans; [exact Ha|]. by eapply parent_ancestor. }
  assert (Z.testbit (status jy') 7 = false) as Hc7.
  { rewrite (ti_child _ Ht' y jy' q jq' Hy'); [done| |done]. rewrite <- Eq. symmetry. apply Hsn. }
  by rewrite isFailed_bits, Hc7, <- !Hb, Hb5, Hb6 by lia.
Qed.

Lemma at_blocks_flagged w t' : at_blocks w p → store_rel flagged (blocks_ w) (blocks_ t') →
  activeChain_ w = activeChain_ t' → appliedBlockCount w = appliedBlockCount t' →
  (∃ ip', blocks_ t' !! p = Some ip' ∧ isFailed ip' = false) → at_blocks t' p.
Proof.
  intros [(ip & Hip & Hf & Hc) Hact Hlvl] Hrel Echain Ecount (ip' & Hip' & Hf').
  assert (store_rel same_links (blocks_ w) (blocks_ t')) as Hlinks
    by (eapply store_rel_mono; [|exact Hrel]; intros j j' Hj; apply same_node_links, Hj).
  assert (∀ x j', blocks_ t' !! x = Some j' → ∃ j, blocks_ w !! x = Some j ∧ flagged j j') as Hback.
  { intros x j' Hj. specialize (Hrel x). rewrite Hj in Hrel. inversion Hrel; subst. eauto. }
  constructor.
  - exists ip'. rewrite <- Echain, <- Ecount. split_and!; [done|done|].
    destruct (Hback p ip' Hip') as (j & Hj & (Eh & _) & _). assert (j = ip) by congruence. subst. by rewrite <- Eh.
  - intros x j' (j & Hj & Hfl)%Hback. rewrite (ancestor_links _ _ _ _ Hlinks), <- (flagged_active _ _ Hfl). by apply Hact.
  - intros x j' (j & Hj & Hfl)%Hback. rewrite (ancestor_links _ _ _ _ Hlinks), <- (flagged_level _ _ Hfl). by apply Hlvl.
Qed.

Lemma invalidate_ok w : machine_inv w0 w tip → at_blocks w p → blocks_ w !! k = Some i → pprev i = Some p →
  isFailed i = false → 2 <= level (status i) → level (status i) ≠ 4 →
  ∃ t', invalidateSubtree k BLOCK_FAILED_POP false w = Ok t' ∧ machine_inv w0 t' tip ∧
    evolves w t' ∧ at_blocks t' p ∧ w ≡ t' ∧
    (∃ j, blocks_ t' !! k = Some j ∧ isFailed j = true) ∧
    (∀ x j, ¬ ancestor (blocks_ w) k x → blocks_ w !! x = Some j → isFailed j = false →
      ∃ j', blocks_ t' !! x = Some j' ∧ isFailed j' = false).
Proof.
  intros Hi Hab Hk Hp Hf Hl2 Hl4. pose proof (mi_wf _ _ _ Hi) as W. pose proof (mi_tree _ _ _ Hi) as Ht.
  assert (¬ ancestor (blocks_ w) k tip) as Hntip by (intros Ha; by apply (mi_tip _ _ _ Hi k i Hk) in Ha).
  destruct (chain_of_contains _ _ _ k i W (mi_chain _ _ _ Hi) Hk) as (b & Hb & Hiff).
  assert (b = false) as -> by (destruct b; [|done]; by destruct (proj1 Hiff eq_refl)).
  destruct (invalidateSubtree_correct w k i p BLOCK_FAILED_POP 6) as (t' & Et & Ht' & Hrest & Hrel & Hbelow).
  { split; [done|by right]. }
  { split; [done|done|done|done|done|]. right. lia. }
  pose proof (flagged_rel _ _ _ Hk Hrel) as Hfl. assert (ext w = ext t') as Eext by apply Hrest. destruct Hrest as (Echain & Ecount & _).
  assert (store_rel evolved (blocks_ w) (blocks_ t')) as Hev by (eapply store_rel_mono; [apply flagged_evolved|done]).
  assert (status_only w t') as Hso by (split; [eapply store_rel_mono; [apply flagged_status|done]|done]).
  destruct (ok_status _ _ Hso (mi_ok _ _ _ Hi)) as [Hok Heq].
  assert (∀ x j, ¬ ancestor (blocks_ w) k x → blocks_ w !! x = Some j → isFailed j = false →
      ∃ j', blocks_ t' !! x = Some j' ∧ isFailed j' = false) as Hout by (intros x j; by apply (unfailed_outside w t' i)).
  exists t'. split; [done|]. split; [|split; [by split|split; [|split; [done|split; [|done]]]]].
  - apply (machine_inv_step w0 w); [done..|]. intros x j Hj E4. left.
    specialize (Hfl x). rewrite Hj in Hfl. inversion Hfl as [j0 ? Hfl0 Ej0|]; subst.
    exists j0. by rewrite (flagged_level _ _ Hfl0).
  - destruct (ab_block _ _ Hab) as (ip & Hip & Hfp & _). apply (at_blocks_flagged w); [done..|].
    apply (Hout p ip); [|done|done]. destruct (wf_prev _ W k i p Hk Hp) as (ip' & Hip' & Hh & _).
    assert (ip' = ip) by congruence. subst. apply (not_below _ _ _ _ _ W Hip Hk). lia.
  - destruct (Hbelow k) as (j & Hj & Hfj & _); [apply ancestor_refl|by exists j].
Qed.
End block.

Section step.
Context (w0 : world) (tip k p : K).

(** What the machine promises of a step from [w] to [w']: blocks outside the
    subtree of [k] do not fail. *)
Definition outside_kept w w' : Prop := ∀ x j, ¬ ancestor (blocks_ w) k x → blocks_ w !! x = Some j →
  isFailed j = false → ∃ j', blocks_ w' !! x = Some j' ∧ isFailed j' = false.

Lemma reaches_evolves w w' x : evolves w w' → w ≡ w' → reaches w0 (blocks_ w) x w → reaches w0 (blocks_ w') x w'.
Proof. intros [Hev _] Heq Hr. eapply reaches_equiv; [exact Heq|]. eapply reaches_rel; [by apply evolved_spec|done]. Qed.

Definition valid_kept w w' : Prop := ∀ b x j, blocks_ w !! x = Some j → isFailed j = b →
  ∃ j', blocks_ w' !! x = Some j' ∧ isFailed j' = b.

Lemma kept_valid w w' : kept w w' → valid_kept w w'.
Proof.
  intros (Hrel & _) b x j Hj Hf. destruct (store_rel_lookup _ _ _ _ _ Hrel Hj) as (j' & Hj' & _ & _ & Es & _).
  exists j'. split; [done|]. unfold isFailed. by rewrite <- Es.
Qed.

Lemma valid_outside w w' : valid_kept w w' → outside_kept w w'.
Proof. intros Hv x j _. apply Hv. Qed.

Lemma valid_trans w w1 w' : valid_kept w w1 → valid_kept w1 w' → valid_kept w w'.
Proof. intros H1' H2' b x j Hj Hf. destruct (H1' b x j Hj Hf) as (j1 & Hj1 & Hf1). by apply (H2' b x j1). Qed.

(** The successful end of [applyBlock]. *)
Lemma apply_success w i : machine_inv w0 w tip → at_blocks w p → blocks_ w !! k = Some i → pprev i = Some p →
  isFailed i = false → 2 <= level (status i) → reaches w0 (blocks_ w) k w →
  ∃ w', mark_applied k w = Ok w' ∧ machine_inv w0 w' tip ∧ evolves w w' ∧ at_state w0 w' k ∧ valid_kept w w'.
Proof.
  intros Hi Hab Hk Hp Hf Hl2 Hr. rewrite (mark_applied_ok w0 tip k p i w) by done. cbn [mbind result_bind].
  destruct (applied_change i (mi_status w0 w tip k i Hi Hk) Hf Hl2) as (Hneu & Hev & Hst).
  destruct (set_node_step w0 w tip k i (applied_node i) (appliedBlockCount w + 1) Hi Hk Hneu Hev Hst) as (Hi' & Hev' & Heq).
  { intros _. right. by exists w. }
  eexists. split; [done|]. split; [done|]. split; [done|]. split.
  - split; [by apply (at_blocks_applied w0 tip k p i w)|]. by apply (reaches_evolves w).
  - intros b x j Hj Hfj. cbn [fst set_node with_applied with_blocks blocks_]. destruct (decide (x = k)) as [->|Hne].
    + rewrite lookup_insert_eq. eexists. split; [done|]. by destruct Hneu as (_ & _ & <- & _); congruence.
    + rewrite lookup_insert_ne by done. by exists j.
Qed.

Lemma outside_trans w w1 w' : evolves w w1 → outside_kept w w1 → outside_kept w1 w' → outside_kept w w'.
Proof.
  intros [Hev _] H1' H2' x j Hanc Hj Hf. destruct (H1' x j Hanc Hj Hf) as (j1 & Hj1 & Hf1).
  apply (H2' x j1); [|done|done]. by rewrite (ancestor_links _ _ _ _ (evolved_links _ _ Hev)).
Qed.

(** [applyBlock] moves the machine to a successor of its block exactly when the
    successor can be reached; otherwise the successor is marked as failed. *)
Lemma applyBlock_ok w i : machine_inv w0 w tip → at_state w0 w p → blocks_ w !! k = Some i → pprev i = Some p →
  isFailed i = false → 2 <= level (status i) →
  ∃ w' b, applyBlock hasPayloads getCommands k w = Ok (w', b) ∧ machine_inv w0 w' tip ∧ evolves w w' ∧
    outside_kept w w' ∧ (b = true → at_state w0 w' k ∧ valid_kept w w') ∧
    (b = false → at_state w0 w' p ∧ w ≡ w') ∧
    (b = true ↔ ∃ w1, reaches w0 (blocks_ w) k w1).
Proof.
  intros Hi [Hab Hr] Hk Hp Hf Hl2. pose proof (mi_wf _ _ _ Hi) as W. unfold applyBlock.
  rewrite (assertBlockCanBeApplied_ok w0 tip k p i w Hi Hab Hk Hp Hf), (deref_eq _ _ _ Hk). cbn [mbind result_bind].
  rewrite !isValid_eq by by apply (mi_status w0 w tip k). rewrite Hf. cbn [negb andb].
  change BLOCK_VALID_TREE with 1. change BLOCK_CONNECTED with 2.
  rewrite !(proj2 (Z.leb_le _ _)) by lia. cbn [mbind result_bind negb vassert].
  rewrite (execute_payloads_eq k i w Hk).
  destruct (reaches_execute w0 _ k i p w (mi_payloads _ _ _ Hi) Hk Hp (mi_ok _ _ _ Hi) Hr)
    as (b & w1 & -> & Hok1 & Hkept & Hfail & Hsucc & Hiff). cbn [mbind result_bind fst snd].
  pose proof (machine_inv_kept _ _ _ _ Hi Hkept Hok1) as Hi1. pose proof (at_blocks_kept _ _ _ Hab Hkept) as Hab1.
  pose proof (kept_evolves _ _ Hkept) as Hev1.
  destruct (store_rel_lookup _ _ _ _ _ (proj1 Hkept) Hk) as (i1 & Hk1 & Hkn).
  destruct Hkn as ((_ & Ep1 & _) & _ & Es1 & _).
  assert (pprev i1 = Some p) as Hp1 by congruence.
  assert (isFailed i1 = false) as Hf1 by (unfold isFailed; by rewrite <- Es1).
  rewrite Es1 in Hl2. destruct b.
  - destruct (apply_success w1 i1) as (w' & -> & Hi' & Hev' & Hat & Hval); [done..| |].
    { eapply reaches_rel; [apply evolved_spec; exact (proj1 Hev1)|by apply Hsucc]. }
    exists w', true. cbn [mbind result_bind]. assert (valid_kept w w') as Hvalid by (by apply (valid_trans w w1); [apply kept_valid|]).
    split; [done|split; [done|split; [by etrans|split; [by apply valid_outside|]]]]. by split_and!.
  - specialize (Hfail eq_refl).
    assert (level (status i1) ≠ 4) as Hl4.
    { intros E. rewrite <- Es1 in E. destruct (mi_applicable _ _ _ Hi k i Hk E) as [u Hu].
      by apply (ex_intro _ u), Hiff in Hu. }
    destruct (invalidate_ok w0 tip k p i1 w1 Hi1 Hab1 Hk1 Hp1 Hf1 Hl2 Hl4) as (t' & Et & Hi' & Hev' & Hab' & Heq & _ & Hout).
    exists t', false. rewrite Et. cbn [mbind result_bind].
    assert (w ≡ t') as Heq' by (rewrite <- Heq; by symmetry).
    assert (evolves w t') as Hev'' by by etrans.
    split_and!; [done|done|done| |done| |done].
    + apply (outside_trans w w1); [done|by apply valid_outside, kept_valid|done].
    + intros _. split; [|done]. split; [done|]. by apply (reaches_evolves w).
Qed.

(** *** Unapplying a block *)
Lemma assertBlockCanBeUnapplied_ok w i : machine_inv w0 w tip → at_blocks w k → blocks_ w !! k = Some i →
  pprev i = Some p → finalized i = false → assertBlockCanBeUnapplied (blocks_ w) k = Ok tt.
Proof.
  intros Hi Hab Hk Hp Hfin. pose proof (mi_wf _ _ _ Hi) as W. unfold assertBlockCanBeUnapplied, isRoot, deref_prev.
  rewrite (deref_eq _ _ _ Hk). cbn [mbind result_bind]. rewrite Hp, Hfin. cbn [mbind result_bind negb bool_decide decide_rel vassert].
  destruct (wf_prev _ W k i p Hk Hp) as (ip & Hip & Hh & _). rewrite (deref_eq _ _ _ Hip).
  rewrite (proj2 (ab_active _ _ Hab k i Hk) (ancestor_refl _ _)). cbn [mbind result_bind vassert].
  rewrite (proj2 (ab_active _ _ Hab p ip Hip) (parent_ancestor _ _ _ _ Hk Hp)). cbn [mbind result_bind vassert].
  rewrite (children_unapplied w k i W Hk); [done|].
  intros x j Hx Hlt. by apply (above_unapplied w k i x j W Hab Hk Hx).
Qed.

Lemma at_blocks_unapplied w i : machine_inv w0 w tip → at_blocks w k → blocks_ w !! k = Some i → pprev i = Some p →
  at_blocks (set_node k (unapplied_node i) (appliedBlockCount w - 1) w) p.
Proof.
  intros Hi Hab Hk Hp. pose proof (mi_wf _ _ _ Hi) as W.
  destruct (unapplied_change i (mi_status w0 w tip k i Hi Hk)) as (Hneu & Hev & _).
  assert (store_rel same_links (blocks_ w) (<[k := unapplied_node i]> (blocks_ w))) as Hlinks
    by (apply (store_rel_set _ _ k i); [done|done|apply Hev]).
  destruct (wf_prev _ W k i p Hk Hp) as (ip & Hip & Hh & _).
  destruct (ab_block _ _ Hab) as (i' & Hi' & Hf & Hcount). assert (i' = i) by congruence. subst i'.
  assert (p ≠ k) as Hpk by (intros ->; assert (ip = i) by congruence; subst; lia).
  constructor; cbn [fst set_node with_applied with_blocks blocks_ appliedBlockCount activeChain_].
  - exists ip. rewrite lookup_insert_ne by done. split_and!; [done| |lia].
    rewrite isFailed_bits in Hf. apply orb_false_iff in Hf as [_ Hb7].
    by rewrite <- (ti_child _ (mi_tree _ _ _ Hi) k i p ip Hk Hp Hip).
  - intros x j Hx. rewrite (ancestor_links _ _ _ _ Hlinks). destruct (decide (x = k)) as [->|Hne].
    + rewrite lookup_insert_eq in Hx. injection Hx as <-. rewrite hasFlags_active, unapplied_node_bit by lia.
      cbn [Z.eqb negb]. rewrite andb_false_r. split; [done|]. intros Hanc.
      exfalso. apply (not_below _ _ _ _ _ W Hip Hk); [lia|done].
    + rewrite lookup_insert_ne in Hx by done. rewrite (ab_active _ _ Hab x j Hx), (ancestor_step _ _ _ _ _ Hk Hp). naive_solver.
  - intros x j Hx. rewrite (ancestor_links _ _ _ _ Hlinks). intros Hanc. destruct (decide (x = k)) as [->|Hne].
    + exfalso. apply (not_below _ _ _ _ _ W Hip Hk); [lia|done].
    + rewrite lookup_insert_ne in Hx by done. apply (ab_level _ _ Hab x j Hx). apply (ancestor_step _ _ _ _ _ Hk Hp). by right.
Qed.

Lemma mark_unapplied_ok w i : machine_inv w0 w tip → at_blocks w k → blocks_ w !! k = Some i → pprev i = Some p →
  mark_unapplied k w = Ok (set_node k (unapplied_node i) (appliedBlockCount w - 1) w).
Proof.
  intros Hi Hab Hk Hp. pose proof (mi_wf _ _ _ Hi) as W. unfold mark_unapplied, modify.
  rewrite (deref_eq _ _ _ Hk). cbn [mbind result_bind with_blocks activeChain_ appliedBlockCount].
  destruct (mi_chain _ _ _ Hi) as (it & Hit & Hle & Hlen & _).
  destruct (ab_block _ _ Hab) as (i' & Hi' & Hf & Hcount). assert (i' = i) by congruence. subst i'.
  pose proof (mi_root _ _ _ Hi k i Hk).
  unfold blocksCount. rewrite !(proj2 (Z.ltb_lt _ _)) by lia. done.
Qed.

(** [unapplyBlock] moves the machine to the predecessor of its block. *)
Lemma unapplyBlock_ok w i : machine_inv w0 w tip → at_state w0 w k → blocks_ w !! k = Some i → pprev i = Some p →
  finalized i = false →
  ∃ w', unapplyBlock hasPayloads getCommands k w = Ok w' ∧ machine_inv w0 w' tip ∧ evolves w w' ∧
    valid_kept w w' ∧ at_state w0 w' p.
Proof.
  intros Hi [Hab Hr] Hk Hp Hfin. pose proof (mi_wf _ _ _ Hi) as W. unfold unapplyBlock.
  rewrite (assertBlockCanBeUnapplied_ok w i Hi Hab Hk Hp Hfin). cbn [mbind result_bind].
  rewrite (unexecute_payloads_eq k i w Hk).
  inversion Hr as [? i' ? Hk' Hp' _|? i' p' v w2 ? Hk' Hp' Hrp Hokv Hex Heq]; subst;
    assert (i' = i) as -> by congruence; [congruence|]. assert (p' = p) as -> by congruence.
  destruct (law_undo _ _ _ (payloads_command_lawful _ k i (mi_payloads _ _ _ Hi) Hk) v w2 w Hokv Hex (mi_ok _ _ _ Hi) Heq)
    as (w1 & -> & Hok1 & Heq1 & Hkept). cbn [mbind result_bind].
  pose proof (machine_inv_kept _ _ _ _ Hi Hkept Hok1) as Hi1. pose proof (at_blocks_kept _ _ _ Hab Hkept) as Hab1.
  pose proof (kept_evolves _ _ Hkept) as Hev1.
  destruct (store_rel_lookup _ _ _ _ _ (proj1 Hkept) Hk) as (i1 & Hk1 & (_ & Ep1 & _) & _).
  assert (pprev i1 = Some p) as Hp1 by congruence.
  rewrite (mark_unapplied_ok w1 i1) by done. cbn [mbind result_bind].
  destruct (unapplied_change i1 (mi_status w0 w1 tip k i1 Hi1 Hk1)) as (Hneu & Hev & Hst).
  destruct (set_node_step w0 w1 tip k i1 (unapplied_node i1) (appliedBlockCount w1 - 1) Hi1 Hk1 Hneu Hev Hst)
    as (Hi' & Hev' & Heq').
  { rewrite unapplied_node_level. by left. }
  eexists. split; [done|]. split; [done|]. split; [by etrans|]. split.
  - intros b x j Hj Hf. destruct (kept_valid _ _ Hkept b x j Hj Hf) as (j1 & Hj1 & Hf1).
    cbn [fst set_node with_applied with_blocks blocks_]. destruct (decide (x = k)) as [->|Hne].
    + rewrite lookup_insert_eq. eexists. split; [done|]. assert (j1 = i1) by congruence. subst.
      destruct Hneu as (_ & _ & <- & _). done.
    + rewrite lookup_insert_ne by done. by exists j1.
  - split; [by apply at_blocks_unapplied|]. apply (reaches_evolves w1); [done|done|].
    eapply reaches_equiv; [symmetry; exact Heq1|]. eapply reaches_rel; [|exact Hrp]. apply evolved_spec. exact (proj1 Hev1).
Qed.
End step.

(** ** Ranges of blocks *)
Section range.
Context (w0 : world) (tip : K).

(** Finalized blocks are not above [a]. *)
Definition finalized_below m (a : K) : Prop := ∀ x j, m !! x = Some j → finalized j = true → ancestor m x a.
(** The blocks from the root to [a] are connected. *)
Definition connected m (a : K) : Prop := ∀ x j, m !! x = Some j → ancestor m x a → 2 <= level (status j).

Lemma evolves_back w w' x j' : evolves w w' → blocks_ w' !! x = Some j' → ∃ j, blocks_ w !! x = Some j ∧ evolved j j'.
Proof. intros [Hrel _] Hj. specialize (Hrel x). rewrite Hj in Hrel. inversion Hrel; subst. eauto. Qed.

Lemma evolves_ancestor w w' k x : evolves w w' → ancestor (blocks_ w') k x ↔ ancestor (blocks_ w) k x.
Proof. intros [Hrel _]. by apply ancestor_links, evolved_links. Qed.

Lemma evolves_finalized w w' a : evolves w w' → finalized_below (blocks_ w) a → finalized_below (blocks_ w') a.
Proof.
  intros He Hf x j' Hj'. destruct (evolves_back _ _ _ _ He Hj') as (j & Hj & _ & <- & _).
  rewrite (evolves_ancestor _ _ _ _ He). by apply Hf.
Qed.

Lemma evolves_connected w w' a : evolves w w' → connected (blocks_ w) a → connected (blocks_ w') a.
Proof.
  intros He Hc x j' Hj'. destruct (evolves_back _ _ _ _ He Hj') as (j & Hj & _ & _ & _ & Hl).
  rewrite (evolves_ancestor _ _ _ _ He). intros Hanc. specialize (Hc x j Hj Hanc). lia.
Qed.

Lemma evolves_reaches w w' x w1 : evolves w w' → reaches w0 (blocks_ w) x w1 ↔ reaches w0 (blocks_ w') x w1.
Proof.
  intros [Hrel _]. pose proof (evolved_spec _ _ Hrel). split; apply reaches_rel; [done|by apply same_spec_sym].
Qed.

Lemma reaches_ancestor m x k w : reaches w0 m k w → ancestor m x k → ∃ w1, reaches w0 m x w1.
Proof.
  intros Hr. induction Hr as [k i w Hk Hp Hw|k i p w1 w2 w Hk Hp Hr IH Hok Hex Hw]; intros Hanc.
  - destruct Hanc as [[|n] Hn]; [injection Hn as <-; exists w; by eapply reaches_root|].
    cbn in Hn. rewrite Hk in Hn. cbn in Hn. by rewrite Hp in Hn.
  - apply (ancestor_step _ _ _ _ _ Hk Hp) in Hanc as [->|Hanc]; [exists w; by eapply reaches_step|by apply IH].
Qed.

Lemma valid_ancestor w x k i j : machine_inv w0 w tip → blocks_ w !! k = Some i → isFailed i = false →
  blocks_ w !! x = Some j → ancestor (blocks_ w) x k → isFailed j = false.
Proof.
  intros Hi Hk Hf Hx [n Hn]. pose proof (mi_wf _ _ _ Hi) as W. revert k i Hk Hf Hn.
  induction n as [|n IH]; intros k i Hk Hf Hn; [injection Hn as ->; congruence|].
  cbn in Hn. rewrite Hk in Hn. cbn in Hn. destruct (pprev i) as [p|] eqn:Ep; [|done]. cbn in Hn.
  destruct (wf_prev _ W k i p Hk Ep) as (ip & Hip & _). apply (IH p ip Hip); [|done].
  rewrite isFailed_bits in Hf. apply orb_false_iff in Hf as [_ Hb7].
  by rewrite <- (ti_child _ (mi_tree _ _ _ Hi) k i p ip Hk Ep Hip).
Qed.

(** *** [unapply] moves the machine to an ancestor. *)
Lemma unapply_loop_ok n : ∀ fuel w c to, machine_inv w0 w tip → at_state w0 w c → back (blocks_ w) n c = Some to →
  finalized_below (blocks_ w) to → (n ≤ fuel)%nat →
  ∃ w', unapply_loop hasPayloads getCommands fuel (Some c) to (λ _ _, true) w = Ok (w', to) ∧ machine_inv w0 w' tip ∧
    evolves w w' ∧ valid_kept w w' ∧ at_state w0 w' to.
Proof.
  induction n as [|n IH]; intros fuel w c to Hi Hat Hb Hfin Hfuel.
  { injection Hb as ->. exists w. destruct fuel; cbn [unapply_loop]; rewrite bool_decide_eq_true_2 by done;
      (split; [done|split; [done|split; [done|split; [intros x j; eauto|done]]]]). }
  pose proof (mi_wf _ _ _ Hi) as W. destruct (ab_block _ _ (proj1 Hat)) as (i & Hk & _).
  destruct (back_height _ _ _ _ _ W Hk Hb) as (it & Hit & Hht).
  destruct fuel as [|fuel]; [lia|]. cbn [unapply_loop].
  rewrite bool_decide_eq_false_2 by (intros ->; assert (it = i) by congruence; subst; lia).
  rewrite (deref_eq _ _ _ Hk), (deref_eq _ _ _ Hit). cbn [mbind result_bind].
  rewrite (proj2 (Z.ltb_lt _ _)) by lia. cbn [mbind result_bind vassert negb].
  destruct (pprev i) as [p|] eqn:Ep; [|cbn in Hb; rewrite Hk in Hb; cbn in Hb; by rewrite Ep in Hb].
  rewrite (back_S _ _ _ _ _ Hk Ep) in Hb.
  assert (finalized i = false) as Hfi.
  { destruct (finalized i) eqn:E; [|done]. destruct (not_below _ to it c i W Hit Hk); [lia|by apply (Hfin c i)]. }
  destruct (unapplyBlock_ok w0 tip c p w i Hi Hat Hk Ep Hfi) as (w1 & -> & Hi1 & Hev1 & Hv1 & Hat1). cbn [mbind result_bind].
  destruct (store_rel_lookup _ _ _ _ _ (proj1 Hev1) Hk) as (i1 & Hk1 & ((_ & Ep1 & _) & _)).
  rewrite (getPrev_eq _ c i1 (mi_wf _ _ _ Hi1) Hk1), <- Ep1, Ep. cbn [mbind result_bind].
  destruct (IH fuel w1 p to Hi1 Hat1) as (w' & -> & Hi' & Hev' & Hv' & Hat'); [|by eapply evolves_finalized|lia|].
  { by rewrite (back_links _ _ _ _ (evolved_links _ _ (proj1 Hev1))). }
  exists w'. split; [done|split; [done|split; [by etrans|split; [by apply (valid_trans w w1)|done]]]].
Qed.

Lemma unapply_ok w c to : machine_inv w0 w tip → at_state w0 w c → ancestor (blocks_ w) to c →
  finalized_below (blocks_ w) to →
  ∃ w', unapply hasPayloads getCommands c to w = Ok w' ∧ machine_inv w0 w' tip ∧ evolves w w' ∧
    valid_kept w w' ∧ at_state w0 w' to.
Proof.
  intros Hi Hat [n Hb] Hfin. pose proof (mi_wf _ _ _ Hi) as W. destruct (ab_block _ _ (proj1 Hat)) as (i & Hk & _).
  destruct (back_height _ _ _ _ _ W Hk Hb) as (it & Hit & Hht). pose proof (wf_height _ W _ _ Hit).
  destruct (unapply_loop_ok n (Z.to_nat (height i)) w c to Hi Hat Hb Hfin) as (w' & E & Hrest); [lia|].
  exists w'. split; [|done]. unfold unapply, unapplyWhile. rewrite (deref_eq _ _ _ Hk). cbn [mbind result_bind].
  destruct (decide (c = to)) as [->|Hne].
  - rewrite bool_decide_eq_true_2 by done.
    assert (n = 0%nat) as -> by (assert (it = i) by congruence; subst; lia).
    destruct (Z.to_nat (height i)); cbn [unapply_loop] in E; rewrite bool_decide_eq_true_2 in E by done; injection E as ->;
      cbn [mbind result_bind snd fst]; by rewrite bool_decide_eq_true_2.
  - rewrite bool_decide_eq_false_2 by done. rewrite E. cbn [mbind result_bind snd fst]. by rewrite bool_decide_eq_true_2.
Qed.

(** *** [apply] moves the machine to a descendant *)
Fixpoint path m (a : K) (l : list (option K)) (b : K) : Prop :=
  match l with
  | [] => a = b
  | Some x :: l => (∃ i, m !! x = Some i ∧ pprev i = Some a) ∧ path m x l b
  | None :: _ => False
  end.

Lemma path_ancestor m a l b : path m a l b → ancestor m a b.
Proof.
  revert a. induction l as [|[x|] l IH]; intros a; cbn [path]; [intros ->; apply ancestor_refl| |done].
  intros [(i & Hi & Hp) Hl]. eapply ancestor_trans; [by eapply parent_ancestor|by apply IH].
Qed.

Lemma path_links m m' a l b : store_rel same_links m m' → path m a l b → path m' a l b.
Proof.
  intros Hrel. revert a. induction l as [|[x|] l IH]; intros a; cbn [path]; [done| |done].
  intros [(i & Hi & Hp) Hl]. split; [|by apply IH].
  destruct (store_rel_lookup _ _ _ _ _ Hrel Hi) as (j & Hj & _ & Ep & _). exists j. split; [done|congruence].
Qed.

Lemma back_path m c k : (∀ n, (n < length c)%nat → ∃ x, c !! n = Some (Some x) ∧ back m (length c - 1 - n) k = Some x) →
  ∀ a, back m (length c) k = Some a → path m a c k.
Proof.
  induction c as [|o c IH]; intros Hc a Ha; [by injection Ha|].
  destruct (Hc 0%nat) as (x & Hx & Hb); [cbn; lia|]. injection Hx as ->. cbn [path length] in *.
  replace (Datatypes.S (length c) - 1 - 0)%nat with (length c) in Hb by lia. split.
  - replace (Datatypes.S (length c)) with (length c + 1)%nat in Ha by lia. rewrite (back_add _ _ _ _ _ Hb) in Ha.
    cbn in Ha. destruct (m !! x) as [i|]; [|done]. cbn in Ha. exists i. destruct (pprev i); [|done]. by injection Ha as ->.
  - apply IH; [|done]. intros n Hn. destruct (Hc (Datatypes.S n)) as (y & Hy & Hby); [lia|].
    exists y. split; [done|]. by replace (length c - 1 - n)%nat with (Datatypes.S (length c) - 1 - Datatypes.S n)%nat by lia.
Qed.

Lemma newChain_path m from to fi ti : wf_store m → m !! from = Some fi → m !! to = Some ti → ancestor m from to →
  from ≠ to → ∃ c x i, newChain m (height fi + 1) (Some to) = Ok c ∧ path m from (chain c) to ∧
    chain_first c = Some x ∧ m !! x = Some i ∧ pprev i = Some from ∧ height fi < height ti.
Proof.
  intros W Hf Ht Hanc Hne. destruct (ancestor_back m from to ti fi W Ht Hf Hanc) as [Hle Hb].
  assert (height fi < height ti) as Hlt.
  { destruct (Z.eq_dec (height fi) (height ti)) as [E|]; [|lia]. rewrite E, Z.sub_diag in Hb. by injection Hb. }
  assert (∃ r, back m (Z.to_nat (height ti - (height fi + 1))) to = Some r) as [r Hr].
  { apply (back_prefix m _ 1 to from). by replace (_ + 1)%nat with (Z.to_nat (height ti - height fi)) by lia. }
  destruct (setTip_spec m (mkChain (height fi + 1) []) to ti r W) as (c & Hc & Es & i & Hi & _ & Hlen & Hall); [|done|cbn; lia|done|].
  { constructor; cbn [chain]; intros n x; [|intros ?]; by rewrite lookup_nil. }
  assert (i = ti) by congruence. subst i. cbn [startHeight_] in Es.
  assert (path m from (chain c) to) as Hpath.
  { apply back_path; [done|]. rewrite Hlen, Es. by replace (Datatypes.S _) with (Z.to_nat (height ti - height fi)) by lia. }
  exists c. destruct (chain c) as [|o l] eqn:Ec; [discriminate Hlen|].
  destruct o as [x|]; [|done]. destruct Hpath as [(j & Hj & Hp) Hl]. exists x, j.
  split; [done|split; [by split; [exists j|]|split; [|done]]]. unfold chain_first. by rewrite Ec.
Qed.

(** Blocks that branch off the path to [to] at [from] or before do not fail. *)
Definition branch_kept (from to : K) w w' : Prop := ∀ x j, blocks_ w !! x = Some j → isFailed j = false →
  (∀ y, ancestor (blocks_ w) y to → ancestor (blocks_ w) y x → ancestor (blocks_ w) y from) →
  ∃ j', blocks_ w' !! x = Some j' ∧ isFailed j' = false.

(** The outcome of an attempt to move from [from] to [to]. *)
Definition moved (from to : K) w w' (b : bool) : Prop :=
  machine_inv w0 w' tip ∧ evolves w w' ∧ branch_kept from to w w' ∧
  at_state w0 w' (if b then to else from) ∧ (b = true ↔ ∃ w1, reaches w0 (blocks_ w) to w1).

Lemma branch_trans from to w w1 w' : evolves w w1 → valid_kept w w1 →
  branch_kept from to w1 w' → branch_kept from to w w'.
Proof.
  intros Hev Hval Hbr x j Hj Hf Hmeet. destruct (Hval _ x j Hj Hf) as (j1 & Hj1 & Hf1).
  apply (Hbr x j1 Hj1 Hf1). intros y. rewrite !(evolves_ancestor _ _ _ _ Hev). apply Hmeet.
Qed.

Lemma child_not_ancestor m from a x i : wf_store m → ancestor m from a → m !! x = Some i → pprev i = Some a →
  ¬ ancestor m x from.
Proof.
  intros W Hanc Hx Hp. destruct (wf_prev _ W x i a Hx Hp) as (ia & Hia & Hh & _).
  destruct (ancestor_lookup _ _ _ _ W Hia Hanc) as (jf & Hjf & Hle). apply (not_below _ _ _ _ _ W Hjf Hx). lia.
Qed.

Lemma apply_loop_ok from to l : ∀ w a, machine_inv w0 w tip → at_state w0 w a → path (blocks_ w) a l to →
  ancestor (blocks_ w) from a → finalized_below (blocks_ w) from → connected (blocks_ w) to →
  (∃ i, blocks_ w !! to = Some i ∧ isFailed i = false) →
  ∃ w' b, apply_loop hasPayloads getCommands from l w = Ok (w', b) ∧ moved from to w w' b.
Proof.
  induction l as [|[x|] l IH]; intros w a Hi Hat Hpath Hanc Hfin Hcon Hvalid; cbn [path] in Hpath; [| |done].
  { subst a. exists w, true. cbn [apply_loop]. split; [done|split; [done|split; [done|split; [intros x j; eauto|split; [done|]]]]].
    split; [|done]. intros _. exists w. apply Hat. }
  destruct Hpath as [(i & Hk & Hp) Hpath]. pose proof (mi_wf _ _ _ Hi) as W. destruct Hvalid as (it & Hit & Hvalid).
  pose proof (path_ancestor _ _ _ _ Hpath) as Hxto.
  pose proof (valid_ancestor _ _ _ _ _ Hi Hit Hvalid Hk Hxto) as Hf.
  destruct (applyBlock_ok w0 tip x a w i Hi Hat Hk Hp Hf (Hcon x i Hk Hxto))
    as (w1 & b & E & Hi1 & Hev1 & Hout & Hsucc & Hfail & Hiff).
  cbn [apply_loop]. rewrite E. cbn [mbind result_bind fst snd].
  pose proof (path_links _ _ _ _ _ (evolved_links _ _ (proj1 Hev1)) Hpath) as Hpath1.
  assert (ancestor (blocks_ w1) from x) as Hanc1.
  { rewrite (evolves_ancestor _ _ _ _ Hev1). eapply ancestor_trans; [exact Hanc|by eapply parent_ancestor]. }
  destruct b.
  - destruct (Hsucc eq_refl) as [Hat1 Hval1].
    destruct (IH w1 x Hi1 Hat1 Hpath1 Hanc1) as (w' & b & -> & Hi' & Hev' & Hbr & Hat' & Hiff').
    { by eapply evolves_finalized. } { by eapply evolves_connected. } { by apply (Hval1 _ to it). }
    exists w', b. split; [done|]. split; [done|split; [by etrans|split; [|split; [done|]]]].
    + by apply (branch_trans from to w w1).
    + rewrite Hiff'. by setoid_rewrite <- (evolves_reaches _ _ _ _ Hev1).
  - destruct (Hfail eq_refl) as [Hat1 _].
    destruct (store_rel_lookup _ _ _ _ _ (proj1 Hev1) Hk) as (i1 & Hk1 & ((_ & Ep1 & _) & _)).
    rewrite (deref_eq _ _ _ Hk1). cbn [mbind result_bind]. rewrite <- Ep1, Hp.
    destruct (unapply_ok w1 a from Hi1 Hat1) as (w' & -> & Hi' & Hev' & Hval' & Hat').
    { by rewrite (evolves_ancestor _ _ _ _ Hev1). } { by eapply evolves_finalized. }
    exists w', false. cbn [mbind result_bind]. split; [done|]. split; [done|split; [by etrans|split; [|split; [done|]]]].
    + intros y j Hj Hfj Hmeet. destruct (Hout y j) as (j1 & Hj1 & Hf1); [|done|done|by apply (Hval' _ y j1)].
      intros Hxy. specialize (Hmeet x Hxto Hxy). by apply (child_not_ancestor _ from a x i W Hanc Hk Hp).
    + split; [done|]. intros [u Hu]. destruct (reaches_ancestor _ _ _ _ Hu Hxto) as [v Hv].
      by apply (ex_intro _ v), Hiff in Hv.
Qed.

(** [apply] moves the machine to a descendant exactly when it is valid and can
    be reached. *)
Lemma apply_ok w from to : machine_inv w0 w tip → at_state w0 w from → ancestor (blocks_ w) from to →
  finalized_below (blocks_ w) from → connected (blocks_ w) to → is_Some (blocks_ w !! to) →
  ∃ w' b, apply hasPayloads getCommands from to w = Ok (w', b) ∧ machine_inv w0 w' tip ∧ evolves w w' ∧
    branch_kept from to w w' ∧ at_state w0 w' (if b then to else from) ∧
    (b = true ↔ (∃ i, blocks_ w !! to = Some i ∧ isFailed i = false) ∧ ∃ w1, reaches w0 (blocks_ w) to w1).
Proof.
  intros Hi Hat Hanc Hfin Hcon [it Hit]. pose proof (mi_wf _ _ _ Hi) as W. unfold apply.
  destruct (ab_block _ _ (proj1 Hat)) as (fi & Hfi & Hff & _).
  destruct (decide (from = to)) as [->|Hne].
  { rewrite bool_decide_eq_true_2 by done. exists w, true. split; [done|split; [done|split; [done|split; [|split; [done|]]]]].
    - intros x j; eauto.
    - split; [|done]. intros _. split; [by exists fi|]. exists w. apply Hat. }
  rewrite bool_decide_eq_false_2 by done. rewrite (deref_eq _ _ _ Hit). cbn [mbind result_bind].
  rewrite isValid_eq by by apply (mi_status w0 w tip to). change BLOCK_VALID_TREE with 1.
  pose proof (Hcon to it Hit (ancestor_refl _ _)). rewrite (proj2 (Z.leb_le _ _)) by lia. rewrite andb_true_r.
  cbn [mbind result_bind]. destruct (isFailed it) eqn:Ef; cbn [negb].
  { exists w, false. split; [done|split; [done|split; [done|split; [|split; [done|]]]]].
    - intros x j; eauto.
    - split; [done|]. intros [(i & Hi' & Hf') _]. congruence. }
  rewrite (deref_eq _ _ _ Hfi). cbn [mbind result_bind].
  destruct (newChain_path _ from to fi it W Hfi Hit Hanc Hne) as (c & x & i & -> & Hpath & Hfirst & Hx & Hp & Hlt).
  rewrite (proj2 (Z.ltb_lt _ _)) by done. cbn [vassert mbind result_bind]. rewrite Hfirst, (deref_eq _ _ _ Hx).
  cbn [mbind result_bind]. rewrite bool_decide_eq_true_2 by done. cbn [vassert mbind result_bind].
  destruct (apply_loop_ok from to (chain c) w from Hi Hat Hpath (ancestor_refl _ _) Hfin Hcon) as (w' & b & -> & Hmv); [by exists it|].
  exists w', b. destruct Hmv as (? & ? & ? & ? & Hiff). split; [done|split; [done|split; [done|split; [done|split; [done|]]]]].
  rewrite Hiff. split; [intros ?; split; [by exists it|done]|by intros [_ ?]].
Qed.

(** C1: from a block it is at, the machine moves to any connected block whose
    branch keeps the finalized blocks.  [setState] never aborts; it succeeds
    exactly when the target has no failed block and the payloads up to it can be
    executed from the root; it then ends in the world of the target, and
    otherwise back in the world it started from. *)
Theorem sm_setState_refines w from to :
  machine_inv w0 w tip → at_state w0 w from → is_Some (blocks_ w !! to) → connected (blocks_ w) to →
  (∃ x, ancestor (blocks_ w) x from ∧ ancestor (blocks_ w) x to) →
  finalized_below (blocks_ w) from → finalized_below (blocks_ w) to →
  ∃ w' b, sm_setState hasPayloads getCommands from to w = Ok (w', b) ∧ machine_inv w0 w' tip ∧ evolves w w' ∧
    at_state w0 w' (if b then to else from) ∧ (b = false → w' ≡ w) ∧
    (b = true ↔ (∃ i, blocks_ w !! to = Some i ∧ isFailed i = false) ∧ ∃ w1, reaches w0 (blocks_ w) to w1).
Proof.
  intros Hi Hat Hto Hcon (x & Hxf & Hxt) Hff Hft. pose proof (mi_wf _ _ _ Hi) as W. unfold sm_setState.
  destruct (ab_block _ _ (proj1 Hat)) as (fi & Hfi & Hfv & _).
  destruct (decide (from = to)) as [->|Hne].
  { rewrite bool_decide_eq_true_2 by done. exists w, true. do 3 (split; [done|]). split; [done|split; [done|]].
    split; [intros _|done]. split; [by exists fi|]. exists w. apply Hat. }
  rewrite bool_decide_eq_false_2 by done.
  destruct (getForkBlock_spec _ from to fi (default fi (blocks_ w !! to)) W Hfi) as (r & -> & Hr).
  { by destruct Hto as [? ->]. }
  destruct r as [fork|]; [|by destruct (Hr x)]. destruct Hr as (Hkf & Hkt & Hmeet). cbn [mbind result_bind].
  destruct (unapply_ok w from fork Hi Hat Hkf) as (w1 & -> & Hi1 & Hev1 & Hval1 & Hat1).
  { intros y j Hy Hfin. apply Hmeet; by eauto. }
  cbn [mbind result_bind].
  assert (finalized_below (blocks_ w) fork) as Hfk by (intros y j Hy Hfin; apply Hmeet; eauto).
  destruct (apply_ok w1 fork to Hi1 Hat1) as (w2 & b & -> & Hi2 & Hev2 & Hbr2 & Hat2 & Hiff2).
  { by rewrite (evolves_ancestor _ _ _ _ Hev1). } { by eapply evolves_finalized. } { by eapply evolves_connected. }
  { destruct Hto as [it Hit]. by destruct (store_rel_lookup _ _ _ _ _ (proj1 Hev1) Hit) as (j & -> & _). }
  assert (evolves w w2) as Hev12 by by etrans. cbn [mbind result_bind fst snd].
  assert (b = true ↔ (∃ i, blocks_ w !! to = Some i ∧ isFailed i = false) ∧ ∃ u, reaches w0 (blocks_ w) to u) as Hiff.
  { rewrite Hiff2. setoid_rewrite <- (evolves_reaches _ _ to _ Hev1). f_equiv. split.
    - intros (j1 & Hj1 & Hf1). destruct Hto as [it Hit]. exists it. split; [done|].
      destruct (Hval1 _ to it Hit eq_refl) as (j1' & Hj1' & <-). by assert (j1' = j1) as -> by congruence.
    - intros (it & Hit & Hf1). by apply (Hval1 _ to it). }
  destruct b.
  { exists w2, true. by do 4 (split; [done|]). }
  destruct (apply_ok w2 fork from Hi2 Hat2) as (w3 & b & -> & Hi3 & Hev3 & _ & Hat3 & Hiff3).
  { by rewrite (evolves_ancestor _ _ _ _ Hev12). } { by eapply evolves_finalized. }
  { eapply evolves_connected; [exact Hev12|]. intros y j Hy Hanc. rewrite (ab_level _ _ (proj1 Hat) y j Hy Hanc). lia. }
  { by destruct (store_rel_lookup _ _ _ _ _ (proj1 Hev12) Hfi) as (j & -> & _). }
  assert (b = true) as ->.
  { apply Hiff3. split.
    - destruct (Hval1 _ from fi Hfi Hfv) as (j1 & Hj1 & Hf1). apply (Hbr2 from j1 Hj1 Hf1).
      intros y. rewrite !(evolves_ancestor _ _ _ _ Hev1). intros. by apply Hmeet.
    - exists w. apply (evolves_reaches _ _ _ _ Hev12), Hat. }
  cbn [mbind result_bind fst snd vassert]. assert (evolves w w3) as Hev13 by by etrans.
  exists w3, false. do 4 (split; [done|]). split; [|done]. intros _.
  apply (reaches_det w0 (blocks_ w) from); [apply Hi|apply (evolves_reaches _ _ _ _ Hev13), Hat3|apply Hat].
Qed.

(** C11: the machine can always go back.  After [apply] moved it from a block to
    a descendant, [unapply] to that block does not abort and restores the world. *)
Theorem unapply_apply w w' from to :
  machine_inv w0 w tip → at_state w0 w from → ancestor (blocks_ w) from to → is_Some (blocks_ w !! to) →
  connected (blocks_ w) to → finalized_below (blocks_ w) from →
  apply hasPayloads getCommands from to w = Ok (w', true) →
  ∃ w'', unapply hasPayloads getCommands to from w' = Ok w'' ∧ machine_inv w0 w'' tip ∧ at_state w0 w'' from ∧ w'' ≡ w.
Proof.
  intros Hi Hat Hanc Hto Hcon Hfin E.
  destruct (apply_ok w from to Hi Hat Hanc Hfin Hcon Hto) as (u & b & Eu & Hiu & Hev & _ & Hatu & _).
  rewrite E in Eu. injection Eu as <- <-.
  destruct (unapply_ok w' to from Hiu Hatu) as (w'' & Ew & Hi'' & Hev'' & _ & Hat'').
  { by rewrite (evolves_ancestor _ _ _ _ Hev). } { by eapply evolves_finalized. }
  exists w''. do 3 (split; [done|]).
  assert (evolves w w'') as Hev2 by by etrans.
  apply (reaches_det w0 (blocks_ w) from); [apply Hi|apply (evolves_reaches _ _ _ _ Hev2), Hat''|apply Hat].
Qed.
End range.
End inv.

(** ** A machine with two forks

    Blocks 1 and 2 follow the root 0 and carry the payloads 7 and 8; the command
    of a payload adds it to a list, and fails when it is there.  The machine is at
    block 1. *)
Module Example_machine.
#[export] Instance z_addon : BlockAddon Z := {| validTipLevel := 1; addon_setNull a := a |}.
#[export] Instance no_hooks : TreeHooks Z Z unit Z Z (list Z) := {|
  setState _ t := Ok (t, true);
  determineBestChain _ t := Ok t;
  onBeforeLeafRemoved _ t := Ok t;
  onBlockInserted _ t := Ok t;
  overrideTip _ t := Ok t
|}.
Notation world := (BaseBlockTree Z Z unit Z Z (list Z)).
#[export] Instance world_equiv : Equiv world := λ w w', ext w = ext w'.
#[export] Instance world_equivalence : Equivalence (≡@{world}).
Proof. split; unfold equiv, world_equiv; repeat intro; congruence. Qed.

Definition hasPayloads (a : Z) : bool := negb (a =? 0).
Definition push (a : Z) : Command world :=
  mkCommand (λ w, if bool_decide (a ∈ ext w) then Ok (w, false) else Ok (with_ext (a :: ext w) w, true))
    (λ w, match ext w with
          | x :: l => vassert (x =? a) "not the last payload";; Ok (with_ext l w)
          | [] => Assert "no payload"
          end).
Definition getCommands (b : unit) (a : Z) : result (list (CommandGroup world)) := Ok [mkCommandGroup [a] [push a] true].

Definition node (h s : Z) (p : option Z) (n : gset Z) (a : Z) : BlockIndex Z unit Z :=
  mkBlockIndex h () s false p n false a.
Definition blocks : gmap Z (BlockIndex Z unit Z) :=
  {[ 0 := node 0 516 None {[1; 2]} 0; 1 := node 1 516 (Some 0) ∅ 7; 2 := node 1 2 (Some 0) ∅ 8 ]}.
Definition tree (l : list Z) : world :=
  mkTree blocks {[1; 2]} (mkChain 0 [Some 0; Some 1]) 2 0 false None false true ∅ ∅ [] l.
Definition w0 : world := tree [].
Definition w : world := tree [7].
Definition ok (w : world) : Prop := True.

Lemma world_push_lawful a : lawful ok (kept hasPayloads getCommands) (push a).
Proof.
  split.
  - intros u1 u2 _ _ E. unfold equiv, world_equiv in E. cbn [Execute push]. rewrite <- E.
    case_bool_decide; eexists _, _, _; (split_and!; [reflexivity|reflexivity|..]; done || reflexivity).
  - intros u1 u1' u2 _ E _ E2. cbn [Execute push] in E. case_bool_decide; [done|].
    injection E as <-. unfold equiv, world_equiv in E2. cbn [ext with_ext] in E2.
    cbn [UnExecute push]. rewrite E2, Z.eqb_refl. cbn [vassert mbind result_bind].
    eexists. split_and!; done || reflexivity.
Qed.

Lemma ok_status w w' : status_only w w' → ok w → ok w' ∧ w ≡ w'.
Proof. by intros [_ E]. Qed.

Lemma tip_level : validTipLevel (A := Z) <= 2.
Proof. by vm_compute. Qed.

Lemma tree_ok l : tree_inv (tree l).
Proof. apply inv_check_ok, (bool_decide_unpack _). by vm_compute. Qed.

Lemma ancestor_iff k x i j : blocks !! k = Some i → blocks !! x = Some j →
  ancestor blocks x k ↔ (height j <= height i ∧ back blocks (Z.to_nat (height i - height j)) k = Some x).
Proof.
  intros Hk Hx. split; [|by intros [_ ?]; eexists].
  apply ancestor_back; [apply (so_wf _ (ti_store _ (tree_ok [])))|done|done].
Qed.

Lemma reaches_0 : reaches hasPayloads getCommands ok w0 blocks 0 w0.
Proof. by eapply reaches_root. Qed.

Lemma reaches_1 : reaches hasPayloads getCommands ok w0 blocks 1 w.
Proof. eapply (reaches_step _ _ _ _ _ _ _ 0 w0 w); [by vm_compute|done|apply reaches_0|done|by vm_compute|done]. Qed.

Lemma w_chain : chain_of blocks (activeChain_ w) 1.
Proof. eapply chain_check_ok; [|apply (bool_decide_unpack _)]; by vm_compute. Qed.

Lemma below_1 x i : blocks !! x = Some i → ancestor blocks x 1 ↔ x ≠ 2.
Proof.
  intros Hx. rewrite (ancestor_iff 1 x (node 1 516 (Some 0) ∅ 7) i) by done. revert x i Hx.
  refine (bool_decide_unpack (map_Forall (λ x i, _ ↔ x ≠ 2) blocks) _). by vm_compute.
Qed.

Lemma w_inv : machine_inv hasPayloads getCommands ok w0 w 1.
Proof.
  constructor.
  - apply tree_ok.
  - done.
  - intros k i Hk E. eexists. split; [reflexivity|]. do 2 (constructor; [|constructor]). apply world_push_lawful.
  - apply w_chain.
  - refine (bool_decide_unpack (map_Forall (λ x i, 0 <= height i) blocks) _). by vm_compute.
  - intros x i Hx. rewrite (below_1 x i Hx). revert x i Hx.
    refine (bool_decide_unpack (map_Forall (λ x i, x ≠ 2 → level (status i) = 4) blocks) _). by vm_compute.
  - assert (map_Forall (λ x i, level (status i) = 4 → x = 0 ∨ x = 1) blocks) as Hx
      by (apply (bool_decide_unpack _); by vm_compute).
    intros x i Hi E. destruct (Hx x i Hi E) as [->| ->]; [exists w0; apply reaches_0|exists w; apply reaches_1].
Qed.

Lemma w_state : at_state hasPayloads getCommands ok w0 w 1.
Proof.
  split; [constructor|apply reaches_1].
  - eexists. by vm_compute.
  - intros x i Hx. rewrite (below_1 x i Hx). revert x i Hx.
    refine (bool_decide_unpack (map_Forall (λ x i, hasFlags i BLOCK_ACTIVE = true ↔ x ≠ 2) blocks) _). by vm_compute.
  - apply w_inv.
Qed.

(** The machine at the root, before any block was applied. *)
Definition blocks0 : gmap Z (BlockIndex Z unit Z) :=
  {[ 0 := node 0 516 None {[1; 2]} 0; 1 := node 1 2 (Some 0) ∅ 7; 2 := node 1 2 (Some 0) ∅ 8 ]}.
Definition v : world := mkTree blocks0 {[1; 2]} (mkChain 0 [Some 0]) 1 0 false None false true ∅ ∅ [] [].

Lemma v_tree : tree_inv v.
Proof. apply inv_check_ok, (bool_decide_unpack _). by vm_compute. Qed.

Lemma below_0 x i : blocks0 !! x = Some i → ancestor blocks0 x 0 ↔ x = 0.
Proof.
  intros Hx. split; [|intros ->; apply ancestor_refl]. intros [[|n] Hn]; [by injection Hn|done].
Qed.

Lemma v_reaches : reaches hasPayloads getCommands ok v blocks0 0 v.
Proof. by eapply reaches_root. Qed.

Lemma v_level x i : blocks0 !! x = Some i → level (status i) = 4 ↔ x = 0.
Proof.
  revert x i. refine (bool_decide_unpack (map_Forall (λ x i, level (status i) = 4 ↔ x = 0) blocks0) _). by vm_compute.
Qed.

Lemma v_inv : machine_inv hasPayloads getCommands ok v v 0.
Proof.
  constructor.
  - apply v_tree.
  - done.
  - intros k i Hk E. eexists. split; [reflexivity|]. do 2 (constructor; [|constructor]). apply world_push_lawful.
  - eapply chain_check_ok; [|apply (bool_decide_unpack _)]; by vm_compute.
  - refine (bool_decide_unpack (map_Forall (λ x i, 0 <= height i) blocks0) _). by vm_compute.
  - intros x i Hx Hanc%(below_0 x i Hx). by apply (v_level x i Hx).
  - intros x i Hi ->%(v_level x i Hi). exists v. apply v_reaches.
Qed.

Lemma v_state : at_state hasPayloads getCommands ok v v 0.
Proof.
  split; [constructor|apply v_reaches].
  - eexists. by vm_compute.
  - intros x i Hx. rewrite (below_0 x i Hx). revert x i Hx.
    refine (bool_decide_unpack (map_Forall (λ x i, hasFlags i BLOCK_ACTIVE = true ↔ x = 0) blocks0) _). by vm_compute.
  - apply v_inv.
Qed.

Definition v1 : world :=
  match apply hasPayloads getCommands 0 1 v with Ok (w, _) => w | _ => v end.
End Example_machine.

Import Example_machine.

(** From block 1 to block 2. *)
Lemma sm_setState_refines_witness :
  ∃ w' b, sm_setState hasPayloads getCommands 1 2 w = Ok (w', b) ∧ machine_inv hasPayloads getCommands ok w0 w' 1 ∧
    evolves hasPayloads getCommands w w' ∧ at_state hasPayloads getCommands ok w0 w' (if b then 2 else 1) ∧
    (b = false → w' ≡ w) ∧
    (b = true ↔ (∃ i, blocks !! 2 = Some i ∧ isFailed i = false) ∧ ∃ w1, reaches hasPayloads getCommands ok w0 blocks 2 w1).
Proof.
  apply (sm_setState_refines hasPayloads getCommands ok ok_status tip_level w0 1 w 1 2).
  - apply w_inv.
  - apply w_state.
  - by eexists.
  - intros x i Hx _. revert x i Hx. refine (bool_decide_unpack (map_Forall (λ x i, 2 <= level (status i)) blocks) _). by vm_compute.
  - exists 0. split; [exists 1%nat|exists 1%nat]; by vm_compute.
  - intros x i Hx E. exfalso. revert x i Hx E. refine (bool_decide_unpack (map_Forall (λ x i, finalized i = true → False) blocks) _). by vm_compute.
  - intros x i Hx E. exfalso. revert x i Hx E. refine (bool_decide_unpack (map_Forall (λ x i, finalized i = true → False) blocks) _). by vm_compute.
Defined.

(** Block 1 is applied from the root, and unapplied. *)
Lemma unapply_apply_witness : ∃ w'', unapply hasPayloads getCommands 1 0 v1 = Ok w'' ∧
  machine_inv hasPayloads getCommands ok v w'' 0 ∧ at_state hasPayloads getCommands ok v w'' 0 ∧ w'' ≡ v.
Proof.
  apply (unapply_apply hasPayloads getCommands ok ok_status tip_level v 0 v v1 0 1).
  - apply v_inv.
  - apply v_state.
  - exists 1%nat. by vm_compute.
  - by eexists.
  - intros x i Hx _. revert x i Hx.
    refine (bool_decide_unpack (map_Forall (λ x i, 2 <= level (status i)) blocks0) _). by vm_compute.
  - intros x i Hx E. exfalso. revert x i Hx E.
    refine (bool_decide_unpack (map_Forall (λ x i, finalized i = true → False) blocks0) _). by vm_compute.
  - by vm_compute.
Defined.
