(* ===== verification/DeferGuard.v ===== *)
(** * Deferred fork resolution ([DeferForkResolutionGuard] of
    [blockchain/base_block_tree.hpp])

    While a guard exists, [updateTips] only notes that the tips have to be
    compared again.  The operations of a plain block tree under guards are the
    steps of a state machine ([guard_step]); [guard_release_best] shows that the
    release of the last guard does not abort and that the active chain then has
    the most work, whatever was done under the guards.  ([overrideDeferredForkResolution]
    is not a step: it gives up the comparison.) *)
From stdpp Require Import relations.
From S2P Require Import Prelude BlockIndex Chain TreeAlgo PayloadsIndex BaseTree TreeInv TreeRemove TreeStorage BlockTree BlockTreeInv AcceptHeader.

Section guard.
Context {K H B A P Ext SA : Type} `{Countable K, Countable H, Countable P, EqDecision B}.
Context `{BlockAddon A, PayloadIds A P, BlockHash B H, BlockHeader B H K, StoredAddon A SA}.
Context `{WorkAddon A, !WorkAddonLaws A, !BlockRules K B A}.
Notation tree := (BaseBlockTree K H B A P Ext).
Notation index_t := (BlockIndex K B A).
Implicit Types (t : tree) (i j : index_t) (k p x : K) (b : B) (g : guard_state).
Variables (newAddon : A) (newHeader : B).
Hypothesis tip_level : validTipLevel = 1.

(** Cumulative work does not decrease along the chains. *)
Definition work_grows t : Prop := ∀ k i p j, blocks_ t !! k = Some i → isDeleted i = false →
  pprev i = Some p → blocks_ t !! p = Some j → work_of j <= work_of i.

(** A header of this tree: the checks do not abort, it is not confused with
    another one, and neither its height nor the sum of its work overflows. *)
Record header_ok t b : Prop := {
  ho_collision : no_collision t b;
  ho_sane : hashIsPrevious b = false;
  ho_check : safe (checkBlock b);
  ho_height jp : blocks_ t !! getPreviousBlock b = Some jp → height jp < INT32_MAX;
  ho_context jp : blocks_ t !! getPreviousBlock b = Some jp → safe (contextuallyCheckBlock (blocks_ t) (getPreviousBlock b) b);
  ho_work jp : blocks_ t !! getPreviousBlock b = Some jp → work_of jp <= add256 (getBlockProof b) (work_of jp)
}.

(** ** The operations under guards *)
Inductive guard_step : tree → tree → Prop :=
| step_defer t : guard_step t (deferForkResolution t)
| step_continue t t' : 1 < deferForkResolutionDepth t →
    continueForkResolution (HK := plain_hooks) t = Ok t' → guard_step t t'
| step_accept t t' b r : header_ok t b →
    acceptBlockHeader (HK := plain_hooks) newAddon newHeader b t = Ok (t', r) → guard_step t t'
| step_remove t t' k i p : blocks_ t !! k = Some i → pprev i = Some p → isDeleted i = false →
    removeSubtree (HK := plain_hooks) k t = Ok t' → guard_step t t'
| step_update t t' : updateTips (HK := plain_hooks) t = Ok t' → guard_step t t'
| step_node t k i i' : blocks_ t !! k = Some i → same_state i i' → guard_step t (with_blocks <[k := i']> t).

Record guarded_inv t : Prop := {
  gi_state : ∃ g, btree_at g t ∧ 1 <= g.1 ∧ (g.2 = true ∨ best_work t);
  gi_work : work_grows t
}.

(** ** Every block that can be a tip has a tip above it *)
Definition can_tip_at t c : bool := match blocks_ t !! c with Some j => can_tip j | None => false end.

Lemma tip_above g t x i : btree_at g t → work_grows t → blocks_ t !! x = Some i → can_tip i = true →
  ∃ y j, y ∈ tips_ t ∧ blocks_ t !! y = Some j ∧ work_of i <= work_of j.
Proof.
  intros Hinv Hw. pose proof (bi_inv _ _ Hinv) as [[W _] _ Htips].
  remember (Z.to_nat (maxHeight (blocks_ t) - height i)) as n eqn:En. revert x i En.
  induction n as [n IH] using (well_founded_induction lt_wf). intros x i -> Hx Hc.
  destruct (decide (Exists (λ c, can_tip_at t c = true) (elements (pnext i)))) as [He|Hn].
  - apply Exists_exists in He as (c & Hcin%elem_of_elements & Hcj).
    destruct (wf_next _ W x i c) as (j & Hj & Hp); [done..|]. unfold can_tip_at in Hcj. rewrite Hj in Hcj.
    destruct (wf_prev _ W c j x) as (i' & Hi' & Hh & _); [done..|]. assert (i' = i) as -> by congruence.
    pose proof (maxHeight_ge _ _ _ Hj). pose proof (maxHeight_ge _ _ _ Hx).
    destruct (IH (Z.to_nat (maxHeight (blocks_ t) - height j)) ltac:(lia) c j eq_refl Hj Hcj) as (y & jy & ? & ? & ?).
    exists y, jy. split_and!; [done..|]. assert (isDeleted j = false) as Hd.
    { unfold can_tip in Hcj. by destruct (isDeleted j). }
    specialize (Hw c j x i Hj Hd Hp Hx). lia.
  - exists x, i. split_and!; [|done|lia]. apply Htips. exists i. split; [done|]. split; [done|].
    intros c j Hcin Hj. destruct (can_tip j) eqn:E; [|done]. exfalso. apply Hn, Exists_exists. exists c.
    unfold can_tip_at. rewrite Hj. split; [by apply elem_of_elements|done].
Qed.

Lemma best_above g t x i : btree_at g t → work_grows t → best_work t → blocks_ t !! x = Some i → can_tip i = true →
  work_of i <= tip_work t.
Proof.
  intros Hinv Hw Hbest Hx Hc. destruct (tip_above g t x i Hinv Hw Hx Hc) as (y & j & Hy & Hj & Hle).
  destruct (tip_lookup t Hinv) as (tip & it & Htip & Hit & ->). specialize (Hbest tip y it j Htip Hit Hy Hj). lia.
Qed.

(** ** The steps keep the invariant *)
Lemma guarded_keep g t' : btree_at g t' → 1 <= g.1 → (g.2 = true ∨ best_work t') → work_grows t' → guarded_inv t'.
Proof. intros. split; [|done]. by exists g. Qed.

Lemma step_accept_inv t t' b r : guarded_inv t → header_ok t b →
  acceptBlockHeader (HK := plain_hooks) newAddon newHeader b t = Ok (t', r) → guarded_inv t'.
Proof.
  intros [(g & Hinv & Hg1 & Hb) Hw] [Hcol Hsane Hchk Hht Hctx Hsum] E.
  destruct (accept_ok (g := g) newAddon newHeader t b) as (t1 & r1 & E1 & Hinv' & Hbest & _ & Hacc); [done..|intros jp Hjp; split; [by apply Hht|by apply (Hctx jp)]|].
  assert (t1 = t') as -> by congruence. apply (guarded_keep g t' Hinv' Hg1); [destruct Hb; auto|].
  destruct Hacc as [(_ & -> & _)|(jp & _ & _ & [(i & _ & _ & Eb)|(tb & i & jp' & Hprep & _ & Hi & Hjp & Eb)])]; [done| |].
  { unfold work_grows. by rewrite Eb. }
  set (k := hash_key b) in *. destruct Hprep as [Htb _ _ (i0 & Hi0 & Hdi & Hpi & _) (j & j0 & Hj & Hdj & Hj0 & _) Hdata Hdata'].
  assert (i0 = i) as -> by congruence. assert (j = jp') as -> by congruence.
  assert (k ≠ getPreviousBlock b) as Hne by congruence.
  destruct (Hdata' (getPreviousBlock b) jp' (not_eq_sym Hne) Hjp) as (j1 & Hj1 & Hsj).
  destruct (raised_node 2 (raised 1 (inserted_node b i jp'))) as (_ & _ & Ep2 & _ & _ & Ea2).
  destruct (raised_node 1 (inserted_node b i jp')) as (_ & _ & Ep1 & _ & _ & Ea1).
  destruct (inserted_node_facts b i jp') as ((_ & Ep0 & _) & _ & Ew & _).
  intros x ix q jq Hx Hdx Hq Hjq. rewrite Eb in Hx, Hjq. destruct (decide (k = x)) as [<-|Hkx].
  - rewrite lookup_insert_eq in Hx. injection Hx as <-. assert (q = getPreviousBlock b) as -> by congruence.
    rewrite lookup_insert_ne in Hjq by done. assert (jq = jp') as -> by congruence.
    unfold work_of at 2. rewrite Ea2, Ea1. fold (work_of (inserted_node b i jp')). rewrite Ew. unfold inserted_work.
    rewrite (same_data_work _ _ Hsj). by apply Hsum.
  - rewrite lookup_insert_ne in Hx by done. destruct (decide (k = q)) as [<-|Hkq].
    { by rewrite (bi_del _ _ Htb x ix k i) in Hdx. }
    rewrite lookup_insert_ne in Hjq by done. destruct (Hdata' x ix (not_eq_sym Hkx) Hx) as (ix0 & Hx0 & Hsx).
    destruct (Hdata' q jq (not_eq_sym Hkq) Hjq) as (jq0 & Hq0 & Hsq). rewrite (same_data_work _ _ Hsx), (same_data_work _ _ Hsq).
    destruct Hsx as (Es & _ & Ep & _). apply (Hw x ix0 q jq0); [done| |congruence|done].
    unfold isDeleted, hasFlags in *. by rewrite <- Es.
Qed.

(** What a removal leaves is as before. *)
Lemma removed_live t k m x j : removed_rel t k m → m !! x = Some j → isDeleted j = false → blocks_ t !! x = Some j.
Proof.
  intros Hr Hx Hd. specialize (Hr x). destruct (blocks_ t !! x) as [i|]; [|congruence].
  destruct Hr as [Hr|(Hr & _)]; [congruence|]. assert (j = deleted i) as -> by congruence. by rewrite deleted_isDeleted in Hd.
Qed.

Lemma removed_grows t t' k : removed_rel t k (blocks_ t') → (∃ g, btree_at g t') → work_grows t → work_grows t'.
Proof.
  intros Hr [g Hinv'] Hw x i p j Hx Hd Hp Hj. apply (Hw x i p j); [by eapply removed_live|done|done|].
  eapply removed_live; [done|done|]. destruct (isDeleted j) eqn:E; [|done]. by rewrite (bi_del _ _ Hinv' x i p j) in Hd.
Qed.

(** A removal off the active chain leaves no better tip. *)
Lemma removal_best g t t' k : btree_at g t → btree_at g t' → work_grows t → best_work t →
  activeChain_ t' = activeChain_ t → removed_rel t k (blocks_ t') → best_work t'.
Proof.
  intros Hinv Hinv' Hw Hbest Ec Hr tip x it ix Htip Hit Hx Hix.
  pose proof (proj1 (ti_tips _ (bi_inv _ _ Hinv') x) Hx) as (i & Hi & Hc & _).
  assert (i = ix) as -> by congruence. assert (isDeleted ix = false) as Hdx by (unfold can_tip in Hc; by destruct (isDeleted ix)).
  destruct (bi_tip _ _ Hinv') as (tip' & it' & Hc' & Hit' & Hdt & _).
  destruct (chain_of_tip _ _ _ _ Hc' Hit') as [Htip' _]. assert (tip' = tip) as -> by congruence.
  assert (it' = it) as -> by congruence. rewrite Ec in Htip.
  rewrite <- (tip_work_eq t tip it Htip (removed_live _ _ _ _ _ Hr Hit Hdt)).
  by apply (best_above g t x ix Hinv Hw Hbest (removed_live _ _ _ _ _ Hr Hix Hdx)).
Qed.

Lemma step_remove_inv t t' k i p : guarded_inv t → blocks_ t !! k = Some i → pprev i = Some p → isDeleted i = false →
  removeSubtree (HK := plain_hooks) k t = Ok t' → guarded_inv t'.
Proof.
  intros [(g & Hinv & Hg1 & Hb) Hw] Hk Hp Hd E.
  destruct (removeSubtree_ok (g := g) tip_level t k i p Hinv Hk Hp Hd) as (t1 & onChain & _ & E1 & Hinv' & _ & Hc & Hr & _).
  assert (t1 = t') as -> by congruence.
  assert (work_grows t') as Hw' by (eapply removed_grows; [done|by eexists|done]).
  destruct onChain.
  - apply (guarded_keep (after_update g)); [done|..|done]; unfold after_update;
      (destruct (Z.eqb_spec g.1 0); [lia|]); [done|by left].
  - apply (guarded_keep g); [done|done| |done]. destruct Hb as [Hb|Hb]; [by left|right].
    by apply (removal_best g t t' k); [..|apply Hc|].
Qed.

Lemma step_node_inv t k i i' : guarded_inv t → blocks_ t !! k = Some i → same_state i i' → guarded_inv (with_blocks <[k := i']> t).
Proof.
  intros [(g & Hinv & Hg1 & Hb) Hw] Hk Hs. pose proof Hs as ((_ & Ep & _) & _ & _ & Ew). destruct (same_state_flags _ _ Hs) as (Ed & _).
  assert (∀ x j, <[k := i']> (blocks_ t) !! x = Some j → ∃ j0, blocks_ t !! x = Some j0 ∧ isDeleted j0 = isDeleted j ∧
    pprev j0 = pprev j ∧ work_of j0 = work_of j) as Hback.
  { intros x j. destruct (decide (k = x)) as [<-|]; [rewrite lookup_insert_eq; intros [= <-]; by exists i|].
    rewrite lookup_insert_ne by done. intros Hj. by exists j. }
  apply (guarded_keep g); [by apply (touched_inv t k i)|done| |].
  - destruct Hb as [Hb|Hb]; [by left|right]. intros tip x it ix Htip (it0 & Hit & _ & _ & <-)%Hback Hx (ix0 & Hix & _ & _ & <-)%Hback.
    by apply (Hb tip x).
  - intros x ix p jp (ix0 & Hx & Edx & Epx & <-)%Hback Hd Hp (jp0 & Hj & _ & _ & <-)%Hback. apply (Hw x ix0 p jp0); congruence.
Qed.

(** The release of the last guard. *)
Lemma released_ok g t : btree_at g t → deferForkResolutionDepth t = 1 →
  ∃ t', continueForkResolution (HK := plain_hooks) t = Ok t' ∧ btree_inv t' ∧ same_blocks t t' ∧
    (g.2 = true ∨ best_work t → best_work t').
Proof.
  intros Hinv Hdepth. pose proof (bi_defer _ _ Hinv) as (Ed & Eu & El). unfold continueForkResolution. rewrite Hdepth, Eu, El.
  change (1 - 1) with 0. cbn [Z.ltb Z.compare vassert mbind result_bind with_defer deferForkResolutionDepth lastModifiedBlock isUpdateTipsDeferred].
  set (t0 := with_defer 0 g.2 None t).
  assert (btree_at (0, g.2) t0) as Hinv0 by (by apply (with_defer_inv g (0, g.2))).
  destruct g.2.
  - destruct (doUpdateTips_ok tip_level t0 Hinv0) as (t1 & -> & Hinv1 & Hs & Hb). cbn [mbind result_bind].
    pose proof (bi_defer _ _ Hinv1) as (Ed1 & Eu1 & El1). rewrite Ed1, El1. eexists. split; [done|].
    split; [by apply (with_defer_inv (0, true) (0, false))|by split].
  - eexists. split; [done|]. split; [done|]. split; [done|]. by intros [?|?].
Qed.

Lemma guard_step_inv t t' : guarded_inv t → guard_step t t' → guarded_inv t'.
Proof.
  intros HQ Hstep. destruct Hstep as [t|t t' Hdepth E|t t' b r Hh E|t t' k i p Hk Hp Hd E|t t' E|t k i i' Hk Hs].
  - destruct HQ as [(g & Hinv & Hg1 & Hb) Hw]. apply (guarded_keep (g.1 + 1, g.2)); [by apply defer_inv|cbn; lia|done|done].
  - destruct HQ as [(g & Hinv & Hg1 & Hb) Hw]. pose proof (bi_defer _ _ Hinv) as (Ed & Eu & El).
    unfold continueForkResolution in E. rewrite Ed in E, Hdepth. rewrite (proj2 (Z.ltb_lt 0 g.1)) in E by lia. cbn [vassert mbind result_bind] in E.
    cbn [with_defer deferForkResolutionDepth] in E. rewrite (proj2 (Z.ltb_lt 0 (g.1 - 1))) in E by lia. injection E as <-. rewrite Eu, El.
    apply (guarded_keep (g.1 - 1, g.2)); [by apply (with_defer_inv g (g.1 - 1, g.2))|cbn; lia|done|done].
  - by eapply step_accept_inv.
  - by eapply step_remove_inv.
  - destruct HQ as [(g & Hinv & Hg1 & Hb) Hw]. destruct (updateTips_any tip_level g t Hinv) as (t1 & E1 & Hinv1 & [Eb _] & _).
    assert (t1 = t') as -> by congruence. apply (guarded_keep (after_update g)); [done|..];
      unfold after_update; (destruct (Z.eqb_spec g.1 0); [lia|]); [done|by left|]. unfold work_grows. by rewrite Eb.
  - by apply (step_node_inv t k i).
Qed.
End guard.

(** ** Properties *)
Section props.
Context {K H B A P Ext SA : Type} `{Countable K, Countable H, Countable P, EqDecision B}.
Context `{BlockAddon A, PayloadIds A P, BlockHash B H, BlockHeader B H K, StoredAddon A SA}.
Context `{WorkAddon A, !WorkAddonLaws A, !BlockRules K B A}.
Notation tree := (BaseBlockTree K H B A P Ext).
Implicit Types t : tree.

(** C39: deferring the choice of the best chain loses nothing.  In a plain block
    tree, after any sequence of operations under guards (headers accepted, subtrees
    removed, tips updated, nodes marked, guards nested) the release of the last
    guard does not abort, the invariant holds without guards, and the active tip
    has the most work among all valid tips. *)
Theorem guard_release_best newAddon newHeader t t1 : validTipLevel = 1 → btree_inv t → best_work t → work_grows t →
  rtc (guard_step newAddon newHeader) (deferForkResolution t) t1 → deferForkResolutionDepth t1 = 1 →
  ∃ t2, continueForkResolution (HK := plain_hooks) t1 = Ok t2 ∧ btree_inv t2 ∧ best_work t2 ∧
    blocks_ t2 = blocks_ t1 ∧ tips_ t2 = tips_ t1.
Proof.
  intros Htl Hinv Hbest Hw Hsteps Hdepth.
  assert (guarded_inv t1) as [(g & Hinv1 & Hg1 & Hb) _].
  { assert (guarded_inv (deferForkResolution t)) as HQ.
    { apply (guarded_keep (1, false)); [by apply (defer_inv (0, false))|done|by right|done]. }
    revert HQ. induction Hsteps as [|x y z Hxy _ IH]; [done|]. intros HQ. apply IH; [done|]. by apply (guard_step_inv newAddon newHeader Htl x). }
  destruct (released_ok Htl g t1 Hinv1 Hdepth) as (t2 & E2 & Hinv2 & [Eb Et] & Hbest2).
  exists t2. split_and!; [done|done|by apply Hbest2|done|done].
Qed.
End props.

(** Under two nested guards a header is added on top of the active chain, then
    the block below it is removed. *)
Import Example_btree.
Definition under_guards : tree := deferForkResolution (deferForkResolution t1).

Definition accepted_5 : tree :=
  match acceptBlockHeader (HK := plain_hooks) 0 (0, 0, 0) (5, 4, 1) under_guards with Ok (t, _) => t | _ => emptyTree () end.
Definition removed_3 : tree := match removeSubtree (HK := plain_hooks) 3 accepted_5 with Ok t => t | _ => emptyTree () end.
Definition released_once : tree := match continueForkResolution (HK := plain_hooks) removed_3 with Ok t => t | _ => emptyTree () end.

Lemma lookup_check {K V} `{Countable K} (m : gmap K V) k (Q : V → Prop) :
  match m !! k with Some v => Q v | None => True end → ∀ v, m !! k = Some v → Q v.
Proof. intros HQ v Hv. by rewrite Hv in HQ. Qed.

Lemma header_5_ok : header_ok under_guards (5, 4, 1).
Proof.
  split; [|done|done| |done|].
  - intros i Hi. assert (blocks_ under_guards !! 5 = None) as E by (vm_compute; reflexivity).
    change (hash_key (5, 4, 1)) with 5 in Hi. congruence.
  - apply lookup_check. vm_compute. reflexivity.
  - apply lookup_check. vm_compute. discriminate.
Qed.

Definition grows_at (t : Example_btree.tree) (i : BlockIndex Z Example_btree.header Z) : bool :=
  isDeleted i || match pprev i with
    | Some p => match blocks_ t !! p with Some j => work_of j <=? work_of i | None => true end
    | None => true
    end.

Lemma t1_grows : work_grows t1.
Proof.
  assert (Forall (λ e, grows_at t1 e.2 = true) (map_to_list (blocks_ t1))) as Hall.
  { apply Forall_forall. intros e He. apply (forallb_forall (λ e, grows_at t1 e.2) (map_to_list (blocks_ t1)));
      [vm_compute; reflexivity|by apply list_elem_of_In]. }
  intros k i p j Hk Hd Hp Hj. rewrite Forall_forall in Hall. specialize (Hall (k, i) (proj2 (elem_of_map_to_list _ _ _) Hk)).
  unfold grows_at in Hall. cbn in Hall. rewrite Hd, Hp, Hj in Hall. cbn in Hall. by apply Z.leb_le.
Qed.

Lemma guard_release_best_witness :
  removeSubtree (HK := plain_hooks) 3 accepted_5 = Ok removed_3 ∧ chain_tip (activeChain_ released_once) = Some 1 ∧
  ∃ t2, continueForkResolution (HK := plain_hooks) released_once = Ok t2 ∧ btree_inv t2 ∧ best_work t2 ∧
    blocks_ t2 = blocks_ released_once ∧ tips_ t2 = tips_ released_once.
Proof.
  split; [vm_compute; reflexivity|]. split; [vm_compute; reflexivity|].
  apply (guard_release_best 0 (0, 0, 0) t1 released_once tip_level_1 t1_inv t1_best t1_grows); [|vm_compute; reflexivity].
  eapply rtc_l; [apply step_defer|].
  eapply rtc_l; [eapply (step_accept _ _ _ accepted_5); [apply header_5_ok|vm_compute; reflexivity]|].
  eapply rtc_l; [eapply (step_remove _ _ accepted_5 removed_3 3); vm_compute; reflexivity|].
  eapply rtc_l; [eapply (step_continue _ _ removed_3 released_once); vm_compute; reflexivity|]. apply rtc_refl.
Defined.
