(* ===== verification/AddBlock.v ===== *)
(** * The command [AddBlock] ([commands/addblock.hpp])

    The command accepts a header in a proof-of-work tree, unless it is there,
    and counts a reference to it; the rollback drops the reference, and the block
    with the last one.  [assertBlockCanBeRemoved] is overloaded for the two block
    types. *)
From Stdlib Require Import String.
From S2P Require Import Prelude BlockIndex Chain TreeAlgo PayloadsIndex BaseTree TreeStorage BlockTree Commands Serde Endorsements PopState BlockAddons.

Class Removable (A : Type) := { assertBlockCanBeRemoved : A → result unit }.

#[export] Instance btc_removable : Removable BtcBlockAddon := {
  assertBlockCanBeRemoved a :=
    vassert (bool_decide (blockOfProofEndorsements a = [])) "blockOfProof has pointers to endorsements, they will be lost" }.

#[export] Instance vbk_removable : Removable VbkBlockAddon := {
  assertBlockCanBeRemoved a :=
    vassert (bool_decide (blockOfProofEndorsements a = [])) "blockOfProof has pointers to endorsements, they will be lost";;
    vassert (bool_decide (endorsedBy (pop_state a) = [])) "endorsedBy has pointers to endorsements, they will be lost" }.

(** A command on a part of the world. *)
Definition lift_command {W V} (get : W → V) (set : V → W → W) (c : Command V) : Command W :=
  mkCommand (λ w, r ← Execute c (get w); Ok (set r.1 w, r.2))
    (λ w, v ← UnExecute c (get w); Ok (set v w)).

Section command.
Context {K H B A P Ext SA : Type} `{Countable K, Countable H, Countable P, EqDecision B}.
Context `{BlockAddon A, PayloadIds A P, BlockHash B H, BlockHeader B H K, StoredAddon A SA}.
Context `{WorkAddon A, !BlockRules K B A, !RefAddon A, !Removable A}.
Context `{HK : !TreeHooks K H B A P Ext}.
Notation tree := (BaseBlockTree K H B A P Ext).
Variables (newAddon : A) (newHeader : B).

Definition AddBlock_Execute (block : B) (referencedAtHeight : Z) (t : tree) : result (tree * bool) :=
  match getBlockIndex t (hash_key block) with
  | Some index => t ← modify index (node_addRef referencedAtHeight) t; Ok (t, true)
  | None =>
    r ← acceptBlockHeader newAddon newHeader block t;
    match r with
    | (t, inl _) => Ok (t, false)
    | (t, inr _) =>
      match getBlockIndex t (hash_key block) with
      | None => Assert "could not find the block we have just added"
      | Some index => t ← modify index (node_addRef referencedAtHeight) t; Ok (t, true)
      end
    end
  end.

Definition AddBlock_UnExecute (block : B) (referencedAtHeight : Z) (t : tree) : result tree :=
  match getBlockIndex t (hash_key block) with
  | None => Assert "failed to roll back AddBlock: the block does not exist"
  | Some index =>
    i ← deref (blocks_ t) index;
    i ← node_removeRef referencedAtHeight i;
    let t := with_blocks <[index := i]> t in
    if refCount (addon i) =? 0 then assertBlockCanBeRemoved (addon i);; removeLeaf index t
    else Ok t
  end.

Definition AddBlock (block : B) (referencedAtHeight : Z) : Command tree :=
  mkCommand (AddBlock_Execute block referencedAtHeight) (AddBlock_UnExecute block referencedAtHeight).
End command.
