(* ===== verification/AddBlockInv.v ===== *)
(** * [AddBlock] on the Bitcoin tree is undone by its rollback

    Every visible block of the Bitcoin tree is referenced ([refs_ok]): that is
    how the rollback knows which blocks it has to remove.  [AddBlock_undo] shows
    that, as long as no block has 2^32 - 1 references (the counter is a
    [uint32_t]) and no block is marked as failed, the command either changes
    nothing or can be rolled back.  Without the second condition a command can
    fail and leave an unreferenced block behind ([failed_command_leaves_block]). *)
From Stdlib Require Import String.
From S2P Require Import Prelude BlockIndex Chain TreeAlgo PayloadsIndex BaseTree TreeInv TreeRemove TreeStorage BlockTree BlockTreeInv AcceptHeader Commands Serde Address Blocks BtcContext Endorsements PopState BlockAddons StatelessValidation PowTrees AddBlock.

Lemma btc_tip_level : @validTipLevel BtcBlockAddon btc_addon = 1.
Proof. reflexivity. Qed.

Section inv.
Context {K H B P Ext : Type} `{Countable K, Countable H, Countable P, EqDecision B}.
Context `{BlockHash B H, BlockHeader B H K, !BlockRules K B BtcBlockAddon}.
Notation tree := (BaseBlockTree K H B BtcBlockAddon P Ext).
Notation index_t := (BlockIndex K B BtcBlockAddon).
Implicit Types (t : tree) (b : B) (i j : index_t) (k x : K).
Context (newHeader : B) {g : guard_state}.
#[local] Notation btree_inv := (btree_at g).

Definition visible t x : option index_t :=
  match blocks_ t !! x with Some i => if isDeleted i then None else Some i | None => None end.

(** The same block, up to the order of its references. *)
Definition node_like i j : Prop :=
  status i = status j ∧ height i = height j ∧ header i = header j ∧ pprev i = pprev j ∧
  btc_chainWork (addon i) = btc_chainWork (addon j) ∧
  blockOfProofEndorsements (addon i) = blockOfProofEndorsements (addon j) ∧ refs (addon i) ≡ₚ refs (addon j).

Definition live_like t t' : Prop := ∀ x, option_Forall2 node_like (visible t x) (visible t' x).

Record refs_ok (N : Z) t : Prop := {
  ro_live x i : blocks_ t !! x = Some i → isDeleted i = false → 1 <= Z.of_nat (length (refs (addon i))) <= N;
  ro_gone x i : blocks_ t !! x = Some i → isDeleted i = true →
    refs (addon i) = [] ∧ blockOfProofEndorsements (addon i) = []
}.

Lemma node_like_refl i : node_like i i.
Proof. by repeat split. Qed.

Lemma visible_some t x i : blocks_ t !! x = Some i → isDeleted i = false → visible t x = Some i.
Proof. unfold visible. by intros -> ->. Qed.

Lemma live_like_update t t' k i i' : blocks_ t !! k = Some i → isDeleted i = false → blocks_ t' = <[k := i']> (blocks_ t) →
  node_like i i' → live_like t t'.
Proof.
  intros Hk Hd Eb Hn x. unfold visible. rewrite Eb. destruct (decide (k = x)) as [<-|].
  - rewrite lookup_insert_eq, Hk, Hd. assert (isDeleted i' = false) as ->; [|by constructor].
    destruct Hn as (E & _). unfold isDeleted, hasFlags in *. by rewrite <- E.
  - rewrite lookup_insert_ne by done. destruct (blocks_ t !! x) as [j|]; [|constructor].
    destruct (isDeleted j); constructor. apply node_like_refl.
Qed.

(** ** The command on a visible block *)
Lemma getBlockIndex_visible t k : getBlockIndex t k = (λ _, k) <$> visible t k.
Proof. unfold getBlockIndex, visible. destruct (blocks_ t !! k) as [i|]; [|done]. by destruct (isDeleted i). Qed.

Lemma visible_inv t x i : visible t x = Some i → blocks_ t !! x = Some i ∧ isDeleted i = false.
Proof. unfold visible. destruct (blocks_ t !! x) as [j|]; [|done]. destruct (isDeleted j) eqn:E; [done|]. by intros [= <-]. Qed.

Lemma referenced_state h i : same_state i (node_addRef h i).
Proof. by repeat split. Qed.

Lemma unreferenced_ok h i l : refs (addon i) ≡ₚ h :: l → ∃ i', node_removeRef h i = Ok i' ∧ same_state i i' ∧ refs (addon i') ≡ₚ l ∧
  blockOfProofEndorsements (addon i') = blockOfProofEndorsements (addon i).
Proof.
  intros E. unfold node_removeRef, touch_result. cbn [removeRef btc_ref]. unfold btc_removeRef.
  destruct (erase_first h (refs (addon i))) as [l'|] eqn:El.
  - cbn [mbind result_bind]. eexists. split; [done|]. split; [by repeat split|]. split; [|done]. cbn.
    apply erase_first_perm in El. rewrite El in E. by apply Permutation_cons_inv in E.
  - exfalso. apply erase_first_none in El. apply El. rewrite E. left.
Qed.

Lemma refs_ok_update N N' t k i i' : refs_ok N t → N <= N' → blocks_ t !! k = Some i → isDeleted i' = false →
  1 <= Z.of_nat (length (refs (addon i'))) <= N' → refs_ok N' (with_blocks <[k := i']> t).
Proof.
  intros [Hl Hg] HN Hk Hd Hr. split; intros x j; cbn [with_blocks blocks_]; (destruct (decide (k = x)) as [<-|];
    [rewrite lookup_insert_eq; intros [= <-] Hdj; first [done|congruence]|rewrite lookup_insert_ne by done]); [|apply Hg].
  intros Hj Hdj. specialize (Hl x j Hj Hdj). lia.
Qed.

Lemma refs_ok_blocks N t t' : blocks_ t' = blocks_ t → refs_ok N t → refs_ok N t'.
Proof. intros E [? ?]. split; by rewrite E. Qed.

Lemma undo_present N t b h i : btree_inv t → refs_ok N t → N < 2 ^ 32 - 1 → visible t (hash_key b) = Some i →
  let t1 := with_blocks <[hash_key b := node_addRef h i]> t in
  AddBlock_Execute (HK := plain_hooks) newBtcAddon newHeader b h t = Ok (t1, true) ∧ btree_inv t1 ∧ refs_ok (N + 1) t1 ∧
  ∃ t2, AddBlock_UnExecute (HK := plain_hooks) b h t1 = Ok t2 ∧ btree_inv t2 ∧ refs_ok N t2 ∧ live_like t t2.
Proof.
  intros Hinv Hr HN Hv t1. set (k := hash_key b) in *. apply visible_inv in Hv as [Hk Hd].
  pose proof (ro_live _ _ Hr k i Hk Hd) as Hlen. set (i1 := node_addRef h i) in *.
  assert (btree_inv t1) as Hinv1 by (by apply (touched_inv t k i); [..|apply referenced_state]).
  assert (blocks_ t1 !! k = Some i1) as Hk1 by apply lookup_insert_eq.
  assert (isDeleted i1 = false) as Hd1 by done.
  split; [|split; [done|split]].
  - unfold AddBlock_Execute. fold k. rewrite getBlockIndex_visible, (visible_some t k i) by done. cbn [fmap option_fmap option_map].
    unfold modify. rewrite (deref_eq _ _ _ Hk). done.
  - apply (refs_ok_update N _ t k i); [done|lia|done|done|]. cbn. rewrite length_app. cbn. lia.
  - destruct (unreferenced_ok h i1 (refs (addon i))) as (i2 & Ei2 & Hs2 & Hp2 & Hb2).
    { cbn. by rewrite Permutation_app_comm. }
    assert (Z.of_nat (length (refs (addon i2))) = Z.of_nat (length (refs (addon i)))) as El2 by (by rewrite Hp2).
    destruct (same_state_flags _ _ Hs2) as (Ed2 & _).
    exists (with_blocks <[k := i2]> t1). unfold AddBlock_UnExecute. fold k.
    rewrite getBlockIndex_visible, (visible_some t1 k i1) by done. cbn [fmap option_fmap option_map].
    rewrite (deref_eq _ _ _ Hk1). cbn [mbind result_bind]. rewrite Ei2. cbn [mbind result_bind].
    assert (refCount (addon i2) =? 0 = false) as ->.
    { apply Z.eqb_neq. cbn [refCount btc_ref]. unfold btc_refCount. rewrite El2. unfold u32, wrapU. rewrite Z.mod_small by lia. lia. }
    split; [done|]. assert (with_blocks <[k := i2]> t1 = with_blocks <[k := i2]> t) as ->.
    { unfold t1, with_blocks. cbn. by rewrite insert_insert_eq. }
    assert (same_state i i2) as Hs by (destruct Hs2 as ((? & ? & ?) & ? & ? & ?); by repeat split).
    split; [by apply (touched_inv t k i)|]. split; [apply (refs_ok_update N _ t k i); [done|lia|done|by rewrite <- Ed2|by rewrite El2]|].
    apply (live_like_update t _ k i i2); [done|done|done|]. destruct Hs as ((? & ? & ?) & ? & ? & ?).
    repeat split; [done..|by rewrite Hb2|by rewrite Hp2].
Qed.

(** ** The command on a new block *)
Lemma no_live_children m i : (∀ c, c ∈ pnext i → ∃ j, m !! c = Some j ∧ isDeleted j = true) → nondeletedDescendantCount m i = Ok 0.
Proof.
  intros Hc. unfold nondeletedDescendantCount, children.
  assert (∀ c, c ∈ elements (pnext i) → ∃ j, m !! c = Some j ∧ isDeleted j = true) as Hl by set_solver.
  induction (elements (pnext i)) as [|c l IH]; [done|]. cbn [foldr]. rewrite IH by set_solver. cbn [mbind result_bind].
  destruct (Hl c) as (j & Hj & Hd); [set_solver|]. rewrite (deref_eq _ _ _ Hj). cbn [mbind result_bind]. by rewrite Hd.
Qed.

Lemma below_only m k x : (∀ c j, m !! c = Some j → pprev j = Some k → isDeleted j = true) →
  below (parent m) (live m) k x → x = k.
Proof.
  intros Hc. induction 1 as [|p c _ IH Hp Hl]; [done|]. exfalso. subst p.
  apply elem_of_live in Hl as (j & Hj & Hd). unfold parent in Hp. rewrite Hj in Hp. cbn in Hp.
  specialize (Hc c j Hj Hp). congruence.
Qed.

Lemma below_self m k i : m !! k = Some i → isDeleted i = false → below (parent m) (live m) k k.
Proof. intros Hk Hd. constructor. apply elem_of_live. eauto. Qed.

(** What the acceptance of a new block does to the tree. *)
Record grown t k t' (n : index_t) : Prop := {
  gr_node : blocks_ t' !! k = Some n ∧ isDeleted n = false ∧ pprev n ≠ None;
  gr_clean : refs (addon n) = [] ∧ blockOfProofEndorsements (addon n) = [];
  gr_leaf : ∀ c j, blocks_ t' !! c = Some j → pprev j = Some k → isDeleted j = true;
  gr_hidden : visible t k = None;
  gr_rest x : x ≠ k → option_Forall2 same_data (blocks_ t !! x) (blocks_ t' !! x)
}.

Lemma grown_ok N t b t' r : refs_ok N t → added (g := g) newBtcAddon t b t' → accepted t b t' r → r = inr (hash_key b) →
  ∃ n, grown t (hash_key b) t' n.
Proof.
  intros Hr (tb & i & jp & Hprep & Hgone & Hi & Hjp & Eb) Ha ->. set (k := hash_key b) in *.
  destruct Ha as (_ & n & Hn & _ & Hd & _). destruct Hprep as [Hinv _ _ (i' & Hi' & Hdi & Hpi & _ & Hadd) _ Hdata Hdata'].
  assert (i' = i) as -> by congruence. assert (n = raised 2 (raised 1 (inserted_node b i jp))) as En.
  { rewrite Eb, lookup_insert_eq in Hn. by injection Hn. }
  assert (same_links i n) as Hl.
  { rewrite En. destruct (inserted_node_facts b i jp) as ((E1 & E2 & E3) & _).
    destruct (raised_node 2 (raised 1 (inserted_node b i jp))) as (F1 & _ & F2 & F3 & _).
    destruct (raised_node 1 (inserted_node b i jp)) as (G1 & _ & G2 & G3 & _). split_and!; congruence. }
  assert (refs (addon n) = refs (addon i) ∧ blockOfProofEndorsements (addon n) = blockOfProofEndorsements (addon i)) as [Er Ebo].
  { rewrite En. destruct (raised_node 2 (raised 1 (inserted_node b i jp))) as (_ & _ & _ & _ & _ & ->).
    destruct (raised_node 1 (inserted_node b i jp)) as (_ & _ & _ & _ & _ & ->).
    unfold inserted_node, set_work. cbn. destruct (same_node_unsetFlag BLOCK_DELETED i) as (_ & _ & _ & _ & _ & ->). done. }
  exists n. split.
  - split_and!; [done..|]. destruct Hl as (_ & <- & _). by rewrite Hpi.
  - rewrite Er, Ebo. destruct Hadd as [[_ ->]|Hti]; [done|]. by apply (ro_gone _ _ Hr k i).
  - intros c j Hc Hp. destruct (decide (c = k)) as [->|Hne].
    + exfalso. assert (j = n) as -> by congruence. destruct Hl as (_ & Ep & _).
      assert (pprev i = Some k) as Hloop by congruence.
      by apply (prev_ne _ _ _ _ (so_wf _ (ti_store _ (bi_inv _ _ Hinv))) Hi Hloop).
    + rewrite Eb, lookup_insert_ne in Hc by done. by eapply (bi_del _ _ Hinv c j k i).
  - unfold visible. fold k in Hgone. destruct (blocks_ t !! k) as [i0|] eqn:E; [|done]. by rewrite (Hgone i0).
  - intros x Hx. rewrite Eb, lookup_insert_ne by done. destruct (blocks_ t !! x) as [j|] eqn:Ej.
    + destruct (Hdata x j Hx Ej) as (j' & -> & ?). by constructor.
    + destruct (blocks_ tb !! x) as [j'|] eqn:Ej'; [|constructor]. destruct (Hdata' x j' Hx Ej') as (? & ? & _). congruence.
Qed.

(** The block is removed again: all other blocks are as before its addition. *)
Lemma regrown t k t' t2 n n2 : grown t k t' n →
  refs (addon n2) = [] → blockOfProofEndorsements (addon n2) = [] →
  (∀ x, x ≠ k → blocks_ t2 !! x = blocks_ t' !! x) → blocks_ t2 !! k = Some (deleted n2) →
  live_like t t2 ∧ ∀ N, refs_ok N t → refs_ok N t2.
Proof.
  intros [_ _ _ Hhid Hrest] Er Eb Hsame Hk.
  assert (∀ x, x ≠ k → option_Forall2 same_data (blocks_ t !! x) (blocks_ t2 !! x)) as Hx.
  { intros x Hne. rewrite Hsame by done. by apply Hrest. }
  assert (∀ i j, same_data i j → isDeleted j = isDeleted i) as Hdel.
  { intros i j (E & _). unfold isDeleted, hasFlags. by rewrite E. }
  split.
  - intros x. destruct (decide (x = k)) as [->|Hne].
    { rewrite Hhid. unfold visible. rewrite Hk, deleted_isDeleted. constructor. }
    specialize (Hx x Hne). unfold visible. destruct Hx as [i j Hij|]; [|constructor]. rewrite (Hdel i j Hij).
    destruct (isDeleted i); constructor. destruct Hij as (? & ? & ? & ? & Ea). unfold node_like. rewrite Ea. by split_and!.
  - intros N [Hl Hg]. split; intros x j Hj Hd; (destruct (decide (x = k)) as [->|Hne];
      [assert (j = deleted n2) as -> by congruence|specialize (Hx x Hne); rewrite Hj in Hx; inversion Hx as [i j' Hij E1 E2|]; subst j';
       rewrite (Hdel i j Hij) in Hd; destruct Hij as (_ & _ & _ & _ & ->)]).
    + by rewrite deleted_isDeleted in Hd.
    + by apply (Hl x i).
    + done.
    + by apply (Hg x i).
Qed.

Lemma undo_grown N t b h t' n : btree_inv t' → refs_ok N t → 0 <= N → grown t (hash_key b) t' n →
  let t1 := with_blocks <[hash_key b := node_addRef h n]> t' in
  btree_inv t1 ∧ refs_ok (N + 1) t1 ∧
  ∃ t2 g', AddBlock_UnExecute (HK := plain_hooks) b h t1 = Ok t2 ∧ btree_at g' t2 ∧ (g' = g ∨ g' = after_update g) ∧
    refs_ok N t2 ∧ live_like t t2.
Proof.
  intros Hinv Hr HN Hg t1. set (k := hash_key b) in *. pose proof Hg as [(Hk & Hd & Hp) [Er Eb] Hleaf Hhid Hrest].
  set (n1 := node_addRef h n) in *.
  assert (btree_inv t1) as Hinv1 by (by apply (touched_inv t' k n); [..|apply referenced_state]).
  assert (blocks_ t1 !! k = Some n1) as Hk1 by apply lookup_insert_eq.
  assert (refs (addon n1) = [h]) as Er1 by (cbn; by rewrite Er).
  split; [done|split].
  { split; intros x j; unfold t1; cbn [with_blocks blocks_]; (destruct (decide (k = x)) as [<-|Hne];
      [rewrite lookup_insert_eq; intros [= <-] Hdj|rewrite lookup_insert_ne by done; intros Hj Hdj;
       specialize (Hrest x (not_eq_sym Hne)); rewrite Hj in Hrest; inversion Hrest as [i j' (E & _ & _ & _ & Ea) E1 E2|]; subst j';
       rewrite Ea; unfold isDeleted, hasFlags in Hdj; rewrite E in Hdj; symmetry in E1]).
    - rewrite Er1. cbn. lia.
    - pose proof (ro_live _ _ Hr x i E1 Hdj). lia.
    - by change (isDeleted n1) with (isDeleted n) in Hdj; congruence.
    - by apply (ro_gone _ _ Hr x i). }
  destruct (unreferenced_ok h n1 []) as (n2 & En2 & Hs2 & Hp2 & Hb2); [by rewrite Er1|].
  apply Permutation_nil_r in Hp2. unfold AddBlock_UnExecute. fold k.
  rewrite getBlockIndex_visible, (visible_some t1 k n1) by done. cbn [fmap option_fmap option_map].
  rewrite (deref_eq _ _ _ Hk1). cbn [mbind result_bind]. rewrite En2. cbn [mbind result_bind].
  cbn [refCount btc_ref]. unfold btc_refCount at 1. rewrite Hp2. cbn [length Z.of_nat]. change (u32 0 =? 0) with true. cbn iota.
  unfold assertBlockCanBeRemoved, btc_removable. rewrite Hb2. change (blockOfProofEndorsements (addon n1)) with (blockOfProofEndorsements (addon n)).
  rewrite Eb. rewrite bool_decide_eq_true_2 by done. cbn [vassert mbind result_bind].
  set (t1' := with_blocks <[k := n2]> t1).
  assert (btree_inv t1') as Hinv1' by (by apply (touched_inv t1 k n1)).
  assert (blocks_ t1' !! k = Some n2) as Hk2 by apply lookup_insert_eq.
  destruct (same_state_flags _ _ Hs2) as (Ed2 & _). change (isDeleted n1) with (isDeleted n) in Ed2.
  assert (∀ x, x ≠ k → blocks_ t1' !! x = blocks_ t' !! x) as Hother.
  { intros x Hne. unfold t1', t1. cbn. by rewrite !lookup_insert_ne. }
  assert (∀ c j, blocks_ t1' !! c = Some j → pprev j = Some k → isDeleted j = true) as Hleaf'.
  { intros c j Hc Hq. assert (c ≠ k) as Hne.
    { intros ->. by apply (prev_ne _ _ _ _ (so_wf _ (ti_store _ (bi_inv _ _ Hinv1'))) Hc Hq). }
    rewrite Hother in Hc by done. by apply (Hleaf c). }
  unfold removeLeaf. rewrite (deref_eq _ _ _ Hk2). cbn [mbind result_bind]. rewrite no_live_children.
  2: { intros c Hc. destruct (wf_next _ (so_wf _ (ti_store _ (bi_inv _ _ Hinv1'))) k n2 c) as (j & Hj & Hq); [done..|].
       exists j. split; [done|]. by apply (Hleaf' c). }
  cbn [mbind result_bind Z.eqb vassert].
  assert (pprev n2 = pprev n) as Ep by (destruct Hs2 as ((_ & E & _) & _); by rewrite <- E).
  destruct (pprev n) as [p|] eqn:Hpp; [|done].
  destruct (removeSubtree_ok (g := g) btc_tip_level t1' k n2 p) as (t2 & onChain & _ & Ht2 & Hinv2 & _ & _ & Hrel & Hall); [done|done|congruence|congruence|].
  exists t2, (if onChain then after_update g else g). split; [done|]. split; [done|]. split; [by destruct onChain; [right|left]|]. destruct (regrown t k t' t2 n n2) as [Hlike Hrefs]; [done|done|by rewrite Hb2| | |by split; [apply Hrefs|]].
  - intros x Hne. rewrite <- Hother by done. destruct (blocks_ t1' !! x) as [j|] eqn:Ej.
    + apply (Hall x j Ej). intros Hb. by apply below_only in Hb.
    + specialize (Hrel x). by rewrite Ej in Hrel.
  - apply (Hall k n2 Hk2). apply (below_self _ k n2); [done|congruence].
Qed.
End inv.

(** ** Properties *)
Section props.
Context {K H B P Ext : Type} `{Countable K, Countable H, Countable P, EqDecision B}.
Context `{BlockHash B H, BlockHeader B H K, !BlockRules K B BtcBlockAddon}.
Notation tree := (BaseBlockTree K H B BtcBlockAddon P Ext).
Implicit Types (t : tree) (b : B).

(** C38: [AddBlock] on the Bitcoin tree is atomic and is undone by its rollback,
    with or without a guard that defers the choice of the best chain.  In a tree
    whose visible blocks have between 1 and N < 2^32 - 1 references, for a header
    below a block that has not failed and is not of the largest height, [Execute] returns.  When it fails the header
    is one that the checks reject, and the tree is as before.  When it succeeds the
    block is in the tree with the new reference, and [UnExecute] returns a tree with
    the same visible blocks, with the same status, work and references; the
    invariants of the tree and of the references hold throughout, and what is
    deferred changes at most to an update of the tips. *)
Theorem AddBlock_undo newHeader g N t b h : btree_at g t → refs_ok N t → 0 <= N < 2 ^ 32 - 1 →
  no_collision t b → hashIsPrevious b = false → safe (checkBlock b) →
  (∀ jp, blocks_ t !! getPreviousBlock b = Some jp →
    isFailed jp = false ∧ height jp < INT32_MAX ∧ safe (BlockTree.contextuallyCheckBlock (blocks_ t) (getPreviousBlock b) b)) →
  let cmd := AddBlock (HK := plain_hooks) newBtcAddon newHeader b h in
  ∃ t1 ok, Execute cmd t = Ok (t1, ok) ∧
    if (ok : bool) then
      (∃ i, visible t1 (hash_key b) = Some i ∧ header i = b ∧ h ∈ refs (addon i)) ∧ btree_at g t1 ∧ refs_ok (N + 1) t1 ∧
      ∃ t2 g', UnExecute cmd t1 = Ok t2 ∧ btree_at g' t2 ∧ (g' = g ∨ g' = after_update g) ∧ refs_ok N t2 ∧ live_like t t2
    else t1 = t ∧ rejects t b.
Proof.
  intros Hinv Hr HN Hcol Hsane Hsafe Hprev cmd. unfold cmd. cbn [Execute UnExecute AddBlock].
  assert (∀ m i, visible (with_blocks <[hash_key b := node_addRef h i]> m : tree) (hash_key b) =
    if isDeleted i then None else Some (node_addRef h i)) as Hvis.
  { intros m i. unfold visible. cbn [with_blocks blocks_]. by rewrite lookup_insert_eq. }
  destruct (visible t (hash_key b)) as [i|] eqn:Ev.
  - destruct (undo_present newHeader (g := g) N t b h i) as (E & ? & ? & t2 & ? & ? & ? & ?); [done|done|lia|done|].
    exists (with_blocks <[hash_key b := node_addRef h i]> t), true. split; [done|].
    split; [|split; [done|split; [done|exists t2, g; split_and!; auto]]].
    apply visible_inv in Ev as [Hk Hd]. exists (node_addRef h i). rewrite Hvis, Hd. split; [done|].
    split; [by apply (Hcol i Hk)|]. cbn. set_solver.
  - destruct (accept_ok (g := g) newBtcAddon newHeader t b btc_tip_level) as (t' & r & Er & Hinv' & _ & Ha & Hacc); [done..| |].
    { intros jp Hjp. by destruct (Hprev jp Hjp). }
    unfold AddBlock_Execute. rewrite getBlockIndex_visible, Ev. cbn [fmap option_fmap option_map]. rewrite Er. cbn [mbind result_bind].
    destruct Hacc as [(Hrej & -> & e & ->)|(jp & (_ & Hjp & _) & Hres & Hcase)]; [by exists t, false|].
    rewrite (Hres (proj1 (Hprev jp Hjp))) in Ha |- *. destruct Hcase as [(i & Hi & Hd & _)|Hadd].
    { by rewrite (visible_some t _ i Hi Hd) in Ev. }
    destruct (grown_ok (g := g) N t b t' _ Hr Hadd Ha eq_refl) as [n Hg]. pose proof Hg as [(Hn & Hdn & _) _ _ _ _].
    rewrite getBlockIndex_visible, (visible_some t' _ n) by done. cbn [fmap option_fmap option_map].
    unfold modify. rewrite (deref_eq _ _ _ Hn). cbn [mbind result_bind]. eexists _, true. split; [done|].
    destruct (undo_grown (g := g) N t b h t' n) as (? & ? & ?); [done|done|lia|done|]. split; [|done].
    exists (node_addRef h n). rewrite Hvis, Hdn. split; [done|]. split; [|cbn; set_solver].
    destruct Ha as (_ & n' & Hn' & Hh & _). by assert (n' = n) as -> by congruence.
Qed.
End props.

(** A decision procedure for [refs_ok], for concrete trees. *)
Section check.
Context {K H B P Ext : Type} `{Countable K, Countable H, Countable P}.
Implicit Types t : BaseBlockTree K H B BtcBlockAddon P Ext.
Definition refs_check (N : Z) t : Prop := map_Forall (λ _ i,
  if isDeleted i then refs (addon i) = [] ∧ blockOfProofEndorsements (addon i) = []
  else 1 <= Z.of_nat (length (refs (addon i))) <= N) (blocks_ t).
#[export] Instance refs_check_dec N t : Decision (refs_check N t).
Proof. apply map_Forall_dec. intros k i. destruct (isDeleted i); apply _. Defined.
Lemma refs_check_ok N t : refs_check N t → refs_ok N t.
Proof. intros Hc. split; intros x i Hi Hd; specialize (Hc x i Hi); cbn in Hc; by rewrite Hd in Hc. Qed.
End check.

Import Example_btc.
#[local] Existing Instance toy_hashes.
#[local] Existing Instance Example_btc.rules.

Lemma t_refs : refs_ok 1 t.
Proof. apply refs_check_ok, (bool_decide_unpack _). by vm_compute. Qed.

(** The tree under a guard. *)
Definition guarded : btc_tree := deferForkResolution t.
Lemma guarded_inv : btree_at (1, false) guarded.
Proof. apply (defer_inv (0, false)), t_inv. Qed.
Lemma guarded_refs : refs_ok 1 guarded.
Proof. apply (refs_ok_blocks _ t); [done|apply t_refs]. Qed.

Lemma AddBlock_undo_witness :
  let cmd := AddBlock (HK := plain_hooks) newBtcAddon newBtcHeader b 5 in
  is_ok (Execute cmd guarded) = true ∧ ∃ t1 ok, Execute cmd guarded = Ok (t1, ok) ∧
    if (ok : bool) then
      (∃ i, visible t1 (hash_key b) = Some i ∧ header i = b ∧ 5 ∈ refs (addon i)) ∧ btree_at (1, false) t1 ∧ refs_ok 2 t1 ∧
      ∃ t2 g', UnExecute cmd t1 = Ok t2 ∧ btree_at g' t2 ∧ (g' = (1, false) ∨ g' = (1, true)) ∧ refs_ok 1 t2 ∧ live_like guarded t2
    else t1 = guarded ∧ rejects guarded b.
Proof.
  split; [by vm_compute|]. apply (AddBlock_undo newBtcHeader (1, false) 1 guarded b 5);
    [apply guarded_inv|apply guarded_refs|lia|apply b_fresh|by vm_compute|by vm_compute|].
  intros jp Hjp. assert (jp = genesis_node) as ->.
  { change (blocks_ t !! Btc.previousBlock b = Some jp) in Hjp. rewrite genesis_lookup in Hjp. apply (inj Some) in Hjp. exact (eq_sym Hjp). }
  split; [by vm_compute|]. split; [apply b_context|by vm_compute].
Defined.

(** Below a failed block the command fails, but the block stays, without a
    reference. *)
Definition child : Btc.BtcBlock := block (Btc.calculateHash b) 1600 4.
Definition failed_tree : btc_tree :=
  match acceptBlockHeader (HK := plain_hooks) newBtcAddon newBtcHeader b t with
  | Ok (t, _) => match invalidateSubtree (HK := plain_hooks) (hash_key b) BLOCK_FAILED_BLOCK true t with Ok t => t | _ => t end
  | _ => t
  end.
Lemma failed_command_leaves_block :
  match Execute (AddBlock (HK := plain_hooks) newBtcAddon newBtcHeader child 5) failed_tree with
  | Ok (t1, ok) => ok = false ∧ visible failed_tree (hash_key child) = None ∧
      option_map (λ i, refs (addon i)) (visible t1 (hash_key child)) = Some []
  | _ => False
  end.
Proof. by vm_compute. Qed.
