(* ===== verification/AddEndorsement.v ===== *)
(** * The command [AddEndorsement] ([commands/addendorsement.hpp])

    The command adds an endorsement to the block that contains it, and pointers
    to it to the endorsed block and to the block of proof in the protecting tree.
    The world is the protected tree [ed_]; the protecting tree [ing_] is part of
    it ([ext]), with the address of the next endorsement that is allocated.

    [edKey] and [ingKey] turn the hashes of an endorsement into the keys of the
    two trees ([makePrevHash]). *)
From Stdlib Require Import String Sorted.
From S2P Require Import Prelude BlockIndex Chain TreeAlgo PayloadsIndex BaseTree TreeInv BlockTree BlockTreeInv Commands PopStateMachine PopStateMachineInv Serde Endorsements PopState BlockAddons.

(** The protecting tree and the allocator. *)
Record Protecting (T : Type) := mkProtecting { ing : T; next_address : Z }.
Arguments mkProtecting {T}.
Arguments ing {T}.
Arguments next_address {T}.

(** What is left of the addon of a protecting block besides the endorsements
    it proves, up to the order of its references. *)
Class AddonRest (A : Type) `{ProofAddon A} := {
  rest_equiv : A → A → Prop;
  rest_equivalence :: Equivalence rest_equiv;
  rest_bop l a : rest_equiv (set_blockOfProofEndorsements l a) a
}.

Section command.
Context {K H B A P K2 H2 B2 A2 P2 E2 : Type}.
Context `{Countable K, Countable H, Countable P, Countable K2, Countable H2, Countable P2}.
Context `{!PopAddon A, !ProofAddon A2}.
Notation ing_tree := (BaseBlockTree K2 H2 B2 A2 P2 E2).
Notation ing_node := (BlockIndex K2 B2 A2).
Notation world := (BaseBlockTree K H B A P (Protecting ing_tree)).
Notation node := (BlockIndex K B A).
Context (edKey : list Z → K) (ingKey : list Z → K2) (name : string) (settlementInterval : Z).
Implicit Types (w : world) (t : ing_tree) (e : Endorsement) (i j : node) (p q : endorsement_ptr).

Definition ing_of w : ing_tree := ing (ext w).
Definition set_ing (t : ing_tree) (w : world) : world := with_ext (mkProtecting t (next_address (ext w))) w.

(** The guards of [Execute]: the containing, the endorsed and the proof block. *)
Definition checkEndorsement (e : Endorsement) (w : world) : result (K * K * K2) :=
  match getBlockIndex w (edKey (containingHash e)) with
  | None => invalid (name +:+ "-no-containing")
  | Some containing =>
    match getBlockIndex w (edKey (endorsedHash e)) with
    | None => invalid (name +:+ "-no-endorsed-block")
    | Some endorsed =>
      c ← deref (blocks_ w) containing;
      d ← deref (blocks_ w) endorsed;
      actualEndorsed ← getAncestor (blocks_ w) containing (height d);
      if negb (bool_decide (actualEndorsed = Some endorsed)) then invalid (name +:+ "-block-differs")
      else
        distance ← cki32 (height c - height d);
        if i32 settlementInterval <? distance then invalid (name +:+ "-expired")
        else
          match getBlockIndex (ing_of w) (ingKey (blockOfProof e)) with
          | None => invalid (name +:+ "-block-of-proof-not-found")
          | Some blockOfProof => Ok (containing, endorsed, blockOfProof)
          end
    end
  end.

(** [modify] on the protecting tree. *)
Definition modify_ing (k : K2) (f : ing_node → ing_node) (w : world) : result world :=
  t ← modify k f (ing_of w); Ok (set_ing t w).

Definition AddEndorsement_Execute (e : Endorsement) (w : world) : result (world * bool) :=
  check ← catch (checkEndorsement e w);
  match check with
  | inl _ => Ok (w, false)
  | inr (containing, endorsed, blockOfProof) =>
    let e_ := mkPtr (next_address (ext w)) e in
    let w := with_ext (mkProtecting (ing_of w) (next_address (ext w) + 1)) w in
    w ← modify containing (node_insertContainingEndorsement e_) w;
    w ← modify endorsed (node_insertEndorsedBy e_) w;
    w ← modify_ing blockOfProof (node_insertBlockOfProofEndorsement e_) w;
    Ok (w, true)
  end.

Definition AddEndorsement_UnExecute (e : Endorsement) (w : world) : result world :=
  match getBlockIndex w (edKey (containingHash e)), getBlockIndex w (edKey (endorsedHash e)),
        getBlockIndex (ing_of w) (ingKey (blockOfProof e)) with
  | None, _, _ => Assert "the containing block does not exist"
  | _, None, _ => Assert "the endorsed block does not exist"
  | _, _, None => Assert "the blockOfProof block does not exist"
  | Some containing, Some endorsed, Some blockOfProof =>
    c ← deref (blocks_ w) containing;
    let Eit := findContainingEndorsement (id e) (pop_state (addon c)) in
    vassert (Eit <? length (containingEndorsements (pop_state (addon c))))%nat
      "state corruption: containing endorsement not found";;
    q ← containing_at Eit (pop_state (addon c));
    d ← deref (blocks_ w) endorsed;
    let r := node_eraseLastFromEndorsedBy q d in
    vassert r.2 "Failed to remove endorsement from endorsedBy";;
    let w := with_blocks <[endorsed := r.1]> w in
    b ← deref (blocks_ (ing_of w)) blockOfProof;
    let r := node_eraseLastFromBlockOfProofEndorsement q b in
    vassert r.2 "Failed to remove endorsement from blockOfProof";;
    let w := set_ing (with_blocks <[blockOfProof := r.1]> (ing_of w)) w in
    c ← deref (blocks_ w) containing;
    c ← node_removeContainingEndorsement Eit c;
    Ok (with_blocks <[containing := c]> w)
  end.

Definition AddEndorsement (e : Endorsement) : Command world :=
  mkCommand (AddEndorsement_Execute e) (AddEndorsement_UnExecute e).
End command.
