(* ===== verification/Recovery.v ===== *)
(** * Recovering endorsements of a loaded block
    ([recoverEndorsements], [recoverEndorsementsFast] and [areOnSameChain] of
    [blockchain/blockchain_util.hpp])

    A loaded block owns the endorsements it contains; the pointers to them, in
    the endorsed block and in the block of proof, are rebuilt.  All checks come
    first, so a failure changes nothing; the fast variant has no checks, and
    [recoverEndorsements_correct] shows that it rebuilds the same pointers. *)
From Stdlib Require Import String.
From S2P Require Import Prelude BlockIndex Chain TreeAlgo PayloadsIndex BaseTree TreeInv BlockTree BlockTreeInv Serde Endorsements PopState BlockAddons AddEndorsement.

Section recovery.
Context {K B A P K2 H2 B2 A2 P2 E2 : Type}.
Context `{Countable K, Countable P, Countable K2, Countable H2, Countable P2}.
Context `{!PopAddon A, !ProofAddon A2, !BlockHash B (list Z)}.
Notation ing_tree := (BaseBlockTree K2 H2 B2 A2 P2 E2).
Notation world := (BaseBlockTree K (list Z) B A P (Protecting ing_tree)).
Notation node := (BlockIndex K B A).
Notation ing_node := (BlockIndex K2 B2 A2).
Context (edKey : list Z → K) (ingKey : list Z → K2).
Implicit Types (w : world) (p : endorsement_ptr).

(** The pointers of an action: the endorsed block, the block of proof and the
    endorsement. *)
Notation action := (K * K2 * endorsement_ptr)%type (only parsing).

Definition recover_check (chain : Chain K) (toRecover : node) w (x : list Z * endorsement_ptr) : result action :=
  let e := target x.2 in
  if negb (bool_decide (x.1 = id e)) then invalid "bad-id"
  else
    match getBlockIndex w (edKey (endorsedHash e)) with
    | None => invalid "no-endorsed"
    | Some endorsed =>
      d ← deref (blocks_ w) endorsed;
      matches ← match chain_at chain (height d) with
                | None => Ok false
                | Some c => ci ← deref (blocks_ w) c; Ok (bool_decide (getHash (header ci) = endorsedHash e))
                end;
      if negb (matches && bool_decide (getHash (header d) = endorsedHash e)) then invalid "bad-endorsed"
      else if negb (bool_decide (containingHash e = getHash (header toRecover))) then invalid "bad-containing"
      else
        match getBlockIndex (ing_of w) (ingKey (blockOfProof e)) with
        | None => invalid "bad-blockofproof"
        | Some blockOfProof => Ok (endorsed, blockOfProof, x.2)
        end
    end.

(** A change that keeps the dirty flag. *)
Definition keep_dirty {K0 B0 A0} `{Countable K0} (f : BlockIndex K0 B0 A0 → BlockIndex K0 B0 A0) (i : BlockIndex K0 B0 A0)
    : BlockIndex K0 B0 A0 :=
  if dirty i then f i else unsetDirty (f i).

Definition recover_action (a : action) w : result world :=
  let '(endorsed, blockOfProof, p) := a in
  d ← deref (blocks_ w) endorsed;
  vassert (negb (existsb (λ q, ptr_eqb q p) (endorsedBy (pop_state (addon d)))))
    "same endorsement is added to endorsedBy second time";;
  let w := with_blocks <[endorsed := keep_dirty (node_insertEndorsedBy p) d]> w in
  b ← deref (blocks_ (ing_of w)) blockOfProof;
  vassert (negb (existsb (λ q, ptr_eqb q p) (blockOfProofEndorsements (addon b))))
    "same endorsement is added to blockOfProof second time";;
  Ok (set_ing (with_blocks <[blockOfProof := keep_dirty (node_insertBlockOfProofEndorsement p) b]> (ing_of w)) w).

Definition run_actions (l : list action) (w : world) : result world := foldM (λ w a, recover_action a w) l w.

Definition containing_of (i : node) : list (list Z * endorsement_ptr) := containingEndorsements (pop_state (addon i)).

Definition recoverEndorsements (toRecover : K) (chain : Chain K) w : result world :=
  r ← deref (blocks_ w) toRecover;
  actions ← foldM (λ l x, a ← recover_check chain r w x; Ok (l ++ [a])) (containing_of r) [];
  run_actions actions w.

(** A null pointer of an action is dereferenced when the action runs. *)
Definition fast_action w (x : list Z * endorsement_ptr) : option action :=
  match getBlockIndex w (edKey (endorsedHash (target x.2))), getBlockIndex (ing_of w) (ingKey (blockOfProof (target x.2))) with
  | Some endorsed, Some blockOfProof => Some (endorsed, blockOfProof, x.2)
  | _, _ => None
  end.

Definition run_fast (l : list (option action)) (w : world) : result world :=
  foldM (λ w a, match a with Some a => recover_action a w | None => Undef "null block" end) l w.

Definition recoverEndorsementsFast (toRecover : K) w : result world :=
  r ← deref (blocks_ w) toRecover;
  run_fast (map (fast_action w) (containing_of r)) w.

(** [areOnSameChain] *)
Definition areOnSameChain (h1 h2 : K) w : result bool :=
  match getBlockIndex w h1, getBlockIndex w h2 with
  | None, _ => Assert "unknown block"
  | _, None => Assert "unknown block"
  | Some blk1, Some blk2 =>
    i1 ← deref (blocks_ w) blk1;
    i2 ← deref (blocks_ w) blk2;
    if height i2 <? height i1 then a ← getAncestor (blocks_ w) blk1 (height i2); Ok (bool_decide (a = Some blk2))
    else a ← getAncestor (blocks_ w) blk2 (height i1); Ok (bool_decide (a = Some blk1))
  end.

(** ** The fast variant *)
Lemma check_fast chain r w x a : recover_check chain r w x = Ok a → fast_action w x = Some a.
Proof.
  unfold recover_check, fast_action. case_bool_decide; [|done]. cbn [negb].
  destruct (getBlockIndex w _) as [d|]; [|done]. intros E.
  apply bind_Ok in E as (di & _ & E). apply bind_Ok in E as (m & _ & E).
  destruct (m && _); [|done]. cbn [negb] in E. case_bool_decide; [|done]. cbn [negb] in E.
  by destruct (getBlockIndex (ing_of w) _); [injection E as <-|].
Qed.

Lemma checks_fast chain r w l acc actions :
  foldM (λ l x, a ← recover_check chain r w x; Ok (l ++ [a])) l acc = Ok actions →
  map Some actions = map Some acc ++ map (fast_action w) l.
Proof.
  revert acc. induction l as [|x l IH]; intros acc; cbn [foldM].
  { intros [= ->]. by rewrite app_nil_r. }
  intros E. apply bind_Ok in E as (acc' & E1 & E). apply bind_Ok in E1 as (a & Ea & [= <-]).
  rewrite (IH _ E). rewrite map_app, <- app_assoc. cbn. by rewrite (check_fast _ _ _ _ _ Ea).
Qed.

Lemma run_fast_some l w : run_fast (map Some l) w = run_actions l w.
Proof.
  unfold run_fast, run_actions. revert w. induction l as [|a l IH]; intros w; [done|]. cbn [map foldM].
  destruct (recover_action a w); cbn [mbind result_bind]; [apply IH|done..].
Qed.

Lemma fast_agrees toRecover chain w w' : recoverEndorsements toRecover chain w = Ok w' → recoverEndorsementsFast toRecover w = Ok w'.
Proof.
  unfold recoverEndorsements, recoverEndorsementsFast. intros E. apply bind_Ok in E as (r & -> & E).
  apply bind_Ok in E as (actions & Ea & E). cbn [mbind result_bind].
  apply checks_fast in Ea. cbn in Ea. by rewrite <- Ea, run_fast_some.
Qed.
End recovery.

(** ** What is rebuilt *)
Section rebuilt.
Context {K B A P K2 H2 B2 A2 P2 E2 : Type}.
Context `{Countable K, Countable P, Countable K2, Countable H2, Countable P2}.
Context `{PopAddonLaws A, ProofAddonLaws A2, !BlockHash B (list Z)}.
Notation ing_tree := (BaseBlockTree K2 H2 B2 A2 P2 E2).
Notation world := (BaseBlockTree K (list Z) B A P (Protecting ing_tree)).
Notation node := (BlockIndex K B A).
Notation ing_node := (BlockIndex K2 B2 A2).
Context (edKey : list Z → K) (ingKey : list Z → K2).
Implicit Types (w : world) (p : endorsement_ptr) (l : list endorsement_ptr).

(** A node with more pointers, and nothing else changed. *)
Definition with_endorsedBy l (i : node) : node :=
  with_addon (set_pop_state (mkPopState (containing_of i) (endorsedBy (pop_state (addon i)) ++ l)) (addon i)) i.
Definition with_proofs l (u : ing_node) : ing_node :=
  with_addon (set_blockOfProofEndorsements (blockOfProofEndorsements (addon u) ++ l) (addon u)) u.

Lemma with_endorsedBy_app l l' i : with_endorsedBy l' (with_endorsedBy l i) = with_endorsedBy (l ++ l') i.
Proof. unfold with_endorsedBy, containing_of, with_addon. cbn. rewrite pop_set, set_pop_set. cbn. by rewrite app_assoc. Qed.
Lemma with_proofs_app l l' u : with_proofs l' (with_proofs l u) = with_proofs (l ++ l') u.
Proof. unfold with_proofs, with_addon. cbn. by rewrite bop_set, set_bop_set, app_assoc. Qed.
Lemma with_endorsedBy_nil i : with_endorsedBy [] i = i.
Proof.
  unfold with_endorsedBy, containing_of, with_addon. rewrite app_nil_r. destruct i as [????? ? ? a]. cbn.
  pose proof (set_pop a) as E. by destruct (pop_state a); cbn; rewrite E.
Qed.
Lemma with_proofs_nil u : with_proofs [] u = u.
Proof. unfold with_proofs, with_addon. rewrite app_nil_r. destruct u. cbn. by rewrite set_bop. Qed.

Lemma keep_dirty_touch {K0 B0 A0} `{Countable K0} (f : A0 → A0) (i : BlockIndex K0 B0 A0) : keep_dirty (touch f) i = with_addon (f (addon i)) i.
Proof. unfold keep_dirty, touch, with_addon, setDirty, unsetDirty. destruct i as [??? d ? ? ? ?]. by destruct d. Qed.

(** Every block gets the pointers that name it, in order. *)
Definition rebuilt (ps : list endorsement_ptr) w w' : Prop :=
  (∀ x, blocks_ w' !! x = with_endorsedBy (filter (λ p, edKey (endorsedHash (target p)) = x) ps) <$> blocks_ w !! x) ∧
  (∀ x, blocks_ (ing_of w') !! x = with_proofs (filter (λ p, ingKey (blockOfProof (target p)) = x) ps) <$> blocks_ (ing_of w) !! x) ∧
  tips_ w' = tips_ w ∧ same_base w w' ∧
  tips_ (ing_of w') = tips_ (ing_of w) ∧ same_rest (ing_of w) (ing_of w') ∧ next_address (ext w') = next_address (ext w).

Lemma rebuilt_action p w w' :
  recover_action (edKey (endorsedHash (target p)), ingKey (blockOfProof (target p)), p) w = Ok w' → rebuilt [p] w w'.
Proof.
  unfold recover_action. intros E. apply bind_Ok in E as (d & Hd%deref_Ok & E). apply bind_Ok in E as (_ & _ & E).
  apply bind_Ok in E as (b & Hb%deref_Ok & E). apply bind_Ok in E as (_ & _ & [= <-]).
  unfold node_insertEndorsedBy, node_insertBlockOfProofEndorsement. rewrite !keep_dirty_touch.
  split; [|split; [|done]]; intros x; rewrite filter_cons, filter_nil; cbn.
  - case_decide as Ex; [subst x; rewrite lookup_insert_eq, Hd; done|rewrite lookup_insert_ne by done].
    destruct (blocks_ w !! x); cbn; by rewrite ?with_endorsedBy_nil.
  - change (blocks_ (ing_of w) !! ingKey (blockOfProof (target p)) = Some b) in Hb. unfold ing_of in Hb |- *.
    case_decide as Ex; [subst x; rewrite lookup_insert_eq, Hb; done|rewrite lookup_insert_ne by done].
    change (blocks_ (ing (ext w)) !! x = with_proofs [] <$> blocks_ (ing (ext w)) !! x).
    destruct (blocks_ (ing (ext w)) !! x); cbn; by rewrite ?with_proofs_nil.
Qed.

Lemma rebuilt_nil w : rebuilt [] w w.
Proof.
  split; [|split; [|done]]; intros x; rewrite filter_nil; [destruct (blocks_ w !! x)|destruct (blocks_ (ing_of w) !! x)];
    cbn; by rewrite ?with_endorsedBy_nil, ?with_proofs_nil.
Qed.

Lemma rebuilt_app l1 l2 w1 w2 w3 : rebuilt l1 w1 w2 → rebuilt l2 w2 w3 → rebuilt (l1 ++ l2) w1 w3.
Proof.
  intros (Hb1 & Hu1 & ? & ? & ? & ? & ?) (Hb2 & Hu2 & ? & ? & ? & ? & ?). split; [|split; [|split_and!; by etrans]].
  - intros x. rewrite Hb2, Hb1, filter_app. destruct (blocks_ w1 !! x); [|done]. cbn. by rewrite with_endorsedBy_app.
  - intros x. rewrite Hu2, Hu1, filter_app. destruct (blocks_ (ing_of w1) !! x); [|done]. cbn. by rewrite with_proofs_app.
Qed.

Lemma rebuilt_actions ps w w' :
  run_actions (map (λ p, (edKey (endorsedHash (target p)), ingKey (blockOfProof (target p)), p)) ps) w = Ok w' → rebuilt ps w w'.
Proof.
  revert w. induction ps as [|p ps IH]; intros w; cbn [map run_actions foldM].
  { intros [= <-]. apply rebuilt_nil. }
  intros E. apply bind_Ok in E as (w1 & E1 & E). apply rebuilt_action in E1. apply IH in E.
  by apply (rebuilt_app [p] ps w w1 w').
Qed.

Lemma check_action chain r w x a : recover_check edKey ingKey chain r w x = Ok a →
  a = (edKey (endorsedHash (target x.2)), ingKey (blockOfProof (target x.2)), x.2).
Proof.
  intros E%check_fast. unfold fast_action in E.
  destruct (getBlockIndex w _) as [d|] eqn:Ed; [|done]. destruct (getBlockIndex (ing_of w) _) as [b|] eqn:Eb; [|done].
  injection E as <-. unfold getBlockIndex in Ed, Eb.
  destruct (blocks_ w !! _) as [i|]; [|done]. destruct (isDeleted i); [done|]. injection Ed as <-.
  destruct (blocks_ (ing_of w) !! _) as [u|]; [|done]. destruct (isDeleted u); [done|]. by injection Eb as <-.
Qed.

(** The conditions that are checked for every endorsement the block contains. *)
Definition endorsement_fits (chain : Chain K) (r : node) w (x : list Z * endorsement_ptr) : Prop := 
  let e := target x.2 in
  x.1 = id e ∧ containingHash e = getHash (header r) ∧
  getBlockIndex (ing_of w) (ingKey (blockOfProof e)) = Some (ingKey (blockOfProof e)) ∧
  ∃ d c ci, blocks_ w !! edKey (endorsedHash e) = Some d ∧ isDeleted d = false ∧ getHash (header d) = endorsedHash e ∧
    chain_at chain (height d) = Some c ∧ blocks_ w !! c = Some ci ∧ getHash (header ci) = endorsedHash e.

Lemma check_fits chain r w x a : recover_check edKey ingKey chain r w x = Ok a → endorsement_fits chain r w x.
Proof.
  intros E. unfold recover_check in E. case_bool_decide as Eid; [|done]. cbn [negb] in E.
  destruct (getBlockIndex w _) as [d|] eqn:Ed; [|done]. apply bind_Ok in E as (di & Hdi%deref_Ok & E).
  unfold getBlockIndex in Ed. destruct (blocks_ w !! edKey _) as [di'|] eqn:Edi; [|done]. destruct (isDeleted di') eqn:Edel; [done|].
  injection Ed as <-. assert (di' = di) as -> by congruence.
  apply bind_Ok in E as (m & Em & E). destruct m; [|done]. cbn [andb] in E. case_bool_decide as Eh; [|done]. cbn [negb] in E.
  case_bool_decide as Ec; [|done]. cbn [negb] in E.
  destruct (getBlockIndex (ing_of w) _) as [b|] eqn:Eb; [|done].
  destruct (chain_at chain (height di)) as [c|] eqn:Eca; [|done].
  apply bind_Ok in Em as (ci & Hci%deref_Ok & [= Eci]). apply bool_decide_eq_true in Eci.
  split_and!; [done|done| |by exists di, c, ci].
  unfold getBlockIndex in Eb |- *. destruct (blocks_ (ing_of w) !! _) as [u|]; [|done]. by destruct (isDeleted u).
Qed.

Lemma checks_fit chain r w xs acc actions :
  foldM (λ acc x, a ← recover_check edKey ingKey chain r w x; Ok (acc ++ [a])) xs acc = Ok actions →
  actions = acc ++ map (λ p, (edKey (endorsedHash (target p)), ingKey (blockOfProof (target p)), p)) (map snd xs) ∧
  Forall (endorsement_fits chain r w) xs.
Proof.
  revert acc. induction xs as [|x xs IH]; intros acc; cbn [foldM].
  { intros [= ->]. by rewrite app_nil_r. }
  intros E. apply bind_Ok in E as (acc' & E1 & E). apply bind_Ok in E1 as (a & Ea & [= <-]).
  apply IH in E as [-> Hall]. split; [|constructor; [by eapply check_fits|done]].
  rewrite (check_action _ _ _ _ _ Ea), <- app_assoc. done.
Qed.
End rebuilt.

(** ** Properties *)
Section props.
Context {K B A P K2 H2 B2 A2 P2 E2 : Type}.
Context `{Countable K, Countable P, Countable K2, Countable H2, Countable P2}.
Context `{PopAddonLaws A, ProofAddonLaws A2, !BlockHash B (list Z)}.
Notation ing_tree := (BaseBlockTree K2 H2 B2 A2 P2 E2).
Notation world := (BaseBlockTree K (list Z) B A P (Protecting ing_tree)).
Context (edKey : list Z → K) (ingKey : list Z → K2).
Implicit Types w : world.

(** C35: loading a block rebuilds the pointers to the endorsements it contains.
    When [recoverEndorsements] succeeds, every endorsement has the id it is stored
    under, names the block as its containing block, a block of the given chain as
    its endorsed block and a block of the protecting tree as its proof; every block
    gets, after its own, exactly the pointers that name it, and nothing else of the
    two trees changes, not even dirty flags.  The fast variant, without checks,
    gives the same trees. *)
Theorem recoverEndorsements_correct toRecover chain w w' : recoverEndorsements edKey ingKey toRecover chain w = Ok w' →
  recoverEndorsementsFast edKey ingKey toRecover w = Ok w' ∧
  ∃ r, blocks_ w !! toRecover = Some r ∧ Forall (endorsement_fits edKey ingKey chain r w) (containing_of r) ∧
    rebuilt edKey ingKey (map snd (containing_of r)) w w'.
Proof.
  intros E. split; [by eapply fast_agrees|]. unfold recoverEndorsements in E.
  apply bind_Ok in E as (r & Hr%deref_Ok & E). apply bind_Ok in E as (actions & Ea & E).
  apply checks_fit in Ea as [-> Hall]. exists r. split_and!; [done|done|]. by apply rebuilt_actions.
Qed.
End props.

(** Block 1 contains an endorsement of block 0, proved by block 7 of the other tree. *)
Module Example_recovery.
Definition key (h : list Z) : Z := default 9 (head h).
Definition e : Endorsement := mkEndorsement [5] [0] [1] [7].
Definition p : endorsement_ptr := mkPtr 3 e.
#[export] Instance header_hash : BlockHash (list Z) (list Z) := λ h, h.
Notation ing_tree := (BaseBlockTree Z Z unit BtcBlockAddon Z unit).
Notation world := (BaseBlockTree Z (list Z) (list Z) VbkBlockAddon Z (Protecting ing_tree)).
Definition proof_tree : ing_tree :=
  mkTree {[ 7 := mkBlockIndex 0 () 2 false None ∅ false newBtcAddon ]} {[7]} (mkChain 0 [Some 7]) 1 0 false None false true ∅ ∅ [] ().
Definition loaded : VbkBlockAddon := set_pop_state (mkPopState [([5], p)] []) newVbkAddon.
Definition w : world :=
  mkTree {[ 0 := mkBlockIndex 0 [0] 2 false None {[1]} false newVbkAddon; 1 := mkBlockIndex 1 [1] 2 false (Some 0) ∅ false loaded ]}
    {[1]} (mkChain 0 [Some 0; Some 1]) 2 0 false None false true ∅ ∅ [] (mkProtecting proof_tree 100).
End Example_recovery.

Import Example_recovery.
Lemma recoverEndorsements_correct_witness :
  ∃ w' i, recoverEndorsements key key 1 (activeChain_ w) w = Ok w' ∧ recoverEndorsementsFast key key 1 w = Ok w' ∧
    blocks_ w' !! 0 = Some i ∧ endorsedBy (pop_state (addon i)) = [p].
Proof.
  eexists _, _. split; [reflexivity|]. split; [|by split].
  apply (recoverEndorsements_correct key key 1 (activeChain_ w)). reflexivity.
Defined.
