(* ===== verification/AltUtil.v ===== *)
(** * Publication data of altchain blocks ([alt-util.cpp],
    [keystone_container.cpp], [context_info_container.cpp], the command
    [CheckPublicationData] of [commands/check_pubdata.cpp])

    The context of an endorsed block is its height and its two previous
    keystones.  [GeneratePublicationData] writes it into a publication, and
    [CheckPublicationData] compares it with the block tree. *)
From Stdlib Require Import String.
From S2P Require Import Prelude Keystone BlockIndex Chain TreeAlgo PayloadsIndex BaseTree Serde Address Blocks Payloads Endorsements PopState BlockAddons StoredAddons Merkle MerklePaths AltParams StatelessValidation.

(** The nodes of an altchain: the hash of a block is its key. *)
#[export] Instance alt_block_hash : BlockHash Alt.AltBlock (list Z) := Alt.hash.
#[export] Instance alt_block_header : BlockHeader Alt.AltBlock (list Z) (list Z) := {|
  getPreviousBlock := Alt.previousBlock; makePrevHash h := h;
  hashIsPrevious b := bool_decide (Alt.hash b = Alt.previousBlock b);
  sameBlock a b := bool_decide (Alt.hash a = Alt.hash b);
  sameBlock_refl b := bool_decide_eq_true_2 (Alt.hash b = Alt.hash b) eq_refl |}.

#[export] Instance ContextInfo_eq_dec : EqDecision ContextInfoContainer.
Proof. assert (EqDecision KeystoneContainer) by solve_decision. solve_decision. Defined.

Section context.
Context {A : Type}.
Notation store := (gmap (list Z) (BlockIndex (list Z) Alt.AltBlock A)).
Implicit Types (m : store) (prev : option (list Z)).

(** ** [createFromPrevious] *)
Definition hash_of m (k : list Z) : result (list Z) := i ← deref m k; Ok (PayloadsIndex.getHash (BlockIndex.header i)).

Definition KeystoneContainer_createFromPrevious m prev (keystoneInterval : Z) : result KeystoneContainer :=
  height ← match prev with None => Ok 0 | Some k => i ← deref m k; cki32 (height i + 1) end;
  first ← getPreviousKeystoneHeight height keystoneInterval 0;
  second ← getPreviousKeystoneHeight height keystoneInterval 1;
  match prev with
  | None => Ok (mkKeystoneContainer [] [])
  | Some k =>
    firstPreviousKeystone ← getAncestor m k first;
    match firstPreviousKeystone with
    | None => Ok (mkKeystoneContainer [] [])
    | Some f =>
      firstHash ← hash_of m f;
      secondPreviousKeystone ← getAncestor m f second;
      match secondPreviousKeystone with
      | None => Ok (mkKeystoneContainer firstHash [])
      | Some s => secondHash ← hash_of m s; Ok (mkKeystoneContainer firstHash secondHash)
      end
    end
  end.

Definition ContextInfo_createFromPrevious m prev (params : AltChainParams) : result ContextInfoContainer :=
  height ← match prev with
           | None => Ok (Alt.height (bootstrapBlock params))
           | Some k => i ← deref m k; cki32 (height i + 1)
           end;
  keystones ← KeystoneContainer_createFromPrevious m prev (mKeystoneInterval params);
  Ok (mkContextInfo height keystones).

Definition Authenticated_createFromPrevious (stateRoot : list Z) m prev (p : AltChainParams)
    : result AuthenticatedContextInfo :=
  c ← ContextInfo_createFromPrevious m prev p; Ok (mkAuthenticated c stateRoot).

Section hashed.
Context `{Hashes} `{ProgPow}.

Definition Authenticated_createFromRoots (txRoot popDataRoot : list Z) m prev (p : AltChainParams)
    : result AuthenticatedContextInfo :=
  Authenticated_createFromPrevious (sha256twice_pair txRoot popDataRoot) m prev p.

(** ** [GeneratePublicationData] *)
Definition GeneratePublicationData_ids (endorsedBlockHeader : list Z) m (endorsedBlock : list Z)
    (txMerkleRoot : list Z) (version : Z) (atv_ids vtb_ids vbk_ids : list (list Z)) (payoutInfo : list Z)
    (params : AltChainParams) : result PublicationData :=
  popDataRoot ← getMerkleRoot_ids version atv_ids vtb_ids vbk_ids;
  i ← deref m endorsedBlock;
  ctx ← Authenticated_createFromPrevious (sha256twice_pair txMerkleRoot popDataRoot) m (pprev i) params;
  contextInfo ← SerializeToVbkEncoding ctx;
  Ok (mkPublicationData (getIdentifier params) endorsedBlockHeader contextInfo payoutInfo).

Definition GeneratePublicationData_block (endorsedBlockHeader : list Z) m (endorsedBlock : list Z)
    (txMerkleRoot : list Z) (popData : PopData) (payoutInfo : list Z) (params : AltChainParams)
    : result PublicationData :=
  atv_ids ← mapM ATV_getId (atvs popData);
  GeneratePublicationData_ids endorsedBlockHeader m endorsedBlock txMerkleRoot (pop_version popData)
    atv_ids (map VTB_getId (vtbs popData)) (map VbkBlock_getId (context popData)) payoutInfo params.

(** ** [CalculateTopLevelMerkleRoot] *)
Definition CalculateTopLevelMerkleRoot (txMerkleRoot popDataMerkleRoot : list Z) (ctx : ContextInfoContainer)
    : result (list Z) :=
  getTopLevelMerkleRoot (mkAuthenticated ctx (sha256twice_pair txMerkleRoot popDataMerkleRoot)).

Definition CalculateTopLevelMerkleRoot_block (txMerkleRoot : list Z) (popData : PopData) m prevBlock
    (params : AltChainParams) : result (list Z) :=
  ctx ← ContextInfo_createFromPrevious m prevBlock params;
  popDataMerkleRoot ← PopData_getMerkleRoot popData;
  CalculateTopLevelMerkleRoot txMerkleRoot popDataMerkleRoot ctx.
End hashed.
End context.

(** ** On the block tree *)
Section on_tree.
Context {A Ext : Type} `{BlockAddon A} (params : AltChainParams).
Notation tree := (BaseBlockTree (list Z) (list Z) Alt.AltBlock A (list Z) Ext).
Implicit Types t : tree.

Definition GeneratePublicationData `{Hashes} `{ProgPow} (endorsedBlockHeader txMerkleRoot : list Z) (popData : PopData)
    (payoutInfo : list Z) t : result (option PublicationData) :=
  header_hash ← alt_getHash params endorsedBlockHeader;
  match getBlockIndex t header_hash with
  | None => Ok None
  | Some index =>
    out ← GeneratePublicationData_block endorsedBlockHeader (blocks_ t) index txMerkleRoot popData payoutInfo params;
    Ok (Some out)
  end.

(** [CheckPublicationData::Execute]: the tree is not changed. *)
Definition CheckPublicationData_Execute (pub : PublicationData) (endorsed_hash : list Z) t : result unit :=
  c ← DeserializeFromVbkEncoding (A := AuthenticatedContextInfo) (contextInfo pub) ?! "bad-sf-contextinfo";
  match getBlockIndex t endorsed_hash with
  | None => invalid "bad-sf-endorsed"
  | Some endorsed =>
    i ← deref (blocks_ t) endorsed;
    expected ← ContextInfo_createFromPrevious (blocks_ t) (pprev i) params;
    if bool_decide (ctx c = expected) then Ok () else invalid "bad-sf-context"
  end.

End on_tree.

(** [getMaxAtvsInVbkBlock]: the limit is coded in the last bytes of the
    identifier. *)
Definition getMaxAtvsInVbkBlock (altchainId : Z) : Z :=
  let last := Z.land altchainId 0xff in
  if negb (last =? 0xff) then INT32_MAX
  else
    let amountByte := Z.land (Z.shiftr altchainId 8) 0xff in
    let base := Z.shiftr (Z.land amountByte 0xff) 1 + 1 in
    let exponent := Z.land amountByte 1 + 1 in
    if exponent =? 1 then base else base * base.

(** ** Properties *)
Section spec.
Context {A : Type}.
Notation store := (gmap (list Z) (BlockIndex (list Z) Alt.AltBlock A)).
Implicit Types (m : store) (k : list Z).

(** The [n]-th keystone before a block of height [h], counted from 0; the
    predecessor of the block does not count. *)
Definition previous_keystone (h interval n : Z) : Z := Z.max 0 (interval * ((h - 2) / interval - n)).

(** The hash of the ancestor of [k] at a height, if there is one. *)
Definition ancestor_hash m k (h : Z) : list Z :=
  match m !! k with
  | Some i =>
    if height i <? h then []
    else match back m (Z.to_nat (height i - h)) k ≫= (m !!.) with Some j => Alt.hash (BlockIndex.header j) | None => [] end
  | None => []
  end.

(** The context of a block that follows [prev]. *)
Definition context_spec m (prev : option (list Z)) (params : AltChainParams) : ContextInfoContainer :=
  match prev ≫= (λ k, i ← m !! k; Some (k, height i + 1)) with
  | Some (k, h) =>
    let keystone n := ancestor_hash m k (previous_keystone h (mKeystoneInterval params) n) in
    mkContextInfo h (mkKeystoneContainer (keystone 0) (keystone 1))
  | None => mkContextInfo (Alt.height (bootstrapBlock params)) (mkKeystoneContainer [] [])
  end.

(** Heights fit in [int32_t], hashes can be serialized. *)
Record alt_store_ok m : Prop := {
  aso_wf : wf_store m;
  aso_node : ∀ k i, m !! k = Some i → height_ok (height i) ∧ alt_hash_ok (Alt.hash (BlockIndex.header i))
}.

Definition context_params_ok (p : AltChainParams) : Prop :=
  0 < mKeystoneInterval p < INT32_MAX ∧ in_range int32_t (Alt.height (bootstrapBlock p)).

Lemma getAncestor_hash m k i h : alt_store_ok m → m !! k = Some i → 0 <= h →
  (∃ f j, getAncestor m k h = Ok (Some f) ∧ m !! f = Some j ∧ height j = h ∧ hash_of m f = Ok (Alt.hash (BlockIndex.header j)) ∧
    ancestor_hash m k h = Alt.hash (BlockIndex.header j) ∧ ∀ h', 0 <= h' <= h → ancestor_hash m f h' = ancestor_hash m k h') ∨
  (getAncestor m k h = Ok None ∧ ancestor_hash m k h = [] ∧ ∀ h', 0 <= h' <= h → height i < h ∨ ancestor_hash m k h' = []).
Proof.
  intros [W _] Hk Hh. rewrite (getAncestor_eq m k i) by done. unfold ancestor_hash at 1 4. rewrite Hk.
  destruct (Z.ltb_spec (height i) h) as [Hlt|Hge].
  { right. split; [done|]. split; [done|]. intros. by left. }
  destruct (back m (Z.to_nat (height i - h)) k) as [f|] eqn:Eb; cbn [mbind option_bind].
  - left. destruct (back_height m _ k i f W Hk Eb) as (j & Hj & Hhj). exists f, j. rewrite Hj.
    split; [done|]. split; [done|]. split; [lia|]. split; [unfold hash_of; by rewrite (deref_eq _ _ _ Hj)|]. split; [done|].
    intros h' Hh'. unfold ancestor_hash. rewrite Hj, Hk. rewrite !(proj2 (Z.ltb_ge _ _)) by lia.
    replace (Z.to_nat (height i - h')) with (Z.to_nat (height i - h) + Z.to_nat (height j - h'))%nat by lia.
    by rewrite (back_add _ _ _ _ _ Eb).
  - right. split; [done|]. split; [done|]. intros h' Hh'. right. unfold ancestor_hash. rewrite Hk, (proj2 (Z.ltb_ge _ _)) by lia.
    destruct (back m (Z.to_nat (height i - h')) k) as [y|] eqn:E'; [|done]. exfalso.
    replace (Z.to_nat (height i - h')) with (Z.to_nat (height i - h) + Z.to_nat (h - h'))%nat in E' by lia.
    destruct (back_prefix _ _ _ _ _ E') as [x Ex]. congruence.
Qed.

Lemma previous_keystone_le h interval : 0 < interval → 2 <= h →
  0 <= previous_keystone h interval 1 <= previous_keystone h interval 0 ∧ previous_keystone h interval 0 <= h - 2.
Proof.
  intros Hi Hh. unfold previous_keystone. pose proof (Z.div_mod (h - 2) interval ltac:(lia)).
  pose proof (Z.mod_pos_bound (h - 2) interval ltac:(lia)). pose proof (Z.div_pos (h - 2) interval). nia.
Qed.

Lemma previous_keystone_1 interval n : 0 < interval → 0 <= n → previous_keystone 1 interval n = 0.
Proof.
  intros Hi Hn. unfold previous_keystone. assert ((1 - 2) / interval < 0) by (apply Z.div_lt_upper_bound; lia). nia.
Qed.

Lemma keystones_eq m k i params : alt_store_ok m → context_params_ok params → m !! k = Some i → height i < INT32_MAX →
  KeystoneContainer_createFromPrevious m (Some k) (mKeystoneInterval params) =
  Ok (keystones (context_spec m (Some k) params)).
Proof.
  intros Hm [Hp _] Hk Hh. set (ki := mKeystoneInterval params) in *. pose proof (aso_node m Hm k i Hk) as [Hi _].
  unfold KeystoneContainer_createFromPrevious, context_spec. rewrite (deref_eq _ _ _ Hk). fold ki.
  cbn [mbind result_bind option_bind]. rewrite Hk. cbn [mbind option_bind keystones].
  unfold height_ok, INT32_MAX in *. assert (cki32 (height i + 1) = Ok (height i + 1)) as -> by (apply ckS_ok; lia).
  cbn [mbind result_bind]. rewrite !getPreviousKeystoneHeight_eq by hlia. cbn [mbind result_bind].
  fold (previous_keystone (height i + 1) ki 0) (previous_keystone (height i + 1) ki 1).
  assert (0 <= previous_keystone (height i + 1) ki 1 <= previous_keystone (height i + 1) ki 0 ∧
    previous_keystone (height i + 1) ki 0 <= height i) as [Hks Hle].
  { destruct (Z.eq_dec (height i) 0) as [->|]; [rewrite !previous_keystone_1 by lia; lia|].
    pose proof (previous_keystone_le (height i + 1) ki). lia. }
  destruct (getAncestor_hash m k i (previous_keystone (height i + 1) ki 0)) as
    [(f & j & -> & Hf & Hhj & Ef & Eh & Hrest)|(-> & Eh & Hrest)]; [done..|lia| |]; cbn [mbind result_bind].
  - rewrite Ef. cbn [mbind result_bind]. rewrite Eh, <- (Hrest (previous_keystone (height i + 1) ki 1)) by lia.
    destruct (getAncestor_hash m f j (previous_keystone (height i + 1) ki 1)) as
      [(s & js & -> & _ & _ & Es & Esh & _)|(-> & Esh & _)]; [done..|lia| |]; cbn [mbind result_bind].
    + by rewrite Es, Esh.
    + by rewrite Esh.
  - rewrite Eh. destruct (Hrest (previous_keystone (height i + 1) ki 1)) as [Hlow|Eh1]; [lia|lia|by rewrite Eh1].
Qed.

Lemma context_eq m prev params : alt_store_ok m → context_params_ok params →
  (∀ k, prev = Some k → ∃ i, m !! k = Some i ∧ height i < INT32_MAX) →
  ContextInfo_createFromPrevious m prev params = Ok (context_spec m prev params).
Proof.
  intros Hm Hp Hprev. unfold ContextInfo_createFromPrevious. destruct prev as [k|].
  - destruct (Hprev k eq_refl) as (i & Hk & Hh). rewrite (deref_eq _ _ _ Hk). cbn [mbind result_bind].
    pose proof (aso_node m Hm k i Hk) as [Hi _]. unfold height_ok, INT32_MAX in *.
    assert (cki32 (height i + 1) = Ok (height i + 1)) as -> by (apply ckS_ok; lia). cbn [mbind result_bind].
    rewrite (keystones_eq m k i) by (first [done|hlia]). cbn [mbind result_bind]. unfold context_spec.
    cbn [mbind option_bind]. by rewrite Hk.
  - destruct Hp as [Hp _]. unfold KeystoneContainer_createFromPrevious. cbn [mbind result_bind].
    by rewrite !getPreviousKeystoneHeight_eq by (unfold height_ok, interval_ok, INT32_MAX in *; lia).
Qed.

Lemma ancestor_hash_ok m k h : alt_store_ok m → alt_hash_ok (ancestor_hash m k h).
Proof.
  intros Hm. assert (alt_hash_ok []) by (split; [constructor|simpl; lia]). unfold ancestor_hash.
  destruct (m !! k) as [i|]; [|done]. destruct (height i <? h); [done|].
  destruct (back m _ k) as [f|]; cbn [mbind option_bind]; [|done].
  destruct (m !! f) as [j|] eqn:Ej; [|done]. by apply (aso_node m Hm f j).
Qed.

Lemma context_valid m prev params : alt_store_ok m → context_params_ok params →
  (∀ k, prev = Some k → ∃ i, m !! k = Some i ∧ height i < INT32_MAX) → ContextInfo_valid (context_spec m prev params).
Proof.
  intros Hm [_ Hb] Hprev. assert (alt_hash_ok []) by (split; [constructor|simpl; lia]). unfold context_spec. destruct prev as [k|].
  - destruct (Hprev k eq_refl) as (i & Hk & Hh). cbn [mbind option_bind]. rewrite Hk. cbn [mbind option_bind].
    pose proof (aso_node m Hm k i Hk) as [Hi _]. split; [|by split; apply ancestor_hash_ok].
    cbn [ctx_height]. unfold height_ok, INT32_MAX in *. change (- 2 ^ 31 <= height i + 1 < 2 ^ 31). lia.
  - by split.
Qed.
End spec.

Section generate.
Context `{Hashes} `{ProgPow} `{CtParams} {A Ext : Type} `{BlockAddon A} (params : AltChainParams).
Notation tree := (BaseBlockTree (list Z) (list Z) Alt.AltBlock A (list Z) Ext).
Implicit Types t : tree.

Lemma twice_pair_ok a b : blob_ok 32 (sha256twice_pair a b).
Proof. split; [apply sha256_bytes|apply sha256_length]. Qed.

Lemma popdata_root pd ids : mapM ATV_getId (atvs pd) = Ok ids →
  ∃ root, getMerkleRoot_ids (pop_version pd) ids (map VTB_getId (vtbs pd)) (map VbkBlock_getId (context pd)) = Ok root ∧
    PopData_getMerkleRoot pd = Ok root.
Proof.
  intros Hids. destruct (getMerkleRoot_ids_eq (pop_version pd) ids (map VTB_getId (vtbs pd)) (map VbkBlock_getId (context pd)))
    as (ra & rt & rb & _ & _ & _ & E).
  eexists. split; [exact E|]. unfold PopData_getMerkleRoot. rewrite Hids. cbn [mbind result_bind]. exact E.
Qed.

(** C40: the publication that an altchain generates for a block it knows passes
    the check of publications against the block tree, and its stateless check
    comes down to the check of the endorsed header with the root that
    [CalculateTopLevelMerkleRoot] gives for the block.  The context in it is the
    height of the block and the hashes of its two previous keystones. *)
Theorem GeneratePublicationData_accepted t header txMerkleRoot pd ids payoutInfo e i :
  alt_store_ok (blocks_ t) → context_params_ok params → mapM ATV_getId (atvs pd) = Ok ids →
  alt_getHash params header = Ok e → blocks_ t !! e = Some i → isDeleted i = false →
  ∃ pub root, GeneratePublicationData params header txMerkleRoot pd payoutInfo t = Ok (Some pub) ∧
    CalculateTopLevelMerkleRoot_block txMerkleRoot pd (blocks_ t) (pprev i) params = Ok root ∧
    CheckPublicationData_Execute params pub e t = Ok () ∧
    checkPublicationData pub params = (checkBlockHeader params header root ?! "bad-endorsed-header") ∧
    ∃ c, DeserializeFromVbkEncoding (contextInfo pub) = Ok c ∧ ctx c = context_spec (blocks_ t) (pprev i) params.
Proof.
  intros Hm Hp Hids Hhash Hi Hd. set (c := context_spec (blocks_ t) (pprev i) params).
  assert (∀ k, pprev i = Some k → ∃ j, blocks_ t !! k = Some j ∧ height j < INT32_MAX) as Hprev.
  { intros k Hk. destruct (wf_prev _ (aso_wf _ Hm) e i k Hi Hk) as (j & Hj & Hh & _). exists j. split; [done|].
    pose proof (aso_node _ Hm e i Hi) as [[_ ?] _]. lia. }
  pose proof (context_eq (blocks_ t) (pprev i) params Hm Hp Hprev) as Ec. fold c in Ec.
  destruct (popdata_root pd ids Hids) as (pr & Epr & Epr'). set (r := sha256twice_pair txMerkleRoot pr).
  assert (valid (mkAuthenticated c r)) as Hv by (split; [by apply context_valid|apply twice_pair_ok]).
  assert (getBlockIndex t e = Some e) as Eg by (unfold getBlockIndex; by rewrite Hi, Hd).
  assert (∃ w, ContextInfo_getHash c = Ok w) as [w Ew].
  { unfold ContextInfo_getHash. change (written (toVbkEncoding c)) with (SerializeToVbkEncoding c).
    rewrite serialize_valid by apply Hv. by eexists. }
  exists (mkPublicationData (getIdentifier params) header (encoding (mkAuthenticated c r)) payoutInfo), (sha256twice_pair r w).
  split_and!.
  - unfold GeneratePublicationData. rewrite Hhash. cbn [mbind result_bind]. rewrite Eg. unfold GeneratePublicationData_block.
    rewrite Hids. cbn [mbind result_bind]. unfold GeneratePublicationData_ids. rewrite Epr. cbn [mbind result_bind].
    rewrite (deref_eq _ _ _ Hi). cbn [mbind result_bind]. unfold Authenticated_createFromPrevious. rewrite Ec.
    cbn [mbind result_bind]. fold r. by rewrite serialize_valid by exact Hv.
  - unfold CalculateTopLevelMerkleRoot_block, CalculateTopLevelMerkleRoot, getTopLevelMerkleRoot. rewrite Ec.
    cbn [mbind result_bind]. rewrite Epr'. cbn [mbind result_bind ctx stateRoot]. by rewrite Ew.
  - unfold CheckPublicationData_Execute. cbn [contextInfo]. rewrite (roundtrip (mkAuthenticated c r)) by exact Hv.
    cbn [or_invalid mbind result_bind]. rewrite Eg, (deref_eq _ _ _ Hi). cbn [mbind result_bind]. rewrite Ec.
    cbn [mbind result_bind ctx]. by rewrite bool_decide_true.
  - unfold checkPublicationData. cbn [identifier contextInfo Payloads.header]. rewrite Z.eqb_refl. cbn [negb].
    pose proof (codec_reads _ Hv (newStream (encoding (mkAuthenticated c r))) []) as Er.
    cbn [fromVbkEncoding Authenticated_codec] in Er. rewrite Er by (by rewrite app_nil_r).
    cbn [or_invalid mbind result_bind fst]. unfold getTopLevelMerkleRoot. cbn [ctx stateRoot]. by rewrite Ew.
  - exists (mkAuthenticated c r). split; [|done]. cbn [contextInfo]. by apply roundtrip.
Qed.
End generate.

(** A chain of eight blocks of the regression test: the block at height 7
    follows the keystones at heights 5 and 0. *)
Module Example_altutil.
#[local] Existing Instance toy_hashes.
#[local] Existing Instance VbkContext.Example_vbk.toy_progpow.
#[local] Existing Instance Example_stateless.ct.
Definition hash (n : Z) : list Z := replicate 32 (n + 1).
Definition alt_block (n : Z) : Alt.AltBlock :=
  Alt.mkAltBlock (hash n) (if n =? 0 then replicate 32 0 else hash (n - 1)) (100 + n) n.
Definition node (n : Z) : BlockIndex (list Z) Alt.AltBlock AltBlockAddon :=
  mkBlockIndex n (alt_block n) 2 false (if n =? 0 then None else Some (hash (n - 1)))
    (if n =? 7 then ∅ else {[hash (n + 1)]}) false newAltAddon.
Definition heights : list Z := [0; 1; 2; 3; 4; 5; 6; 7].
Definition t : BaseBlockTree (list Z) (list Z) Alt.AltBlock AltBlockAddon (list Z) unit :=
  with_blocks (λ _, list_to_map (map (λ n, (hash n, node n)) heights)) (emptyTree ()).
Definition header : list Z := match written (Alt.toRaw (alt_block 7)) with Ok w => w | _ => [] end.

Lemma alt_t_lookup k i : blocks_ t !! k = Some i → ∃ n, n ∈ heights ∧ k = hash n ∧ i = node n.
Proof.
  unfold t. cbn [blocks_ with_blocks]. intros Hk%elem_of_list_to_map_2.
  apply list_elem_of_fmap in Hk as (n & [= -> ->] & Hn). by exists n.
Qed.

Lemma t_node n : n ∈ heights → blocks_ t !! hash n = Some (node n).
Proof.
  intros Hn. unfold t. cbn [blocks_ with_blocks]. apply elem_of_list_to_map_1.
  - apply (bool_decide_unpack _). by vm_compute.
  - apply list_elem_of_fmap. by exists n.
Qed.

Lemma height_cases n (Q : Z → Prop) : n ∈ heights → Forall Q heights → Q n.
Proof. intros Hn HQ. by apply (proj1 (Forall_forall Q heights) HQ). Qed.

Lemma t_ok : alt_store_ok (blocks_ t).
Proof.
  split; [split|].
  - intros k i (n & Hn & -> & ->)%alt_t_lookup. by apply (height_cases n (λ n, 0 <= height (node n))); [|repeat constructor].
  - intros k i p (n & Hn & -> & ->)%alt_t_lookup. cbn [pprev node]. destruct (Z.eqb_spec n 0) as [|Hn0]; [done|]. intros [= <-].
    exists (node (n - 1)). split.
    + apply t_node. revert Hn0. by apply (height_cases n (λ n, n ≠ 0 → n - 1 ∈ heights)); [|repeat constructor; try done; intros _; apply (bool_decide_unpack _); by vm_compute].
    + split; [cbn [height node]; lia|]. cbn [pnext node]. destruct (Z.eqb_spec (n - 1) 7) as [E|].
      * exfalso. revert E. by apply (height_cases n (λ n, n - 1 = 7 → False)); [|repeat constructor].
      * replace (n - 1 + 1) with n by lia. set_solver.
  - intros k i c (n & Hn & -> & ->)%alt_t_lookup. cbn [pnext node]. destruct (Z.eqb_spec n 7) as [|Hn7]; [set_solver|].
    intros ->%elem_of_singleton. exists (node (n + 1)). split.
    + apply t_node. revert Hn7. by apply (height_cases n (λ n, n ≠ 7 → n + 1 ∈ heights)); [|repeat constructor; try done; intros _; apply (bool_decide_unpack _); by vm_compute].
    + cbn [pprev node]. destruct (Z.eqb_spec (n + 1) 0) as [E|]; [|by replace (n + 1 - 1) with n by lia].
      exfalso. revert E. by apply (height_cases n (λ n, n + 1 = 0 → False)); [|repeat constructor].
  - intros k i (n & Hn & -> & ->)%alt_t_lookup.
    apply (height_cases n (λ n, height_ok (height (node n)) ∧ alt_hash_ok (Alt.hash (BlockIndex.header (node n))))); [done|].
    repeat constructor; try done; apply (bool_decide_unpack _); by vm_compute.
Qed.

Lemma GeneratePublicationData_accepted_witness :
  context_spec (blocks_ t) (Some (hash 6)) (AltChainParamsRegTest 3) =
    mkContextInfo 7 (mkKeystoneContainer (hash 5) (hash 0)) ∧
  ∃ pub root, GeneratePublicationData (AltChainParamsRegTest 3) header (replicate 32 9) (mkPopData 1 [] [] []) [4] t = Ok (Some pub) ∧
    CalculateTopLevelMerkleRoot_block (replicate 32 9) (mkPopData 1 [] [] []) (blocks_ t) (pprev (node 7)) (AltChainParamsRegTest 3) = Ok root ∧
    CheckPublicationData_Execute (AltChainParamsRegTest 3) pub (hash 7) t = Ok () ∧
    checkPublicationData pub (AltChainParamsRegTest 3) =
      (checkBlockHeader (AltChainParamsRegTest 3) header root ?! "bad-endorsed-header") ∧
    ∃ c, DeserializeFromVbkEncoding (contextInfo pub) = Ok c ∧
      ctx c = context_spec (blocks_ t) (pprev (node 7)) (AltChainParamsRegTest 3).
Proof.
  split; [vm_compute; reflexivity|].
  apply (GeneratePublicationData_accepted (AltChainParamsRegTest 3) t header (replicate 32 9) (mkPopData 1 [] [] []) [] [4] (hash 7) (node 7)).
  - apply t_ok.
  - split; [vm_compute; split; reflexivity|vm_compute; split; [discriminate|reflexivity]].
  - reflexivity.
  - vm_compute. reflexivity.
  - apply t_node, (bool_decide_unpack _). by vm_compute.
  - vm_compute. reflexivity.
Defined.
End Example_altutil.
