(* ===== verification/EndorsementInv.v ===== *)
(** * Endorsements in the trees stay coherent, and [AddEndorsement] is lawful

    [coherent] is the invariant that the raw pointers of the source rely on: a
    pointer is in [endorsedBy] of a block exactly when some block contains the
    endorsement and it endorses that block, likewise for the blocks of proof, and
    no two contained endorsements share an address.  Worlds are compared up to
    addresses, the order of pointers, [dirty] flags, the status of blocks and what
    is deleted from the protecting tree; [AddEndorsement_lawful] shows that the
    command obeys the contract of [Commands] in coherent worlds. *)
From Stdlib Require Import String Sorted.
From S2P Require Import Prelude BlockIndex Chain TreeAlgo PayloadsIndex BaseTree TreeInv BlockTree BlockTreeInv Commands PopStateMachine PopStateMachineInv Serde Endorsements PopState BlockAddons AddEndorsement.

(** ** Pointer lists *)
Implicit Types (l : list endorsement_ptr) (p q : endorsement_ptr) (e : Endorsement).
Definition targets l : list Endorsement := map target l.

Definition pop_equiv (s s' : PopState) : Prop :=
  contents (containingEndorsements s) = contents (containingEndorsements s') ∧
  targets (endorsedBy s) ≡ₚ targets (endorsedBy s').

#[export] Instance pop_equiv_equivalence : Equivalence pop_equiv.
Proof.
  unfold pop_equiv. split.
  - done.
  - intros s s' [? ?]. by split.
  - intros s1 s2 s3 [? ?] [? ?]. split; by etrans.
Qed.

(** The rest of the addons of the two protecting trees. *)
Definition btc_rest (a a' : BtcBlockAddon) : Prop := btc_chainWork a = btc_chainWork a' ∧ refs a ≡ₚ refs a'.
#[export] Instance btc_addon_rest : AddonRest BtcBlockAddon.
Proof.
  refine {| rest_equiv := btc_rest |}; [|done]. unfold btc_rest. split.
  - done.
  - intros a a' [? ?]. by split.
  - intros a1 a2 a3 [? ?] [? ?]. split; by etrans.
Defined.

Definition vbk_rest (a a' : VbkBlockAddon) : Prop :=
  vbk_chainWork a = vbk_chainWork a' ∧ vbk_refCount a = vbk_refCount a' ∧ vbk_vtbids a = vbk_vtbids a' ∧
  pop_equiv (vbk_pop a) (vbk_pop a').
#[export] Instance vbk_addon_rest : AddonRest VbkBlockAddon.
Proof.
  refine {| rest_equiv := vbk_rest |}; [|done]. unfold vbk_rest. split.
  - done.
  - intros a a' (? & ? & ? & ?). by split_and!.
  - intros a1 a2 a3 (? & ? & ? & ?) (? & ? & ? & ?). split_and!; by etrans.
Defined.

Lemma targets_app l l' : targets (l ++ l') = targets l ++ targets l'.
Proof. apply map_app. Qed.

Lemma erase_ptr l q : NoDup l → (∀ p, p ∈ l → address p = address q → p = q) → q ∈ l →
  ∃ l', erase_last_item_if (λ p, ptr_eqb p q) l = (l', true) ∧ l ≡ₚ q :: l' ∧ NoDup l'.
Proof.
  intros Hnd Hu (l1 & l2 & ->)%list_elem_of_split. exists (l1 ++ l2).
  assert (l1 ++ q :: l2 ≡ₚ q :: l1 ++ l2) as E by (symmetry; apply Permutation_middle).
  split; [|split; [done|rewrite E in Hnd; by apply NoDup_cons in Hnd as [_ ?]]].
  apply erase_last_found; [apply Z.eqb_refl|]. apply Forall_forall. intros p Hp. apply Z.eqb_neq. intros Ha.
  rewrite E in Hnd. apply NoDup_cons in Hnd as [Hn _]. apply Hn.
  rewrite <- (Hu p) by (done || (rewrite E; set_solver)). set_solver.
Qed.

Section inv.
Context {K H B A P K2 H2 B2 A2 P2 E2 : Type}.
Context `{Countable K, Countable H, Countable P, Countable K2, Countable H2, Countable P2}.
Context `{BlockAddon A, PopAddonLaws A, ProofAddonLaws A2, !AddonRest A2}.
Notation ing_tree := (BaseBlockTree K2 H2 B2 A2 P2 E2).
Notation ing_node := (BlockIndex K2 B2 A2).
Notation world := (BaseBlockTree K H B A P (Protecting ing_tree)).
Notation node := (BlockIndex K B A).
Context (edKey : list Z → K) (ingKey : list Z → K2) (name : string) (settlementInterval : Z).
Implicit Types (w : world) (t : ing_tree) (i j : node) (u v : ing_node).

Definition pop_of i : PopState := pop_state (addon i).
Definition bop_of u : list endorsement_ptr := blockOfProofEndorsements (addon u).

(** ** Equivalent worlds *)
Definition node_equiv i j : Prop :=
  same_links i j ∧ header i = header j ∧ isDeleted i = isDeleted j ∧ pop_equiv (pop_of i) (pop_of j) ∧
  set_pop_state (mkPopState [] []) (addon i) = set_pop_state (mkPopState [] []) (addon j).

Definition live t (k : K2) : option ing_node :=
  match blocks_ t !! k with Some u => if isDeleted u then None else Some u | None => None end.

Definition ing_node_equiv u v : Prop :=
  height u = height v ∧ header u = header v ∧ pprev u = pprev v ∧
  targets (bop_of u) ≡ₚ targets (bop_of v) ∧ rest_equiv (addon u) (addon v).

Definition ing_equiv t t' : Prop := ∀ k, option_Forall2 ing_node_equiv (live t k) (live t' k).

#[export] Instance world_equiv : Equiv world := λ w w',
  store_rel node_equiv (blocks_ w) (blocks_ w') ∧ ing_equiv (ing_of w) (ing_of w').

#[export] Instance node_equiv_equivalence : Equivalence node_equiv.
Proof.
  unfold node_equiv. split.
  - intros i. by split_and!.
  - intros i j (? & ? & ? & ? & ?). split_and!; by symmetry.
  - intros i j k (? & ? & ? & ? & ?) (? & ? & ? & ? & ?). split_and!; by etrans.
Qed.
#[export] Instance ing_node_equiv_equivalence : Equivalence ing_node_equiv.
Proof.
  unfold ing_node_equiv. split.
  - intros u. by split_and!.
  - intros u v (? & ? & ? & ? & ?). split_and!; by symmetry.
  - intros u v k (? & ? & ? & ? & ?) (? & ? & ? & ? & ?). split_and!; by etrans.
Qed.
#[export] Instance ing_equiv_equivalence : Equivalence ing_equiv.
Proof.
  split.
  - intros t k. reflexivity.
  - intros t t' E k. by symmetry.
  - intros t1 t2 t3 E E' k. transitivity (live t2 k); [apply E|apply E'].
Qed.
#[export] Instance world_equivalence : Equivalence (≡@{world}).
Proof.
  unfold equiv, world_equiv. split.
  - intros w. by split.
  - intros w w' [? ?]. split; by symmetry.
  - intros w1 w2 w3 [? ?] [? ?]. split; by etrans.
Qed.

Lemma getBlockIndex_live t k : getBlockIndex t k = (λ _, k) <$> live t k.
Proof. unfold getBlockIndex, live. destruct (blocks_ t !! k) as [u|]; [|done]. by destruct (isDeleted u). Qed.

Lemma ing_equiv_block t t' k : ing_equiv t t' → getBlockIndex t k = getBlockIndex t' k.
Proof. intros E. rewrite !getBlockIndex_live. by destruct (E k). Qed.

Lemma equiv_links w w' : w ≡ w' → store_rel same_links (blocks_ w) (blocks_ w').
Proof. intros [E _]. eapply store_rel_mono; [|exact E]. by intros i j (? & _). Qed.

Lemma equiv_block w w' k : w ≡ w' → getBlockIndex w k = getBlockIndex w' k.
Proof.
  intros [E _]. unfold getBlockIndex. destruct (E k) as [i j (_ & _ & Ed & _)|]; [|done]. by rewrite Ed.
Qed.

Lemma getBlockIndex_lookup w k x : getBlockIndex w k = Some x → x = k ∧ ∃ i, blocks_ w !! k = Some i ∧ isDeleted i = false.
Proof.
  unfold getBlockIndex. destruct (blocks_ w !! k) as [i|]; [|done]. destruct (isDeleted i) eqn:E; [done|].
  intros [= <-]. eauto.
Qed.

(** ** The guards *)
Definition heights_ok (m : gmap K node) : Prop := wf_store m ∧ ∀ k i, m !! k = Some i → height i <= INT32_MAX.

Lemma getAncestor_links m m' k i h : wf_store m → wf_store m' → store_rel same_links m m' → m !! k = Some i → 0 <= h →
  getAncestor m k h = getAncestor m' k h.
Proof.
  intros W W' E Hk Hh. destruct (store_rel_lookup _ _ _ _ _ E Hk) as (j & Hj & (Eh & _)).
  rewrite (getAncestor_eq m k i h W Hk Hh), (getAncestor_eq m' k j h W' Hj Hh), Eh.
  by rewrite (back_links _ _ _ _ E).
Qed.

Lemma check_equiv e w w' : heights_ok (blocks_ w) → heights_ok (blocks_ w') → w ≡ w' →
  checkEndorsement edKey ingKey name settlementInterval e w = checkEndorsement edKey ingKey name settlementInterval e w'.
Proof.
  intros [W _] [W' _] E. unfold checkEndorsement. rewrite <- !(equiv_block w w') by done.
  destruct (getBlockIndex w (edKey (containingHash e))) as [c|] eqn:Ec; [|done].
  destruct (getBlockIndex w (edKey (endorsedHash e))) as [d|] eqn:Ed; [|done].
  apply getBlockIndex_lookup in Ec as (-> & ci & Hc & _). apply getBlockIndex_lookup in Ed as (-> & di & Hd & _).
  pose proof (equiv_links _ _ E) as El.
  destruct (store_rel_lookup _ _ _ _ _ El Hc) as (cj & Hcj & (Ehc & _)).
  destruct (store_rel_lookup _ _ _ _ _ El Hd) as (dj & Hdj & (Ehd & _)).
  rewrite (deref_eq _ _ _ Hc), (deref_eq _ _ _ Hd), (deref_eq _ _ _ Hcj), (deref_eq _ _ _ Hdj).
  cbn [mbind result_bind]. rewrite <- Ehc, <- Ehd.
  pose proof (wf_height _ W _ _ Hd). rewrite (getAncestor_links _ (blocks_ w') _ ci) by done.
  rewrite (ing_equiv_block (ing_of w) (ing_of w')) by apply E. done.
Qed.

(** The guards return, and what they find is in the trees. *)
Lemma check_ok e w : heights_ok (blocks_ w) →
  match catch (checkEndorsement edKey ingKey name settlementInterval e w) with
  | Ok (inl _) => True
  | Ok (inr (c, d, b)) => c = edKey (containingHash e) ∧ d = edKey (endorsedHash e) ∧ b = ingKey (blockOfProof e) ∧
      getBlockIndex w c = Some c ∧ getBlockIndex w d = Some d ∧ getBlockIndex (ing_of w) b = Some b
  | _ => False
  end.
Proof.
  intros [W Hmax]. unfold checkEndorsement.
  destruct (getBlockIndex w (edKey (containingHash e))) as [c|] eqn:Ec; [|done].
  destruct (getBlockIndex w (edKey (endorsedHash e))) as [d|] eqn:Ed; [|done].
  pose proof Ec as Ec'. pose proof Ed as Ed'.
  apply getBlockIndex_lookup in Ec as (-> & ci & Hc & _). apply getBlockIndex_lookup in Ed as (-> & di & Hd & _).
  rewrite (deref_eq _ _ _ Hc), (deref_eq _ _ _ Hd). cbn [mbind result_bind].
  pose proof (wf_height _ W _ _ Hc). pose proof (wf_height _ W _ _ Hd).
  pose proof (Hmax _ _ Hc). pose proof (Hmax _ _ Hd). unfold INT32_MAX in *.
  rewrite (getAncestor_eq _ _ _ _ W Hc) by done. cbn [mbind result_bind].
  case_bool_decide; [|done]. cbn [negb].
  rewrite ckS_ok by lia. cbn [mbind result_bind]. destruct (i32 settlementInterval <? height ci - height di); [done|].
  destruct (getBlockIndex (ing_of w) (ingKey (blockOfProof e))) as [b|] eqn:Eb; [|done]. cbn [catch].
  assert (b = ingKey (blockOfProof e)) as ->; [|by split_and!].
  rewrite getBlockIndex_live in Eb. destruct (live _ _); [|done]. by injection Eb as <-.
Qed.

(** ** What the command changes *)
Definition pop_changed (f : K → PopState → PopState) w w' : Prop := ∀ x,
  option_Forall2 (λ i j, same_links i j ∧ header i = header j ∧ status i = status j ∧ finalized i = finalized j ∧
    addon j = set_pop_state (f x (pop_of i)) (addon i)) (blocks_ w !! x) (blocks_ w' !! x).

Definition bop_changed (b : K2) (g : list endorsement_ptr → list endorsement_ptr) t t' : Prop :=
  (∀ x, option_Forall2 (λ u v, same_links u v ∧ header u = header v ∧ status u = status v ∧ finalized u = finalized v ∧
     addon v = set_blockOfProofEndorsements (if decide (x = b) then g (bop_of u) else bop_of u) (addon u))
     (blocks_ t !! x) (blocks_ t' !! x)) ∧
  tips_ t = tips_ t' ∧ same_rest t t'.

Definition same_other w w' : Prop := tips_ w = tips_ w' ∧ same_base w w'.
#[local] Instance same_other_equiv : Equivalence same_other.
Proof.
  unfold same_other. split.
  - done.
  - intros w w' [? ?]. by split.
  - intros w1 w2 w3 [? ?] [? ?]. split; by etrans.
Qed.

Lemma insert_pop k i g w : blocks_ w !! k = Some i →
  pop_changed (λ x s, if decide (x = k) then g s else s) w
    (with_blocks <[k := touch (λ a, set_pop_state (g (pop_state a)) a) i]> w).
Proof.
  intros Hk x. cbn [with_blocks blocks_]. destruct (decide (x = k)) as [->|Hne].
  - rewrite lookup_insert_eq, Hk. constructor. by split_and!.
  - rewrite lookup_insert_ne by done. destruct (blocks_ w !! x) as [j|]; constructor.
    split_and!; try done. unfold pop_of. by rewrite set_pop.
Qed.

Lemma insert_bop b u g t : blocks_ t !! b = Some u →
  bop_changed b g t (with_blocks <[b := touch (λ a, set_blockOfProofEndorsements (g (blockOfProofEndorsements a)) a) u]> t).
Proof.
  intros Hk. split; [|done]. intros x. cbn [with_blocks blocks_]. destruct (decide (x = b)) as [->|Hne].
  - rewrite lookup_insert_eq, Hk. constructor. by split_and!.
  - rewrite lookup_insert_ne by done. destruct (blocks_ t !! x) as [j|]; constructor.
    split_and!; try done. unfold bop_of. by rewrite set_bop.
Qed.

Lemma pop_changed_trans f g w1 w2 w3 : pop_changed f w1 w2 → pop_changed g w2 w3 →
  pop_changed (λ x s, g x (f x s)) w1 w3.
Proof.
  intros Hc1 Hc2 x. specialize (Hc1 x). specialize (Hc2 x).
  destruct Hc1 as [i j (L1 & Eh1x & S1 & F1 & Ea1)|]; inversion Hc2 as [? k (L2 & Eh2x & S2 & F2 & Ea2)|]; subst; constructor.
  unfold pop_of in *. rewrite Ea1, pop_set, set_pop_set in Ea2. split_and!; [by etrans|congruence..|done].
Qed.

Lemma pop_changed_ext f g w w' : (∀ x i, blocks_ w !! x = Some i → f x (pop_of i) = g x (pop_of i)) →
  pop_changed f w w' → pop_changed g w w'.
Proof.
  intros E Hc x. specialize (Hc x). specialize (E x). destruct Hc as [i j Hij|]; constructor.
  by rewrite <- (E i).
Qed.

(** A change of the members of the derived class. *)
Lemma pop_changed_ext_of f w w' w2 w2' : blocks_ w2 = blocks_ w → blocks_ w2' = blocks_ w' → pop_changed f w w' → pop_changed f w2 w2'.
Proof. intros E E' Hc x. rewrite E, E'. apply Hc. Qed.

Lemma pop_changed_lookup f w w' x j : pop_changed f w w' → blocks_ w' !! x = Some j →
  ∃ i, blocks_ w !! x = Some i ∧ same_links i j ∧ pop_of j = f x (pop_of i).
Proof.
  intros Hc Hj. specialize (Hc x). rewrite Hj in Hc. inversion Hc as [i ? (? & _ & _ & _ & E)|]; subst.
  exists i. split_and!; [done|done|]. unfold pop_of. by rewrite E, pop_set.
Qed.

Lemma pop_changed_lookup_fwd f w w' x i : pop_changed f w w' → blocks_ w !! x = Some i →
  ∃ j, blocks_ w' !! x = Some j ∧ pop_of j = f x (pop_of i) ∧ isDeleted j = isDeleted i.
Proof.
  intros Hc Hi. specialize (Hc x). rewrite Hi in Hc. inversion Hc as [? j (? & _ & Es & _ & E)|]; subst.
  exists j. unfold pop_of, isDeleted, hasFlags. by rewrite E, pop_set, Es.
Qed.

Lemma bop_changed_lookup b g t t' x v : bop_changed b g t t' → blocks_ t' !! x = Some v →
  ∃ u, blocks_ t !! x = Some u ∧ bop_of v = if decide (x = b) then g (bop_of u) else bop_of u.
Proof.
  intros [Hc _] Hv. specialize (Hc x). rewrite Hv in Hc. inversion Hc as [u ? (? & _ & _ & _ & E)|]; subst.
  exists u. split; [done|]. unfold bop_of. by rewrite E, bop_set.
Qed.

Lemma bop_changed_live b g t t' x : bop_changed b g t t' → getBlockIndex t' x = getBlockIndex t x.
Proof.
  intros [Hc _]. unfold getBlockIndex. destruct (Hc x) as [u v (_ & _ & Es & _)|]; [|done].
  unfold isDeleted, hasFlags. by rewrite Es.
Qed.

(** *** Changes and equivalence *)
Lemma changed_equiv f f' w w' w2 w2' : pop_changed f w w' → pop_changed f' w2 w2' →
  store_rel node_equiv (blocks_ w) (blocks_ w2) →
  (∀ x i j, blocks_ w !! x = Some i → blocks_ w2 !! x = Some j → node_equiv i j →
    pop_equiv (f x (pop_of i)) (f' x (pop_of j))) →
  store_rel node_equiv (blocks_ w') (blocks_ w2').
Proof.
  intros Hc1 Hc2 Er Hf x. specialize (Hc1 x). specialize (Hc2 x). specialize (Er x). specialize (Hf x).
  destruct Hc1 as [i i' (L1 & Eh1x & S1 & F1 & Ea1)|]; destruct Hc2 as [j j' (L2 & Eh2x & S2 & F2 & Ea2)|];
    inversion Er as [? ? Hn|]; subst; constructor.
  pose proof Hn as (Ln & Hhn & Dn & Pn & An). unfold node_equiv, isDeleted, hasFlags, pop_of in *. split_and!.
  - etrans; [symmetry; exact L1|]. by etrans.
  - congruence.
  - by rewrite <- S1, <- S2.
  - rewrite Ea1, Ea2, !pop_set. by apply Hf.
  - by rewrite Ea1, Ea2, !set_pop_set.
Qed.

Lemma bop_equiv b g g' t t' t2 t2' : bop_changed b g t t' → bop_changed b g' t2 t2' → ing_equiv t t2 →
  (∀ u v, live t b = Some u → live t2 b = Some v → ing_node_equiv u v → targets (g (bop_of u)) ≡ₚ targets (g' (bop_of v))) →
  ing_equiv t' t2'.
Proof.
  intros [Hc1 _] [Hc2 _] Er Hg x. specialize (Hc1 x). specialize (Hc2 x). specialize (Er x).
  assert (∀ u v, live t x = Some u → live t2 x = Some v → ing_node_equiv u v →
    targets (if decide (x = b) then g (bop_of u) else bop_of u) ≡ₚ targets (if decide (x = b) then g' (bop_of v) else bop_of v)) as Hg'.
  { intros u v Hu Hv Hn. case_decide; [subst; by apply Hg|apply Hn]. }
  clear Hg. unfold live in *.
  destruct (blocks_ t !! x) as [u|] eqn:Eu, (blocks_ t2 !! x) as [v|] eqn:Ev;
    inversion Hc1 as [? u' (L1 & Eh1x & S1 & F1 & Ea1) Hx Hy|]; inversion Hc2 as [? v' (L2 & Eh2x & S2 & F2 & Ea2)|]; subst;
    unfold isDeleted, hasFlags in *; rewrite <- ?S1, <- ?S2.
  all: repeat (match goal with |- context [if ?c then None else _] => destruct c end);
    inversion Er as [? ? Hn|]; subst; try constructor.
  specialize (Hg' u v eq_refl eq_refl Hn). destruct Hn as (Hh & Hd & Hp & Ht & Hr). unfold ing_node_equiv, bop_of in *.
  destruct L1 as (Eh1 & Ep1 & _). destruct L2 as (Eh2 & Ep2 & _). split_and!; [congruence..| |].
  - by rewrite Ea1, Ea2, !bop_set.
  - rewrite Ea1, Ea2. etrans; [apply rest_bop|]. etrans; [exact Hr|]. symmetry. apply rest_bop.
Qed.

(** ** Coherent worlds

    Only [known] endorsements are added, and their ids tell apart those of one
    containing block. *)
Context (known : Endorsement → Prop).
Context (known_key : ∀ e, known e → key_ok (id e)).
Context (known_id : ∀ e e', known e → known e' → id e = id e' →
  edKey (containingHash e) = edKey (containingHash e') → e = e').

Definition ptrs (s : PopState) : list endorsement_ptr := map snd (containingEndorsements s).

Definition contains w (c : K) p : Prop := ∃ i, blocks_ w !! c = Some i ∧ p ∈ ptrs (pop_of i).
Definition contained w p : Prop := ∃ c, contains w c p.

Record coherent w : Prop := {
  co_heights : heights_ok (blocks_ w);
  co_pop x i : blocks_ w !! x = Some i → pop_ok (pop_of i) ∧ NoDup (ptrs (pop_of i)) ∧ NoDup (endorsedBy (pop_of i));
  co_known x p : contains w x p →
    known (target p) ∧ edKey (containingHash (target p)) = x ∧ address p < next_address (ext w);
  co_address p q : contained w p → contained w q → address p = address q → p = q;
  co_by x i : blocks_ w !! x = Some i → ∀ p, p ∈ endorsedBy (pop_of i) ↔ contained w p ∧ edKey (endorsedHash (target p)) = x;
  co_bop b u : live (ing_of w) b = Some u →
    NoDup (bop_of u) ∧ ∀ p, p ∈ bop_of u ↔ contained w p ∧ ingKey (blockOfProof (target p)) = b
}.

Definition add_at (c d : K) p (x : K) (s : PopState) : PopState :=
  mkPopState (if decide (x = c) then emplace (id (target p)) p (containingEndorsements s) else containingEndorsements s)
    (if decide (x = d) then endorsedBy s ++ [p] else endorsedBy s).

Definition del_at (c d : K) (it : nat) l (x : K) (s : PopState) : PopState :=
  mkPopState (if decide (x = c) then delete it (containingEndorsements s) else containingEndorsements s)
    (if decide (x = d) then l else endorsedBy s).

Lemma ptrs_emplace k p m s : ptrs (mkPopState (emplace k p m) s) ≡ₚ p :: map snd m.
Proof. unfold ptrs. cbn. by rewrite emplace_perm. Qed.

Lemma map_delete {X Y} (f : X → Y) n (l : list X) : map f (delete n l) = delete n (map f l).
Proof. revert n. induction l as [|x l IH]; intros [|n]; cbn; [done..|]. f_equal. apply IH. Qed.

Lemma ptrs_delete it m s x : m !! it = Some x → x.2 :: ptrs (mkPopState (delete it m) s) ≡ₚ map snd m.
Proof.
  intros Hx. unfold ptrs. cbn. rewrite map_delete. symmetry. apply delete_Permutation.
  by rewrite list_lookup_fmap, Hx.
Qed.

Lemma pop_changed_heights f w w' : pop_changed f w w' → heights_ok (blocks_ w) → heights_ok (blocks_ w').
Proof.
  intros Hc [W Hh]. split.
  - apply (same_links_wf (blocks_ w)); [|done]. intros x. destruct (Hc x); constructor. naive_solver.
  - intros x j Hj. destruct (pop_changed_lookup _ _ _ _ _ Hc Hj) as (i & Hi & (Eh & _) & _). rewrite <- Eh. by eapply Hh.
Qed.

Lemma bop_changed_node b g t t' x v : bop_changed b g t t' → live t' x = Some v →
  ∃ u, live t x = Some u ∧ bop_of v = if decide (x = b) then g (bop_of u) else bop_of u.
Proof.
  intros Hbop Hv. unfold live in Hv. destruct (blocks_ t' !! x) as [v'|] eqn:Hv'; [|done].
  destruct (bop_changed_lookup _ _ _ _ _ _ Hbop Hv') as (u & Hu & E).
  pose proof (bop_changed_live _ _ _ _ x Hbop) as El. unfold getBlockIndex in El. rewrite Hv', Hu in El.
  exists u. unfold live. rewrite Hu. destruct (isDeleted v'); [done|]. injection Hv as ->. by destruct (isDeleted u).
Qed.

(** The endorsement [p] is added. *)
Lemma contains_add c d p w w' x q : is_Some (blocks_ w !! c) → pop_changed (add_at c d p) w w' →
  contains w' x q ↔ contains w x q ∨ x = c ∧ q = p.
Proof.
  intros [ci Hci] Hc. assert (∀ s, q ∈ ptrs (add_at c d p x s) ↔ q ∈ ptrs s ∨ x = c ∧ q = p) as Hs.
  { intros s. unfold add_at. case_decide; [rewrite ptrs_emplace, elem_of_cons|unfold ptrs; cbn]; naive_solver. }
  unfold contains. split.
  - intros (j & Hj & Hq). destruct (pop_changed_lookup _ _ _ _ _ Hc Hj) as (i & Hi & _ & E). rewrite E, Hs in Hq. naive_solver.
  - intros Hq. assert (∃ i, blocks_ w !! x = Some i ∧ (q ∈ ptrs (pop_of i) ∨ x = c ∧ q = p)) as (i & Hi & Hq') by naive_solver.
    destruct (pop_changed_lookup_fwd _ _ _ _ _ Hc Hi) as (j & Hj & E & _). exists j. by rewrite E, Hs.
Qed.

Lemma coherent_add c d b p w w' : coherent w → is_Some (blocks_ w !! c) → known (target p) →
  c = edKey (containingHash (target p)) → d = edKey (endorsedHash (target p)) → b = ingKey (blockOfProof (target p)) →
  address p = next_address (ext w) → next_address (ext w') = address p + 1 →
  pop_changed (add_at c d p) w w' → bop_changed b (λ l, l ++ [p]) (ing_of w) (ing_of w') → coherent w'.
Proof.
  intros [Ch Cp Ck Ca Cb Cbop] Hc Hp -> -> -> Ea En Hpop Hbop.
  pose proof (λ x q, contains_add _ _ p w w' x q Hc Hpop) as Hcon.
  assert (∀ q, contained w' q ↔ contained w q ∨ q = p) as Hcon' by (unfold contained; naive_solver).
  assert (∀ q, contained w q → address q < address p) as Hlt by (intros q [x Hq]; destruct (Ck x q Hq) as (_ & _ & ?); lia).
  assert (∀ q, contained w q → q ≠ p) as Hne by (intros q Hq ->; specialize (Hlt p Hq); lia).
  split.
  - by eapply pop_changed_heights.
  - intros x j Hj. destruct (pop_changed_lookup _ _ _ _ _ Hpop Hj) as (i & Hi & _ & ->).
    destruct (Cp x i Hi) as (Hok & Hn1 & Hn2). unfold add_at. split_and!.
    + case_decide; [|destruct Hok; by split]. destruct (insert_pop_ok p (pop_of i) Hok (known_key _ Hp)) as [? ? ?]. by split.
    + case_decide; [rewrite ptrs_emplace; apply NoDup_cons; split; [|done]|done].
      intros Hin. apply (Hne p); [|done]. exists x. by exists i.
    + cbn. case_decide; [|done]. apply NoDup_app. split_and!; [done| |apply NoDup_singleton].
      intros q Hq ->%list_elem_of_singleton. apply (Hne p); [|done]. by eapply Cb.
  - intros x q [Hq|[-> ->]]%Hcon; [|split_and!; [done..|lia]]. destruct (Ck x q Hq) as (? & ? & ?). split_and!; [done..|lia].
  - intros q r [Hq| ->]%Hcon' [Hr| ->]%Hcon' E; [by apply Ca| | |done]; exfalso; [specialize (Hlt q Hq)|specialize (Hlt r Hr)]; lia.
  - intros x j Hj q. destruct (pop_changed_lookup _ _ _ _ _ Hpop Hj) as (i & Hi & _ & ->). rewrite Hcon'.
    unfold add_at. cbn. case_decide; [rewrite elem_of_app, list_elem_of_singleton|]; rewrite (Cb x i Hi q); naive_solver.
  - intros x v Hv. destruct (bop_changed_node _ _ _ _ _ _ Hbop Hv) as (u & Hu & E).
    destruct (Cbop x u Hu) as [Hn Hin]. rewrite E. case_decide as Ex.
    + split.
      * apply NoDup_app. split_and!; [done| |apply NoDup_singleton].
        intros q Hq ->%list_elem_of_singleton. apply (Hne p); [|done]. by apply Hin.
      * intros q. rewrite Hcon', elem_of_app, list_elem_of_singleton, Hin. naive_solver.
    + split; [done|]. intros q. rewrite Hcon', Hin. naive_solver.
Qed.

(** The endorsement [q] is removed. *)
Lemma contains_del c d it l q w w' x r i : coherent w → blocks_ w !! c = Some i →
  (containingEndorsements (pop_of i)).*2 !! it = Some q → pop_changed (del_at c d it l) w w' →
  contains w' x r ↔ contains w x r ∧ r ≠ q.
Proof.
  intros Hw Hi Hq Hpop. destruct (co_pop _ Hw c i Hi) as (_ & Hn & _).
  assert (contains w c q) as Hcq by (exists i; split; [done|]; by eapply list_elem_of_lookup_2).
  assert (∀ y j, blocks_ w !! y = Some j → r ∈ ptrs (del_at c d it l y (pop_of j)) ↔ r ∈ ptrs (pop_of j) ∧ r ≠ q) as Hs.
  { intros y j Hj. unfold del_at. case_decide as Ey.
    - subst y. rewrite Hi in Hj. injection Hj as <-. unfold ptrs in *. cbn. rewrite map_delete.
      pose proof (delete_Permutation _ _ _ Hq) as E. rewrite E in Hn. apply NoDup_cons in Hn as [Hn _].
      rewrite (elem_of_Permutation_proper r _ _ E), elem_of_cons. naive_solver.
    - cbn. split; [|naive_solver]. intros Hr. split; [done|]. intros ->. apply Ey.
      destruct (co_known _ Hw c q Hcq) as (_ & <- & _). assert (contains w y q) as Hyq by (by exists j).
      by destruct (co_known _ Hw y q Hyq) as (_ & <- & _). }
  unfold contains. split.
  - intros (j & Hj & Hr). destruct (pop_changed_lookup _ _ _ _ _ Hpop Hj) as (j0 & Hj0 & _ & E).
    rewrite E, (Hs x j0 Hj0) in Hr. naive_solver.
  - intros [(j0 & Hj0 & Hr) Hne]. destruct (pop_changed_lookup_fwd _ _ _ _ _ Hpop Hj0) as (j & Hj & E & _).
    exists j. split; [done|]. by rewrite E, (Hs x j0 Hj0).
Qed.

Lemma NoDup_rest q l l' : l ≡ₚ q :: l' → NoDup l → NoDup l' ∧ ∀ r, r ∈ l' ↔ r ∈ l ∧ r ≠ q.
Proof.
  intros E Hn. rewrite E in Hn. apply NoDup_cons in Hn as [Hq Hn]. split; [done|]. intros r.
  rewrite (elem_of_Permutation_proper r _ _ E), elem_of_cons. naive_solver.
Qed.

Lemma coherent_del c d b it l l2 q ci di u w w' : coherent w →
  blocks_ w !! c = Some ci → (containingEndorsements (pop_of ci)).*2 !! it = Some q →
  blocks_ w !! d = Some di → endorsedBy (pop_of di) ≡ₚ q :: l →
  live (ing_of w) b = Some u → bop_of u ≡ₚ q :: l2 →
  next_address (ext w') = next_address (ext w) →
  pop_changed (del_at c d it l) w w' → bop_changed b (λ _, l2) (ing_of w) (ing_of w') → coherent w'.
Proof.
  intros Hw Hc Hq Hd El Hb Ebop En Hpop Hbop. pose proof Hw as [Ch Cp Ck Ca Cb Cbop].
  pose proof (λ x r, contains_del c d it l q w w' x r ci Hw Hc Hq Hpop) as Hcon.
  assert (∀ r, contained w' r ↔ contained w r ∧ r ≠ q) as Hcon' by (unfold contained; naive_solver).
  destruct (Cp d di Hd) as (_ & _ & Hn1). destruct (Cbop b u Hb) as [Hn2 Hin2].
  destruct (NoDup_rest _ _ _ El Hn1) as [Hl Hlin]. destruct (NoDup_rest _ _ _ Ebop Hn2) as [Hl2 Hl2in].
  assert (q ∈ endorsedBy (pop_of di)) as Hqd by (rewrite El; left). apply (Cb d di Hd) in Hqd as [_ Hqd].
  assert (q ∈ bop_of u) as Hqb by (rewrite Ebop; left). apply Hin2 in Hqb as [_ Hqb].
  split.
  - by eapply pop_changed_heights.
  - intros x j Hj. destruct (pop_changed_lookup _ _ _ _ _ Hpop Hj) as (i & Hi & _ & ->).
    destruct (Cp x i Hi) as ([Hs Hk Hid] & Hn & Hn'). unfold del_at. split_and!.
    + case_decide; split; cbn; first [done|by apply delete_sorted|by apply Forall_delete].
    + case_decide; [|done]. subst x. rewrite Hc in Hi. injection Hi as <-. unfold ptrs in *. cbn. rewrite map_delete.
      eapply NoDup_rest; [by apply delete_Permutation|done].
    + cbn. by case_decide.
  - intros x r [Hr _]%Hcon. rewrite En. by apply Ck.
  - intros r r' [Hr _]%Hcon' [Hr' _]%Hcon'. by apply Ca.
  - intros x j Hj r. destruct (pop_changed_lookup _ _ _ _ _ Hpop Hj) as (i & Hi & _ & ->). rewrite Hcon'.
    unfold del_at. cbn. pose proof (Cb x i Hi r) as Hbr. case_decide; [|rewrite Hbr; naive_solver].
    subst x. rewrite Hd in Hi. injection Hi as <-. rewrite Hlin, Hbr. naive_solver.
  - intros x v Hv. destruct (bop_changed_node _ _ _ _ _ _ Hbop Hv) as (u' & Hu' & E).
    destruct (Cbop x u' Hu') as [Hn Hin]. rewrite E. case_decide.
    + subst x. rewrite Hb in Hu'. injection Hu' as <-. split; [done|]. intros r. rewrite Hl2in, Hcon', Hin. naive_solver.
    + split; [done|]. intros r. rewrite Hcon', Hin. naive_solver.
Qed.

(** ** [Execute] *)
Definition appended p l : list endorsement_ptr := l ++ [p].

Lemma Execute_effect e w c d b ci di u : catch (checkEndorsement edKey ingKey name settlementInterval e w) = Ok (inr (c, d, b)) →
  blocks_ w !! c = Some ci → blocks_ w !! d = Some di → blocks_ (ing_of w) !! b = Some u →
  let p := mkPtr (next_address (ext w)) e in
  ∃ w', AddEndorsement_Execute edKey ingKey name settlementInterval e w = Ok (w', true) ∧
    pop_changed (add_at c d p) w w' ∧ bop_changed b (appended p) (ing_of w) (ing_of w') ∧
    next_address (ext w') = next_address (ext w) + 1 ∧ same_other w w'.
Proof.
  intros Ec Hc Hd Hb p. unfold AddEndorsement_Execute. rewrite Ec. cbn [mbind result_bind].
  set (w0 := with_ext _ w). assert (blocks_ w0 !! c = Some ci) as Hc0 by done. unfold modify.
  rewrite (deref_eq _ _ _ Hc0). cbn [mbind result_bind].
  pose proof (insert_pop c ci (insertContainingEndorsement p) w0 Hc0) as P1. fold p.
  set (w1 := with_blocks _ w0) in P1 |- *. assert (∃ dj, blocks_ w1 !! d = Some dj) as [dj Hd1].
  { assert (blocks_ w0 !! d = Some di) as Hd0 by done.
    destruct (pop_changed_lookup_fwd _ _ _ _ _ P1 Hd0) as (dj & ? & _). by exists dj. }
  rewrite (deref_eq _ _ _ Hd1). cbn [mbind result_bind].
  pose proof (insert_pop d dj (insertEndorsedBy p) w1 Hd1) as P3. set (w3 := with_blocks _ w1) in P3 |- *.
  unfold modify_ing, modify. rewrite (deref_eq (blocks_ (ing_of w3)) b u) by done. cbn [mbind result_bind].
  eexists. split; [done|]. split_and!; [|by apply (insert_bop b u (appended p))|done|done].
  apply (pop_changed_ext_of (add_at c d p) w0 w3); [done|done|].
  eapply pop_changed_ext; [|by eapply pop_changed_trans]. intros x i _. unfold add_at. cbn beta.
  destruct (decide (x = c)), (decide (x = d)); by try destruct (pop_of i).
Qed.

(** ** [UnExecute] *)
Lemma UnExecute_effect e w c d b ci di u q l l2 : c = edKey (containingHash e) → d = edKey (endorsedHash e) → b = ingKey (blockOfProof e) →
  getBlockIndex w c = Some c → getBlockIndex w d = Some d → getBlockIndex (ing_of w) b = Some b →
  blocks_ w !! c = Some ci → blocks_ w !! d = Some di → blocks_ (ing_of w) !! b = Some u →
  let it := lower_bound (id e) (containingEndorsements (pop_of ci)) in
  containingEndorsements (pop_of ci) !! it = Some (id e, q) →
  erase_last_item_if (λ p, ptr_eqb p q) (endorsedBy (pop_of di)) = (l, true) →
  erase_last_item_if (λ p, ptr_eqb p q) (bop_of u) = (l2, true) →
  ∃ w', AddEndorsement_UnExecute edKey ingKey e w = Ok w' ∧ pop_changed (del_at c d it l) w w' ∧
    bop_changed b (λ _, l2) (ing_of w) (ing_of w') ∧ next_address (ext w') = next_address (ext w) ∧ same_other w w'.
Proof.
  intros -> -> ->. set (c := edKey (containingHash e)). set (d := edKey (endorsedHash e)). set (b := ingKey (blockOfProof e)).
  intros Gc Gd Gb Hc Hd Hb it Hit Hl Hl2. unfold AddEndorsement_UnExecute. fold c d b. rewrite Gc, Gd, Gb, (deref_eq _ _ _ Hc).
  cbn [mbind result_bind]. unfold findContainingEndorsement. fold (pop_of ci). fold it.
  pose proof (lookup_lt_Some _ _ _ Hit) as Hlt. rewrite (proj2 (Nat.ltb_lt _ _) Hlt).
  unfold containing_at. rewrite Hit, (deref_eq _ _ _ Hd). cbn [vassert mbind result_bind snd].
  unfold node_eraseLastFromEndorsedBy, eraseLastFromEndorsedBy. fold (pop_of di). rewrite Hl. cbn [fst snd vassert mbind result_bind].
  pose proof (insert_pop d di (λ s, mkPopState (containingEndorsements s) l) w Hd) as Pd.
  match type of Pd with pop_changed _ _ ?w1' => change (with_blocks _ w) with w1'; set (w1 := w1') in * end.
  change (ing_of w1) with (ing_of w). rewrite (deref_eq _ _ _ Hb). cbn [mbind result_bind].
  unfold node_eraseLastFromBlockOfProofEndorsement. fold (bop_of u). rewrite Hl2. cbn [fst snd vassert mbind result_bind].
  pose proof (insert_bop b u (λ _, l2) (ing_of w) Hb) as Pb.
  match type of Pb with bop_changed _ _ _ ?t' => change (with_blocks _ (ing_of w)) with t'; set (t1 := t') in * end.
  set (w2 := set_ing t1 w1).
  destruct (pop_changed_lookup_fwd _ _ _ _ _ Pd Hc) as (cj & Hcj & Ej & _).
  rewrite (deref_eq (blocks_ w2) c cj) by done. cbn [mbind result_bind]. unfold node_removeContainingEndorsement, touch_result.
  fold (pop_of cj). unfold removeContainingEndorsement.
  assert (containingEndorsements (pop_of cj) = containingEndorsements (pop_of ci)) as Ece by (rewrite Ej; by case_decide).
  rewrite <- Ece in Hit. rewrite Hit. cbn [mbind result_bind].
  pose proof (insert_pop c cj (λ s, mkPopState (delete it (containingEndorsements s)) (endorsedBy s)) w2 Hcj) as Pc.
  eexists. split; [done|]. split_and!; [|done..].
  eapply pop_changed_ext; [|eapply pop_changed_trans; [exact Pd|exact Pc]]. intros x i _. unfold del_at. cbn beta.
  destruct (decide (x = c)), (decide (x = d)); by try destruct (pop_of i).
Qed.

(** ** The command is lawful *)
Lemma contents_emplace k p q m m' : target p = target q → contents m = contents m' →
  contents (emplace k p m) = contents (emplace k q m').
Proof.
  intros Et. revert m'. induction m as [|x m IH]; intros [|y m'] E; try discriminate; [cbn; by rewrite Et|].
  injection E as Ex Ey E. cbn [emplace]. rewrite <- Ex. unfold contents in *.
  destruct (blob_lt k x.1); cbn; rewrite ?Et, <- ?Ex, ?Ey; [by rewrite E|]. by rewrite (IH m').
Qed.

Lemma contents_delete n m : contents (delete n m) = delete n (contents m).
Proof. apply map_delete. Qed.

Lemma contents_keys m m' : contents m = contents m' → m.*1 = m'.*1.
Proof.
  intros E. apply (f_equal (map fst)) in E. unfold contents in E. by rewrite !map_map in E.
Qed.

Lemma contents_lower_bound k m m' : contents m = contents m' → lower_bound k m = lower_bound k m'.
Proof.
  revert m'. induction m as [|x m IH]; intros [|y m'] E; try discriminate; [done|].
  injection E as Ex _ E. cbn. rewrite Ex. by rewrite (IH m' E).
Qed.

Context (hasPayloads : A → bool) (getCommands : B → A → result (list (CommandGroup world))).
Context (payloads_pop : ∀ h s a, hasPayloads (set_pop_state s a) = hasPayloads a ∧
  getCommands h (set_pop_state s a) = getCommands h a).
Context (ing_ok : ing_tree → Prop).
Context (ing_ok_changed : ∀ b g t t', bop_changed b g t t' → ing_ok t → ing_ok t').

Definition world_ok w : Prop := coherent w ∧ ing_ok (ing_of w).

Lemma kept_changed f w w' : pop_changed f w w' → same_other w w' → kept hasPayloads getCommands w w'.
Proof.
  intros Hc [? ?]. split; [|done]. intros x. destruct (Hc x) as [i j (El & Eh & Es & Ef & Ea)|]; constructor.
  split_and!; [done..|]. unfold same_payloads. rewrite Ea, <- Eh. destruct (payloads_pop (header i) (f x (pop_of i)) (addon i)). done.
Qed.

Lemma equiv_add c d b p q w1 w2 w1' w2' : target p = target q → w1 ≡ w2 →
  pop_changed (add_at c d p) w1 w1' → pop_changed (add_at c d q) w2 w2' →
  bop_changed b (appended p) (ing_of w1) (ing_of w1') → bop_changed b (appended q) (ing_of w2) (ing_of w2') → w1' ≡ w2'.
Proof.
  intros Et [Er Ei] Hp1 Hp2 Hb1 Hb2. split.
  - apply (changed_equiv _ _ _ _ _ _ Hp1 Hp2 Er). intros x i j _ _ (_ & _ & _ & (Ec & Ee) & _).
    split; unfold add_at; cbn; rewrite ?Et; case_decide; [by apply contents_emplace|done| |done].
    rewrite !targets_app, Ee. cbn. by rewrite Et.
  - apply (bop_equiv _ _ _ _ _ _ _ Hb1 Hb2 Ei). intros u v _ _ (_ & _ & _ & Ee & _). unfold appended.
    rewrite !targets_app, Ee. cbn. by rewrite Et.
Qed.

Lemma block_of w k : getBlockIndex w k = Some k → ∃ i, blocks_ w !! k = Some i.
Proof. intros E. apply getBlockIndex_lookup in E as (_ & i & ? & _). by exists i. Qed.

Lemma ing_block_of t k : getBlockIndex t k = Some k → ∃ u, blocks_ t !! k = Some u ∧ live t k = Some u.
Proof.
  rewrite getBlockIndex_live. unfold live. destruct (blocks_ t !! k) as [u|]; [|done].
  destruct (isDeleted u); [done|]. by exists u.
Qed.

(** One run of [Execute]. *)
Lemma Execute_ok e w : known e → world_ok w →
  match catch (checkEndorsement edKey ingKey name settlementInterval e w) with
  | Ok (inl _) => AddEndorsement_Execute edKey ingKey name settlementInterval e w = Ok (w, false)
  | Ok (inr (c, d, b)) => c = edKey (containingHash e) ∧ d = edKey (endorsedHash e) ∧ b = ingKey (blockOfProof e) ∧
      getBlockIndex w c = Some c ∧ getBlockIndex w d = Some d ∧ getBlockIndex (ing_of w) b = Some b ∧
      ∃ w', AddEndorsement_Execute edKey ingKey name settlementInterval e w = Ok (w', true) ∧ world_ok w' ∧
        pop_changed (add_at c d (mkPtr (next_address (ext w)) e)) w w' ∧
        bop_changed b (appended (mkPtr (next_address (ext w)) e)) (ing_of w) (ing_of w') ∧
        kept hasPayloads getCommands w w'
  | _ => False
  end.
Proof.
  intros He [Hw Hi]. pose proof (check_ok e w (co_heights _ Hw)) as Hc.
  destruct (catch _) as [[s|[[c d] b]]| | | | |] eqn:Ec; try done; [by unfold AddEndorsement_Execute; rewrite Ec|].
  destruct Hc as (Hc1 & Hc2 & Hc3 & Gc & Gd & Gb). do 6 (split; [done|]).
  destruct (block_of _ _ Gc) as [ci Hci]. destruct (block_of _ _ Gd) as [di Hdi]. destruct (ing_block_of _ _ Gb) as (u & Hu & _).
  destruct (Execute_effect e w c d b ci di u Ec Hci Hdi Hu) as (w' & E & Hp & Hb & Hn & Ho).
  exists w'. split; [done|]. split_and!; [|done..|by eapply kept_changed].
  split; [|by eapply ing_ok_changed]. apply (coherent_add c d b (mkPtr (next_address (ext w)) e) w); done.
Qed.

(** Changes can be reversed. *)
Lemma pop_changed_sym f w w' : pop_changed f w w' →
  pop_changed (λ x s, match blocks_ w !! x with Some i => pop_of i | None => s end) w' w.
Proof.
  intros Hc x. specialize (Hc x). destruct Hc as [i j (El & Eh & Es & Ef & Ea)|]; constructor.
  split_and!; try done. unfold pop_of. by rewrite Ea, set_pop_set, set_pop.
Qed.

Lemma bop_changed_sym b g t t' u : bop_changed b g t t' → blocks_ t !! b = Some u → bop_changed b (λ _, bop_of u) t' t.
Proof.
  intros [Hc [Ht Hr]] Hu. split; [|by split]. intros x. specialize (Hc x).
  destruct (blocks_ t !! x) as [i|] eqn:Ei; inversion Hc as [? j (El & Eh & Es & Ef & Ea)|]; subst; constructor.
  split_and!; try done. unfold bop_of. rewrite Ea, bop_set, set_bop_set. destruct (decide (x = b)) as [->|]; [|unfold bop_of; by rewrite set_bop].
  rewrite Hu in Ei. injection Ei as ->. unfold bop_of. by rewrite set_bop.
Qed.

(** The endorsement that [UnExecute] finds. *)
Lemma find_added e w c ci : coherent w → known e → c = edKey (containingHash e) → blocks_ w !! c = Some ci →
  id e ∈ (containingEndorsements (pop_of ci)).*1 →
  ∃ q, containingEndorsements (pop_of ci) !! lower_bound (id e) (containingEndorsements (pop_of ci)) = Some (id e, q) ∧
    contains w c q ∧ target q = e.
Proof.
  intros Hw He -> Hci Hin. destruct (co_pop _ Hw _ _ Hci) as ([Hs Hk Hid] & _).
  destruct (lower_bound_present _ _ (known_key _ He) Hk Hs Hin) as (q & Hq & _). exists q. split; [done|].
  assert (contains w (edKey (containingHash e)) q) as Hcq.
  { exists ci. split; [done|]. apply list_elem_of_fmap. exists (id e, q). split; [done|]. by eapply list_elem_of_lookup_2. }
  split; [done|]. destruct (co_known _ Hw _ _ Hcq) as (Hkq & Hcc & _).
  symmetry. apply known_id; [done|done| |done]. by apply (proj1 (Forall_lookup _ _) Hid _ _ Hq).
Qed.

(** A pointer that is listed is erased, and nothing else. *)
Lemma erase_listed w l q : coherent w → contained w q → NoDup l → (∀ p, p ∈ l → contained w p) → q ∈ l →
  ∃ l', erase_last_item_if (λ p, ptr_eqb p q) l = (l', true) ∧ l ≡ₚ q :: l'.
Proof.
  intros Hw Hq Hn Hl Hin. destruct (erase_ptr l q Hn) as (l' & ? & ? & _); [|done|by exists l'].
  intros p Hp Ha. apply (co_address _ Hw); [by apply Hl|done|done].
Qed.

(** Adding to the contents of a block and erasing again. *)
Lemma undo_contents e c p ci m : coherent c → known e → blocks_ c !! edKey (containingHash e) = Some ci → target p = e →
  contents m = contents (emplace (id e) p (containingEndorsements (pop_of ci))) →
  contents (delete (lower_bound (id e) m) m) = contents (containingEndorsements (pop_of ci)).
Proof.
  intros Hw He Hci Et Em. destruct (co_pop _ Hw _ _ Hci) as ([Hs Hk Hid] & _).
  rewrite contents_delete, (contents_lower_bound _ _ _ Em), Em, <- contents_delete.
  apply contents_emplace_delete; [by apply known_key|done|done|]. rewrite Et.
  apply Forall_forall. intros x Hx Ex. assert (contains c (edKey (containingHash e)) x.2) as Hcx.
  { exists ci. split; [done|]. by apply list_elem_of_fmap_2. }
  destruct (co_known _ Hw _ _ Hcx) as (Hkx & Hcc & _). apply known_id; [done|done| |done].
  rewrite Forall_forall in Hid. by rewrite <- (Hid x Hx).
Qed.

Lemma undo_targets p q l l' lx : target p = target q → lx ≡ₚ q :: l' → targets lx ≡ₚ targets (l ++ [p]) → targets l' ≡ₚ targets l.
Proof.
  intros Et El E. assert (targets lx ≡ₚ targets (q :: l')) as Eq by (unfold targets; by rewrite El).
  rewrite Eq, targets_app in E. cbn in E. rewrite Et in E. apply (Permutation_cons_inv (a:=target q)).
  rewrite E. symmetry. apply Permutation_cons_append.
Qed.

(** What the rollback has to find, in a world equivalent to the one after. *)
Lemma UnExecute_ok e c d b p w1 w1' w2 : known e → coherent w1 → world_ok w2 → w2 ≡ w1' →
  c = edKey (containingHash e) → d = edKey (endorsedHash e) → b = ingKey (blockOfProof e) → target p = e →
  getBlockIndex w2 c = Some c → getBlockIndex w2 d = Some d → getBlockIndex (ing_of w2) b = Some b →
  (∃ u1, blocks_ (ing_of w1) !! b = Some u1) →
  pop_changed (add_at c d p) w1 w1' → bop_changed b (appended p) (ing_of w1) (ing_of w1') →
  ∃ w2', AddEndorsement_UnExecute edKey ingKey e w2 = Ok w2' ∧ world_ok w2' ∧ w2' ≡ w1 ∧ kept hasPayloads getCommands w2 w2'.
Proof.
  intros He Hw1 [Hw2 Hi2] [Er Ei] Kc Kd Kb Et Gc Gd Gb [u1 Hu1] Hp Hb.
  destruct (block_of _ _ Gc) as [ci Hci]. destruct (block_of _ _ Gd) as [di Hdi]. destruct (ing_block_of _ _ Gb) as (u & Hu & Hul).
  destruct (store_rel_lookup _ _ _ _ _ Er Hci) as (cj & Hcj & (_ & _ & _ & (Ecc & _) & _)).
  destruct (pop_changed_lookup _ _ _ _ _ Hp Hcj) as (ck & Hck & _ & Eck). rewrite Eck in Ecc.
  unfold add_at in Ecc. cbn in Ecc. rewrite decide_True, Et in Ecc by done.
  assert (id e ∈ (containingEndorsements (pop_of ci)).*1) as Hin.
  { rewrite (contents_keys _ _ Ecc), emplace_perm. left. }
  destruct (find_added e w2 c ci Hw2 He Kc Hci Hin) as (q & Hq & Hcq & Eq).
  assert (contained w2 q) as Hcon by (by exists c). destruct (co_pop _ Hw2 _ _ Hdi) as (_ & _ & Hnd). destruct (co_bop _ Hw2 _ _ Hul) as [Hnu Hiu].
  destruct (erase_listed w2 (endorsedBy (pop_of di)) q Hw2 Hcon Hnd) as (l & El & Pl).
  { intros r Hr. by apply (co_by _ Hw2 _ _ Hdi) in Hr as [? _]. }
  { apply (co_by _ Hw2 _ _ Hdi). by rewrite Eq. }
  destruct (erase_listed w2 (bop_of u) q Hw2 Hcon Hnu) as (l2 & El2 & Pl2).
  { intros r Hr. by apply Hiu in Hr as [? _]. }
  { apply Hiu. by rewrite Eq. }
  destruct (UnExecute_effect e w2 c d b ci di u q l l2) as (w2' & E & Hp2 & Hb2 & Hn2 & Ho2); [done..|].
  exists w2'. split; [done|]. split; [split; [|by eapply ing_ok_changed]|split; [|by eapply kept_changed]].
  { eapply (coherent_del c d b); try done. rewrite list_lookup_fmap. by rewrite Hq. }
  split.
  - apply (changed_equiv _ _ _ _ _ _ Hp2 (pop_changed_sym _ _ _ Hp) Er). intros x i j Hi Hj (_ & _ & _ & (Ec & Ee) & _).
    destruct (pop_changed_lookup _ _ _ _ _ Hp Hj) as (i1 & Hi1 & _ & Ej). rewrite Hi1. rewrite Ej in Ec, Ee.
    unfold del_at, add_at in *. split; cbn in *; [destruct (decide (x = c))|destruct (decide (x = d))]; try done.
    + subst x. rewrite Hci in Hi. injection Hi as <-. rewrite Et in Ec. apply (undo_contents e w1 p); try done. by rewrite <- Kc.
    + subst x. rewrite Hdi in Hi. injection Hi as <-. by apply (undo_targets p q _ _ _ (eq_trans Et (eq_sym Eq)) Pl).
  - apply (bop_equiv b _ _ _ _ _ _ Hb2 (bop_changed_sym _ _ _ _ u1 Hb Hu1) Ei). intros v v' Hv Hv' (_ & _ & _ & Ee & _).
    rewrite Hul in Hv. injection Hv as <-. destruct (bop_changed_node _ _ _ _ _ _ Hb Hv') as (u1' & Hu1' & Ev).
    rewrite Ev, decide_True in Ee by done. unfold live in Hu1'. rewrite Hu1 in Hu1'. destruct (isDeleted u1); [done|].
    injection Hu1' as <-. by apply (undo_targets p q _ _ _ (eq_trans Et (eq_sym Eq)) Pl2).
Qed.

Lemma pop_changed_block f w w' k : pop_changed f w w' → getBlockIndex w' k = getBlockIndex w k.
Proof.
  intros Hc. unfold getBlockIndex. destruct (Hc k) as [i j (_ & _ & Es & _)|]; [|done].
  unfold isDeleted, hasFlags. by rewrite Es.
Qed.

(** C34: [AddEndorsement] obeys the contract of commands in coherent worlds.  It
    returns, with the same outcome in equivalent worlds; a failure changes
    nothing; a success keeps the pointers of both trees coherent; and
    [UnExecute], run later in any equivalent world, finds the endorsement, erases
    its pointers from the endorsed block and from the block of proof, and gives
    back the world before, although the endorsement it erases may be another
    object than the one [Execute] has added. *)
Theorem AddEndorsement_lawful e : known e →
  lawful world_ok (kept hasPayloads getCommands) (AddEndorsement edKey ingKey name settlementInterval e).
Proof.
  intros He. split; cbn [Execute UnExecute AddEndorsement].
  - intros w1 w2 Hok1 Hok2 Ew. pose proof (Execute_ok e w1 He Hok1) as R1. pose proof (Execute_ok e w2 He Hok2) as R2.
    rewrite <- (check_equiv e w1 w2) in R2 by first [apply Hok1|apply Hok2|done].
    destruct (catch _) as [[s|[[c d] b]]| | | | |]; try done.
    + exists false, w1, w2. split_and!; done.
    + destruct R1 as (_ & _ & _ & _ & _ & _ & w1' & E1 & Hok1' & Hp1 & Hb1 & Hk1).
      destruct R2 as (_ & _ & _ & _ & _ & _ & w2' & Ex2 & Hok2' & Hp2 & Hb2 & Hk2).
      exists true, w1', w2'. split_and!; try done.
      by eapply equiv_add; [|exact Ew|exact Hp1|exact Hp2|exact Hb1|exact Hb2].
  - intros w1 w1' w2 Hok1 E Hok2 Ew. pose proof (Execute_ok e w1 He Hok1) as R.
    destruct (catch _) as [[s|[[c d] b]]| | | | |]; try done; [congruence|].
    destruct R as (Hc & Hd & Hb & Gc & Gd & Gb & v & Ev & Hokv & Hp & Hbop & Hk). rewrite E in Ev. injection Ev as <-.
    apply (UnExecute_ok e c d b (mkPtr (next_address (ext w1)) e) w1 w1' w2); try done; [apply Hok1|..].
    + by rewrite (equiv_block _ _ _ Ew), (pop_changed_block _ _ _ _ Hp).
    + by rewrite (equiv_block _ _ _ Ew), (pop_changed_block _ _ _ _ Hp).
    + rewrite (ing_equiv_block _ _ _ (proj2 Ew)). by rewrite (bop_changed_live _ _ _ _ _ Hbop).
    + destruct (ing_block_of _ _ Gb) as (u & Hu & _). by exists u.
Qed.
End inv.

(** An endorsement of block 0 in block 1, proved by a block of the other tree. *)
Module Example_endorsement.
Definition key (h : list Z) : Z := default 9 (head h).
Definition e : Endorsement := mkEndorsement (replicate 32 5) [0] [1] [7].
Notation ing_tree := (BaseBlockTree Z Z unit BtcBlockAddon Z unit).
Notation world := (BaseBlockTree Z Z unit VbkBlockAddon Z (Protecting ing_tree)).
Definition proof_tree : ing_tree :=
  mkTree {[ 7 := mkBlockIndex 0 () 2 false None ∅ false newBtcAddon ]} {[7]} (mkChain 0 [Some 7]) 1 0 false None false true ∅ ∅ [] ().
Definition node (h : Z) (p : option Z) (n : gset Z) : BlockIndex Z unit VbkBlockAddon :=
  mkBlockIndex h () 2 false p n false newVbkAddon.
Definition nodes := [(0, node 0 None {[1]}); (1, node 1 (Some 0) ∅)].
Definition blocks : gmap Z (BlockIndex Z unit VbkBlockAddon) := list_to_map nodes.
Definition w : world :=
  mkTree blocks {[1]} (mkChain 0 [Some 0; Some 1]) 2 0 false None false true ∅ ∅ [] (mkProtecting proof_tree 100).
Definition getCommands (b : unit) (a : VbkBlockAddon) : result (list (CommandGroup world)) := Ok [].

Lemma ed_blocks_wf : wf_store blocks.
Proof.
  assert (∀ k i, blocks !! k = Some i → (k, i) ∈ nodes) as Hin by apply elem_of_list_to_map_2. split.
  - intros k i Hk%Hin. set_unfold in Hk. naive_solver lia.
  - intros k i p Hk%Hin Hp. set_unfold in Hk.
    destruct_or?; simplify_eq/=; eexists; (split; [reflexivity|]); (split; [reflexivity|set_solver]).
  - intros k i c Hk%Hin Hc. set_unfold in Hk.
    destruct_or?; simplify_eq/=; set_unfold in Hc; destruct_or?; simplify_eq/=; eexists; (split; reflexivity).
Qed.

Lemma blocks_empty x i : blocks !! x = Some i → addon i = newVbkAddon ∧ height i <= 1.
Proof.
  intros Hi. apply elem_of_list_to_map_2 in Hi. set_unfold in Hi. destruct_or?; by simplify_eq/=.
Qed.

Lemma none_contained p : ¬ contained w p.
Proof. intros (c & i & Hi & Hp). apply blocks_empty in Hi as [Ei _]. unfold ptrs, pop_of in Hp. rewrite Ei in Hp. by apply (proj1 (elem_of_nil p)) in Hp. Qed.

Lemma w_ok : world_ok key key (eq e) (λ _, True) w.
Proof.
  split; [|done]. split.
  - split; [apply ed_blocks_wf|]. intros k i Hi. apply blocks_empty in Hi as [_ ?]. unfold INT32_MAX. lia.
  - intros x i Hi. apply blocks_empty in Hi as [Ei _]. unfold pop_of. rewrite Ei. repeat constructor.
  - intros x p Hp. exfalso. apply (none_contained p). by exists x.
  - intros p q Hp. by apply none_contained in Hp.
  - intros x i Hi p. apply blocks_empty in Hi as [Ei _]. unfold pop_of. rewrite Ei. cbn.
    split; [by intros ?%not_elem_of_nil|]. by intros [?%none_contained _].
  - intros b u Hu. unfold live in Hu. cbn in Hu.
    destruct (decide (b = 7)) as [->|]; [|by rewrite lookup_singleton_ne in Hu].
    rewrite lookup_singleton_eq in Hu. injection Hu as <-. split; [constructor|]. intros p. cbn.
    split; [by intros ?%not_elem_of_nil|]. by intros [?%none_contained _].
Qed.
End Example_endorsement.

Import Example_endorsement.
Lemma AddEndorsement_lawful_witness :
  world_ok key key (eq e) (λ _, True) w ∧
  (∃ w', AddEndorsement_Execute key key "VBK" 400 e w = Ok (w', true)) ∧
  lawful (world_ok key key (eq e) (λ _, True)) (kept vbk_hasPayloads getCommands) (AddEndorsement key key "VBK" 400 e).
Proof.
  split; [apply w_ok|split; [by eexists|]].
  apply (AddEndorsement_lawful key key "VBK" 400 (eq e)); [|by intros ?? <- <-|done|done|done].
  intros ? <-. split; [repeat constructor; lia|done].
Defined.
