(* ===== verification/PopViews.v ===== *)
(** * Publications of a keystone ([getProtoKeystoneContext],
    [getKeystoneContext] and [ReducedPublicationView] of
    [blockchain/pop/fork_resolution.hpp])

    The score comparison of [PopScore] reads a chain of the protected tree
    through the earliest block of the protecting chain that publishes one of its
    keystones.  [view_context_correct] shows that this is what the two
    loops compute. *)
From Stdlib Require Import String.
From S2P Require Import Prelude Keystone BlockIndex Chain TreeAlgo PayloadsIndex BaseTree PopScore Serde Endorsements PopState BlockAddons AddEndorsement.

Section views.
Context {K H B A P K2 H2 B2 A2 P2 E2 : Type}.
Context `{Countable K, Countable H, Countable P, Countable K2, Countable H2, Countable P2}.
Context `{!PopAddon A}.
Notation ing_tree := (BaseBlockTree K2 H2 B2 A2 P2 E2).
Notation world := (BaseBlockTree K H B A P (Protecting ing_tree)).
Context (edKey : list Z → K) (ingKey : list Z → K2).
(** [getTimestamp] of the headers, and the parameter of the protecting chain. *)
Context (edTime : B → Z) (ingTime : B2 → Z) (EnableTimeAdjustment : bool).
Implicit Types (w : world) (t : ing_tree).

(** A set of pointers: its order is that of the addresses. *)
Record ProtoKeystoneContext := mkPkc {
  pkc_blockHeight : Z;
  timestampOfEndorsedBlock : Z;
  referencedByBlocks : gset K2
}.

(** ** [getKeystoneContext] *)
(** The inner loop: the first later block of the best chain with a later
    time. *)
Fixpoint adjust_loop (fuel : nat) t (time adjusted earliest : Z) : result Z :=
  if adjusted <=? chainHeight (activeChain_ t) then
    match chain_at (activeChain_ t) adjusted with
    | None => Assert "index != nullptr"
    | Some x =>
      i ← deref (blocks_ t) x;
      if time <? ingTime (header i) then Ok (if adjusted <? earliest then adjusted else earliest)
      else
        match fuel with
        | O => OutOfFuel
        | Datatypes.S fuel => next ← cki32 (adjusted + 1); adjust_loop fuel t time next earliest
        end
    end
  else Ok earliest.

Definition publication_step t (time earliest : Z) (btcIndex : K2) : result Z :=
  i ← deref (blocks_ t) btcIndex;
  let endorsementIndex := height i in
  if earliest <=? endorsementIndex then Ok earliest
  else if negb EnableTimeAdjustment || (time <? ingTime (header i)) then Ok endorsementIndex
  else
    next ← cki32 (endorsementIndex + 1);
    adjust_loop (Z.to_nat (chainHeight (activeChain_ t) - endorsementIndex)) t time next earliest.

Definition getKeystoneContext (pkc : ProtoKeystoneContext) t : result KeystoneContext :=
  earliest ← foldM (publication_step t (timestampOfEndorsedBlock pkc)) (elements (referencedByBlocks pkc)) NO_ENDORSEMENT;
  Ok (mkKeystoneContext (pkc_blockHeight pkc) earliest).

(** ** [getProtoKeystoneContext] *)
Definition reference_step (chain : ChainSlice K) w (refs : gset K2) (p : endorsement_ptr) : result (gset K2) :=
  let e := target p in
  match getBlockIndex w (edKey (containingHash e)) with
  | None => Assert "could not find the containing block of an applied endorsement"
  | Some containingBlock =>
    c ← slice_contains (blocks_ w) chain (Some containingBlock);
    if negb c then Ok refs
    else
      match getBlockIndex (ing_of w) (ingKey (blockOfProof e)) with
      | None => Assert "could not find the block of proof of an applied endorsement"
      | Some ind =>
        b ← contains (blocks_ (ing_of w)) (activeChain_ (ing_of w)) (Some ind);
        Ok (if (b : bool) then {[ind]} ∪ refs else refs)
      end
  end.

Definition endorsed_step (chain : ChainSlice K) w (refs : gset K2) (relevantEndorsedBlock : Z) : result (gset K2) :=
  match slice_at chain relevantEndorsedBlock with
  | None => Assert "chain must contain relevantEndorsedBlock"
  | Some index => i ← deref (blocks_ w) index; foldM (reference_step chain w) (endorsedBy (pop_state (addon i))) refs
  end.

Definition getProtoKeystoneContext (keystoneToConsider : Z) (chain : ChainSlice K) (keystoneInterval : Z) w
    : result ProtoKeystoneContext :=
  match slice_tip chain with
  | None => Assert "chain must not be empty"
  | Some tip =>
    highestConnectingBlock ← highestBlockWhichConnectsKeystoneToPrevious keystoneToConsider keystoneInterval;
    ti ← deref (blocks_ w) tip;
    let highestEndorsedBlock := Z.min highestConnectingBlock (height ti) in
    match slice_at chain keystoneToConsider with
    | None => Undef "null keystone block"
    | Some k =>
      ki ← deref (blocks_ w) k;
      refs ← foldM (endorsed_step chain w)
        (seqZ keystoneToConsider (highestEndorsedBlock - keystoneToConsider + 1)) ∅;
      Ok (mkPkc keystoneToConsider (u32 (i32 (edTime (header ki)))) refs)
    end
  end.

(** ** [ReducedPublicationView] *)
Definition newView (chain : ChainSlice K) (config : fr_config) w : result ReducedPublicationView :=
  match slice_first chain, slice_tip chain with
  | Some first, Some tip =>
    fi ← deref (blocks_ w) first;
    firstKeystoneHeight ← firstKeystoneAfter (height fi) (getKeystoneInterval config);
    ti ← deref (blocks_ w) tip;
    lastKeystoneHeight ← highestKeystoneAtOrBefore (height ti) (getKeystoneInterval config);
    vassert (0 <? getKeystoneInterval config) "keystoneInterval > 0";;
    Ok (mkView config firstKeystoneHeight lastKeystoneHeight (λ blockHeight,
      pkc ← getProtoKeystoneContext blockHeight chain (getKeystoneInterval config) w;
      getKeystoneContext pkc (ing_of w)))
  | _, _ => Assert "Protected tree should be bootstrapped"
  end.

(** ** What a publication is

    [b] publishes at its own height or, with time adjustment, at the height of
    a block of the best chain that is not before [b] and later than [time]. *)
Definition later t (time h : Z) : Prop := ∃ x i, chain_at (activeChain_ t) h = Some x ∧
  blocks_ t !! x = Some i ∧ time < ingTime (header i).

Definition publishes t (time : Z) (b : K2) (h : Z) : Prop := ∃ i, blocks_ t !! b = Some i ∧
  height i <= h ∧ (EnableTimeAdjustment = false ∨ later t time h).

(** The best chain holds a block at every height up to its tip. *)
Record chain_full t : Prop := {
  cf_at h : startHeight_ (activeChain_ t) <= h <= chainHeight (activeChain_ t) →
    ∃ x i, chain_at (activeChain_ t) h = Some x ∧ blocks_ t !! x = Some i ∧ height i = h;
  cf_max : 0 <= startHeight_ (activeChain_ t) ∧ chainHeight (activeChain_ t) < INT32_MAX
}.

Definition on_best t (b : K2) : Prop := ∃ i, blocks_ t !! b = Some i ∧ chain_at (activeChain_ t) (height i) = Some b.

Lemma on_best_height t b i : chain_full t → on_best t b → blocks_ t !! b = Some i →
  startHeight_ (activeChain_ t) <= height i <= chainHeight (activeChain_ t).
Proof.
  intros _ (j & Hj & Hc) Hi. assert (j = i) as -> by congruence.
  apply chain_at_inv in Hc as (n & -> & Hn). apply lookup_lt_Some in Hn. unfold chainHeight. lia.
Qed.

Lemma adjust_ok fuel t time adjusted earliest : chain_full t → startHeight_ (activeChain_ t) <= adjusted →
  chainHeight (activeChain_ t) + 1 - adjusted <= Z.of_nat fuel → adjusted <= INT32_MAX →
  ∃ r, adjust_loop fuel t time adjusted earliest = Ok r ∧ r <= earliest ∧
    (r = earliest ∨ adjusted <= r ∧ later t time r) ∧ ∀ h, adjusted <= h → later t time h → r <= h.
Proof.
  intros Hf. pose proof (cf_max _ Hf) as [Hst Hmax]. revert adjusted. induction fuel as [|fuel IH]; intros adjusted Hs Hn Ha;
    cbn [adjust_loop]; destruct (Z.leb_spec adjusted (chainHeight (activeChain_ t))) as [Hle|Hgt]; [lia| | |].
  1, 3: exists earliest; split_and!; [done|lia|by left|]; intros h Hh (x & i & Hx & _);
    apply chain_at_inv in Hx as (n & -> & Hx); apply lookup_lt_Some in Hx; unfold chainHeight in *; lia.
  destruct (cf_at _ Hf adjusted) as (x & i & Hx & Hi & Ehi); [lia|]. rewrite Hx, (deref_eq _ _ _ Hi). cbn [mbind result_bind].
  destruct (Z.ltb_spec time (ingTime (header i))) as [Hlt|Hge].
  - assert (later t time adjusted) as Hl by (by exists x, i). destruct (Z.ltb_spec adjusted earliest).
    + exists adjusted. split_and!; [done|lia|by right|lia].
    + exists earliest. split_and!; [done|lia|by left|lia].
  - rewrite ckS_ok by (unfold INT32_MAX in *; lia). cbn [mbind result_bind].
    destruct (IH (adjusted + 1)) as (r & -> & Hr & Hor & Hall); [lia..|]. exists r. split_and!; [done|done| |].
    + destruct Hor as [?|[? ?]]; [by left|right; split; [lia|done]].
    + intros h Hh Hl. apply Hall; [|done]. assert (h ≠ adjusted); [|lia]. intros ->.
      destruct Hl as (y & j & Hy & Hj & ?). rewrite Hx in Hy. injection Hy as <-. rewrite Hi in Hj. injection Hj as <-. lia.
Qed.

Lemma step_ok t time earliest b : chain_full t → on_best t b → earliest <= NO_ENDORSEMENT →
  ∃ r, publication_step t time earliest b = Ok r ∧ r <= earliest ∧ (r = earliest ∨ publishes t time b r) ∧
    ∀ h, publishes t time b h → r <= h.
Proof.
  intros Hf Hb He. destruct Hb as (i & Hi & Hc). unfold publication_step. rewrite (deref_eq _ _ _ Hi). cbn [mbind result_bind].
  destruct (on_best_height t b i Hf) as [Hlo Hhi]; [by exists i|done|]. pose proof (cf_max _ Hf) as [? ?].
  destruct (Z.leb_spec earliest (height i)) as [Hle|Hgt].
  { exists earliest. split_and!; [done|lia|by left|]. intros h (j & Hj & ? & _). rewrite Hi in Hj. injection Hj as <-. lia. }
  destruct (negb EnableTimeAdjustment || (time <? ingTime (header i))) eqn:Eadj.
  { exists (height i). split_and!; [done|lia| |].
    - right. exists i. split_and!; [done|lia|]. apply orb_true_iff in Eadj as [Ea|Ea%Z.ltb_lt].
      + left. by destruct EnableTimeAdjustment.
      + right. by exists b, i.
    - intros h (j & Hj & ? & _). rewrite Hi in Hj. injection Hj as <-. lia. }
  apply orb_false_iff in Eadj as [Ea Et%Z.ltb_ge]. rewrite ckS_ok by (unfold INT32_MAX in *; lia). cbn [mbind result_bind].
  destruct (adjust_ok (Z.to_nat (chainHeight (activeChain_ t) - height i)) t time (height i + 1) earliest Hf)
    as (r & -> & Hr & Hor & Hall); [lia|lia|lia|]. exists r. split_and!; [done|done| |].
  - destruct Hor as [?|[? ?]]; [by left|]. right. exists i. split_and!; [done|lia|by right].
  - intros h (j & Hj & Hh & Hl). rewrite Hi in Hj. injection Hj as <-. destruct Hl as [?|Hl]; [by destruct EnableTimeAdjustment|].
    apply Hall; [|done]. assert (h ≠ height i); [|lia]. intros ->. destruct Hl as (y & j & Hy & Hj & ?).
    rewrite Hc in Hy. injection Hy as <-. rewrite Hi in Hj. injection Hj as <-. lia.
Qed.

(** The minimum over all references, whatever their order. *)
Lemma getKeystoneContext_ok pkc t : chain_full t → (∀ b, b ∈ referencedByBlocks pkc → on_best t b) →
  ∃ c, getKeystoneContext pkc t = Ok c ∧ kc_blockHeight c = pkc_blockHeight pkc ∧
    (firstBlockPublicationHeight c = NO_ENDORSEMENT ∨
     ∃ b, b ∈ referencedByBlocks pkc ∧ publishes t (timestampOfEndorsedBlock pkc) b (firstBlockPublicationHeight c)) ∧
    ∀ b h, b ∈ referencedByBlocks pkc → publishes t (timestampOfEndorsedBlock pkc) b h → firstBlockPublicationHeight c <= h.
Proof.
  intros Hf Hbest. unfold getKeystoneContext. set (time := timestampOfEndorsedBlock pkc).
  destruct (foldM_inv (publication_step t time) (λ seen r, r <= NO_ENDORSEMENT ∧
    (r = NO_ENDORSEMENT ∨ ∃ b, b ∈ seen ∧ publishes t time b r) ∧ ∀ b h, b ∈ seen → publishes t time b h → r <= h)
    (elements (referencedByBlocks pkc)) NO_ENDORSEMENT) as (r & -> & Hle & Hor & Hall).
  - split_and!; [done|by left|]. by intros b h ?%not_elem_of_nil.
  - intros seen b r Hb%elem_of_elements (Hle & Hor & Hall).
    destruct (step_ok t time r b Hf (Hbest b Hb) Hle) as (r' & -> & Hr & Hor' & Hall'). exists r'. split_and!; [done|lia| |].
    + destruct Hor' as [->|?]; [destruct Hor as [?|(b' & ? & ?)]; [by left|]|]; right; [exists b'|exists b]; set_solver.
    + intros b' h [Hb'| ->%list_elem_of_singleton]%elem_of_app Hp; [|by apply Hall']. specialize (Hall b' h Hb' Hp). lia.
  - cbn [mbind result_bind]. eexists. split; [done|]. split_and!; [done| |].
    + destruct Hor as [?|(b & ?%elem_of_elements & ?)]; [by left|right; by exists b].
    + intros b h Hb. apply Hall. by apply elem_of_elements.
Qed.

(** ** The references of a keystone *)
Definition in_slice (chain : ChainSlice K) w (k : K) : Prop :=
  ∃ i, blocks_ w !! k = Some i ∧ slice_at chain (height i) = Some k.

(** An endorsement counts when its containing block is on the chain and its
    block of proof on the best chain. *)
Definition counts (chain : ChainSlice K) w (p : endorsement_ptr) (b : K2) : Prop :=
  in_slice chain w (edKey (containingHash (target p))) ∧ b = ingKey (blockOfProof (target p)) ∧ on_best (ing_of w) b.

(** The endorsements of the blocks between the heights [lo] and [hi]. *)
Definition refers (chain : ChainSlice K) w (lo hi : Z) (b : K2) : Prop := ∃ g x i p, lo <= g <= hi ∧
  slice_at chain g = Some x ∧ blocks_ w !! x = Some i ∧ p ∈ endorsedBy (pop_state (addon i)) ∧ counts chain w p b.

(** Both blocks of every endorsement that is pointed to are in the trees. *)
Definition pointers_ok w : Prop := ∀ x i p, blocks_ w !! x = Some i → p ∈ endorsedBy (pop_state (addon i)) →
  getBlockIndex w (edKey (containingHash (target p))) = Some (edKey (containingHash (target p))) ∧
  getBlockIndex (ing_of w) (ingKey (blockOfProof (target p))) = Some (ingKey (blockOfProof (target p))).

(** The slice holds a block at every height from its first to its tip. *)
Record slice_full (chain : ChainSlice K) w (tip : K) (ti : BlockIndex K B A) : Prop := {
  sf_tip : slice_tip chain = Some tip ∧ blocks_ w !! tip = Some ti;
  sf_first : ∃ first fi, slice_first chain = Some first ∧ blocks_ w !! first = Some fi ∧ height fi = firstHeight_ chain;
  sf_at h : firstHeight_ chain <= h <= height ti → ∃ x i, slice_at chain h = Some x ∧ blocks_ w !! x = Some i;
  sf_max : 0 <= firstHeight_ chain ∧ firstHeight_ chain <= height ti <= INT32_MAX
}.

Lemma block_exists {K' B' A' H' P' E'} `{Countable K', Countable H', Countable P'} (t : BaseBlockTree K' H' B' A' P' E') k :
  getBlockIndex t k = Some k → ∃ i, blocks_ t !! k = Some i.
Proof. unfold getBlockIndex. destruct (blocks_ t !! k) as [i|]; [|done]. by exists i. Qed.

Lemma reference_ok chain w x i p refs : pointers_ok w → blocks_ w !! x = Some i → p ∈ endorsedBy (pop_state (addon i)) →
  ∃ refs', reference_step chain w refs p = Ok refs' ∧ ∀ b, b ∈ refs' ↔ b ∈ refs ∨ counts chain w p b.
Proof.
  intros Hp Hx Hin. destruct (Hp x i p Hx Hin) as [Hc Hb]. unfold reference_step. rewrite Hc, Hb.
  destruct (block_exists _ _ Hc) as [ci Hci]. destruct (block_exists _ _ Hb) as [bi Hbi].
  cbn [slice_contains]. rewrite (deref_eq _ _ _ Hci). cbn [mbind result_bind].
  case_bool_decide as Es; cbn [negb].
  - rewrite (contains_eq _ _ _ _ Hbi). cbn [mbind result_bind]. eexists. split; [done|]. intros b.
    assert (counts chain w p b ↔ b = ingKey (blockOfProof (target p)) ∧
      chain_at (activeChain_ (ing_of w)) (height bi) = Some (ingKey (blockOfProof (target p)))) as ->.
    { split.
      - intros (_ & -> & j & Hj & ?). split; [done|]. congruence.
      - intros [-> ?]. split_and!; [by exists ci|done|by exists bi]. }
    case_bool_decide; set_solver.
  - exists refs. split; [done|]. intros b. split; [by left|]. intros [?|((j & Hj & ?) & _)]; [done|]. congruence.
Qed.

Lemma references_ok chain w x i refs : pointers_ok w → blocks_ w !! x = Some i →
  ∃ refs', foldM (reference_step chain w) (endorsedBy (pop_state (addon i))) refs = Ok refs' ∧
    ∀ b, b ∈ refs' ↔ b ∈ refs ∨ ∃ p, p ∈ endorsedBy (pop_state (addon i)) ∧ counts chain w p b.
Proof.
  intros Hp Hx. apply (foldM_inv _ (λ seen r, ∀ b, b ∈ r ↔ b ∈ refs ∨ ∃ p, p ∈ seen ∧ counts chain w p b)).
  - intros b. split; [by left|]. intros [?|(p & ?%not_elem_of_nil & _)]; done.
  - intros seen p r Hin Hr. destruct (reference_ok chain w x i p r Hp Hx Hin) as (r' & -> & Hr'). exists r'. split; [done|].
    intros b. rewrite Hr', Hr. setoid_rewrite elem_of_app. setoid_rewrite list_elem_of_singleton. naive_solver.
Qed.

Lemma getProtoKeystoneContext_ok chain w tip ti k ki : slice_full chain w tip ti → pointers_ok w →
  firstHeight_ chain <= k <= height ti → interval_ok ki → k mod ki = 0 → k + ki + 1 <= INT32_MAX →
  ∃ pkc x i, getProtoKeystoneContext k chain ki w = Ok pkc ∧ slice_at chain k = Some x ∧ blocks_ w !! x = Some i ∧
    pkc_blockHeight pkc = k ∧ timestampOfEndorsedBlock pkc = u32 (i32 (edTime (header i))) ∧
    ∀ b, b ∈ referencedByBlocks pkc ↔ refers chain w k (Z.min (k + ki + 1) (height ti)) b.
Proof.
  intros Hs Hp Hk Hi Hm Hmax. pose proof (sf_tip _ _ _ _ Hs) as [Ht Hti]. pose proof (sf_max _ _ _ _ Hs) as [? ?].
  unfold getProtoKeystoneContext. rewrite Ht, highestConnecting_eq by (done || unfold height_ok, INT32_MAX in *; lia).
  cbn [mbind result_bind]. rewrite (deref_eq _ _ _ Hti). cbn [mbind result_bind].
  destruct (sf_at _ _ _ _ Hs k Hk) as (x & i & Hx & Hxi). rewrite Hx, (deref_eq _ _ _ Hxi). cbn [mbind result_bind].
  set (hi := Z.min (k + ki + 1) (height ti)).
  destruct (foldM_inv (endorsed_step chain w) (λ seen r, ∀ b, b ∈ r ↔ ∃ g x i p, g ∈ seen ∧ slice_at chain g = Some x ∧
    blocks_ w !! x = Some i ∧ p ∈ endorsedBy (pop_state (addon i)) ∧ counts chain w p b) (seqZ k (hi - k + 1)) ∅) as (refs & -> & Hr).
  - intros b. split; [set_solver|]. intros (g & _ & _ & _ & ?%not_elem_of_nil & _). done.
  - intros seen g r Hg%elem_of_seqZ Hr. unfold endorsed_step.
    destruct (sf_at _ _ _ _ Hs g) as (y & j & Hy & Hj); [unfold hi in Hg; lia|]. rewrite Hy, (deref_eq _ _ _ Hj). cbn [mbind result_bind].
    destruct (references_ok chain w y j r Hp Hj) as (r' & -> & Hr'). exists r'. split; [done|]. intros b. rewrite Hr', Hr. split.
    + intros [(g' & x' & i' & p & ? & ?)|(p & ? & ?)]; [exists g', x', i', p|exists g, y, j, p]; set_solver.
    + intros (g' & x' & i' & p & [?| ->%list_elem_of_singleton]%elem_of_app & ? & ? & ? & ?); [left; by exists g', x', i', p|].
      right. exists p. split; [congruence|done].
  - cbn [mbind result_bind]. do 3 eexists. do 3 (split; [done|]). do 2 (split; [done|]). cbn [referencedByBlocks]. intros b.
    rewrite Hr. unfold refers. setoid_rewrite elem_of_seqZ. split; intros (g & x' & i' & p & ? & ?); exists g, x', i', p; (split; [lia|done]).
Qed.
End views.

(** ** Properties *)
Section props.
Context {K H B A P K2 H2 B2 A2 P2 E2 : Type}.
Context `{Countable K, Countable H, Countable P, Countable K2, Countable H2, Countable P2}.
Context `{!PopAddon A}.
Notation ing_tree := (BaseBlockTree K2 H2 B2 A2 P2 E2).
Notation world := (BaseBlockTree K H B A P (Protecting ing_tree)).
Context (edKey : list Z → K) (ingKey : list Z → K2) (edTime : B → Z) (ingTime : B2 → Z) (EnableTimeAdjustment : bool).
Implicit Types w : world.

(** C36: the view of a chain gives the score comparison, for every keystone of
    the chain, the height of its first publication: the least height of the best
    protecting chain, not before a block of proof [b] and later than the keystone
    (when times are adjusted), over the blocks of proof [b] on that chain of the
    endorsements, contained in the chain, of the keystone and of the blocks that
    connect it to the next one; and [NO_ENDORSEMENT] when there is none.  The
    order in which the set of pointers is visited does not matter. *)
Theorem view_context_correct config chain w tip ti k :
  let ki := getKeystoneInterval config in
  let refs := refers edKey ingKey chain w k (Z.min (k + ki + 1) (height ti)) in
  slice_full chain w tip ti → pointers_ok edKey ingKey w → chain_full (ing_of w) →
  interval_ok ki → height ti + ki + 1 <= INT32_MAX →
  ∃ v, newView edKey ingKey edTime ingTime EnableTimeAdjustment chain config w = Ok v ∧
    (firstKeystone v <= k <= lastKeystone v → k mod ki = 0 →
     ∃ c x i, rpv_context v k = Ok c ∧ slice_at chain k = Some x ∧ blocks_ w !! x = Some i ∧
       let pub := publishes ingTime EnableTimeAdjustment (ing_of w) (u32 (i32 (edTime (header i)))) in
       kc_blockHeight c = k ∧ (∀ b h, refs b → pub b h → firstBlockPublicationHeight c <= h) ∧
       ((∃ b, refs b ∧ pub b (firstBlockPublicationHeight c)) ∨
        firstBlockPublicationHeight c = NO_ENDORSEMENT ∧ ∀ b h, refs b → pub b h → NO_ENDORSEMENT <= h)).
Proof.
  intros ki refs Hs Hp Hf Hi Hmax. pose proof (sf_tip _ _ _ _ Hs) as [Ht Hti]. pose proof (sf_max _ _ _ _ Hs) as [? ?].
  destruct (sf_first _ _ _ _ Hs) as (f & fi & Hfst & Hfi & Ehf). unfold newView. fold ki.
  rewrite Hfst, Ht, (deref_eq _ _ _ Hfi). cbn [mbind result_bind].
  rewrite firstKeystoneAfter_eq by (unfold interval_ok, height_ok, INT32_MAX in *; (done || lia)). cbn [mbind result_bind].
  rewrite (deref_eq _ _ _ Hti). cbn [mbind result_bind].
  rewrite highestKeystoneAtOrBefore_eq by (done || unfold height_ok; lia). cbn [mbind result_bind].
  destruct (Z.ltb_spec 0 ki); [|unfold interval_ok in Hi; lia]. cbn [vassert mbind result_bind].
  eexists. split; [done|]. cbn [firstKeystone lastKeystone rpv_context]. intros [Hlo Hhi] Hm.
  pose proof (Z.mod_pos_bound (height fi) ki ltac:(lia)). pose proof (Z.mod_pos_bound (height ti) ki ltac:(lia)).
  destruct (getProtoKeystoneContext_ok edKey ingKey edTime chain w tip ti k ki Hs Hp) as (pkc & x & i & -> & Hx & Hxi & Ekb & Ets & Hrefs);
    [lia|done|done|lia|]. cbn [mbind result_bind].
  destruct (getKeystoneContext_ok ingTime EnableTimeAdjustment pkc (ing_of w) Hf) as (c & -> & Ec & Hor & Hall).
  { intros b Hb%Hrefs. by destruct Hb as (? & ? & ? & ? & _ & _ & _ & _ & _ & _ & ?). }
  exists c, x, i. split_and!; [done|done|done|congruence|..].
  - intros b h Hb. rewrite <- Ets. apply Hall. by apply Hrefs.
  - rewrite <- Ets. destruct Hor as [E|(b & Hb%Hrefs & Hpub)]; [right|left; by exists b]. split; [done|].
    intros b h Hb Hpub. rewrite <- E. apply (Hall b); [by apply Hrefs|done].
Qed.
End props.

(** The keystone at height 2, with the time 10, is endorsed by block 3 and
    published in block 7, whose time is 5; block 8 is the first with a later
    time. *)
Module Example_views.
Definition key (h : list Z) : Z := default 99 (head h).
Definition p : endorsement_ptr := mkPtr 1 (mkEndorsement [1] [2] [3] [7]).
Notation ing_tree := (BaseBlockTree Z Z Z BtcBlockAddon Z unit).
Notation world := (BaseBlockTree Z Z Z VbkBlockAddon Z (Protecting ing_tree)).
Definition ing_node (h time : Z) (q : option Z) (n : gset Z) : BlockIndex Z Z BtcBlockAddon :=
  mkBlockIndex h time 2 false q n false newBtcAddon.
Definition ing_nodes := [(7, ing_node 0 5 None {[8]}); (8, ing_node 1 50 (Some 7) ∅)].
Definition t : ing_tree := mkTree (list_to_map ing_nodes) {[8]} (mkChain 0 [Some 7; Some 8]) 2 0 false None false true ∅ ∅ [] ().
Definition node (h : Z) (q : option Z) (n : gset Z) (l : list endorsement_ptr) : BlockIndex Z Z VbkBlockAddon :=
  mkBlockIndex h 10 2 false q n false (set_pop_state (mkPopState [] l) newVbkAddon).
Definition nodes := [(0, node 0 None {[1]} []); (1, node 1 (Some 0) {[2]} []); (2, node 2 (Some 1) {[3]} [p]); (3, node 3 (Some 2) ∅ [])].
Definition best : Chain Z := mkChain 0 [Some 0; Some 1; Some 2; Some 3].
Definition w : world := mkTree (list_to_map nodes) {[3]} best 4 0 false None false true ∅ ∅ [] (mkProtecting t 100).
Definition config : fr_config := mkFrConfig 2 11 [100; 100; 95; 89; 80; 69; 56; 40; 21].
Definition slice : ChainSlice Z := mkSlice best 0 4.

Lemma w_pointers : pointers_ok key key w.
Proof.
  intros x i q Hx Hq. apply elem_of_list_to_map_2 in Hx. set_unfold in Hx.
  destruct_or?; simplify_eq/=; set_unfold in Hq; destruct_or?; by simplify_eq.
Qed.

Lemma w_slice : slice_full slice w 3 (node 3 (Some 2) ∅ []).
Proof.
  split; [done|by exists 0, (node 0 None {[1]} [])| |cbn; unfold INT32_MAX; lia].
  intros h Hh. change (0 <= h <= 3) in Hh. assert (h = 0 ∨ h = 1 ∨ h = 2 ∨ h = 3) as Hc by lia. destruct_or! Hc; subst h; by do 2 eexists.
Qed.

Lemma t_chain : chain_full t.
Proof.
  split; [|vm_compute; done]. intros h Hh. change (0 <= h <= 1) in Hh. assert (h = 0 ∨ h = 1) as Hc by lia.
  destruct_or! Hc; subst h; by do 2 eexists.
Qed.
End Example_views.

Import Example_views.
Lemma view_context_correct_witness :
  ∃ v, newView key key (λ time, time) (λ time, time) true slice config w = Ok v ∧
    (firstKeystone v <= 2 <= lastKeystone v → 2 mod 2 = 0 →
     ∃ c x i, rpv_context v 2 = Ok c ∧ slice_at slice 2 = Some x ∧ blocks_ w !! x = Some i ∧
       let pub := publishes (λ time, time) true (ing_of w) (u32 (i32 (header i))) in
       let refs := refers key key slice w 2 3 in
       kc_blockHeight c = 2 ∧ (∀ b h, refs b → pub b h → firstBlockPublicationHeight c <= h) ∧
       ((∃ b, refs b ∧ pub b (firstBlockPublicationHeight c)) ∨
        firstBlockPublicationHeight c = NO_ENDORSEMENT ∧ ∀ b h, refs b → pub b h → NO_ENDORSEMENT <= h)).
Proof.
  apply (view_context_correct key key (λ time, time) (λ time, time) true config slice w 3 (node 3 (Some 2) ∅ []) 2);
    [apply w_slice|apply w_pointers|apply t_chain|done|done].
Defined.

Lemma example_publication :
  (v ← newView key key (λ time, time) (λ time, time) true slice config w; rpv_context v 2) = Ok (mkKeystoneContext 2 1).
Proof. by vm_compute. Qed.
