(* ===== verification/ForkResolution.v ===== *)
(** * Fork resolution of a POP aware tree
    ([PopAwareForkResolutionComparator] of [blockchain/pop/fork_resolution.hpp])

    The comparator runs the state machine of [PopStateMachine] on the protected
    tree and compares the POP scores of the active chain and of a candidate.  The
    protecting tree defers its own fork resolution meanwhile: a guard
    ([DeferForkResolutionGuard]) is a scope, its destructor runs when the scope is
    left.  [isValid] never aborts (a failed block short-cuts its assertion), so
    the predicate given to [unapplyWhile] is total. *)
From Stdlib Require Import String.
From S2P Require Import Prelude Keystone BlockIndex Chain TreeAlgo PayloadsIndex BaseTree Commands PopStateMachine PopScore Serde Endorsements PopState BlockAddons AddEndorsement PopViews.

Inductive PopFrOutcome :=
| UNKNOWN | CANDIDATE_IS_TIP | CANDIDATE_INVALID_CHAIN | CANDIDATE_INVALID_PAYLOADS
| CANDIDATE_PART_OF_ACTIVE_CHAIN | CANDIDATE_IS_TIP_SUCCESSOR | TIP_IS_FINAL
| BOTH_DONT_CROSS_KEYSTONE_BOUNDARY | CANDIDATE_INVALID_INDEPENDENTLY | HIGHER_POP_SCORE.

Section comparator.
Context {K H B A P K2 H2 B2 A2 P2 E2 : Type}.
Context `{Countable K, Countable H, Countable P, Countable K2, Countable H2, Countable P2}.
Context `{BlockAddon A, !PopAddon A, BlockAddon A2}.
Notation ing_tree := (BaseBlockTree K2 H2 B2 A2 P2 E2).
Notation world := (BaseBlockTree K H B A P (Protecting ing_tree)).
Context `{HK : !TreeHooks K H B A P (Protecting ing_tree), HK2 : !TreeHooks K2 H2 B2 A2 P2 E2}.
Context (hasPayloads : A → bool) (getCommands : B → A → result (list (CommandGroup world))).
Context (edKey : list Z → K) (ingKey : list Z → K2).
Context (edTime : B → Z) (ingTime : B2 → Z) (EnableTimeAdjustment : bool) (config : fr_config).
Implicit Types w : world.

(** A scope with a guard of the protecting tree. *)
Definition with_guard {X} (scope : world → result (world * X)) (w : world) : result (world * X) :=
  r ← scope (set_ing (deferForkResolution (ing_of w)) w);
  t ← continueForkResolution (ing_of r.1);
  Ok (set_ing t r.1, r.2).

Definition guard_override (bestChain : option K2) (w : world) : result world :=
  t ← overrideDeferredForkResolution bestChain (ing_of w); Ok (set_ing t w).

Definition protecting_tip (w : world) : option K2 := chain_tip (activeChain_ (ing_of w)).

Definition cmp_setState (to : K) (w : world) : result (world * bool) :=
  match chain_tip (activeChain_ w) with
  | None => Assert "should be bootstrapped"
  | Some currentActive =>
    i ← deref (blocks_ w) currentActive;
    h ← cki32 (height i + 1);
    root ← getRoot w;
    ri ← deref (blocks_ w) root;
    n ← cki32 (height ri + i32 (appliedBlockCount w));
    vassert (h =? n) "the tree must have the best chain applied";;
    if bool_decide (currentActive = to) then Ok (w, true)
    else
      with_guard (λ w,
        let originalTip := protecting_tip w in
        r ← sm_setState hasPayloads getCommands currentActive to w;
        if (r.2 : bool) then Ok (r.1, true)
        else w ← guard_override originalTip r.1; Ok (w, false)) w
  end.

Definition unapply_slice (s : ChainSlice K) (w : world) : result world :=
  vassert (negb (size_ s =? 0)) "!chain.empty()";;
  match slice_tip s, slice_first s with
  | Some tip, Some first => unapply hasPayloads getCommands tip first w
  | _, _ => Undef "null block in the slice"
  end.

Definition unapplyWhile_chain (c : Chain K) (pred : K → world → bool) (w : world) : result (world * K) :=
  match chain_tip c, chain_first c with
  | Some tip, Some first => unapplyWhile hasPayloads getCommands tip first pred w
  | _, _ => Undef "null block in the chain"
  end.

(** [!index.isValid(BLOCK_CAN_BE_APPLIED)] *)
Definition uncertain (index : K) (w : world) : bool :=
  match blocks_ w !! index with
  | Some i => match isValid BLOCK_CAN_BE_APPLIED i with Ok v => negb v | _ => false end
  | None => false
  end.

(** The candidate is on top of the best tip. *)
Definition compare_successor (bestTip candidate : K) (w : world) : result (world * (Z * PopFrOutcome)) :=
  let originalProtectingTip := protecting_tip w in
  with_guard (λ w,
    r ← apply hasPayloads getCommands bestTip candidate w;
    if (r.2 : bool) then Ok (r.1, (-1, CANDIDATE_IS_TIP_SUCCESSOR))
    else w ← guard_override originalProtectingTip r.1; Ok (w, (1, CANDIDATE_INVALID_PAYLOADS))) w.

(** Chain B has the better score: it is kept when it is valid without A. *)
Definition keep_candidate (chainA : ChainSlice K) (chainB : Chain K) (originalProtectingTip : option K2) (result_ : Z)
    (w : world) : result (world * (Z * PopFrOutcome)) :=
  with_guard (λ w,
    r ← unapplyWhile_chain chainB uncertain w;
    let '(w, chainBValidFrom) := r in
    w ← unapply_slice chainA w;
    match chain_tip chainB, chain_first chainB, slice_first chainA, slice_tip chainA with
    | Some tipB, Some firstB, Some firstA, Some tipA =>
      r ← apply hasPayloads getCommands chainBValidFrom tipB w;
      if (r.2 : bool) then Ok (r.1, (result_, HIGHER_POP_SCORE))
      else
        w ← unapply hasPayloads getCommands chainBValidFrom firstB r.1;
        r ← apply hasPayloads getCommands firstA tipA w;
        vassert r.2 "chainA as a former best chain should be valid";;
        w ← guard_override originalProtectingTip r.1;
        Ok (w, (1, CANDIDATE_INVALID_INDEPENDENTLY))
    | _, _, _, _ => Undef "null block in a chain"
    end) w.

(** Both chains are applied, and the views are compared. *)
Definition compare_chains (currentBest : Chain K) (bestTip candidate : K) (forkHeight : Z) (w : world)
    : result (world * (Z * PopFrOutcome)) :=
  let originalProtectingTip := protecting_tip w in
  chainA ← newSlice currentBest forkHeight;
  chainB ← newChain (blocks_ w) forkHeight (Some candidate);
  vassert (negb (bool_decide (slice_first chainA = None)) && bool_decide (slice_first chainA = chain_first chainB))
    "chains start at the same block";;
  vassert (bool_decide (slice_tip chainA = Some bestTip)) "chainA.tip() == bestTip";;
  r ← with_guard (λ w,
    r ← apply_chain hasPayloads getCommands chainB w;
    if (r.2 : bool) then Ok r
    else w ← guard_override originalProtectingTip r.1; Ok (w, false)) w;
  let w := r.1 in
  if negb r.2 then Ok (w, (1, CANDIDATE_INVALID_PAYLOADS))
  else
    viewA ← newView edKey ingKey edTime ingTime EnableTimeAdjustment chainA config w;
    sliceB ← newSlice chainB (startHeight_ chainB);
    viewB ← newView edKey ingKey edTime ingTime EnableTimeAdjustment sliceB config w;
    result_ ← comparePopScoreImpl viewA viewB;
    if 0 <=? result_ then
      r ← with_guard (λ w,
        w ← unapply_chain hasPayloads getCommands chainB w;
        w ← guard_override originalProtectingTip w;
        Ok (w, ())) w;
      Ok (r.1, (result_, HIGHER_POP_SCORE))
    else keep_candidate chainA chainB originalProtectingTip result_ w.

Definition comparePopScore (candidate : K) (w : world) : result (world * (Z * PopFrOutcome)) :=
  ci ← deref (blocks_ w) candidate;
  valid ← isValid BLOCK_VALID_TREE ci;
  if negb valid then Ok (w, (1, CANDIDATE_INVALID_CHAIN))
  else
    let currentBest := activeChain_ w in
    match chain_tip currentBest with
    | None => Assert "must be bootstrapped"
    | Some bestTip =>
      if bool_decide (bestTip = candidate) then Ok (w, (1, CANDIDATE_IS_TIP))
      else
        bi ← deref (blocks_ w) bestTip;
        if finalized bi && (height ci <=? height bi) then Ok (w, (1, TIP_IS_FINAL))
        else
          onActive ← contains (blocks_ w) currentBest (Some candidate);
          if (onActive : bool) then Ok (w, (1, CANDIDATE_PART_OF_ACTIVE_CHAIN))
          else
            a ← getAncestor (blocks_ w) candidate (height bi);
            if bool_decide (a = Some bestTip) then compare_successor bestTip candidate w
            else
              let ki := getKeystoneInterval config in
              fork ← findFork (blocks_ w) currentBest (Some candidate);
              match fork with
              | None => Assert "all pairs of chains must have a fork point"
              | Some fork =>
                fi ← deref (blocks_ w) fork;
                next ← cki32 (height fi + 1);
                nextFinal ← match chain_at currentBest next with
                            | None => Ok false
                            | Some n => ni ← deref (blocks_ w) n; Ok (finalized ni)
                            end;
                if (nextFinal : bool) then Ok (w, (1, TIP_IS_FINAL))
                else
                  acrossedA ← isCrossedKeystoneBoundary (height fi) (height bi) ki;
                  acrossedB ← isCrossedKeystoneBoundary (height fi) (height ci) ki;
                  if negb acrossedA && negb acrossedB then Ok (w, (0, BOTH_DONT_CROSS_KEYSTONE_BOUNDARY))
                  else compare_chains currentBest bestTip candidate (height fi) w
              end
    end.
End comparator.
