(* ===== verification/VbkTree.v ===== *)
(** * The VeriBlock tree ([blockchain/pop/vbk_block_tree.cpp],
    [commands/vbk_command_group_store.cpp] and [payloadToCommands] of
    [commands.cpp] for it)

    [VbkBlockTree] is the proof-of-work tree of VeriBlock headers with the VTBs
    its blocks contain; the comparator [cmp_] owns the Bitcoin tree, which is
    [ing_of] of the world.  The operations below call virtual functions through
    the class [TreeHooks]; [vbk_hooks] are those of [VbkBlockTree], to a given
    depth of nested calls.  [getVTB] is the storage of payloads. *)
From Stdlib Require Import String.
From S2P Require Import Prelude BlockIndex Chain TreeAlgo PayloadsIndex BaseTree TreeInv TreeStorage BlockTree Commands PopStateMachine PopScore Serde Address Blocks Payloads Endorsements PopState BlockAddons StoredAddons MerklePaths StatelessValidation PowTrees AddBlock AddEndorsement Recovery PopViews ForkResolution.

(** [min_or_default] *)
Definition min_or_default (l : list Z) (default_ : Z) : Z :=
  match l with [] => default_ | x :: l => foldl Z.min x l end.

Definition newVbkHeader : Vbk.VbkBlock :=
  Vbk.mkVbkBlock 0 0 (repeat 0 12) (repeat 0 9) (repeat 0 9) (repeat 0 16) 0 0 0.

Notation btc_tree := (BaseBlockTree (list Z) (list Z) Btc.BtcBlock BtcBlockAddon (list Z) unit).
Notation vbk_tree := (BaseBlockTree (list Z) (list Z) Vbk.VbkBlock VbkBlockAddon (list Z) (Protecting btc_tree)).

(** The loop of [loadTip]: the blocks of the chain are applied. *)
Section activate.
Context {K H B A P Ext : Type} `{Countable K, Countable H, Countable P}.
Notation tree := (BaseBlockTree K H B A P Ext).

Fixpoint activate_loop (fuel : nat) (tip : option K) (w : tree) : result tree :=
  match tip with
  | None => Ok w
  | Some k =>
    w ← modify k (setFlag BLOCK_ACTIVE) w;
    let w := with_applied (appliedBlockCount w + 1) w in
    r ← node_raiseValidity k BLOCK_CAN_BE_APPLIED w;
    i ← deref (blocks_ r.1) k;
    match fuel with
    | O => OutOfFuel
    | Datatypes.S fuel => activate_loop fuel (pprev i) r.1
    end
  end.
End activate.

(** [makePrevHash] of the two trees. *)
Definition vbk_key (hash : list Z) : list Z := trimLE 12 hash.
Definition btc_key (hash : list Z) : list Z := hash.

Section vbk_tree.
Context `{Hashes} `{ProgPow}.
Context `{BR : !BlockRules (list Z) Btc.BtcBlock BtcBlockAddon, VR : !BlockRules (list Z) Vbk.VbkBlock VbkBlockAddon}.
Context (getVTB : list Z → option VTB).
Context (settlementInterval : Z) (EnableTimeAdjustment : bool) (config : fr_config).
Notation world := vbk_tree.
Notation index_t := (BlockIndex (list Z) Vbk.VbkBlock VbkBlockAddon).
Implicit Types w : world.

Definition btc (w : world) : btc_tree := ing_of w.

(** ** The commands of a VTB *)
Definition addBlock (block : Btc.BtcBlock) (referencedAtHeight : Z) : Command world :=
  lift_command ing_of set_ing (AddBlock (HK := plain_hooks) newBtcAddon newBtcHeader block referencedAtHeight).

Definition vtb_payloadToCommands (pop : VTB) : result (list (Command world)) :=
  e ← VbkEndorsement_fromContainer pop;
  Ok (map (λ b, addBlock b (Vbk.height (containingBlock pop))) (blockOfProofContext (vtb_transaction pop)) ++
      [addBlock (pop_blockOfProof (vtb_transaction pop)) (Vbk.height (containingBlock pop));
       AddEndorsement vbk_key btc_key "VBK" settlementInterval e]).

Definition payloadToCommandGroup (payload : VTB) : result (CommandGroup world) :=
  cmds ← vtb_payloadToCommands payload;
  Ok (mkCommandGroup (VTB_getId payload) cmds true).

(** [VbkCommandGroupStore] *)
Definition vbk_getCommand (id : list Z) : result (CommandGroup world) :=
  match getVTB id with
  | None => Throw "StateCorruptedException"
  | Some vtb => payloadToCommandGroup vtb
  end.

Definition vbk_getCommands (_ : Vbk.VbkBlock) (a : VbkBlockAddon) : result (list (CommandGroup world)) :=
  foldM (λ groups id, cg ← vbk_getCommand id; Ok (groups ++ [cg])) (vbk_vtbids a) [].

(** ** Virtual functions *)
Definition vbk_overrideTip (to : list Z) (w : world) : result world :=
  w ← base_overrideTip to w;
  i ← deref (blocks_ w) to;
  v ← isValid BLOCK_CAN_BE_APPLIED i;
  vassert v "the active chain tip must be fully valid";;
  Ok w.

Section virtual.
Context {HK : TreeHooks (list Z) (list Z) Vbk.VbkBlock VbkBlockAddon (list Z) (Protecting btc_tree)}.

Definition vbk_comparePopScore : list Z → world → result (world * (Z * PopFrOutcome)) :=
  comparePopScore (HK2 := plain_hooks) vbk_hasPayloads vbk_getCommands vbk_key btc_key
    Vbk.timestamp Btc.timestamp EnableTimeAdjustment config.

Definition vbk_determineBestChain (candidate : list Z) (w : world) : result world :=
  b ← isBootstrapped w;
  vassert b "isBootstrapped()";;
  match chain_tip (activeChain_ w) with
  | None => Assert "bestTip != nullptr"
  | Some bestTip =>
    bi ← deref (blocks_ w) bestTip;
    ci ← deref (blocks_ w) candidate;
    behind ← cki32 (height bi - height ci);
    if getMaxReorgBlocks <? behind then Ok w
    else
      vassert (negb (isLoadingBlocks_ w)) "!this->isLoadingBlocks_";;
      p ← vbk_comparePopScore candidate w;
      let '(w, (result_, _)) := p in
      if result_ =? 0 then work_determineBestChain setState candidate w
      else if result_ <? 0 then overrideTip candidate w
      else Ok w
  end.

Definition vbk_setState (to : list Z) (w : world) : result (world * bool) :=
  vassert (negb (isLoadingBlocks_ w)) "!this->isLoadingBlocks_";;
  r ← cmp_setState (HK2 := plain_hooks) vbk_hasPayloads vbk_getCommands to w;
  w ← (if (r.2 : bool) then overrideTip to r.1
       else
         i ← deref (blocks_ r.1) to;
         v ← isValid BLOCK_VALID_TREE i;
         vassert (negb v) "!to.isValid()";; Ok r.1);
  vassert (appliedBlockCount w =? blocksCount (activeChain_ w)) "appliedBlockCount == activeChain_.blocksCount()";;
  Ok (w, r.2).
End virtual.

(** Calls of virtual functions nested to depth [n]. *)
Fixpoint vbk_hooks (n : nat) : TreeHooks (list Z) (list Z) Vbk.VbkBlock VbkBlockAddon (list Z) (Protecting btc_tree) :=
  match n with
  | O => {| setState _ _ := OutOfFuel; determineBestChain _ _ := OutOfFuel; onBeforeLeafRemoved _ _ := OutOfFuel;
            onBlockInserted _ _ := OutOfFuel; overrideTip _ _ := OutOfFuel |}
  | Datatypes.S n =>
    let HK := vbk_hooks n in
    {| setState := vbk_setState; determineBestChain := vbk_determineBestChain; onBeforeLeafRemoved _ w := Ok w;
       onBlockInserted := updateChainWork; overrideTip := vbk_overrideTip |}
  end.

Section operations.
Context {HK : TreeHooks (list Z) (list Z) Vbk.VbkBlock VbkBlockAddon (list Z) (Protecting btc_tree)}.

(** ** Removal of payloads *)
Definition modify_result (k : list Z) (f : index_t → result index_t) (w : world) : result world :=
  i ← deref (blocks_ w) k; i ← f i; Ok (with_blocks <[k := i]> w).

(** [index.removePayloadId<VTB>(pid)] and [payloadsIndex_.remove]. *)
Definition forgetPayload (index pid : list Z) (w : world) : result world :=
  w ← modify_result index (touch_result (vbk_removePayloadId pid)) w;
  i ← deref (blocks_ w) index;
  Ok (with_payloads (finalizedPayloadsIndex_ w) (pl_remove pid (PayloadsIndex.getHash (BlockIndex.header i)) (payloadsIndex_ w)) w).

(** The payload is there, and the block is not marked as invalid. *)
Definition assertRemovable (index pid : list Z) (w : world) : result unit :=
  i ← deref (blocks_ w) index;
  vassert (bool_decide (pid ∈ vbk_vtbids (addon i))) "could not find the payload to remove";;
  vassert (negb (hasFlags i BLOCK_FAILED_POP)) "block unexpectedly has BLOCK_FAILED_POP set".

Definition removePayloads (index : list Z) (pids : list (list Z)) (w : world) : result world :=
  i ← deref (blocks_ w) index;
  match pprev i with
  | None => Assert "can not remove payloads from the root block"
  | Some prev =>
    if bool_decide (pids = []) then Ok w
    else
      isOnActiveChain ← contains (blocks_ w) (activeChain_ w) (Some index);
      w ← (if (isOnActiveChain : bool) then
             r ← setState prev w; vassert r.2 "success";; Ok r.1
           else Ok w);
      w ← foldM (λ w pid, assertRemovable index pid w;; forgetPayload index pid w) pids w;
      updateTips w
  end.

Definition removePayloads_hash (hash : list Z) (pids : list (list Z)) (w : world) : result world :=
  match getBlockIndex w (vbk_key hash) with
  | None => Assert "block must exist"
  | Some index => removePayloads index pids w
  end.

Definition unsafelyRemovePayload (index pid : list Z) (shouldDetermineBestChain : bool) (w : world) : result world :=
  assertRemovable index pid w;;
  isApplied ← contains (blocks_ w) (activeChain_ w) (Some index);
  w ← (if (isApplied : bool) then cg ← vbk_getCommand pid; unExecute cg w else Ok w);
  w ← forgetPayload index pid w;
  if shouldDetermineBestChain then updateTips w else Ok w.

Definition unsafelyRemovePayload_hash (hash pid : list Z) (w : world) : result world :=
  match getBlockIndex w (vbk_key hash) with
  | None => Assert "state corruption: the containing block is not found"
  | Some index => unsafelyRemovePayload index pid true w
  end.

(** ** Addition of payloads *)
(** The first block of a VTB connects to a block of the Bitcoin tree that is
    referenced at or below the containing block. *)
Definition firstBlock (vtb : VTB) : Btc.BtcBlock :=
  match blockOfProofContext (vtb_transaction vtb) with
  | b :: _ => b
  | [] => pop_blockOfProof (vtb_transaction vtb)
  end.

Definition connectingHash (vtb : VTB) : list Z :=
  let b := firstBlock vtb in
  if bool_decide (Btc.previousBlock b = replicate 32 0) then Btc.calculateHash b else Btc.previousBlock b.

Definition validateBTCContext (vtb : VTB) (w : world) : result unit :=
  match getBlockIndex (btc w) (btc_key (connectingHash vtb)) with
  | None => invalid "bad-prev-block"
  | Some connectingIndex =>
    i ← deref (blocks_ (btc w)) connectingIndex;
    if existsb (λ h, h <=? Vbk.height (containingBlock vtb)) (refs (addon i)) then Ok ()
    else invalid "block-referenced-too-early"
  end.

Definition recordPayload (index pid : list Z) (w : world) : result world :=
  w ← modify index (touch (vbk_insertPayloadId pid)) w;
  i ← deref (blocks_ w) index;
  Ok (with_payloads (finalizedPayloadsIndex_ w) (pl_add pid (PayloadsIndex.getHash (BlockIndex.header i)) (payloadsIndex_ w)) w).

Definition addPayloadToAppliedBlock (index : list Z) (payload : VTB) (w : world) : result (world * bool) :=
  i ← deref (blocks_ w) index;
  vassert (hasFlags i BLOCK_ACTIVE) "index.hasFlags(BLOCK_ACTIVE)";;
  let pid := VTB_getId payload in
  if MAX_VBKPOPTX_PER_VBK_BLOCK <=? Z.of_nat (length (vbk_vtbids (addon i))) then Ok (w, false)
  else
    c ← catch (validateBTCContext payload w);
    match c with
    | inl _ => Ok (w, false)
    | inr _ =>
      w ← recordPayload index pid w;
      cmdGroup ← vbk_getCommand pid;
      r ← execute cmdGroup w;
      if (r.2 : bool) then Ok r else w ← forgetPayload index pid r.1; Ok (w, false)
    end.

(** The reasons of [addPayloads]. *)
Inductive add_error := BadContaining | BadChain | InvalidContainingBlock | InvalidPayloads.

Fixpoint addPayloads_loop (index : list Z) (appliedPayloads : list (list Z)) (payloads : list VTB) (w : world)
    : result (world * bool) :=
  match payloads with
  | [] => Ok (w, true)
  | payload :: payloads =>
    r ← addPayloadToAppliedBlock index payload w;
    if (r.2 : bool) then addPayloads_loop index (VTB_getId payload :: appliedPayloads) payloads r.1
    else
      w ← foldM (λ w pid, unsafelyRemovePayload index pid false w) appliedPayloads r.1;
      Ok (w, false)
  end.

Definition addPayloads (hash : list Z) (payloads : list VTB) (w : world) : result (world * option add_error) :=
  vassert (negb (isLoadingBlocks_ w)) "!this->isLoadingBlocks_";;
  if bool_decide (payloads = []) then Ok (w, None)
  else
    match getBlockIndex w (vbk_key hash) with
    | None => Ok (w, Some BadContaining)
    | Some index =>
      i ← deref (blocks_ w) index;
      v ← isValid BLOCK_VALID_TREE i;
      if negb v then Ok (w, Some BadChain)
      else
        match chain_tip (activeChain_ w) with
        | None => Assert "tip != nullptr"
        | Some tip =>
          isOnActiveChain ← contains (blocks_ w) (activeChain_ w) (Some index);
          r ← (if (isOnActiveChain : bool) then Ok (w, true) else setState index w);
          if negb r.2 then Ok (r.1, Some InvalidContainingBlock)
          else
            r ← addPayloads_loop index [] payloads r.1;
            if negb r.2 then
              w ← (if (isOnActiveChain : bool) then Ok r.1
                   else r ← setState tip r.1;
                        vassert r.2 "state corruption: failed to restore the best chain tip";; Ok r.1);
              Ok (w, Some InvalidPayloads)
            else
              w ← doUpdateAffectedTips index r.1;
              w ← (if (isOnActiveChain : bool) then Ok w else doUpdateAffectedTips tip w);
              Ok (w, None)
        end
    end.

(** ** Loading *)
Definition vbk_loadBlockInner (index : StoredBlockIndex Vbk.VbkBlock StoredVbkBlockAddon) (fast_load : bool) (w : world)
    : result world :=
  vassert (negb (isLoaded_ w)) "!this->isLoaded_";;
  let w := with_loading true (isLoaded_ w) w in
  match getBlockIndex w (vbk_key (PayloadsIndex.getHash (stored_header index))) with
  | None => Assert "current"
  | Some current =>
    i ← deref (blocks_ w) current;
    if negb fast_load && hasDuplicateIdsOf ∅ (vbk_vtbids (addon i)) then invalid "VTB-duplicate"
    else
      w ← (if negb fast_load then
             d ← cki32 (stored_height index - settlementInterval);
             chain ← newChain (blocks_ w) (Z.max 0 d) (Some current);
             recoverEndorsements vbk_key btc_key current chain w ?! "bad-endorsements"
           else recoverEndorsementsFast vbk_key btc_key current w);
      i ← deref (blocks_ w) current;
      if negb (finalized i) then
        pl ← pl_addBlock i (payloadsIndex_ w); Ok (with_payloads (finalizedPayloadsIndex_ w) pl w)
      else
        fpl ← fpl_addBlock i (finalizedPayloadsIndex_ w); Ok (with_payloads fpl (payloadsIndex_ w) w)
  end.

Definition vbk_loadBlockForward (index : StoredBlockIndex Vbk.VbkBlock StoredVbkBlockAddon) (fast_load : bool) (w : world)
    : result world :=
  w ← loadBlockForward newVbkAddon newVbkHeader index fast_load w;
  vbk_loadBlockInner index fast_load w.

Definition vbk_loadTip (hash : list Z) (w : world) : result world :=
  w ← loadTip (vbk_key hash) w;
  match chain_tip (activeChain_ w) with
  | None => Assert "tip"
  | Some tip =>
    i ← deref (blocks_ w) tip;
    w ← activate_loop (Datatypes.S (Z.to_nat (height i))) (Some tip) (with_applied 0 w);
    vassert (appliedBlockCount w =? blocksCount (activeChain_ w)) "appliedBlockCount == activeChain_.blocksCount()";;
    Ok w
  end.

(** ** Finalization *)
Definition vbk_finalizeBlocks (w : world) : result world :=
  vassert (negb (isLoadingBlocks_ w)) "!this->isLoadingBlocks_";;
  vassert (appliedBlockCount w =? blocksCount (activeChain_ w)) "appliedBlockCount == activeChain_.blocksCount()";;
  match chain_tip (activeChain_ (btc w)) with
  | None => Assert "btctip != nullptr"
  | Some btctip =>
    b ← deref (blocks_ (btc w)) btctip;
    let minVbkRefHeight := min_or_default (refs (addon b)) INT32_MAX in
    w ← base_finalizeBlocks getMaxReorgBlocks preserveBlocksBehindFinal minVbkRefHeight w;
    t ← finalizeBlocks (HK := plain_hooks) (btc w);
    let w := set_ing t w in
    vassert (appliedBlockCount w =? blocksCount (activeChain_ w)) "appliedBlockCount == activeChain_.blocksCount()";;
    Ok w
  end.

(** ** Queries *)
Definition estimateMissedNumberOfVTBs (i : index_t) : result Z :=
  let vtb_ids := vbk_vtbids (addon i) in
  if bool_decide (vtb_ids = []) then Ok (2 ^ 32 - 1)
  else
    vtb_paths ← foldM (λ l id, match getVTB id with
                               | None => Assert "getVTB"
                               | Some vtb => Ok (l ++ [vtb_merklePath vtb])
                               end) vtb_ids [];
    approximate_count ← estimateNumberOfPopTxs vtb_paths;
    Ok (u32 (approximate_count - Z.of_nat (length vtb_paths))).
End operations.
End vbk_tree.
