(* ===== verification/AltTree.v ===== *)
(** * The altchain tree ([blockchain/alt_block_tree.cpp],
    [commands/alt_command_group_store.cpp], [commands/addvtb.hpp] and
    [payloadToCommands] of [commands.cpp] for it)

    [AltBlockTree] holds the headers of an altchain and the POP payloads of its
    blocks; its comparator owns the VeriBlock tree, which owns the Bitcoin tree:
    all three are the world.  A block is connected when it and all of its
    ancestors have their payloads.  The storage of payloads belongs to the
    altchain ([PayloadsStorage] is an abstract class): it is a state of its own,
    read by the commands and written by [acceptBlock].  The functions call
    virtual functions through [TreeHooks]; [alt_hooks] are those of
    [AltBlockTree].  The stack of [acceptBlock] is a list, its top first. *)
From Stdlib Require Import String.
From S2P Require Import Prelude BlockIndex Chain TreeAlgo PayloadsIndex BaseTree TreeInv TreeStorage BlockTree Commands PopStateMachine PopScore Serde Address Blocks Payloads Endorsements PopState BlockAddons StoredAddons MerklePaths AltParams StatelessValidation PowTrees AddBlock AddEndorsement Recovery AltUtil PopViews ForkResolution VbkTree.

(** [PayloadsStorage] *)
Class PayloadsStorage (S : Type) := {
  storage_getATV : S → list Z → option ATV;
  storage_getVTB : S → list Z → option VTB;
  storage_getVBK : S → list Z → option Vbk.VbkBlock;
  writePayloads : PopData → S → S
}.

Notation alt_world := (BaseBlockTree (list Z) (list Z) Alt.AltBlock AltBlockAddon (list Z) (Protecting vbk_tree)).
Notation alt_index := (BlockIndex (list Z) Alt.AltBlock AltBlockAddon).
Notation alt_store := (gmap (list Z) alt_index).

Definition newAltHeader : Alt.AltBlock := Alt.mkAltBlock [] [] 0 0.
Definition alt_key (hash : list Z) : list Z := hash.

(** [checkBlockTime] for altchain blocks. *)
Definition alt_checkBlockTime (now : Z) (block : Alt.AltBlock) (params : AltChainParams) : result unit :=
  let blockTime := Alt.timestamp block in
  let maxTime := u32 (now + mMaxAltchainFutureBlockTime params) in
  if maxTime <? blockTime then invalid "alt-time-too-new" else Ok ().

(** ** Payload ids of a block

    [setPayloads], [connectBlock] and [removeAllPayloads] do not need the trees of
    the payloads: the members of the derived class are left open. *)
Section payloads.
Context `{Hashes} `{ProgPow} {Ext : Type} (params : AltChainParams).
Notation tree := (BaseBlockTree (list Z) (list Z) Alt.AltBlock AltBlockAddon (list Z) Ext).
Context {HK : TreeHooks (list Z) (list Z) Alt.AltBlock AltBlockAddon (list Z) Ext}.
Implicit Types t : tree.

Definition commitPayloadsIds (type : pop_type) (pids : list (list Z)) (index : list Z) t : result tree :=
  t ← modify index (touch (setPayloads type pids)) t;
  i ← deref (blocks_ t) index;
  vassert (negb (finalized i)) "!index.finalized";;
  let containing := PayloadsIndex.getHash (BlockIndex.header i) in
  Ok (with_payloads (finalizedPayloadsIndex_ t) (foldl (λ pl pid, pl_add pid containing pl) (payloadsIndex_ t) pids) t).

Definition alt_setPayloads {S} `{PayloadsStorage S} (index : list Z) (payloads : PopData) (st : S * tree) : result (S * tree) :=
  let '(s, t) := st in
  i ← deref (blocks_ t) index;
  v ← isValidUpTo BLOCK_VALID_TREE i;
  vassert v "block should be valid";;
  vassert (negb (hasFlags i BLOCK_HAS_PAYLOADS)) "block already contains payloads";;
  vassert (negb (hasFlags i BLOCK_ACTIVE)) "state corruption: block is applied";;
  vassert (negb (isRoot i)) "Adding payloads to the root block is not allowed";;
  check ← catch (checkPopDataForDuplicates payloads);
  vassert (match check with inl _ => false | inr _ => true end) "attempted to add statelessly invalid payloads to block";;
  t ← commitPayloadsIds VbkType (map VbkBlock_getId (context payloads)) index t;
  t ← commitPayloadsIds VtbType (map VTB_getId (vtbs payloads)) index t;
  atv_ids ← mapM ATV_getId (atvs payloads);
  t ← commitPayloadsIds AtvType atv_ids index t;
  let s := writePayloads payloads s in
  t ← modify index (setFlag BLOCK_HAS_PAYLOADS) t;
  Ok (s, t).

(** ** [BlockPayloadMutator] *)
Record BlockPayloadMutator := mkMutator { block_ : list Z; ids_ : gset (list Z); chain_ : Chain (list Z) }.

Definition makeConnectedLeafPayloadMutator (block : list Z) t : result BlockPayloadMutator :=
  i ← deref (blocks_ t) block;
  chain ← newChain (blocks_ t) (Alt.height (bootstrapBlock params)) (pprev i);
  vassert (negb (isRoot i)) "Adding payloads to the root block is not allowed";;
  v ← isValidUpTo BLOCK_VALID_TREE i;
  vassert v "block should be valid";;
  c ← isConnected i;
  vassert c "block must be connected";;
  u ← allDescendantsUnconnected (blocks_ t) i;
  vassert u "a descendant of the block is connected";;
  Ok (mkMutator block (list_to_set (payloadIds (addon i))) chain).

(** [for (const auto& blockhash : set)] *)
Fixpoint any_contained (m : alt_store) (chain : Chain (list Z)) t (hashes : list (list Z)) : result bool :=
  match hashes with
  | [] => Ok false
  | blockhash :: hashes =>
    c ← contains m chain (getBlockIndex t blockhash);
    if (c : bool) then Ok true else any_contained m chain t hashes
  end.

Definition isStatefulDuplicate (mutator : BlockPayloadMutator) (payload_id : list Z) t : result bool :=
  found ← any_contained (blocks_ t) (chain_ mutator) t (elements (pl_find (payloadsIndex_ t) payload_id));
  if (found : bool) then Ok true
  else Ok (match fpl_find (finalizedPayloadsIndex_ t) payload_id with Some _ => true | None => false end).

Definition isStatelessDuplicate (mutator : BlockPayloadMutator) (payload_id : list Z) : bool :=
  bool_decide (payload_id ∈ ids_ mutator).

(** The reason of the first duplicate. *)
Fixpoint first_duplicate (mutator : BlockPayloadMutator) (reason : string) (pids : list (list Z)) t : result (option string) :=
  match pids with
  | [] => Ok None
  | pid :: pids =>
    d ← isStatefulDuplicate mutator pid t;
    if (d : bool) then Ok (Some reason) else first_duplicate mutator reason pids t
  end.

Definition hasStatefulDuplicatesOf (type : pop_type) (reason : string) (mutator : BlockPayloadMutator) t : result (option string) :=
  i ← deref (blocks_ t) (block_ mutator);
  first_duplicate mutator reason (getPayloadIds type (addon i)) t.

(** [a || b], with the reason. *)
Definition or_else (a b : result (option string)) : result (option string) :=
  r ← a; match r with Some e => Ok (Some e) | None => b end.

Definition hasStatefulDuplicates (mutator : BlockPayloadMutator) t : result (option string) :=
  or_else (hasStatefulDuplicatesOf VbkType "VBK-duplicate" mutator t)
    (or_else (hasStatefulDuplicatesOf VtbType "VTB-duplicate" mutator t)
       (hasStatefulDuplicatesOf AtvType "ATV-duplicate" mutator t)).

(** ** [connectBlock] *)
Definition connectBlock (index : list Z) t : result (tree * bool) :=
  vassert (negb (isLoadingBlocks_ t)) "!this->isLoadingBlocks_";;
  i ← deref (blocks_ t) index;
  vassert (hasFlags i BLOCK_HAS_PAYLOADS) "block must have payloads added";;
  c ← isConnected i;
  vassert (negb c) "block must not be connected";;
  vassert (negb (hasFlags i BLOCK_ACTIVE)) "state corruption: block is applied";;
  p ← deref_prev (blocks_ t) i;
  c ← isConnected p;
  vassert c "the previous block must be connected";;
  u ← allDescendantsUnconnected (blocks_ t) i;
  vassert u "a descendant of the block is connected";;
  r ← node_raiseValidity index BLOCK_CONNECTED t;
  vassert r.2 "success";;
  let t := r.1 in
  mutator ← makeConnectedLeafPayloadMutator index t;
  duplicate ← hasStatefulDuplicates mutator t;
  t ← match duplicate with Some _ => invalidateSubtree index BLOCK_FAILED_POP false t | None => Ok t end;
  t ← tryAddTip index t;
  i ← deref (blocks_ t) index;
  v ← isValid BLOCK_VALID_TREE i;
  let t := if (v : bool) then emit (BaseTree.onBlockConnected index) t
           else emit (onInvalidBlockConnected index (match duplicate with Some e => [e] | None => [] end)) t in
  Ok (t, v).

(** The descendants that have payloads are connected too. *)
Fixpoint connect_loop (fuel : nat) (stack : list (list Z)) t : result tree :=
  match stack with
  | [] => Ok t
  | top :: stack =>
    match fuel with
    | O => OutOfFuel
    | Datatypes.S fuel =>
      i ← deref (blocks_ t) top;
      if negb (hasFlags i BLOCK_HAS_PAYLOADS) then connect_loop fuel stack t
      else
        r ← connectBlock top t;
        i ← deref (blocks_ r.1) top;
        connect_loop fuel (rev (children (blocks_ r.1) i) ++ stack) r.1
    end
  end.

Definition acceptBlock {S} `{PayloadsStorage S} (index : list Z) (payloads : PopData) (st : S * tree) : result (S * tree) :=
  st ← alt_setPayloads index payloads st;
  let '(s, t) := st in
  i ← deref (blocks_ t) index;
  p ← deref_prev (blocks_ t) i;
  c ← isConnected p;
  if negb c then Ok (s, t)
  else
    r ← connectBlock index t;
    i ← deref (blocks_ r.1) index;
    t ← connect_loop (size (blocks_ r.1)) (rev (children (blocks_ r.1) i)) r.1;
    Ok (s, t).

Definition acceptBlock_hash {S} `{PayloadsStorage S} (block : list Z) (payloads : PopData) (st : S * tree) : result (S * tree) :=
  match getBlockIndex st.2 block with
  | None => Assert "cannot find block"
  | Some index => acceptBlock index payloads st
  end.

(** ** Headers *)
Definition alt_bootstrap t : result tree :=
  b ← isBootstrapped t;
  vassert (negb b) "tree is already bootstrapped";;
  vassert (negb (isLoadingBlocks_ t)) "!this->isLoadingBlocks_";;
  vassert (negb (isLoaded_ t)) "!this->isLoaded_";;
  let block := bootstrapBlock params in
  let height := Alt.height block in
  vassert (0 <=? height) "AltBlockTree can be bootstrapped with block height >= 0";;
  vassert (height <? INT32_MAX / 2) "AltBlockTree can be bootstrapped with block height <= max";;
  r ← insertBlockHeader newAltAddon newAltHeader block height t;
  let '(t, index) := r in
  i ← deref (blocks_ t) index;
  let height := BlockIndex.height i in
  t ← modify index (setFlag BLOCK_ACTIVE) t;
  let t := with_applied (appliedBlockCount t + 1) t in
  t ← modify index (setFlag BLOCK_BOOTSTRAP) t;
  r ← node_raiseValidity index BLOCK_CAN_BE_APPLIED t;
  c ← newChain (blocks_ r.1) height (Some index);
  let t := with_chain c r.1 in
  b ← isBootstrapped t;
  vassert b "base::isBootstrapped()";;
  vassert (bool_decide (getBlockIndex t (alt_key (Alt.hash block)) ≠ None)) "getBlockIndex must find the block";;
  tryAddTip index t.

Definition alt_acceptBlockHeader (block : Alt.AltBlock) t : result (tree * bool) :=
  vassert (negb (isLoadingBlocks_ t)) "!this->isLoadingBlocks_";;
  vassert (negb (hashIsPrevious block)) "previous block hash equals the block hash";;
  boot ← isBootstrapped t;
  known ← (if (boot : bool) then
             match chain_first (activeChain_ t) with
             | None => Undef "null first block"
             | Some first => i ← deref (blocks_ t) first; Ok (bool_decide (Alt.hash block = Alt.hash (BlockIndex.header i)))
             end
           else Ok false);
  if (known : bool) then Ok (t, true)
  else
    match getBlockIndex t (Alt.previousBlock block) with
    | None => Ok (t, false)
    | Some _ =>
      r ← insertBlockHeader newAltAddon newAltHeader block 0 t;
      let '(t, index) := r in
      i ← deref (blocks_ t) index;
      v ← isValid BLOCK_VALID_TREE i;
      if negb v then Ok (t, false) else t ← tryAddTip index t; Ok (t, true)
    end.

(** ** Removal of payloads *)
Definition clearSideEffects (type : pop_type) (index : list Z) t : result tree :=
  i ← deref (blocks_ t) index;
  let containingHash := PayloadsIndex.getHash (BlockIndex.header i) in
  Ok (with_payloads (finalizedPayloadsIndex_ t)
        (foldl (λ pl pid, pl_remove pid containingHash pl) (payloadsIndex_ t) (getPayloadIds type (addon i))) t).

Definition removeAllPayloads (index : list Z) t : result tree :=
  i ← deref (blocks_ t) index;
  match pprev i with
  | None => Assert "can not remove payloads from the root block"
  | Some prev =>
    vassert (hasFlags i BLOCK_HAS_PAYLOADS) "Can remove payloads only from blocks with payloads";;
    vassert (negb (hasFlags i BLOCK_ACTIVE)) "block is applied";;
    u ← allDescendantsUnconnected (blocks_ t) i;
    vassert u "can remove payloads only from connected leaves";;
    t ← (if alt_hasPayloads (addon i) then
           t ← clearSideEffects VbkType index t;
           t ← clearSideEffects VtbType index t;
           t ← clearSideEffects AtvType index t;
           modify index (λ i, with_addon (clearPayloads (addon i)) i) t
         else Ok t);
    i ← deref (blocks_ t) index;
    vassert (negb (alt_hasPayloads (addon i))) "!index.hasPayloads()";;
    t ← modify index (unsetFlag BLOCK_HAS_PAYLOADS) t;
    t ← revalidateSubtree index BLOCK_FAILED_POP false t;
    i ← deref (blocks_ t) index;
    c ← isConnected i;
    t ← (if (c : bool) then
           let r := lowerValidity BLOCK_VALID_TREE i in
           vassert r.2 "success";; Ok (with_blocks <[index := r.1]> t)
         else Ok t);
    let t := with_tips (λ tips, tips ∖ {[index]}) t in
    tryAddTip prev t
  end.

Definition alt_removePayloads (hash : list Z) t : result tree :=
  match getBlockIndex t hash with
  | None => Assert "does not contain block"
  | Some index => removeAllPayloads index t
  end.

(** ** Queries *)
Definition getConnectedTipsAfter (index : list Z) t : result (list (list Z)) :=
  i ← deref (blocks_ t) index;
  c ← isConnected i;
  if negb c then Ok []
  else
    foldM (λ candidates tip,
      j ← deref (blocks_ t) tip;
      c ← isConnected j;
      if (c : bool) then
        a ← getAncestor (blocks_ t) tip (BlockIndex.height i);
        Ok (if bool_decide (a = Some index) then candidates ++ [tip] else candidates)
      else Ok candidates) (elements (tips_ t)) [].
End payloads.

(** ** The tree with its comparator *)
Section alt_tree.
Context `{Hashes} `{ProgPow} `{CtParams}.
Context `{BR : !BlockRules (list Z) Btc.BtcBlock BtcBlockAddon, VR : !BlockRules (list Z) Vbk.VbkBlock VbkBlockAddon}.
Context (params : AltChainParams) (vbk_settlementInterval : Z) (EnableTimeAdjustment : bool).
Context (vbk_config alt_config : fr_config).
Context {S : Type} `{PayloadsStorage S} (storage : S).
Context {HKV : TreeHooks (list Z) (list Z) Vbk.VbkBlock VbkBlockAddon (list Z) (Protecting btc_tree)}.
Notation world := alt_world.
Implicit Types w : world.

Definition vbk (w : world) : vbk_tree := ing_of w.

(** ** Commands *)
Definition vbk_addBlock (block : Vbk.VbkBlock) : Command world :=
  lift_command ing_of set_ing (AddBlock newVbkAddon newVbkHeader block 0).

(** [AddVTB] *)
Definition AddVTB_Execute (vtb : VTB) (w : world) : result (world * bool) :=
  r ← addPayloads (storage_getVTB storage) vbk_settlementInterval (Vbk.calculateHash (containingBlock vtb)) [vtb] (vbk w);
  Ok (set_ing r.1 w, match r.2 with None => true | Some _ => false end).

Definition AddVTB_UnExecute (vtb : VTB) (w : world) : result world :=
  v ← unsafelyRemovePayload_hash (storage_getVTB storage) vbk_settlementInterval
        (Vbk.calculateHash (containingBlock vtb)) (VTB_getId vtb) (vbk w);
  Ok (set_ing v w).

Definition AddVTB (vtb : VTB) : Command world := mkCommand (AddVTB_Execute vtb) (AddVTB_UnExecute vtb).

Definition CheckPublicationData (pub : PublicationData) (endorsed_hash : list Z) : Command world :=
  mkCommand (λ w, c ← catch (CheckPublicationData_Execute params pub endorsed_hash w);
                  Ok (w, match c with inl _ => false | inr _ => true end))
    (λ w, Ok w).

Definition vbk_payloadToCommands (pop : Vbk.VbkBlock) : list (Command world) := [vbk_addBlock pop].
Definition alt_vtb_payloadToCommands (pop : VTB) : list (Command world) := [AddVTB pop].
Definition atv_payloadToCommands (pop : ATV) (containingHash : list Z) : result (list (Command world)) :=
  let pub := publicationData (atv_transaction pop) in
  endorsedHash ← alt_getHash params (Payloads.header pub);
  e ← AltEndorsement_fromContainer pop containingHash endorsedHash;
  Ok [vbk_addBlock (atv_blockOfProof pop); CheckPublicationData pub endorsedHash;
      AddEndorsement alt_key vbk_key "ALT" (mEndorsementSettlementInterval params) e].

(** ** [AltCommandGroupStore] *)
Definition stored {X} (payload : option X) : result X :=
  match payload with Some x => Ok x | None => Throw "StateCorruptedException" end.

Definition alt_getCommand (type : pop_type) (containingHash id : list Z) : result (CommandGroup world) :=
  match type with
  | VbkType => b ← stored (storage_getVBK storage id); Ok (mkCommandGroup (VbkBlock_getId b) (vbk_payloadToCommands b) true)
  | VtbType => v ← stored (storage_getVTB storage id); Ok (mkCommandGroup (VTB_getId v) (alt_vtb_payloadToCommands v) true)
  | AtvType =>
    a ← stored (storage_getATV storage id);
    i ← ATV_getId a;
    cmds ← atv_payloadToCommands a containingHash;
    Ok (mkCommandGroup i cmds true)
  end.

Definition alt_getCommands (b : Alt.AltBlock) (a : AltBlockAddon) : result (list (CommandGroup world)) :=
  let add type groups id := (cg ← alt_getCommand type (PayloadsIndex.getHash b) id; Ok (groups ++ [cg])) in
  groups ← foldM (add VbkType) (vbkblockids a) [];
  groups ← foldM (add VtbType) (alt_vtbids a) groups;
  foldM (add AtvType) (atvids a) groups.

(** ** Virtual functions *)
Definition alt_determineBestChain (candidate : list Z) (w : world) : result world :=
  match chain_tip (activeChain_ w) with None => Assert "must be bootstrapped" | Some _ => Ok w end.

Definition alt_onBeforeLeafRemoved (block : list Z) (w : world) : result world :=
  i ← deref (blocks_ w) block;
  Ok (with_payloads (finalizedPayloadsIndex_ w) (pl_removeBlock i (payloadsIndex_ w)) w).

Section virtual.
Context {HK : TreeHooks (list Z) (list Z) Alt.AltBlock AltBlockAddon (list Z) (Protecting vbk_tree)}.

Definition alt_finalizeBlocks (w : world) : result world :=
  vassert (negb (isLoadingBlocks_ w)) "!this->isLoadingBlocks_";;
  vassert (appliedBlockCount w =? blocksCount (activeChain_ w)) "appliedBlockCount == activeChain_.blocksCount()";;
  maxReorgBlocks ← AltParams.getMaxReorgBlocks params;
  preserve ← AltParams.preserveBlocksBehindFinal params;
  w ← base_finalizeBlocks maxReorgBlocks (i32 preserve) INT32_MAX w;
  v ← vbk_finalizeBlocks (vbk w);
  let w := set_ing v w in
  vassert (appliedBlockCount w =? blocksCount (activeChain_ w)) "appliedBlockCount == activeChain_.blocksCount()";;
  Ok w.

Definition alt_overrideTip (to : list Z) (w : world) : result world :=
  i ← deref (blocks_ w) to;
  v ← isValid BLOCK_CAN_BE_APPLIED i;
  vassert v "the active chain tip must be fully valid";;
  w ← base_overrideTip to w;
  if negb (isLoaded_ w) || isLoadingBlocks_ w then Ok w else alt_finalizeBlocks w.

Definition alt_setState (to : list Z) (w : world) : result (world * bool) :=
  i ← deref (blocks_ w) to;
  c ← isConnected i;
  vassert c "must be connected";;
  vassert (negb (isLoadingBlocks_ w)) "!this->isLoadingBlocks_";;
  r ← cmp_setState (HK2 := HKV) alt_hasPayloads alt_getCommands to w;
  w ← (if (r.2 : bool) then overrideTip to r.1
       else
         i ← deref (blocks_ r.1) to;
         v ← isValid BLOCK_VALID_TREE i;
         vassert (negb v) "if setState failed, then the block must be invalid";; Ok r.1);
  vassert (appliedBlockCount w =? blocksCount (activeChain_ w)) "applied: active:";;
  Ok (w, r.2).
End virtual.

(** Calls of virtual functions nested to depth [n]. *)
Fixpoint alt_hooks (n : nat) : TreeHooks (list Z) (list Z) Alt.AltBlock AltBlockAddon (list Z) (Protecting vbk_tree) :=
  match n with
  | O => {| setState _ _ := OutOfFuel; determineBestChain := alt_determineBestChain;
            onBeforeLeafRemoved := alt_onBeforeLeafRemoved; onBlockInserted _ w := Ok w; overrideTip _ _ := OutOfFuel |}
  | Datatypes.S n =>
    let HK := alt_hooks n in
    {| setState := alt_setState; determineBestChain := alt_determineBestChain;
       onBeforeLeafRemoved := alt_onBeforeLeafRemoved; onBlockInserted _ w := Ok w; overrideTip := alt_overrideTip |}
  end.

Section operations.
Context {HK : TreeHooks (list Z) (list Z) Alt.AltBlock AltBlockAddon (list Z) (Protecting vbk_tree)}.

(** [BlockPayloadMutator::add]: the [bool] is the result. *)
Definition mutator_add (mutator : BlockPayloadMutator) (type : pop_type) (pid : list Z) (w : world)
    : result (world * BlockPayloadMutator * bool) :=
  vassert (negb (isStatelessDuplicate mutator pid)) "attempted to add a statelessly duplicate payload";;
  duplicate ← isStatefulDuplicate mutator pid w;
  if (duplicate : bool) then Ok (w, mutator, false)
  else
    let block := block_ mutator in
    w ← modify block (touch (alt_insertPayloadIds type [pid])) w;
    i ← deref (blocks_ w) block;
    let hash := PayloadsIndex.getHash (BlockIndex.header i) in
    let w := with_payloads (finalizedPayloadsIndex_ w) (pl_add pid hash (payloadsIndex_ w)) w in
    let mutator := mkMutator block ({[pid]} ∪ ids_ mutator) (chain_ mutator) in
    if negb (hasFlags i BLOCK_ACTIVE) then Ok (w, mutator, true)
    else
      cgroup ← alt_getCommand type hash pid;
      r ← execute cgroup w;
      if (r.2 : bool) then Ok (r.1, mutator, true)
      else
        i ← deref (blocks_ r.1) block;
        i ← touch_result (alt_removePayloadId type pid) i;
        let w := with_blocks <[block := i]> r.1 in
        Ok (with_payloads (finalizedPayloadsIndex_ w) (pl_remove pid hash (payloadsIndex_ w)) w, mutator, false).

(** ** [comparePopScore] of two chains: positive when [A], the tip, is better *)
Definition alt_comparePopScore (A B : list Z) (w : world) : result (world * Z) :=
  vassert (negb (isLoadingBlocks_ w)) "!this->isLoadingBlocks_";;
  match getBlockIndex w A with
  | None => Assert "unknown block A"
  | Some leftIndex =>
    vassert (bool_decide (chain_tip (activeChain_ w) ≠ None)) "not bootstrapped";;
    vassert (bool_decide (chain_tip (activeChain_ w) = Some leftIndex)) "Chain A must be the current active chain";;
    match getBlockIndex w B with
    | None => Ok (w, 1)
    | Some rightIndex =>
      li ← deref (blocks_ w) leftIndex;
      lc ← isConnected li;
      vassert lc "A is not connected";;
      ri ← deref (blocks_ w) rightIndex;
      rc ← isConnected ri;
      vassert rc "B is not connected";;
      p ← comparePopScore (HK2 := HKV) alt_hasPayloads alt_getCommands alt_key vbk_key
            Alt.timestamp Vbk.timestamp EnableTimeAdjustment alt_config rightIndex w;
      let '(w, (result_, _)) := p in
      if result_ <? 0 then
        c ← setTip (blocks_ w) (activeChain_ w) (Some rightIndex); Ok (with_chain c w, result_)
      else Ok (w, result_)
    end
  end.

(** ** Loading *)
Definition hasDuplicateIds (i : alt_index) : option string :=
  if hasDuplicateIdsOf ∅ (vbkblockids (addon i)) then Some "VBK-duplicate"%string
  else if hasDuplicateIdsOf ∅ (alt_vtbids (addon i)) then Some "VTB-duplicate"%string
  else if hasDuplicateIdsOf ∅ (atvids (addon i)) then Some "ATV-duplicate"%string
  else None.

(** The payloads of a loaded block are not in its ancestors, or it is marked. *)
Definition load_checks (current : list Z) (fast_load : bool) (w : world) : result unit :=
  i ← deref (blocks_ w) current;
  match (if fast_load then None else hasDuplicateIds i) with
  | Some e => invalid e
  | None =>
    if isRoot i then vassert (negb (alt_hasPayloads (addon i))) "the bootstrap block is not allowed to have payloads"
    else
      c ← isConnected i;
      if negb fast_load && c then
        mutator ← makeConnectedLeafPayloadMutator params current w;
        duplicate ← hasStatefulDuplicates mutator w;
        match duplicate with
        | Some e => if hasFlags i BLOCK_FAILED_POP then Ok () else Invalid [e; "valid-block-with-stateful-duplicates"%string]
        | None => Ok ()
        end
      else Ok ()
  end.

Definition alt_loadBlockInner (index : StoredBlockIndex Alt.AltBlock StoredAltBlockAddon) (fast_load : bool) (w : world)
    : result world :=
  vassert (negb (isLoaded_ w)) "!this->isLoaded_";;
  let w := with_loading true (isLoaded_ w) w in
  match getBlockIndex w (alt_key (PayloadsIndex.getHash (stored_header index))) with
  | None => Assert "current"
  | Some current =>
    load_checks current fast_load w;;
    w ← (if negb fast_load then
           d ← cki32 (stored_height index - i32 (mEndorsementSettlementInterval params));
           chain ← newChain (blocks_ w) (Z.max 0 d) (Some current);
           recoverEndorsements alt_key vbk_key current chain w ?! "bad-endorsements"
         else recoverEndorsementsFast alt_key vbk_key current w);
    i ← deref (blocks_ w) current;
    if negb (finalized i) then
      pl ← pl_addBlock i (payloadsIndex_ w); Ok (with_payloads (finalizedPayloadsIndex_ w) pl w)
    else
      fpl ← fpl_addBlock i (finalizedPayloadsIndex_ w); Ok (with_payloads fpl (payloadsIndex_ w) w)
  end.

Definition alt_loadBlockForward (index : StoredBlockIndex Alt.AltBlock StoredAltBlockAddon) (fast_load : bool) (w : world)
    : result world :=
  w ← base_loadBlockForward newAltAddon newAltHeader index fast_load w;
  alt_loadBlockInner index fast_load w.

Definition alt_loadTip (hash : list Z) (w : world) : result world :=
  vassert (isLoadingBlocks_ w) "this->isLoadingBlocks_";;
  vassert (negb (isLoaded_ w)) "!this->isLoaded_";;
  w ← loadTip (alt_key hash) w;
  match chain_tip (activeChain_ w) with
  | None => Assert "tip"
  | Some tip =>
    i ← deref (blocks_ w) tip;
    w ← activate_loop (Datatypes.S (Z.to_nat (height i))) (Some tip) (with_applied 0 w);
    vassert (appliedBlockCount w =? blocksCount (activeChain_ w)) "appliedBlockCount == activeChain_.blocksCount()";;
    Ok (with_loading false true w)
  end.
End operations.
End alt_tree.
