(* ===== verification/AltTreeInv.v ===== *)
(** * Connecting the blocks of an altchain

    [acceptBlock] of [AltTree] connects a block with its payloads, and then the
    descendants that were waiting for it.  [acceptBlock_connects] says which blocks
    are connected afterwards, and which of them are marked as invalid because a
    payload is already in an ancestor or in a finalized block. *)
From Stdlib Require Import String.
From S2P Require Import Prelude BlockIndex Chain TreeAlgo PayloadsIndex BaseTree TreeInv BlockTree BlockTreeInv Commands PopStateMachine Serde Address Blocks Payloads Endorsements PopState BlockAddons MerklePaths AltParams StatelessValidation AltUtil AltTree.

Section connect.
Context `{Hashes} `{ProgPow} {Ext : Type} (params : AltChainParams).
Notation tree := (BaseBlockTree (list Z) (list Z) Alt.AltBlock AltBlockAddon (list Z) Ext).
Context {HK : TreeHooks (list Z) (list Z) Alt.AltBlock AltBlockAddon (list Z) Ext}.
Implicit Types (t : tree) (m : alt_store) (i j : alt_index) (k p x y h pid : list Z).

(** [isConnected], [BLOCK_HAS_PAYLOADS], [BLOCK_FAILED_POP], [BLOCK_ACTIVE] *)
Definition conn i : bool := 2 <=? level (status i).
Definition has_payloads i : bool := Z.testbit (status i) 8.
Definition failed_pop i : bool := Z.testbit (status i) 6.
Definition is_active i : bool := Z.testbit (status i) 9.

(** A payload is in an ancestor (of [p], itself included) or in a finalized block. *)
Definition known_payload t p pid : Prop :=
  is_Some (finalizedPayloadsIndex_ t !! pid) ∨
  ∃ h j, h ∈ pl_find (payloadsIndex_ t) pid ∧ blocks_ t !! h = Some j ∧ isDeleted j = false ∧
    ancestor (blocks_ t) h p ∧ Alt.height (bootstrapBlock params) <= height j.

Definition duplicated t x : Prop := ∃ i p pid, blocks_ t !! x = Some i ∧ pprev i = Some p ∧
  pid ∈ payloadIds (addon i) ∧ known_payload t p pid.

(** *** The checks of [connectBlock] *)
Lemma flag_eq i n : 0 <= n → hasFlags i (Z.shiftl 1 n) = Z.testbit (status i) n.
Proof. apply hasFlags_bit. Qed.

Lemma isConnected_eq i : status_ok (status i) → isConnected i = Ok (conn i).
Proof. intros. unfold isConnected. by rewrite isValidUpTo_eq. Qed.

Lemma unconnected_children m x i : store_ok m → m !! x = Some i →
  (∀ c jc, c ∈ pnext i → m !! c = Some jc → conn jc = false) → allDescendantsUnconnected m i = Ok true.
Proof.
  intros [W Hst] Hx Hc. unfold allDescendantsUnconnected. destruct (isTip i); [done|].
  assert (∀ l, (∀ c, c ∈ l → c ∈ pnext i) → none_of m isConnected l = Ok true) as Hl.
  { induction l as [|c l IH]; intros Hin; [done|]. cbn [none_of].
    destruct (wf_next m W x i c) as (jc & Hjc & _); [done|set_solver|].
    rewrite (deref_eq _ _ _ Hjc). cbn [mbind result_bind]. rewrite isConnected_eq by eauto. cbn [mbind result_bind].
    rewrite (Hc c jc) by set_solver. apply IH. set_solver. }
  apply Hl. intros c. unfold children. set_solver.
Qed.

Lemma tryAddTip_failed t x i : store_ok (blocks_ t) → blocks_ t !! x = Some i → isFailed i = true → tryAddTip x t = Ok t.
Proof.
  intros [W Hst] Hx Hf. unfold tryAddTip. rewrite (deref_eq _ _ _ Hx). cbn [mbind result_bind].
  destruct (isValidTip_eq (blocks_ t) x i W Hst Hx) as (b & -> & Hb). cbn [mbind result_bind].
  destruct b; [|done]. destruct (proj1 Hb eq_refl) as [Hc _]. by rewrite can_tip_failed in Hc.
Qed.

Lemma any_contained_ok t p chain hashes : wf_store (blocks_ t) →
  (∀ y j, blocks_ t !! y = Some j → ∃ b, contains (blocks_ t) chain (Some y) = Ok b ∧
    (b = true ↔ ancestor (blocks_ t) y p ∧ Alt.height (bootstrapBlock params) <= height j)) →
  ∃ b, any_contained (blocks_ t) chain t hashes = Ok b ∧
    (b = true ↔ ∃ h j, h ∈ hashes ∧ blocks_ t !! h = Some j ∧ isDeleted j = false ∧
      ancestor (blocks_ t) h p ∧ Alt.height (bootstrapBlock params) <= height j).
Proof.
  intros W Hch. induction hashes as [|h hashes (b & Eb & IH)]; cbn [any_contained].
  { exists false. split; [done|]. split; [done|]. intros (h & j & Hh & _). by apply not_elem_of_nil in Hh. }
  assert (∃ c, contains (blocks_ t) chain (getBlockIndex t h) = Ok c ∧
    (c = true ↔ ∃ j, blocks_ t !! h = Some j ∧ isDeleted j = false ∧
      ancestor (blocks_ t) h p ∧ Alt.height (bootstrapBlock params) <= height j)) as (c & Ec & Hc).
  { unfold getBlockIndex. destruct (blocks_ t !! h) as [j|] eqn:Ej.
    - destruct (isDeleted j) eqn:Ed.
      + exists false. split; [done|]. split; [done|]. naive_solver.
      + destruct (Hch h j Ej) as (c & -> & Hc). exists c. split; [done|]. rewrite Hc. naive_solver.
    - exists false. split; [done|]. split; [done|]. naive_solver. }
  rewrite Ec. cbn [mbind result_bind]. destruct c.
  - exists true. split; [done|]. split; [|done]. intros _. destruct (proj1 Hc eq_refl) as (j & ?). exists h, j.
    split; [by left|done].
  - rewrite Eb. exists b. split; [done|]. rewrite IH. split.
    + intros (h' & j & ? & ?). exists h', j. split; [by right|done].
    + intros (h' & j & [->|?]%elem_of_cons & Hrest); [|by exists h', j].
      exfalso. assert (false = true) by (apply Hc; by exists j). done.
Qed.

Lemma isStatefulDuplicate_ok t p mutator pid : wf_store (blocks_ t) →
  (∀ y j, blocks_ t !! y = Some j → ∃ b, contains (blocks_ t) (chain_ mutator) (Some y) = Ok b ∧
    (b = true ↔ ancestor (blocks_ t) y p ∧ Alt.height (bootstrapBlock params) <= height j)) →
  ∃ b, isStatefulDuplicate mutator pid t = Ok b ∧ (b = true ↔ known_payload t p pid).
Proof.
  intros W Hch. unfold isStatefulDuplicate, known_payload.
  destruct (any_contained_ok t p (chain_ mutator) (elements (pl_find (payloadsIndex_ t) pid)) W Hch) as (c & -> & Hc).
  cbn [mbind result_bind]. setoid_rewrite elem_of_elements in Hc. destruct c.
  - exists true. split; [done|]. split; [|done]. intros _. right. by apply Hc.
  - eexists. split; [done|]. unfold fpl_find. destruct (finalizedPayloadsIndex_ t !! pid) as [b|].
    + split; [by left|done].
    + split; [done|]. intros [[? ?]|Hd]; [done|]. by apply Hc in Hd.
Qed.

Lemma first_duplicate_ok t p mutator reason pids : wf_store (blocks_ t) →
  (∀ y j, blocks_ t !! y = Some j → ∃ b, contains (blocks_ t) (chain_ mutator) (Some y) = Ok b ∧
    (b = true ↔ ancestor (blocks_ t) y p ∧ Alt.height (bootstrapBlock params) <= height j)) →
  ∃ r, first_duplicate mutator reason pids t = Ok r ∧ (is_Some r ↔ ∃ pid, pid ∈ pids ∧ known_payload t p pid).
Proof.
  intros W Hch. induction pids as [|pid pids (r & Er & IH)]; cbn [first_duplicate].
  { exists None. split; [done|]. split; [by intros []|]. intros (pid & Hp & _). by apply not_elem_of_nil in Hp. }
  destruct (isStatefulDuplicate_ok t p mutator pid W Hch) as (b & -> & Hb). cbn [mbind result_bind]. destruct b.
  - eexists. split; [done|]. split; [|by eexists]. intros _. exists pid. split; [by left|by apply Hb].
  - exists r. split; [done|]. rewrite IH. split.
    + intros (q & ? & ?). exists q. split; [by right|done].
    + intros (q & [->|?]%elem_of_cons & Hq); [by apply Hb in Hq|by exists q].
Qed.

Lemma or_else_ok (a b : result (option string)) P Q :
  (∃ r, a = Ok r ∧ (is_Some r ↔ P)) → (∃ r, b = Ok r ∧ (is_Some r ↔ Q)) → ∃ r, or_else a b = Ok r ∧ (is_Some r ↔ P ∨ Q).
Proof.
  intros (r & -> & Hr) (q & -> & Hq). unfold or_else. cbn [mbind result_bind]. destruct r as [e|].
  - eexists. split; [done|]. split; [|by eexists]. intros _. left. by apply Hr.
  - exists q. split; [done|]. rewrite Hq. split; [by right|]. intros [HP|?]; [|done]. by apply Hr in HP as [].
Qed.

Lemma hasStatefulDuplicates_ok t x i p ids chain : wf_store (blocks_ t) → blocks_ t !! x = Some i →
  (∀ y j, blocks_ t !! y = Some j → ∃ b, contains (blocks_ t) chain (Some y) = Ok b ∧
    (b = true ↔ ancestor (blocks_ t) y p ∧ Alt.height (bootstrapBlock params) <= height j)) → pprev i = Some p →
  ∃ r, hasStatefulDuplicates (mkMutator x ids chain) t = Ok r ∧ (is_Some r ↔ duplicated t x).
Proof.
  intros W Hx Hch Hp.
  assert (∀ type reason, ∃ r, hasStatefulDuplicatesOf type reason (mkMutator x ids chain) t = Ok r ∧
    (is_Some r ↔ ∃ pid, pid ∈ getPayloadIds type (addon i) ∧ known_payload t p pid)) as Hof.
  { intros type reason. unfold hasStatefulDuplicatesOf. cbn [block_]. rewrite (deref_eq _ _ _ Hx).
    cbn [mbind result_bind]. by apply first_duplicate_ok. }
  destruct (or_else_ok _ _ _ _ (Hof VbkType "VBK-duplicate"%string)
    (or_else_ok _ _ _ _ (Hof VtbType "VTB-duplicate"%string) (Hof AtvType "ATV-duplicate"%string))) as (r & Er & Hr).
  exists r. split; [exact Er|]. rewrite Hr. unfold duplicated. split.
  - assert (∀ pid, (pid ∈ vbkblockids (addon i) ∨ pid ∈ alt_vtbids (addon i) ∨ pid ∈ atvids (addon i)) →
      pid ∈ payloadIds (addon i)) as Hin by (intros pid; unfold payloadIds, alt_payloads; set_solver).
    intros [(pid & ? & ?)|[(pid & ? & ?)|(pid & ? & ?)]]; exists i, p, pid; (split_and!; [done|done| |done]); apply Hin; tauto.
  - intros (i' & p' & pid & Hi' & Hp' & Hpid & Hk). assert (i' = i) as -> by congruence. assert (p' = p) as -> by congruence.
    unfold payloadIds, alt_payloads in Hpid. rewrite !elem_of_app in Hpid. cbn [getPayloadIds].
    destruct Hpid as [?|[?|?]]; [right; right|right; left|left]; by exists pid.
Qed.

(** *** [connectBlock] *)
(** Blocks keep everything but the level, [BLOCK_FAILED_POP] and [BLOCK_FAILED_CHILD]. *)
Definition kept i j : Prop :=
  same_node i j ∧ ∀ n, 3 <= n → n ≠ 6 → n ≠ 7 → Z.testbit (status i) n = Z.testbit (status j) n.

#[export] Instance kept_equiv : Equivalence kept.
Proof.
  split.
  - done.
  - intros i j [Hn E]. split; [by symmetry|]. intros n ???. by rewrite E.
  - intros i j l [Hn E] [Hn' E']. split; [by etrans|]. intros n ???. by rewrite E, E'.
Qed.

Lemma own_kept i j : same_own i j → kept i j.
Proof. intros (Hn & E & _). split; [done|]. intros n _ _ ?. by apply E. Qed.

Lemma raised_kept up i : 0 <= up <= 7 → kept i (raised up i).
Proof. intros. split; [symmetry; apply raised_node|]. intros n ???. by rewrite raised_bit. Qed.

Lemma setFlag_pop_kept i : kept i (setFlag (Z.shiftl 1 6) i).
Proof.
  split; [symmetry; apply same_node_setFlag|]. intros n Hn H6 _. rewrite setFlag_bit by lia.
  destruct (Z.eqb_spec n 6); [done|by rewrite orb_false_r].
Qed.

Lemma kept_deleted i j : kept i j → isDeleted j = isDeleted i.
Proof.
  intros [_ E]. unfold isDeleted. change BLOCK_DELETED with (Z.shiftl 1 10). rewrite !hasFlags_bit by lia.
  symmetry. apply E; lia.
Qed.

Lemma own_level i j : same_own i j → level (status j) = level (status i) ∧ failed_pop j = failed_pop i ∧
  Z.testbit (status j) 5 = Z.testbit (status i) 5.
Proof.
  intros (_ & E & _). split_and!; [|unfold failed_pop; symmetry; apply E; lia|symmetry; apply E; lia].
  symmetry. apply level_eq. intros. apply E. lia.
Qed.

Lemma duplicated_kept t t' x : store_rel kept (blocks_ t) (blocks_ t') → payloadsIndex_ t' = payloadsIndex_ t →
  finalizedPayloadsIndex_ t' = finalizedPayloadsIndex_ t → duplicated t x → duplicated t' x.
Proof.
  intros R Ep Ef (i & p & pid & Hx & Hp & Hpid & Hk).
  destruct (store_rel_lookup _ _ _ x i R Hx) as (i' & Hx' & (_ & _ & Hpp & _ & _ & Ha) & _).
  exists i', p, pid. rewrite <- Hpp, <- Ha. split_and!; [done..|].
  destruct Hk as [Hf|(h & j & Hh & Hj & Hd & Hanc & Hge)]; [left; by rewrite Ef|right].
  destruct (store_rel_lookup _ _ _ h j R Hj) as (j' & Hj' & Hk). exists h, j'.
  rewrite Ep, (kept_deleted _ _ Hk). destruct Hk as [Hn _]. rewrite <- (proj1 Hn). split_and!; [done..| |done].
  apply (ancestor_links (blocks_ t)); [|done]. eapply store_rel_mono; [|exact R]. intros ?? [? _]. by apply same_node_links.
Qed.

(** A block that was no candidate for a tip becomes valid and is then invalidated. *)
Lemma invalidate_raised_ok t x i i1 p : tree_inv t → blocks_ t !! x = Some i → pprev i = Some p → same_node i i1 →
  can_tip i = false → isFailed i = false → isFailed i1 = false → status_ok (status i1) → 1 <= level (status i1) < 4 →
  contains (blocks_ t) (activeChain_ t) (Some x) = Ok false →
  ∃ t', invalidateSubtree x BLOCK_FAILED_POP false (with_blocks <[x := i1]> t) = Ok t' ∧ tree_inv t' ∧ same_rest t t' ∧
    store_rel same_own (<[x := setFlag BLOCK_FAILED_POP i1]> (blocks_ t)) (blocks_ t').
Proof.
  intros [Hok Hch Htips] Hx Hp Hsn Hct Hf Hf1 Hst1 Hlv Hc. set (t1 := with_blocks _ t).
  assert (blocks_ t1 !! x = Some i1) as Hx1 by apply lookup_insert_eq.
  assert (pprev i1 = Some p) as Hp1 by (rewrite <- Hp; symmetry; apply Hsn).
  assert (height i1 = height i) as Hh1 by (symmetry; apply Hsn).
  destruct (wf_prev _ (so_wf _ Hok) x i p) as (j & Hj & _); [done..|].
  pose proof (prev_ne _ _ _ _ (so_wf _ Hok) Hx Hp) as Hxp.
  assert (isFailed j = false) as Hfj.
  { rewrite <- (Hch x i p j) by done. rewrite isFailed_bits in Hf. by apply orb_false_elim in Hf as [_ ?]. }
  unfold invalidateSubtree. rewrite (deref_eq _ _ _ Hx1). cbn [mbind result_bind]. rewrite Hp1.
  change BLOCK_FAILED_POP with (Z.shiftl 1 6). rewrite (reason_valid _ 6) by (split; lia). cbn [vassert mbind result_bind].
  rewrite hasFlags_bit by lia. rewrite isFailed_bits in Hf1. apply orb_false_elim in Hf1 as [Hf56 Hf7].
  apply orb_false_elim in Hf56 as [Hf5 Hf6]. rewrite Hf6. rewrite isValid_eq by done. cbn [mbind result_bind].
  rewrite isFailed_bits, Hf5, Hf6, Hf7. change BLOCK_VALID_TREE with 1. destruct (Z.leb_spec 1 (level (status i1))); [|lia].
  cbn [orb negb andb]. rewrite (contains_eq _ _ _ _ Hx1), Hh1. rewrite (contains_eq _ _ _ _ Hx) in Hc.
  injection Hc as Hc. change (activeChain_ t1) with (activeChain_ t). rewrite Hc. cbn [mbind result_bind].
  rewrite (doInvalidate_eq t1 x i1 6) by (done || lia). cbn [mbind result_bind].
  set (i2 := setFlag (Z.shiftl 1 6) i1). set (t2 := emit _ _).
  assert (same_node i i2) as Hsn2 by (etrans; [exact Hsn|symmetry; apply same_node_setFlag]).
  assert (blocks_ t2 = <[x := i2]> (blocks_ t)) as Eb by (apply insert_insert_eq).
  assert (isFailed i2 = true) as Hf2 by (apply setFlag_failed; lia).
  assert (∀ y, is_valid_tip (blocks_ t2) y ↔ y ∈ tips_ t) as Hvt.
  { intros y. rewrite Eb, (is_valid_tip_update _ x i i2 y); [symmetry; apply Htips|done|by apply same_node_links|].
    by rewrite Hct, can_tip_failed. }
  assert (tips_ t2 = tips_ t) as Et.
  { apply set_eq. intros y. cbn. rewrite elem_of_difference, elem_of_singleton. split; [tauto|]. intros Hy.
    split; [done|]. intros ->. apply Htips in Hy as (i' & Hi' & Hci & _). congruence. }
  destruct (invalidate_below_ok t2 x i2 p) as (t' & Ht' & Hinv' & Hrest & Hrel).
  - rewrite Eb. apply (store_ok_update _ x i); [done..|]. apply status_ok_setFlag; lia || done.
  - by rewrite Eb, lookup_insert_eq.
  - rewrite <- Hp. symmetry. apply Hsn2.
  - done.
  - rewrite Eb, lookup_insert_ne by done. by eexists.
  - intros y Hy. apply Hvt. by rewrite <- Et.
  - intros y _ Hy. rewrite Et. by apply Hvt.
  - intros y Hy. rewrite Eb. destruct (decide (y = x)) as [->|Hyx].
    + intros iy py jy. rewrite lookup_insert_eq. intros [= <-] Hpy Hjy.
      assert (pprev i2 = pprev i) as E2 by (symmetry; apply Hsn2). assert (py = p) as -> by congruence.
      rewrite lookup_insert_ne in Hjy by done. assert (jy = j) as -> by congruence.
      unfold i2. rewrite setFlag_bit, Hf7, Hfj by lia. done.
    + apply (child_flag_update _ x i); [apply Hok|done|done|done| |done]. right.
      assert (pnext i = pnext i2) as -> by apply Hsn2. done.
  - exists t'. apply bind_Ok in Ht' as (t3 & -> & Ht'). cbn [mbind result_bind]. rewrite Ht'. cbn [mbind result_bind].
    rewrite <- Eb. split_and!; [done|done|exact Hrest|done].
Qed.

Lemma unconnected_tip i : conn i = false → can_tip i = false.
Proof.
  unfold conn, can_tip. change validTipLevel with 2. intros ->. by rewrite andb_false_r.
Qed.

Lemma raised_status_ok i : status_ok (status i) → conn i = false → failed_pop i = false →
  status_ok (status (raised 2 i)) ∧ level (status (raised 2 i)) = 2.
Proof.
  intros [Hl _] Hc%Z.leb_gt Hf. rewrite raised_level by lia. rewrite Z.max_l by lia. split; [|done]. split.
  - rewrite raised_level by lia. lia.
  - rewrite raised_level by lia. lia.
Qed.

(** The connected block, with [BLOCK_FAILED_POP] if there is a duplicate. *)
Definition connected (duplicate : option string) i : alt_index :=
  match duplicate with Some _ => setFlag BLOCK_FAILED_POP (raised 2 i) | None => raised 2 i end.

Lemma connected_ok duplicate i : status_ok (status i) → conn i = false → failed_pop i = false →
  kept i (connected duplicate i) ∧ status_ok (status (connected duplicate i)) ∧
  level (status (connected duplicate i)) = 2 ∧ Z.testbit (status (connected duplicate i)) 7 = Z.testbit (status i) 7 ∧
  (failed_pop (connected duplicate i) = true ↔ is_Some duplicate).
Proof.
  intros Hst Hc Hf. destruct (raised_status_ok i Hst Hc Hf) as [Hst1 Hl1]. unfold connected. destruct duplicate as [e|].
  - assert (level (status (setFlag BLOCK_FAILED_POP (raised 2 i))) = level (status (raised 2 i))) as El.
    { apply level_eq. intros n Hn. change BLOCK_FAILED_POP with (Z.shiftl 1 6). rewrite setFlag_bit by lia.
      destruct (Z.eqb_spec n 6); [lia|by rewrite orb_false_r]. }
    split_and!.
    + etrans; [by apply (raised_kept 2)|apply setFlag_pop_kept].
    + apply (status_ok_setFlag 6); lia || done.
    + congruence.
    + change BLOCK_FAILED_POP with (Z.shiftl 1 6). rewrite setFlag_bit, raised_bit by lia. by rewrite orb_false_r.
    + split; [by eexists|]. intros _. unfold failed_pop. change BLOCK_FAILED_POP with (Z.shiftl 1 6).
      rewrite setFlag_bit by lia. by rewrite orb_true_r.
  - split_and!; [by apply raised_kept|done|done|by rewrite raised_bit by lia|].
    unfold failed_pop. rewrite raised_bit by lia. unfold failed_pop in Hf. rewrite Hf. split; [done|by intros []].
Qed.

(** Between the check for duplicates and the signal. *)
Lemma connect_tip_ok t x i p duplicate : tree_inv t → blocks_ t !! x = Some i → pprev i = Some p →
  conn i = false → failed_pop i = false → (∀ c jc, c ∈ pnext i → blocks_ t !! c = Some jc → conn jc = false) →
  contains (blocks_ t) (activeChain_ t) (Some x) = Ok false →
  ∃ t', (t ← match duplicate with
             | Some _ => invalidateSubtree x BLOCK_FAILED_POP false (with_blocks <[x := raised 2 i]> t)
             | None => Ok (with_blocks <[x := raised 2 i]> t)
             end; tryAddTip x t) = Ok t' ∧ tree_inv t' ∧ same_rest t t' ∧
    store_rel same_own (<[x := connected duplicate i]> (blocks_ t)) (blocks_ t').
Proof.
  intros Hinv Hx Hp Hc Hf Hch Hcont. pose proof (ti_store _ Hinv) as Hok.
  assert (status_ok (status i)) as Hst by by eapply so_status.
  destruct (connected_ok None i Hst Hc Hf) as ([Hsn1 _] & Hst1 & Hl1 & H7 & _). cbn [connected] in *.
  destruct (connected_ok duplicate i Hst Hc Hf) as ([Hsn2 _] & Hst2 & _ & H72 & Hdup).
  pose proof (raised_flags 2 i ltac:(lia)) as [Ef1 _]. pose proof (unconnected_tip i Hc) as Hct.
  set (t1 := with_blocks _ t). assert (blocks_ t1 !! x = Some (raised 2 i)) as Hx1 by apply lookup_insert_eq.
  destruct (isFailed i) eqn:Efi.
  - (* the block is failed already *)
    assert (isFailed (connected duplicate i) = true) as Hf2.
    { destruct duplicate; [apply (setFlag_failed 6); lia|done]. }
    assert (∃ t', match duplicate with Some _ => invalidateSubtree x BLOCK_FAILED_POP false t1 | None => Ok t1 end = Ok t' ∧
      blocks_ t' = <[x := connected duplicate i]> (blocks_ t) ∧ tips_ t' = tips_ t ∧ same_rest t t') as (t' & -> & Eb & Et & Hr).
    { destruct duplicate as [e|]; [|by exists t1].
      unfold invalidateSubtree. rewrite (deref_eq _ _ _ Hx1). cbn [mbind result_bind].
      assert (pprev (raised 2 i) = pprev i) as -> by (symmetry; apply Hsn1). rewrite Hp.
      change BLOCK_FAILED_POP with (Z.shiftl 1 6). rewrite (reason_valid _ 6) by (split; lia). cbn [vassert mbind result_bind].
      rewrite hasFlags_bit, raised_bit by lia. unfold failed_pop in Hf. rewrite Hf, isValid_eq by done.
      rewrite Ef1. cbn [negb andb mbind result_bind]. rewrite (doInvalidate_eq t1 x (raised 2 i) 6) by (done || lia).
      eexists. split; [done|]. cbn [emit with_tips with_blocks blocks_ tips_].
      split_and!; [apply insert_insert_eq| |done]. apply set_eq. intros y. cbn. rewrite elem_of_difference, elem_of_singleton. split; [tauto|].
      intros Hy. split; [done|]. intros ->. apply (ti_tips _ Hinv) in Hy as (i' & Hi' & Hci & _). congruence. }
    cbn [mbind result_bind].
    assert (tree_inv t') as Hinv' by (by apply (still_failed_inv t t' x i (connected duplicate i))).
    exists t'. rewrite (tryAddTip_failed t' x (connected duplicate i)); [|apply Hinv'|by rewrite Eb, lookup_insert_eq|done].
    split_and!; [done|done|done|]. by rewrite Eb.
  - destruct duplicate as [e|].
    + destruct (invalidate_raised_ok t x i (raised 2 i) p) as (t' & Ht' & Hinv' & Hr & Hrel);
        [done|done|done|done|done|done|congruence|done|lia|done|]. fold t1 in Ht'. rewrite Ht'. cbn [mbind result_bind].
      destruct (store_rel_lookup _ _ _ x _ Hrel (lookup_insert_eq _ _ _)) as (i' & Hx' & Hown).
      exists t'. rewrite (tryAddTip_failed t' x i'); [done|apply Hinv'|done|].
      apply (flag_failed 6); [lia|]. destruct Hown as (_ & Hb & _). rewrite <- Hb by lia.
      by apply Hdup; eexists.
    + cbn [mbind result_bind].
      assert (store_ok (blocks_ t1)) as Hok1 by (by apply (store_ok_update _ x i)).
      destruct (tryAddTip_enable t t1 x i (raised 2 i)) as (t' & -> & Et' & Htips);
        [done|done|done|by apply same_node_links|done|done|done| |apply Hinv|].
      { intros c jc Hcn Hjc. apply unconnected_tip. by apply (Hch c). }
      exists t'. split; [done|]. rewrite Et'. split_and!; [|done|done]. constructor; [done| |done].
      intros y. destruct (decide (y = x)) as [->|Hy].
      * intros iy py jy. cbn [t1 with_tips with_blocks blocks_]. rewrite lookup_insert_eq. intros [= <-] Hpy Hjy.
        assert (pprev i = Some py) as Hpi by (rewrite <- Hpy; apply Hsn1).
        pose proof (prev_ne _ _ _ _ (so_wf _ Hok) Hx Hpi). rewrite lookup_insert_ne in Hjy by done.
        rewrite H7. by apply (ti_child _ Hinv x i py jy).
      * apply (child_flag_update _ x i); [apply Hok|done|done|done|left; congruence|apply Hinv].
Qed.

Lemma connectBlock_ok t x i p j : tree_inv t → isLoadingBlocks_ t = false → blocks_ t !! x = Some i → pprev i = Some p →
  blocks_ t !! p = Some j → conn j = true → conn i = false → has_payloads i = true → failed_pop i = false →
  is_active i = false → (∀ c jc, c ∈ pnext i → blocks_ t !! c = Some jc → conn jc = false) →
  contains (blocks_ t) (activeChain_ t) (Some x) = Ok false →
  ∃ t' b duplicate, connectBlock params x t = Ok (t', b) ∧ tree_inv t' ∧ same_rest t t' ∧
    store_rel same_own (<[x := connected duplicate i]> (blocks_ t)) (blocks_ t') ∧ (is_Some duplicate ↔ duplicated t x).
Proof.
  intros Hinv Hld Hx Hp Hj Hcj Hc Hpl Hf Hact Hch Hcont. pose proof (ti_store _ Hinv) as Hok.
  assert (status_ok (status i)) as Hst by by eapply so_status.
  assert (status_ok (status j)) as Hstj by by eapply so_status.
  destruct (connected_ok None i Hst Hc Hf) as ([Hsn1 Hb1] & Hst1 & Hl1 & _). cbn [connected] in *.
  unfold connectBlock. rewrite Hld, (deref_eq _ _ _ Hx). cbn [negb vassert mbind result_bind].
  change BLOCK_HAS_PAYLOADS with (Z.shiftl 1 8). change BLOCK_ACTIVE with (Z.shiftl 1 9). rewrite !flag_eq by lia.
  unfold has_payloads in Hpl. unfold is_active in Hact. rewrite Hpl, Hact, isConnected_eq, Hc by done.
  cbn [negb vassert mbind result_bind]. unfold deref_prev. rewrite Hp, (deref_eq _ _ _ Hj). cbn [mbind result_bind].
  rewrite isConnected_eq, Hcj by done. cbn [vassert mbind result_bind].
  rewrite (unconnected_children (blocks_ t) x i) by done. cbn [vassert mbind result_bind].
  change BLOCK_CONNECTED with 2. rewrite (raise_ok t x i 2 Hx Hf).
  2:{ intros p' Hp'. assert (p' = p) as -> by congruence. exists j. split_and!; [done|apply Hstj|]. intros _. by apply Z.leb_le. }
  cbn [mbind result_bind fst snd]. unfold conn in Hc. apply Z.leb_gt in Hc as Hlt.
  rewrite (proj2 (Z.ltb_lt _ _) Hlt). cbn [vassert mbind result_bind]. set (t1 := with_blocks _ t).
  assert (blocks_ t1 !! x = Some (raised 2 i)) as Hx1 by apply lookup_insert_eq.
  assert (store_rel kept (blocks_ t) (blocks_ t1)) as Hrel1.
  { apply (store_rel_insert _ _ _ i); [apply _|done|by split]. }
  assert (store_ok (blocks_ t1)) as Hok1 by (by apply (store_ok_update _ x i)).
  assert (pprev (raised 2 i) = Some p) as Hp1 by (rewrite <- Hp; symmetry; apply Hsn1).
  destruct (newChain_contains (blocks_ t1) (Alt.height (bootstrapBlock params)) p j) as (ch & Hch1 & Hin1).
  { apply Hok1. } { cbn. rewrite lookup_insert_ne; [done|]. by eapply prev_ne; [apply Hok|exact Hx|]. }
  unfold makeConnectedLeafPayloadMutator. rewrite (deref_eq _ _ _ Hx1). cbn [mbind result_bind].
  rewrite Hp1, Hch1. cbn [mbind result_bind]. unfold isRoot. rewrite Hp1. rewrite bool_decide_eq_false_2 by done. cbn [negb vassert mbind result_bind].
  rewrite isValidUpTo_eq by done. rewrite Hl1. change (BLOCK_VALID_TREE <=? 2) with true. cbn [vassert mbind result_bind].
  rewrite isConnected_eq by done. unfold conn at 1. rewrite Hl1. change (2 <=? 2) with true. cbn [vassert mbind result_bind].
  rewrite (unconnected_children (blocks_ t1) x (raised 2 i)).
  2: done. 2: done.
  2:{ intros c jc Hcn Hjc. assert (c ≠ x) as Hcx.
      { intros ->. destruct (wf_next _ (so_wf _ Hok1) x (raised 2 i) x) as (jx & Hjx & Hpx); [done|done|].
        by eapply prev_ne; [apply Hok1|exact Hjx|exact Hpx|]. }
      cbn in Hjc. rewrite lookup_insert_ne in Hjc by done. apply (Hch c); [|done].
      assert (pnext i = pnext (raised 2 i)) as -> by apply Hsn1. done. }
  cbn [vassert mbind result_bind].
  destruct (hasStatefulDuplicates_ok t1 x (raised 2 i) p (list_to_set (payloadIds (addon (raised 2 i)))) ch)
    as (duplicate & Hd & Hdup); [apply Hok1|done|done|done|].
  rewrite Hd. cbn [mbind result_bind].
  destruct (connect_tip_ok t x i p duplicate Hinv Hx Hp) as (t' & Ht' & Hinv' & Hrest & Hrel); [done..|].
  apply bind_Ok in Ht' as (t2 & Ht2 & Ht'). fold t1 in Ht2. rewrite Ht2. cbn [mbind result_bind]. rewrite Ht'. cbn [mbind result_bind].
  destruct (store_rel_lookup _ _ _ x _ Hrel (lookup_insert_eq _ _ _)) as (i' & Hx' & _).
  rewrite (deref_eq _ _ _ Hx'). cbn [mbind result_bind]. rewrite isValid_eq by (eapply so_status; [apply Hinv'|done]).
  cbn [mbind result_bind]. eexists _, _, duplicate. split; [done|].
  assert (is_Some duplicate ↔ duplicated t x) as Hdt.
  { rewrite Hdup. split; apply duplicated_kept; done || by symmetry. }
  destruct (_ && _); (split_and!; [by constructor; apply Hinv'|done|done|done..]).
Qed.

(** *** The loop *)
(** A block stays connected or not, or it is connected now. *)
Definition evolved_block (D : Prop) i i' : Prop :=
  kept i i' ∧ ((level (status i') = level (status i) ∧ failed_pop i' = failed_pop i) ∨
    (conn i = false ∧ has_payloads i = true ∧ level (status i') = 2 ∧ (failed_pop i' = true ↔ D))).

Record evolved t t' : Prop := {
  ev_rest : same_rest t t';
  ev_store : ∀ x, option_Forall2 (evolved_block (duplicated t x)) (blocks_ t !! x) (blocks_ t' !! x)
}.

(** Unconnected blocks are neither invalid by their payloads nor applied. *)
Record quiet t : Prop := {
  qt_loading : isLoadingBlocks_ t = false;
  qt_block : ∀ y i, blocks_ t !! y = Some i → conn i = false →
    failed_pop i = false ∧ is_active i = false ∧ contains (blocks_ t) (activeChain_ t) (Some y) = Ok false
}.

(** A block is connected when it has payloads and its predecessor is connected. *)
Definition connected_inv t : Prop := ∀ y i p j, blocks_ t !! y = Some i → pprev i = Some p → blocks_ t !! p = Some j →
  conn i = has_payloads i && conn j.

Lemma evolved_refl t : evolved t t.
Proof.
  split; [reflexivity|]. intros x. destruct (blocks_ t !! x); constructor. split; [reflexivity|by left].
Qed.

Lemma evolved_kept t t' : evolved t t' → store_rel kept (blocks_ t) (blocks_ t').
Proof. intros [_ E] x. specialize (E x). inversion E as [i i' [Hk _]|]; by constructor. Qed.

Lemma evolved_conn D i i' : evolved_block D i i' → conn i = true → conn i' = true.
Proof. intros (_ & [[El _]|(Hc & _)]) Hi; [|congruence]. unfold conn. by rewrite El. Qed.

Lemma evolved_payloads D i i' : evolved_block D i i' → has_payloads i' = has_payloads i ∧ is_active i' = is_active i.
Proof. intros ([_ E] & _). unfold has_payloads, is_active. split; symmetry; apply E; lia. Qed.

Lemma evolved_trans t t1 t2 : evolved t t1 → evolved t1 t2 → evolved t t2.
Proof.
  intros E1 E2. pose proof (evolved_kept _ _ E1) as Hk. pose proof (ev_rest _ _ E1) as Hr1.
  assert (∀ x, duplicated t1 x ↔ duplicated t x) as HD.
  { unfold same_rest in Hr1. destruct_and! Hr1. intros x. split; apply duplicated_kept; done || by symmetry. }
  split; [etrans; apply E1 || apply E2|]. intros x.
  pose proof (ev_store _ _ E1 x) as F1. pose proof (ev_store _ _ E2 x) as F2.
  inversion F1 as [i i1 [K1 B1] Ei Ei1|Ei Ei1]; rewrite <- Ei1 in F2; inversion F2 as [? i2 [K2 B2] Eq Ei2|]; constructor.
  split; [by etrans|]. rewrite HD in B2. destruct (evolved_payloads (duplicated t x) i i1 (conj K1 B1)) as [Ep _].
  destruct B1 as [[L1 F1']|(C1 & P1 & L1 & D1)], B2 as [[L2 F2']|(C2 & P2 & L2 & D2)].
  - left. split; congruence.
  - right. split_and!; [|congruence|done|done]. unfold conn in *. by rewrite <- L1.
  - right. split_and!; [done|done|congruence|]. by rewrite F2'.
  - unfold conn in C2. by rewrite L1 in C2.
Qed.

(** [d] are the blocks that were taken from the stack, [l] is the stack. *)
Record connecting t0 (d l : list (list Z)) t : Prop := {
  cn_inv : tree_inv t;
  cn_ev : evolved t0 t;
  cn_quiet : quiet t;
  cn_nodup : NoDup (d ++ l);
  cn_prev : ∀ y, y ∈ d ++ l → ∃ i p j, blocks_ t !! y = Some i ∧ pprev i = Some p ∧ blocks_ t !! p = Some j ∧ conn j = true;
  cn_wait : ∀ y i, y ∈ l → blocks_ t !! y = Some i → conn i = false;
  cn_conn : ∀ y i p j, y ∉ l → blocks_ t !! y = Some i → pprev i = Some p → blocks_ t !! p = Some j →
    conn i = has_payloads i && conn j
}.

(** The children of an unconnected block. *)
Lemma waiting_children t0 d l t x i c jc : connecting t0 d l t → blocks_ t !! x = Some i → conn i = false →
  c ∈ pnext i → blocks_ t !! c = Some jc → pprev jc = Some x ∧ c ∉ d ++ l ∧ conn jc = false.
Proof.
  intros J Hx Hc Hcn Hjc. destruct (wf_next _ (so_wf _ (ti_store _ (cn_inv _ _ _ _ J))) x i c) as (jc' & Hjc' & Hp); [done..|].
  assert (jc' = jc) as -> by congruence.
  assert (c ∉ d ++ l) as Hn.
  { intros Hin. destruct (cn_prev _ _ _ _ J c Hin) as (i' & p' & j' & Hi' & Hp' & Hj' & Hcj'). congruence. }
  split_and!; [done|done|]. rewrite (cn_conn _ _ _ _ J c jc x i) by (done || set_solver). by rewrite Hc, andb_false_r.
Qed.

(** One call of [connectBlock] in terms of [evolved]. *)
Lemma connect_evolved t t' x i duplicate : tree_inv t → blocks_ t !! x = Some i → conn i = false → failed_pop i = false →
  has_payloads i = true → same_rest t t' → (is_Some duplicate ↔ duplicated t x) →
  store_rel same_own (<[x := connected duplicate i]> (blocks_ t)) (blocks_ t') →
  evolved t t' ∧ ∃ i', blocks_ t' !! x = Some i' ∧ conn i' = true ∧
    ∀ y iy, y ≠ x → blocks_ t !! y = Some iy → ∃ iy', blocks_ t' !! y = Some iy' ∧ conn iy' = conn iy.
Proof.
  intros Hinv Hx Hc Hf Hpl Hr Hd Hrel. assert (status_ok (status i)) as Hst by (eapply so_status; [apply Hinv|done]).
  destruct (connected_ok duplicate i Hst Hc Hf) as (Hk2 & _ & Hl2 & _ & Hdup).
  split.
  - split; [done|]. intros y. pose proof (Hrel y) as Ry. destruct (decide (y = x)) as [->|Hy].
    + rewrite lookup_insert_eq in Ry. rewrite Hx. inversion Ry as [? i' Ho|]; subst. constructor.
      destruct (own_level _ _ Ho) as (El & Ef & _). split; [etrans; [exact Hk2|by apply own_kept]|].
      right. split_and!; [done|done|congruence|]. rewrite Ef, <- Hd. done.
    + rewrite lookup_insert_ne in Ry by done. inversion Ry as [iy iy' Ho|]; subst; constructor.
      destruct (own_level _ _ Ho) as (El & Ef & _). split; [by apply own_kept|]. by left.
  - destruct (store_rel_lookup _ _ _ x _ Hrel (lookup_insert_eq _ _ _)) as (i' & Hx' & Ho).
    destruct (own_level _ _ Ho) as (El & _). exists i'. split_and!; [done|unfold conn; by rewrite El, Hl2|].
    intros y iy Hy Hiy. destruct (store_rel_lookup _ _ _ y iy Hrel) as (iy' & Hiy' & Hoy); [by rewrite lookup_insert_ne|].
    exists iy'. split; [done|]. destruct (own_level _ _ Hoy) as (Ely & _). unfold conn. by rewrite Ely.
Qed.

Lemma evolved_quiet t t' : evolved t t' → quiet t → quiet t'.
Proof.
  intros Hev [Hld Hq]. pose proof (ev_rest _ _ Hev) as Hr. unfold same_rest in Hr. destruct_and! Hr.
  split; [congruence|]. intros y i' Hi' Hc. pose proof (ev_store _ _ Hev y) as F. rewrite Hi' in F.
  inversion F as [i ? He Hi|]; subst. symmetry in Hi. destruct (evolved_payloads _ _ _ He) as [_ Ea].
  destruct He as ([Hn _] & [[El Ef]|(_ & _ & El & _)]); [|by unfold conn in Hc; rewrite El in Hc].
  destruct (Hq y i Hi) as (Hf & Ha & Hcont); [unfold conn in *; by rewrite <- El|].
  split_and!; [congruence|congruence|]. rewrite (contains_eq _ _ _ _ Hi) in Hcont.
  rewrite (contains_eq _ _ _ _ Hi'). rewrite <- (proj1 Hn). replace (activeChain_ t') with (activeChain_ t) by done. done.
Qed.

(** A waiting block without payloads is skipped. *)
Lemma connecting_skip t0 d x l t i : connecting t0 d (x :: l) t → blocks_ t !! x = Some i → has_payloads i = false →
  connecting t0 (d ++ [x]) l t.
Proof.
  intros J Hx Hpl. assert ((d ++ [x]) ++ l = d ++ x :: l) as El by (by rewrite <- app_assoc).
  destruct J as [Hinv Hev Hq Hnd Hprev Hwait Hconn]. constructor; rewrite ?El; try done.
  - intros y iy Hy. apply Hwait. by right.
  - intros y iy p j Hy Hiy Hp Hj. destruct (decide (y = x)) as [->|Hyx].
    + assert (iy = i) as -> by congruence. rewrite Hpl. apply (Hwait x i); [by left|done].
    + apply (Hconn y iy p j); [|done..]. by rewrite not_elem_of_cons.
Qed.

(** A waiting block with payloads is connected, and its children wait. *)
Lemma connecting_step t0 d x l t i : connecting t0 d (x :: l) t → blocks_ t !! x = Some i → has_payloads i = true →
  ∃ t' b i', connectBlock params x t = Ok (t', b) ∧ blocks_ t' !! x = Some i' ∧
    connecting t0 (d ++ [x]) (rev (children (blocks_ t') i') ++ l) t'.
Proof.
  intros J Hx Hpl. pose proof (cn_inv _ _ _ _ J) as Hinv. pose proof (so_wf _ (ti_store _ Hinv)) as W.
  assert (conn i = false) as Hc by (apply (cn_wait _ _ _ _ J x); [by left|done]).
  destruct (qt_block _ (cn_quiet _ _ _ _ J) x i Hx Hc) as (Hf & Ha & Hcont).
  destruct (cn_prev _ _ _ _ J x) as (i0 & p & j & Hi0 & Hp & Hj & Hcj); [set_solver|]. assert (i0 = i) as -> by congruence.
  assert (∀ c jc, c ∈ pnext i → blocks_ t !! c = Some jc → pprev jc = Some x ∧ c ∉ d ++ x :: l ∧ conn jc = false) as Hch.
  { intros c jc. by apply (waiting_children t0 d (x :: l) t x i c jc). }
  destruct (connectBlock_ok t x i p j) as (t' & b & duplicate & Eb & Hinv' & Hr & Hrel & Hd);
    [done|apply J|done|done|done|done|done|done|done|done|intros; by eapply Hch|done|].
  destruct (connect_evolved t t' x i duplicate) as (Hev' & i' & Hx' & Hci' & Hoth); [done..|].
  pose proof (ev_store _ _ Hev' x) as Fx. rewrite Hx, Hx' in Fx. inversion Fx as [? ? Hex|]; subst.
  assert (pnext i' = pnext i) as En by (symmetry; apply Hex).
  assert (∀ y iy', blocks_ t' !! y = Some iy' → ∃ iy, blocks_ t !! y = Some iy ∧ same_node iy iy' ∧
    has_payloads iy' = has_payloads iy ∧ (y ≠ x → conn iy' = conn iy)) as Hback.
  { intros y iy' Hy'. pose proof (ev_store _ _ Hev' y) as Fy. rewrite Hy' in Fy. inversion Fy as [iy ? He Hiy|]; subst.
    exists iy. split_and!; [done|apply He|by eapply evolved_payloads|]. intros Hne.
    destruct (Hoth y iy Hne) as (iy2 & ? & ?); [done|]. congruence. }
  assert ((d ++ [x]) ++ rev (elements (pnext i)) ++ l ≡ₚ rev (elements (pnext i)) ++ (d ++ x :: l)) as Hperm.
  { rewrite Permutation_app_swap_app. by rewrite <- (app_assoc d [x] l). }
  exists t', b, i'. split_and!; [done|done|]. unfold children. rewrite En. constructor.
  - done.
  - eapply evolved_trans; [apply J|done].
  - eapply evolved_quiet; [done|apply J].
  - rewrite Hperm, <- Permutation_rev. apply NoDup_app. split_and!; [apply NoDup_elements| |apply J].
    intros c Hcn%elem_of_elements. destruct (wf_next _ W x i c) as (jc & Hjc & _); [done..|]. by eapply Hch.
  - intros y. rewrite Hperm, <- Permutation_rev, elem_of_app, elem_of_elements. intros [Hy|Hy].
    + destruct (wf_next _ W x i y) as (jy & Hjy & Hpy); [done..|].
      destruct (store_rel_lookup _ _ _ y jy (evolved_kept _ _ Hev') Hjy) as (jy' & Hjy' & Hn & _).
      exists jy', x, i'. split_and!; [done| |done|done]. rewrite <- Hpy. symmetry. apply Hn.
    + destruct (cn_prev _ _ _ _ J y Hy) as (iy & py & jy & Hiy & Hpy & Hjy & Hcy).
      destruct (store_rel_lookup _ _ _ y iy (evolved_kept _ _ Hev') Hiy) as (iy' & Hiy' & Hn & _).
      pose proof (ev_store _ _ Hev' py) as Fp. rewrite Hjy in Fp. inversion Fp as [? jy' He|]; subst.
      exists iy', py, jy'. split_and!; [done| |done|by eapply evolved_conn]. rewrite <- Hpy. symmetry. apply Hn.
  - intros y iy' [Hy%elem_of_rev%elem_of_elements|Hy]%elem_of_app Hiy'; destruct (Hback y iy' Hiy') as (iy & Hiy & _ & _ & Hcy).
    + destruct (Hch y iy Hy Hiy) as (_ & Hny & Hcf). rewrite Hcy; [done|set_solver].
    + rewrite Hcy; [by apply (cn_wait _ _ _ _ J y); [by right|]|]. intros ->.
      pose proof (cn_nodup _ _ _ _ J) as (_ & _ & [Hnx _]%NoDup_cons)%NoDup_app. done.
  - intros y iy' p' jp' Hy Hiy' Hp' Hjp'. destruct (Hback y iy' Hiy') as (iy & Hiy & Hny & Hply & Hcy).
    destruct (Hback p' jp' Hjp') as (jp & Hjp & Hnp & _ & Hcp). rewrite Hply.
    assert (pprev iy = Some p') as Hpy by (rewrite <- Hp'; apply Hny).
    assert (p' ≠ x) as Hpx.
    { intros ->. destruct (wf_prev _ W y iy x) as (ix & Hix & _ & Hin); [done..|]. assert (ix = i) as -> by congruence.
      apply Hy. rewrite elem_of_app, elem_of_rev, elem_of_elements. by left. }
    rewrite (Hcp Hpx). destruct (decide (y = x)) as [->|Hyx].
    + assert (iy = i) as -> by congruence. assert (p' = p) as -> by congruence. assert (jp = j) as -> by congruence.
      rewrite Hpl, Hcj. assert (iy' = i') as -> by congruence. done.
    + rewrite (Hcy Hyx). apply (cn_conn _ _ _ _ J y iy p' jp); [|done..]. set_solver.
Qed.

Lemma evolved_size t t' : evolved t t' → size (blocks_ t) = size (blocks_ t').
Proof.
  intros Hev. rewrite <- !size_dom. f_equal. apply set_eq. intros y. rewrite !elem_of_dom.
  pose proof (evolved_kept _ _ Hev y) as F. by inversion F; split; intros [].
Qed.

(** The stack empties: a block is put on it once. *)
Lemma connect_loop_ok t0 fuel d l t : connecting t0 d l t → (size (blocks_ t0) <= fuel + length d)%nat →
  ∃ t' d', connect_loop params fuel l t = Ok t' ∧ connecting t0 d' [] t'.
Proof.
  revert d l t. induction fuel as [|fuel IH]; intros d [|x l] t J Hf; cbn [connect_loop]; try (exists t, d; done).
  - exfalso. pose proof (evolved_size _ _ (cn_ev _ _ _ _ J)) as Es.
    assert (length (d ++ x :: l) <= size (blocks_ t))%nat as Hlen.
    { apply NoDup_keys_size; [apply J|]. intros y Hy. destruct (cn_prev _ _ _ _ J y Hy) as (iy & ? & ? & Hiy & _). by exists iy. }
    rewrite length_app in Hlen. cbn [length] in Hlen. lia.
  - destruct (cn_prev _ _ _ _ J x) as (i & _ & _ & Hx & _); [set_solver|]. rewrite (deref_eq _ _ _ Hx).
    cbn [mbind result_bind]. change BLOCK_HAS_PAYLOADS with (Z.shiftl 1 8). rewrite flag_eq by lia.
    fold (has_payloads i). destruct (has_payloads i) eqn:Hpl; cbn [negb].
    + destruct (connecting_step t0 d x l t i) as (t1 & b & i1 & -> & Hx1 & J1); [done..|]. cbn [mbind result_bind fst].
      rewrite (deref_eq _ _ _ Hx1). cbn [mbind result_bind]. apply (IH _ _ _ J1). rewrite length_app. cbn. lia.
    + apply (IH (d ++ [x])); [by eapply connecting_skip|]. rewrite length_app. cbn. lia.
Qed.

(** *** [setPayloads] *)
(** The node and the tree with the payloads; [ids] are the ids of the ATVs. *)
Definition with_ids (pd : PopData) (ids : list (list Z)) i : alt_index :=
  setFlag BLOCK_HAS_PAYLOADS (touch (setPayloads AtvType ids) (touch (setPayloads VtbType (map VTB_getId (vtbs pd)))
    (touch (setPayloads VbkType (map VbkBlock_getId (context pd))) i))).

Definition with_pop_data (pd : PopData) (ids : list (list Z)) x i t : tree :=
  with_payloads (finalizedPayloadsIndex_ t)
    (foldl (λ pl pid, pl_add pid (PayloadsIndex.getHash (BlockIndex.header i)) pl) (payloadsIndex_ t)
       (map VbkBlock_getId (context pd) ++ map VTB_getId (vtbs pd) ++ ids))
    (with_blocks <[x := with_ids pd ids i]> t).

Lemma mapM_ids l ids : Forall2 (λ a id, ATV_getId a = Ok id) l ids → mapM ATV_getId l = Ok ids.
Proof. induction 1 as [|a i l ids Ha _ IH]; [done|]. cbn. rewrite Ha. cbn. by rewrite IH. Qed.

Lemma commitPayloadsIds_ok type pids x i t : blocks_ t !! x = Some i → finalized i = false →
  commitPayloadsIds type pids x t =
    Ok (with_payloads (finalizedPayloadsIndex_ t)
          (foldl (λ pl pid, pl_add pid (PayloadsIndex.getHash (BlockIndex.header i)) pl) (payloadsIndex_ t) pids)
          (with_blocks <[x := touch (setPayloads type pids) i]> t)).
Proof.
  intros Hx Hfin. unfold commitPayloadsIds, modify. rewrite (deref_eq _ _ _ Hx). cbn [mbind result_bind].
  rewrite (deref_eq _ x (touch (setPayloads type pids) i)) by apply lookup_insert_eq. cbn [mbind result_bind].
  change (finalized (touch _ i)) with (finalized i). by rewrite Hfin.
Qed.

Lemma alt_setPayloads_ok {S} `{PayloadsStorage S} (s : S) t pd x i ids : blocks_ t !! x = Some i → status_ok (status i) →
  1 <= level (status i) → has_payloads i = false → is_active i = false → pprev i ≠ None → finalized i = false →
  checkPopDataForDuplicates pd = Ok tt → Forall2 (λ a id, ATV_getId a = Ok id) (atvs pd) ids →
  alt_setPayloads x pd (s, t) = Ok (writePayloads pd s, with_pop_data pd ids x i t).
Proof.
  intros Hx Hst Hl Hpl Ha Hp Hfin Hd Hids. unfold alt_setPayloads. rewrite (deref_eq _ _ _ Hx). cbn [mbind result_bind].
  rewrite isValidUpTo_eq by done. change BLOCK_VALID_TREE with 1. rewrite (proj2 (Z.leb_le _ _) Hl). cbn [vassert mbind result_bind].
  change BLOCK_HAS_PAYLOADS with (Z.shiftl 1 8). change BLOCK_ACTIVE with (Z.shiftl 1 9). rewrite !flag_eq by lia.
  unfold has_payloads in Hpl. unfold is_active in Ha. rewrite Hpl, Ha. unfold isRoot. rewrite bool_decide_eq_false_2 by done.
  rewrite Hd. cbn [negb vassert catch mbind result_bind]. rewrite (mapM_ids _ _ Hids).
  rewrite (commitPayloadsIds_ok _ _ x i) by done. cbn [mbind result_bind].
  set (i1 := touch (setPayloads VbkType _) i). rewrite (commitPayloadsIds_ok VtbType _ x i1); [|apply lookup_insert_eq|exact Hfin].
  cbn [mbind result_bind].
  set (i2 := touch (setPayloads VtbType _) i1). rewrite (commitPayloadsIds_ok AtvType _ x i2); [|apply lookup_insert_eq|exact Hfin].
  cbn [mbind result_bind]. set (i3 := touch (setPayloads AtvType _) i2).
  unfold modify. rewrite (deref_eq _ x i3) by apply lookup_insert_eq. cbn [mbind result_bind].
  unfold with_pop_data. rewrite !foldl_app. destruct t as [f1 f2 f3 f4 f5 f6 f7 f8 f9 f10 f11 f12 f13].
  cbv beta iota delta [with_payloads with_blocks blocks_ tips_ activeChain_ appliedBlockCount deferForkResolutionDepth
    isUpdateTipsDeferred lastModifiedBlock isLoadingBlocks_ isLoaded_ finalizedPayloadsIndex_ payloadsIndex_ emitted ext].
  by rewrite !insert_insert_eq.
Qed.

(** The new payloads change neither the level nor the failure of the block. *)
Lemma with_ids_status pd ids i n : 0 <= n → n ≠ 8 →
  Z.testbit (status (with_ids pd ids i)) n = Z.testbit (status i) n.
Proof.
  intros Hn H8. unfold with_ids. change BLOCK_HAS_PAYLOADS with (Z.shiftl 1 8). rewrite setFlag_bit by lia.
  destruct (Z.eqb_spec n 8); [done|by rewrite orb_false_r].
Qed.

Lemma with_ids_eq pd ids i : same_links i (with_ids pd ids i) ∧ level (status (with_ids pd ids i)) = level (status i) ∧
  failed_pop (with_ids pd ids i) = failed_pop i ∧ is_active (with_ids pd ids i) = is_active i ∧
  has_payloads (with_ids pd ids i) = true.
Proof.
  split_and!; try (unfold failed_pop, is_active; apply with_ids_status; lia).
  - unfold with_ids. symmetry. etrans; [apply setFlag_links|done].
  - apply level_eq. intros. apply with_ids_status; lia.
  - unfold has_payloads, with_ids. change BLOCK_HAS_PAYLOADS with (Z.shiftl 1 8).
    rewrite setFlag_bit by lia. by rewrite orb_true_r.
Qed.

Lemma with_pop_data_inv pd ids x i t : tree_inv t → blocks_ t !! x = Some i → tree_inv (with_pop_data pd ids x i t).
Proof.
  intros Hinv Hx. assert (status_ok (status i)) as Hst by (eapply so_status; [apply Hinv|done]).
  destruct (with_ids_eq pd ids i) as (Hl & _).
  assert (isFailed (with_ids pd ids i) = isFailed i) as Hf by (rewrite !isFailed_bits, !with_ids_status by lia; done).
  apply (update_tree_inv t _ x i (with_ids pd ids i)); [done|done|done| |done| | |done|done].
  - apply (status_ok_eq (status i)); [done|]. intros n Hn. symmetry. apply with_ids_status; lia.
  - apply can_tip_eq; [|done]. intros n Hn. apply with_ids_status; lia.
  - apply with_ids_status; lia.
Qed.

(** The nodes of the tree with the payloads. *)
Lemma with_pop_data_back pd ids x i t y iy : blocks_ t !! x = Some i → blocks_ (with_pop_data pd ids x i t) !! y = Some iy →
  ∃ jy, blocks_ t !! y = Some jy ∧ same_links jy iy ∧ conn iy = conn jy ∧ failed_pop iy = failed_pop jy ∧
    is_active iy = is_active jy ∧ (y ≠ x → has_payloads iy = has_payloads jy).
Proof.
  intros Hx. cbn [with_pop_data with_payloads with_blocks blocks_]. destruct (decide (x = y)) as [<-|Hne].
  - rewrite lookup_insert_eq. intros [= <-]. exists i. destruct (with_ids_eq pd ids i) as (? & El & ? & ? & _).
    split_and!; try done. unfold conn. by rewrite El.
  - rewrite lookup_insert_ne by done. intros Hy. by exists iy.
Qed.

Lemma with_pop_data_quiet pd ids x i t : quiet t → blocks_ t !! x = Some i → quiet (with_pop_data pd ids x i t).
Proof.
  intros [Hld Hq] Hx. split; [done|]. intros y iy Hy Hc.
  destruct (with_pop_data_back pd ids x i t y iy Hx Hy) as (jy & Hjy & (Eh & _) & Ec & Ef & Ea & _).
  destruct (Hq y jy Hjy) as (? & ? & Hcont); [congruence|]. split_and!; [congruence|congruence|].
  rewrite (contains_eq _ _ _ _ Hjy) in Hcont. rewrite (contains_eq _ _ _ _ Hy), <- Eh. done.
Qed.

(** Below a connected predecessor the block itself waits. *)
Lemma with_pop_data_waiting pd ids x i p j t : tree_inv t → quiet t → connected_inv t → blocks_ t !! x = Some i →
  pprev i = Some p → blocks_ t !! p = Some j → conn j = true → has_payloads i = false →
  let t0 := with_pop_data pd ids x i t in connecting t0 [] [x] t0.
Proof.
  intros Hinv Hq Hci Hx Hp Hj Hcj Hpl t0. destruct (with_ids_eq pd ids i) as (Hl & El & _).
  assert (conn i = false) as Hc by (by rewrite (Hci x i p j), Hpl).
  assert (p ≠ x) as Hpx by (intros ->; by eapply prev_ne; [apply Hinv|exact Hx|exact Hp|]).
  assert (blocks_ t0 !! x = Some (with_ids pd ids i)) as Hx0 by apply lookup_insert_eq.
  constructor.
  - by apply with_pop_data_inv.
  - apply evolved_refl.
  - by apply with_pop_data_quiet.
  - apply NoDup_singleton.
  - intros y ->%list_elem_of_singleton. exists (with_ids pd ids i), p, j. split_and!; [done| | |done].
    + rewrite <- Hp. symmetry. apply Hl.
    + cbn. by rewrite lookup_insert_ne.
  - intros y iy ->%list_elem_of_singleton Hiy. assert (iy = with_ids pd ids i) as -> by congruence.
    unfold conn in *. by rewrite El.
  - intros y iy q jq Hy Hiy Hq' Hjq. rewrite list_elem_of_singleton in Hy.
    destruct (with_pop_data_back pd ids x i t y iy Hx Hiy) as (iy0 & Hiy0 & (_ & Ep & _) & -> & _ & _ & Epl).
    destruct (with_pop_data_back pd ids x i t q jq Hx Hjq) as (jq0 & Hjq0 & _ & -> & _).
    rewrite (Epl Hy). apply (Hci y iy0 q jq0); [done|congruence|done].
Qed.

(** C2: accepting the payloads of a block connects exactly the blocks it should.  [acceptBlock] on a block
    without payloads succeeds, stores the payloads, and runs the worklist to its end; afterwards every
    block is connected precisely when it has payloads and its predecessor is connected
    ([connected_inv]), so that the block and all of the descendants that were waiting for it are; the blocks
    connected by the call are at level [BLOCK_CONNECTED], and marked [BLOCK_FAILED_POP] exactly when one of
    their payloads is already in an ancestor or in a finalized block; no other block changes level or that
    flag, and the flags of the subtrees and the tips stay consistent ([tree_inv]). *)
Theorem acceptBlock_connects {S} `{PayloadsStorage S} (s : S) t pd x i p ids :
  tree_inv t → quiet t → connected_inv t → blocks_ t !! x = Some i → pprev i = Some p →
  1 <= level (status i) → has_payloads i = false → finalized i = false →
  checkPopDataForDuplicates pd = Ok tt → Forall2 (λ a id, ATV_getId a = Ok id) (atvs pd) ids →
  ∃ t', acceptBlock params x pd (s, t) = Ok (writePayloads pd s, t') ∧
    evolved (with_pop_data pd ids x i t) t' ∧ connected_inv t' ∧ tree_inv t' ∧ quiet t'.
Proof.
  intros Hinv Hq Hci Hx Hp Hl Hpl Hfin Hd Hids. pose proof (ti_store _ Hinv) as Hok.
  assert (status_ok (status i)) as Hst by by eapply so_status.
  destruct (wf_prev _ (so_wf _ Hok) x i p) as (j & Hj & _); [done..|].
  assert (status_ok (status j)) as Hstj by by eapply so_status.
  assert (p ≠ x) as Hpx by (intros ->; by eapply prev_ne; [apply Hok|exact Hx|exact Hp|]).
  destruct (with_ids_eq pd ids i) as ((_ & Ep & _) & _ & _ & _ & Hpl0).
  destruct (qt_block _ Hq x i Hx) as (_ & Ha & _); [by rewrite (Hci x i p j), Hpl|].
  unfold acceptBlock. rewrite (alt_setPayloads_ok s t pd x i ids) by (done || by rewrite Hp). cbn [mbind result_bind].
  set (t0 := with_pop_data pd ids x i t). assert (blocks_ t0 !! x = Some (with_ids pd ids i)) as Hx0 by apply lookup_insert_eq.
  rewrite (deref_eq _ _ _ Hx0). cbn [mbind result_bind]. unfold deref_prev. rewrite <- Ep, Hp.
  rewrite (deref_eq _ p j) by (cbn; by rewrite lookup_insert_ne). cbn [mbind result_bind].
  rewrite isConnected_eq by done. cbn [mbind result_bind]. destruct (conn j) eqn:Hcj; cbn [negb].
  - pose proof (with_pop_data_waiting pd ids x i p j t Hinv Hq Hci Hx Hp Hj Hcj Hpl) as J.
    destruct (connecting_step t0 [] x [] t0 _ J Hx0 Hpl0) as (t1 & b & i1 & -> & Hx1 & J1). cbn [mbind result_bind fst].
    rewrite (deref_eq _ _ _ Hx1). cbn [mbind result_bind]. rewrite app_nil_r in J1.
    destruct (connect_loop_ok t0 (size (blocks_ t1)) _ _ _ J1) as (t' & d' & -> & J').
    { rewrite (evolved_size _ _ (cn_ev _ _ _ _ J1)). lia. }
    cbn [mbind result_bind]. exists t'. destruct J' as [? ? ? _ _ _ Hc']. split_and!; try done.
    intros y iy q jq Hy Hq' Hjq. by apply (Hc' y iy q jq); [apply not_elem_of_nil|..].
  - exists t0. split_and!; [done|apply evolved_refl| |by apply with_pop_data_inv|by apply with_pop_data_quiet].
    intros y iy q jq Hiy Hq' Hjq.
    destruct (with_pop_data_back pd ids x i t y iy Hx Hiy) as (iy0 & Hiy0 & (_ & Epy & _) & -> & _ & _ & Epl).
    destruct (with_pop_data_back pd ids x i t q jq Hx Hjq) as (jq0 & Hjq0 & _ & -> & _).
    destruct (decide (y = x)) as [->|Hyx]; [|rewrite (Epl Hyx); apply (Hci y iy0 q jq0); [done|congruence|done]].
    assert (iy0 = i) as -> by congruence. assert (q = p) as -> by congruence. assert (jq0 = j) as -> by congruence.
    rewrite Hcj, andb_false_r. by rewrite (Hci x i p j), Hpl.
Qed.
End connect.

(** ** An example: block 2 waits for block 1 and has the same VBK block; block 4,
    on top of it, has another one, and block 3 has no payloads. *)
Module Example_alttree.
#[local] Existing Instance toy_hashes.
#[local] Existing Instance VbkContext.Example_vbk.toy_progpow.
#[local] Existing Instance Example_stateless.ct.
Notation tree := (BaseBlockTree (list Z) (list Z) Alt.AltBlock AltBlockAddon (list Z) unit).
Definition hash (n : Z) : list Z := replicate 32 (n + 1).
Definition params : AltChainParams := AltChainParamsRegTest 3.
Definition vbk_block (n : Z) : Vbk.VbkBlock :=
  Vbk.mkVbkBlock n 2 (repeat n 12) (repeat n 9) (repeat 0 9) (repeat 0 16) (1000 + n) 0x05ffffff 0.
Definition vbk_id (n : Z) : list Z := VbkBlock_getId (vbk_block n).
Definition node (n h prev : Z) (next : list Z) (s : Z) (vbks : list Z) : BlockIndex (list Z) Alt.AltBlock AltBlockAddon :=
  mkBlockIndex h (Alt.mkAltBlock (hash n) (if n =? 0 then replicate 32 0 else hash prev) h h) s false
    (if n =? 0 then None else Some (hash prev)) (list_to_set (map hash next)) false
    (mkAltAddon (mkPopState [] []) [] [] (map vbk_id vbks)).

(** Level 1 is [BLOCK_VALID_TREE], 256 is [BLOCK_HAS_PAYLOADS]; the root is applied. *)
Definition node1 : BlockIndex (list Z) Alt.AltBlock AltBlockAddon := node 1 1 0 [2; 3] 1 [].
Definition t : tree :=
  mkTree (list_to_map [(hash 0, node 0 0 0 [1] (4 + 16 + 512) []); (hash 1, node1); (hash 2, node 2 2 1 [4] (1 + 256) [7]);
                       (hash 3, node 3 2 1 [] 1 []); (hash 4, node 4 3 2 [] (1 + 256) [8])])
    {[hash 0]} (mkChain 0 [Some (hash 0)]) 1 0 false None false false ∅
    (pl_add (vbk_id 7) (hash 2) (pl_add (vbk_id 8) (hash 4) ∅)) [] ().
Definition pd : PopData := mkPopData 1 [vbk_block 7] [] [].

#[export] Instance toy_storage : PayloadsStorage (list PopData) :=
  {| storage_getATV _ _ := None; storage_getVTB _ _ := None; storage_getVBK _ _ := None; writePayloads := cons |}.
#[export] Instance hooks : TreeHooks (list Z) (list Z) Alt.AltBlock AltBlockAddon (list Z) unit :=
  {| setState _ w := Ok (w, true); determineBestChain _ w := Ok w; onBeforeLeafRemoved _ w := Ok w;
     onBlockInserted _ w := Ok w; overrideTip _ w := Ok w |}.

(** [quiet] and [connected_inv] as a decidable check of each node. *)
Definition alt_node_check (t : tree) (k : list Z) (i : BlockIndex (list Z) Alt.AltBlock AltBlockAddon) : Prop :=
  (conn i = false → failed_pop i = false ∧ is_active i = false ∧ contains (blocks_ t) (activeChain_ t) (Some k) = Ok false) ∧
  match pprev i with
  | Some p => match blocks_ t !! p with Some j => conn i = has_payloads i && conn j | None => True end
  | None => True
  end.

#[export] Instance alt_node_check_dec t k i : Decision (alt_node_check t k i).
Proof.
  unfold alt_node_check. apply and_dec; [apply _|]. destruct (pprev i) as [p|]; [|apply _].
  destruct (blocks_ t !! p); apply _.
Defined.

Lemma alt_check_ok t : isLoadingBlocks_ t = false → map_Forall (alt_node_check t) (blocks_ t) → quiet t ∧ connected_inv t.
Proof.
  intros Hl Hall. split.
  - split; [done|]. intros y i Hy. by apply (Hall y i Hy).
  - intros y i p j Hy Hp Hj. destruct (Hall y i Hy) as [_ Hc]. by rewrite Hp, Hj in Hc.
Qed.

(** The level and [BLOCK_FAILED_POP] of the blocks after the call. *)
Lemma accepted_nodes :
  match acceptBlock params (hash 1) pd ([], t) with
  | Ok (_, t') => map (λ n, option_map (λ i, (level (status i), failed_pop i, isFailed i)) (blocks_ t' !! hash n)) [0; 1; 2; 3; 4] =
      [Some (4, false, false); Some (2, false, false); Some (2, true, true); Some (1, false, false); Some (2, false, true)] ∧
      tips_ t' = {[hash 1]}
  | _ => False
  end.
Proof. vm_compute. split; reflexivity. Qed.

(** The descendants that the payloads of block 1 connect change their level and
    are not marked as dirty: the next [saveTree] does not write them, and after a
    restart they have their payloads and are not connected. *)
Lemma connected_not_dirty :
  map (λ n, option_map (λ i, (level (status i), isDirty i)) (blocks_ t !! hash n)) [2; 4] = [Some (1, false); Some (1, false)] ∧
  match acceptBlock params (hash 1) (mkPopData 1 [] [] []) ([], t) with
  | Ok (_, t') => map (λ n, option_map (λ i, (level (status i), isDirty i)) (blocks_ t' !! hash n)) [2; 4] =
      [Some (2, false); Some (2, false)]
  | _ => False
  end.
Proof. vm_compute. split; reflexivity. Qed.

Lemma acceptBlock_connects_witness :
  quiet t ∧ connected_inv t ∧
  ∃ t', acceptBlock params (hash 1) pd ([], t) = Ok (writePayloads pd [], t') ∧
    evolved params (with_pop_data pd [] (hash 1) node1 t) t' ∧ connected_inv t' ∧ tree_inv t' ∧ quiet t'.
Proof.
  assert (quiet t ∧ connected_inv t) as [Hq Hc].
  { apply alt_check_ok; [done|]. apply (bool_decide_unpack _). by vm_compute. }
  split; [exact Hq|]. split; [exact Hc|].
  apply (acceptBlock_connects (S := list PopData) params [] t pd (hash 1) node1 (hash 0) []); [|exact Hq|exact Hc|..].
  - apply inv_check_ok, (bool_decide_unpack _). by vm_compute.
  - by vm_compute.
  - by vm_compute.
  - vm_compute. discriminate.
  - by vm_compute.
  - by vm_compute.
  - by vm_compute.
  - constructor.
Defined.
End Example_alttree.
