(* ===== verification/Rewards.v ===== *)
(** * POP rewards ([rewards/default_poprewards_calculator.cpp],
    [poprewards_bigdecimal.hpp], [poprewards_params.hpp])

    The miners that endorsed a block share a reward that depends on the score of
    its endorsements and on the average score of the blocks before it.  Parameters
    are doubles ([SpecFloat] with the 53-bit mantissa of the language); amounts are
    [PopRewardsBigDecimal], 256-bit integers in units of 10^-8, with the
    arithmetic of [ArithUint256] (sums and products wrap around, quotients
    throw when the divisor is zero).  The payouts collected by a call that fails
    are left out. *)
From Stdlib Require Import String SpecFloat.
From S2P Require Import Prelude BlockIndex Chain TreeAlgo PayloadsIndex BaseTree BlockTree Keystone Serde Address StrUtil Blocks Payloads Endorsements PopState BlockAddons AltParams StatelessValidation PowTrees AddEndorsement TreeInv AltUtil VbkTree AltTree AltTreeInv.

(** ** Doubles *)
Notation double := spec_float.
Definition double_of_Z (n : Z) : double := binary_normalize 53 1024 n 0 false.
Definition double_mul : double → double → double := SFmul 53 1024.
(** A decimal literal [n / 10^k] is the double nearest to it. *)
Definition lit (n k : Z) : double := SFdiv 53 1024 (double_of_Z n) (double_of_Z (10 ^ k)).

(** [(uint64_t)d] truncates; out of range it is undefined. *)
Definition double_to_u64 (d : double) : result Z :=
  match d with
  | S754_zero _ => Ok 0
  | S754_finite s m e =>
    let n := Z.shiftl (Zpos m) e in
    if s && negb (n =? 0) then Undef "negative double"
    else if n <? 2 ^ 64 then Ok n else Undef "double out of range"
  | _ => Undef "double out of range"
  end.

(** ** [PopRewardsBigDecimal] *)
Definition decimals : Z := 100000000.
Definition u256 (x : Z) : Z := wrapU 256 x.
Definition bd_of_u64 (b : Z) : Z := u256 (b * decimals).
Definition bd_of_double (b : double) : result Z := double_to_u64 (double_mul b (double_of_Z decimals)).
Definition bd_add (a b : Z) : Z := u256 (a + b).
Definition bd_sub (a b : Z) : Z := u256 (a - b).
Definition bd_mul (a b : Z) : Z := u256 (a * b) / decimals.
Definition bd_div (a b : Z) : result Z :=
  if b =? 0 then Throw "Division by zero" else Ok (u256 (a * decimals) / b).
Definition getIntegerFraction (a : Z) : Z := u64 (a / decimals).
Definition getDecimalFraction (a : Z) : Z := u64 (bd_sub a (u256 (getIntegerFraction a * decimals))).
Definition bd_zero : Z := 0.
Definition bd_one : Z := decimals.

(** ** Parameters *)
Record PopPayoutsParams := mkPopPayoutsParams {
  mStartOfSlope : double; mSlopeNormal : double; mSlopeKeystone : double;
  mKeystoneRound : Z; mPayoutRounds : Z; mFlatScoreRound : Z; mUseFlatScoreRound : bool;
  mMaxScoreThresholdNormal : double; mMaxScoreThresholdKeystone : double;
  mDifficultyAveragingInterval : Z; mPopPayoutDelay : Z;
  mRoundRatios : list double; mLookupTable : list double
}.

Definition default_payouts : PopPayoutsParams := {|
  mStartOfSlope := lit 10 1; mSlopeNormal := lit 2 1; mSlopeKeystone := lit 21325 5;
  mKeystoneRound := 3; mPayoutRounds := 4; mFlatScoreRound := 2; mUseFlatScoreRound := true;
  mMaxScoreThresholdNormal := lit 20 1; mMaxScoreThresholdKeystone := lit 30 1;
  mDifficultyAveragingInterval := 50; mPopPayoutDelay := 50;
  mRoundRatios := [lit 97 2; lit 103 2; lit 107 2; lit 300 2];
  mLookupTable := map (λ n, lit n 8)
    [100000000; 100000000; 100000000; 100000000; 100000000; 100000000;
     100000000; 100000000; 100000000; 100000000; 100000000; 100000000;
     48296816; 31551694; 23325824; 18453616; 15238463; 12961255;
     11265630; 9955094; 8912509; 8063761; 7359692; 6766428;
     6259873; 5822428; 5440941; 5105386; 4807993; 4542644;
     4304458; 4089495; 3894540; 3716941; 3554497; 3405359;
     3267969; 3141000; 3023319; 2913950; 2812047; 2716878;
     2627801; 2544253; 2465739; 2391820; 2322107; 2256255;
     2193952; 2134922]
|}.

(** ** The reward of a block *)
Section calculator.
Context (pp : PopPayoutsParams) (keystoneInterval : Z).

Definition isKeystoneRound (payoutRound : Z) : bool := payoutRound =? mKeystoneRound pp.

(** Unsigned arithmetic; the remainder by zero is undefined. *)
Definition isFirstRoundAfterKeystone (height : Z) : result bool :=
  blockAfterKeystone ← u32_rem height keystoneInterval;
  if mPayoutRounds pp =? 0 then Ok true
  else q ← u32_quot blockAfterKeystone (mPayoutRounds pp); Ok (q =? 0).

(** [vector::at] *)
Definition getRoundRatio (payoutRound : Z) : result Z :=
  match mRoundRatios pp !! Z.to_nat payoutRound with
  | Some d => bd_of_double d
  | None => Throw "vector::at"
  end.

Definition getMaxScoreThreshold (payoutRound : Z) : result Z :=
  bd_of_double (if isKeystoneRound payoutRound then mMaxScoreThresholdKeystone pp else mMaxScoreThresholdNormal pp).

Definition getRoundSlope (payoutRound : Z) : result Z :=
  bd_of_double (if payoutRound =? mKeystoneRound pp then mSlopeKeystone pp else mSlopeNormal pp).

Definition calculateSlopeRatio (score payoutRound : Z) : result Z :=
  slope ← getRoundSlope payoutRound;
  start ← bd_of_double (mStartOfSlope pp);
  vassert (start <=? score) "score >= params.startOfSlope()";;
  let scoreDecrease := bd_mul slope (bd_sub score start) in
  let maxScoreDecrease := bd_one in
  let scoreDecrease := if maxScoreDecrease <? scoreDecrease then maxScoreDecrease else scoreDecrease in
  Ok (bd_sub maxScoreDecrease scoreDecrease).

Definition getRoundForBlockNumber (height : Z) : result Z :=
  ks ← isKeystone (i32 height) keystoneInterval;
  if (ks : bool) then Ok (mKeystoneRound pp)
  else if mPayoutRounds pp <=? 1 then Ok 0
  else
    vassert (0 <? height) "height > 0";;
    r ← u32_rem height keystoneInterval;
    u32_rem r (u32 (mPayoutRounds pp - 1)).

Definition getScoreMultiplierFromRelativeBlock (relativeBlock : Z) : result Z :=
  if (relativeBlock <? 0) || (Z.of_nat (length (mLookupTable pp)) <=? relativeBlock) then Ok bd_zero
  else match mLookupTable pp !! Z.to_nat relativeBlock with
       | Some d => bd_of_double d
       | None => Undef "index out of range"
       end.

Definition calculateBlockReward (height popscore popdifficulty : Z) : result Z :=
  payoutRound ← getRoundForBlockNumber height;
  flat ← (if mUseFlatScoreRound pp && (payoutRound =? mFlatScoreRound pp) then isFirstRoundAfterKeystone height else Ok false);
  let popscore := if (flat : bool) then bd_one else popscore in
  let popdifficulty := if flat then bd_one else popdifficulty in
  if popscore =? bd_zero then Ok bd_zero
  else
    let popdifficulty := if popdifficulty <? bd_one then bd_one else popdifficulty in
    scoreToDifficulty ← bd_div popscore popdifficulty;
    roundRatio ← getRoundRatio payoutRound;
    start ← bd_of_double (mStartOfSlope pp);
    r ← (if start <? scoreToDifficulty then
           maxScoreThreshold ← getMaxScoreThreshold payoutRound;
           let scoreToDifficulty := if maxScoreThreshold <? scoreToDifficulty then maxScoreThreshold else scoreToDifficulty in
           slope ← calculateSlopeRatio scoreToDifficulty payoutRound;
           Ok (slope, scoreToDifficulty)
         else Ok (bd_one, scoreToDifficulty));
    Ok (bd_mul (bd_mul r.1 r.2) roundRatio).

(** The relative height is passed as unsigned and used as signed. *)
Definition calculateMinerReward (vbkRelativeHeight scoreForThisBlock blockReward : Z) : result Z :=
  if scoreForThisBlock =? bd_zero then Ok bd_zero
  else
    endorsementLevelWeight ← getScoreMultiplierFromRelativeBlock (i32 vbkRelativeHeight);
    bd_div (bd_mul blockReward endorsementLevelWeight) scoreForThisBlock.
End calculator.

(** ** The calculator *)
Notation PopPayouts := (gmap (list Z) Z).
Section tree.
Context {S : Type} `{PayloadsStorage S} (params : AltChainParams) (pp : PopPayoutsParams).
Implicit Types (w : alt_world) (i : alt_index) (e : Endorsement).
Notation keystoneInterval := (mKeystoneInterval params).

(** The block of proof of an endorsement, when it is on the best chain of the
    VeriBlock tree: its height. *)
Definition proofHeight w e : result (option Z) :=
  let b := getBlockIndex (vbk w) (vbk_key (blockOfProof e)) in
  on ← contains (blocks_ (vbk w)) (activeChain_ (vbk w)) b;
  match on, b with
  | true, Some b => j ← deref (blocks_ (vbk w)) b; Ok (Some (BlockIndex.height j))
  | _, _ => Ok None
  end.

Definition endorsements i : list Endorsement := map target (endorsedBy (alt_pop (addon i))).

Definition getBestPublicationHeight w i : result Z :=
  foldM (λ bestPublication e,
    h ← proofHeight w e;
    Ok match h with
       | Some h => if (h <? bestPublication) || (bestPublication <? 0) then h else bestPublication
       | None => bestPublication
       end) (endorsements i) (-1).

Definition scoreFromEndorsements w i : result Z :=
  bestPublication ← getBestPublicationHeight w i;
  if bestPublication <? 0 then Ok bd_zero
  else
    foldM (λ totalScore e,
      h ← proofHeight w e;
      match h with
      | None => Ok totalScore
      | Some h =>
        relativeHeight ← cki32 (h - bestPublication);
        vassert (0 <=? relativeHeight) "relativeHeight >= 0";;
        s ← getScoreMultiplierFromRelativeBlock pp relativeHeight;
        Ok (bd_add totalScore s)
      end) (endorsements i) bd_zero.

Fixpoint sum_scores (n : nat) w (currentBlock : option (list Z)) (difficulty : Z) : result Z :=
  match n with
  | O => Ok difficulty
  | Datatypes.S n =>
    match currentBlock with
    | None => Ok difficulty
    | Some k =>
      i ← deref (blocks_ w) k;
      s ← scoreFromEndorsements w i;
      sum_scores n w (pprev i) (bd_add difficulty s)
    end
  end.

Definition calculateDifficulty w i : result Z :=
  difficulty ← sum_scores (Z.to_nat (mDifficultyAveragingInterval pp)) w (pprev i) bd_zero;
  difficulty ← bd_div difficulty (bd_of_u64 (mDifficultyAveragingInterval pp));
  Ok (if difficulty <? bd_one then bd_one else difficulty).

(** [rewards.payouts[payoutInfo] += amount] *)
Definition addPayout (payoutInfo : list Z) (amount : Z) (rewards : PopPayouts) : PopPayouts :=
  <[payoutInfo := u64 (default 0 (rewards !! payoutInfo) + amount)]> rewards.

Definition payEndorsement (s : S) w (bestPublication blockScore blockReward : Z) (rewards : PopPayouts) e : result PopPayouts :=
  h ← proofHeight w e;
  match h with
  | None => Ok rewards
  | Some veriBlockHeight =>
    match storage_getATV s (id e) with
    | None => Invalid ["cant-load-atv"%string]
    | Some atv =>
      relativeHeight ← cki32 (veriBlockHeight - bestPublication);
      vassert (0 <=? relativeHeight) "relativeHeight >= 0";;
      minerReward ← calculateMinerReward pp (u32 relativeHeight) blockScore blockReward;
      Ok (addPayout (payoutInfo (publicationData (atv_transaction atv))) (u64 minerReward) rewards)
    end
  end.

Definition calculatePayoutsInner (s : S) w i (endorsedBlockScore popDifficulty : Z) (rewards : PopPayouts) : result PopPayouts :=
  bestPublication ← getBestPublicationHeight w i;
  if bestPublication <? 0 then Ok ∅
  else
    blockReward ← calculateBlockReward pp keystoneInterval (u32 (BlockIndex.height i)) endorsedBlockScore popDifficulty;
    foldM (payEndorsement s w bestPublication endorsedBlockScore blockReward) (endorsements i) rewards.

Definition calculatePayouts (s : S) w i (rewards : PopPayouts) : result PopPayouts :=
  blockScore ← scoreFromEndorsements w i;
  popDifficulty ← calculateDifficulty w i;
  calculatePayoutsInner s w i blockScore popDifficulty rewards.

Definition getPopPayout (s : S) w (tip : list Z) (rewards : PopPayouts) : result PopPayouts :=
  boot ← isBootstrapped w;
  vassert boot "not bootstrapped";;
  match getBlockIndex w (alt_key tip) with
  | None => Assert "can not find block"
  | Some k =>
    vassert (bool_decide (chain_tip (activeChain_ w) = Some k)) "AltTree is at unexpected state";;
    i ← deref (blocks_ w) k;
    v ← isValidUpTo BLOCK_CONNECTED i;
    vassert v "Block is not connected";;
    steps ← cki32 (mPopPayoutDelay pp - 1);
    r ← getAncestorBlocksBehind (blocks_ w) k steps;
    match r with
    | None => Ok ∅
    | Some endorsed =>
      j ← deref (blocks_ w) endorsed;
      vassert (u32 (u32 (BlockIndex.height j + mEndorsementSettlementInterval params) - 1) <=? u32 (BlockIndex.height i))
        "Block is not finalized for PoP payouts";;
      calculatePayouts s w j rewards
    end
  end.
End tree.

(** ** Conversions *)
Lemma double_to_u64_range d v : double_to_u64 d = Ok v → 0 <= v < 2 ^ 64.
Proof.
  unfold double_to_u64. destruct d as [s| | |s m e]; try done; [intros [= <-]; lia|].
  assert (0 <= Z.shiftl (Z.pos m) e) by (apply Z.shiftl_nonneg; lia).
  destruct (s && _) eqn:Es; [done|]. destruct (Z.ltb_spec (Z.shiftl (Z.pos m) e) (2 ^ 64)); [intros [= <-]; lia|done].
Qed.

(** The value of a parameter, and that it has one. *)
Definition bd (d : double) : Z := match bd_of_double d with Ok v => v | _ => 0 end.
Definition convertible (d : double) : Prop := is_ok (bd_of_double d) = true.

Lemma bd_ok d : convertible d → bd_of_double d = Ok (bd d).
Proof. unfold convertible, bd. by destruct (bd_of_double d). Qed.

Lemma bd_range d : 0 <= bd d < 2 ^ 64.
Proof. unfold bd. destruct (bd_of_double d) eqn:E; try lia. by eapply double_to_u64_range. Qed.

Lemma u256_small x : 0 <= x < 2 ^ 256 → u256 x = x.
Proof. apply wrapU_small. Qed.

Lemma bd_mul_ok a b : 0 <= a < 2 ^ 128 → 0 <= b < 2 ^ 128 → bd_mul a b = a * b / decimals.
Proof. intros. unfold bd_mul. rewrite u256_small; [done|nia]. Qed.

Lemma bd_div_ok a b : 0 <= a < 2 ^ 228 → 0 < b → bd_div a b = Ok (a * decimals / b).
Proof.
  intros Ha Hb. unfold bd_div. destruct (Z.eqb_spec b 0); [lia|]. rewrite u256_small; [done|]. unfold decimals. lia.
Qed.

(** Two table entries lose their last digit: the double is below the decimal. *)
Lemma table_truncated : (bd (lit 6766428 8), bd (lit 3267969 8)) = (6766427, 3267968).
Proof. vm_compute. reflexivity. Qed.

Lemma vassert_nonneg x msg : 0 <= x → vassert (0 <=? x) msg = Ok ().
Proof. intros Hx. by rewrite (proj2 (Z.leb_le 0 x) Hx). Qed.

(** ** Parameters that make sense *)
Definition threshold (pp : PopPayoutsParams) (round : Z) : Z :=
  bd (if isKeystoneRound pp round then mMaxScoreThresholdKeystone pp else mMaxScoreThresholdNormal pp).
Definition ratio (pp : PopPayoutsParams) (round : Z) : Z := match mRoundRatios pp !! Z.to_nat round with Some d => bd d | None => 0 end.

(** The largest reward of a block in a round. *)
Definition reward_limit (pp : PopPayoutsParams) (round : Z) : Z := threshold pp round * ratio pp round / decimals.

Record payouts_ok (pp : PopPayoutsParams) : Prop := {
  po_table : Forall convertible (mLookupTable pp);
  po_ratios : Forall convertible (mRoundRatios pp);
  po_constants : Forall convertible [mStartOfSlope pp; mSlopeNormal pp; mSlopeKeystone pp; mMaxScoreThresholdNormal pp; mMaxScoreThresholdKeystone pp];
  po_start : ∀ round, bd (mStartOfSlope pp) <= threshold pp round;
  po_keystone : 0 <= mKeystoneRound pp < Z.of_nat (length (mRoundRatios pp));
  po_rounds : 0 <= mPayoutRounds pp <= Z.of_nat (length (mRoundRatios pp)) + 1 ∧ mPayoutRounds pp <= INT32_MAX;
  po_interval : 0 < mDifficultyAveragingInterval pp < 2 ^ 32;
  po_delay : 1 <= mPopPayoutDelay pp <= INT32_MAX;
  po_limit : ∀ round, reward_limit pp round < 2 ^ 64
}.

(** ** The reward of a block is limited *)
Section reward.
Context (pp : PopPayoutsParams) (ki : Z) (Hpp : payouts_ok pp) (Hki : interval_ok ki).

Lemma constant_ok d : d ∈ [mStartOfSlope pp; mSlopeNormal pp; mSlopeKeystone pp; mMaxScoreThresholdNormal pp; mMaxScoreThresholdKeystone pp] →
  bd_of_double d = Ok (bd d).
Proof. intros Hd. apply bd_ok. pose proof (po_constants _ Hpp) as Hc. rewrite Forall_forall in Hc. by apply Hc. Qed.

Definition valid_round (round : Z) : Prop := 0 <= round < Z.of_nat (length (mRoundRatios pp)).

Lemma round_ok h : height_ok h → ∃ round, getRoundForBlockNumber pp ki h = Ok round ∧ valid_round round.
Proof.
  intros Hh. destruct (po_keystone _ Hpp) as [Hk1 Hk2]. destruct (po_rounds _ Hpp) as [Hr1 Hr2].
  unfold getRoundForBlockNumber, valid_round. rewrite i32_height, isKeystone_eq by done. cbn [mbind result_bind].
  destruct (Z.eqb_spec (h mod ki) 0) as [E|E]; [by eexists|].
  destruct (Z.leb_spec (mPayoutRounds pp) 1); [exists 0; split; [done|lia]|].
  assert (h ≠ 0) by (intros ->; by rewrite Z.mod_0_l in E by (unfold interval_ok in Hki; lia)).
  rewrite (proj2 (Z.ltb_lt 0 h)) by (unfold height_ok in Hh; lia). cbn [vassert mbind result_bind].
  rewrite u32_rem_ok by done. cbn [mbind result_bind].
  assert (interval_ok (mPayoutRounds pp - 1)) as Hpi by (unfold interval_ok, INT32_MAX in *; lia).
  rewrite u32_height by (unfold interval_ok, height_ok in *; lia).
  rewrite u32_rem_ok by (done || by apply mod_height). eexists. split; [done|].
  pose proof (Z.mod_pos_bound (h mod ki) (mPayoutRounds pp - 1)). lia.
Qed.

Lemma first_round_ok h : height_ok h → ∃ b, isFirstRoundAfterKeystone pp ki h = Ok b.
Proof.
  intros Hh. destruct (po_rounds _ Hpp) as [Hr1 Hr2]. unfold isFirstRoundAfterKeystone. rewrite u32_rem_ok by done. cbn [mbind result_bind].
  destruct (Z.eqb_spec (mPayoutRounds pp) 0); [by eexists|].
  rewrite u32_quot_ok; [by eexists|by apply mod_height|unfold interval_ok, INT32_MAX in *; lia].
Qed.

Lemma ratio_ok round : valid_round round → getRoundRatio pp round = Ok (ratio pp round).
Proof.
  intros Hr. unfold getRoundRatio, ratio. destruct (mRoundRatios pp !! Z.to_nat round) as [d|] eqn:E.
  - apply bd_ok. pose proof (po_ratios _ Hpp) as Hc. rewrite Forall_forall in Hc. apply Hc. by eapply list_elem_of_lookup_2.
  - apply lookup_ge_None in E. unfold valid_round in Hr. lia.
Qed.

Lemma slope_ok score round : bd (mStartOfSlope pp) <= score < 2 ^ 64 →
  ∃ slope, calculateSlopeRatio pp score round = Ok slope ∧ 0 <= slope <= bd_one.
Proof.
  intros Hs. unfold calculateSlopeRatio, getRoundSlope. set (d := if round =? mKeystoneRound pp then mSlopeKeystone pp else mSlopeNormal pp).
  rewrite (constant_ok d) by (unfold d; case_match; set_solver). cbn [mbind result_bind].
  rewrite constant_ok by set_solver. cbn [mbind result_bind]. rewrite (proj2 (Z.leb_le _ _)) by lia. cbn [vassert mbind result_bind].
  eexists. split; [done|]. pose proof (bd_range d). pose proof (bd_range (mStartOfSlope pp)).
  assert (bd_sub score (bd (mStartOfSlope pp)) = score - bd (mStartOfSlope pp)) as -> by (apply u256_small; lia).
  rewrite !bd_mul_ok by lia.
  set (x := bd d * _ / decimals). assert (0 <= x) by (apply Z.div_pos; [nia|done]).
  unfold bd_sub, bd_one, decimals in *. destruct (Z.ltb_spec 100000000 x); rewrite u256_small; lia.
Qed.

Lemma threshold_ok round : getMaxScoreThreshold pp round = Ok (threshold pp round).
Proof. unfold getMaxScoreThreshold, threshold. apply constant_ok. case_match; set_solver. Qed.

Lemma blockReward_ok h popscore popdifficulty : height_ok h → 0 <= popscore < 2 ^ 128 → 0 <= popdifficulty →
  ∃ round R, getRoundForBlockNumber pp ki h = Ok round ∧ calculateBlockReward pp ki h popscore popdifficulty = Ok R ∧
    0 <= R <= reward_limit pp round.
Proof.
  intros Hh Hs Hd. destruct (round_ok h Hh) as (round & Hr & Hv). destruct (first_round_ok h Hh) as (b & Hb).
  exists round. unfold calculateBlockReward. rewrite Hr. cbn [mbind result_bind].
  assert (∃ flat, (if mUseFlatScoreRound pp && (round =? mFlatScoreRound pp) then isFirstRoundAfterKeystone pp ki h else Ok false) = Ok flat)
    as (flat & ->) by (destruct (_ && _); [by exists b|by eexists]).
  cbn [mbind result_bind]. set (ps := if flat then bd_one else popscore). set (pd := if flat then bd_one else popdifficulty).
  assert (0 <= ps < 2 ^ 128) as Hps by (unfold ps, bd_one, decimals; destruct flat; lia). clearbody ps pd.
  assert (0 <= threshold pp round < 2 ^ 64) as Ht by apply bd_range.
  assert (0 <= ratio pp round < 2 ^ 64) as Hrt by (unfold ratio; case_match; [apply bd_range|lia]).
  assert (0 <= reward_limit pp round) as Hl by (apply Z.div_pos; [nia|done]).
  destruct (Z.eqb_spec ps bd_zero); [exists 0; split_and!; (done || lia)|].
  set (pd' := if pd <? bd_one then bd_one else pd). assert (bd_one <= pd') as Hpd by (unfold pd'; destruct (Z.ltb_spec pd bd_one); lia).
  rewrite bd_div_ok by (unfold bd_one, decimals in *; lia). cbn [mbind result_bind]. set (s2d := ps * decimals / pd').
  assert (0 <= s2d < 2 ^ 128) as Hs2.
  { unfold s2d. split; [apply Z.div_pos; unfold bd_one, decimals in *; lia|].
    apply Z.div_lt_upper_bound; unfold bd_one, decimals in *; nia. }
  rewrite ratio_ok by done. cbn [mbind result_bind]. rewrite constant_ok by set_solver. cbn [mbind result_bind].
  pose proof (po_start _ Hpp round) as Hst. pose proof (bd_range (mStartOfSlope pp)) as Hsr.
  assert (∀ x slope, 0 <= x <= threshold pp round → 0 <= slope <= bd_one →
    0 <= bd_mul (bd_mul slope x) (ratio pp round) <= reward_limit pp round) as Hfin.
  { intros x slope Hx Hsl. rewrite (bd_mul_ok slope x) by (unfold bd_one, decimals in *; lia).
    assert (0 <= slope * x / decimals <= x) as Hy.
    { split; [apply Z.div_pos; [nia|done]|]. apply Z.div_le_upper_bound; unfold bd_one, decimals in *; nia. }
    rewrite bd_mul_ok by lia. split; [apply Z.div_pos; [nia|done]|]. unfold reward_limit. apply Z.div_le_mono; [done|nia]. }
  destruct (Z.ltb_spec (bd (mStartOfSlope pp)) s2d).
  - rewrite threshold_ok. cbn [mbind result_bind]. set (s' := if threshold pp round <? s2d then threshold pp round else s2d).
    assert (bd (mStartOfSlope pp) <= s' <= threshold pp round) as Hs' by (unfold s'; destruct (Z.ltb_spec (threshold pp round) s2d); lia).
    destruct (slope_ok s' round) as (slope & -> & Hsl); [lia|]. cbn [mbind result_bind fst snd]. eexists. split; [done|]. split; [done|].
    apply Hfin; [lia|done].
  - cbn [mbind result_bind fst snd]. eexists. split; [done|]. split; [done|]. apply Hfin; unfold bd_one, decimals; lia.
Qed.

Definition multiplier (r : Z) : Z :=
  if (r <? 0) || (Z.of_nat (length (mLookupTable pp)) <=? r) then 0
  else match mLookupTable pp !! Z.to_nat r with Some d => bd d | None => 0 end.

Lemma multiplier_ok r : getScoreMultiplierFromRelativeBlock pp r = Ok (multiplier r).
Proof.
  unfold getScoreMultiplierFromRelativeBlock, multiplier. destruct (Z.ltb_spec r 0); [done|].
  destruct (Z.leb_spec (Z.of_nat (length (mLookupTable pp))) r); [done|]. cbn [orb].
  destruct (mLookupTable pp !! Z.to_nat r) as [d|] eqn:E; [|apply lookup_ge_None in E; lia].
  apply bd_ok. pose proof (po_table _ Hpp) as Hc. rewrite Forall_forall in Hc. apply Hc. by eapply list_elem_of_lookup_2.
Qed.

Lemma multiplier_range r : 0 <= multiplier r < 2 ^ 64.
Proof. unfold multiplier. case_match; [lia|]. case_match; [apply bd_range|lia]. Qed.

(** The reward of a miner is at most its share. *)
Lemma minerReward_ok r score R : 0 <= i32 r → 0 <= score → 0 <= R < 2 ^ 64 → ∃ x, calculateMinerReward pp r score R = Ok x ∧
  0 <= x ∧ x * score <= R * multiplier (i32 r) ∧ (score = 0 → x = 0).
Proof.
  intros Hr Hs HR. unfold calculateMinerReward. pose proof (multiplier_range (i32 r)) as Hm.
  destruct (Z.eqb_spec score bd_zero); [exists 0; split_and!; [done|done|nia|done]|].
  rewrite multiplier_ok. cbn [mbind result_bind]. unfold bd_zero in *. rewrite bd_mul_ok by lia.
  assert (0 <= R * multiplier (i32 r) / decimals) as H0 by (apply Z.div_pos; [nia|done]).
  assert (R * multiplier (i32 r) / decimals * decimals <= R * multiplier (i32 r)) as H1
    by (rewrite Z.mul_comm; by apply Z.mul_div_le).
  assert (R * multiplier (i32 r) < 2 ^ 128) as H2 by nia.
  rewrite bd_div_ok by (unfold decimals in *; lia).
  eexists. split; [done|]. split; [apply Z.div_pos; unfold decimals in *; lia|].
  split; [|done]. etrans; [|exact H1]. rewrite Z.mul_comm. apply Z.mul_div_le. lia.
Qed.
End reward.

(** ** The sum of payouts *)
Implicit Types r : gmap (list Z) Z.
Definition total r : Z := map_fold (λ _ v a, v + a) 0 r.
Definition amounts_ok r : Prop := ∀ k v, r !! k = Some v → 0 <= v.

Lemma total_delete k v r : r !! k = Some v → total r = v + total (delete k r).
Proof. intros Hk. apply (map_fold_delete_L (λ _ v a, v + a) 0 k v r); [intros; lia|done]. Qed.

Lemma total_insert k v r : total (<[k := v]> r) = total r - default 0 (r !! k) + v.
Proof.
  rewrite (total_delete k v) by apply lookup_insert_eq. rewrite delete_insert_eq. destruct (r !! k) as [u|] eqn:E; cbn.
  - rewrite (total_delete k u r E). lia.
  - rewrite delete_id by done. lia.
Qed.

Lemma total_nonneg r : amounts_ok r → 0 <= total r.
Proof.
  induction r as [|k v r Hk IH] using map_ind; intros Hr; [done|].
  rewrite total_insert, Hk. cbn. assert (0 <= v) by (apply (Hr k); apply lookup_insert_eq).
  assert (0 <= total r); [|lia]. apply IH. intros x u Hx. apply (Hr x). rewrite lookup_insert_ne; [done|]. congruence.
Qed.

Lemma amount_le_total r k v : amounts_ok r → r !! k = Some v → v <= total r.
Proof.
  intros Hr Hk. rewrite (total_delete k v r Hk). assert (0 <= total (delete k r)); [|lia]. apply total_nonneg.
  intros x u [_ Hx]%lookup_delete_Some. by eapply Hr.
Qed.

Lemma addPayout_ok k x r : amounts_ok r → 0 <= x → total r + x < 2 ^ 64 →
  amounts_ok (addPayout k x r) ∧ total (addPayout k x r) = total r + x ∧ dom (addPayout k x r) = {[k]} ∪ dom r.
Proof.
  intros Hr Hx Ht. unfold addPayout. set (v := default 0 (r !! k)).
  assert (0 <= v <= total r) as Hv.
  { unfold v. pose proof (total_nonneg r Hr). destruct (r !! k) as [u|] eqn:E; cbn; [|lia]. split; [by eapply Hr|by eapply amount_le_total]. }
  assert (u64 (v + x) = v + x) as -> by (apply wrapU_small; lia). split_and!.
  - intros y u. rewrite lookup_insert. case_decide; [intros [= <-]; lia|apply Hr].
  - rewrite total_insert. fold v. lia.
  - by rewrite dom_insert_L.
Qed.

(** ** The payouts of a block *)
Section payouts.
Context {S : Type} `{PayloadsStorage S} (params : AltChainParams) (pp : PopPayoutsParams).
Context (Hpp : payouts_ok pp) (Hki : interval_ok (mKeystoneInterval params)).
Context (s : S) (w : alt_world).
Implicit Types (i : alt_index) (e : Endorsement) (l : list Endorsement).
(** Heights are of type [int32_t] and not negative, and no block has 2^32 endorsements. *)
Hypothesis proof_heights : ∀ k j, blocks_ (vbk w) !! k = Some j → height_ok (BlockIndex.height j).
Definition few i : Prop := Z.of_nat (length (endorsements i)) < 2 ^ 32.

Definition proof_height e : option Z :=
  match getBlockIndex (vbk w) (vbk_key (blockOfProof e)) with
  | Some b => j ← blocks_ (vbk w) !! b;
              if bool_decide (chain_at (activeChain_ (vbk w)) (BlockIndex.height j) = Some b) then Some (BlockIndex.height j) else None
  | None => None
  end.

Lemma proofHeight_ok e : proofHeight w e = Ok (proof_height e) ∧ ∀ h, proof_height e = Some h → height_ok h.
Proof.
  unfold proofHeight, proof_height, getBlockIndex. destruct (blocks_ (vbk w) !! vbk_key (blockOfProof e)) as [j|] eqn:Ej; [|by split].
  destruct (isDeleted j); [by split|]. cbn [contains]. rewrite (deref_eq _ _ _ Ej), Ej. cbn. case_bool_decide; [|by split].
  split; [done|]. intros h [= <-]. by eapply proof_heights.
Qed.

(** The score of an endorsement when the earliest is published at [best]. *)
Definition weight (best : Z) e : Z := match proof_height e with Some h => multiplier pp (h - best) | None => 0 end.
Definition weights (best : Z) l : Z := foldr (λ e a, weight best e + a) 0 l.

Lemma weights_range best l : 0 <= weights best l <= Z.of_nat (length l) * 2 ^ 64.
Proof.
  induction l as [|e l IH]; [done|]. change (weights best (e :: l)) with (weight best e + weights best l).
  assert (0 <= weight best e < 2 ^ 64) by (unfold weight; case_match; [apply multiplier_range|lia]). cbn [length]. lia.
Qed.

(** [best] is below all heights of [l], or there are none. *)
Definition best_ok (best : Z) l : Prop :=
  best = -1 ∧ (∀ e, e ∈ l → proof_height e = None) ∨
  height_ok best ∧ ∀ e h, e ∈ l → proof_height e = Some h → best <= h.

Lemma best_fold l l' acc : best_ok acc l' → ∃ best,
  foldM (λ bestPublication e, h ← proofHeight w e;
    Ok match h with
       | Some h => if (h <? bestPublication) || (bestPublication <? 0) then h else bestPublication
       | None => bestPublication end) l acc = Ok best ∧ best_ok best (l' ++ l).
Proof.
  revert l' acc. induction l as [|e l IH]; intros l' acc Hacc; cbn [foldM]; [exists acc; by rewrite app_nil_r|].
  destruct (proofHeight_ok e) as [-> Hh]. cbn [mbind result_bind].
  replace (l' ++ e :: l) with ((l' ++ [e]) ++ l) by by rewrite <- app_assoc. apply IH.
  destruct (proof_height e) as [h|] eqn:Ee.
  - specialize (Hh h eq_refl). right. destruct Hacc as [[-> Hn]|[Ha Hle]].
    + rewrite orb_true_r. split; [done|]. intros e' h' [He'| ->%list_elem_of_singleton]%elem_of_app Eh'; [by rewrite Hn in Eh'|].
      assert (h' = h) by congruence. lia.
    + destruct (Z.ltb_spec acc 0); [unfold height_ok in Ha; lia|]. rewrite orb_false_r. destruct (Z.ltb_spec h acc); (split; [done|]);
        intros e' h' [He'| ->%list_elem_of_singleton]%elem_of_app Eh'; try (specialize (Hle e' h' He' Eh')); try (assert (h' = h) by congruence); lia.
  - destruct Hacc as [[-> Hn]|[Ha Hle]]; [left|right]; (split; [done|]).
    + intros e' [He'| ->%list_elem_of_singleton]%elem_of_app; auto.
    + intros e' h' [He'| ->%list_elem_of_singleton]%elem_of_app Eh'; [by eapply Hle|congruence].
Qed.

Lemma best_exists i : ∃ best, getBestPublicationHeight w i = Ok best ∧ best_ok best (endorsements i).
Proof. apply (best_fold (endorsements i) [] (-1)). left. split; [done|]. intros e []%not_elem_of_nil. Qed.

Lemma relative_ok best e h l : height_ok best → (∀ e h, e ∈ l → proof_height e = Some h → best <= h) → e ∈ l →
  proof_height e = Some h → cki32 (h - best) = Ok (h - best) ∧ 0 <= h - best <= INT32_MAX.
Proof.
  intros Hb Hle He Eh. destruct (proofHeight_ok e) as [_ Hh]. specialize (Hh h Eh). specialize (Hle e h He Eh).
  unfold height_ok, INT32_MAX in *. split; [apply ckS_ok|]; lia.
Qed.

Lemma score_fold best l l' acc : height_ok best → (∀ e h, e ∈ l → proof_height e = Some h → best <= h) → l' ⊆ l →
  0 <= acc → acc + weights best l' < 2 ^ 256 →
  foldM (λ totalScore e, h ← proofHeight w e;
    match h with
    | None => Ok totalScore
    | Some h => relativeHeight ← cki32 (h - best); vassert (0 <=? relativeHeight) "relativeHeight >= 0";;
                s ← getScoreMultiplierFromRelativeBlock pp relativeHeight; Ok (bd_add totalScore s)
    end) l' acc = Ok (acc + weights best l').
Proof.
  intros Hb Hle. revert acc. induction l' as [|e l' IH]; intros acc Hsub Ha Hlt; cbn [foldM]; [by rewrite Z.add_0_r|].
  change (weights best (e :: l')) with (weight best e + weights best l') in *.
  pose proof (weights_range best l'). destruct (proofHeight_ok e) as [-> _]. cbn [mbind result_bind].
  assert (0 <= weight best e) by (unfold weight; case_match; [apply multiplier_range|lia]).
  destruct (proof_height e) as [h|] eqn:Eh.
  - destruct (relative_ok best e h l Hb Hle) as [-> Hr]; [set_solver|done|]. cbn [mbind result_bind].
    rewrite vassert_nonneg by lia. cbn [mbind result_bind]. rewrite multiplier_ok by done.
    cbn [mbind result_bind]. assert (multiplier pp (h - best) = weight best e) as -> by (unfold weight; by rewrite Eh).
    unfold bd_add. rewrite u256_small by lia. rewrite IH; [f_equal; lia|set_solver|lia|lia].
  - cbn [mbind result_bind]. assert (weight best e = 0) as E0 by (unfold weight; by rewrite Eh). rewrite E0 in *.
    rewrite IH; [f_equal; lia|set_solver|lia|lia].
Qed.

(** The score is the sum of the weights. *)
Lemma score_ok i : few i → ∃ best sc, getBestPublicationHeight w i = Ok best ∧ best_ok best (endorsements i) ∧
  scoreFromEndorsements pp w i = Ok sc ∧ 0 <= sc < 2 ^ 97 ∧ (0 <= best → sc = weights best (endorsements i)).
Proof.
  intros Hf. destruct (best_exists i) as (best & Hb & Hok). exists best. unfold scoreFromEndorsements. rewrite Hb. cbn [mbind result_bind].
  pose proof (weights_range best (endorsements i)) as Hw. unfold few in Hf.
  destruct Hok as [[-> Hn]|[Hh Hle]].
  - exists 0. split_and!; try done. by left.
  - destruct (Z.ltb_spec best 0); [unfold height_ok in Hh; lia|]. exists (weights best (endorsements i)).
    rewrite (score_fold best (endorsements i)); try done; [|unfold bd_zero; lia]. split_and!; try done; [by right|lia|lia].
Qed.

(** The difficulty is at least one. *)
Lemma sum_scores_ok n k acc : wf_store (blocks_ w) → (∀ k i, blocks_ w !! k = Some i → few i) →
  (∀ x, k = Some x → is_Some (blocks_ w !! x)) → 0 <= acc → acc + Z.of_nat n * 2 ^ 97 < 2 ^ 200 →
  ∃ d, sum_scores pp n w k acc = Ok d ∧ 0 <= d <= acc + Z.of_nat n * 2 ^ 97.
Proof.
  intros W Hfew. revert k acc. induction n as [|n IH]; intros k acc Hk Ha Hlt; cbn [sum_scores]; [exists acc; split; [done|lia]|].
  destruct k as [k|]; [|exists acc; split; [done|lia]]. destruct (Hk k eq_refl) as [i Hi]. rewrite (deref_eq _ _ _ Hi). cbn [mbind result_bind].
  destruct (score_ok i (Hfew k i Hi)) as (_ & sc & _ & _ & -> & Hsc & _). cbn [mbind result_bind].
  unfold bd_add. rewrite u256_small by lia. destruct (IH (pprev i) (acc + sc)) as (d & Hd & Hr); [|lia|lia|exists d; split; [done|lia]].
  intros x Hx. destruct (wf_prev _ W k i x Hi Hx) as (j & Hj & _). eauto.
Qed.

Lemma difficulty_ok k i : wf_store (blocks_ w) → (∀ k i, blocks_ w !! k = Some i → few i) → blocks_ w !! k = Some i →
  ∃ d, calculateDifficulty pp w i = Ok d ∧ bd_one <= d.
Proof.
  intros W Hfew Hi. destruct (po_interval _ Hpp) as [Hi1 Hi2]. unfold calculateDifficulty.
  destruct (sum_scores_ok (Z.to_nat (mDifficultyAveragingInterval pp)) (pprev i) bd_zero) as (d & -> & Hd); [done|done| |done|unfold bd_zero; lia|].
  { intros x Hx. destruct (wf_prev _ W k i x Hi Hx) as (j & Hj & _). eauto. }
  cbn [mbind result_bind]. unfold bd_of_u64. rewrite u256_small by (unfold decimals; lia).
  rewrite bd_div_ok by (unfold bd_zero, decimals in *; lia). cbn [mbind result_bind]. eexists. split; [done|].
  destruct (Z.ltb_spec (d * decimals / (mDifficultyAveragingInterval pp * decimals)) bd_one); lia.
Qed.

(** *** Paying the endorsements *)
(** The publisher of a counted endorsement whose ATV is stored. *)
Definition paid a l : Prop := ∃ e atv, e ∈ l ∧ is_Some (proof_height e) ∧ storage_getATV s (id e) = Some atv ∧
  a = payoutInfo (publicationData (atv_transaction atv)).
Definition lost l : Prop := ∃ e, e ∈ l ∧ is_Some (proof_height e) ∧ storage_getATV s (id e) = None.

Lemma paid_cons a e l : paid a (e :: l) ↔ paid a [e] ∨ paid a l.
Proof using Type.
  unfold paid. setoid_rewrite elem_of_cons. setoid_rewrite elem_of_nil. naive_solver.
Qed.

Record paying (R score done : Z) (r : PopPayouts) : Prop := {
  py_amounts : amounts_ok r;
  py_share : total r * score <= R * done;
  py_zero : score = 0 → total r = 0
}.

Lemma pay_one best score R l e acc done : height_ok best → (∀ e h, e ∈ l → proof_height e = Some h → best <= h) → e ∈ l →
  0 <= R < 2 ^ 64 → 0 <= done → done + weight best e <= score → paying R score done acc →
  (lost [e] ∧ payEndorsement pp s w best score R acc e = Invalid ["cant-load-atv"%string]) ∨
  ∃ r, payEndorsement pp s w best score R acc e = Ok r ∧ paying R score (done + weight best e) r ∧
    ∀ a, a ∈ dom r ↔ a ∈ dom acc ∨ paid a [e].
Proof.
  intros Hb Hle He HR Hd Hs [Ha Hsh Hz]. unfold payEndorsement. destruct (proofHeight_ok e) as [-> _]. cbn [mbind result_bind].
  destruct (proof_height e) as [h|] eqn:Eh.
  2:{ right. exists acc. split; [reflexivity|]. assert (weight best e = 0) as -> by (unfold weight; by rewrite Eh). rewrite Z.add_0_r.
      split; [done|]. intros a. split; [by left|]. intros [|(x & atv & ->%list_elem_of_singleton & [? E] & _)]; [done|congruence]. }
  destruct (storage_getATV s (id e)) as [atv|] eqn:Eatv.
  2:{ left. split; [|reflexivity]. exists e. split; [by apply list_elem_of_singleton|]. split; [by eexists|done]. }
  right. destruct (relative_ok best e h l Hb Hle He Eh) as [-> Hr]. cbn [mbind result_bind].
  rewrite vassert_nonneg by lia. cbn [mbind result_bind].
  assert (0 <= weight best e) as Hw by (unfold weight; case_match; [apply multiplier_range|lia]).
  rewrite (u32_height (h - best)) by done.
  destruct (minerReward_ok pp Hpp (h - best) score R) as (x & -> & Hx & Hxs & Hx0); [rewrite i32_height by done; lia|lia|lia|].
  rewrite i32_height in Hxs by done. cbn [mbind result_bind].
  assert (multiplier pp (h - best) = weight best e) as Em by (unfold weight; by rewrite Eh). rewrite Em in Hxs.
  pose proof (total_nonneg acc Ha) as Ht.
  assert ((total acc + x) * score <= R * (done + weight best e)) as Hsum by nia.
  assert (0 <= total acc + x < 2 ^ 64) as Hlim.
  { destruct (decide (score = 0)) as [E0|]; [rewrite Hz, Hx0 by done; lia|]. split; [lia|].
    assert (total acc + x <= R); [|lia]. apply (Z.mul_le_mono_pos_r _ _ score); [lia|]. nia. }
  rewrite (wrapU_small 64 x) by lia.
  destruct (addPayout_ok (payoutInfo (publicationData (atv_transaction atv))) x acc) as (A1 & A2 & A3); [done|lia|lia|].
  eexists. split; [reflexivity|]. split; [split; [done|by rewrite A2|intros E0; rewrite A2, Hz, Hx0 by done; lia]|].
  intros a. rewrite A3, elem_of_union, elem_of_singleton. split.
  - intros [->|]; [right|by left]. exists e, atv. split_and!; [by apply list_elem_of_singleton|by eexists|done|done].
  - intros [|(y & atv' & ->%list_elem_of_singleton & _ & E & ->)]; [by right|left; congruence].
Qed.

Lemma pay_fold best score R l l' acc done : height_ok best → (∀ e h, e ∈ l → proof_height e = Some h → best <= h) → l' ⊆ l →
  0 <= R < 2 ^ 64 → 0 <= done → done + weights best l' <= score → paying R score done acc →
  (lost l' ∧ foldM (payEndorsement pp s w best score R) l' acc = Invalid ["cant-load-atv"%string]) ∨
  ∃ r, foldM (payEndorsement pp s w best score R) l' acc = Ok r ∧ paying R score (done + weights best l') r ∧
    ∀ a, a ∈ dom r ↔ a ∈ dom acc ∨ paid a l'.
Proof.
  intros Hb Hle. revert acc done. induction l' as [|e l' IH]; intros acc done Hsub HR Hd Hs Hp; cbn [foldM].
  { right. exists acc. split; [reflexivity|]. cbn [weights foldr]. rewrite Z.add_0_r. split; [done|]. intros a. split; [by left|].
    intros [|(e & atv & []%not_elem_of_nil & _)]; done. }
  change (weights best (e :: l')) with (weight best e + weights best l') in *. pose proof (weights_range best l').
  assert (0 <= weight best e) by (unfold weight; case_match; [apply multiplier_range|lia]).
  destruct (pay_one best score R l e acc done) as [[(x & Hx%list_elem_of_singleton & Hl) ->]|(r & -> & Hpr & Hdom)];
    [done|done|set_solver|done|done|lia|done| |].
  { left. split; [|reflexivity]. exists x. split; [subst; constructor|done]. }
  cbn [mbind result_bind]. destruct (IH r (done + weight best e)) as [[(x & Hx & Hl) Hf]|(r' & Hf & Hpr' & Hdom')];
    [set_solver|done|lia|lia|done| |].
  - left. split; [|done]. exists x. split; [by constructor|done].
  - right. exists r'. split; [done|]. rewrite Z.add_assoc. split; [done|]. intros a. rewrite Hdom', Hdom, (paid_cons a e l'). tauto.
Qed.

(** The payouts of a block: the sum is within the limit of its round, and exactly the
    publishers of the counted endorsements have an entry. *)
Definition settled (j : alt_index) (res : result PopPayouts) : Prop :=
  ∃ round, getRoundForBlockNumber pp (mKeystoneInterval params) (BlockIndex.height j) = Ok round ∧
    (lost (endorsements j) ∧ res = Invalid ["cant-load-atv"%string] ∨
     ∃ r, res = Ok r ∧ amounts_ok r ∧ total r <= reward_limit pp round ∧ ∀ a, a ∈ dom r ↔ paid a (endorsements j)).

Lemma calculatePayouts_ok k j : wf_store (blocks_ w) → (∀ k i, blocks_ w !! k = Some i → height_ok (BlockIndex.height i) ∧ few i) →
  blocks_ w !! k = Some j → settled j (calculatePayouts params pp s w j ∅).
Proof.
  intros W Hall Hk. destruct (Hall k j Hk) as [Hh Hf].
  destruct (score_ok j Hf) as (best & sc & Hbest & Hbok & Hsc & Hscr & Hsum).
  destruct (difficulty_ok k j W (λ k i Hi, proj2 (Hall k i Hi)) Hk) as (d & Hd & Hd1).
  destruct (blockReward_ok pp (mKeystoneInterval params) Hpp Hki (BlockIndex.height j) sc d) as (round & R & Hround & HR & HRr);
    [done|lia|unfold bd_one, decimals in *; lia|].
  exists round. split; [done|]. unfold calculatePayouts. rewrite Hsc, Hd. cbn [mbind result_bind].
  unfold calculatePayoutsInner. rewrite Hbest. cbn [mbind result_bind].
  destruct Hbok as [[-> Hn]|[Hb Hle]].
  { right. exists ∅. split; [reflexivity|]. split; [intros ? ? []%lookup_empty_Some|]. split; [unfold total; rewrite map_fold_empty; lia|].
    intros a. rewrite dom_empty_L. split; [intros []%not_elem_of_empty|]. intros (e & ? & He & [? E] & _). by rewrite Hn in E. }
  destruct (Z.ltb_spec best 0); [unfold height_ok in Hb; lia|]. rewrite u32_height, HR by done. cbn [mbind result_bind].
  pose proof (po_limit _ Hpp round) as Hl. rewrite Hsum in * by lia.
  destruct (pay_fold best (weights best (endorsements j)) R (endorsements j) (endorsements j) ∅ 0)
    as [[Hlost ->]|(r & -> & [Ha Hs Hz] & Hdom)]; [done|done|done|lia|lia|lia| |by left|].
  { split; [intros ? ? []%lookup_empty_Some| |]; unfold total; rewrite map_fold_empty; lia. }
  right. exists r. split; [reflexivity|]. split; [done|]. split.
  - destruct (decide (weights best (endorsements j) = 0)) as [E|]; [rewrite Hz by done; lia|]. etrans; [|apply HRr].
    apply (Z.mul_le_mono_pos_r _ _ (weights best (endorsements j))); lia.
  - intros a. rewrite Hdom, dom_empty_L. set_solver.
Qed.
End payouts.

(** C9: Paying for a block never fails on an assertion or overflows.  With the alt tree at the applied tip asked for, blocks
    that are too young give no payouts; otherwise the block [payoutDelay - 1] behind the tip is settled: unless the ATV of a
    counted endorsement cannot be loaded, exactly the publishers whose endorsements are on the best VeriBlock chain get an
    entry, and the payouts add up to at most the maximal reward of the block's round. *)
Theorem getPopPayout_conserves {S} `{PayloadsStorage S} (params : AltChainParams) (pp : PopPayoutsParams) (s : S) (w : alt_world) tip i :
  payouts_ok pp → interval_ok (mKeystoneInterval params) → 1 <= mEndorsementSettlementInterval params <= mPopPayoutDelay pp →
  (∀ k j, blocks_ (vbk w) !! k = Some j → height_ok (BlockIndex.height j)) → tree_inv w →
  (∀ k j, blocks_ w !! k = Some j → height_ok (BlockIndex.height j) ∧ few j) →
  blocks_ w !! alt_key tip = Some i → isDeleted i = false → chain_tip (activeChain_ w) = Some (alt_key tip) →
  BLOCK_CONNECTED <= level (status i) →
  match back (blocks_ w) (Z.to_nat (mPopPayoutDelay pp - 1)) (alt_key tip) with
  | None => getPopPayout params pp s w tip ∅ = Ok ∅
  | Some k => ∃ j, blocks_ w !! k = Some j ∧ settled params pp s w j (getPopPayout params pp s w tip ∅)
  end.
Proof.
  intros Hpp Hki Hsi Hvbk [[W Hst] _ _] Hall Hi Hdel Htip Hlev. destruct (po_delay _ Hpp) as [Hd1 Hd2]. destruct (Hall _ _ Hi) as [Hh _].
  unfold getPopPayout, isBootstrapped, getBlockIndex. rewrite Hi, Hdel, Htip.
  rewrite (bool_decide_eq_false_2 (blocks_ w = ∅)) by (intros E; by rewrite E, lookup_empty in Hi). cbn [mbind result_bind vassert].
  rewrite bool_decide_eq_true_2 by done. rewrite (deref_eq _ _ _ Hi). cbn [mbind result_bind vassert].
  rewrite isValidUpTo_eq, (proj2 (Z.leb_le _ _) Hlev) by by eapply Hst. cbn [mbind result_bind vassert].
  rewrite (ckS_ok 32) by (unfold INT32_MAX in *; lia). cbn [mbind result_bind]. unfold getAncestorBlocksBehind.
  rewrite (deref_eq _ _ _ Hi). cbn [mbind result_bind]. set (n := mPopPayoutDelay pp - 1) in *.
  destruct (Z.ltb_spec n 0); [lia|]. cbn [orb]. destruct (Z.ltb_spec (BlockIndex.height i) n).
  - cbn [mbind result_bind]. destruct (back _ _ _) as [k|] eqn:Eb; [|done].
    destruct (back_height _ _ _ _ _ W Hi Eb) as (j & Hj & Hhj). destruct (Hall _ _ Hj) as [[Hj0 _] _]. lia.
  - rewrite (getAncestor_eq _ _ i _ W Hi) by lia. destruct (Z.ltb_spec (BlockIndex.height i) (BlockIndex.height i - n)); [lia|].
    replace (BlockIndex.height i - (BlockIndex.height i - n)) with n by lia. cbn [mbind result_bind].
    destruct (back _ _ _) as [k|] eqn:Eb; [|done]. destruct (back_height _ _ _ _ _ W Hi Eb) as (j & Hj & Hhj).
    exists j. split; [done|]. rewrite (deref_eq _ _ _ Hj). cbn [mbind result_bind]. destruct (Hall _ _ Hj) as [Hh2 _].
    rewrite !wrapU_small by (unfold height_ok, INT32_MAX in *; try split; try (rewrite wrapU_small; lia); lia).
    rewrite (proj2 (Z.leb_le _ _)) by lia. cbn [mbind result_bind vassert]. by eapply calculatePayouts_ok.
Qed.

(** ** The default parameters and an example *)
Lemma default_payouts_ok : payouts_ok default_payouts.
Proof.
  assert (∀ P : Z → Prop, (∀ n : nat, (n < 5)%nat → P (ratio default_payouts (Z.of_nat n))) → ∀ round, P (ratio default_payouts round)) as Hr.
  { intros P HP round. unfold ratio. destruct (decide (Z.to_nat round < 5)%nat) as [Hlt|].
    - specialize (HP (Z.to_nat round) Hlt). unfold ratio in HP. by rewrite Nat2Z.id in HP.
    - rewrite lookup_ge_None_2 by (cbn; lia). specialize (HP 4%nat ltac:(lia)). unfold ratio in HP. by rewrite lookup_ge_None_2 in HP by (cbn; lia). }
  constructor.
  - apply (bool_decide_unpack _). vm_compute. exact I.
  - apply (bool_decide_unpack _). vm_compute. exact I.
  - apply (bool_decide_unpack _). vm_compute. exact I.
  - intros round. unfold threshold. destruct (isKeystoneRound _ _); apply (bool_decide_unpack _); vm_compute; exact I.
  - cbn. lia.
  - cbn. unfold INT32_MAX. lia.
  - cbn. lia.
  - cbn. unfold INT32_MAX. lia.
  - intros round. unfold reward_limit. apply (Hr (λ x, threshold default_payouts round * x / decimals < 2 ^ 64)). intros n Hn.
    unfold threshold. do 5 (destruct n as [|n]; [destruct (isKeystoneRound _ _); apply (bool_decide_unpack _); vm_compute; exact I|]). lia.
Qed.

(** A chain of 61 blocks; block 11 is endorsed three times, in the VeriBlock blocks 100 and
    113 of the best chain and in one that is not known. *)
Module Example_rewards.
Definition hash (n : Z) : list Z := replicate 32 (n + 1).
Definition vbk_hash (n : Z) : list Z := replicate 12 n.
Definition endorsement (n : Z) : Endorsement := mkEndorsement [n] (hash 11) (hash 12) (vbk_hash n).
Definition alt_node (n : Z) : alt_index :=
  mkBlockIndex n (Alt.mkAltBlock (hash n) (hash (n - 1)) n n) 4 false (if n =? 0 then None else Some (hash (n - 1)))
    (if n =? 60 then ∅ else {[hash (n + 1)]}) false
    (mkAltAddon (mkPopState [] (if n =? 11 then [mkPtr 0 (endorsement 100); mkPtr 1 (endorsement 113); mkPtr 2 (endorsement 7)] else [])) [] [] []).
Definition vbk_node (n : Z) : BlockIndex (list Z) Vbk.VbkBlock VbkBlockAddon :=
  mkBlockIndex n (Vbk.mkVbkBlock n 2 [] [] [] [] 0 0 0) 4 false (if n =? 100 then None else Some (vbk_hash (n - 1)))
    (if n =? 113 then ∅ else {[vbk_hash (n + 1)]}) false newVbkAddon.
Definition vbk_tree : VbkTree.vbk_tree :=
  mkTree (list_to_map (map (λ n, (vbk_hash n, vbk_node n)) (seqZ 100 14))) {[vbk_hash 113]}
    (mkChain 100 (map (λ n, Some (vbk_hash n)) (seqZ 100 14))) 14 0 false None false true ∅ ∅ [] (mkProtecting (emptyTree ()) 0).
Definition world : alt_world :=
  mkTree (list_to_map (map (λ n, (hash n, alt_node n)) (seqZ 0 61))) {[hash 60]}
    (mkChain 0 (map (λ n, Some (hash n)) (seqZ 0 61))) 61 0 false None false true ∅ ∅ [] (mkProtecting vbk_tree 3).
Definition atv (n : Z) : ATV :=
  mkATV 1 (mkVbkTx (mkNetwork None 1) toy_address (mkCoin 1000) [] 7 (mkPublicationData 3 [] [] [n]) [] [])
    Example_popdata.path (Vbk.mkVbkBlock n 2 [] [] [] [] 0 0 0).
(** The storage of ATVs: a list of their ids. *)
#[export] Instance storage : PayloadsStorage (list Z) := {|
  storage_getATV s pid := match pid with [n] => if decide (n ∈ s) then Some (atv n) else None | _ => None end;
  storage_getVTB _ _ := None; storage_getVBK _ _ := None; writePayloads _ s := s |}.
#[local] Existing Instance Example_stateless.ct.
Definition params : AltChainParams := AltChainParamsRegTest 3.

Lemma world_inv : tree_inv world.
Proof. apply inv_check_ok, (bool_decide_unpack _). vm_compute. exact I. Qed.

Lemma vbk_heights k j : blocks_ (vbk world) !! k = Some j → height_ok (BlockIndex.height j).
Proof.
  intros Hk. apply elem_of_list_to_map_2, list_elem_of_fmap in Hk as (n & [= -> ->] & Hn). apply elem_of_seqZ in Hn. cbn. unfold height_ok, INT32_MAX. lia.
Qed.

Lemma alt_heights k j : blocks_ world !! k = Some j → height_ok (BlockIndex.height j) ∧ few j.
Proof.
  intros Hk. apply elem_of_list_to_map_2, list_elem_of_fmap in Hk as (n & [= -> ->] & Hn). apply elem_of_seqZ in Hn. split; [cbn; unfold height_ok, INT32_MAX; lia|]. unfold few, endorsements. cbn. destruct (n =? 11); cbn; lia.
Qed.
End Example_rewards.

#[local] Existing Instance Example_rewards.storage.
(** With both ATVs stored the two miners share 1.26947846; with one missing the call fails. *)
Lemma getPopPayout_conserves_witness :
  (λ s, match getPopPayout Example_rewards.params default_payouts s Example_rewards.world (Example_rewards.hash 60) ∅ with
        | Ok r => Some (map_to_list r) | _ => None end) <$> [[100; 113]; [100]] =
    [Some [([113], 30447495); ([100], 96500351)]; None] ∧
  ∃ j, blocks_ Example_rewards.world !! Example_rewards.hash 11 = Some j ∧
    settled Example_rewards.params default_payouts [100; 113] Example_rewards.world j
      (getPopPayout Example_rewards.params default_payouts [100; 113] Example_rewards.world (Example_rewards.hash 60) ∅).
Proof.
  split; [vm_compute; reflexivity|].
  apply (getPopPayout_conserves Example_rewards.params default_payouts [100; 113] Example_rewards.world (Example_rewards.hash 60)
    (Example_rewards.alt_node 60)); [apply default_payouts_ok|cbn; unfold interval_ok, INT32_MAX; lia|cbn; lia|apply Example_rewards.vbk_heights|
    apply Example_rewards.world_inv|apply Example_rewards.alt_heights|reflexivity|reflexivity|reflexivity|vm_compute; congruence].
Defined.
