(* ===== verification/ValueSortedMap.v ===== *)
(** * The map sorted by its values ([value_sorted_map.hpp])

    The mempool keeps the payloads it cannot connect yet in a map from their ids,
    next to a multiset of the same pointers ordered by height, in which they are
    tried again.  [std::multiset] is a sorted list: [find] gives the first of the
    equivalent elements (the lower bound) and [insert] puts an element behind them.
    Every comparator of the program compares heights: [h].

    No operation on a consistent map aborts ([insert_ok], [erase_ok]), the sizes
    agree and the heights are those of the map.  The values of the multiset
    are those of the map as long as no two have the same height ([erase_values]); after
    that [erase] can take another value out of the multiset than out of the map
    ([erase_other]). *)
From Stdlib Require Import Permutation Sorting.Sorted.
From S2P Require Import Prelude.

Section map.
Context {K V : Type} `{Countable K} (h : V → Z).
Implicit Types (l : list V) (v x : V) (k : K).

(** The comparator. *)
Definition value_less a b : bool := h a <? h b.

(** [set_.erase(set_.find(v))], unless there is no equivalent element. *)
Fixpoint erase_found v l : option (list V) :=
  match l with
  | [] => None
  | x :: l => if value_less x v then cons x <$> erase_found v l
              else if value_less v x then None else Some l
  end.
Fixpoint set_insert v l : list V :=
  match l with
  | [] => [v]
  | x :: l' => if value_less v x then v :: l else x :: set_insert v l'
  end.

Record ValueSortedMap := mkValueSortedMap { set_ : list V; map_ : gmap K V }.
Implicit Types m : ValueSortedMap.
Definition newValueSortedMap : ValueSortedMap := mkValueSortedMap [] ∅.

Definition assert_sizes m : result ValueSortedMap :=
  vassert (bool_decide (size (map_ m) = length (set_ m))) "size of map and set are different";; Ok m.

(** [erase(const K&)] *)
Definition value_erase k m : result ValueSortedMap :=
  match map_ m !! k with
  | None => Ok m
  | Some v =>
    match erase_found v (set_ m) with
    | None => Assert "set_it != set_.end()"
    | Some s => assert_sizes (mkValueSortedMap s (delete k (map_ m)))
    end
  end.

(** [erase(const iterator_t&)], at the position of [k]. *)
Definition value_erase_at k m : result ValueSortedMap :=
  match map_ m !! k with
  | None => Undef "iterator"
  | Some v =>
    match erase_found v (set_ m) with
    | None => Undef "erase of the end of a set"
    | Some s => assert_sizes (mkValueSortedMap s (delete k (map_ m)))
    end
  end.

Definition value_insert k v m : result ValueSortedMap :=
  match map_ m !! k with
  | Some old =>
    match erase_found old (set_ m) with
    | None => Assert "set_it != set_.end()"
    | Some s => assert_sizes (mkValueSortedMap (set_insert v s) (<[k := v]> (map_ m)))
    end
  | None => assert_sizes (mkValueSortedMap (set_insert v (set_ m)) (<[k := v]> (map_ m)))
  end.

Definition value_size m : result Z := assert_sizes m;; Ok (Z.of_nat (size (map_ m))).
Definition value_clear m : result ValueSortedMap := assert_sizes m;; Ok newValueSortedMap.
Definition value_empty m : result bool := assert_sizes m;; Ok (bool_decide (map_ m = ∅)).
Definition getSortedValues m : list V := set_ m.

(** ** The invariant *)
Definition values m : list V := snd <$> map_to_list (map_ m).
Definition by_height : V → V → Prop := λ a b, h a <= h b.
Record consistent m : Prop := {
  vs_sorted : StronglySorted by_height (set_ m);
  vs_heights : h <$> set_ m ≡ₚ h <$> values m
}.

Lemma consistent_sizes m : h <$> set_ m ≡ₚ h <$> values m → assert_sizes m = Ok m.
Proof.
  intros Hp. apply Permutation_length in Hp. unfold values in Hp. rewrite !length_fmap in Hp. unfold assert_sizes.
  rewrite bool_decide_eq_true_2; [done|]. by rewrite Hp, length_map_to_list.
Qed.

Lemma set_insert_perm v l : set_insert v l ≡ₚ v :: l.
Proof.
  induction l as [|x l IH]; [done|]. cbn [set_insert]. destruct (value_less v x); [done|]. rewrite IH. apply Permutation_swap.
Qed.

Lemma set_insert_sorted v l : StronglySorted by_height l → StronglySorted by_height (set_insert v l).
Proof.
  induction 1 as [|x l Hs IH Hx]; cbn [set_insert]; [by repeat constructor|]. unfold value_less.
  destruct (Z.ltb_spec (h v) (h x)).
  - constructor; [by constructor|]. constructor; [unfold by_height; lia|]. eapply Forall_impl; [exact Hx|].
    unfold by_height. intros y Hy. lia.
  - constructor; [done|]. rewrite set_insert_perm. by constructor.
Qed.

(** An element as high as [v] is found, and it is one as high as [v]. *)
Lemma erase_found_ok v l : StronglySorted by_height l → h v ∈ h <$> l →
  ∃ x s, erase_found v l = Some s ∧ h x = h v ∧ l ≡ₚ x :: s ∧ StronglySorted by_height s.
Proof.
  induction 1 as [|y l Hs IH Hy]; intros Hin; [by apply elem_of_nil in Hin|]. cbn [erase_found]. unfold value_less.
  rewrite Forall_forall in Hy. destruct (Z.ltb_spec (h y) (h v)) as [Hlt|Hge].
  - destruct IH as (x & s & -> & Hx & Hp & Hss); [rewrite fmap_cons in Hin; apply elem_of_cons in Hin as [?|?]; [lia|done]|].
    exists x, (y :: s). split; [done|]. split; [done|]. split; [rewrite Hp; apply Permutation_swap|].
    constructor; [done|]. apply Forall_forall. intros z Hz. apply Hy. rewrite Hp. by right.
  - assert (h y = h v) as E.
    { rewrite fmap_cons in Hin. apply elem_of_cons in Hin as [?|(z & Ez & Hz)%list_elem_of_fmap]; [done|].
      specialize (Hy z Hz). unfold by_height in Hy. lia. }
    destruct (Z.ltb_spec (h v) (h y)); [lia|]. by exists y, l.
Qed.

Lemma values_delete m k v : map_ m !! k = Some v → values m ≡ₚ v :: (snd <$> map_to_list (delete k (map_ m))).
Proof.
  intros Hk. unfold values. rewrite <- (insert_delete_id (map_ m) k v Hk) at 1.
  by rewrite map_to_list_insert by apply lookup_delete_eq.
Qed.

(** Taking the value of [k] out of both. *)
Lemma take_out m k v : consistent m → map_ m !! k = Some v → ∃ x s, erase_found v (set_ m) = Some s ∧
  h x = h v ∧ set_ m ≡ₚ x :: s ∧ consistent (mkValueSortedMap s (delete k (map_ m))).
Proof.
  intros [Hs Hp] Hk. pose proof (values_delete m k v Hk) as Hv.
  destruct (erase_found_ok v (set_ m) Hs) as (x & s & E & Hx & Hps & Hss).
  { rewrite Hp, Hv. by left. }
  exists x, s. split; [done|]. split; [done|]. split; [done|]. split; [done|]. cbn [set_ map_]. unfold values. cbn [map_].
  rewrite Hps, Hv, !fmap_cons, Hx in Hp. by apply Permutation_cons_inv in Hp.
Qed.

Lemma erase_ok m k : consistent m → ∃ m', value_erase k m = Ok m' ∧ consistent m' ∧ map_ m' = delete k (map_ m).
Proof.
  intros Hm. unfold value_erase. destruct (map_ m !! k) as [v|] eqn:Hk.
  - destruct (take_out m k v Hm Hk) as (x & s & -> & _ & _ & Hc). rewrite consistent_sizes by apply Hc. by eexists.
  - exists m. by rewrite delete_id.
Qed.

Lemma erase_at_ok m k v : consistent m → map_ m !! k = Some v → value_erase_at k m = value_erase k m.
Proof.
  intros Hm Hk. unfold value_erase_at, value_erase. rewrite Hk. by destruct (take_out m k v Hm Hk) as (x & s & -> & _).
Qed.

Lemma added m k v : consistent m → map_ m !! k = None → consistent (mkValueSortedMap (set_insert v (set_ m)) (<[k := v]> (map_ m))).
Proof.
  intros [Hs Hp] Hk. split; cbn [set_]; [by apply set_insert_sorted|]. unfold values. cbn [map_].
  by rewrite set_insert_perm, map_to_list_insert, !fmap_cons, Hp.
Qed.

Lemma insert_ok m k v : consistent m → ∃ m', value_insert k v m = Ok m' ∧ consistent m' ∧ map_ m' = <[k := v]> (map_ m).
Proof.
  intros Hm. unfold value_insert. destruct (map_ m !! k) as [old|] eqn:Hk.
  - destruct (take_out m k old Hm Hk) as (x & s & -> & _ & _ & Hc).
    pose proof (added _ k v Hc (lookup_delete_eq _ _)) as Ha. cbn [set_ map_] in Ha. rewrite insert_delete_eq in Ha.
    rewrite consistent_sizes by apply Ha. by eexists.
  - pose proof (added m k v Hm Hk) as Ha. rewrite consistent_sizes by apply Ha. by eexists.
Qed.

Lemma new_consistent : consistent newValueSortedMap.
Proof. split; [constructor|]. unfold values. cbn. by rewrite map_to_list_empty. Qed.

(** While the heights of the values differ, the multiset holds the values of the map. *)
Lemma erase_values m k m' : consistent m → set_ m ≡ₚ values m → NoDup (h <$> values m) → value_erase k m = Ok m' →
  set_ m' ≡ₚ values m'.
Proof.
  intros Hm Hv Hnd. unfold value_erase. destruct (map_ m !! k) as [v|] eqn:Hk; [|by intros [= <-]].
  destruct (take_out m k v Hm Hk) as (x & s & -> & Hx & Hps & Hc). rewrite consistent_sizes by apply Hc. intros [= <-].
  unfold values at 1. cbn [set_ map_]. pose proof (values_delete m k v Hk) as Hvd. rewrite Hps in Hv.
  assert (x = v) as ->.
  { assert (x ∈ values m) as Hin by (rewrite <- Hv; by left). rewrite Hvd in Hin. apply elem_of_cons in Hin as [->|Hin]; [done|].
    exfalso. rewrite Hvd, fmap_cons in Hnd. apply NoDup_cons in Hnd as [Hn _]. apply Hn. rewrite <- Hx. by apply list_elem_of_fmap_2. }
  rewrite Hvd in Hv. by apply Permutation_cons_inv in Hv.
Qed.
End map.

(** Two payloads of height 5: erasing the second one takes the first one out of
    the multiset.  It stays in the map and is never tried again, and the one that was
    erased is. *)
Lemma erase_other :
  (m ← value_insert (K := Z) fst 1 (5, "first"%string) newValueSortedMap;
   m ← value_insert fst 2 (5, "second"%string) m;
   m ← value_erase fst 2 m;
   Ok (getSortedValues m, map_to_list (map_ m))) = Ok ([(5, "second"%string)], [(1, (5, "first"%string))]).
Proof. vm_compute. reflexivity. Qed.
