(* ===== verification/Storage.v ===== *)
(** * Saving and loading the trees ([storage/util.hpp], [storage/util.cpp],
    [storage/adaptors/block_provider_impl.hpp], [inmem_storage_impl.hpp])

    The storage is a map from byte strings to byte strings, ordered by key
    ([InmemStorageImpl]); a write batch of it writes at once.  A block is saved
    under its hash, and its hash under the key by which its successors name it.
    Trees are saved block by block, only the blocks that are marked as dirty; all
    blocks of the storage are loaded, lowest first, into a bootstrapped tree.

    The caches of ProgPow that are filled while VeriBlock blocks are read are not
    modelled; [alloc] says where the allocator puts the endorsements of the block
    read from a key. *)
From stdpp Require Import sorting.
From Stdlib Require Import String.
From S2P Require Import Prelude BlockIndex Chain TreeAlgo PayloadsIndex BaseTree TreeStorage BlockTree StrUtil Serde Address Blocks Payloads Endorsements PopState BlockAddons StoredAddons AltParams StatelessValidation PowTrees AddEndorsement AltUtil VbkTree AltTree.

Notation kv_storage := (gmap (list Z) (list Z)).

(** ** Keys *)
Class DbKeys (B : Type) := {
  DB_BLOCK : Z;
  DB_PREV_BLOCK : Z;
  tip_key : list Z;
  (** A hash from the bytes of a value. *)
  hash_from : list Z → result (list Z)
}.
#[export] Instance btc_keys : DbKeys Btc.BtcBlock :=
  {| DB_BLOCK := 81; DB_PREV_BLOCK := 82; tip_key := [113; 98; 116; 99; 116; 105; 112]; hash_from := newBlob SHA256_HASH_SIZE |}.
#[export] Instance vbk_keys : DbKeys Vbk.VbkBlock :=
  {| DB_BLOCK := 87; DB_PREV_BLOCK := 84; tip_key := [119; 118; 98; 107; 116; 105; 112]; hash_from := newBlob VBK_BLOCK_HASH_SIZE |}.
#[export] Instance alt_keys : DbKeys Alt.AltBlock :=
  {| DB_BLOCK := 69; DB_PREV_BLOCK := 89; tip_key := [101; 97; 108; 116; 116; 105; 112]; hash_from b := Ok b |}.

Section keys.
Context (B : Type) `{DbKeys B}.
Definition block_key (hash : list Z) : list Z := DB_BLOCK :: hash.
Definition block_prev_key (hash : list Z) : list Z := DB_PREV_BLOCK :: hash.
End keys.

(** ** Iteration: [std::map] keeps its keys in lexicographic order *)
Fixpoint lex_le (a b : list Z) : bool :=
  match a, b with
  | [], _ => true
  | _ :: _, [] => false
  | x :: a, y :: b => (x <? y) || ((x =? y) && lex_le a b)
  end.
Definition key_le (a b : list Z * list Z) : Prop := lex_le a.1 b.1 = true.
#[export] Instance key_le_dec : RelDecision key_le := λ a b, decide (lex_le a.1 b.1 = true).

Definition entries (s : kv_storage) : list (list Z * list Z) := merge_sort key_le (map_to_list s).

(** [is_sub_vec] *)
Fixpoint is_sub_vec (cur sub : list Z) : bool :=
  match sub, cur with
  | [], _ => true
  | _ :: _, [] => false
  | y :: sub, x :: cur => (x =? y) && is_sub_vec cur sub
  end.

(** [seek] *)
Fixpoint seek (val : list Z) (l : list (list Z * list Z)) : list (list Z * list Z) :=
  match l with
  | [] => []
  | e :: l' => if is_sub_vec e.1 val then l else seek val l'
  end.

(** [valid]: the key starts with the prefix. *)
Definition has_prefix (prefix : Z) (e : list Z * list Z) : bool :=
  match e.1 with [] => false | x :: _ => x =? prefix end.

Fixpoint while_valid (prefix : Z) (l : list (list Z * list Z)) : list (list Z * list Z) :=
  match l with
  | [] => []
  | e :: l => if has_prefix prefix e then e :: while_valid prefix l else []
  end.

Definition iterate (prefix : Z) (s : kv_storage) : list (list Z * list Z) :=
  while_valid prefix (seek [prefix] (entries s)).

(** ** Blocks of one kind *)
Section blocks.
Context {B A SA P Ext : Type} `{Countable P, !DbKeys B, !NodeStorage B A SA}.
Context `{!BlockHash B (list Z), !BlockHeader B (list Z) (list Z)}.
Notation tree := (BaseBlockTree (list Z) (list Z) B A P Ext).
Notation index_t := (BlockIndex (list Z) B A).
Notation stored_t := (StoredBlockIndex B SA).
Implicit Types (s : kv_storage) (t : tree).

(** *** [BlockBatchImpl] *)
Definition writeBlock (hash prev_hash : list Z) (blk : stored_t) s : result kv_storage :=
  let s := <[block_prev_key B prev_hash := hash]> s in
  bytes ← written (StoredBlockIndex_toVbkEncoding blk);
  Ok (<[block_key B hash := bytes]> s).

Definition writeTip (hash : list Z) s : kv_storage := <[tip_key := hash]> s.

(** *** [BlockReaderImpl] *)
Definition getTip s : result (option (list Z)) :=
  match s !! tip_key with
  | None => Ok None
  | Some bytes_out => h ← hash_from bytes_out; Ok (Some h)
  end.

(** [BlockIteratorImpl::value] *)
Definition readValue (alloc : Z) (bytes : list Z) : result (option stored_t) :=
  match StoredBlockIndex_fromVbkEncoding alloc (newStream bytes) with
  | Ok (v, _) => Ok (Some v)
  | Invalid _ => Ok None
  | Assert w => Assert w | Throw w => Throw w | Undef w => Undef w | OutOfFuel => OutOfFuel
  end.

Definition getBlock (alloc : list Z → Z) (prev_hash : list Z) s : result (option stored_t) :=
  match s !! block_prev_key B prev_hash with
  | None => Ok None
  | Some hash_out =>
    hash ← hash_from hash_out;
    match s !! block_key B hash with
    | None => Ok None
    | Some bytes_out => readValue (alloc (block_key B hash)) bytes_out
    end
  end.

(** *** [saveTree] *)
Definition stored_deleted (v : stored_t) : bool := negb (Z.land (stored_status v) BLOCK_DELETED =? 0).

Definition higher_first (a b : list Z * index_t) : Prop := height b.2 <= height a.2.
#[export] Instance higher_first_dec : RelDecision higher_first := λ a b, decide (height b.2 <= height a.2).

Definition dirty_indices t : list (list Z * index_t) :=
  merge_sort higher_first (filter (λ e, isDirty e.2 = true) (map_to_list (blocks_ t))).

Definition saveTree (validator : index_t → result unit) (st : tree * kv_storage) : result (tree * kv_storage) :=
  let '(t, s) := st in
  let dirty := dirty_indices t in
  let t := with_blocks (fmap (λ i, if isDirty i then unsetDirty i else i)) t in
  s ← foldM (λ s e,
    validator e.2;;
    let hash := PayloadsIndex.getHash (BlockIndex.header e.2) in
    writeBlock hash (makePrevHash hash) (toStoredBlockIndex e.2) s) dirty s;
  match chain_tip (activeChain_ t) with
  | None => Undef "null tip"
  | Some tip =>
    i ← deref (blocks_ t) tip;
    Ok (t, writeTip (PayloadsIndex.getHash (BlockIndex.header i)) s)
  end.

(** *** [loadBlocksAndTip] *)
Fixpoint read_blocks (alloc : list Z → Z) (l : list (list Z * list Z)) : result (list stored_t) :=
  match l with
  | [] => Ok []
  | (key, bytes) :: l =>
    v ← readValue (alloc key) bytes;
    match v with
    | None => invalid "bad-value"
    | Some val =>
      out ← read_blocks alloc l;
      Ok (if stored_deleted val then out else val :: out)
    end
  end.

Definition loadBlocksAndTip (alloc : list Z → Z) s : result (list stored_t * option (list Z)) :=
  out ← read_blocks alloc (iterate DB_BLOCK s);
  res ← getTip s;
  match res, out with
  | None, _ :: _ => invalid (node_name +:+ "-bad-tip")%string
  | Some _, [] => invalid (node_name +:+ "-state-corruption")%string
  | _, _ => Ok (out, res)
  end.

(** *** [loadTree] *)
Definition lower_first (a b : stored_t) : Prop := stored_height a <= stored_height b.
#[export] Instance lower_first_dec : RelDecision lower_first := λ a b, decide (stored_height a <= stored_height b).

(** The virtual functions of the tree. *)
Section load.
Variables (loadBlockForward : stored_t → bool → tree → result tree) (loadTip : list Z → tree → result tree).

Definition loadTree (tiphash : list Z) (blocks : list stored_t) (fast_load : bool) t : result tree :=
  match blocks with
  | [] => Ok t
  | _ =>
    b ← isBootstrapped t;
    vassert b "tree must be bootstrapped";;
    t ← foldM (λ t block, loadBlockForward block fast_load t ?! "load-tree") (merge_sort lower_first blocks) t;
    t ← loadTip tiphash t ?! "load-tree";
    vassert (bool_decide (chain_tip (activeChain_ t) ≠ None)) "t != nullptr";;
    Ok t
  end.
End load.
End blocks.

(** ** The three trees *)
(** [validateBlockIndex] *)
Definition validateBlockIndex_vbk {K} `{Countable K} (index : BlockIndex K Vbk.VbkBlock VbkBlockAddon) : result unit :=
  vassert (negb (hasDuplicateIdsOf ∅ (vbk_vtbids (addon index)))) "Duplicate VTB IDs".

Section trees.
Context `{Hashes} `{ProgPow} `{CtParams}.
Context `{BR : !BlockRules (list Z) Btc.BtcBlock BtcBlockAddon, VR : !BlockRules (list Z) Vbk.VbkBlock VbkBlockAddon}.
Context (params : AltChainParams) (vbk_settlementInterval : Z).
Context {HKV : TreeHooks (list Z) (list Z) Vbk.VbkBlock VbkBlockAddon (list Z) (Protecting btc_tree)}.
Context {HKA : TreeHooks (list Z) (list Z) Alt.AltBlock AltBlockAddon (list Z) (Protecting vbk_tree)}.
Implicit Types w : alt_world.

Definition saveTrees (st : alt_world * kv_storage) : result (alt_world * kv_storage) :=
  let '(w, s) := st in
  r ← saveTree (λ _, Ok ()) (btc (vbk w), s);
  let w := set_ing (set_ing r.1 (vbk w)) w in
  r ← saveTree validateBlockIndex_vbk (vbk w, r.2);
  let w := set_ing r.1 w in
  saveTree (λ _, Ok ()) (w, r.2).

Definition btc_loadTree (tip : list Z) (blocks : list (StoredBlockIndex Btc.BtcBlock StoredBtcBlockAddon)) (fast_load : bool)
    (t : btc_tree) : result btc_tree :=
  loadTree (λ b fast t, loadBlockForward newBtcAddon newBtcHeader b fast t)
    (λ hash t, loadTip (HK := plain_hooks) (btc_key hash) t) tip blocks fast_load t.

Definition tip_or_default (tip : option (list Z)) : list Z := default [] tip.

Definition loadTrees (alloc : list Z → Z) (s : kv_storage) (fast_load : bool) w : result alt_world :=
  btcblocks ← loadBlocksAndTip alloc s ?! "load-btc-tree-blocks";
  vbkblocks ← loadBlocksAndTip alloc s ?! "load-vbk-tree-blocks";
  altblocks ← loadBlocksAndTip alloc s ?! "load-alt-tree-blocks";
  b ← btc_loadTree (tip_or_default btcblocks.2) btcblocks.1 fast_load (btc (vbk w)) ?! "failed-to-load-btc-tree";
  let w := set_ing (set_ing b (vbk w)) w in
  v ← loadTree (vbk_loadBlockForward vbk_settlementInterval) vbk_loadTip (tip_or_default vbkblocks.2) vbkblocks.1 fast_load
        (vbk w) ?! "failed-to-load-vbk-tree";
  let w := set_ing v w in
  loadTree (alt_loadBlockForward params) alt_loadTip (tip_or_default altblocks.2) altblocks.1 fast_load w
    ?! "failed-to-load-alt-tree".
End trees.
