(* ===== verification/Reload.v ===== *)
(** * Loading the blocks of a tree ([blockchain/blocktree.hpp],
    [blockchain/base_block_tree.hpp])

    Loading the saved blocks, lowest first, into a bootstrapped tree rebuilds the
    tree that was saved ([reload_ok]): the state between two blocks is
    [loading]. *)
From stdpp Require Import sorting.
From S2P Require Import Prelude BlockIndex Chain TreeAlgo PayloadsIndex BaseTree TreeInv TreeStorage BlockTree BlockTreeInv AcceptHeader.

(** ** Loading one block *)
Section reload.
Context {K H B A P Ext SA : Type} `{Countable K, Countable H, Countable P, EqDecision B}.
Context `{BlockAddon A, PayloadIds A P, BlockHash B H, BlockHeader B H K, StoredAddon A SA}.
Context `{WorkAddon A, !WorkAddonLaws A, !BlockRules K B A}.
Notation tree := (BaseBlockTree K H B A P Ext).
Notation index_t := (BlockIndex K B A).
Notation stored_t := (StoredBlockIndex B SA).
Context (newAddon : A) (newHeader : B).
Hypothesis tip_level : validTipLevel = 1.
Implicit Types (t : tree) (m : gmap K index_t) (i j : index_t) (k p x : K) (v : stored_t).

(** What [base_loadBlockForward] does once the node is there. *)
Definition load_rest v (fast_load : bool) t : result tree :=
  let hash := hash_key (stored_header v) in
  current ← deref (blocks_ t) hash;
  vassert (negb (isDeleted current)) "deleted";;
  t ← modify hash (loadFields v) t;
  current ← deref (blocks_ t) hash;
  (match pprev current with
   | Some prev =>
     if negb fast_load then
       p ← deref (blocks_ t) prev;
       if negb (height current =? height p + 1) then invalid "bad-height" else Ok tt
     else Ok tt
   | None => Ok tt
   end);;
  t ← (if isRoot current && negb (bool_decide (chain_first (activeChain_ t) = Some hash)) &&
          negb true
       then c ← prependRoot (blocks_ t) (activeChain_ t) hash; Ok (with_chain c t)
       else Ok t);
  current ← deref (blocks_ t) hash;
  vassert (negb (isDeleted current)) "deleted";;
  r ← node_raiseValidity hash BLOCK_VALID_TREE t;
  t ← modify hash unsetDirty r.1;
  tryAddTip hash t.

(** The node before its work is recovered. *)
Definition loaded v i : index_t :=
  mkBlockIndex (stored_height v) (stored_header v) (stored_status v) false (pprev i) (pnext i) (finalized i)
    (setNullInmemFields (toInmem (stored_addon v) (addon i))).

Lemma loadFields_eq v i : unsetDirty (loadFields v i) = loaded v i.
Proof.
  unfold loadFields, mergeFrom, setStatus, loaded. cbn [setHeight setHeader status].
  destruct (Z.eqb_spec (stored_status v) (status i)) as [E|_]; cbn; [|done]. by rewrite E.
Qed.

Lemma loadFields_fields v i : pprev (loadFields v i) = pprev i ∧ height (loadFields v i) = stored_height v ∧
  status (loadFields v i) = stored_status v.
Proof.
  unfold loadFields, mergeFrom, setStatus. cbn [setHeight setHeader status].
  destruct (Z.eqb_spec (stored_status v) (status i)) as [E|_]; cbn; by rewrite ?E.
Qed.

(** A block that is valid and not deleted. *)
Definition sound_status (s : Z) : Prop :=
  status_ok s ∧ 2 <= level s ∧ Z.testbit s 6 = false ∧ Z.testbit s 10 = false.

Lemma sound_undeleted i : sound_status (status i) → isDeleted i = false.
Proof. intros (_ & _ & _ & Hd). unfold isDeleted. change BLOCK_DELETED with (Z.shiftl 1 10). by rewrite hasFlags_bit by lia. Qed.

Lemma raise_sound t k i : blocks_ t !! k = Some i → sound_status (status i) →
  (∀ p, pprev i = Some p → ∃ j, blocks_ t !! p = Some j ∧ level (status j) <= 4) →
  node_raiseValidity k BLOCK_VALID_TREE t = Ok (with_blocks <[k := i]> t, false).
Proof.
  intros Hk (Hst & Hl & Hb6 & _) Hp. rewrite (raise_ok t k i BLOCK_VALID_TREE Hk Hb6).
  - unfold raised, BLOCK_VALID_TREE. rewrite (proj2 (Z.ltb_ge _ _)) by lia. done.
  - intros p Hpp. destruct (Hp p Hpp) as (j & Hj & Hlj). exists j. split_and!; [done|done|]. unfold BLOCK_VALID_TREE. lia.
Qed.

Lemma modify_ok t k i f : blocks_ t !! k = Some i → modify k f t = Ok (with_blocks <[k := f i]> t).
Proof. intros Hk. unfold modify. by rewrite (deref_eq _ _ _ Hk). Qed.

Lemma load_rest_ok t v fast k i : hash_key (stored_header v) = k → blocks_ t !! k = Some i → isDeleted i = false →
  sound_status (stored_status v) →
  (∀ p, pprev i = Some p → p ≠ k ∧ ∃ j, blocks_ t !! p = Some j ∧ stored_height v = height j + 1) →
  (pprev i = None → chain_first (activeChain_ t) = Some k) →
  let m' := <[k := loaded v i]> (blocks_ t) in store_ok m' →
  (∀ x, x ≠ k → Some x ≠ pprev i → (x ∈ tips_ t ↔ is_valid_tip m' x)) →
  (k ∈ tips_ t → valid_tip m' (loaded v i)) →
  (∀ p, pprev i = Some p → is_valid_tip m' p → p ∈ tips_ t) →
  (∀ p, pprev i = Some p → p ∈ tips_ t → is_valid_tip m' p ∨ valid_tip m' (loaded v i)) →
  ∃ t', load_rest v fast t = Ok t' ∧ blocks_ t' = m' ∧ t' = with_tips (λ _, tips_ t') (with_blocks (λ _, m') t) ∧
    ∀ x, x ∈ tips_ t' ↔ is_valid_tip m' x.
Proof.
  intros Hh Hk Hd Hs Hp Hr m' Hok Ho Hks Hpc Hps. unfold load_rest. rewrite Hh, (deref_eq _ _ _ Hk).
  cbn [mbind result_bind]. rewrite Hd. cbn [negb vassert mbind result_bind]. rewrite (modify_ok t k i _ Hk).
  cbn [mbind result_bind]. destruct (loadFields_fields v i) as (Ep & Eh & Es). set (i1 := loadFields v i) in *.
  set (t1 := with_blocks _ t). assert (blocks_ t1 !! k = Some i1) as Hk1 by apply lookup_insert_eq.
  rewrite (deref_eq _ _ _ Hk1). cbn [mbind result_bind]. rewrite Ep.
  assert (∀ p, pprev i = Some p → ∃ j, blocks_ t1 !! p = Some j ∧ stored_height v = height j + 1 ∧ level (status j) <= 4) as Hp1.
  { intros p Hpp. destruct (Hp p Hpp) as (Hpk & j & Hj & Hhj). exists j. cbn. rewrite lookup_insert_ne by done. split_and!; [done..|].
    apply (so_status _ Hok p j). unfold m'. by rewrite lookup_insert_ne. }
  assert (match pprev i with
          | Some prev => if negb fast then p ← deref (blocks_ t1) prev;
              if negb (height i1 =? height p + 1) then invalid "bad-height" else Ok tt else Ok tt
          | None => Ok tt end = Ok tt) as ->.
  { destruct (pprev i) as [p|] eqn:Epp; [|done]. destruct (Hp1 p eq_refl) as (j & Hj & Hhj & _). destruct fast; [done|].
    cbn [negb]. rewrite (deref_eq _ _ _ Hj). cbn [mbind result_bind]. by rewrite Eh, (proj2 (Z.eqb_eq _ _)) by done. }
  cbn [mbind result_bind]. rewrite andb_false_r. cbn [mbind result_bind]. rewrite (deref_eq _ _ _ Hk1). cbn [mbind result_bind].
  assert (sound_status (status i1)) as Hs1 by by rewrite Es. rewrite (sound_undeleted i1) by done. cbn [negb vassert mbind result_bind].
  rewrite (raise_sound t1 k i1 Hk1 Hs1).
  2:{ intros p Hpp. rewrite Ep in Hpp. destruct (Hp1 p Hpp) as (j & Hj & _ & Hlj). by exists j. }
  cbn [mbind result_bind fst]. rewrite (modify_ok _ k i1) by apply lookup_insert_eq. cbn [mbind result_bind].
  unfold i1. rewrite loadFields_eq. set (t2 := with_blocks _ (with_blocks _ t1)).
  assert (blocks_ t2 = m') as Eb by (cbn; by rewrite !insert_insert_eq).
  assert (blocks_ t2 !! k = Some (loaded v i)) as Hk2 by (rewrite Eb; apply lookup_insert_eq).
  destruct (tryAddTip_spec t2 k (loaded v i)) as (t' & -> & Et & Htips); rewrite ?Eb; try done; [by rewrite <- Eb|].
  exists t'. split; [done|]. rewrite Eb in Htips. assert (blocks_ t' = m') as Eb' by (rewrite Et; exact Eb).
  split_and!; [done| |done]. rewrite Et at 1. rewrite <- Eb. reflexivity.
Qed.

(** ** The tips *)
(** A node that is new, or replaces a node that could be a tip by another. *)
Lemma tips_step m m' k i' (T : gset K) : wf_store m → wf_store m' → m' !! k = Some i' →
  (∀ x, x ≠ k → option_Forall2 (λ a b, status a = status b ∧ pprev a = pprev b) (m !! x) (m' !! x)) →
  (∀ i, m !! k = Some i → pprev i = pprev i' ∧ can_tip i = true ∧ can_tip i' = true) →
  (∀ x, x ∈ T ↔ is_valid_tip m x) →
  (∀ x, x ≠ k → Some x ≠ pprev i' → (x ∈ T ↔ is_valid_tip m' x)) ∧
  (k ∈ T → valid_tip m' i') ∧
  (∀ p, pprev i' = Some p → is_valid_tip m' p → p ∈ T) ∧
  (∀ p, pprev i' = Some p → p ∈ T → is_valid_tip m' p ∨ valid_tip m' i').
Proof.
  intros W W' Hk' Hn Hold HT.
  assert (∀ x c jc a, m !! x = Some a → m !! c = Some jc → pprev jc = Some x → c ∈ pnext a) as Hin.
  { intros x c jc a Ha Hjc Hp. destruct (wf_prev _ W c jc x Hjc Hp) as (a' & Ha' & _ & ?). congruence. }
  assert (∀ x c jc a, m' !! x = Some a → m' !! c = Some jc → pprev jc = Some x → c ∈ pnext a) as Hin'.
  { intros x c jc a Ha Hjc Hp. destruct (wf_prev _ W' c jc x Hjc Hp) as (a' & Ha' & _ & ?). congruence. }
  assert (∀ (a b : index_t), status a = status b → can_tip a = can_tip b) as Hct.
  { intros a b E. unfold can_tip, isDeleted, hasFlags, isFailed. by rewrite E. }
  assert (∀ x a c jc, m' !! x = Some a → c ∈ pnext a → m' !! c = Some jc → pprev jc = Some x) as Hpp'.
  { intros x a c jc Ha Hc Hjc. destruct (wf_next _ W' x a c Ha Hc) as (? & ? & ?). congruence. }
  assert (∀ x a c jc, m !! x = Some a → c ∈ pnext a → m !! c = Some jc → pprev jc = Some x) as Hpp.
  { intros x a c jc Ha Hc Hjc. destruct (wf_next _ W x a c Ha Hc) as (? & ? & ?). congruence. }
  assert (∀ x b, x ≠ k → m' !! x = Some b → ∃ a, m !! x = Some a ∧ status a = status b ∧ pprev a = pprev b) as Hback.
  { intros x b Hx Hb. specialize (Hn x Hx). rewrite Hb in Hn. inversion Hn; naive_solver. }
  assert (∀ x a, x ≠ k → m !! x = Some a → ∃ b, m' !! x = Some b ∧ status a = status b ∧ pprev a = pprev b) as Hfwd.
  { intros x a Hx Ha. specialize (Hn x Hx). rewrite Ha in Hn. inversion Hn; naive_solver. }
  assert (∀ p, pprev i' = Some p → p ≠ k) as Hne by (intros p Hp ->; by eapply (prev_ne m')).
  (* children other than [k] *)
  assert (∀ x a b, m !! x = Some a → m' !! x = Some b → x ≠ k → valid_tip m a →
    pprev i' ≠ Some x ∨ can_tip i' = false → valid_tip m' b) as Hto.
  { intros x a b Ha Hb Hx [Hc Hall] Hkx. destruct (Hfwd x a Hx Ha) as (b' & Hb' & Es & _).
    assert (b' = b) as -> by congruence. split; [by rewrite <- (Hct a b Es)|]. intros c jc Hcc Hjc.
    destruct (decide (c = k)) as [->|Hck].
    - assert (jc = i') as -> by congruence. destruct Hkx as [Hkx|?]; [|done]. by destruct Hkx; eapply Hpp'.
    - destruct (Hback c jc Hck Hjc) as (jc0 & Hjc0 & Esc & Epc). rewrite <- (Hct _ _ Esc). apply (Hall c); [|done].
      eapply Hin; [done..|]. rewrite Epc. by eapply Hpp'. }
  assert (∀ x a b, m !! x = Some a → m' !! x = Some b → x ≠ k → valid_tip m' b → valid_tip m a) as Hfrom.
  { intros x a b Ha Hb Hx [Hc Hall]. destruct (Hfwd x a Hx Ha) as (b' & Hb' & Es & _).
    assert (b' = b) as -> by congruence. split; [by rewrite (Hct a b Es)|]. intros c jc Hcc Hjc.
    destruct (decide (c = k)) as [->|Hck].
    - destruct (Hold jc Hjc) as (Ep & _ & Hi'). rewrite (Hall k i') in Hi'; [done| |done].
      eapply Hin'; [done..|]. rewrite <- Ep. by eapply Hpp.
    - destruct (Hfwd c jc Hck Hjc) as (jc' & Hjc' & Esc & Epc). rewrite (Hct _ _ Esc). apply (Hall c); [|done].
      eapply Hin'; [done..|]. rewrite <- Epc. by eapply Hpp. }
  split_and!.
  - intros x Hx Hp. rewrite HT. split.
    + intros (a & Ha & Hv). destruct (Hfwd x a Hx Ha) as (b & Hb & _). exists b. split; [done|].
      apply (Hto x a); [done..|left; congruence].
    + intros (b & Hb & Hv). destruct (Hback x b Hx Hb) as (a & Ha & _). exists a. split; [done|]. by apply (Hfrom x a b).
  - intros (i & Hi & Hv)%HT. destruct (Hold i Hi) as (Ep & _ & Hi'). split; [done|]. intros c jc Hc Hjc.
    pose proof (Hpp' k i' c jc Hk' Hc Hjc) as Hpc. assert (c ≠ k) as Hck by (intros ->; by eapply (prev_ne m')).
    destruct (Hback c jc Hck Hjc) as (jc0 & Hjc0 & Esc & Epc). rewrite <- (Hct _ _ Esc). apply (proj2 Hv c); [|done].
    eapply Hin; [done..|congruence].
  - intros p Hp (b & Hb & Hv). apply HT. destruct (Hback p b (Hne p Hp) Hb) as (a & Ha & _). exists a. split; [done|].
    by apply (Hfrom p a b); [..|by apply Hne|].
  - intros p Hp (a & Ha & Hv)%HT. destruct (can_tip i') eqn:Ec.
    + right. split; [done|]. intros c jc Hc Hjc. pose proof (Hpp' k i' c jc Hk' Hc Hjc) as Hpc.
      assert (c ≠ k) as Hck by (intros ->; by eapply (prev_ne m')).
      destruct (Hback c jc Hck Hjc) as (jc0 & Hjc0 & _ & Epc).
      destruct (wf_prev _ W c jc0 k Hjc0) as (i & Hi & _); [congruence|]. destruct (Hold i Hi) as (Ep & Hci & _).
      rewrite (proj2 Hv k i) in Hci; [done| |done]. eapply Hin; [done..|congruence].
    + left. destruct (Hfwd p a (Hne p Hp) Ha) as (b & Hb & _). exists b. split; [done|].
      by apply (Hto p a b); [..|by apply Hne| |right].
Qed.

(** ** The saved tree and the tree that is loaded *)
Definition is_live m k : Prop := ∃ i, m !! k = Some i ∧ isDeleted i = false.

(** The work of a live block is the work of its chain. *)
Definition work_ok m : Prop := ∀ k i, m !! k = Some i → isDeleted i = false →
  work_of i = match pprev i with
              | None => getBlockProof (header i)
              | Some p => match m !! p with Some j => add256 (getBlockProof (header i)) (work_of j) | None => 0 end
              end.

#[export] Instance work_ok_dec m : Decision (work_ok m).
Proof.
  refine (cast_if (decide (map_Forall (λ _ i, isDeleted i = false → work_of i = match pprev i with
    | None => getBlockProof (header i)
    | Some p => match m !! p with Some j => add256 (getBlockProof (header i)) (work_of j) | None => 0 end
    end) m))); done.
Defined.

(** The store of a tree that can be restored. *)
Record saved m (root : K) : Prop := {
  sv_wf : wf_store m;
  sv_status : ∀ k i, m !! k = Some i → isDeleted i = false → sound_status (status i);
  sv_del : ∀ k i p j, m !! k = Some i → pprev i = Some p → m !! p = Some j → isDeleted j = true → isDeleted i = true;
  sv_key : ∀ k i, m !! k = Some i → hash_key (header i) = k ∧ ∀ p, pprev i = Some p → getPreviousBlock (header i) = p;
  sv_root : ∀ k i, m !! k = Some i → pprev i = None → k = root;
  sv_root_live : ∃ i, m !! root = Some i ∧ pprev i = None ∧ isDeleted i = false;
  sv_height : ∀ k i, m !! k = Some i → height i <= INT32_MAX;
  sv_work : work_ok m
}.

(** Nodes that differ in their children only. *)
Definition but_children i j : Prop := j = with_links (pprev i) (pnext j) i.

(** The addon of a block of the bootstrap is overwritten. *)
Definition boot_addon (a : A) : Prop := ∀ s : SA, setNullInmemFields (toInmem s a) = setNullInmemFields (toInmem s newAddon).

Section load.
Context (m : gmap K index_t) (root : K) (vals : K → stored_t) (pers : K → A) (fast : bool).
Context (Hsaved : saved m root).
(** [vals k] is what is read for the block [k]. *)
Hypothesis vals_ok : ∀ k i, m !! k = Some i → isDeleted i = false →
  stored_height (vals k) = height i ∧ stored_header (vals k) = header i ∧ stored_status (vals k) = status i ∧
  setNullInmemFields (toInmem (stored_addon (vals k)) newAddon) = pers k.
(** The rules accept the blocks. *)
Hypothesis checked : fast = false → ∀ k i, m !! k = Some i → isDeleted i = false → checkBlock (header i) = Ok () ∧
  ∀ p M, pprev i = Some p → hasFlags i BLOCK_BOOTSTRAP = false → is_Some (M !! p) → wf_store M →
    (∀ x ix, M !! x = Some ix → ∃ jx, m !! x = Some jx ∧ height ix = height jx ∧ header ix = header jx ∧ pprev ix = pprev jx) →
    contextuallyCheckBlock M p (header i) = Ok ().

Lemma root_lowest k i r : m !! k = Some i → m !! root = Some r → height r <= height i ∧ (height i <= height r → k = root).
Proof.
  destruct Hsaved as [W _ _ _ Hroot _ _]. intros Hk Hr. remember (Z.to_nat (height i)) as n eqn:En. revert k i En Hk.
  induction n as [n IH] using (well_founded_induction lt_wf). intros k i -> Hk. destruct (pprev i) as [p|] eqn:Ep.
  - destruct (wf_prev _ W k i p Hk Ep) as (j & Hj & Hh & _). pose proof (wf_height _ W _ _ Hj).
    destruct (IH (Z.to_nat (height j)) ltac:(lia) p j eq_refl Hj) as [? _]. split; lia.
  - assert (k = root) as -> by by eapply Hroot. assert (i = r) as -> by congruence. by split.
Qed.

(** What the node [i] of the tree that is being loaded has in common with the
    saved node [j]; [D] are the blocks that were loaded. *)
Definition recovered k j : A := clearBlockOfProofEndorsement (set_chainWork (work_of j) (pers k)).

Record node_like (D : gset K) k i j : Prop := {
  nl_height : height i = height j;
  nl_header : header i = header j;
  nl_prev : pprev i = pprev j;
  nl_work : work_of i = work_of j;
  nl_final : finalized i = bool_decide (pprev j = None);
  nl_status : sound_status (status i);
  nl_loaded : k ∈ D → dirty i = false ∧ status i = status j ∧ addon i = recovered k j;
  nl_boot : k ∉ D → hasFlags i BLOCK_BOOTSTRAP = true ∧ can_tip i = true ∧ can_tip j = true ∧ boot_addon (addon i)
}.

Lemma node_like_children D k i i' j : but_children i i' → node_like D k i j → node_like D k i' j.
Proof. intros -> []. by constructor. Qed.

Lemma node_like_more D k x i j : x ≠ k → node_like D x i j → node_like ({[k]} ∪ D) x i j.
Proof. intros Hx []. constructor; try done; set_solver. Qed.

Record loading (t0 : tree) (D : gset K) t : Prop := {
  ld_wf : wf_store (blocks_ t);
  ld_node : ∀ k i, blocks_ t !! k = Some i → ∃ j, m !! k = Some j ∧ isDeleted j = false ∧ node_like D k i j;
  ld_dom : D ⊆ dom (blocks_ t);
  ld_tips : ∀ x, x ∈ tips_ t ↔ is_valid_tip (blocks_ t) x;
  ld_chain : ∃ b, chain_of (blocks_ t) (activeChain_ t) b;
  ld_first : chain_first (activeChain_ t) = Some root;
  ld_root : is_Some (blocks_ t !! root);
  ld_loaded : isLoaded_ t = false;
  ld_rest : same_rest (with_loading true false t0) (with_loading true false t)
}.

(** *** The node of a block *)
Record targeted (M : gmap K index_t) k j (M1 : gmap K index_t) i1 : Prop := {
  tg_node : M1 !! k = Some i1;
  tg_wf : wf_store M1;
  tg_deleted : isDeleted i1 = false;
  tg_prev : pprev i1 = pprev j;
  tg_height : height i1 = height j;
  tg_final : finalized i1 = bool_decide (pprev j = None);
  tg_addon : boot_addon (addon i1);
  tg_other : ∀ x, x ≠ k → option_Forall2 but_children (M !! x) (M1 !! x);
  tg_old : ∀ i, M !! k = Some i → i1 = i
}.

Lemma targeted_back M k j M1 i1 x ix : targeted M k j M1 i1 → x ≠ k → M1 !! x = Some ix →
  ∃ a, M !! x = Some a ∧ but_children a ix.
Proof. intros Htg Hx Hix. pose proof (tg_other _ _ _ _ _ Htg x Hx) as Ho. rewrite Hix in Ho. inversion Ho; subst. eauto. Qed.

Lemma target_ok t0 D t k j : loading t0 D t → m !! k = Some j → isDeleted j = false → k ∉ D →
  (∀ p, pprev j = Some p → is_Some (blocks_ t !! p)) →
  ∃ t1 i1, loadTarget newAddon newHeader (vals k) true fast root t = Ok t1 ∧ t1 = with_blocks (λ _, blocks_ t1) t ∧
    targeted (blocks_ t) k j (blocks_ t1) i1.
Proof.
  intros Hld Hj Hd HkD Hp. destruct (vals_ok k j Hj Hd) as (_ & Eh & _). destruct (sv_key _ _ Hsaved k j Hj) as [Hk Hprev].
  pose proof (ld_wf _ _ _ Hld) as W. unfold loadTarget. rewrite Eh, Hk. destruct (blocks_ t !! k) as [i|] eqn:Ei.
  - destruct (ld_node _ _ _ Hld k i Ei) as (j' & Hj' & _ & Hnl). assert (j' = j) as -> by congruence.
    rewrite (sound_undeleted i) by apply Hnl. exists t, i. split; [done|]. split; [by destruct t|].
    destruct (nl_boot _ _ _ _ Hnl HkD) as (_ & _ & _ & Hb). split; try done.
    + apply sound_undeleted, Hnl.
    + apply Hnl.
    + apply Hnl.
    + apply Hnl.
    + intros x _. destruct (blocks_ t !! x) as [[]|]; by constructor.
    + intros i' ?. congruence.
  - destruct (pprev j) as [p|] eqn:Ep.
    2:{ destruct (ld_root _ _ _ Hld) as [r Hr]. by rewrite (sv_root _ _ Hsaved k j Hj Ep), Hr in Ei. }
    destruct (Hp p eq_refl) as [jp Hjp]. destruct (ld_node _ _ _ Hld p jp Hjp) as (jp' & Hjp' & _ & Hnl).
    unfold getBlockIndex. rewrite (Hprev p eq_refl), Hjp, (sound_undeleted jp) by apply Hnl.
    unfold createBlockIndex. rewrite (deref_eq _ _ _ Hjp). cbn [mbind result_bind].
    rewrite bool_decide_eq_true_2 by done. cbn [vassert mbind result_bind].
    assert (0 <= height jp /\ height jp + 1 <= INT32_MAX) as [Hh0 Hh1].
    { split; [by eapply wf_height|]. destruct (wf_prev _ (sv_wf _ _ Hsaved) k j p Hj Ep) as (jp2 & Hjp2 & Hh & _).
      assert (jp2 = jp') as -> by congruence. rewrite (nl_height _ _ _ _ Hnl), <- Hh. by eapply (sv_height _ _ Hsaved). }
    rewrite (ckS_ok 32) by (unfold INT32_MAX in *; lia). cbn [mbind result_bind].
    set (n := newIndex p jp newHeader newAddon). set (M1 := with_blocks _ t).
    assert (blocks_ M1 !! k = Some n) as Hn by apply lookup_insert_eq.
    rewrite (deref_eq _ _ _ Hn). cbn [mbind result_bind]. unfold restore.
    assert (isDeleted n = true ∧ pprev n = Some p ∧ pnext n = ∅ ∧ height n = height jp + 1 ∧ finalized n = false ∧ addon n = newAddon)
      as (Dn & Pn & Nn & Hhn & Fn & An) by (unfold n, newIndex; by destruct (isFailed jp)).
    rewrite Dn. cbn [vassert mbind result_bind]. eexists _, (unsetFlag BLOCK_DELETED n). split; [done|]. split; [done|].
    destruct (unsetFlag_links BLOCK_DELETED n) as (L1 & L2 & L3). split.
    + apply lookup_insert_eq.
    + cbn [with_blocks blocks_]. eapply same_links_wf; [apply (store_rel_insert same_links _ k n); [apply _|exact Hn|]|].
      * by split_and!.
      * by apply wf_leaf.
    + unfold isDeleted. change BLOCK_DELETED with (Z.shiftl 1 10). rewrite hasFlags_bit, unsetFlag_bit by lia. apply andb_false_r.
    + congruence.
    + destruct (wf_prev _ (sv_wf _ _ Hsaved) k j p Hj Ep) as (jp2 & Hjp2 & Hh & _). assert (jp2 = jp') as -> by congruence.
      rewrite L1, Hhn, Hh. by rewrite (nl_height _ _ _ _ Hnl).
    + unfold unsetFlag. destruct (_ =? _); cbn [with_status finalized]; by rewrite Fn, Ep.
    + assert (addon (unsetFlag BLOCK_DELETED n) = newAddon) as -> by (unfold unsetFlag; by destruct (_ =? _)). by intros s.
    + intros x Hx. unfold M1. cbn [with_blocks blocks_]. rewrite !(lookup_insert_ne _ k) by done. destruct (decide (x = p)) as [->|Hxp].
      * rewrite Hjp, lookup_insert_eq. by constructor.
      * rewrite lookup_insert_ne by done. destruct (blocks_ t !! x) as [[]|]; by constructor.
    + congruence.
Qed.

(** *** One block *)
Lemma loading_root t0 D t : loading t0 D t → isBootstrapped t = Ok true ∧ getRoot t = Ok root ∧
  ∃ r jr, blocks_ t !! root = Some r ∧ m !! root = Some jr ∧ height r = height jr ∧ header r = header jr.
Proof.
  intros Hld. destruct (ld_chain _ _ _ Hld) as (b & Hc). pose proof Hc as (ib & Hb & _).
  destruct (chain_of_tip _ _ _ _ Hc Hb) as [Htip _].
  assert (isBootstrapped t = Ok true) as E.
  { unfold isBootstrapped. rewrite Htip, bool_decide_eq_false_2; [done|]. intros Em. by rewrite Em, lookup_empty in Hb. }
  split; [done|]. unfold getRoot. rewrite E. cbn [mbind result_bind vassert]. rewrite (ld_first _ _ _ Hld). split; [done|].
  destruct (ld_root _ _ _ Hld) as [r Hr]. destruct (ld_node _ _ _ Hld root r Hr) as (jr & Hjr & _ & Hnl).
  exists r, jr. split_and!; [done|done|apply Hnl..].
Qed.

Lemma can_tip_status i i' : status i = status i' → can_tip i = can_tip i'.
Proof using Type. intros E. unfold can_tip, isDeleted, hasFlags, isFailed. by rewrite E. Qed.

Lemma base_step t0 D t k j : loading t0 D t → m !! k = Some j → isDeleted j = false → k ∉ D →
  (∀ p, pprev j = Some p → is_Some (blocks_ t !! p)) →
  ∃ t' M1 i1, base_loadBlockForward newAddon newHeader (vals k) fast t = Ok t' ∧ targeted (blocks_ t) k j M1 i1 ∧
    let m' := <[k := loaded (vals k) i1]> M1 in
    blocks_ t' = m' ∧ store_ok m' ∧ (∀ x, x ∈ tips_ t' ↔ is_valid_tip m' x) ∧
    isLoadingBlocks_ t' = true ∧ isLoaded_ t' = false ∧ activeChain_ t' = activeChain_ t ∧
    same_rest (with_loading true false t0) t'.
Proof.
  intros Hld Hj Hd HkD Hp. destruct (loading_root t0 D t Hld) as (Eb & Er & r & jr & Hr & Hjr & Ehr & Ebr).
  destruct (vals_ok k j Hj Hd) as (Evh & Evb & Evs & _). destruct (sv_key _ _ Hsaved k j Hj) as [Hk _].
  pose proof (sv_status _ _ Hsaved k j Hj Hd) as Hsound. pose proof (ld_loaded _ _ _ Hld) as El.
  destruct (root_lowest k j jr Hj Hjr) as [Hlow Heq].
  unfold base_loadBlockForward, loadBlockInner. rewrite Eb. cbn [mbind result_bind vassert]. rewrite El. cbn [negb vassert mbind result_bind].
  set (tl := with_loading true false t). assert (loading t0 D tl) as Hldl by by destruct Hld.
  change (isBootstrapped tl) with (isBootstrapped t). replace (getRoot tl) with (Ok root) by (symmetry; exact Er).
  cbn [mbind result_bind]. rewrite (deref_eq (blocks_ tl) _ _ Hr). cbn [mbind result_bind].
  assert ((if fast then Ok () else if stored_height (vals k) <? height r then invalid "bad-height" else Ok ()) = Ok ()) as ->.
  { destruct fast; [done|]. destruct (Z.ltb_spec (stored_height (vals k)) (height r)); [lia|done]. }
  cbn [mbind result_bind].
  assert (negb fast && (stored_height (vals k) =? height r) &&
    negb (bool_decide (PayloadsIndex.getHash (stored_header (vals k)) = PayloadsIndex.getHash (header r))) = false) as ->.
  { destruct (Z.eqb_spec (stored_height (vals k)) (height r)) as [E|_]; [|by rewrite andb_false_r].
    rewrite bool_decide_eq_true_2; [by rewrite andb_false_r|]. rewrite Evb, Ebr. rewrite Heq in Hj by lia. congruence. }
  cbn [mbind result_bind]. rewrite Evb, Hk.
  assert (match blocks_ tl !! k with
    | Some current => if negb fast && negb (isDeleted current) && negb (hasFlags current BLOCK_BOOTSTRAP)
        then invalid "block-exists" else Ok () | None => Ok () end = Ok ()) as ->.
  { destruct (blocks_ tl !! k) as [i|] eqn:Ei; [|done]. destruct (ld_node _ _ _ Hldl k i Ei) as (j' & _ & _ & Hnl).
    by rewrite (proj1 (nl_boot _ _ _ _ Hnl HkD)), andb_false_r. }
  cbn [mbind result_bind]. destruct (target_ok t0 D tl k j Hldl Hj Hd HkD Hp) as (t1 & i1 & -> & Et1 & Htg).
  cbn [mbind result_bind]. set (M1 := blocks_ t1) in *.
  pose proof Htg as [Hi1 W1 Hd1 Ep1 Eh1 _ _ Hoth Hold]. set (m' := <[k := loaded (vals k) i1]> M1).
  assert (wf_store m') as W'.
  { eapply same_links_wf; [apply (store_rel_insert same_links _ k i1); [apply _|exact Hi1|]|exact W1]. split_and!; try done. cbn. lia. }
  assert (store_ok m') as Hok.
  { split; [done|]. intros x ix. unfold m'. destruct (decide (x = k)) as [->|Hx].
    - rewrite lookup_insert_eq. intros [= <-]. cbn. rewrite Evs. apply Hsound.
    - rewrite lookup_insert_ne by done. intros Hix. destruct (targeted_back _ _ _ _ _ x ix Htg Hx Hix) as (a & Hax & Ha).
      destruct (ld_node _ _ _ Hldl x a) as (? & _ & _ & Hnl); [done|]. rewrite Ha. apply Hnl. }
  destruct (tips_step (blocks_ tl) m' k (loaded (vals k) i1) (tips_ tl)) as (T1 & T2 & T3 & T4).
  - apply Hld.
  - done.
  - apply lookup_insert_eq.
  - intros x Hx. unfold m'. rewrite lookup_insert_ne by done. destruct (Hoth x Hx) as [a b ->|]; by constructor.
  - intros i Hi. assert (i1 = i) as -> by by apply Hold. destruct (ld_node _ _ _ Hld k i Hi) as (j' & Hj' & _ & Hnl).
    assert (j' = j) as -> by congruence. destruct (nl_boot _ _ _ _ Hnl HkD) as (_ & Hci & Hcj & _). split_and!; [done|done|].
    rewrite <- Hcj. by apply can_tip_status.
  - apply Hld.
  - destruct (load_rest_ok t1 (vals k) fast k i1) as (t' & Ht' & Ebt & Et' & Htips).
    + by rewrite Evb.
    + done.
    + done.
    + by rewrite Evs.
    + intros p Hpp. split; [intros ->; by eapply (prev_ne M1)|]. destruct (wf_prev _ W1 k i1 p Hi1 Hpp) as (jp & Hjp & Hh & _).
      exists jp. split; [done|lia].
    + intros Hn. rewrite Ep1 in Hn. rewrite (sv_root _ _ Hsaved k j Hj Hn), Et1. apply Hldl.
    + done.
    + rewrite Et1. exact T1.
    + rewrite Et1. exact T2.
    + rewrite Et1. exact T3.
    + rewrite Et1. exact T4.
    + exists t', M1, i1. split.
      { unfold load_rest in Ht'. rewrite Evb, Hk in Ht'. exact Ht'. }
      split; [done|]. rewrite Ebt. split_and!; try done; rewrite Et', Et1; try done. exact (ld_rest _ _ _ Hldl).
Qed.

Lemma with_blocks_comp f f' t : with_blocks f (with_blocks f' t) = with_blocks (λ M, f (f' M)) t.
Proof. done. Qed.

(** What [loadBlockForward] does after that of the base class. *)
Definition load_recover k t : result tree :=
  match getBlockIndex t k with
  | None => Assert "loaded block"
  | Some current =>
    vassert (negb (isLoaded_ t)) "loaded";;
    vassert (isLoadingBlocks_ t) "not loading blocks";;
    i ← deref (blocks_ t) current;
    (match pprev i with
     | Some prev =>
       if negb fast && negb (hasFlags i BLOCK_BOOTSTRAP)
       then contextuallyCheckBlock (blocks_ t) prev (header i) ?! "bad-block-contextually"
       else Ok tt
     | None => Ok tt
     end);;
    t ← updateChainWork current t;
    t ← modify current (λ i, with_addon (clearBlockOfProofEndorsement (addon i)) i) t;
    r ← node_raiseValidity current BLOCK_VALID_TREE t;
    Ok r.1
  end.

(** The node when it is loaded. *)
Definition restored k i j : index_t := with_addon (recovered k j) (loaded (vals k) i).

Lemma recover_ok t k i j : m !! k = Some j → isDeleted j = false → blocks_ t !! k = Some (loaded (vals k) i) → pprev i = pprev j →
  boot_addon (addon i) → isLoadingBlocks_ t = true → isLoaded_ t = false →
  (∀ p, pprev j = Some p → ∃ jp jm, blocks_ t !! p = Some jp ∧ m !! p = Some jm ∧ work_of jp = work_of jm ∧ level (status jp) <= 4 ∧ p ≠ k) →
  (fast = false → ∀ p, pprev j = Some p → hasFlags j BLOCK_BOOTSTRAP = false → contextuallyCheckBlock (blocks_ t) p (header j) = Ok ()) →
  load_recover k t = Ok (with_blocks <[k := restored k i j]> t).
Proof.
  intros Hj Hd Hk Ep Hboot Hlb Hl Hp Hctx. destruct (vals_ok k j Hj Hd) as (Evh & Evb & Evs & Eva).
  pose proof (sv_status _ _ Hsaved k j Hj Hd) as Hsound. set (l := loaded (vals k) i) in *.
  assert (sound_status (status l)) as Hls by (cbn; by rewrite Evs).
  unfold load_recover, getBlockIndex. rewrite Hk, (sound_undeleted l Hls), Hl, Hlb. cbn [negb vassert mbind result_bind].
  rewrite (deref_eq _ _ _ Hk). cbn [mbind result_bind]. change (pprev l) with (pprev i). rewrite Ep.
  assert (match pprev j with
     | Some prev => if negb fast && negb (hasFlags l BLOCK_BOOTSTRAP)
       then contextuallyCheckBlock (blocks_ t) prev (header l) ?! "bad-block-contextually" else Ok tt
     | None => Ok tt end = Ok tt) as ->.
  { destruct (pprev j) as [p|]; [|done]. destruct fast; [done|]. cbn [negb andb].
    assert (hasFlags l BLOCK_BOOTSTRAP = hasFlags j BLOCK_BOOTSTRAP) as -> by (unfold hasFlags; cbn; by rewrite Evs).
    destruct (hasFlags j BLOCK_BOOTSTRAP); [done|]. cbn [negb]. change (header l) with (stored_header (vals k)). rewrite Evb.
    by rewrite Hctx. }
  cbn [mbind result_bind].
  assert (updateChainWork k t = Ok (with_blocks <[k := with_addon (set_chainWork (work_of j) (pers k)) l]> t)) as ->.
  { pose proof (sv_work _ _ Hsaved k j Hj Hd) as Hw. unfold updateChainWork. rewrite (deref_eq _ _ _ Hk). cbn [mbind result_bind].
    change (pprev (set_work (getBlockProof (header l)) l)) with (pprev i). rewrite Ep.
    assert (addon l = pers k) as Ea by (unfold l; cbn; by rewrite Hboot).
    assert (header l = header j) as Ehl by exact Evb.
    destruct (pprev j) as [p|] eqn:Epj; cbn [mbind result_bind].
    - destruct (Hp p eq_refl) as (jp & jm & Hjp & Hjm & Ew & _). rewrite (deref_eq _ _ _ Hjp). cbn [mbind result_bind].
      unfold set_work, work_of at 1. cbn [with_addon addon]. rewrite chainWork_set, chainWork_set_set, Ea, Ehl, Ew.
      rewrite Hjm in Hw. by rewrite <- Hw.
    - unfold set_work. rewrite Ea, Ehl, <- Hw. done. }
  cbn [mbind result_bind]. rewrite (modify_ok _ k (with_addon (set_chainWork (work_of j) (pers k)) l)) by apply lookup_insert_eq.
  cbn [mbind result_bind with_addon addon]. rewrite with_blocks_comp. rewrite (raise_sound _ k (restored k i j)).
  - cbn [mbind result_bind fst]. rewrite with_blocks_comp. f_equal. unfold with_blocks. f_equal. by rewrite !insert_insert_eq.
  - apply lookup_insert_eq.
  - exact Hls.
  - intros p Hpp. change (pprev i = Some p) in Hpp. rewrite Ep in Hpp. destruct (Hp p Hpp) as (jp & jm & Hjp & _ & _ & Hlv & Hne).
    exists jp. split; [|done]. cbn. by rewrite !lookup_insert_ne.
Qed.

Lemma restored_node D k i j : m !! k = Some j → isDeleted j = false → pprev i = pprev j →
  finalized i = bool_decide (pprev j = None) → node_like ({[k]} ∪ D) k (restored k i j) j.
Proof.
  intros Hj Hd Ep Ef. destruct (vals_ok k j Hj Hd) as (Evh & Evb & Evs & _). constructor; try done.
  - unfold work_of, restored, recovered. cbn [with_addon addon]. by rewrite chainWork_clear, chainWork_set.
  - change (sound_status (stored_status (vals k))). rewrite Evs. by eapply sv_status.
  - set_solver.
Qed.

Lemma load_step_ok t0 D t k j : loading t0 D t → m !! k = Some j → isDeleted j = false → k ∉ D →
  (∀ p, pprev j = Some p → is_Some (blocks_ t !! p)) →
  ∃ t', loadBlockForward newAddon newHeader (vals k) fast t = Ok t' ∧ loading t0 ({[k]} ∪ D) t' ∧
    dom (blocks_ t') = {[k]} ∪ dom (blocks_ t) ∧ isLoadingBlocks_ t' = true.
Proof.
  intros Hld Hj Hd HkD Hp.
  destruct (base_step t0 D t k j Hld Hj Hd HkD Hp) as (t1 & M1 & i1 & Ht1 & Htg & Eb & Hok & Htips & Hlb & Hl & Ec & Hrest).
  pose proof Htg as [Hi1 W1 Hd1 Ep1 Eh1 Ef1 Ea1 Hoth _]. set (m' := <[k := loaded (vals k) i1]> M1) in *.
  destruct (vals_ok k j Hj Hd) as (Evh & Evb & Evs & _). destruct (sv_key _ _ Hsaved k j Hj) as [Hk _].
  assert (m' !! k = Some (loaded (vals k) i1)) as Hmk by apply lookup_insert_eq.
  assert (∀ x ix, x ≠ k → m' !! x = Some ix → ∃ jx, m !! x = Some jx ∧ isDeleted jx = false ∧ node_like D x ix jx) as Hback.
  { intros x ix Hx. unfold m'. rewrite lookup_insert_ne by done. intros Hix.
    destruct (targeted_back _ _ _ _ _ x ix Htg Hx Hix) as (a & Ha & Hac).
    destruct (ld_node _ _ _ Hld x a Ha) as (jx & Hjx & Hdx & Hnl). exists jx. split_and!; [done|done|]. by eapply node_like_children. }
  assert (∀ p, pprev j = Some p → p ≠ k ∧ ∃ jp, m' !! p = Some jp) as Hprev.
  { intros p Hpj. rewrite <- Ep1 in Hpj. destruct (wf_prev _ W1 k i1 p Hi1 Hpj) as (jp & Hjp & _).
    assert (k ≠ p) by by eapply (prev_ne M1). split; [done|]. exists jp. unfold m'. by rewrite lookup_insert_ne. }
  unfold loadBlockForward.
  assert ((if fast then Ok () else checkBlock (stored_header (vals k)) ?! "bad-header") = Ok ()) as ->.
  { pose proof (λ E, proj1 (checked E k j Hj Hd)) as Hck. rewrite Evb. destruct fast; [done|]. by rewrite Hck. }
  cbn [mbind result_bind]. rewrite Ht1. cbn [mbind result_bind]. rewrite Evb, Hk. fold (load_recover k t1).
  rewrite (recover_ok t1 k i1 j Hj Hd); try done.
  2:{ by rewrite Eb. }
  2:{ intros p Hpj. destruct (Hprev p Hpj) as (Hpk & jp & Hjp). destruct (Hback p jp Hpk Hjp) as (jm & Hjm & _ & Hnl).
    exists jp, jm. rewrite Eb. split_and!; [done|done|apply Hnl| |done]. apply (so_status _ Hok p jp Hjp). }
  2:{ intros Ef p Hpj Hfl. rewrite Eb. destruct (Hprev p Hpj) as (Hpk & jp & Hjp).
    apply (proj2 (checked Ef k j Hj Hd) p m' Hpj Hfl); [by exists jp|apply Hok|]. intros x ix Hx. destruct (decide (x = k)) as [->|Hxk].
    - rewrite Hmk in Hx. injection Hx as <-. exists j. split_and!; [done|exact Evh|exact Evb|exact Ep1].
    - destruct (Hback x ix Hxk Hx) as (jx & Hjx & _ & []). by exists jx. }
  eexists. split; [done|]. cbn [with_blocks blocks_]. rewrite Eb.
  assert (<[k := restored k i1 j]> m' = <[k := restored k i1 j]> M1) as Ems by apply insert_insert_eq. rewrite Ems.
  assert (∀ x, dom M1 = {[k]} ∪ dom (blocks_ t)) as Edom.
  { intros _. apply set_eq. intros x. rewrite elem_of_union, elem_of_singleton, !elem_of_dom.
    destruct (decide (x = k)) as [->|Hx]; [naive_solver|]. destruct (Hoth x Hx); naive_solver. }
  split; [|split; [rewrite dom_insert_L, (Edom k); set_solver|done]]. constructor; cbn [with_blocks blocks_ tips_ activeChain_ isLoaded_].
  - rewrite Eb, Ems. eapply same_links_wf; [apply (store_rel_insert same_links _ k i1); [apply _|exact Hi1|]|exact W1].
    split_and!; try done. cbn. lia.
  - rewrite Eb. intros x ix. destruct (decide (x = k)) as [->|Hx].
    + rewrite lookup_insert_eq. intros [= <-]. exists j. split_and!; [done..|]. by apply restored_node.
    + rewrite lookup_insert_ne by done. intros Hix. destruct (Hback x ix Hx Hix) as (jx & ? & ? & ?). exists jx. split_and!; [done..|].
      by apply node_like_more.
  - rewrite Eb, Ems, dom_insert_L, (Edom k). pose proof (ld_dom _ _ _ Hld). set_solver.
  - rewrite Eb. intros x. rewrite Htips. symmetry. by apply (is_valid_tip_update m' k (loaded (vals k) i1)).
  - rewrite Ec, Eb. destruct (ld_chain _ _ _ Hld) as (b & Hc). exists b. eapply chain_of_mono; [|exact Hc].
    intros x ix Hx. rewrite Ems. destruct (decide (x = k)) as [->|Hxk].
    + exists (restored k i1 j). rewrite lookup_insert_eq. rewrite (tg_old _ _ _ _ _ Htg ix Hx) in *. split_and!; [done|cbn; lia|done].
    + rewrite lookup_insert_ne by done. destruct (Hoth x Hxk) as [a b' ->|]; [|done]. injection Hx as ->. by eexists.
  - rewrite Ec. apply Hld.
  - rewrite Eb, Ems. destruct (decide (root = k)) as [->|Hr]; [rewrite lookup_insert_eq; eauto|]. rewrite lookup_insert_ne by done.
    destruct (ld_root _ _ _ Hld) as [r Hrr]. destruct (Hoth root Hr); naive_solver.
  - done.
  - unfold same_rest in *. cbn in *. destruct_and! Hrest. by split_and!.
Qed.

(** *** All blocks, lower blocks first *)
Definition lower_key (a b : K) : Prop := stored_height (vals a) <= stored_height (vals b).

Lemma load_all_ok t0 (l : list K) D t : loading t0 D t → NoDup l → (∀ k, k ∈ l → is_live m k ∧ k ∉ D) →
  (∀ k, is_live m k → k ∈ D ∨ k ∈ l) → StronglySorted lower_key l →
  ∃ t', foldM (λ t block, loadBlockForward newAddon newHeader block fast t ?! "load-tree") (map vals l) t = Ok t' ∧
    loading t0 (D ∪ list_to_set l) t' ∧ (l = [] ∨ isLoadingBlocks_ t' = true).
Proof.
  revert D t. induction l as [|k l IH]; intros D t Hld Hnd Hl Hall Hs; cbn [map foldM].
  { exists t. split; [done|]. split; [|by left]. cbn. by rewrite union_empty_r_L. }
  apply NoDup_cons in Hnd as [Hkl Hnd]. apply StronglySorted_inv in Hs as [Hs Hle].
  destruct (Hl k) as [(j & Hj & Hd) HkD]; [by left|].
  destruct (load_step_ok t0 D t k j Hld Hj Hd HkD) as (t1 & Ht1 & Hld1 & _ & Hlb).
  { intros p Hp. destruct (wf_prev _ (sv_wf _ _ Hsaved) k j p Hj Hp) as (jp & Hjp & Hh & _).
    assert (isDeleted jp = false) as Hdp.
    { destruct (isDeleted jp) eqn:E; [|done]. by rewrite (sv_del _ _ Hsaved k j p jp) in Hd. }
    apply elem_of_dom, (ld_dom _ _ _ Hld). destruct (Hall p) as [?|Hin]; [by exists jp|done|]. exfalso.
    destruct (vals_ok k j Hj Hd) as [E1 _]. destruct (vals_ok p jp Hjp Hdp) as [E2 _].
    apply elem_of_cons in Hin as [->|Hin]; [assert (jp = j) by congruence; subst jp; lia|].
    rewrite Forall_forall in Hle. specialize (Hle p Hin). unfold lower_key in Hle. lia. }
  rewrite Ht1. cbn [or_invalid mbind result_bind].
  destruct (IH ({[k]} ∪ D) t1) as (t' & Ht' & Hld' & Hlb'); [done|done| | |done|].
  - intros x Hx. destruct (Hl x) as [? ?]; [by right|]. split; [done|]. assert (x ≠ k) by (by intros ->). set_solver.
  - intros x Hx. destruct (Hall x Hx) as [?|[->|?]%elem_of_cons]; set_solver.
  - exists t'. split; [exact Ht'|]. split.
    + replace (D ∪ list_to_set (k :: l)) with ({[k]} ∪ D ∪ list_to_set l) by (cbn; set_solver). done.
    + right. destruct Hlb' as [->|?]; [|done]. cbn in Ht'. congruence.
Qed.

(** ** The tree that was loaded *)
Definition live_keys : gset K := dom (filter (λ e, isDeleted e.2 = false) m).

Definition reloaded_node k j : index_t :=
  mkBlockIndex (height j) (header j) (status j) false (pprev j) (pnext j ∩ live_keys) (bool_decide (pprev j = None))
    (recovered k j).

Definition reloaded : gmap K index_t :=
  map_imap (λ k j, if isDeleted j then None else Some (reloaded_node k j)) m.

Lemma elem_of_live_keys k : k ∈ live_keys ↔ is_live m k.
Proof using Type.
  unfold live_keys, is_live. rewrite elem_of_dom. split.
  - intros [i [Hk Hd]%map_lookup_filter_Some]. eauto.
  - intros (i & Hk & Hd). exists i. by apply map_lookup_filter_Some.
Qed.

Lemma reloaded_lookup k i : reloaded !! k = Some i ↔ ∃ j, m !! k = Some j ∧ isDeleted j = false ∧ i = reloaded_node k j.
Proof using Type.
  unfold reloaded. rewrite map_lookup_imap. destruct (m !! k) as [j|]; cbn; [|by split; [|intros (? & ? & _)]].
  destruct (isDeleted j) eqn:E; split; [done| |intros [= <-]; by exists j|].
  - intros (j' & [= <-] & Hd & _). congruence.
  - intros (j' & [= <-] & _ & ->). done.
Qed.

Lemma loaded_all t0 D t : loading t0 D t → (∀ k, is_live m k → k ∈ D) → blocks_ t = reloaded.
Proof.
  intros Hld HD. apply map_eq. intros k. apply option_eq. intros i. rewrite reloaded_lookup.
  assert (∀ k i, blocks_ t !! k = Some i → ∃ j, m !! k = Some j ∧ isDeleted j = false ∧ i = reloaded_node k j) as Hto.
  { clear k i. intros k i Hk. destruct (ld_node _ _ _ Hld k i Hk) as (j & Hj & Hd & Hnl). exists j. split_and!; [done|done|].
    assert (k ∈ D) as HkD by (apply HD; by exists j). destruct Hnl as [Eh Eb Ep _ Ef _ Hl _]. destruct (Hl HkD) as (Ed & Es & Ea).
    assert (pnext i = pnext j ∩ live_keys) as En.
    { apply set_eq. intros c. rewrite elem_of_intersection, elem_of_live_keys. split.
      - intros Hc. destruct (wf_next _ (ld_wf _ _ _ Hld) k i c Hk Hc) as (ic & Hic & Hpc).
        destruct (ld_node _ _ _ Hld c ic Hic) as (jc & Hjc & Hdc & Hnc). split; [|by exists jc].
        destruct (wf_prev _ (sv_wf _ _ Hsaved) c jc k Hjc) as (j' & Hj' & _ & ?); [by rewrite <- (nl_prev _ _ _ _ Hnc)|congruence].
      - intros [Hc Hlc]. apply HD, (ld_dom _ _ _ Hld), elem_of_dom in Hlc as [ic Hic].
        destruct (ld_node _ _ _ Hld c ic Hic) as (jc & Hjc & Hdc & Hnc).
        destruct (wf_next _ (sv_wf _ _ Hsaved) k j c Hj Hc) as (jc' & Hjc' & Hpc). assert (jc' = jc) as -> by congruence.
        destruct (wf_prev _ (ld_wf _ _ _ Hld) c ic k Hic) as (i' & Hi' & _ & ?); [by rewrite (nl_prev _ _ _ _ Hnc)|congruence]. }
    unfold reloaded_node. destruct i; cbn in *. congruence. }
  split; [apply Hto|]. intros (j & Hj & Hd & ->). assert (k ∈ D) as HkD by (apply HD; by exists j).
  apply (ld_dom _ _ _ Hld), elem_of_dom in HkD as [i Hi]. destruct (Hto k i Hi) as (j' & Hj' & _ & ->). congruence.
Qed.

Lemma reloaded_tips x : is_valid_tip reloaded x ↔ is_valid_tip m x.
Proof using Type.
  assert (∀ k j, can_tip (reloaded_node k j) = can_tip j) as Hct by (intros; by apply can_tip_status).
  assert (∀ i, can_tip i = true → isDeleted i = false) as Hlive by (intros i; unfold can_tip; by destruct (isDeleted i)).
  unfold is_valid_tip, valid_tip. split.
  - intros (i & (j & Hj & Hd & ->)%reloaded_lookup & Hc & Hall). exists j. split; [done|]. rewrite Hct in Hc. split; [done|].
    intros c jc Hin Hjc. destruct (can_tip jc) eqn:E; [|done]. rewrite <- (Hct c jc), (Hall c (reloaded_node c jc)) in E; [done| |].
    + cbn. rewrite elem_of_intersection, elem_of_live_keys. split; [done|]. exists jc. auto.
    + apply reloaded_lookup. exists jc. auto.
  - intros (j & Hj & Hc & Hall). exists (reloaded_node x j). split; [apply reloaded_lookup; exists j; auto|].
    rewrite Hct. split; [done|]. intros c ic Hin (jc & Hjc & _ & ->)%reloaded_lookup. rewrite Hct.
    cbn in Hin. apply elem_of_intersection in Hin as [Hin _]. by apply (Hall c).
Qed.

(** *** The tip *)
Lemma chain_of_unique (M : gmap K index_t) c c' b : chain_of M c b → chain_of M c' b → startHeight_ c = startHeight_ c' → c = c'.
Proof.
  intros (i & Hi & _ & El & Hall) (i' & Hi' & _ & El' & Hall') Es. assert (i' = i) as -> by congruence.
  destruct c as [s l], c' as [s' l']. cbn in *. subst s'. f_equal. apply list_eq. intros n.
  destruct (decide (n < length l)%nat) as [Hn|Hn].
  - destruct (Hall n Hn) as (x & -> & Hx). destruct (Hall' n) as (y & -> & Hy); [lia|].
    do 2 f_equal. replace (length l') with (length l) in Hy by lia. congruence.
  - by rewrite !lookup_ge_None_2 by lia.
Qed.

Lemma back_to_root (M : gmap K index_t) r k i : wf_store M → M !! root = Some r → (∀ k i, M !! k = Some i → pprev i = None → k = root) →
  M !! k = Some i → height r <= height i ∧ back M (Z.to_nat (height i - height r)) k = Some root.
Proof.
  intros W Hr Hu. remember (Z.to_nat (height i)) as n eqn:En. revert k i En.
  induction n as [n IH] using (well_founded_induction lt_wf). intros k i -> Hk. destruct (pprev i) as [p|] eqn:Ep.
  - destruct (wf_prev _ W k i p Hk Ep) as (j & Hj & Hh & _). pose proof (wf_height _ W _ _ Hj).
    destruct (IH (Z.to_nat (height j)) ltac:(lia) p j eq_refl Hj) as [Hle Hb]. split; [lia|].
    replace (Z.to_nat (height i - height r)) with (S (Z.to_nat (height j - height r))) by lia.
    by rewrite (back_S _ _ _ _ _ Hk Ep).
  - assert (k = root) as -> by by eapply Hu. assert (i = r) as -> by congruence. rewrite Z.sub_diag. done.
Qed.

Lemma reloaded_links k i : reloaded !! k = Some i → ∃ j, m !! k = Some j ∧ height j = height i ∧ pprev j = pprev i.
Proof using Type. intros (j & Hj & _ & ->)%reloaded_lookup. by exists j. Qed.

Lemma loadTip_ok t0 D t c tip r : loading t0 D t → (∀ k, is_live m k → k ∈ D) → isLoadingBlocks_ t = true →
  chain_of m c tip → is_live m tip → m !! root = Some r → startHeight_ c = height r →
  startHeight_ (activeChain_ t0) = height r →
  ∃ t', loadTip (HK := plain_hooks) tip t = Ok t' ∧ blocks_ t' = reloaded ∧ tips_ t' = tips_ t ∧ activeChain_ t' = c ∧
    appliedBlockCount t' = blocksCount c ∧ isLoaded_ t' = true ∧ isLoadingBlocks_ t' = false ∧
    deferForkResolutionDepth t' = deferForkResolutionDepth t0 ∧ isUpdateTipsDeferred t' = isUpdateTipsDeferred t0 ∧
    lastModifiedBlock t' = lastModifiedBlock t0.
Proof.
  intros Hld HD Hlb Hc (jt & Hjt & Hdt) Hr Esc Es0. pose proof (loaded_all t0 D t Hld HD) as Eb.
  pose proof (ld_rest _ _ _ Hld) as Hrest. unfold same_rest in Hrest. cbn in Hrest. destruct Hrest as (Ec & _ & E1 & E2 & E3 & _).
  pose proof (ld_wf _ _ _ Hld) as W. destruct (ld_chain _ _ _ Hld) as (b & Hb).
  destruct (sv_root_live _ _ Hsaved) as (r' & Hr' & Hpr & Hdr). assert (r' = r) as -> by congruence.
  assert (reloaded !! tip = Some (reloaded_node tip jt)) as Htip by (apply reloaded_lookup; exists jt; auto).
  assert (reloaded !! root = Some (reloaded_node root r)) as Hroot by (apply reloaded_lookup; exists r; auto).
  rewrite Eb in W, Hb.
  destruct (back_to_root reloaded (reloaded_node root r) tip (reloaded_node tip jt) W Hroot) as [Hle Hback]; [|done|].
  { intros x ix (jx & Hjx & _ & ->)%reloaded_lookup Hp. by apply (sv_root _ _ Hsaved x jx). }
  cbn [reloaded_node height] in Hle, Hback.
  destruct (setTip_spec reloaded (activeChain_ t) tip (reloaded_node tip jt) root W) as (c' & Hset & Esc' & Hc');
    [by eapply chain_of_ok|done|cbn; congruence || (rewrite <- Ec, Es0; cbn; lia)|rewrite <- Ec, Es0; exact Hback|].
  unfold loadTip. rewrite Hlb, (ld_loaded _ _ _ Hld). cbn [negb vassert mbind result_bind]. unfold getBlockIndex. rewrite Eb, Htip.
  change (isDeleted (reloaded_node tip jt)) with (isDeleted jt). rewrite Hdt. cbn [overrideTip plain_hooks].
  unfold base_overrideTip. cbn [emit blocks_ activeChain_]. rewrite Eb, Hset. cbn [mbind result_bind]. eexists. split; [done|].
  assert (c' = c) as ->.
  { apply (chain_of_unique m c' c tip); [|done|]; [|rewrite Esc', <- Ec; congruence]. eapply chain_of_mono; [|exact Hc'].
    apply reloaded_links. }
  cbn. split_and!; try done.
Qed.

Lemma reload_ok t0 (l : list K) c tip r : loading t0 ∅ t0 → NoDup l → (∀ k, k ∈ l ↔ is_live m k) → StronglySorted lower_key l →
  chain_of m c tip → is_live m tip → m !! root = Some r → startHeight_ c = height r → startHeight_ (activeChain_ t0) = height r →
  ∃ t1 t', foldM (λ t block, loadBlockForward newAddon newHeader block fast t ?! "load-tree") (map vals l) t0 = Ok t1 ∧
    loadTip (HK := plain_hooks) tip t1 = Ok t' ∧ blocks_ t' = reloaded ∧ wf_store reloaded ∧
    (∀ x, x ∈ tips_ t' ↔ is_valid_tip m x) ∧ activeChain_ t' = c ∧ appliedBlockCount t' = blocksCount c ∧ isLoaded_ t' = true ∧ isLoadingBlocks_ t' = false ∧
    deferForkResolutionDepth t' = deferForkResolutionDepth t0 ∧ isUpdateTipsDeferred t' = isUpdateTipsDeferred t0 ∧
    lastModifiedBlock t' = lastModifiedBlock t0.
Proof.
  intros Hld Hnd Hl Hs Hc Hlt Hr Es Es0.
  destruct (load_all_ok t0 l ∅ t0 Hld Hnd) as (t1 & Ht1 & Hld1 & Hlb); [|by intros k ?%Hl; right|done|].
  { intros k Hk. split; [by apply Hl|set_solver]. }
  assert (isLoadingBlocks_ t1 = true) as Hlb1.
  { destruct Hlb as [->|?]; [|done]. by apply Hl, not_elem_of_nil in Hlt. }
  destruct (loadTip_ok t0 _ t1 c tip r Hld1) as (t' & Ht' & Eb & Et & Hrest); try done.
  { intros k Hk%Hl. set_solver. }
  exists t1, t'. split; [done|]. split; [done|]. split; [done|].
  split; [rewrite <- (loaded_all t0 _ t1 Hld1); [apply Hld1|intros k Hk%Hl; set_solver]|]. split; [|done].
  intros x. rewrite Et, (ld_tips _ _ _ Hld1), (loaded_all t0 _ t1 Hld1); [apply reloaded_tips|]. intros k Hk%Hl. set_solver.
Qed.
End load.

(** ** The tree after the bootstrap *)
Definition boot_node (b : B) : index_t :=
  mkBlockIndex 0 b (Z.lor (Z.lor BLOCK_CAN_BE_APPLIED BLOCK_ACTIVE) BLOCK_BOOTSTRAP) true None ∅ true
    (setIsBootstrap (set_chainWork (getBlockProof b) newAddon)).

Definition boot_tree (b : B) (e : Ext) : tree :=
  mkTree {[hash_key b := boot_node b]} {[hash_key b]} (mkChain 0 [Some (hash_key b)]) 1 0 false None false false ∅ ∅ [] e.

Definition single (e : Ext) k i (T : gset K) (c : Chain K) (n : Z) : tree :=
  mkTree {[k := i]} T c n 0 false None false false ∅ ∅ [] e.

Section single.
Context (e : Ext) (k : K) (T : gset K) (c : Chain K) (n : Z).

Lemma single_deref i : deref (blocks_ (single e k i T c n)) k = Ok i.
Proof. apply deref_eq, lookup_singleton_eq. Qed.

Lemma single_insert i j : with_blocks <[k := j]> (single e k i T c n) = single e k j T c n.
Proof. unfold with_blocks, single. cbn. by rewrite insert_singleton_eq. Qed.

Lemma single_modify i f : modify k f (single e k i T c n) = Ok (single e k (f i) T c n).
Proof. unfold modify. rewrite single_deref. cbn [mbind result_bind]. by rewrite single_insert. Qed.

Lemma single_addTip i b : pprev i = None → pnext i = ∅ → canBeATip i = Ok b →
  tryAddTip k (single e k i T c n) = Ok (single e k i (if b then {[k]} ∪ (T ∖ ∅) else T) c n).
Proof.
  intros Hp Hn Hc. unfold tryAddTip. rewrite single_deref. cbn [mbind result_bind]. unfold isValidTip. rewrite Hc.
  cbn [mbind result_bind]. destruct b; [|done]. unfold isTip. rewrite Hn. cbn [negb orb]. rewrite bool_decide_eq_true_2 by done.
  cbn [mbind result_bind]. by rewrite Hp.
Qed.

Lemma single_raise i up r : pprev i = None → raiseValidity None up i = Ok r →
  node_raiseValidity k up (single e k i T c n) = Ok (single e k r.1 T c n, r.2).
Proof.
  intros Hp Hr. unfold node_raiseValidity. rewrite single_deref. cbn [mbind result_bind]. rewrite Hp. cbn [mbind result_bind].
  rewrite Hr. cbn [mbind result_bind]. by rewrite single_insert.
Qed.

Lemma single_work i : pprev i = None → updateChainWork k (single e k i T c n) =
  Ok (single e k (set_work (getBlockProof (header i)) i) T c n).
Proof.
  intros Hp. unfold updateChainWork. rewrite single_deref. cbn [mbind result_bind].
  change (pprev (set_work _ i)) with (pprev i). rewrite Hp. cbn [mbind result_bind]. by rewrite single_insert.
Qed.

Lemma single_wf i : pprev i = None → pnext i = ∅ → 0 <= height i → wf_store ({[k := i]} : gmap K index_t).
Proof.
  intros Hp Hn Hh. constructor; intros x ix; [|intros q|intros q]; intros [_ <-]%lookup_singleton_Some; [done|congruence|].
  rewrite Hn. set_solver.
Qed.

Lemma single_chain_of i : height i = 0 → chain_of ({[k := i]} : gmap K index_t) (mkChain 0 [Some k]) k.
Proof.
  intros Hh. exists i. rewrite lookup_singleton_eq, Hh. split_and!; [done..|]. intros m Hm. cbn in Hm.
  assert (m = 0)%nat as -> by lia. by exists k.
Qed.

Lemma single_chain i : height i = 0 → pprev i = None → pnext i = ∅ →
  newChain (blocks_ (single e k i T c n)) 0 (Some k) = Ok (mkChain 0 [Some k]).
Proof.
  intros Hh Hp Hn. unfold newChain. cbn [single blocks_].
  destruct (setTip_spec {[k := i]} (mkChain 0 []) k i k) as (c' & -> & Es & Hc').
  - apply single_wf; [done|done|lia].
  - by split.
  - apply lookup_singleton_eq.
  - cbn. lia.
  - by rewrite Hh.
  - f_equal. apply (chain_of_unique {[k := i]} _ _ k); [done|by apply single_chain_of|done].
Qed.
End single.

Lemma bootstrap_ok (b : B) (e : Ext) : checkBlock b = Ok () → hashIsPrevious b = false →
  bootstrapWithGenesis (HK := plain_hooks) newAddon newHeader b (emptyTree e) = Ok (boot_tree b e).
Proof.
  intros Hck Hhp. unfold bootstrapWithGenesis, bootstrap. rewrite Hck. cbn [catch mbind result_bind vassert].
  unfold insertBlockHeader. rewrite Hhp. cbn [negb vassert mbind result_bind].
  set (k := hash_key b).
  assert (doInsertBlockHeader newAddon newHeader b 0 (emptyTree e) =
    Ok (with_blocks (λ _, {[k := setHeader b (with_finalized true (newRootIndex 0 newHeader newAddon))]}) (emptyTree e))) as ->.
  { unfold doInsertBlockHeader, getBlockIndex. change (blocks_ (emptyTree e) !! getPreviousBlock b) with (@None index_t). cbn beta iota.
    change (isBootstrapped (emptyTree e)) with (@Ok bool false). cbn [mbind result_bind Bool.eqb vassert].
    unfold createBootstrapBlockIndex. rewrite bool_decide_eq_true_2 by done. cbn [vassert mbind result_bind]. unfold modify.
    rewrite (deref_eq _ _ (with_finalized true (newRootIndex 0 newHeader newAddon))) by apply lookup_insert_eq.
    cbn [mbind result_bind]. unfold with_blocks. cbn. by rewrite insert_insert_eq. }
  change (blocks_ (emptyTree e) !! k) with (@None index_t). cbn [mbind result_bind].
  change (with_blocks _ (emptyTree e)) with
    (single e k (setHeader b (with_finalized true (newRootIndex 0 newHeader newAddon))) ∅ (mkChain 0 []) 0).
  rewrite single_deref. cbn [mbind result_bind]. set (n1 := mkBlockIndex 0 b 0 true None ∅ true newAddon : index_t).
  change (restore _) with (Ok n1). cbn [mbind result_bind]. rewrite single_insert.
  rewrite (single_addTip _ _ _ _ _ n1 false); [|done|done|].
  2:{ unfold canBeATip, isValid, isValidUpTo. rewrite tip_level. done. }
  cbn [mbind result_bind onBlockInserted plain_hooks]. rewrite single_work by done. cbn [mbind result_bind].
  set (w := set_chainWork (getBlockProof b) newAddon). set (n2 := mkBlockIndex 0 b 1 true None ∅ true w : index_t).
  change (set_work (getBlockProof (header n1)) n1) with (mkBlockIndex 0 b 0 true None ∅ true w : index_t).
  rewrite (single_raise _ _ _ _ _ _ _ (n2, true)) by done. cbn [mbind result_bind fst].
  rewrite single_modify. cbn [mbind result_bind]. rewrite single_chain by done. cbn [mbind result_bind].
  set (c := mkChain 0 [Some k]). change (with_chain c _) with (single e k (setHeight 0 n2) ∅ c 0). rewrite single_modify.
  set (n3 := mkBlockIndex 0 b 1 true None ∅ true (setIsBootstrap w) : index_t). change (setDirty _) with n3.
  cbn [mbind result_bind]. rewrite single_deref. cbn [mbind result_bind].
  change (finalized n3) with true. cbn [vassert mbind result_bind].
  assert (isBootstrapped (single e k n3 ∅ c 0) = Ok true) as ->.
  { unfold isBootstrapped. cbn. rewrite bool_decide_eq_false_2; [done|]. apply map_non_empty_singleton. }
  cbn [vassert mbind result_bind]. unfold getBlockIndex. change (blocks_ (single e k n3 ∅ c 0)) with ({[k := n3]} : gmap K index_t).
  change (hash_key (header n3)) with k. rewrite lookup_singleton_eq. change (isDeleted n3) with false.
  cbn [vassert mbind result_bind]. rewrite (single_addTip _ _ _ _ _ n3 true); [|done|done|].
  2:{ unfold canBeATip, isValid, isValidUpTo. rewrite tip_level. done. }
  cbn [mbind result_bind]. rewrite single_modify. cbn [mbind result_bind].
  set (n4 := mkBlockIndex 0 b (Z.lor BLOCK_CAN_BE_APPLIED BLOCK_ACTIVE) true None ∅ true (setIsBootstrap w) : index_t).
  rewrite (single_raise _ _ _ _ _ _ _ (n4, true)) by done. cbn [vassert mbind result_bind fst snd].
  rewrite single_modify. cbn [mbind result_bind].
  change (assertNotStarted (emptyTree e)) with (Ok ()). cbn [mbind result_bind]. unfold boot_tree.
  change (setFlag BLOCK_BOOTSTRAP n4) with (boot_node b). rewrite difference_empty_L, union_empty_r_L. done.
Qed.

Lemma boot_loading m root (pers : K → A) r (e : Ext) : saved m root → m !! root = Some r → height r = 0 → can_tip r = true →
  boot_addon (addon (boot_node (header r))) → loading m root pers (boot_tree (header r) e) ∅ (boot_tree (header r) e).
Proof.
  intros Hs Hr Hh Hc Hb. destruct (sv_root_live _ _ Hs) as (r' & Hr' & Hp & Hd). assert (r' = r) as -> by congruence.
  assert (hash_key (header r) = root) as Hk by by eapply sv_key.
  constructor; cbn [boot_tree blocks_ tips_ activeChain_ isLoaded_]; rewrite ?Hk.
  - by apply single_wf.
  - intros k i [<- <-]%lookup_singleton_Some. exists r. split_and!; [done|done|]. constructor; try done.
    + unfold work_of. cbn [boot_node addon]. rewrite chainWork_bootstrap, chainWork_set.
      pose proof (sv_work _ _ Hs root r Hr Hd) as Hw. by rewrite Hp in Hw.
    + cbn. by rewrite Hp.
    + split; [split; [done|by intros []]|done].
    + intros _. split_and!; [done| |done|done]. unfold can_tip. rewrite tip_level. done.
  - set_solver.
  - intros x. rewrite elem_of_singleton. unfold is_valid_tip. setoid_rewrite lookup_singleton_Some. split.
    + intros ->. exists (boot_node (header r)). split; [done|]. split; [unfold can_tip; by rewrite tip_level|]. intros c j Hin. set_solver.
    + by intros (i & [-> _] & _).
  - exists root. by apply single_chain_of.
  - done.
  - rewrite lookup_singleton_eq. eauto.
  - done.
  - done.
Qed.

(** ** The invariant of the tree *)
Section invariant.
Context {g : guard_state} (t : tree) (root : K) (r : index_t).
Context (Hinv : btree_at g t) (Hwork : work_ok (blocks_ t)) (Hroot : blocks_ t !! root = Some r) (Hpr : pprev r = None).
Hypothesis one_root : ∀ k i, blocks_ t !! k = Some i → pprev i = None → k = root.

Lemma unfailed_back n k i x j : blocks_ t !! k = Some i → isFailed i = false → back (blocks_ t) n k = Some x →
  blocks_ t !! x = Some j → isFailed j = false.
Proof.
  pose proof (bi_inv _ _ Hinv) as [[W _] Hchild _].
  revert k i. induction n as [|n IH]; intros k i Hk Hf Hb Hj; [cbn in Hb; congruence|]. destruct (pprev i) as [p|] eqn:Ep.
  - destruct (wf_prev _ W k i p Hk Ep) as (jp & Hjp & _). rewrite (back_S _ _ _ _ _ Hk Ep) in Hb. apply (IH p jp); try done.
    rewrite <- (Hchild k i p jp Hk Ep Hjp). rewrite isFailed_bits in Hf. by destruct (Z.testbit (status i) 7); rewrite ?orb_true_r in Hf.
  - cbn in Hb. rewrite Hk in Hb. cbn in Hb. by rewrite Ep in Hb.
Qed.

Lemma live_sound k i : blocks_ t !! k = Some i → isDeleted i = false → sound_status (status i).
Proof.
  intros Hk Hd. split_and!.
  - by apply (so_status _ (ti_store _ (bi_inv _ _ Hinv)) k).
  - by apply (bi_conn _ _ Hinv k).
  - by apply (bi_pop _ _ Hinv k).
  - unfold isDeleted in Hd. change BLOCK_DELETED with (Z.shiftl 1 10) in Hd. by rewrite hasFlags_bit in Hd by lia.
Qed.

Lemma tree_saved : (∀ k i, blocks_ t !! k = Some i → height i <= INT32_MAX) → saved (blocks_ t) root.
Proof.
  intros Hheights. constructor.
  - apply Hinv.
  - apply live_sound.
  - apply (bi_del _ _ Hinv).
  - apply (bi_key _ _ Hinv).
  - apply one_root.
  - exists r. split_and!; [done|done|by apply (bi_root _ _ Hinv root)].
  - exact Hheights.
  - done.
Qed.

Lemma root_can_tip : can_tip r = true ∧ height r = startHeight_ (activeChain_ t).
Proof.
  destruct (bi_root _ _ Hinv root r Hroot Hpr) as [Hh Hd]. split; [|done].
  destruct (bi_tip _ _ Hinv) as (k & i & Hc & Hk & _ & Hf).
  pose proof (so_wf _ (ti_store _ (bi_inv _ _ Hinv))) as W.
  destruct (back_to_root root (blocks_ t) r k i W Hroot one_root Hk) as [_ Hb].
  unfold can_tip. rewrite Hd, (unfailed_back _ k i root r Hk Hf Hb Hroot), tip_level. cbn [negb andb].
  apply Z.leb_le. pose proof (bi_conn _ _ Hinv root r Hroot Hd). lia.
Qed.

(** The loaded tree satisfies the invariant of the saved tree. *)
Lemma reloaded_inv (pers : K → A) t' : blocks_ t' = reloaded (blocks_ t) pers → wf_store (blocks_ t') →
  (∀ x, x ∈ tips_ t' ↔ is_valid_tip (blocks_ t) x) → activeChain_ t' = activeChain_ t →
  appliedBlockCount t' = blocksCount (activeChain_ t) →
  deferForkResolutionDepth t' = g.1 → isUpdateTipsDeferred t' = g.2 → lastModifiedBlock t' = None → btree_at g t'.
Proof.
  intros Eb W' Htips Ec Ea Ed Eu El.
  assert (∀ k i, blocks_ t' !! k = Some i → ∃ j, blocks_ t !! k = Some j ∧ isDeleted j = false ∧ i = reloaded_node (blocks_ t) pers k j) as Hb.
  { intros k i. rewrite Eb. apply reloaded_lookup. }
  constructor.
  - constructor.
    + split; [done|]. intros k i (j & Hj & Hd & ->)%Hb. by apply (live_sound k j).
    + intros k i p jp (j & Hj & Hd & ->)%Hb Hp (jp' & Hjp & Hdp & ->)%Hb. by apply (ti_child _ (bi_inv _ _ Hinv) k j p jp').
    + intros x. rewrite Htips, Eb. symmetry. apply reloaded_tips.
  - intros k i (j & Hj & Hd & ->)%Hb. by apply (bi_pop _ _ Hinv k j).
  - intros k i (j & Hj & Hd & ->)%Hb _. by apply (bi_conn _ _ Hinv k j).
  - intros k i (j & Hj & Hd & ->)%Hb Hd'. change (isDeleted j = true) in Hd'. congruence.
  - intros k i p jp _ _ (j' & _ & Hd & ->)%Hb Hd'. change (isDeleted j' = true) in Hd'. congruence.
  - intros k i (j & Hj & _ & ->)%Hb. by apply (bi_key _ _ Hinv k j).
  - intros k i (j & Hj & _ & ->)%Hb Hp. rewrite Ec. by apply (bi_root _ _ Hinv k j).
  - destruct (bi_tip _ _ Hinv) as (k & i & Hc & Hk & Hd & Hf). exists k, (reloaded_node (blocks_ t) pers k i). rewrite Ec.
    assert (blocks_ t' !! k = Some (reloaded_node (blocks_ t) pers k i)) as Hk' by (rewrite Eb; apply reloaded_lookup; by exists i).
    split_and!; [|done|done|done]. pose proof Hc as (i' & Hi' & Hle & Hlen & Hall). assert (i' = i) as -> by congruence.
    exists (reloaded_node (blocks_ t) pers k i). split_and!; [done|done|done|]. intros n Hn. destruct (Hall n Hn) as (x & Hx & Hbx).
    exists x. split; [done|]. revert Hbx. generalize (length (chain (activeChain_ t)) - 1 - n)%nat as d. intros d.
    clear -Hb Hk Hd Hk' Eb Hinv. revert k i Hk Hd Hk'. induction d as [|d IH]; intros k i Hk Hd Hk' Hbx; [done|].
    cbn in Hbx. rewrite Hk in Hbx. cbn in Hbx. cbn. rewrite Hk'. cbn. destruct (pprev i) as [p|] eqn:Ep; [|done].
    cbn in *. destruct (wf_prev _ (so_wf _ (ti_store _ (bi_inv _ _ Hinv))) k i p Hk Ep) as (jp & Hjp & _).
    assert (isDeleted jp = false) as Hdp.
    { destruct (isDeleted jp) eqn:E; [|done]. by rewrite (bi_del _ _ Hinv k i p jp) in Hd. }
    apply (IH p jp); [done|done| |done]. rewrite Eb. apply reloaded_lookup. by exists jp.
  - by rewrite Ec.
  - done.
Qed.
End invariant.
End reload.
