(* ===== verification/Restart.v ===== *)
(** * A saved tree is restored by loading it

    A node that is not marked as dirty is in the storage as it is
    ([synced]); [saveTree] makes that hold of all nodes.  Loading the blocks of the
    storage into a bootstrapped tree rebuilds the live part of the tree that was
    saved ([Reload]).  [restart_restores] puts the two together for the Bitcoin tree. *)
From stdpp Require Import sorting.
From Stdlib Require Import String.
From S2P Require Import Prelude BlockIndex Chain TreeAlgo PayloadsIndex BaseTree TreeInv TreeStorage BlockTree BlockTreeInv AcceptHeader StrUtil Serde Address Blocks Payloads Endorsements PopState BlockAddons StoredAddons AltParams StatelessValidation PowTrees AddEndorsement AltUtil VbkTree Storage Reload.

(** ** Iteration over the keys with a prefix *)
Lemma lex_le_refl a : lex_le a a = true.
Proof. induction a as [|x a IH]; [done|]. cbn. by rewrite Z.ltb_irrefl, Z.eqb_refl. Qed.

Lemma lex_le_trans a b c : lex_le a b = true → lex_le b c = true → lex_le a c = true.
Proof.
  revert b c. induction a as [|x a IH]; intros [|y b] [|z c]; cbn; try done.
  rewrite !orb_true_iff, !andb_true_iff, !Z.ltb_lt, !Z.eqb_eq. intros [?|[-> ?]] [?|[-> ?]]; [left; lia..|].
  right. split; [done|]. by apply (IH b).
Qed.

Lemma lex_le_total a b : lex_le a b = true ∨ lex_le b a = true.
Proof.
  revert b. induction a as [|x a IH]; intros [|y b]; cbn; [by left|by left|by right|].
  rewrite !orb_true_iff, !andb_true_iff, !Z.ltb_lt, !Z.eqb_eq.
  destruct (Z.lt_trichotomy x y) as [?|[->|?]]; [by left; left| |by right; left].
  destruct (IH b); [left|right]; by right.
Qed.

#[local] Instance key_le_trans : Transitive key_le.
Proof. intros x y z. apply lex_le_trans. Qed.
#[local] Instance key_le_total : Total key_le.
Proof. intros x y. apply lex_le_total. Qed.

Lemma is_sub_prefix e p : is_sub_vec e.1 [p] = has_prefix p e.
Proof. unfold has_prefix. destruct e as [[|x k] v]; cbn; [done|]. by destruct k; rewrite andb_true_r. Qed.

(** In a sorted list the keys with a prefix follow each other. *)
Definition from_prefix (p : Z) (e : list Z * list Z) : Prop := match e.1 with [] => False | x :: _ => p <= x end.

Lemma from_prefix_le p e e' : key_le e e' → from_prefix p e → from_prefix p e'.
Proof.
  unfold key_le, from_prefix. destruct e as [[|x k] v], e' as [[|x' k'] v']; cbn; [done|done|done|].
  rewrite orb_true_iff, andb_true_iff, Z.ltb_lt, Z.eqb_eq. lia.
Qed.

Lemma filter_none {X} (Q : X → Prop) `{∀ x, Decision (Q x)} (l : list X) : (∀ x, x ∈ l → ¬ Q x) → filter Q l = [].
Proof.
  induction l as [|x l IH]; intros Hn; [done|]. rewrite filter_cons_False; [apply IH; set_solver|]. apply Hn. by left.
Qed.

Lemma while_valid_filter p l : StronglySorted key_le l → Forall (from_prefix p) l →
  while_valid p l = filter (λ e, has_prefix p e = true) l.
Proof.
  induction 1 as [|e l Hs IH Hall]; [done|]. intros [Hf Hl]%Forall_cons. cbn [while_valid].
  destruct (has_prefix p e) eqn:E; [rewrite filter_cons_True by done; f_equal; by apply IH|].
  rewrite filter_cons_False by congruence. symmetry. apply filter_none. intros x Hx Hpx.
  assert (key_le e x) as Hle by (by eapply Forall_forall).
  unfold has_prefix, from_prefix, key_le in *. destruct e as [[|y k] v], x as [[|y' k'] v']; cbn in *; try done.
  apply Z.eqb_neq in E. apply Z.eqb_eq in Hpx. rewrite orb_true_iff, andb_true_iff, Z.ltb_lt, Z.eqb_eq in Hle. lia.
Qed.

Lemma seek_filter p l : StronglySorted key_le l → while_valid p (seek [p] l) = filter (λ e, has_prefix p e = true) l.
Proof.
  induction 1 as [|e l Hs IH Hall]; [done|]. cbn [seek]. rewrite is_sub_prefix. destruct (has_prefix p e) eqn:E.
  - apply while_valid_filter; [by constructor|]. assert (from_prefix p e) as Hf.
    { unfold has_prefix in E. unfold from_prefix. destruct e as [[|x k] v]; cbn in *; [done|]. apply Z.eqb_eq in E. lia. }
    constructor; [done|]. eapply Forall_impl; [exact Hall|]. intros x Hx. by apply (from_prefix_le p e).
  - rewrite filter_cons_False by congruence. apply IH.
Qed.

Lemma iterate_entries p s : iterate p s ≡ₚ filter (λ e, has_prefix p e = true) (map_to_list s).
Proof.
  unfold iterate, entries. rewrite seek_filter by apply (StronglySorted_merge_sort key_le).
  by rewrite (merge_sort_Permutation key_le).
Qed.

(** ** Saving *)
Section save.
Context {B A SA P Ext : Type} `{Countable P, !DbKeys B, !NodeStorage B A SA, !StoredAddon A SA}.
Context `{!BlockHash B (list Z), !BlockHeader B (list Z) (list Z)}.
Context (newAddon : A) `{!NodeStorageLaws B A SA newAddon}.
Hypothesis keys_differ : DB_PREV_BLOCK ≠ DB_BLOCK ∧ ∀ hash, tip_key ≠ block_key B hash.
Notation tree := (BaseBlockTree (list Z) (list Z) B A P Ext).
Notation index_t := (BlockIndex (list Z) B A).
Implicit Types (s : kv_storage) (t : tree) (i : index_t) (e : list Z * index_t).

Definition hash_of_node i : list Z := PayloadsIndex.getHash (BlockIndex.header i).
Definition key_of_node i : list Z := block_key B (hash_of_node i).

Definition synced t s : Prop := ∀ k i, blocks_ t !! k = Some i → isDirty i = false →
  s !! key_of_node i = Some (node_bytes newAddon i).

(** Every node can be written, and is stored under its hash. *)
Definition nodes_ok t : Prop := ∀ k i, blocks_ t !! k = Some i → node_ok newAddon i ∧ makePrevHash (hash_of_node i) = k.

Definition clean t : tree := with_blocks (fmap (λ i, if isDirty i then unsetDirty i else i)) t.

Lemma writeBlock_ok prev i s : node_ok newAddon i →
  writeBlock (hash_of_node i) prev (toStoredBlockIndex i) s =
    Ok (<[key_of_node i := node_bytes newAddon i]> (<[block_prev_key B prev := hash_of_node i]> s)).
Proof.
  intros Hi. destruct (node_storage newAddon i 0 Hi) as [Hw _]. unfold writeBlock, written.
  by rewrite Hw.
Qed.

Definition write_all (l : list (list Z * index_t)) s : kv_storage :=
  foldl (λ s e, <[key_of_node e.2 := node_bytes newAddon e.2]>
    (<[block_prev_key B (makePrevHash (hash_of_node e.2)) := hash_of_node e.2]> s)) s l.

Lemma write_all_ok (validator : index_t → result unit) l s : (∀ i, validator i = Ok ()) → (∀ e, e ∈ l → node_ok newAddon e.2) →
  foldM (λ s e, validator e.2;; let hash := PayloadsIndex.getHash (BlockIndex.header e.2) in
    writeBlock hash (makePrevHash hash) (toStoredBlockIndex e.2) s) l s = Ok (write_all l s).
Proof.
  intros Hv. revert s. induction l as [|e l IH]; intros s Hl; [done|]. cbn [foldM write_all foldl].
  rewrite Hv. cbn [mbind result_bind]. fold (hash_of_node e.2).
  rewrite writeBlock_ok by (apply Hl; by left). cbn [mbind result_bind]. apply IH. intros e' He'. apply Hl. by right.
Qed.

Lemma write_all_lookup l s hash : 
  (∀ e e', e ∈ l → e' ∈ l → hash_of_node e.2 = hash_of_node e'.2 → e = e') →
  (∀ e, e ∈ l → hash_of_node e.2 = hash → write_all l s !! block_key B hash = Some (node_bytes newAddon e.2)) ∧
  ((∀ e, e ∈ l → hash_of_node e.2 ≠ hash) → write_all l s !! block_key B hash = s !! block_key B hash).
Proof.
  unfold write_all. induction l as [|e l IH] using rev_ind; intros Hinj; [by split; [intros ? ?%not_elem_of_nil|]|].
  destruct IH as [IH1 IH2]; [intros e1 e2 ??; apply Hinj; set_solver|]. rewrite foldl_app. cbn [foldl].
  assert (∀ h, block_prev_key B h ≠ block_key B hash) as Hne.
  { intros h [= E _]. by apply (proj1 keys_differ). }
  destruct (decide (hash_of_node e.2 = hash)) as [Eh|Eh].
  - assert (key_of_node e.2 = block_key B hash) as Ek by (unfold key_of_node; congruence). rewrite Ek, lookup_insert_eq. split.
    + intros e' He' Eh'. by rewrite (Hinj e e') by (set_solver || congruence).
    + intros Hno. exfalso. apply (Hno e); set_solver.
  - assert (key_of_node e.2 ≠ block_key B hash) as Ek by (unfold key_of_node, block_key; congruence).
    rewrite !lookup_insert_ne by done. split.
    + intros e' [He'|He']%elem_of_app Eh'; [by apply IH1|]. apply list_elem_of_singleton in He' as ->. done.
    + intros Hno. apply IH2. intros e' He'. apply Hno. set_solver.
Qed.

(** Saving writes the dirty nodes and the tip, and nothing else. *)
Lemma saveTree_ok (validator : index_t → result unit) t s tip it : (∀ i, validator i = Ok ()) → nodes_ok t → synced t s →
  chain_tip (activeChain_ t) = Some tip → blocks_ t !! tip = Some it →
  ∃ s', saveTree validator (t, s) = Ok (clean t, s') ∧
    (∀ k i, blocks_ t !! k = Some i → s' !! key_of_node i = Some (node_bytes newAddon i)) ∧
    (∀ hash, (∀ k i, blocks_ t !! k = Some i → hash_of_node i ≠ hash) → s' !! block_key B hash = s !! block_key B hash) ∧
    s' !! tip_key = Some (hash_of_node it).
Proof.
  intros Hv Hok Hsync Htip Hit. unfold saveTree. fold (clean t).
  assert (∀ e, e ∈ dirty_indices t ↔ blocks_ t !! e.1 = Some e.2 ∧ isDirty e.2 = true) as Hin.
  { intros [k i]. unfold dirty_indices. rewrite (merge_sort_Permutation higher_first), list_elem_of_filter, elem_of_map_to_list.
    cbn. tauto. }
  rewrite (write_all_ok validator) by (done || (intros e [He _]%Hin; by eapply Hok)). cbn [mbind result_bind].
  change (activeChain_ (clean t)) with (activeChain_ t). rewrite Htip.
  assert (∃ it', blocks_ (clean t) !! tip = Some it' ∧ BlockIndex.header it' = BlockIndex.header it) as (it' & Hit' & Eh).
  { cbn. rewrite lookup_fmap, Hit. eexists. split; [done|]. by destruct (isDirty it). }
  rewrite (deref_eq _ _ _ Hit'). cbn [mbind result_bind]. eexists. split; [done|]. rewrite Eh. unfold writeTip.
  assert (∀ e e', e ∈ dirty_indices t → e' ∈ dirty_indices t → hash_of_node e.2 = hash_of_node e'.2 → e = e') as Hinj.
  { intros [k i] [k' i'] [Hk _]%Hin [Hk' _]%Hin Ehh. cbn in *. destruct (Hok k i Hk) as [_ E1]. destruct (Hok k' i' Hk') as [_ E2].
    assert (k = k') as -> by congruence. congruence. }
  pose proof (λ hash, write_all_lookup (dirty_indices t) s hash Hinj) as Hlook. destruct keys_differ as [_ Htk].
  split_and!; [| |by rewrite lookup_insert_eq].
  - intros k i Hk. unfold key_of_node. rewrite lookup_insert_ne by done. destruct (isDirty i) eqn:Ed.
    + apply (proj1 (Hlook (hash_of_node i)) (k, i)); [by apply Hin|done].
    + rewrite (proj2 (Hlook (hash_of_node i))); [by eapply Hsync|]. intros [k' i'] [Hk' Hd']%Hin Ehh. cbn in *.
      destruct (Hok k i Hk) as [_ E1]. destruct (Hok k' i' Hk') as [_ E2]. assert (k = k') as -> by congruence. congruence.
  - intros hash Hno. rewrite lookup_insert_ne by done. apply Hlook. intros [k i] [Hk _]%Hin. by eapply Hno.
Qed.
End save.

(** ** Reading *)
Section read.
Context {B A SA P Ext : Type} `{Countable P, !DbKeys B, !NodeStorage B A SA, !StoredAddon A SA}.
Context `{!BlockHash B (list Z), !BlockHeader B (list Z) (list Z)}.
Context (newAddon : A) `{!NodeStorageLaws B A SA newAddon}.
Notation index_t := (BlockIndex (list Z) B A).
Notation stored_t := (StoredBlockIndex B SA).
Implicit Types (s : kv_storage) (i : index_t) (v : stored_t).

(** What is read of a node. *)
Definition read_as (a : Z) i v : Prop :=
  stored_height v = height i ∧ stored_header v = BlockIndex.header i ∧ stored_status v = status i ∧
  setNullInmemFields (toInmem (stored_addon v) newAddon) = persisted a (addon i).

Lemma readValue_ok a i : node_ok newAddon i → ∃ v, readValue a (node_bytes newAddon i) = Ok (Some v) ∧ read_as a i v.
Proof.
  intros Hi. destruct (node_storage newAddon i a Hi) as [_ (v & Hr & Hf)]. exists v. split.
  - unfold readValue. rewrite (Hr (newStream (node_bytes newAddon i)) []); [done|]. by rewrite app_nil_r.
  - destruct (Hf (with_addon newAddon i) eq_refl) as (Eh & Eb & Es & Ea & _). destruct (loadFields_fields v (with_addon newAddon i)) as (_ & E1 & E2).
    split_and!; [congruence| |congruence|].
    + rewrite <- Eb. unfold loadFields, mergeFrom, setStatus. cbn [setHeight setHeader status]. by destruct (_ =? _).
    + rewrite <- Ea. unfold loadFields, mergeFrom, setStatus. cbn [setHeight setHeader status]. by destruct (_ =? _).
Qed.

(** The entries of the nodes [l]. *)
Definition entry_of i : list Z * list Z := (key_of_node i, node_bytes newAddon i).

Lemma read_blocks_ok (alloc : list Z → Z) (l : list index_t) (vals : index_t → stored_t) :
  (∀ i, i ∈ l → node_ok newAddon i ∧ readValue (alloc (key_of_node i)) (node_bytes newAddon i) = Ok (Some (vals i)) ∧
    stored_status (vals i) = status i) →
  read_blocks alloc (map entry_of l) = Ok (map vals (filter (λ i, isDeleted i = false) l)).
Proof.
  induction l as [|i l IH]; intros Hl; [done|]. cbn [map read_blocks entry_of].
  destruct (Hl i) as (_ & Hr & Es); [by left|]. rewrite Hr. cbn [mbind result_bind].
  rewrite IH by (intros j Hj; apply Hl; by right). cbn [mbind result_bind].
  assert (stored_deleted (vals i) = isDeleted i) as ->.
  { unfold stored_deleted, isDeleted, hasFlags. by rewrite Es. }
  destruct (isDeleted i) eqn:E; [by rewrite filter_cons_False by congruence|by rewrite filter_cons_True].
Qed.
End read.

(** ** The storage after saving *)
Section stored.
Context {B A SA P Ext : Type} `{Countable P, !DbKeys B, !NodeStorage B A SA, !StoredAddon A SA}.
Context `{!BlockHash B (list Z), !BlockHeader B (list Z) (list Z)}.
Context (newAddon : A) `{!NodeStorageLaws B A SA newAddon}.
Notation tree := (BaseBlockTree (list Z) (list Z) B A P Ext).
Notation index_t := (BlockIndex (list Z) B A).
Implicit Types (s : kv_storage) (t : tree) (i : index_t).

Definition nodes t : list index_t := (map_to_list (blocks_ t)).*2.

Lemma elem_of_nodes t i : i ∈ nodes t ↔ ∃ k, blocks_ t !! k = Some i.
Proof.
  unfold nodes. rewrite list_elem_of_fmap. split.
  - intros ([k j] & -> & Hk%elem_of_map_to_list). by exists k.
  - intros [k Hk]. exists (k, i). by rewrite elem_of_map_to_list.
Qed.

Lemma NoDup_nodes {X} t (f : index_t → X) :
  (∀ k i k' i', blocks_ t !! k = Some i → blocks_ t !! k' = Some i' → f i = f i' → k = k') → NoDup (map f (nodes t)).
Proof.
  intros Hf. unfold nodes. rewrite map_map. apply NoDup_fmap_2_strong; [|apply NoDup_map_to_list].
  intros [k i] [k' i'] Hk%elem_of_map_to_list Hk'%elem_of_map_to_list E. cbn in E.
  assert (k = k') as <- by by eapply Hf. congruence.
Qed.

Lemma NoDup_nodes_id t : (∀ k i k', blocks_ t !! k = Some i → blocks_ t !! k' = Some i → k = k') → NoDup (nodes t).
Proof. intros Hf. rewrite <- (map_id (nodes t)). apply NoDup_nodes. intros k i k' i' Hk Hk' ->. by eapply Hf. Qed.

(** When the blocks of the storage are the nodes of the tree, the iterator
    visits each of them once. *)
Lemma iterate_nodes t s : nodes_ok newAddon t →
  (∀ k i, blocks_ t !! k = Some i → s !! key_of_node i = Some (node_bytes newAddon i)) →
  (∀ hash bytes, s !! block_key B hash = Some bytes → ∃ k i, blocks_ t !! k = Some i ∧ hash_of_node i = hash) →
  ∃ l, iterate DB_BLOCK s = map (entry_of newAddon) l ∧ l ≡ₚ nodes t.
Proof.
  intros Hok Hin Hout. assert (iterate DB_BLOCK s ≡ₚ map (entry_of newAddon) (nodes t)) as HP.
  { rewrite iterate_entries. apply NoDup_Permutation.
    - apply NoDup_filter, NoDup_map_to_list.
    - apply NoDup_nodes. intros k i k' i' Hk Hk' [= E _]. destruct (Hok k i Hk) as [_ <-], (Hok k' i' Hk') as [_ <-].
      unfold key_of_node, block_key in E. congruence.
    - intros [key bytes]. rewrite list_elem_of_filter, elem_of_map_to_list. unfold has_prefix. cbn [fst].
      setoid_rewrite list_elem_of_fmap. split.
      + intros [Hp Hs]. destruct key as [|x hash]; [done|]. apply Z.eqb_eq in Hp as ->.
        destruct (Hout hash bytes Hs) as (k & i & Hk & <-). exists i. rewrite elem_of_nodes. split; [|by exists k].
        unfold entry_of, key_of_node, block_key. f_equal. specialize (Hin k i Hk). unfold key_of_node, block_key in Hin. congruence.
      + intros (i & [= -> ->] & [k Hk]%elem_of_nodes). split; [apply Z.eqb_refl|by eapply Hin]. }
  apply Permutation_map_inv in HP as (l & -> & Hl). exists l. by split.
Qed.

Lemma StronglySorted_image {X Y} (R : Y → Y → Prop) (f : X → Y) (l : list X) :
  StronglySorted R (map f l) → StronglySorted (λ a b, R (f a) (f b)) l.
Proof.
  induction l as [|x l IH]; [by constructor|]. cbn. intros [Hs Hall]%StronglySorted_inv. constructor; [by apply IH|].
  by rewrite Forall_map in Hall.
Qed.
End stored.

(** ** The Bitcoin tree *)
Section restart.
Context `{Hashes} `{ProgPow} `{BR : !BlockRules (list Z) Btc.BtcBlock BtcBlockAddon}.
Notation btc_tree := (BaseBlockTree (list Z) (list Z) Btc.BtcBlock BtcBlockAddon (list Z) unit).
Notation btc_index := (BlockIndex (list Z) Btc.BtcBlock BtcBlockAddon).
Implicit Types (t : btc_tree) (s : kv_storage) (i r : btc_index).

Lemma btc_keys_differ : DB_PREV_BLOCK (B := Btc.BtcBlock) ≠ DB_BLOCK (B := Btc.BtcBlock) ∧ ∀ hash, tip_key (B := Btc.BtcBlock) ≠ block_key Btc.BtcBlock hash.
Proof. by split. Qed.

Lemma btc_hash_length b : length (Btc.calculateHash b) = SHA256_HASH_SIZE.
Proof.
  unfold Btc.calculateHash, written. rewrite (Btc.btc_writes_raw b []). unfold sha256twice. by rewrite length_rev, sha256_length.
Qed.

(** All nodes can be written. *)
Definition storable t : Prop := ∀ k i, blocks_ t !! k = Some i → node_ok newBtcAddon i.

(** The storage holds the blocks of the tree that are not marked as dirty, and
    no other block. *)
Definition stores s t : Prop := synced newBtcAddon t s ∧
  ∀ hash bytes, s !! block_key Btc.BtcBlock hash = Some bytes → ∃ k i, blocks_ t !! k = Some i ∧ hash_of_node i = hash.

(** The rules accept the blocks of the tree again, in every tree with the
    same headers. *)
Definition accepted_again t : Prop := ∀ k i, blocks_ t !! k = Some i → isDeleted i = false →
  BlockTree.checkBlock (BlockIndex.header i) = Ok () ∧
  ∀ p M, pprev i = Some p → hasFlags i BLOCK_BOOTSTRAP = false → is_Some (M !! p) → wf_store M →
    (∀ x ix, M !! x = Some ix → ∃ jx, blocks_ t !! x = Some jx ∧ BlockIndex.height ix = BlockIndex.height jx ∧
      BlockIndex.header ix = BlockIndex.header jx ∧ pprev ix = pprev jx) →
    BlockTree.contextuallyCheckBlock M p (BlockIndex.header i) = Ok ().

(** The tree grew from one genesis block. *)
Record grown_from t r : Prop := {
  gf_root : blocks_ t !! hash_key (BlockIndex.header r) = Some r;
  gf_prev : pprev r = None;
  gf_height : BlockIndex.height r = 0;
  gf_only : ∀ k i, blocks_ t !! k = Some i → pprev i = None → k = hash_key (BlockIndex.header r);
  gf_work : work_ok (blocks_ t)
}.

(** The addon of a restored block but for its work, which is computed again. *)
Definition restored_addon t (k : list Z) : BtcBlockAddon :=
  match blocks_ t !! k with Some i => mkBtcAddon 0 (refs (addon i)) [] | None => newBtcAddon end.

(** What is read for a node. *)
Definition value_of (alloc : list Z → Z) (v0 : StoredBlockIndex Btc.BtcBlock StoredBtcBlockAddon) i :=
  match readValue (alloc (key_of_node i)) (node_bytes newBtcAddon i) with Ok (Some v) => v | _ => v0 end.

Lemma value_of_ok alloc v0 i : node_ok newBtcAddon i →
  readValue (alloc (key_of_node i)) (node_bytes newBtcAddon i) = Ok (Some (value_of alloc v0 i)) ∧
  read_as newBtcAddon (alloc (key_of_node i)) i (value_of alloc v0 i).
Proof. intros Hi. destruct (readValue_ok newBtcAddon (alloc (key_of_node i)) i Hi) as (v & Hv & Hr). unfold value_of. by rewrite Hv. Qed.

Lemma node_key t k i : btree_inv t → blocks_ t !! k = Some i → hash_of_node i = k.
Proof. intros Hinv Hk. by destruct (bi_key _ _ Hinv k i Hk). Qed.

(** The storage is read back as the live blocks and the tip. *)
Lemma load_saved t s1 alloc v0 tip it : btree_inv t → storable t →
  (∀ k i, blocks_ t !! k = Some i → s1 !! key_of_node i = Some (node_bytes newBtcAddon i)) →
  (∀ hash bytes, s1 !! block_key Btc.BtcBlock hash = Some bytes → ∃ k i, blocks_ t !! k = Some i ∧ hash_of_node i = hash) →
  blocks_ t !! tip = Some it → isDeleted it = false → s1 !! tip_key (B := Btc.BtcBlock) = Some (hash_of_node it) →
  ∃ l, loadBlocksAndTip (B := Btc.BtcBlock) alloc s1 = Ok (map (value_of alloc v0) l, Some tip) ∧
    l ≡ₚ filter (λ i, isDeleted i = false) (nodes t).
Proof.
  intros Hinv Hst Hin Hout Hit Hd Htip.
  destruct (iterate_nodes newBtcAddon t s1) as (l & Hl & HP); [|done|done|].
  { intros k i Hk. split; [by eapply Hst|]. by apply (node_key t). }
  exists (filter (λ i, isDeleted i = false) l). split; [|by rewrite HP].
  unfold loadBlocksAndTip. rewrite Hl, (read_blocks_ok newBtcAddon alloc l (value_of alloc v0)).
  2:{ intros i Hi. rewrite HP, elem_of_nodes in Hi. destruct Hi as [k Hk]. pose proof (Hst k i Hk) as Hok.
      destruct (value_of_ok alloc v0 i Hok) as (Hv & _ & _ & Es & _). by split_and!. }
  cbn [mbind result_bind]. unfold getTip. rewrite Htip. cbn [hash_from btc_keys]. unfold newBlob.
  assert (length (hash_of_node it) = SHA256_HASH_SIZE) as El by apply btc_hash_length.
  rewrite El, Nat.ltb_irrefl, Nat.sub_diag, app_nil_r, (node_key t tip it Hinv Hit). cbn [mbind result_bind].
  destruct (map (value_of alloc v0) _) eqn:E; [|done]. apply map_eq_nil in E. exfalso.
  assert (it ∈ filter (λ i, isDeleted i = false) l) as Hf.
  { apply list_elem_of_filter. split; [done|]. rewrite HP, elem_of_nodes. by exists tip. }
  rewrite E in Hf. by apply not_elem_of_nil in Hf.
Qed.

Lemma btc_valid_tip_level : validTipLevel (A := BtcBlockAddon) = 1.
Proof. done. Qed.

Lemma btc_boot_addon a : boot_addon (SA := StoredBtcBlockAddon) newBtcAddon a.
Proof. intros sa. cbn [toInmem setNullInmemFields btc_stored]. unfold btc_toInmem. by rewrite !btc_refs_added. Qed.

(** The keys of the live nodes. *)
Lemma live_node_keys t (l : list btc_index) : btree_inv t → l ≡ₚ filter (λ i, isDeleted i = false) (nodes t) →
  NoDup (map hash_of_node l) ∧ ∀ k, k ∈ map hash_of_node l ↔ is_live (blocks_ t) k.
Proof.
  intros Hinv HP. split.
  - rewrite HP. apply NoDup_fmap_2_strong.
    + intros i i' [_ [k Hk]%elem_of_nodes]%list_elem_of_filter [_ [k' Hk']%elem_of_nodes]%list_elem_of_filter E.
      rewrite (node_key t k i), (node_key t k' i') in E by done. congruence.
    + apply NoDup_filter, NoDup_nodes_id. intros k i k' Hk Hk'. by rewrite <- (node_key t k i), <- (node_key t k' i).
  - intros k. rewrite list_elem_of_fmap. setoid_rewrite HP. setoid_rewrite list_elem_of_filter. setoid_rewrite elem_of_nodes. split.
    + intros (i & -> & Hd & k' & Hk'). rewrite (node_key t k' i) by done. by exists i.
    + intros (i & Hk & Hd). exists i. rewrite (node_key t k i) by done. split_and!; [done|done|by exists k].
Qed.

#[local] Instance lower_first_trans : Transitive (lower_first (B := Btc.BtcBlock) (SA := StoredBtcBlockAddon)).
Proof. intros x y z. unfold lower_first. lia. Qed.
#[local] Instance lower_first_total : Total (lower_first (B := Btc.BtcBlock) (SA := StoredBtcBlockAddon)).
Proof. intros x y. unfold lower_first. lia. Qed.

(** Loading the blocks that were read. *)
Lemma btc_reload t r tip it l alloc v0 fast : btree_inv t → grown_from t r → storable t →
  hashIsPrevious (BlockIndex.header r) = false → BlockTree.checkBlock (BlockIndex.header r) = Ok () → (fast = false → accepted_again t) →
  chain_of (blocks_ t) (activeChain_ t) tip → blocks_ t !! tip = Some it → isDeleted it = false →
  l ≡ₚ filter (λ i, isDeleted i = false) (nodes t) →
  ∃ t0 t', bootstrapWithGenesis (HK := plain_hooks) newBtcAddon newBtcHeader (BlockIndex.header r) (emptyTree ()) = Ok t0 ∧
    btc_loadTree tip (map (value_of alloc v0) l) fast t0 = Ok t' ∧
    blocks_ t' = reloaded (blocks_ t) (restored_addon t) ∧ tips_ t' = tips_ t ∧ activeChain_ t' = activeChain_ t ∧ btree_inv t'.
Proof.
  intros Hinv [Hr Hpr Hh Honly Hwork] Hst Hhp Hck Hacc Hc Hit Hd HP. set (root := hash_key (BlockIndex.header r)) in *.
  assert (∀ k i, blocks_ t !! k = Some i → BlockIndex.height i <= INT32_MAX) as Hheights.
  { intros k i Hk. destruct (Hst k i Hk) as ([_ Hrange] & _). change (2 ^ _) with 2147483648 in Hrange. unfold INT32_MAX. lia. }
  pose proof (tree_saved t root r Hinv Hwork Hr Hpr Honly Hheights) as Hsaved.
  destruct (root_can_tip btc_valid_tip_level t root r Hinv Hr Hpr Honly) as [Hct Hstart].
  set (t0 := boot_tree newBtcAddon (Ext := unit) (P := list Z) (BlockIndex.header r) ()).
  assert (loading newBtcAddon (blocks_ t) root (restored_addon t) t0 ∅ t0) as Hld by (by apply boot_loading; [apply btc_valid_tip_level|..|apply btc_boot_addon]).
  set (vals := λ k, match blocks_ t !! k with Some i => value_of alloc v0 i | None => v0 end).
  assert (∀ k i, blocks_ t !! k = Some i → isDeleted i = false →
    stored_height (vals k) = BlockIndex.height i ∧ stored_header (vals k) = BlockIndex.header i ∧ stored_status (vals k) = status i ∧
    setNullInmemFields (toInmem (stored_addon (vals k)) newBtcAddon) = restored_addon t k) as Hvals.
  { intros k i Hk _. unfold vals, restored_addon. rewrite Hk. destruct (value_of_ok alloc v0 i (Hst k i Hk)) as (_ & E1 & E2 & E3 & E4).
    by split_and!. }
  (* the blocks, lowest first *)
  pose proof (merge_sort_Permutation lower_first (map (value_of alloc v0) l)) as Hsort.
  pose proof (StronglySorted_merge_sort lower_first (map (value_of alloc v0) l)) as Hss.
  apply Permutation_map_inv in Hsort as (l' & El' & HP'). rewrite El' in Hss.
  destruct (live_node_keys t l' Hinv) as [Hnd Hkeys]; [by rewrite <- HP', HP|].
  assert (map (value_of alloc v0) l' = map vals (map hash_of_node l')) as Emap.
  { rewrite map_map. apply map_ext_in. intros i Hi%list_elem_of_In. unfold vals.
    rewrite <- HP', HP, list_elem_of_filter, elem_of_nodes in Hi. destruct Hi as [_ [k Hk]]. by rewrite (node_key t k i Hinv Hk), Hk. }
  rewrite Emap in Hss. apply StronglySorted_image in Hss.
  destruct (reload_ok newBtcAddon newBtcHeader btc_valid_tip_level (blocks_ t) root vals (restored_addon t) fast Hsaved Hvals Hacc t0
    (map hash_of_node l') (activeChain_ t) tip r Hld Hnd Hkeys Hss Hc) as
    (t1 & t' & Ht1 & Ht' & Eb & W' & Htips & Ec & Ea & _ & _ & Edf & Eup & Elm); [by exists it|done|done|done|].
  exists t0, t'. split; [by apply bootstrap_ok|]. split.
  - unfold btc_loadTree, loadTree. destruct (map (value_of alloc v0) l) as [|v l0] eqn:El.
    { exfalso. assert (tip ∈ map hash_of_node l') as Hin by (apply Hkeys; by exists it).
      rewrite (map_eq_nil _ _ El) in HP'. apply Permutation_nil in HP' as ->. by apply not_elem_of_nil in Hin. }
    destruct (loading_root _ _ _ _ _ _ _ Hld) as [-> _]. cbn [mbind result_bind vassert]. rewrite El', Emap, Ht1. cbn [mbind result_bind].
    change (btc_key tip) with tip. rewrite Ht'. cbn [or_invalid mbind result_bind]. rewrite Ec.
    destruct (chain_of_tip _ _ _ _ Hc Hit) as [-> _]. by rewrite bool_decide_eq_true_2.
  - split; [done|]. split; [|split; [done|]].
    + apply set_eq. intros x. rewrite Htips. symmetry. apply (ti_tips _ (bi_inv _ _ Hinv)).
    + eapply reloaded_inv; try done. by rewrite Eb.
Qed.

(** What was saved is stored. *)
Lemma saved_stores t s1 : (∀ k i, blocks_ t !! k = Some i → s1 !! key_of_node i = Some (node_bytes newBtcAddon i)) →
  (∀ hash bytes, s1 !! block_key Btc.BtcBlock hash = Some bytes → ∃ k i, blocks_ t !! k = Some i ∧ hash_of_node i = hash) →
  stores s1 (clean t).
Proof.
  intros Hin Hout. split.
  - intros k i Hk _. cbn in Hk. rewrite lookup_fmap in Hk. destruct (blocks_ t !! k) as [j|] eqn:Ej; [|done]. injection Hk as <-.
    specialize (Hin k j Ej). by destruct (isDirty j).
  - intros hash bytes Hs. destruct (Hout hash bytes Hs) as (k & j & Hj & Eh). eexists k, _. cbn. rewrite lookup_fmap, Hj.
    split; [done|]. by destruct (isDirty j).
Qed.

(** C3: A Bitcoin tree that grew from one genesis block survives a restart.
    Saving it succeeds and leaves a storage that holds the whole tree; what is
    loaded from that storage into a tree bootstrapped with the genesis block is
    accepted, block by block, and gives the live part of the tree that was saved
    (heights, headers, status words, links, references and the work, which is
    computed again), the same tips and the same active chain, and a tree that
    satisfies the invariant. *)
Theorem restart_restores t r s alloc fast : btree_inv t → grown_from t r → storable t → stores s t →
  hashIsPrevious (BlockIndex.header r) = false → BlockTree.checkBlock (BlockIndex.header r) = Ok () → (fast = false → accepted_again t) →
  ∃ s1 blocks tip t0 t',
    saveTree (λ _, Ok ()) (t, s) = Ok (clean t, s1) ∧ stores s1 (clean t) ∧
    loadBlocksAndTip (B := Btc.BtcBlock) alloc s1 = Ok (blocks, Some tip) ∧ chain_tip (activeChain_ t) = Some tip ∧
    bootstrapWithGenesis (HK := plain_hooks) newBtcAddon newBtcHeader (BlockIndex.header r) (emptyTree ()) = Ok t0 ∧
    btc_loadTree tip blocks fast t0 = Ok t' ∧
    blocks_ t' = reloaded (blocks_ t) (restored_addon t) ∧ tips_ t' = tips_ t ∧ activeChain_ t' = activeChain_ t ∧ btree_inv t'.
Proof.
  intros Hinv Hgr Hst [Hsync Hout] Hhp Hck Hacc. destruct (bi_tip _ _ Hinv) as (tip & it & Hc & Hit & Hd & _).
  destruct (chain_of_tip _ _ _ _ Hc Hit) as [Htip _].
  destruct (saveTree_ok newBtcAddon btc_keys_differ (λ _, Ok ()) t s tip it) as (s1 & Hs1 & Hin & Hno & Ht1); try done.
  { intros k i Hk. split; [by eapply Hst|]. by apply (node_key t). }
  destruct (readValue_ok newBtcAddon 0 it (Hst tip it Hit)) as (v0 & _).
  assert (∀ hash bytes, s1 !! block_key Btc.BtcBlock hash = Some bytes → ∃ k i, blocks_ t !! k = Some i ∧ hash_of_node i = hash) as Hout1.
  { intros hash bytes Hs. destruct (blocks_ t !! hash) as [i|] eqn:Ei; [exists hash, i; split; [done|by apply (node_key t)]|].
    rewrite Hno in Hs; [by eapply Hout|]. intros k i Hk Eh. rewrite (node_key t k i) in Eh by done. congruence. }
  destruct (load_saved t s1 alloc v0 tip it) as (l & Hl & HP); try done.
  destruct (btc_reload t r tip it l alloc v0 fast) as (t0 & t' & ?); try done.
  exists s1, (map (value_of alloc v0) l), tip, t0, t'. split; [done|]. split; [by apply saved_stores|]. done.
Qed.
End restart.

(** A tree of two blocks, saved for the first time. *)
Module Example_restart.
Import Example_btc.
#[local] Existing Instances toy_hashes rules.
Definition saved_tree : btc_tree :=
  match btc_acceptBlockHeader params tp 2000 b t with Ok (t', _) => t' | _ => t end.

Definition root_node : BlockIndex (list Z) Btc.BtcBlock BtcBlockAddon := default genesis_node (blocks_ saved_tree !! k).

Lemma saved_tree_inv : btree_inv saved_tree.
Proof. apply btree_check_ok, (bool_decide_eq_true_1 (btree_check saved_tree)). vm_compute. reflexivity. Qed.

Lemma saved_tree_grown : grown_from saved_tree root_node.
Proof.
  split.
  - vm_compute. reflexivity.
  - vm_compute. reflexivity.
  - vm_compute. reflexivity.
  - refine (bool_decide_eq_true_1 (map_Forall (λ k i, pprev i = None → k = hash_key (BlockIndex.header root_node)) (blocks_ saved_tree)) _).
    vm_compute. reflexivity.
  - refine (bool_decide_eq_true_1 (work_ok (blocks_ saved_tree)) _). vm_compute. reflexivity.
Qed.

#[local] Instance node_ok_dec (i : BlockIndex (list Z) Btc.BtcBlock BtcBlockAddon) : Decision (node_ok newBtcAddon i).
Proof. unfold node_ok. cbn. unfold Btc.btc_valid, btc_addon_ok, heights_ok, ids_ok, blob_ok. apply _. Defined.

Lemma saved_tree_storable : storable saved_tree.
Proof.
  refine (bool_decide_eq_true_1 (map_Forall (λ k i, node_ok newBtcAddon i) (blocks_ saved_tree)) _). vm_compute. reflexivity.
Qed.
Lemma saved_tree_stores : stores ∅ saved_tree.
Proof.
  split.
  - intros k i Hk Hd. exfalso. assert (map_Forall (λ _ i, isDirty i = true) (blocks_ saved_tree)) as Hall.
    { refine (bool_decide_eq_true_1 _ _). vm_compute. reflexivity. }
    specialize (Hall k i Hk). cbn in Hall. congruence.
  - intros hash bytes. by rewrite lookup_empty.
Qed.
End Example_restart.
Import Example_restart.
#[local] Existing Instances toy_hashes Example_btc.rules.

Lemma restart_restores_witness : ∃ s1 blocks tip t0 t',
    saveTree (λ _, Ok ()) (saved_tree, ∅ : kv_storage) = Ok (clean saved_tree, s1) ∧ stores s1 (clean saved_tree) ∧
    loadBlocksAndTip (B := Btc.BtcBlock) (λ _, 0) s1 = Ok (blocks, Some tip) ∧ chain_tip (activeChain_ saved_tree) = Some tip ∧
    bootstrapWithGenesis (HK := plain_hooks) newBtcAddon newBtcHeader (BlockIndex.header root_node) (emptyTree ()) = Ok t0 ∧
    btc_loadTree tip blocks true t0 = Ok t' ∧
    blocks_ t' = reloaded (blocks_ saved_tree) (restored_addon saved_tree) ∧ tips_ t' = tips_ saved_tree ∧
    activeChain_ t' = activeChain_ saved_tree ∧ btree_inv t'.
Proof.
  apply (restart_restores saved_tree root_node ∅ (λ _, 0) true).
  - apply saved_tree_inv.
  - apply saved_tree_grown.
  - apply saved_tree_storable.
  - apply saved_tree_stores.
  - vm_compute. reflexivity.
  - vm_compute. reflexivity.
  - intros E; discriminate E.
Defined.
